(* ===== verification/_CoqProject ===== *)
-Q . S2P
Prelude.v
GoStd.v
Model.v
Gtid.v
Endpoint.v
Lease.v
Locks.v
Repository.v
Inventory.v
Operations.v
Power.v
AgentProtocol.v
FailureWindow.v
HAEndpoints.v
Interfaces.v
LinuxVIP.v
Transition.v
Bootstrap.v
Ownership.v
Fence.v
Selection.v
Disaster.v
AgentReconcile.v
Reconciler.v
Candidates.v
Program.v
MySQLAdapter.v
MySQLPlans.v
SimulatedMySQL.v
Promotion.v
History.v
Switchover.v
Failover.v
MySQLOperations.v
SwitchoverSafety.v
FailoverSafety.v
Resumption.v
MySQLSafety.v
MySQLText.v
Approval.v
ApprovalSafety.v
WorkflowBase.v
Workflow.v
WorkflowLegacy.v
WorkflowRecovery.v
WorkflowGates.v
WorkflowSystem.v
SimulatedWorkflow.v
WorkflowSafety.v
WorkflowEntry.v
AutomaticRecovery.v
RecoverySafety.v
Observation.v
MemoryLocks.v
Resolver.v
SnapshotEquality.v
SnapshotState.v
Replication.v
ReplicationSafety.v
Consensus.v
ConsensusSafety.v
