(* ===== verification/Prelude.v ===== *)
(** * ClusterGuard HA: a verification library

    ClusterGuard HA is a control plane for database clusters (MySQL, PostgreSQL
    and others).  Controllers replicate one metadata snapshot through a Raft
    library, observe the databases, decide on switchovers and failovers, and
    hand out the leases that say which database host may hold a cluster's
    virtual IP; agents on the hosts renew their lease and drop the address when
    they cannot.  This library models the deterministic core of that program:
    the decisions, the state machines and the durable records, not the network,
    the SQL or the Raft log.

    ** The program's parts and the files that model them

    - [GoStd]: what the code uses of Go: [time.Time] (nanoseconds, saturating
      [Sub]), [uint64] and [int64] wrap-around, [strings], [strconv], sorting.
    - [Model]: [src/pkg/model]: identifiers, enumerations and records, with
      record-update instances.
    - [Gtid]: [src/pkg/gtid/gtid.go]: MySQL GTID sets: parsing, normal form,
      exact counting on [uint64], comparison and recovery assessment.
    - [Endpoint]: scope keys shared by leases and endpoints.
    - [Lease]: [src/internal/coordination/lease.go]: the store of ownership
      leases, written against the class of durable lease repositories; an
      abstract specification (one holder per endpoint) and its refinement.
    - [Locks]: [src/internal/coordination/operation_lock.go]: exclusive operation
      locks and their renewal, against the class of lock repositories.
    - [Repository]: [src/internal/store/repository.go] and its neighbours: the
      snapshot, the commit with its three outcomes, history compaction, the
      coordination records; it is the instance of both classes above.
    - [Operations]: [src/internal/store/operations.go], [approvals.go],
      [redaction.go]: workflow operations and approval grants.
    - [Power]: [src/pkg/model/power.go], [src/internal/store/power.go],
      [power_complete.go]: planned power-off and recovery of a cluster.
    - [FailureWindow]: [src/internal/coordination/failure_window.go],
      [membership.go], [agent_authorization.go]: when a failure is stable, when
      a controller has authority, until when an agent may act.
    - [Inventory]: the queries of [repository.go] for clusters and topologies.
    - [HAEndpoints]: [src/internal/store/ha_endpoints.go]: the registry of
      virtual addresses and services and of their owners.
    - [AgentProtocol]: [src/internal/agent/reconcile_protocol.go] and the signed
      commands of [protocol.go]: messages, their signatures and their checks.
    - [Interfaces]: what the controllers' components ask of the store, of the
      lease store and of the agents, one class per Go interface, with the laws
      of the lease store and their proof for the repository ([World]).
    - [LinuxVIP], [Transition]: [src/internal/endpoint/linux_vip.go]: observing and
      moving the writer VIP; the authorizations that hold a lease meanwhile.
    - [Bootstrap]: [src/internal/coordination/reboot_bootstrap.go]: who may write
      after a reboot of the whole cluster.
    - [Ownership]: [src/internal/coordination/ownership_keeper.go],
      [ownership_ack.go]: the loop that keeps the VIP with the writable primary.
    - [Fence]: [src/internal/coordination/failover_safety.go]: how a failover makes
      sure that the old primary cannot write.
    - [Selection]: [src/internal/disaster/selection.go], [wal.go]: which member of a
      destroyed cluster holds every transaction.
    - [Disaster]: [src/internal/store/disaster.go]: the recovery tasks.
    - [AgentReconcile]: [src/internal/api/agent_reconcile.go],
      [src/internal/coordination/self_isolation.go]: what an agent is told to do.
    - [Reconciler]: [src/internal/agent/reconciler.go]: what the agent does.
    - [Candidates]: [src/adapters/mysql/candidates.go],
      [src/internal/recovery/mysql_selector.go]: assessing and ranking the replicas,
      and the target that an automatic failover selects.
    - [Program]: functions that talk to servers, as trees of calls and answers:
      their runs, their traces, and the weakest precondition of a monitor that
      watches the trace.
    - [MySQLAdapter], [MySQLPlans]: the probes, parsers, statements and steps that
      the operations of [src/adapters/mysql] share, and the integrity of plans.
    - [Switchover], [Failover], [MySQLOperations]: [switchover.go], [failover.go],
      and [rejoin.go], [repair.go], [probe.go]'s discovery with the dispatch of
      [mysql.go]: each operation with its checks, plan, execution, verification.
    - [SimulatedMySQL]: three concrete servers, which answer the witnesses.
    - [Promotion], [History]: what a trace of an operation establishes: the source
      fenced, the target caught up, the lease stable; which steps were recorded.
    - [SwitchoverSafety], [FailoverSafety], [Resumption], [MySQLSafety], [MySQLText]:
      the theorems about the MySQL operations and their texts.
    - [Approval], [ApprovalSafety]: [src/internal/approval]: tokens that approve one
      plan on one observation; their issue, text and single use.
    - [WorkflowBase]: what a workflow asks of the store, the adapter, the gates and
      the clock, as the calls of a program; records, plans and classes of failure.
    - [Workflow], [WorkflowLegacy], [WorkflowRecovery]: [src/internal/workflow]: the
      stages of a durable operation ([durable.go], [prepare.go]); the execution
      without a durable record and the commit of metadata ([workflow.go]); step
      commits, unattended continuation and abandoned operations ([progress.go],
      [automatic_resume.go], [abandoned.go]) and the entry points.
    - [WorkflowGates], [WorkflowSystem], [SimulatedWorkflow]: the monitors of a
      workflow's calls, the store that other workflows change as well, and the
      concrete control plane of the witnesses.
    - [WorkflowSafety], [WorkflowEntry]: the theorems about workflows.
    - [AutomaticRecovery], [RecoverySafety]: [src/internal/recovery/controller.go]:
      when a failover is started without an operator, and how often.
    - [Observation], [MemoryLocks]: [src/internal/workflow/gates.go]: the guards, the
      observation that is captured and validated again, the process-local locks.
    - [Resolver]: [src/internal/workflow/resolver.go]: the source, the target and the
      credentials of a request.
    - [SnapshotEquality], [SnapshotState]: [src/internal/store/replication.go]: the
      text in which a snapshot is replicated, its digests, its normalization.
    - [Replication], [ReplicationSafety]: the rest of [replication.go] and the state
      machine of [src/internal/consensus/raft.go]: controllers that apply one log.
    - [Consensus], [ConsensusSafety]: [raft.go]: configuration, authority,
      synchronization, commits and changes of the voter set.

    ** How state and operations correspond to the code

    A Go method that changes its receiver is a function from the receiver's
    state to the new state and a result; a method under the repository's mutex
    is one atomic step.  A map is a [gmap]; where the code ranges over a map the
    model takes the map's own order and a theorem shows, where it matters, that
    the order has no influence.  A returned error is a constructor of the
    component's error type; texts of errors are left out.  What an operation
    reads from its environment is an argument: the clock, a fresh random
    identifier, whether the context is done, whether the caller has authority.
    [Repository.repo_commits] is the environment of the durable commit: applied,
    rejected, or applied although an error is reported; with no entry left,
    commits are applied.  Concurrency is interleaving: the reachable states are
    the closure of a step relation with one constructor per operation, one for
    the commits of the other components, and one that moves the clock.
    The MySQL operations are programs of [Program]: each call to a server, to
    the endpoint, to the safety provider or to the record of progress is a node
    that goes on for every answer, so a theorem about all runs covers lost
    connections, refused statements and answers that contradict each other.

    ** What the theorems show

    - Leases: at any time an endpoint has at most one live holder, through
      batches, transitions, failures of the store and clock movement; an
      acquisition takes over only by the documented hand-off; the detailed store
      refines the abstract one.
    - Locks: two live locks never cover one cluster; renewal keeps the lock or
      reports its loss before it expires.
    - GTID sets: the comparison counts exactly the missing and errant
      transactions, on every [uint64] input, or reports an error; a former
      primary is declared recoverable exactly when it can catch up.
    - Repository: the writer lease during a disaster recovery is exclusive;
      compaction never drops a record that is in use.
    - Operations: the life cycle of an operation along every reachable run, its
      invariants, idempotent creation, no lost update, single use of an
      approval, safe recovery of abandoned operations.
    - Power: a power operation walks its documented life cycle, a cluster has at
      most one in progress, completion releases every protection at once.
    - Failure windows: the stored series is equivalent to a run of consecutive
      failed observations; stability is sound and is reached; two controllers
      cannot both have authority unless a healthy member is seen by both.
    - HA endpoints: an address is active in one endpoint; an overtaken
      observation is refused.
    - VIP: a transfer gives the address to nobody but the target, whatever the
      agents answer and wherever it stops; a transition ends once, with the
      lease of the target or of the source.
    - Ownership: every lease request of a round is justified by the topology and
      by what the agents reported; a round never moves the VIP of a live owner.
    - Fencing: when it succeeds the old primary was isolated, or every
      authorization it had has expired; its waiting loop ends.
    - Bootstrap: the decision accepts exactly the stated evidence.
    - Disaster recovery: the selected member has every transaction of the others;
      a permit is backed by a proof; freezes and locks are held until the end.
    - Agents: at most one member of a cluster is told to write, the answer ends
      with the lease it rests on, survives the protocol's checks, and the agent
      reaches the state it was told, or isolates itself.
    - MySQL selection: the assessments name each replica once, in an order that
      does not depend on the inventory's; the selected target is eligible, and no
      eligible replica has fewer transactions to lose.
    - MySQL operations: no instance is made writable unless the old primary is
      fenced and the target has executed its last position, or the old primary is
      proven isolated; the failure class of an outcome is true of the servers; a
      success has recorded every mutating step of the plan, with the lease stable
      and the endpoint at the target; a former primary is attached only when it
      lacks nothing that was purged and adds nothing; a repair starts one thread.
    - MySQL text: credentials and hosts cannot change the statement they are
      quoted into; the durability evidence survives its publication.
    - Approval: a token approves one execution of the plan and observation it was
      issued for, before it expires.
    - Workflows: the adapter is called only behind the safety gate, the lock, the
      revalidated observation and the approval, in this order; what it executes is
      the plan that was stored; every execution is recorded with its outcome; the
      unattended continuation of an interrupted operation passes the same gates.
    - Automatic recovery: a failover is started only for a failure that has been
      stable for the whole window, under authority, once per incident and attempt.
    - Gates: an observation is confirmed exactly when the topology still says the
      same; the local lock has one owner and hands over in the order of arrival; a
      resolved request names instances of the observed topology that are entitled
      to their parts.
    - Replication: the text of a snapshot decodes to it and cannot be altered
      unnoticed; controllers that publish their files go through the same
      snapshots, each computed from the one it replaces; when a file could not be
      published they may part ([ReplicationSafety.rejected_file_forks]).
    - Voters: an expansion succeeds as a whole or is taken back, except for the
      addition that was not answered in time
      ([ConsensusSafety.unfinished_addition_remains]); a retirement never removes
      the local controller, and every change aims at an odd number of voters.

    ** Bounds and fuel

    Recursion is structural, on the list or map the code ranges over, except
    [GoStd.trim_fuel] (fuel: the length of the string; each step removes a byte)
    and [Fence.grace_loop] (fuel: the half leases in the grace period and one;
    [Fence.Fence_terminates] shows that it is enough).  The polling loops of the
    MySQL operations end by a deadline: [MySQLAdapter.follower_wait] and
    [semiSync_wait] count the ticks until then (120 and 40), and
    [Switchover.verify_attempts] the attempts of the code; so does the loop that
    commits a step, with [WorkflowRecovery.operationProgressCommitAttempts].
    [Observation.replace_attempts] has the length of the text as fuel (each step
    removes a byte).
    Machine integers are [Z] with their wrap-around written out ([u64], [i64]).
    Non-ASCII case folding is that of the two runes that fold to ASCII letters.

    ** Not modelled

    The Raft library, its transport, its log store with repair and compaction, and
    its own snapshots ([Replication] has their contents, and [replicated_updates_linear]
    the replay of the log, not the transfer of a snapshot to a lagging controller);
    the file format and its fsync sequence, HTTP and command-line decoding, the
    output of the database clients, host commands, password hashing, metrics and
    reports: they are input and output around the modelled
    core, or calls of third-party code.  Where the core relies on one of them
    ([net.ParseIP], [net.SplitHostPort], [url.Parse], [redact.Text], [encoding/json],
    [compress/flate], SHA-256, the digests of plans and of recovery evidence,
    the message authentication code over the JSON of a message) it is a parameter
    and the theorems hold for every function; where a theorem needs something of
    it, or of the agents, the external fencer or the timer, that is a named
    hypothesis or the law of a class.  A handler that reads the store several
    times is modelled at one state of it; a workflow is not a handler, its calls
    interleave with everybody else's ([WorkflowSystem]).
    Left out for now, as parts of their own: platform users and sessions, cluster
    policies, lifecycle tasks, configuration and software distribution, the
    PostgreSQL, Oracle and SQL Server adapters, the runtime and the agent's host
    commands. *)

From Stdlib Require Export Ascii String ZArith Lia.
From stdpp Require Export base tactics option list strings gmap sorting numbers.
From stdpp Require Export list.

(** ** Results of fallible Go functions

    A Go function returning [(T, error)] is a function into [result E T]:
    [E] names the error exits of the component. *)

Inductive result (E A : Type) : Type :=
| Ok (a : A)
| Err (e : E).
Arguments Ok {E A} a.
Arguments Err {E A} e.

#[export] Instance result_ret E : MRet (result E) := λ A a, Ok a.
#[export] Instance result_bind E : MBind (result E) := λ A B f r,
  match r with Ok a => f a | Err e => Err e end.

Definition is_ok {E A} (r : result E A) : bool :=
  match r with Ok _ => true | Err _ => false end.

(** [require b e] is the guard [if !b { return e }]. *)
Definition require {E} (b : bool) (e : E) : result E unit :=
  if b then Ok tt else Err e.

(** [reject b e] is the guard [if b { return e }]. *)
Definition reject {E} (b : bool) (e : E) : result E unit :=
  if b then Err e else Ok tt.

Declare Scope go_scope.
Delimit Scope go_scope with go.
Notation "x == y" := (bool_decide (x = y)) (at level 70, no associativity) : go_scope.
Notation "x != y" := (negb (bool_decide (x = y))) (at level 70, no associativity) : go_scope.
#[global] Open Scope go_scope.
#[global] Open Scope Z_scope.

(** A [for] loop over a slice whose body may return early with an error. *)
Fixpoint for_each {E A S} (f : S → A → result E S) (s : S) (l : list A) : result E S :=
  match l with
  | [] => Ok s
  | a :: l => match f s a with Ok s' => for_each f s' l | Err e => Err e end
  end.

(** ** Record update

    [r <| field := v |>] is the assignment [r.field = v] on a copy of [r].  A
    record gives its eta expansion as an instance of [Settable]; the setter of
    a field is computed from it. *)

Class Settable (R : Type) := eta_record : R → R.
Class Setter {R T : Type} (proj : R → T) := set_field : (T → T) → R → R.

Ltac solve_setter :=
  match goal with
  | |- @Setter ?R ?T ?proj =>
      let eta := constr:(_ : Settable R) in
      let eta := eval hnf in eta in
      exact (λ (f : T → T) (r : R),
        ltac:(let body := eval cbv beta in (eta r) in
              match eval pattern (proj r) in body with
              | ?g _ => let b := eval cbv beta in (g (f (proj r))) in exact b
              end))
  end.
#[export] Hint Extern 0 (Setter _) => solve_setter : typeclass_instances.

Notation "r <| proj := v |>" := (set_field (proj := proj) (λ _, v) r)
  (at level 1, left associativity, proj at level 99) : go_scope.
Notation "r <| proj ::= f |>" := (set_field (proj := proj) f r)
  (at level 1, left associativity, proj at level 99) : go_scope.

(** ** Automation *)

Lemma require_ok {E} b (e : E) u : require b e = Ok u ↔ b = true.
Proof. destruct b, u; split; done. Qed.
Lemma reject_ok {E} b (e : E) u : reject b e = Ok u ↔ b = false.
Proof. destruct b, u; split; done. Qed.
Lemma result_bind_ok {E A B} (r : result E A) (f : A → result E B) b :
  r ≫= f = Ok b ↔ ∃ a, r = Ok a ∧ f a = Ok b.
Proof. destruct r as [a|e]; cbn; [split; [by exists a|by intros (? & [= ->] & ?)]|split; [done|by intros (? & ? & ?)]]. Qed.

Lemma require_bind {E B} b (e : E) (f : unit → result E B) r : require b e ≫= f = Ok r ↔ b = true ∧ f tt = Ok r.
Proof. destruct b; cbn; [tauto|split; [done|by intros [? _]]]. Qed.
Lemma reject_bind {E B} b (e : E) (f : unit → result E B) r : reject b e ≫= f = Ok r ↔ b = false ∧ f tt = Ok r.
Proof. destruct b; cbn; [split; [done|by intros [? _]]|tauto]. Qed.

(** Naming the first component of a concrete computation without evaluating it. *)
Lemma pair_fst {A B} (x : A * B) b : x.2 = b → x = (x.1, b).
Proof. destruct x; cbn. congruence. Qed.

(** [bsimpl] turns the boolean tests of the code into propositions, in every
    hypothesis. *)
Ltac bsimpl_step :=
  match goal with
  | H : true = true |- _ => clear H
  | H : false = false |- _ => clear H
  | H : true = false |- _ => discriminate H
  | H : false = true |- _ => discriminate H
  | H : true = _ |- _ => symmetry in H
  | H : false = _ |- _ => symmetry in H
  | H : Is_true _ |- _ => apply Is_true_eq_true in H
  | H : negb _ = true |- _ => apply negb_true_iff in H
  | H : negb _ = false |- _ => apply negb_false_iff in H
  | H : _ && _ = true |- _ => apply andb_true_iff in H; destruct H
  | H : _ && _ = false |- _ => apply andb_false_iff in H
  | H : _ || _ = false |- _ => apply orb_false_iff in H; destruct H
  | H : _ || _ = true |- _ => apply orb_true_iff in H
  | H : bool_decide _ = true |- _ => apply bool_decide_eq_true_1 in H
  | H : bool_decide _ = false |- _ => apply bool_decide_eq_false_1 in H
  | H : (_ <? _)%Z = true |- _ => apply Z.ltb_lt in H
  | H : (_ <? _)%Z = false |- _ => apply Z.ltb_ge in H
  | H : (_ <=? _)%Z = true |- _ => apply Z.leb_le in H
  | H : (_ <=? _)%Z = false |- _ => apply Z.leb_gt in H
  | H : (_ =? _)%Z = true |- _ => apply Z.eqb_eq in H
  | H : (_ =? _)%Z = false |- _ => apply Z.eqb_neq in H
  | H : require _ _ = Ok _ |- _ => apply require_ok in H
  | H : reject _ _ = Ok _ |- _ => apply reject_ok in H
  | H : mbind _ _ = Ok _ |- _ => apply result_bind_ok in H; destruct H as (? & ? & H)
  end.
Ltac bsimpl := repeat bsimpl_step; simplify_eq/=.

(** [bsplit] proves a conjunction of boolean tests. *)
Ltac bsplit := repeat match goal with
  | |- _ && _ = true => apply andb_true_iff; split
  | |- negb _ = true => apply negb_true_iff
  | |- bool_decide _ = true => apply bool_decide_eq_true_2
  | |- bool_decide _ = false => apply bool_decide_eq_false_2
  | |- (_ <? _)%Z = true => apply Z.ltb_lt
  | |- (_ <=? _)%Z = true => apply Z.leb_le
  | |- (_ <? _)%Z = false => apply Z.ltb_ge
  | |- (_ <=? _)%Z = false => apply Z.leb_gt
  | |- (_ =? _)%Z = true => apply Z.eqb_eq
  end.

(** [case_if] splits on the next test of the goal or of a hypothesis and
    simplifies both branches. *)
Ltac case_if := case_match; bsimpl.

(** ** Generic lemmas *)

Section for_each.
Context {E A S : Type}.
Implicit Types (f : S → A → result E S) (l : list A).

Lemma for_each_app f s l1 l2 :
  for_each f s (l1 ++ l2) = s' ← for_each f s l1; for_each f s' l2.
Proof.
  revert s; induction l1 as [|a l1 IH]; intros s; [done|]; cbn.
  destruct (f s a); [apply IH|done].
Qed.

(** Loop invariant rule. *)
Lemma for_each_inv (P : list A → S → Prop) f s l s' :
  for_each f s l = Ok s' →
  P [] s →
  (∀ pre a post s1 s2, l = pre ++ a :: post → P pre s1 → f s1 a = Ok s2 → P (pre ++ [a]) s2) →
  P l s'.
Proof.
  intros Hrun H0 Hstep.
  enough (∀ pre post s, l = pre ++ post → P pre s → for_each f s post = Ok s' → P l s') as G
    by exact (G [] l s eq_refl H0 Hrun).
  clear s H0 Hrun. intros pre post; revert pre.
  induction post as [|a post IH]; intros pre s -> HP Hrun; cbn in Hrun.
  - rewrite app_nil_r; naive_solver.
  - destruct (f s a) as [s1|] eqn:Hf; [|done].
    apply (IH (pre ++ [a]) s1); [by rewrite <- app_assoc| |done].
    by apply (Hstep pre a post s s1).
Qed.

(** Every element passed the body's checks. *)
Lemma for_each_forall (Q : A → Prop) f s l s' :
  for_each f s l = Ok s' →
  (∀ s1 a s2, f s1 a = Ok s2 → Q a) →
  Forall Q l.
Proof.
  intros Hrun HQ. apply (for_each_inv (λ pre _, Forall Q pre) f s l s'); [done|done|].
  intros; apply Forall_app; split; [done|]. constructor; [|done]. by eapply HQ.
Qed.

(** A loop whose body is a guard and an update runs to the end exactly when
    every element passes its guard at the state it meets. *)
Lemma for_each_iff (guard : S → A → Prop) (upd : S → A → S) f s l s' :
  (∀ s a s', f s a = Ok s' ↔ guard s a ∧ s' = upd s a) →
  for_each f s l = Ok s' ↔
    (∀ pre a post, l = pre ++ a :: post → guard (foldl upd s pre) a) ∧ s' = foldl upd s l.
Proof.
  intros Hf. revert s. induction l as [|a l IH]; intros s; cbn.
  { split; [intros [= ->]; split; [by intros [|]|done]|by intros [_ ->]]. }
  destruct (f s a) as [s1|e] eqn:Hfa.
  - apply Hf in Hfa as [Hg ->]. rewrite IH. split; intros [H ->]; (split; [|done]).
    + intros [|b pre] c post [= <- ->]; [done|]. by eapply H.
    + intros pre c post ->. by apply (H (a :: pre) c post).
  - split; [done|]. intros [H _]. assert (f s a = Ok (upd s a)) as Hok; [|congruence].
    apply Hf. split; [|done]. by apply (H [] a l).
Qed.
End for_each.

(** ** Sums and cardinalities *)

Fixpoint sum_over {A} (f : A → Z) (l : list A) : Z :=
  match l with [] => 0 | a :: l => f a + sum_over f l end.

Section sum_over.
Context {A : Type}.
Implicit Types (f g : A → Z) (l : list A).

Lemma sum_over_nonneg f l : (∀ a, a ∈ l → 0 ≤ f a) → 0 ≤ sum_over f l.
Proof.
  induction l as [|a l IH]; cbn; [lia|]. intros Hf.
  assert (0 ≤ f a) by (apply Hf; set_solver).
  assert (0 ≤ sum_over f l) by (apply IH; set_solver). lia.
Qed.
Lemma sum_over_ext f g l : (∀ a, a ∈ l → f a = g a) → sum_over f l = sum_over g l.
Proof. induction l as [|a l IH]; cbn; intros H; [done|]. rewrite H, IH; set_solver. Qed.
Lemma sum_over_add f g l : sum_over (λ a, f a + g a) l = sum_over f l + sum_over g l.
Proof. induction l as [|a l IH]; cbn; lia. Qed.
Lemma sum_over_0 f l : (∀ a, a ∈ l → f a = 0) → sum_over f l = 0.
Proof.
  intros H. rewrite (sum_over_ext f (λ _, 0) l H). clear H. by induction l.
Qed.
Lemma sum_over_perm f l1 l2 : l1 ≡ₚ l2 → sum_over f l1 = sum_over f l2.
Proof. induction 1; cbn; lia. Qed.
End sum_over.

(** [card P n]: exactly [n] elements satisfy [P]. *)
Definition card {A} (P : A → Prop) (n : Z) : Prop :=
  ∃ xs, NoDup xs ∧ (∀ x, x ∈ xs ↔ P x) ∧ Z.of_nat (length xs) = n.

Section card.
Context {A : Type} `{EqDecision A}.
Implicit Types (P Q : A → Prop).

Lemma card_ext P Q n : (∀ x, P x ↔ Q x) → card P n → card Q n.
Proof. intros HPQ (xs & Hnd & Hin & Hl). exists xs. split; [done|]. split; [|done]. intros x. by rewrite Hin. Qed.
Lemma card_empty P : (∀ x, ¬ P x) → card P 0.
Proof. intros HP. exists []. split; [constructor|]. split; [|done]. intros x. set_solver. Qed.
Lemma card_unique P n m : card P n → card P m → n = m.
Proof.
  intros (xs & Hx & Hxs & <-) (ys & Hy & Hys & <-). f_equal.
  apply Permutation_length, NoDup_Permutation; [done..|]. intros x. by rewrite Hxs, Hys.
Qed.
Lemma card_nonneg P n : card P n → 0 ≤ n.
Proof. intros (xs & _ & _ & <-). lia. Qed.
Lemma card_zero P : card P 0 → ∀ x, ¬ P x.
Proof.
  intros (xs & _ & Hin & Hl) x Hx. apply Hin in Hx.
  destruct xs; [by apply elem_of_nil in Hx|]. cbn in Hl. lia.
Qed.
Lemma card_or P Q n m :
  card P n → card Q m → (∀ x, P x → ¬ Q x) → card (λ x, P x ∨ Q x) (n + m).
Proof.
  intros (xs & Hx & Hxs & <-) (ys & Hy & Hys & <-) Hdisj. exists (xs ++ ys).
  split; [|split].
  - apply NoDup_app. split; [done|]. split; [|done]. intros x. rewrite Hxs, Hys. apply Hdisj.
  - intros x. by rewrite elem_of_app, Hxs, Hys.
  - rewrite length_app. lia.
Qed.
Lemma card_diff P Q n m :
  card P n → card (λ x, P x ∧ Q x) m → card (λ x, P x ∧ ¬ Q x) (n - m).
Proof.
  intros (xs & Hx & Hxs & <-) (ys & Hy & Hys & <-).
  exists (filter (λ x, x ∉ ys) xs). split; [by apply NoDup_filter|]. split.
  - intros x. rewrite list_elem_of_filter, Hxs, Hys. tauto.
  - assert (xs ≡ₚ ys ++ filter (λ x, x ∉ ys) xs) as Hp.
    { apply NoDup_Permutation; [done| |].
      - apply NoDup_app. split; [done|]. split; [|by apply NoDup_filter].
        intros x ?. rewrite list_elem_of_filter. tauto.
      - intros x. rewrite elem_of_app, list_elem_of_filter, Hxs, Hys.
        destruct (decide (x ∈ ys)) as [Hin|Hin]; rewrite Hys in Hin; tauto. }
    apply Permutation_length in Hp. rewrite length_app in Hp. lia.
Qed.
Lemma card_sub P Q n m : card P n → card (λ x, P x ∧ Q x) m → m ≤ n.
Proof. intros H1 H2. pose proof (card_nonneg _ _ (card_diff _ _ _ _ H1 H2)). lia. Qed.
End card.

Lemma card_range (s e : Z) : card (λ n, s ≤ n ≤ e) (Z.max 0 (e - s + 1)).
Proof.
  exists (seqZ s (e - s + 1)). split; [apply NoDup_seqZ|]. split.
  - intros x. rewrite elem_of_seqZ. lia.
  - rewrite length_seqZ. lia.
Qed.

(** The elements of one fibre, tagged with its index. *)
Lemma card_fibre {K A} (k : K) (P : A → Prop) n :
  card P n → card (λ x : K * A, x.1 = k ∧ P x.2) n.
Proof.
  intros (xs & Hx & Hxs & <-). exists (pair k <$> xs). split; [|split].
  - apply NoDup_fmap; [|done]. intros a b. congruence.
  - intros [k' a]. rewrite list_elem_of_fmap. cbn. split.
    + intros (b & [= -> ->] & Hb). by rewrite <- Hxs.
    + intros [-> Ha]. exists a. by rewrite Hxs.
  - by rewrite length_fmap.
Qed.

(** The tagged union of the fibres of an association list without duplicate
    keys; the entries of a map are one. *)
Lemma card_entries {K V A} `{EqDecision K, EqDecision A} (P : K * V → A → Prop)
    (size : K * V → Z) (l : list (K * V)) :
  NoDup l.*1 → (∀ e, e ∈ l → card (P e) (size e)) →
  card (λ x : K * A, ∃ v, (x.1, v) ∈ l ∧ P (x.1, v) x.2) (sum_over size l).
Proof.
  induction l as [|[k v] l IH]; intros Hnd Hc; cbn.
  { apply card_empty. intros x (v & Hin & _). by apply elem_of_nil in Hin. }
  apply NoDup_cons in Hnd as [Hk Hnd]. eapply card_ext; [|apply card_or].
  2: { apply (card_fibre k), Hc. set_solver. }
  2: { apply IH; [done|set_solver]. }
  - intros [k' a]; cbn. setoid_rewrite elem_of_cons. split.
    + intros [[-> ?]|(v' & ? & ?)]; eauto.
    + intros (v' & [[= -> ->]|?] & ?); eauto.
  - intros [k' a] [? _] (v' & Hin & _); cbn in *; subst. apply Hk.
    apply list_elem_of_fmap. by exists (k, v').
Qed.

Lemma size_list_to_set_le {A} `{Countable A} (l : list A) :
  (size (list_to_set l : gset A) ≤ length l)%nat.
Proof.
  induction l as [|a l IH]; cbn; [by rewrite size_empty|].
  rewrite size_union_alt, size_singleton. apply le_n_S. etrans; [|exact IH].
  apply subseteq_size. set_solver.
Qed.

(** Duplicate-freedom, as a loop that keeps what it has seen tests it. *)
Lemma NoDup_seen {A B} (k : A → B) (l : list A) :
  NoDup (k <$> l) ↔ ∀ pre a post, l = pre ++ a :: post → k a ∉ k <$> pre.
Proof.
  induction l as [|a l IH] using rev_ind; [split; [by intros _ [|]|constructor]|].
  rewrite fmap_app, NoDup_app, IH. cbn. split.
  - intros (H1 & H2 & _) pre b post Heq.
    destruct post as [|c post _] using rev_ind.
    + apply app_inj_tail in Heq as [-> ->]. intros Hin. by apply (H2 _ Hin), list_elem_of_singleton.
    + rewrite app_comm_cons, app_assoc in Heq. apply app_inj_tail in Heq as [-> _]. by eapply H1.
  - intros H. split_and!; [|intros x Hx ->%list_elem_of_singleton; by apply (H l a [])|apply NoDup_singleton].
    intros pre b post ->. apply (H pre b (post ++ [a])). by rewrite <- app_assoc.
Qed.
Lemma foldl_insert_set {A K} `{Countable K} (k : A → K) (l : list A) (s : gset K) x :
  x ∈ foldl (λ s a, {[k a]} ∪ s) s l ↔ x ∈ s ∨ x ∈ k <$> l.
Proof. revert s. induction l as [|a l IH]; intros s; cbn; [set_solver|]. rewrite IH. set_solver. Qed.
Lemma forall_split {A} (P : A → Prop) (l : list A) :
  (∀ pre a post, l = pre ++ a :: post → P a) ↔ ∀ a, a ∈ l → P a.
Proof.
  split.
  - intros H a (pre & post & ->)%list_elem_of_split. by eapply H.
  - intros H pre a post ->. apply H. set_solver.
Qed.
