(* ===== verification/GoStd.v ===== *)
(** * The parts of Go and its standard library the source uses

    [time], [strings], [strconv], [sort] and fixed-width integers, as the
    other files need them.

    - A [time.Time] is the number of nanoseconds since Go's zero time
      (January 1, year 1, UTC), so [IsZero] is a test against 0; [UTC] does
      not change the instant.  A [time.Duration] is a 64-bit count of
      nanoseconds and [Sub] saturates at its bounds, as [Time.Sub] does.
    - A Go string is a byte string, here a [string] of 8-bit [ascii].  Case
      mapping is that of ASCII, plus the only two other runes that fold to
      ASCII letters (U+212A and U+017F); [TrimSpace] knows the UTF-8 encoding
      of every Unicode white space.
    - [uint64] arithmetic is arithmetic on [Z] modulo 2^64. *)
From S2P Require Import Prelude.

(** ** Fixed-width integers *)

Abbreviation uint64 := Z (only parsing).
Definition max_uint64 : Z := 18446744073709551615.
(** What a [uint64] expression evaluates to. *)
Definition u64 (z : Z) : Z := z `mod` (max_uint64 + 1).

(** [int64] arithmetic wraps; [/] truncates toward zero ([Z.quot]). *)
Definition i64 (z : Z) : Z := (z + (max_uint64 + 1) / 2) `mod` (max_uint64 + 1) - (max_uint64 + 1) / 2.

Lemma u64_small z : 0 ≤ z ≤ max_uint64 → u64 z = z.
Proof. intros. unfold u64. apply Z.mod_small. lia. Qed.
Lemma u64_range z : 0 ≤ u64 z ≤ max_uint64.
Proof. unfold u64. pose proof (Z.mod_pos_bound z (max_uint64 + 1)). unfold max_uint64 in *. lia. Qed.

Lemma u64_succ_ne n : u64 (n + 1) ≠ n.
Proof.
  intros H. pose proof (u64_range (n + 1)) as Hn. rewrite H in Hn.
  destruct (Z.eq_dec n max_uint64) as [->|]; [by vm_compute in H|]. rewrite u64_small in H; lia.
Qed.

(** ** time *)

Abbreviation Time := Z (only parsing).
Abbreviation Duration := Z (only parsing).

Definition zero_time : Time := 0.
Definition IsZero (t : Time) : bool := t =? zero_time.
Definition After (t u : Time) : bool := u <? t.
Definition Before (t u : Time) : bool := t <? u.
Definition Equal (t u : Time) : bool := t =? u.
Definition Add (t : Time) (d : Duration) : Time := t + d.
Definition minDuration : Duration := -9223372036854775808.
Definition maxDuration : Duration := 9223372036854775807.
Definition Sub (t u : Time) : Duration := Z.max minDuration (Z.min maxDuration (t - u)).

Definition Millisecond : Duration := 1000000.
Definition Second : Duration := 1000000000.
Definition Minute : Duration := 60 * Second.

(** [time_lia] decides arithmetic on instants and durations. *)
Ltac time_unfold := unfold Sub, Add, After, Before, Equal, IsZero, zero_time,
  minDuration, maxDuration, Minute, Second, Millisecond in *.
Ltac time_lia := time_unfold; bsimpl; bsplit; lia.

Lemma Sub_le_iff t u d : minDuration ≤ d < maxDuration → Sub t u ≤ d ↔ t - u ≤ d.
Proof. unfold Sub, minDuration, maxDuration. lia. Qed.
Lemma Sub_lt_iff t u d : minDuration < d ≤ maxDuration → Sub t u < d ↔ t - u < d.
Proof. unfold Sub, minDuration, maxDuration. lia. Qed.

(** ** Bytes *)

Definition byte_of (n : N) : ascii := ascii_of_N n.
Definition code (c : ascii) : N := N_of_ascii c.
Definition in_range (lo hi c : ascii) : bool :=
  (N.leb (code lo) (code c) && N.leb (code c) (code hi))%bool.
Definition is_digit (c : ascii) : bool := in_range "0" "9" c.
Definition is_lower (c : ascii) : bool := in_range "a" "z" c.
Definition is_upper (c : ascii) : bool := in_range "A" "Z" c.
Definition is_hex (c : ascii) : bool :=
  is_digit c || in_range "a" "f" c || in_range "A" "F" c.

Definition lower_byte (c : ascii) : ascii :=
  if is_upper c then byte_of (code c + 32) else c.

Fixpoint bytes (l : list N) : string :=
  match l with [] => EmptyString | n :: l => String (byte_of n) (bytes l) end.

Fixpoint string_forall (p : ascii → bool) (s : string) : bool :=
  match s with EmptyString => true | String c s => p c && string_forall p s end.

(** [for index, char := range value], when the body only accepts ASCII
    characters: the first byte of any longer rune is rejected like the rune. *)
Fixpoint string_foralli_from (i : nat) (p : nat → ascii → bool) (s : string) : bool :=
  match s with
  | EmptyString => true
  | String c s => p i c && string_foralli_from (S i) p s
  end.
Definition string_foralli := string_foralli_from 0.

Fixpoint take_string (n : nat) (s : string) : string :=
  match n, s with
  | S n, String c s => String c (take_string n s)
  | _, _ => EmptyString
  end.
Fixpoint drop_string (n : nat) (s : string) : string :=
  match n, s with
  | S n, String _ s => drop_string n s
  | _, _ => s
  end.

(** ** strings *)

(** The white-space runes beyond ASCII, in UTF-8. *)
Definition unicode_spaces : list string :=
  bytes <$> ([[194; 133]; [194; 160]; [225; 154; 128]; [226; 128; 168]; [226; 128; 169];
              [226; 128; 175]; [226; 129; 159]; [227; 128; 128]]
             ++ ((λ n, [226; 128; 128 + N.of_nat n]) <$> seq 0 11))%N.

Fixpoint cut_prefix (p s : string) : option string :=
  match p, s with
  | EmptyString, _ => Some s
  | String a p, String c s => if Ascii.eqb a c then cut_prefix p s else None
  | _, _ => None
  end.

Fixpoint first_cut (ps : list string) (s : string) : option string :=
  match ps with
  | [] => None
  | p :: ps => match cut_prefix p s with Some r => Some r | None => first_cut ps s end
  end.

(** The string after its leading white-space rune. *)
Definition cut_space (spaces : list string) (s : string) : option string :=
  match s with
  | EmptyString => None
  | String c r => if Ascii.is_space c then Some r else first_cut spaces s
  end.

Fixpoint trim_fuel (spaces : list string) (n : nat) (s : string) : string :=
  match n with
  | O => s
  | S n => match cut_space spaces s with Some r => trim_fuel spaces n r | None => s end
  end.
Definition trim_left (spaces : list string) (s : string) : string :=
  trim_fuel spaces (String.length s) s.
Definition TrimSpace (s : string) : string :=
  String.rev (trim_left (String.rev <$> unicode_spaces)
                (String.rev (trim_left unicode_spaces s))).

Fixpoint ToLower (s : string) : string :=
  match s with
  | EmptyString => EmptyString
  | String c s => String (lower_byte c) (ToLower s)
  end.

Definition upper_byte (c : ascii) : ascii :=
  if is_lower c then byte_of (code c - 32) else c.
(** ASCII, and the two runes U+017F and U+0131 whose upper case is an ASCII letter. *)
Fixpoint ToUpper (s : string) : string :=
  match s with
  | EmptyString => EmptyString
  | String c s1 =>
      match cut_prefix (bytes [197; 191]%N) s, cut_prefix (bytes [196; 177]%N) s, s1 with
      | Some _, _, String _ s2 => String "S" (ToUpper s2)
      | None, Some _, String _ s2 => String "I" (ToUpper s2)
      | _, _, _ => String (upper_byte c) (ToUpper s1)
      end
  end.

(** The fold class of a string: ASCII case is dropped, and U+212A and U+017F
    stand for the letters they fold with. *)
Fixpoint fold_string (s : string) : string :=
  match s with
  | EmptyString => EmptyString
  | String c s1 =>
      match cut_prefix (bytes [226; 132; 170]%N) s, s1 with
      | Some _, String _ (String _ s3) => String "k" (fold_string s3)
      | _, _ =>
          match cut_prefix (bytes [197; 191]%N) s, s1 with
          | Some _, String _ s2 => String "s" (fold_string s2)
          | _, _ => String (lower_byte c) (fold_string s1)
          end
      end
  end.
Definition EqualFold (s t : string) : bool := String.eqb (fold_string s) (fold_string t).

Definition HasPrefix (s p : string) : bool := bool_decide (is_Some (cut_prefix p s)).
Definition TrimPrefix (s p : string) : string := default s (cut_prefix p s).

Fixpoint Contains (s sub : string) : bool :=
  HasPrefix s sub || match s with EmptyString => false | String _ s => Contains s sub end.

(** [strings.Split] on a one-byte separator. *)
Fixpoint Split (sep : ascii) (s : string) : list string :=
  match s with
  | EmptyString => [EmptyString]
  | String c s =>
      if Ascii.eqb c sep then EmptyString :: Split sep s
      else match Split sep s with
           | h :: t => String c h :: t
           | [] => [String c EmptyString]
           end
  end.

(** [strings.Join(strings.Fields(s), "")]: every white space removed. *)
Fixpoint without_spaces_fuel (n : nat) (s : string) : string :=
  match n with
  | O => EmptyString
  | S n =>
      match s with
      | EmptyString => EmptyString
      | String c r =>
          match cut_space unicode_spaces s with
          | Some r' => without_spaces_fuel n r'
          | None => String c (without_spaces_fuel n r)
          end
      end
  end.
Definition JoinFields (s : string) : string := without_spaces_fuel (S (String.length s)) s.

(** The part of the string before and after its last [sep]. *)
Fixpoint cut_last (sep : ascii) (s : string) : option (string * string) :=
  match s with
  | EmptyString => None
  | String c s =>
      match cut_last sep s with
      | Some (b, a) => Some (String c b, a)
      | None => if Ascii.eqb c sep then Some (EmptyString, s) else None
      end
  end.

(** ** strconv *)

Definition digit_value (base : Z) (c : ascii) : option Z :=
  let v :=
    if is_digit c then Z.of_N (code c) - 48
    else if is_lower c then Z.of_N (code c) - 97 + 10
    else if is_upper c then Z.of_N (code c) - 65 + 10
    else base in
  if v <? base then Some v else None.

Fixpoint parse_digits (base acc : Z) (s : string) : option Z :=
  match s with
  | EmptyString => Some acc
  | String c s =>
      match digit_value base c with
      | Some d => parse_digits base (acc * base + d) s
      | None => None
      end
  end.

(** [strconv.ParseUint] in an explicit base: [None] is its error. *)
Definition ParseUint (s : string) (base bits : Z) : option Z :=
  match s with
  | EmptyString => None
  | _ => v ← parse_digits base 0 s; if v <? 2 ^ bits then Some v else None
  end.

(** [strconv.Atoi], on a 64-bit platform. *)
Definition Atoi (s : string) : option Z :=
  match s with
  | String c r =>
      if Ascii.eqb c "-" then
        v ← ParseUint r 10 64; if v <=? 2 ^ 63 then Some (- v) else None
      else
        v ← ParseUint (if Ascii.eqb c "+" then r else s) 10 64;
        if v <? 2 ^ 63 then Some v else None
  | EmptyString => None
  end.

Definition ParseBool (s : string) : option bool :=
  if bool_decide (s ∈ ["1"; "t"; "T"; "TRUE"; "true"; "True"]) then Some true
  else if bool_decide (s ∈ ["0"; "f"; "F"; "FALSE"; "false"; "False"]) then Some false
  else None.

Lemma in_range_low lo hi c : in_range lo hi c = true → (code lo ≤ code c)%N.
Proof. unfold in_range. intros [H _]%andb_prop. by apply N.leb_le. Qed.
Lemma digit_value_nonneg base c d : 0 ≤ base → digit_value base c = Some d → 0 ≤ d.
Proof.
  unfold digit_value, is_digit, is_lower, is_upper. intros Hb H.
  case_match; [|done]. simplify_eq. repeat case_match; try done;
    match goal with E : in_range _ _ _ = true |- _ => apply in_range_low in E end;
    cbn in *; lia.
Qed.
Lemma parse_digits_nonneg base acc s v :
  0 ≤ base → 0 ≤ acc → parse_digits base acc s = Some v → 0 ≤ v.
Proof.
  intros Hb. revert acc. induction s as [|c s IH]; intros acc Ha H; cbn in H; [by simplify_eq|].
  destruct (digit_value base c) as [d|] eqn:E; [|done].
  apply digit_value_nonneg in E; [|done]. eapply IH; [|done]. nia.
Qed.
Lemma ParseUint_bound s base bits v :
  0 ≤ base → ParseUint s base bits = Some v → 0 ≤ v < 2 ^ bits.
Proof.
  intros Hb. unfold ParseUint. destruct s; [done|]. intros (w & Hw & H)%bind_Some.
  apply parse_digits_nonneg in Hw; [|done|lia]. case_match; bsimpl; lia.
Qed.

(** ** [TrimSpace] is idempotent *)

Lemma append_cons x (a b : string) : String x a +:+ b = String x (a +:+ b).
Proof. done. Qed.
Lemma append_assoc (a b c : string) : (a +:+ b) +:+ c = a +:+ (b +:+ c).
Proof. induction a as [|x a IH]; [done|]. by rewrite !append_cons, IH. Qed.
Lemma append_empty_r (a : string) : a +:+ "" = a.
Proof. induction a as [|x a IH]; [done|]. by rewrite !append_cons, IH. Qed.
Lemma length_append (a b : string) : String.length (a +:+ b) = (String.length a + String.length b)%nat.
Proof. induction a as [|x a IH]; [done|]. rewrite append_cons. cbn. by rewrite IH. Qed.
Lemma rev_app_spec s t : String.rev_app s t = String.rev s +:+ t.
Proof.
  unfold String.rev. revert t. induction s as [|c s IH]; intros t; [done|]. cbn.
  rewrite (IH (String c t)), (IH (String c "")). by rewrite append_assoc, append_cons.
Qed.
Lemma rev_cons c s : String.rev (String c s) = String.rev s +:+ String c "".
Proof. unfold String.rev at 1. cbn. apply rev_app_spec. Qed.
Lemma rev_append a b : String.rev (a +:+ b) = String.rev b +:+ String.rev a.
Proof.
  induction a as [|c a IH]; [by rewrite append_empty_r|].
  by rewrite append_cons, !rev_cons, IH, append_assoc.
Qed.
Lemma rev_involutive s : String.rev (String.rev s) = s.
Proof. induction s as [|c s IH]; [done|]. by rewrite rev_cons, rev_append, IH. Qed.

Lemma cut_prefix_spec p s r : cut_prefix p s = Some r → s = p +:+ r.
Proof.
  revert s. induction p as [|a p IH]; intros [|c s] H; cbn in H; simplify_eq; [done|done|].
  destruct (Ascii.eqb_spec a c) as [->|]; [|done]. rewrite append_cons. by rewrite <- (IH s).
Qed.
Lemma cut_prefix_app p r t : cut_prefix p (p +:+ r +:+ t) = Some (r +:+ t).
Proof. induction p as [|a p IH]; [done|]. rewrite append_cons. cbn. by rewrite Ascii.eqb_refl. Qed.
Lemma first_cut_spec ps s r : first_cut ps s = Some r → ∃ p, p ∈ ps ∧ s = p +:+ r.
Proof.
  induction ps as [|p ps IH]; [done|]. cbn. destruct (cut_prefix p s) eqn:E.
  - intros [= <-]. apply cut_prefix_spec in E. exists p. set_solver.
  - intros (q & Hq & ->)%IH. exists q. set_solver.
Qed.
Lemma first_cut_complete ps p r : p ∈ ps → is_Some (first_cut ps (p +:+ r)).
Proof.
  induction ps as [|q ps IH]; [by intros ?%elem_of_nil|]. cbn.
  intros [->|Hp]%elem_of_cons.
  - pose proof (cut_prefix_app q r "") as H. rewrite !append_empty_r in H. rewrite H. by eexists.
  - destruct (cut_prefix q _); [by eexists|by apply IH].
Qed.

(** A string that starts with a space still does when it is continued. *)
Lemma cut_space_extend sp s t : is_Some (cut_space sp s) → is_Some (cut_space sp (s +:+ t)).
Proof.
  destruct s as [|c s]; [by intros [? ?]|]. rewrite append_cons. unfold cut_space.
  destruct (Ascii.is_space c); [by eexists|]. intros [r Hr]. apply first_cut_spec in Hr as (p & Hp & Hs).
  rewrite <- append_cons, Hs, append_assoc.
  by apply first_cut_complete.
Qed.

(** Every space is at least one byte long. *)
Definition spaces_ok (sp : list string) : Prop := ∀ p, p ∈ sp → p ≠ "".
Lemma cut_space_shorter sp s r : spaces_ok sp → cut_space sp s = Some r →
  (String.length r < String.length s)%nat ∧ ∃ p, s = p +:+ r.
Proof.
  intros Hsp. destruct s as [|c s]; [done|]. cbn. destruct (Ascii.is_space c).
  - intros [= <-]. split; [lia|]. by exists (String c "").
  - intros (p & Hp & Hs)%first_cut_spec. pose proof (Hsp p Hp). destruct p as [|a p]; [done|].
    injection Hs as -> ->. split; [|by exists (String a p)].
    cbn. rewrite length_append. lia.
Qed.
Lemma trim_fuel_spec sp n s : spaces_ok sp → (String.length s ≤ n)%nat →
  cut_space sp (trim_fuel sp n s) = None ∧ ∃ p, s = p +:+ trim_fuel sp n s.
Proof.
  intros Hsp. revert s. induction n as [|n IH]; intros s Hn; cbn.
  { destruct s; [|cbn in Hn; lia]. split; [done|]. by exists "". }
  destruct (cut_space sp s) as [r|] eqn:Hc; [|split; [done|by exists ""]].
  destruct (cut_space_shorter sp s r Hsp Hc) as [Hlt [p ->]].
  destruct (IH r) as [H1 [q Hq]]; [lia|]. split; [done|]. exists (p +:+ q).
  by rewrite append_assoc, <- Hq.
Qed.
Lemma trim_fuel_fixed sp n s : cut_space sp s = None → trim_fuel sp n s = s.
Proof. intros H. destruct n; [done|]. cbn. by rewrite H. Qed.

Lemma unicode_spaces_ok : spaces_ok unicode_spaces.
Proof. intros p. assert (Forall (λ p, p ≠ "") unicode_spaces) as H by (by repeat constructor).
  rewrite Forall_forall in H. apply H. Qed.
Lemma rev_spaces_ok : spaces_ok (String.rev <$> unicode_spaces).
Proof. intros p. assert (Forall (λ p, p ≠ "") (String.rev <$> unicode_spaces)) as H by (by repeat constructor).
  rewrite Forall_forall in H. apply H. Qed.

Lemma TrimSpace_idemp s : TrimSpace (TrimSpace s) = TrimSpace s.
Proof.
  unfold TrimSpace at 1 3, TrimSpace, trim_left at 2 4.
  set (u := trim_fuel unicode_spaces (String.length s) s).
  destruct (trim_fuel_spec unicode_spaces (String.length s) s) as [Hu _]; [apply unicode_spaces_ok|lia|].
  fold u in Hu. unfold trim_left.
  set (v := trim_fuel _ _ (String.rev u)).
  destruct (trim_fuel_spec (String.rev <$> unicode_spaces) (String.length (String.rev u)) (String.rev u))
    as [Hv [p Hp]]; [apply rev_spaces_ok|lia|]. fold v in Hv, Hp.
  assert (u = String.rev v +:+ String.rev p) as Heq by by rewrite <- rev_append, <- Hp, rev_involutive.
  rewrite (trim_fuel_fixed unicode_spaces _ (String.rev v)).
  - by rewrite rev_involutive, trim_fuel_fixed.
  - apply eq_None_not_Some. intros Hs. apply (cut_space_extend _ _ (String.rev p)) in Hs.
    rewrite <- Heq, Hu in Hs. by destruct Hs.
Qed.

(** Digits are not space. *)
Lemma string_forall_rev f s : string_forall f s = true → string_forall f (String.rev s) = true.
Proof.
  assert (∀ t, string_forall f t = true → string_forall f s = true → string_forall f (String.rev_app s t) = true) as H;
    [|intros Hs; by apply (H "")].
  induction s as [|c s IH]; intros t Ht Hs; cbn in *; [done|].
  apply andb_true_iff in Hs as [Hc Hs]. apply IH; [cbn; by rewrite Hc|done].
Qed.
(** Neither are other visible ASCII characters. *)
Definition is_graphic (c : ascii) : bool := in_range "!" "~" c.
Lemma string_forall_impl (f g : ascii → bool) s :
  (∀ c, f c = true → g c = true) → string_forall f s = true → string_forall g s = true.
Proof. intros Hfg. induction s as [|c s IH]; [done|]. cbn. intros [Hc Hs]%andb_true_iff. by rewrite (Hfg c Hc), (IH Hs). Qed.
Lemma string_forall_app f s s' : string_forall f (s +:+ s') = string_forall f s && string_forall f s'.
Proof.
  induction s as [|c s IH]; [done|]. change (String c s +:+ s') with (String c (s +:+ s')). cbn [string_forall]. by rewrite IH, andb_assoc.
Qed.
Lemma graphic_no_space s : string_forall is_graphic s = true →
  cut_space unicode_spaces s = None ∧ cut_space (String.rev <$> unicode_spaces) s = None.
Proof.
  destruct s as [|c s]; [done|]. cbn [string_forall]. intros [Hc _]%andb_true_iff. revert Hc.
  by destruct c as [[] [] [] [] [] [] [] []].
Qed.
Lemma graphic_trimmed s : string_forall is_graphic s = true → TrimSpace s = s.
Proof.
  intros Hs. unfold TrimSpace, trim_left.
  rewrite (trim_fuel_fixed unicode_spaces (String.length s) s (proj1 (graphic_no_space s Hs))).
  pose proof (proj2 (graphic_no_space _ (string_forall_rev is_graphic s Hs))) as Hr.
  rewrite (trim_fuel_fixed (String.rev <$> unicode_spaces) (String.length (String.rev s)) (String.rev s) Hr).
  apply rev_involutive.
Qed.
Lemma digits_trimmed s : string_forall is_digit s = true → TrimSpace s = s.
Proof. intros Hs. apply graphic_trimmed. eapply string_forall_impl, Hs. intros c. by destruct c as [[] [] [] [] [] [] [] []]. Qed.
