(* ===== verification/Model.v ===== *)
(** * pkg/model: the data the components exchange

    One [Inductive] per string enumeration of [src/pkg/model/] and one
    [Record] per struct, with the source's field names behind a short prefix.
    An embedded [ResourceMeta] is flattened into its four promoted fields.  A
    pointer is an [option], a Go map a [gmap] and a slice a [list]; [zero_T]
    is the zero value of [T]. *)
From S2P Require Import Prelude GoStd.

Abbreviation ResourceID := string (only parsing).
Abbreviation EngineIdentity := (gmap string string) (only parsing).

(** Reading a [map[string]string]: an absent key reads as the empty string. *)
Definition mget (m : gmap string string) (k : string) : string := default "" (m !! k).

(** [model.ValidResourceID]. *)
Definition dash_position (i : nat) : bool := bool_decide (i ∈ [8; 13; 18; 23]%nat).
Definition uuid_char (i : nat) (c : ascii) : bool :=
  if dash_position i then Ascii.eqb c "-" else is_hex c.
Definition ValidResourceID (id : ResourceID) : bool :=
  Nat.eqb (String.length id) 36 && string_foralli uuid_char id.

(** The order of [sort.Slice] and [sort.Strings] on identifiers. *)
Definition id_le (a b : ResourceID) : Prop := String.leb a b = true.
#[export] Instance id_le_dec : RelDecision id_le.
Proof. intros a b. unfold id_le. apply _. Defined.
Lemma id_le_iff a b : id_le a b ↔ String.le a b.
Proof. unfold id_le. split; [apply Is_true_eq_left|apply Is_true_eq_true]. Qed.
#[export] Instance id_le_trans : Transitive id_le.
Proof. intros a b c. rewrite !id_le_iff. apply PreOrder_Transitive. Qed.
#[export] Instance id_le_total : Total id_le.
Proof. intros a b. rewrite !id_le_iff. apply String.le_total. Qed.
#[export] Instance id_le_antisym : AntiSymm (=) id_le.
Proof.
  intros a b. unfold id_le, String.leb. rewrite (String.compare_antisym b a).
  destruct (String.compare a b) eqn:Hc; cbn; try done. by intros _ _; apply String.compare_eq_iff.
Qed.

(** [model.Engine]: the database engines; [EngineOther] is any other string, the empty one included. *)
Inductive Engine : Type :=
| EngineMySQL
| EnginePostgreSQL
| EngineOracle
| EngineSQLServer
| EngineOther (raw : string).
#[export] Instance Engine_eq_dec : EqDecision Engine.
Proof. solve_decision. Defined.

(** [model.InstanceRole]: replication roles; [InstanceRoleOther] is any other string, the empty one included. *)
Inductive InstanceRole : Type :=
| RoleUnknown
| RolePrimary
| RoleReplica
| RoleStandby
| InstanceRoleOther (raw : string).
#[export] Instance InstanceRole_eq_dec : EqDecision InstanceRole.
Proof. solve_decision. Defined.

(** [model.HealthState]: health verdicts; [HealthStateOther] is any other string, the empty one included. *)
Inductive HealthState : Type :=
| HealthUnknown
| HealthHealthy
| HealthDegraded
| HealthUnhealthy
| HealthStateOther (raw : string).
#[export] Instance HealthState_eq_dec : EqDecision HealthState.
Proof. solve_decision. Defined.

(** [model.ThreadState]: replication thread states; [ThreadStateOther] is any other string, the empty one included. *)
Inductive ThreadState : Type :=
| ThreadUnknown
| ThreadRunning
| ThreadConnecting
| ThreadStopped
| ThreadStateOther (raw : string).
#[export] Instance ThreadState_eq_dec : EqDecision ThreadState.
Proof. solve_decision. Defined.

(** [model.ProbeOutcome]: probe outcomes; [ProbeOutcomeOther] is any other string, the empty one included. *)
Inductive ProbeOutcome : Type :=
| ProbeOutcomeUnknown
| ProbeOutcomeReachable
| ProbeOutcomeCredentialsUnavailable
| ProbeOutcomeDatabaseUnavailable
| ProbeOutcomeMetricsUnavailable
| ProbeOutcomeOther (raw : string).
#[export] Instance ProbeOutcome_eq_dec : EqDecision ProbeOutcome.
Proof. solve_decision. Defined.

(** [model.EndpointKind]: endpoint kinds; [EndpointKindOther] is any other string, the empty one included. *)
Inductive EndpointKind : Type :=
| EndpointDatabase
| EndpointVIP
| EndpointListener
| EndpointService
| EndpointKindOther (raw : string).
#[export] Instance EndpointKind_eq_dec : EqDecision EndpointKind.
Proof. solve_decision. Defined.

(** [model.EndpointProviderKind]: writer endpoint providers; [EndpointProviderKindOther] is any other string, the empty one included. *)
Inductive EndpointProviderKind : Type :=
| EndpointProviderLinuxVIP
| EndpointProviderKubernetesService
| EndpointProviderKindOther (raw : string).
#[export] Instance EndpointProviderKind_eq_dec : EqDecision EndpointProviderKind.
Proof. solve_decision. Defined.

(** [model.WorkflowStage]: workflow stages; [WorkflowStageOther] is any other string, the empty one included. *)
Inductive WorkflowStage : Type :=
| StageDiscover
| StagePrecheck
| StagePlan
| StageSafetyGuard
| StageLock
| StageApprove
| StageExecute
| StageVerify
| StageAudit
| StageReport
| WorkflowStageOther (raw : string).
#[export] Instance WorkflowStage_eq_dec : EqDecision WorkflowStage.
Proof. solve_decision. Defined.

(** [model.OperationKind]: operation kinds; [OperationKindOther] is any other string, the empty one included. *)
Inductive OperationKind : Type :=
| OperationSwitchover
| OperationFailover
| OperationNodeSync
| OperationMetadataReconciliation
| OperationFormerPrimaryRejoin
| OperationReplicationRepair
| OperationPowerShutdown
| OperationKindOther (raw : string).
#[export] Instance OperationKind_eq_dec : EqDecision OperationKind.
Proof. solve_decision. Defined.

(** [model.OperationStatus]: operation statuses; [OperationStatusOther] is any other string, the empty one included. *)
Inductive OperationStatus : Type :=
| OperationPlanned
| OperationBlocked
| OperationRunning
| OperationSucceeded
| OperationFailed
| OperationIndeterminate
| OperationUnsupported
| OperationStatusOther (raw : string).
#[export] Instance OperationStatus_eq_dec : EqDecision OperationStatus.
Proof. solve_decision. Defined.

(** [model.CheckStatus]: check verdicts; [CheckStatusOther] is any other string, the empty one included. *)
Inductive CheckStatus : Type :=
| CheckPass
| CheckWarn
| CheckFail
| CheckStatusOther (raw : string).
#[export] Instance CheckStatus_eq_dec : EqDecision CheckStatus.
Proof. solve_decision. Defined.

(** [model.OperationReviewDisposition]: review dispositions; [OperationReviewDispositionOther] is any other string, the empty one included. *)
Inductive OperationReviewDisposition : Type :=
| OperationReviewAcknowledgedIndeterminate
| OperationReviewDispositionOther (raw : string).
#[export] Instance OperationReviewDisposition_eq_dec : EqDecision OperationReviewDisposition.
Proof. solve_decision. Defined.

(** [model.ApprovalGrantStatus]: approval grant statuses; [ApprovalGrantStatusOther] is any other string, the empty one included. *)
Inductive ApprovalGrantStatus : Type :=
| ApprovalGrantActive
| ApprovalGrantConsumed
| ApprovalGrantExpired
| ApprovalGrantRevoked
| ApprovalGrantStatusOther (raw : string).
#[export] Instance ApprovalGrantStatus_eq_dec : EqDecision ApprovalGrantStatus.
Proof. solve_decision. Defined.

(** [model.RecoveryStage]: disaster recovery stages; [RecoveryStageOther] is any other string, the empty one included. *)
Inductive RecoveryStage : Type :=
| RecoveryPlanned
| RecoveryFencing
| RecoveryInspecting
| RecoverySelecting
| RecoveryStarting
| RecoveryRebuilding
| RecoveryVerifying
| RecoveryCommitted
| RecoverySucceeded
| RecoveryBlocked
| RecoverySuperseded
| RecoveryStageOther (raw : string).
#[export] Instance RecoveryStage_eq_dec : EqDecision RecoveryStage.
Proof. solve_decision. Defined.

(** [model.PowerOperationType]: power operation types; [PowerOperationTypeOther] is any other string, the empty one included. *)
Inductive PowerOperationType : Type :=
| PowerService
| PowerPowerOff
| PowerOperationTypeOther (raw : string).
#[export] Instance PowerOperationType_eq_dec : EqDecision PowerOperationType.
Proof. solve_decision. Defined.

(** [model.PowerState]: power lifecycle states; [PowerStateOther] is any other string, the empty one included. *)
Inductive PowerState : Type :=
| PowerNormal
| PowerPrechecking
| PowerMaintenance
| PowerShutdownPlanned
| PowerShuttingDown
| PowerPoweredOff
| PowerBootDetected
| PowerRecovering
| PowerVerifying
| PowerCompleted
| PowerFailed
| PowerStateOther (raw : string).
#[export] Instance PowerState_eq_dec : EqDecision PowerState.
Proof. solve_decision. Defined.

(** [model.Health]. *)
Record Health : Type := mkHealth {
  health_State : HealthState; health_Summary : string; health_ObservedAt : Time;
  health_LatencyMS : Z; health_Replication : string;
}.
Definition zero_Health : Health :=
  mkHealth (HealthStateOther "") "" 0 0 "".
#[export] Instance eta_Health : Settable Health := λ r,
  mkHealth (health_State r) (health_Summary r) (health_ObservedAt r) (health_LatencyMS r)
  (health_Replication r).

(** [model.ReplicationStatus]. *)
Record ReplicationStatus : Type := mkReplicationStatus {
  repl_SourceIdentity : EngineIdentity; repl_IOThread : ThreadState;
  repl_SQLThread : ThreadState; repl_LagSeconds : option Z;
  repl_RetrievedPosition : string; repl_ExecutedPosition : string;
  repl_LastIOError : string; repl_LastSQLError : string; repl_LastError : string;
}.
Definition zero_ReplicationStatus : ReplicationStatus :=
  mkReplicationStatus ∅ (ThreadStateOther "") (ThreadStateOther "") None "" "" "" "" "".
#[export] Instance eta_ReplicationStatus : Settable ReplicationStatus := λ r,
  mkReplicationStatus (repl_SourceIdentity r) (repl_IOThread r) (repl_SQLThread r)
  (repl_LagSeconds r) (repl_RetrievedPosition r) (repl_ExecutedPosition r) (repl_LastIOError r)
  (repl_LastSQLError r) (repl_LastError r).

(** [model.RecoveryState]. *)
Record RecoveryState : Type := mkRecoveryState {
  rstate_RecoveredAt : Time; rstate_TaskID : ResourceID;
  rstate_CurrentPrimaryID : ResourceID; rstate_ExpectedState : string;
  rstate_ActualState : string; rstate_IncidentActive : bool;
  rstate_IncidentRecovered : bool; rstate_LastRecoveryStatus : string;
  rstate_LastShutdownClassification : string;
}.
Definition zero_RecoveryState : RecoveryState :=
  mkRecoveryState 0 "" "" "" "" false false "" "".
#[export] Instance eta_RecoveryState : Settable RecoveryState := λ r,
  mkRecoveryState (rstate_RecoveredAt r) (rstate_TaskID r) (rstate_CurrentPrimaryID r)
  (rstate_ExpectedState r) (rstate_ActualState r) (rstate_IncidentActive r)
  (rstate_IncidentRecovered r) (rstate_LastRecoveryStatus r)
  (rstate_LastShutdownClassification r).

(** [model.DatabaseCluster]. *)
Record DatabaseCluster : Type := mkDatabaseCluster {
  cluster_ResourceID : ResourceID; cluster_MetadataRevision : uint64;
  cluster_CreatedAt : Time; cluster_UpdatedAt : Time; cluster_PlatformID : ResourceID;
  cluster_Engine : Engine; cluster_EngineIdentity : EngineIdentity;
  cluster_DisplayName : string; cluster_Health : Health; cluster_RecoveryFreeze : bool;
  cluster_Recovery : option RecoveryState;
}.
Definition zero_DatabaseCluster : DatabaseCluster :=
  mkDatabaseCluster "" 0 0 0 "" (EngineOther "") ∅ "" zero_Health false None.
#[export] Instance eta_DatabaseCluster : Settable DatabaseCluster := λ r,
  mkDatabaseCluster (cluster_ResourceID r) (cluster_MetadataRevision r)
  (cluster_CreatedAt r) (cluster_UpdatedAt r) (cluster_PlatformID r) (cluster_Engine r)
  (cluster_EngineIdentity r) (cluster_DisplayName r) (cluster_Health r)
  (cluster_RecoveryFreeze r) (cluster_Recovery r).

(** [model.DatabaseInstance]. *)
Record DatabaseInstance : Type := mkDatabaseInstance {
  inst_ResourceID : ResourceID; inst_MetadataRevision : uint64; inst_CreatedAt : Time;
  inst_UpdatedAt : Time; inst_ClusterID : ResourceID; inst_NodeID : ResourceID;
  inst_Engine : Engine; inst_EngineIdentity : EngineIdentity; inst_DisplayName : string;
  inst_Hostname : string; inst_IPAddress : string; inst_Port : Z;
  inst_Aliases : list string; inst_Role : InstanceRole; inst_DesiredRole : InstanceRole;
  inst_Health : Health; inst_Replication : ReplicationStatus; inst_Maintenance : bool;
  inst_PromotionEligible : bool; inst_EngineMetadata : gmap string string;
}.
Definition zero_DatabaseInstance : DatabaseInstance :=
  mkDatabaseInstance "" 0 0 0 "" "" (EngineOther "") ∅ "" "" "" 0 [] (InstanceRoleOther "")
  (InstanceRoleOther "") zero_Health zero_ReplicationStatus false false ∅.
#[export] Instance eta_DatabaseInstance : Settable DatabaseInstance := λ r,
  mkDatabaseInstance (inst_ResourceID r) (inst_MetadataRevision r) (inst_CreatedAt r)
  (inst_UpdatedAt r) (inst_ClusterID r) (inst_NodeID r) (inst_Engine r)
  (inst_EngineIdentity r) (inst_DisplayName r) (inst_Hostname r) (inst_IPAddress r)
  (inst_Port r) (inst_Aliases r) (inst_Role r) (inst_DesiredRole r) (inst_Health r)
  (inst_Replication r) (inst_Maintenance r) (inst_PromotionEligible r)
  (inst_EngineMetadata r).

(** [model.Endpoint]. *)
Record Endpoint : Type := mkEndpoint {
  ep_ResourceID : ResourceID; ep_MetadataRevision : uint64; ep_CreatedAt : Time;
  ep_UpdatedAt : Time; ep_ClusterID : ResourceID; ep_InstanceID : ResourceID;
  ep_Kind : EndpointKind; ep_Hostname : string; ep_IPAddress : string; ep_Port : Z;
  ep_Active : bool;
}.
Definition zero_Endpoint : Endpoint :=
  mkEndpoint "" 0 0 0 "" "" (EndpointKindOther "") "" "" 0 false.
#[export] Instance eta_Endpoint : Settable Endpoint := λ r,
  mkEndpoint (ep_ResourceID r) (ep_MetadataRevision r) (ep_CreatedAt r) (ep_UpdatedAt r)
  (ep_ClusterID r) (ep_InstanceID r) (ep_Kind r) (ep_Hostname r) (ep_IPAddress r) (ep_Port r)
  (ep_Active r).

(** [model.ReplicationLink]. *)
Record ReplicationLink : Type := mkReplicationLink {
  link_ResourceID : ResourceID; link_MetadataRevision : uint64; link_CreatedAt : Time;
  link_UpdatedAt : Time; link_ClusterID : ResourceID; link_SourceInstanceID : ResourceID;
  link_TargetInstanceID : ResourceID; link_Healthy : bool; link_LagSeconds : option Z;
}.
Definition zero_ReplicationLink : ReplicationLink :=
  mkReplicationLink "" 0 0 0 "" "" "" false None.
#[export] Instance eta_ReplicationLink : Settable ReplicationLink := λ r,
  mkReplicationLink (link_ResourceID r) (link_MetadataRevision r) (link_CreatedAt r)
  (link_UpdatedAt r) (link_ClusterID r) (link_SourceInstanceID r) (link_TargetInstanceID r)
  (link_Healthy r) (link_LagSeconds r).

(** [model.HAEndpoint]. *)
Record HAEndpoint : Type := mkHAEndpoint {
  ha_ResourceID : ResourceID; ha_MetadataRevision : uint64; ha_CreatedAt : Time;
  ha_UpdatedAt : Time; ha_ClusterID : ResourceID; ha_EndpointID : ResourceID;
  ha_Kind : EndpointKind; ha_DesiredRole : InstanceRole; ha_OwnerID : ResourceID;
  ha_Interface : string; ha_Prefix : Z; ha_Provider : EndpointProviderKind;
  ha_ProviderRef : string; ha_Healthy : bool;
}.
Definition zero_HAEndpoint : HAEndpoint :=
  mkHAEndpoint "" 0 0 0 "" "" (EndpointKindOther "") (InstanceRoleOther "") "" "" 0
  (EndpointProviderKindOther "") "" false.
#[export] Instance eta_HAEndpoint : Settable HAEndpoint := λ r,
  mkHAEndpoint (ha_ResourceID r) (ha_MetadataRevision r) (ha_CreatedAt r) (ha_UpdatedAt r)
  (ha_ClusterID r) (ha_EndpointID r) (ha_Kind r) (ha_DesiredRole r) (ha_OwnerID r)
  (ha_Interface r) (ha_Prefix r) (ha_Provider r) (ha_ProviderRef r) (ha_Healthy r).

(** [model.ProbeStatus]. *)
Record ProbeStatus : Type := mkProbeStatus {
  probe_EndpointID : ResourceID; probe_InstanceID : ResourceID;
  probe_Outcome : ProbeOutcome; probe_DiscoveryObservedAt : Time;
  probe_MetricsObservedAt : Time; probe_Health : Health;
}.
Definition zero_ProbeStatus : ProbeStatus :=
  mkProbeStatus "" "" (ProbeOutcomeOther "") 0 0 zero_Health.
#[export] Instance eta_ProbeStatus : Settable ProbeStatus := λ r,
  mkProbeStatus (probe_EndpointID r) (probe_InstanceID r) (probe_Outcome r)
  (probe_DiscoveryObservedAt r) (probe_MetricsObservedAt r) (probe_Health r).

(** [model.MetadataAnomaly]. *)
Record MetadataAnomaly : Type := mkMetadataAnomaly {
  anomaly_ResourceID : ResourceID; anomaly_MetadataRevision : uint64;
  anomaly_CreatedAt : Time; anomaly_UpdatedAt : Time; anomaly_ClusterID : ResourceID;
  anomaly_Engine : Engine; anomaly_Kind : string; anomaly_Severity : string;
  anomaly_Message : string;
}.
Definition zero_MetadataAnomaly : MetadataAnomaly :=
  mkMetadataAnomaly "" 0 0 0 "" (EngineOther "") "" "" "".

(** [model.TopologySnapshot]. *)
Record TopologySnapshot : Type := mkTopologySnapshot {
  topo_ClusterID : ResourceID; topo_Instances : list DatabaseInstance;
  topo_Links : list ReplicationLink; topo_Probes : list ProbeStatus; topo_Health : Health;
  topo_Anomalies : list MetadataAnomaly; topo_ObservedAt : Time;
}.
Definition zero_TopologySnapshot : TopologySnapshot :=
  mkTopologySnapshot "" [] [] [] zero_Health [] 0.
#[export] Instance eta_TopologySnapshot : Settable TopologySnapshot := λ r,
  mkTopologySnapshot (topo_ClusterID r) (topo_Instances r) (topo_Links r) (topo_Probes r)
  (topo_Health r) (topo_Anomalies r) (topo_ObservedAt r).

(** [model.CandidatePolicy]. *)
Record CandidatePolicy : Type := mkCandidatePolicy {
  policy_MaximumLagSeconds : Z; policy_RequireGTID : bool;
  policy_AllowSourceDisconnected : bool;
}.
Definition zero_CandidatePolicy : CandidatePolicy :=
  mkCandidatePolicy 0 false false.

(** [model.Check]. *)
Record Check : Type := mkCheck {
  check_Name : string; check_Status : CheckStatus; check_Message : string;
}.
Definition zero_Check : Check :=
  mkCheck "" (CheckStatusOther "") "".
#[export] Instance eta_Check : Settable Check := λ r,
  mkCheck (check_Name r) (check_Status r) (check_Message r).

(** [model.CandidateAssessment]. *)
Record CandidateAssessment : Type := mkCandidateAssessment {
  assess_InstanceID : ResourceID; assess_Eligible : bool; assess_Rank : Z;
  assess_RiskLevel : string; assess_DataLossRisk : string; assess_Checks : list Check;
}.
Definition zero_CandidateAssessment : CandidateAssessment :=
  mkCandidateAssessment "" false 0 "" "" [].
#[export] Instance eta_CandidateAssessment : Settable CandidateAssessment := λ r,
  mkCandidateAssessment (assess_InstanceID r) (assess_Eligible r) (assess_Rank r)
  (assess_RiskLevel r) (assess_DataLossRisk r) (assess_Checks r).

(** [model.Operation]. *)
Record Operation : Type := mkOperation {
  opn_ResourceID : ResourceID; opn_MetadataRevision : uint64; opn_CreatedAt : Time;
  opn_UpdatedAt : Time; opn_ClusterID : ResourceID; opn_Engine : Engine;
  opn_Kind : OperationKind; opn_Status : OperationStatus; opn_RequestedBy : string;
}.
Definition zero_Operation : Operation :=
  mkOperation "" 0 0 0 "" (EngineOther "") (OperationKindOther "")
  (OperationStatusOther "") "".
#[export] Instance eta_Operation : Settable Operation := λ r,
  mkOperation (opn_ResourceID r) (opn_MetadataRevision r) (opn_CreatedAt r)
  (opn_UpdatedAt r) (opn_ClusterID r) (opn_Engine r) (opn_Kind r) (opn_Status r)
  (opn_RequestedBy r).

(** [model.PlanStep]. *)
Record PlanStep : Type := mkPlanStep {
  step_Index : Z; step_Name : string; step_Owner : string; step_TargetID : ResourceID;
  step_Mutating : bool; step_Postcondition : string;
}.
Definition zero_PlanStep : PlanStep :=
  mkPlanStep 0 "" "" "" false "".

(** [model.OperationPlan]. *)
Record OperationPlan : Type := mkOperationPlan {
  plan_ResourceID : ResourceID; plan_MetadataRevision : uint64; plan_CreatedAt : Time;
  plan_UpdatedAt : Time; plan_OperationID : ResourceID; plan_ClusterID : ResourceID;
  plan_SourceID : ResourceID; plan_TargetID : ResourceID; plan_Stage : WorkflowStage;
  plan_ObservationToken : string; plan_ResourceRevisions : gmap ResourceID uint64;
  plan_Checks : list Check; plan_Steps : list PlanStep; plan_Digest : string;
  plan_Summary : string; plan_Mutating : bool;
}.
Definition zero_OperationPlan : OperationPlan :=
  mkOperationPlan "" 0 0 0 "" "" "" "" (WorkflowStageOther "") "" ∅ [] [] "" "" false.
#[export] Instance eta_OperationPlan : Settable OperationPlan := λ r,
  mkOperationPlan (plan_ResourceID r) (plan_MetadataRevision r) (plan_CreatedAt r)
  (plan_UpdatedAt r) (plan_OperationID r) (plan_ClusterID r) (plan_SourceID r)
  (plan_TargetID r) (plan_Stage r) (plan_ObservationToken r) (plan_ResourceRevisions r)
  (plan_Checks r) (plan_Steps r) (plan_Digest r) (plan_Summary r) (plan_Mutating r).

(** [model.Execution]. *)
Record Execution : Type := mkExecution {
  exec_ResourceID : ResourceID; exec_MetadataRevision : uint64; exec_CreatedAt : Time;
  exec_UpdatedAt : Time; exec_OperationID : ResourceID; exec_Status : OperationStatus;
  exec_StartedAt : Time; exec_FinishedAt : Time; exec_Message : string;
}.
Definition zero_Execution : Execution :=
  mkExecution "" 0 0 0 "" (OperationStatusOther "") 0 0 "".
#[export] Instance eta_Execution : Settable Execution := λ r,
  mkExecution (exec_ResourceID r) (exec_MetadataRevision r) (exec_CreatedAt r)
  (exec_UpdatedAt r) (exec_OperationID r) (exec_Status r) (exec_StartedAt r)
  (exec_FinishedAt r) (exec_Message r).

(** [model.Verification]. *)
Record Verification : Type := mkVerification {
  ver_ResourceID : ResourceID; ver_MetadataRevision : uint64; ver_CreatedAt : Time;
  ver_UpdatedAt : Time; ver_OperationID : ResourceID; ver_Passed : bool;
  ver_Checks : list Check; ver_ObservedAt : Time;
}.
Definition zero_Verification : Verification :=
  mkVerification "" 0 0 0 "" false [] 0.
#[export] Instance eta_Verification : Settable Verification := λ r,
  mkVerification (ver_ResourceID r) (ver_MetadataRevision r) (ver_CreatedAt r)
  (ver_UpdatedAt r) (ver_OperationID r) (ver_Passed r) (ver_Checks r) (ver_ObservedAt r).

(** [model.StepAttempt]. *)
Record StepAttempt : Type := mkStepAttempt {
  att_Step : string; att_Attempt : uint64; att_Status : OperationStatus;
  att_StartedAt : Time; att_FinishedAt : Time; att_Message : string;
  att_FailureClass : string;
}.
Definition zero_StepAttempt : StepAttempt :=
  mkStepAttempt "" 0 (OperationStatusOther "") 0 0 "" "".
#[export] Instance eta_StepAttempt : Settable StepAttempt := λ r,
  mkStepAttempt (att_Step r) (att_Attempt r) (att_Status r) (att_StartedAt r)
  (att_FinishedAt r) (att_Message r) (att_FailureClass r).

(** [model.OperationReview]. *)
Record OperationReview : Type := mkOperationReview {
  review_ReviewedAt : Time; review_ReviewedBy : string;
  review_Disposition : OperationReviewDisposition; review_Note : string;
}.
Definition zero_OperationReview : OperationReview :=
  mkOperationReview 0 "" (OperationReviewDispositionOther "") "".

(** [model.OperationRecord]. *)
Record OperationRecord : Type := mkOperationRecord {
  rec_ResourceID : ResourceID; rec_MetadataRevision : uint64; rec_CreatedAt : Time;
  rec_UpdatedAt : Time; rec_Operation : Operation; rec_TargetID : ResourceID;
  rec_IdempotencyKey : string; rec_Stage : WorkflowStage; rec_Status : OperationStatus;
  rec_Observation : string; rec_Precheck : list Check; rec_Plan : OperationPlan;
  rec_Attempts : list StepAttempt; rec_Execution : Execution;
  rec_Verification : Verification; rec_Review : option OperationReview;
  rec_FailureClass : string; rec_Message : string;
}.
Definition zero_OperationRecord : OperationRecord :=
  mkOperationRecord "" 0 0 0 zero_Operation "" "" (WorkflowStageOther "")
  (OperationStatusOther "") "" [] zero_OperationPlan [] zero_Execution zero_Verification
  None "" "".
#[export] Instance eta_OperationRecord : Settable OperationRecord := λ r,
  mkOperationRecord (rec_ResourceID r) (rec_MetadataRevision r) (rec_CreatedAt r)
  (rec_UpdatedAt r) (rec_Operation r) (rec_TargetID r) (rec_IdempotencyKey r) (rec_Stage r)
  (rec_Status r) (rec_Observation r) (rec_Precheck r) (rec_Plan r) (rec_Attempts r)
  (rec_Execution r) (rec_Verification r) (rec_Review r) (rec_FailureClass r)
  (rec_Message r).

(** [model.OperationTransition]. *)
Record OperationTransition : Type := mkOperationTransition {
  trans_Stage : WorkflowStage; trans_Status : OperationStatus; trans_Observation : string;
  trans_Precheck : option (list Check); trans_Attempt : option StepAttempt;
  trans_Execution : option Execution; trans_Verification : option Verification;
  trans_FailureClass : string; trans_Message : string;
}.
Definition zero_OperationTransition : OperationTransition :=
  mkOperationTransition (WorkflowStageOther "") (OperationStatusOther "") "" None None None
  None "" "".
#[export] Instance eta_OperationTransition : Settable OperationTransition := λ r,
  mkOperationTransition (trans_Stage r) (trans_Status r) (trans_Observation r) (trans_Precheck r) (trans_Attempt r)
  (trans_Execution r) (trans_Verification r) (trans_FailureClass r) (trans_Message r).

(** [model.AuditEvent]. *)
Record AuditEvent : Type := mkAuditEvent {
  audit_ResourceID : ResourceID; audit_MetadataRevision : uint64; audit_CreatedAt : Time;
  audit_UpdatedAt : Time; audit_OperationID : ResourceID; audit_Stage : WorkflowStage;
  audit_Actor : string; audit_Message : string;
}.
Definition zero_AuditEvent : AuditEvent :=
  mkAuditEvent "" 0 0 0 "" (WorkflowStageOther "") "" "".
#[export] Instance eta_AuditEvent : Settable AuditEvent := λ r,
  mkAuditEvent (audit_ResourceID r) (audit_MetadataRevision r) (audit_CreatedAt r)
  (audit_UpdatedAt r) (audit_OperationID r) (audit_Stage r) (audit_Actor r)
  (audit_Message r).

(** [model.Report]. *)
Record Report : Type := mkReport {
  report_ResourceID : ResourceID; report_MetadataRevision : uint64;
  report_CreatedAt : Time; report_UpdatedAt : Time; report_OperationID : ResourceID;
  report_Title : string; report_Status : OperationStatus; report_Summary : string;
}.
Definition zero_Report : Report :=
  mkReport "" 0 0 0 "" "" (OperationStatusOther "") "".
#[export] Instance eta_Report : Settable Report := λ r,
  mkReport (report_ResourceID r) (report_MetadataRevision r) (report_CreatedAt r)
  (report_UpdatedAt r) (report_OperationID r) (report_Title r) (report_Status r)
  (report_Summary r).

(** [model.ApprovalGrant]. *)
Record ApprovalGrant : Type := mkApprovalGrant {
  grant_ResourceID : ResourceID; grant_MetadataRevision : uint64; grant_CreatedAt : Time;
  grant_UpdatedAt : Time; grant_TokenHash : string; grant_OperationID : ResourceID;
  grant_ClusterID : ResourceID; grant_Engine : Engine; grant_OperationKind : OperationKind;
  grant_TargetID : ResourceID; grant_PlanDigest : string; grant_ObservationDigest : string;
  grant_IssuedBy : string; grant_IssuedAt : Time; grant_ExpiresAt : Time;
  grant_ConsumedAt : Time; grant_ConsumedByOperationID : ResourceID;
  grant_Status : ApprovalGrantStatus;
}.
Definition zero_ApprovalGrant : ApprovalGrant :=
  mkApprovalGrant "" 0 0 0 "" "" "" (EngineOther "") (OperationKindOther "") "" "" "" "" 0
  0 0 "" (ApprovalGrantStatusOther "").
#[export] Instance eta_ApprovalGrant : Settable ApprovalGrant := λ r,
  mkApprovalGrant (grant_ResourceID r) (grant_MetadataRevision r) (grant_CreatedAt r)
  (grant_UpdatedAt r) (grant_TokenHash r) (grant_OperationID r) (grant_ClusterID r)
  (grant_Engine r) (grant_OperationKind r) (grant_TargetID r) (grant_PlanDigest r)
  (grant_ObservationDigest r) (grant_IssuedBy r) (grant_IssuedAt r) (grant_ExpiresAt r)
  (grant_ConsumedAt r) (grant_ConsumedByOperationID r) (grant_Status r).

(** [model.RecoveryTimeline]. *)
Record RecoveryTimeline : Type := mkRecoveryTimeline {
  tl_Timeline : Z; tl_SwitchLSN : string;
}.
Definition zero_RecoveryTimeline : RecoveryTimeline :=
  mkRecoveryTimeline 0 "".

(** [model.RecoveryEvidence]. *)
Record RecoveryEvidence : Type := mkRecoveryEvidence {
  ev_InstanceID : ResourceID; ev_NativeID : string; ev_Engine : Engine;
  ev_ObservedAt : Time; ev_Fenced : bool; ev_Complete : bool;
  ev_PreparedTransactions : bool; ev_GTIDExecuted : string; ev_GTIDPurged : string;
  ev_SystemIdentifier : string; ev_Timeline : Z; ev_Position : string;
  ev_Checkpoint : string; ev_Redo : string; ev_WALSegmentBytes : uint64;
  ev_ControlState : string; ev_ControlDigest : string; ev_WALTailDigest : string;
  ev_History : list RecoveryTimeline; ev_Fingerprint : string;
}.
Definition zero_RecoveryEvidence : RecoveryEvidence :=
  mkRecoveryEvidence "" "" (EngineOther "") 0 false false false "" "" "" 0 "" "" "" 0 "" ""
  "" [] "".
#[export] Instance eta_RecoveryEvidence : Settable RecoveryEvidence := λ r,
  mkRecoveryEvidence (ev_InstanceID r) (ev_NativeID r) (ev_Engine r) (ev_ObservedAt r)
  (ev_Fenced r) (ev_Complete r) (ev_PreparedTransactions r) (ev_GTIDExecuted r)
  (ev_GTIDPurged r) (ev_SystemIdentifier r) (ev_Timeline r) (ev_Position r)
  (ev_Checkpoint r) (ev_Redo r) (ev_WALSegmentBytes r) (ev_ControlState r)
  (ev_ControlDigest r) (ev_WALTailDigest r) (ev_History r) (ev_Fingerprint r).

(** [model.RecoveryProof]. *)
Record RecoveryProof : Type := mkRecoveryProof {
  proof_CandidateID : ResourceID; proof_OtherID : ResourceID;
  proof_CandidateFingerprint : string; proof_OtherFingerprint : string;
  proof_CommonWALVerified : bool; proof_DiscardedWALVerified : bool;
  proof_DiscardedTransactions : bool;
}.
Definition zero_RecoveryProof : RecoveryProof :=
  mkRecoveryProof "" "" "" "" false false false.

(** [model.RecoveryEvent]. *)
Record RecoveryEvent : Type := mkRecoveryEvent {
  event_At : Time; event_Stage : RecoveryStage; event_InstanceID : ResourceID;
  event_Message : string;
}.
Definition zero_RecoveryEvent : RecoveryEvent :=
  mkRecoveryEvent 0 (RecoveryStageOther "") "" "".

(** [model.RecoveryTask]. *)
Record RecoveryTask : Type := mkRecoveryTask {
  task_ResourceID : ResourceID; task_MetadataRevision : uint64; task_CreatedAt : Time;
  task_UpdatedAt : Time; task_ClusterID : ResourceID; task_Engine : Engine;
  task_RequestedBy : string; task_Stage : RecoveryStage; task_PlanDigest : string;
  task_InventoryGeneration : uint64; task_Members : list DatabaseInstance;
  task_Evidence : list RecoveryEvidence; task_Proofs : list RecoveryProof;
  task_PrimaryID : ResourceID; task_LeaseID : ResourceID; task_Events : list RecoveryEvent;
  task_Message : string; task_CommittedAt : Time; task_AttemptStartedAt : Time;
  task_VerifiedAt : Time; task_CompletedAt : Time;
}.
Definition zero_RecoveryTask : RecoveryTask :=
  mkRecoveryTask "" 0 0 0 "" (EngineOther "") "" (RecoveryStageOther "") "" 0 [] [] [] ""
  "" [] "" 0 0 0 0.
#[export] Instance eta_RecoveryTask : Settable RecoveryTask := λ r,
  mkRecoveryTask (task_ResourceID r) (task_MetadataRevision r) (task_CreatedAt r)
  (task_UpdatedAt r) (task_ClusterID r) (task_Engine r) (task_RequestedBy r) (task_Stage r)
  (task_PlanDigest r) (task_InventoryGeneration r) (task_Members r) (task_Evidence r)
  (task_Proofs r) (task_PrimaryID r) (task_LeaseID r) (task_Events r) (task_Message r)
  (task_CommittedAt r) (task_AttemptStartedAt r) (task_VerifiedAt r) (task_CompletedAt r).

(** [model.PowerInstanceRef]. *)
Record PowerInstanceRef : Type := mkPowerInstanceRef {
  pref_InstanceID : ResourceID; pref_Hostname : string; pref_IPAddress : string;
  pref_Port : Z;
}.
Definition zero_PowerInstanceRef : PowerInstanceRef :=
  mkPowerInstanceRef "" "" "" 0.

(** [model.PowerVIPRef]. *)
Record PowerVIPRef : Type := mkPowerVIPRef {
  pvip_EndpointID : ResourceID; pvip_IPAddress : string; pvip_Interface : string;
}.
Definition zero_PowerVIPRef : PowerVIPRef :=
  mkPowerVIPRef "" "" "".

(** [model.PowerSnapshot]. *)
Record PowerSnapshot : Type := mkPowerSnapshot {
  psnap_ClusterID : ResourceID; psnap_ClusterName : string; psnap_Engine : Engine;
  psnap_Primary : PowerInstanceRef; psnap_Replicas : list PowerInstanceRef;
  psnap_VIP : option PowerVIPRef; psnap_CapturedAt : Time;
  psnap_LocalInstanceID : ResourceID; psnap_LocalServiceName : string;
}.
Definition zero_PowerSnapshot : PowerSnapshot :=
  mkPowerSnapshot "" "" (EngineOther "") zero_PowerInstanceRef [] None 0 "" "".

(** [model.PowerOperation]. *)
Record PowerOperation : Type := mkPowerOperation {
  pow_ResourceID : ResourceID; pow_MetadataRevision : uint64; pow_CreatedAt : Time;
  pow_UpdatedAt : Time; pow_ClusterID : ResourceID; pow_Engine : Engine;
  pow_OperationType : PowerOperationType; pow_State : PowerState; pow_Mode : string;
  pow_RequestedBy : string; pow_ApprovedBy : string; pow_OperationID : ResourceID;
  pow_AutoRecovery : bool; pow_Snapshot : option PowerSnapshot; pow_Message : string;
  pow_StartedAt : Time; pow_CompletedAt : Time;
}.
Definition zero_PowerOperation : PowerOperation :=
  mkPowerOperation "" 0 0 0 "" (EngineOther "") (PowerOperationTypeOther "")
  (PowerStateOther "") "" "" "" "" false None "" 0 0.
#[export] Instance eta_PowerOperation : Settable PowerOperation := λ r,
  mkPowerOperation (pow_ResourceID r) (pow_MetadataRevision r) (pow_CreatedAt r)
  (pow_UpdatedAt r) (pow_ClusterID r) (pow_Engine r) (pow_OperationType r) (pow_State r)
  (pow_Mode r) (pow_RequestedBy r) (pow_ApprovedBy r) (pow_OperationID r)
  (pow_AutoRecovery r) (pow_Snapshot r) (pow_Message r) (pow_StartedAt r)
  (pow_CompletedAt r).

(** ** Methods of the model *)

(** [Engine.Valid]. *)
Definition Engine_Valid (e : Engine) : bool :=
  match e with EngineOther _ => false | _ => true end.

(** [EndpointProviderKind.Valid]. *)
Definition EndpointProviderKind_Valid (k : EndpointProviderKind) : bool :=
  match k with EndpointProviderKindOther _ => false | _ => true end.

(** [Verification.Successful]: an explicit verdict backed by at least one
    check, none of which failed or has an unknown status. *)
Definition Successful (v : Verification) : bool :=
  ver_Passed v && negb (Nat.eqb (length (ver_Checks v)) 0) &&
  forallb (λ c, (check_Status c == CheckPass) || (check_Status c == CheckWarn)) (ver_Checks v).

(** [OperationRecord.RequiresReview]. *)
Definition RequiresReview (o : OperationRecord) : bool :=
  (rec_Status o == OperationIndeterminate) && negb (bool_decide (is_Some (rec_Review o))).

(** [RecoveryStage.Valid]. *)
Definition RecoveryStage_Valid (s : RecoveryStage) : bool :=
  match s with RecoveryStageOther _ => false | _ => true end.

(** [DatabaseCluster.DisasterRecoveryActive]. *)
Definition DisasterRecoveryActive (c : DatabaseCluster) : bool :=
  cluster_RecoveryFreeze c &&
  match cluster_Recovery c with
  | Some r => negb (String.eqb (rstate_LastRecoveryStatus r) "succeeded")
  | None => false
  end.

(** ** Facts *)

Lemma ValidResourceID_nonempty id : ValidResourceID id = true → id ≠ "".
Proof. by intros H ->. Qed.
