(* ===== verification/Gtid.v ===== *)
(** * pkg/gtid: MySQL GTID sets

    [src/pkg/gtid/gtid.go].  A set maps a source (a server UUID, or a UUID and
    a tag) to a list of closed transaction intervals.  The definitions follow
    the file top to bottom; the theorems relate them to the set of
    transactions [gtid_in] a value denotes: parsing yields canonical interval
    lists, normalisation does not change the set, and the counts the failover
    and recovery decisions are based on are cardinalities of set differences. *)
From S2P Require Import Prelude GoStd Model.

Record gtidInterval : Type := mkInterval { iv_start : uint64; iv_end : uint64 }.
#[export] Instance gtidInterval_eq_dec : EqDecision gtidInterval.
Proof. solve_decision. Defined.

Record GTIDSet : Type := mkGTIDSet { gs_intervals : gmap string (list gtidInterval) }.

Record GTIDComparison : Type := mkComparison {
  MissingTransactions : uint64; ErrantTransactions : uint64
}.

Record GTIDRecoveryAssessment : Type := mkRecoveryAssessment {
  ra_MissingTransactions : uint64; ra_ErrantTransactions : uint64;
  ra_PurgedMissingTransactions : uint64; ra_FastRejoinSafe : bool
}.

(** The error exits of the package. *)
Inductive gtid_error : Type :=
| ErrInvalidGroup
| ErrTagWithoutInterval
| ErrInvalidInterval
| ErrCountOverflow
| ErrOverlapExceedsSource
| ErrPurgedNotExecuted.

(** ** Lexical checks *)

Definition validGTIDUUID (value : string) : bool :=
  Nat.eqb (String.length value) 36 && string_foralli uuid_char value.

Definition tag_char (i : nat) (c : ascii) : bool :=
  is_lower c || is_upper c || Ascii.eqb c "_" || (negb (Nat.eqb i 0) && is_digit c).
Definition validGTIDTag (value : string) : bool :=
  Nat.leb 1 (String.length value) && Nat.leb (String.length value) 32 &&
  string_foralli tag_char value.

Definition gtidSourceUUID (source : string) : string :=
  let source := ToLower (TrimSpace source) in
  if Nat.ltb (String.length source) 36 || negb (validGTIDUUID (take_string 36 source))
  then "" else take_string 36 source.

(** ** Parsing *)

Definition parseGTIDInterval (value : string) : result gtid_error gtidInterval :=
  let parts := Split "-" (TrimSpace value) in
  match parts with
  | [first] =>
      match ParseUint first 10 64 with
      | Some s => if s =? 0 then Err ErrInvalidInterval else Ok (mkInterval s s)
      | None => Err ErrInvalidInterval
      end
  | [first; last] =>
      match ParseUint first 10 64 with
      | Some s =>
          if s =? 0 then Err ErrInvalidInterval
          else match ParseUint last 10 64 with
               | Some e => if (e =? 0) || (e <? s) then Err ErrInvalidInterval
                           else Ok (mkInterval s e)
               | None => Err ErrInvalidInterval
               end
      | None => Err ErrInvalidInterval
      end
  | _ => Err ErrInvalidInterval
  end.

(** [set.intervals[source] = append(set.intervals[source], interval)]. *)
Definition append_interval (m : gmap string (list gtidInterval)) (source : string)
    (iv : gtidInterval) : gmap string (list gtidInterval) :=
  <[source := default [] (m !! source) ++ [iv]]> m.

(** The loop over the parts of one group after its UUID: a tag changes the
    source of the intervals that follow it. *)
Fixpoint parse_parts (uuid source : string) (m : gmap string (list gtidInterval))
    (parts : list string) : result gtid_error (gmap string (list gtidInterval)) :=
  match parts with
  | [] => Ok m
  | part :: rest =>
      let rawInterval := TrimSpace part in
      if validGTIDTag rawInterval then
        let source := uuid +:+ ":" +:+ ToLower rawInterval in
        match rest with
        | [] => Err ErrTagWithoutInterval
        | part :: rest =>
            match parseGTIDInterval (TrimSpace part) with
            | Ok iv => parse_parts uuid source (append_interval m source iv) rest
            | Err e => Err e
            end
        end
      else
        match parseGTIDInterval rawInterval with
        | Ok iv => parse_parts uuid source (append_interval m source iv) rest
        | Err e => Err e
        end
  end.

Definition parse_group (m : gmap string (list gtidInterval)) (rawGroup : string)
  : result gtid_error (gmap string (list gtidInterval)) :=
  match Split ":" (TrimSpace rawGroup) with
  | uuid :: ((_ :: _) as parts) =>
      if validGTIDUUID uuid
      then parse_parts (ToLower uuid) (ToLower uuid) m parts
      else Err ErrInvalidGroup
  | _ => Err ErrInvalidGroup
  end.

(** The order [sort.Slice] sorts by; it is total and antisymmetric, so every
    sorting algorithm returns the same list. *)
Definition interval_le (a b : gtidInterval) : Prop :=
  iv_start a < iv_start b ∨ (iv_start a = iv_start b ∧ iv_end a ≤ iv_end b).
#[export] Instance interval_le_dec : RelDecision interval_le.
Proof. intros a b. unfold interval_le. apply _. Defined.

(** One iteration of the merge loop; the accumulator is [normalized] reversed,
    so its head is the interval [last] points at. *)
Definition merge_step (normalized : list gtidInterval) (iv : gtidInterval)
  : list gtidInterval :=
  match normalized with
  | [] => [iv]
  | last :: before =>
      if (iv_start iv <=? iv_end last) ||
         ((iv_end last <? max_uint64) && (iv_start iv =? u64 (iv_end last + 1)))
      then if iv_end last <? iv_end iv
           then mkInterval (iv_start last) (iv_end iv) :: before
           else normalized
      else iv :: normalized
  end.

Definition normalizeGTIDIntervals (l : list gtidInterval) : list gtidInterval :=
  reverse (foldl merge_step [] (merge_sort interval_le l)).

Definition ParseGTIDSet (value : string) : result gtid_error GTIDSet :=
  if String.eqb (TrimSpace value) "" then Ok (mkGTIDSet ∅)
  else
    m ← for_each parse_group ∅ (Split "," value);
    Ok (mkGTIDSet (normalizeGTIDIntervals <$> m)).

(** ** Counting *)

Definition checkedAddTransactions (left right : uint64) : result gtid_error uint64 :=
  if max_uint64 - left <? right then Err ErrCountOverflow else Ok (u64 (left + right)).

Definition interval_size (iv : gtidInterval) : uint64 := u64 (iv_end iv - iv_start iv + 1).

Definition intervalTransactionCount (l : list gtidInterval) : result gtid_error uint64 :=
  for_each (λ count iv, checkedAddTransactions count (interval_size iv)) 0 l.

(** The two-pointer loop of [overlapTransactionCount]: the lists are the
    suffixes [left[leftIndex:]] and [right[rightIndex:]]. *)
Fixpoint overlap_loop (left : list gtidInterval) :
    uint64 → list gtidInterval → result gtid_error uint64 :=
  fix inner (count : uint64) (right : list gtidInterval) : result gtid_error uint64 :=
    match left, right with
    | a :: left', b :: right' =>
        let start := if iv_start a <? iv_start b then iv_start b else iv_start a in
        let stop := if iv_end b <? iv_end a then iv_end b else iv_end a in
        let counted :=
          if start <=? stop then checkedAddTransactions count (u64 (stop - start + 1))
          else Ok count in
        match counted with
        | Ok count' =>
            if iv_end a <? iv_end b then overlap_loop left' count' right
            else inner count' right'
        | Err e => Err e
        end
    | _, _ => Ok count
    end.
Definition overlapTransactionCount (left right : list gtidInterval) :=
  overlap_loop left 0 right.

Definition intervals_of (s : GTIDSet) (source : string) : list gtidInterval :=
  default [] (gs_intervals s !! source).

(** The body of the loops over a set's sources. *)
Definition count_step (total : uint64) (e : string * list gtidInterval)
  : result gtid_error uint64 :=
  count ← intervalTransactionCount e.2; checkedAddTransactions total count.

Definition difference_step (right : GTIDSet) (difference : uint64)
    (e : string * list gtidInterval) : result gtid_error uint64 :=
  leftCount ← intervalTransactionCount e.2;
  overlap ← overlapTransactionCount e.2 (intervals_of right e.1);
  if leftCount <? overlap then Err ErrOverlapExceedsSource
  else checkedAddTransactions difference (leftCount - overlap).

(** Go ranges over the map in an unspecified order: the loops take the list
    of entries they visit, and the functions use one of its orders. *)
Definition validateGTIDTransactionCount (s : GTIDSet) : result gtid_error uint64 :=
  for_each count_step 0 (map_to_list (gs_intervals s)).

Definition transactionDifference (left right : GTIDSet) : result gtid_error uint64 :=
  for_each (difference_step right) 0 (map_to_list (gs_intervals left)).

Definition CompareGTIDSets (primary candidate : GTIDSet) : result gtid_error GTIDComparison :=
  _ ← validateGTIDTransactionCount primary;
  _ ← validateGTIDTransactionCount candidate;
  missing ← transactionDifference primary candidate;
  errant ← transactionDifference candidate primary;
  Ok (mkComparison missing errant).

(** ** Decisions *)

Definition AssessGTIDRecovery (currentExecuted currentPurged formerExecuted : GTIDSet)
  : result gtid_error GTIDRecoveryAssessment :=
  purgedHistory ← CompareGTIDSets currentExecuted currentPurged;
  if negb (ErrantTransactions purgedHistory =? 0) then Err ErrPurgedNotExecuted
  else
    comparison ← CompareGTIDSets currentExecuted formerExecuted;
    purgedMissing ← transactionDifference currentPurged formerExecuted;
    Ok (mkRecoveryAssessment (MissingTransactions comparison)
          (ErrantTransactions comparison) purgedMissing
          ((ErrantTransactions comparison =? 0) && (purgedMissing =? 0))).

(** The loop of [HasOnlyAdditionsFromSource]: it stops at the first source
    with an addition that is not [sourceUUID]'s. *)
Fixpoint only_additions_loop (sourceUUID : string) (baseline : GTIDSet)
    (entries : list (string * list gtidInterval)) : result gtid_error bool :=
  match entries with
  | [] => Ok true
  | (source, candidateIntervals) :: entries =>
      candidateCount ← intervalTransactionCount candidateIntervals;
      overlap ← overlapTransactionCount candidateIntervals (intervals_of baseline source);
      if (overlap <? candidateCount) && negb (String.eqb (gtidSourceUUID source) sourceUUID)
      then Ok false
      else only_additions_loop sourceUUID baseline entries
  end.

Definition HasOnlyAdditionsFromSource (baseline candidate : GTIDSet) (sourceUUID : string)
  : result gtid_error bool :=
  let sourceUUID := ToLower (TrimSpace sourceUUID) in
  if negb (validGTIDUUID sourceUUID) then Ok false
  else only_additions_loop sourceUUID baseline (map_to_list (gs_intervals candidate)).

Definition LikelyTemporalSamplingSkew (primary candidate : GTIDSet) (primaryUUID : string)
    (_ _ : Time) : result gtid_error bool :=
  comparison ← CompareGTIDSets primary candidate;
  if negb (MissingTransactions comparison =? 0) || (ErrantTransactions comparison =? 0)
  then Ok false
  else HasOnlyAdditionsFromSource primary candidate primaryUUID.

(** ** What a set denotes *)

Definition iv_ok (iv : gtidInterval) : Prop := 1 ≤ iv_start iv ≤ iv_end iv ∧ iv_end iv ≤ max_uint64.
Definition iv_has (iv : gtidInterval) (n : Z) : Prop := iv_start iv ≤ n ≤ iv_end iv.
Definition covered (l : list gtidInterval) (n : Z) : Prop := ∃ iv, iv ∈ l ∧ iv_has iv n.

(** Transaction [n] of [source] belongs to the set. *)
Definition gtid_in (s : GTIDSet) (t : string * Z) : Prop := covered (intervals_of s t.1) t.2.

(** Canonical interval lists: well formed, increasing and separated by at
    least one missing transaction. *)
Definition iv_before (a b : gtidInterval) : Prop := iv_end a + 1 < iv_start b.
Definition canonical (l : list gtidInterval) : Prop :=
  Forall iv_ok l ∧ StronglySorted iv_before l.
Definition gcanonical (s : GTIDSet) : Prop :=
  ∀ source l, gs_intervals s !! source = Some l → canonical l.

#[export] Instance iv_has_dec iv n : Decision (iv_has iv n).
Proof. unfold iv_has. apply _. Defined.

#[export] Instance covered_dec l n : Decision (covered l n).
Proof.
  refine (cast_if (decide (Exists (λ iv, iv_has iv n) l))); unfold covered;
    rewrite Exists_exists in *; naive_solver.
Defined.
#[export] Instance gtid_in_dec s t : Decision (gtid_in s t).
Proof. unfold gtid_in. apply _. Defined.

Lemma covered_nil n : ¬ covered [] n.
Proof. intros (iv & Hin & _). by apply elem_of_nil in Hin. Qed.
Lemma covered_cons a l n : covered (a :: l) n ↔ iv_has a n ∨ covered l n.
Proof. unfold covered. set_solver. Qed.
Lemma covered_perm l1 l2 n : l1 ≡ₚ l2 → covered l1 n ↔ covered l2 n.
Proof. intros H. unfold covered. by setoid_rewrite H. Qed.
Lemma covered_app l1 l2 n : covered (l1 ++ l2) n ↔ covered l1 n ∨ covered l2 n.
Proof. unfold covered. set_solver. Qed.

Lemma canonical_nil : canonical [].
Proof. split; constructor. Qed.
Lemma canonical_cons_inv a l :
  canonical (a :: l) → iv_ok a ∧ canonical l ∧ ∀ b, b ∈ l → iv_ok b ∧ iv_before a b.
Proof.
  intros [Hok Hs]. apply Forall_cons in Hok as [Ha Hl]. apply StronglySorted_inv in Hs as [Hs Hb].
  rewrite Forall_forall in Hb. split; [done|]. split; [by split|].
  rewrite Forall_forall in Hl. naive_solver.
Qed.
Create HintDb gtid.
#[export] Hint Resolve canonical_nil : gtid.

Lemma intervals_of_canonical s source : gcanonical s → canonical (intervals_of s source).
Proof.
  intros H. unfold intervals_of. destruct (gs_intervals s !! source) eqn:E; [by eapply H|].
  apply canonical_nil.
Qed.
#[export] Hint Resolve intervals_of_canonical : gtid.

(** *** Normalisation *)

#[export] Instance interval_le_total : Total interval_le.
Proof. intros a b. unfold interval_le. lia. Qed.
#[export] Instance interval_le_trans : Transitive interval_le.
Proof. intros a b c. unfold interval_le. lia. Qed.
#[export] Instance interval_le_antisymm : AntiSymm (=) interval_le.
Proof. intros [a1 a2] [b1 b2]. unfold interval_le; cbn. intros. f_equal; lia. Qed.

(** The invariant of the merge loop: the accumulator, newest first. *)
Definition merge_inv (acc : list gtidInterval) : Prop :=
  Forall iv_ok acc ∧ StronglySorted (flip iv_before) acc.

Lemma merge_inv_nil : merge_inv [].
Proof. split; constructor. Qed.
Lemma merge_inv_cons iv acc :
  merge_inv (iv :: acc) ↔ iv_ok iv ∧ merge_inv acc ∧ ∀ x, x ∈ acc → iv_before x iv.
Proof.
  unfold merge_inv. rewrite Forall_cons. split.
  - intros [[Hiv Hok] Hs]. apply StronglySorted_inv in Hs as [Hs Hall].
    rewrite Forall_forall in Hall. done.
  - intros (Hiv & [Hok Hs] & Hall). split; [done|]. constructor; [done|]. by apply Forall_forall.
Qed.

Lemma merge_step_spec acc iv :
  merge_inv acc → iv_ok iv → (∀ last, head acc = Some last → iv_start last ≤ iv_start iv) →
  merge_inv (merge_step acc iv) ∧
  (∀ n, covered (merge_step acc iv) n ↔ covered acc n ∨ iv_has iv n) ∧
  (∀ last, head (merge_step acc iv) = Some last → iv_start last ≤ iv_start iv).
Proof.
  intros Hinv Hiv Hle. destruct acc as [|last acc]; cbn.
  { split; [apply merge_inv_cons; set_solver|]. split; [|by intros ? [= <-]].
    intros n. rewrite covered_cons. pose proof (covered_nil n). tauto. }
  specialize (Hle last eq_refl). apply merge_inv_cons in Hinv as (Hlast & Hinv & Hall).
  pose proof (u64_small (iv_end last + 1)) as Hu.
  assert (Hb : iv_end last + 1 < iv_start iv → iv_before last iv ∧ ∀ x, x ∈ acc → iv_before x iv).
  { unfold iv_before, iv_ok in *. intros. split; [done|]. intros x Hx. specialize (Hall x Hx). lia. }
  case_match eqn:Ht.
  - assert (iv_start iv ≤ iv_end last + 1) as Htouch.
    { bsimpl. destruct Ht as [?|[? ?]%andb_prop]; bsimpl; [lia|].
      unfold iv_ok in *. rewrite Hu in *; lia. }
    case_match eqn:Hlt; bsimpl.
    + split; [|split].
      * apply merge_inv_cons. unfold iv_ok, iv_before in *. cbn. split; [lia|done].
      * intros n. rewrite !covered_cons. unfold iv_has, iv_ok in *. cbn.
        destruct (decide (n ≤ iv_end last)); intuition lia.
      * by intros ? [= <-].
    + split; [by apply merge_inv_cons|]. split; [|by intros ? [= <-]].
      intros n. rewrite covered_cons. unfold iv_has. intuition lia.
  - assert (iv_end last + 1 < iv_start iv) as Hgap.
    { apply orb_false_iff in Ht as [H1 H2]. apply andb_false_iff in H2.
      unfold iv_ok, max_uint64 in *. destruct H2; bsimpl; [lia|]. rewrite Hu in *; lia. }
    destruct (Hb Hgap) as [Hb1 Hb2]. split; [|split; [|by intros ? [= <-]]].
    + apply merge_inv_cons. split; [done|]. split; [by apply merge_inv_cons|].
      intros x [->|Hx]%elem_of_cons; auto.
    + intros n. rewrite (covered_cons iv). tauto.
Qed.

Lemma merge_all_spec l acc :
  merge_inv acc → Forall iv_ok l → StronglySorted interval_le l →
  (∀ last iv, head acc = Some last → iv ∈ l → iv_start last ≤ iv_start iv) →
  merge_inv (foldl merge_step acc l) ∧
  ∀ n, covered (foldl merge_step acc l) n ↔ covered acc n ∨ covered l n.
Proof.
  revert acc. induction l as [|iv l IH]; intros acc Hinv Hok Hs Hhd; cbn.
  { split; [done|]. intros n. pose proof (covered_nil n). tauto. }
  apply Forall_cons in Hok as [Hiv Hok]. apply StronglySorted_inv in Hs as [Hs Hle].
  rewrite Forall_forall in Hle.
  destruct (merge_step_spec acc iv) as (Hi & Hc & Hh); [done|done|set_solver|].
  destruct (IH (merge_step acc iv)) as [IH1 IH2]; [done|done|done| |].
  - intros last x Hlast Hx. specialize (Hh last Hlast). specialize (Hle x Hx).
    unfold interval_le in Hle. lia.
  - split; [done|]. intros n. rewrite IH2, Hc, covered_cons. tauto.
Qed.

Lemma StronglySorted_reverse {A} (R : relation A) l :
  StronglySorted (flip R) l → StronglySorted R (reverse l).
Proof.
  induction 1 as [|a l Hs IH Hall]; [constructor|].
  rewrite reverse_cons. apply StronglySorted_app_2; [|done|by repeat constructor].
  rewrite Forall_forall in Hall. intros x1 x2 Hx1 Hx2.
  rewrite elem_of_reverse in Hx1. apply list_elem_of_singleton in Hx2 as ->. by apply Hall.
Qed.

Lemma normalize_spec l : Forall iv_ok l →
  canonical (normalizeGTIDIntervals l) ∧ ∀ n, covered (normalizeGTIDIntervals l) n ↔ covered l n.
Proof.
  intros Hok. unfold normalizeGTIDIntervals.
  pose proof (merge_sort_Permutation interval_le l) as Hp.
  destruct (merge_all_spec (merge_sort interval_le l) []) as [[H1 H2] Hc].
  - split; constructor.
  - by rewrite Hp.
  - by apply StronglySorted_merge_sort; apply _.
  - done.
  - split; [split; [by apply Forall_reverse|by apply StronglySorted_reverse]|].
    intros n. rewrite (covered_perm _ _ n (reverse_Permutation _)), Hc, (covered_perm _ _ n Hp).
    pose proof (covered_nil n). tauto.
Qed.

(** *** Counting one source *)

Definition iv_len (iv : gtidInterval) : Z := iv_end iv - iv_start iv + 1.
Definition iv_overlap (a b : gtidInterval) : Z :=
  Z.max 0 (Z.min (iv_end a) (iv_end b) - Z.max (iv_start a) (iv_start b) + 1).
Definition list_len (l : list gtidInterval) : Z := sum_over iv_len l.
Definition list_overlap (l r : list gtidInterval) : Z :=
  sum_over (λ a, sum_over (iv_overlap a) r) l.

(** The checked sum: the exact total, or an error when it leaves [uint64]. *)
Definition checked (n : Z) : result gtid_error uint64 :=
  if n <=? max_uint64 then Ok n else Err ErrCountOverflow.

Lemma checkedAdd_spec l r : 0 ≤ l ≤ max_uint64 → 0 ≤ r →
  checkedAddTransactions l r = checked (l + r).
Proof.
  intros. unfold checkedAddTransactions, checked.
  destruct (Z.ltb_spec (max_uint64 - l) r), (Z.leb_spec (l + r) max_uint64); try lia; [done|].
  rewrite u64_small; [done|lia].
Qed.

Lemma checked_sum {A} (f : uint64 → A → result gtid_error uint64) (size : A → Z) l acc :
  (∀ a c, a ∈ l → 0 ≤ c ≤ max_uint64 → 0 ≤ size a ∧ f c a = checked (c + size a)) →
  0 ≤ acc ≤ max_uint64 → for_each f acc l = checked (acc + sum_over size l).
Proof.
  revert acc. induction l as [|a l IH]; intros acc Hf Hacc; cbn.
  { unfold checked. rewrite Z.add_0_r. by destruct (Z.leb_spec acc max_uint64); [|lia]. }
  destruct (Hf a acc) as [Ha ->]; [set_solver|lia|].
  assert (0 ≤ sum_over size l) as Hs.
  { apply sum_over_nonneg. intros x Hx. apply (Hf x 0); [set_solver|]. unfold max_uint64. lia. }
  unfold checked at 1. destruct (Z.leb_spec (acc + size a) max_uint64).
  - rewrite IH; [by rewrite Z.add_assoc|intros; apply Hf; set_solver|lia].
  - unfold checked. by destruct (Z.leb_spec (acc + (size a + sum_over size l)) max_uint64); [lia|].
Qed.

Lemma iv_len_pos iv : iv_ok iv → 1 ≤ iv_len iv.
Proof. unfold iv_ok, iv_len. lia. Qed.
Lemma interval_size_ok iv : iv_ok iv → interval_size iv = iv_len iv.
Proof. unfold iv_ok, interval_size, iv_len. intros. apply u64_small. lia. Qed.
Lemma iv_overlap_nonneg a b : 0 ≤ iv_overlap a b.
Proof. unfold iv_overlap. lia. Qed.
Lemma row_overlap_nonneg a r : 0 ≤ sum_over (iv_overlap a) r.
Proof. apply sum_over_nonneg. intros. apply iv_overlap_nonneg. Qed.
Lemma list_overlap_nonneg l r : 0 ≤ list_overlap l r.
Proof. apply sum_over_nonneg. intros. apply row_overlap_nonneg. Qed.
#[export] Hint Resolve iv_overlap_nonneg row_overlap_nonneg list_overlap_nonneg : gtid.

Lemma canonical_len_nonneg l : canonical l → 0 ≤ list_len l.
Proof.
  intros [Hok _]. apply sum_over_nonneg. intros a Ha. rewrite Forall_forall in Hok.
  specialize (Hok a Ha). unfold iv_ok, iv_len in *. lia.
Qed.

(** Disjoint intervals of positive 64-bit numbers have at most [max_uint64]
    elements, so the count of one source never overflows. *)
Lemma canonical_len_bound l lo : canonical l → lo ≤ max_uint64 + 1 →
  (∀ iv, iv ∈ l → lo ≤ iv_start iv) → lo + list_len l ≤ max_uint64 + 1.
Proof.
  revert lo. induction l as [|a l IH]; intros lo Hc Hlo Hall; cbn; [lia|].
  apply canonical_cons_inv in Hc as (Ha & Hc & Hb).
  assert (lo ≤ iv_start a) by (apply Hall; set_solver).
  assert (iv_end a + 1 + list_len l ≤ max_uint64 + 1).
  { apply IH; [done|unfold iv_ok in *; lia|]. intros b Hin. destruct (Hb b Hin) as [_ ?].
    unfold iv_before in *. lia. }
  unfold list_len, iv_len in *. unfold iv_ok in *. lia.
Qed.

Lemma canonical_len_max l : canonical l → list_len l ≤ max_uint64.
Proof.
  intros Hc. enough (1 + list_len l ≤ max_uint64 + 1) by lia.
  apply canonical_len_bound; [done|unfold max_uint64; lia|].
  intros iv Hin. destruct Hc as [Hok _]. rewrite Forall_forall in Hok.
  specialize (Hok iv Hin). unfold iv_ok in Hok. lia.
Qed.

Lemma intervalTransactionCount_spec l :
  canonical l → intervalTransactionCount l = Ok (list_len l).
Proof.
  intros Hc. unfold intervalTransactionCount. rewrite (checked_sum _ iv_len).
  - unfold checked. fold (list_len l). pose proof (canonical_len_max l Hc). rewrite Z.add_0_l.
    destruct (Z.leb_spec (list_len l) max_uint64); [done|lia].
  - intros a c Ha Hcr. destruct Hc as [Hok _]. rewrite Forall_forall in Hok.
    pose proof (iv_len_pos a (Hok a Ha)). split; [lia|].
    rewrite interval_size_ok by auto. apply checkedAdd_spec; lia.
  - unfold max_uint64. lia.
Qed.

(** *** The two-pointer overlap *)

Lemma row_overlap_after a r : (∀ b, b ∈ r → iv_end a < iv_start b) → sum_over (iv_overlap a) r = 0.
Proof. intros H. apply sum_over_0. intros b Hb. specialize (H b Hb). unfold iv_overlap. lia. Qed.

Lemma list_overlap_cons_r l b r :
  list_overlap l (b :: r) = sum_over (λ x, iv_overlap x b) l + list_overlap l r.
Proof. unfold list_overlap. rewrite <- sum_over_add. by apply sum_over_ext. Qed.

Lemma list_overlap_cons_l a l r :
  list_overlap (a :: l) r = sum_over (iv_overlap a) r + list_overlap l r.
Proof. done. Qed.

Lemma overlap_loop_spec l c r : canonical l → canonical r → 0 ≤ c ≤ max_uint64 →
  overlap_loop l c r = checked (c + list_overlap l r).
Proof.
  revert c r. induction l as [|a l IHl]; intros c r Hl Hr Hc.
  { destruct r; cbn; unfold checked; rewrite Z.add_0_r; by destruct (Z.leb_spec c max_uint64); [|lia]. }
  revert c Hc. induction r as [|b r IHr]; intros c Hc.
  { cbn. rewrite (sum_over_0 _ l) by done. unfold checked. rewrite Z.add_0_r.
    by destruct (Z.leb_spec c max_uint64); [|lia]. }
  pose proof (canonical_cons_inv a l Hl) as (Ha & Hl' & Hal).
  pose proof (canonical_cons_inv b r Hr) as (Hb & Hr' & Hbr).
  assert (list_overlap (a :: l) (b :: r) = iv_overlap a b
          + (if iv_end a <? iv_end b then list_overlap l (b :: r) else list_overlap (a :: l) r))
    as Hsplit.
  { destruct (Z.ltb_spec (iv_end a) (iv_end b)).
    - rewrite list_overlap_cons_l. cbn [sum_over]. rewrite (row_overlap_after a r); [lia|].
      intros x Hx. destruct (Hbr x Hx). unfold iv_before, iv_ok in *. lia.
    - rewrite list_overlap_cons_l, list_overlap_cons_r, list_overlap_cons_l. cbn [sum_over].
      rewrite (sum_over_0 (λ x, iv_overlap x b) l); [lia|].
      intros x Hx. destruct (Hal x Hx). unfold iv_before, iv_overlap, iv_ok in *. lia. }
  assert (0 ≤ if iv_end a <? iv_end b then list_overlap l (b :: r) else list_overlap (a :: l) r)
    as Hrest by (case_match; auto with gtid).
  rewrite Hsplit. cbn [overlap_loop].
  set (start := if iv_start a <? iv_start b then _ else _).
  set (stop := if iv_end b <? iv_end a then _ else _).
  assert ((if start <=? stop then checkedAddTransactions c (u64 (stop - start + 1)) else Ok c)
          = checked (c + iv_overlap a b)) as ->.
  { assert (start = Z.max (iv_start a) (iv_start b)) as -> by (unfold start; clear; destruct (Z.ltb_spec (iv_start a) (iv_start b)); lia).
    assert (stop = Z.min (iv_end a) (iv_end b)) as -> by (unfold stop; clear; destruct (Z.ltb_spec (iv_end b) (iv_end a)); lia).
    unfold iv_overlap, iv_ok in *.
    destruct (Z.leb_spec (Z.max (iv_start a) (iv_start b)) (Z.min (iv_end a) (iv_end b))).
    - rewrite u64_small by lia. rewrite checkedAdd_spec by lia. f_equal. lia.
    - unfold checked. rewrite Z.max_l, Z.add_0_r by lia. by destruct (Z.leb_spec c max_uint64); [|lia]. }
  unfold checked at 1. pose proof (iv_overlap_nonneg a b).
  destruct (Z.leb_spec (c + iv_overlap a b) max_uint64).
  - rewrite Z.add_assoc. destruct (iv_end a <? iv_end b); [apply IHl|apply IHr]; auto; lia.
  - unfold checked. destruct (Z.leb_spec (c + (iv_overlap a b +
      if iv_end a <? iv_end b then list_overlap l (b :: r) else list_overlap (a :: l) r))
      max_uint64); [lia|done].
Qed.

(** *** Counts are cardinalities *)

Lemma card_iv iv : iv_ok iv → card (iv_has iv) (iv_len iv).
Proof.
  intros H. pose proof (card_range (iv_start iv) (iv_end iv)) as Hc.
  unfold iv_ok, iv_len in *. by rewrite Z.max_r in Hc by lia.
Qed.
Lemma card_iv_overlap a b :
  card (λ n, iv_has a n ∧ iv_has b n) (iv_overlap a b).
Proof.
  eapply card_ext; [|apply card_range]. intros n. unfold iv_has. cbn. split; [intros H; split|]; lia.
Qed.

Lemma card_covered l : canonical l → card (covered l) (list_len l).
Proof.
  induction l as [|a l IH]; intros Hc; [apply card_empty, covered_nil|].
  apply canonical_cons_inv in Hc as (Ha & Hc & Hb). cbn.
  eapply card_ext; [intros n; symmetry; apply covered_cons|].
  apply card_or; [by apply card_iv|by apply IH|].
  intros n Hn (b & Hin & Hbn). destruct (Hb b Hin). unfold iv_has, iv_before in *. lia.
Qed.

Lemma card_row a r : canonical r →
  card (λ n, iv_has a n ∧ covered r n) (sum_over (iv_overlap a) r).
Proof.
  induction r as [|b r IH]; intros Hc.
  { apply card_empty. intros n [_ ?]. by eapply covered_nil. }
  apply canonical_cons_inv in Hc as (Ha & Hc & Hb). cbn.
  eapply card_ext; [|apply card_or; [apply (card_iv_overlap a b)|by apply IH|]].
  - intros n. rewrite covered_cons. tauto.
  - intros n [_ Hn] [_ (x & Hin & Hx)]. destruct (Hb x Hin). unfold iv_has, iv_before in *. lia.
Qed.

Lemma card_overlap l r : canonical l → canonical r →
  card (λ n, covered l n ∧ covered r n) (list_overlap l r).
Proof.
  intros Hl Hr. induction l as [|a l IH].
  { apply card_empty. intros n [? _]. by eapply covered_nil. }
  apply canonical_cons_inv in Hl as (Ha & Hl & Hb). rewrite list_overlap_cons_l.
  eapply card_ext; [|apply card_or; [by apply (card_row a r)|by apply IH|]].
  - intros n. rewrite covered_cons. tauto.
  - intros n [Hn _] [(x & Hin & Hx) _]. destruct (Hb x Hin). unfold iv_has, iv_before in *. lia.
Qed.

Lemma overlap_le_len l r : canonical l → canonical r → list_overlap l r ≤ list_len l.
Proof. intros. apply (card_sub (covered l) (covered r)); [by apply card_covered|by apply card_overlap]. Qed.

Lemma overlapTransactionCount_spec l r : canonical l → canonical r →
  overlapTransactionCount l r = Ok (list_overlap l r).
Proof.
  intros Hl Hr. unfold overlapTransactionCount. rewrite overlap_loop_spec; [|done..|].
  2: { unfold max_uint64. lia. }
  unfold checked. pose proof (overlap_le_len l r Hl Hr). pose proof (canonical_len_max l Hl).
  destruct (Z.leb_spec (0 + list_overlap l r) max_uint64); [done|lia].
Qed.

(** *** Whole sets *)

Definition entry_len (e : string * list gtidInterval) : Z := list_len e.2.
Definition entry_diff (right : GTIDSet) (e : string * list gtidInterval) : Z :=
  list_len e.2 - list_overlap e.2 (intervals_of right e.1).
(** The sizes of the sets, as sums over the entries of the map. *)
Definition set_size (s : GTIDSet) : Z := sum_over entry_len (map_to_list (gs_intervals s)).
Definition diff_size (l r : GTIDSet) : Z :=
  sum_over (entry_diff r) (map_to_list (gs_intervals l)).

Lemma entry_canonical s e : gcanonical s → e ∈ map_to_list (gs_intervals s) → canonical e.2.
Proof. intros Hs Hin. destruct e as [k l]. apply elem_of_map_to_list in Hin. by eapply Hs. Qed.

Lemma entry_gtid_in s t :
  gtid_in s t ↔ ∃ l, (t.1, l) ∈ map_to_list (gs_intervals s) ∧ covered l t.2.
Proof.
  unfold gtid_in, intervals_of. setoid_rewrite elem_of_map_to_list.
  destruct (gs_intervals s !! t.1); cbn; [naive_solver|].
  split; [by intros ?%covered_nil|naive_solver].
Qed.

Lemma card_gtid_in s : gcanonical s → card (gtid_in s) (set_size s).
Proof.
  intros Hs. eapply card_ext; [intros t; symmetry; apply entry_gtid_in|].
  apply (card_entries (λ e n, covered e.2 n)); [apply NoDup_fst_map_to_list|].
  intros e He. by apply card_covered, (entry_canonical s).
Qed.

Lemma card_gtid_diff l r : gcanonical l → gcanonical r →
  card (λ t, gtid_in l t ∧ ¬ gtid_in r t) (diff_size l r).
Proof.
  intros Hl Hr.
  eapply card_ext; [|apply (card_entries (λ e n, covered e.2 n ∧ ¬ covered (intervals_of r e.1) n))].
  - intros t. rewrite entry_gtid_in. unfold gtid_in. naive_solver.
  - apply NoDup_fst_map_to_list.
  - intros e He. pose proof (entry_canonical l e Hl He).
    apply card_diff; [by apply card_covered|apply card_overlap; auto with gtid].
Qed.

Lemma count_step_spec s total e : gcanonical s → e ∈ map_to_list (gs_intervals s) →
  0 ≤ total ≤ max_uint64 →
  0 ≤ entry_len e ∧ count_step total e = checked (total + entry_len e).
Proof.
  intros Hs He Ht. pose proof (entry_canonical s e Hs He) as Hc.
  pose proof (canonical_len_nonneg _ Hc). split; [done|].
  unfold count_step. rewrite (intervalTransactionCount_spec _ Hc). cbn. by apply checkedAdd_spec.
Qed.

Lemma difference_step_spec l r d e : gcanonical l → gcanonical r →
  e ∈ map_to_list (gs_intervals l) → 0 ≤ d ≤ max_uint64 →
  0 ≤ entry_diff r e ∧ difference_step r d e = checked (d + entry_diff r e).
Proof.
  intros Hl Hr He Hd. pose proof (entry_canonical l e Hl He) as Hc.
  pose proof (intervals_of_canonical r e.1 Hr) as Hc'.
  pose proof (overlap_le_len _ _ Hc Hc'). unfold difference_step, entry_diff. split; [lia|].
  rewrite (intervalTransactionCount_spec _ Hc), (overlapTransactionCount_spec _ _ Hc Hc'). cbn.
  destruct (Z.ltb_spec (list_len e.2) (list_overlap e.2 (intervals_of r e.1))); [lia|].
  apply checkedAdd_spec; lia.
Qed.

Lemma count_loop_spec s entries : gcanonical s → entries ≡ₚ map_to_list (gs_intervals s) →
  for_each count_step 0 entries = checked (set_size s).
Proof.
  intros Hs Hp. rewrite (checked_sum _ entry_len).
  - unfold set_size. by rewrite (sum_over_perm _ _ _ Hp).
  - intros e c He. rewrite Hp in He. by apply (count_step_spec s).
  - unfold max_uint64. lia.
Qed.
Lemma difference_loop_spec l r entries : gcanonical l → gcanonical r →
  entries ≡ₚ map_to_list (gs_intervals l) →
  for_each (difference_step r) 0 entries = checked (diff_size l r).
Proof.
  intros Hl Hr Hp. rewrite (checked_sum _ (entry_diff r)).
  - unfold diff_size. by rewrite (sum_over_perm _ _ _ Hp).
  - intros e c He. rewrite Hp in He. by apply (difference_step_spec l).
  - unfold max_uint64. lia.
Qed.
Lemma validate_spec s : gcanonical s → validateGTIDTransactionCount s = checked (set_size s).
Proof. intros. by apply count_loop_spec. Qed.
Lemma transactionDifference_spec l r : gcanonical l → gcanonical r →
  transactionDifference l r = checked (diff_size l r).
Proof. intros. by apply difference_loop_spec. Qed.

Lemma diff_le_size l r : gcanonical l → gcanonical r → 0 ≤ diff_size l r ≤ set_size l.
Proof.
  intros Hl Hr. split; [by eapply card_nonneg, card_gtid_diff|].
  apply (card_sub (gtid_in l) (λ t, ¬ gtid_in r t)); [by apply card_gtid_in|by apply card_gtid_diff].
Qed.

Lemma checked_inv n m : checked n = Ok m ↔ n ≤ max_uint64 ∧ m = n.
Proof. unfold checked. case_match; bsimpl; split; [naive_solver|intros [? ->]; done|done|lia]. Qed.

(** *** Parsing yields canonical sets *)

Definition raw_ok (m : gmap string (list gtidInterval)) : Prop :=
  ∀ source l, m !! source = Some l → l ≠ [] ∧ Forall iv_ok l.

Lemma parseGTIDInterval_ok v iv : parseGTIDInterval v = Ok iv → iv_ok iv.
Proof.
  unfold parseGTIDInterval, iv_ok, max_uint64. intros H.
  repeat case_match; simplify_eq; bsimpl;
    repeat match goal with E : ParseUint _ _ _ = Some _ |- _ => apply ParseUint_bound in E; [|done] end;
    cbn in *; lia.
Qed.

Lemma append_interval_ok m source iv : raw_ok m → iv_ok iv → raw_ok (append_interval m source iv).
Proof.
  intros Hm Hiv s l. unfold append_interval.
  destruct (decide (s = source)) as [->|]; [rewrite lookup_insert_eq|rewrite lookup_insert_ne by done; apply Hm].
  intros [= <-]. split; [by destruct (default [] _)|].
  apply Forall_app. split; [|by apply Forall_singleton].
  destruct (m !! source) eqn:E; cbn; [by eapply Hm|apply Forall_nil_2].
Qed.

Lemma parse_parts_ok uuid source m parts m' :
  parse_parts uuid source m parts = Ok m' → raw_ok m → raw_ok m'.
Proof.
  remember (length parts) as k eqn:Hk. assert (length parts ≤ k)%nat as Hle by lia. clear Hk.
  revert source m parts Hle. induction k as [|k IH]; intros source m [|part rest] Hle H Hm;
    cbn in *; try lia; simplify_eq; [done|done|].
  repeat case_match; simplify_eq; (eapply IH; [|done|]);
    [cbn in *; lia| |lia|]; apply append_interval_ok; eauto using parseGTIDInterval_ok.
Qed.

Lemma ParseGTIDSet_raw v s : ParseGTIDSet v = Ok s →
  gcanonical s ∧ ∀ source l, gs_intervals s !! source = Some l → ∃ n, covered l n.
Proof.
  unfold ParseGTIDSet. case_match; [intros [= <-]; split; intros ? ?; cbn; by rewrite lookup_empty|].
  intros H'. bsimpl. assert (raw_ok x) as Hraw.
  { eapply (for_each_inv (λ _ m, raw_ok m)); [done| |].
    - intros ? ?. by rewrite lookup_empty.
    - intros pre a post m1 m2 _ Hm1. unfold parse_group. repeat case_match; try done.
      intros. by eapply parse_parts_ok. }
  split; intros source l; cbn; rewrite lookup_fmap_Some; intros (l0 & <- & Hl0);
    destruct (Hraw _ _ Hl0) as [Hne Hok]; destruct (normalize_spec l0 Hok) as [Hc Hcov]; [done|].
  destruct l0 as [|iv l0]; [done|]. exists (iv_start iv). apply Hcov, covered_cons. left.
  apply Forall_cons in Hok as [Hok _]. unfold iv_ok, iv_has in *. lia.
Qed.

(** *** The comparison *)

(** Both sides of a comparison can be counted. *)
Definition countable_sizes (p c : GTIDSet) : Prop :=
  set_size p ≤ max_uint64 ∧ set_size c ≤ max_uint64.

Lemma CompareGTIDSets_spec p c : gcanonical p → gcanonical c →
  (countable_sizes p c ∧
   CompareGTIDSets p c = Ok (mkComparison (diff_size p c) (diff_size c p))) ∨
  (¬ countable_sizes p c ∧ CompareGTIDSets p c = Err ErrCountOverflow).
Proof.
  intros Hp Hc. unfold CompareGTIDSets, countable_sizes.
  rewrite !validate_spec, !transactionDifference_spec by done.
  pose proof (diff_le_size p c Hp Hc). pose proof (diff_le_size c p Hc Hp). unfold checked.
  destruct (Z.leb_spec (set_size p) max_uint64); cbn; [|right; split; [lia|done]].
  destruct (Z.leb_spec (set_size c) max_uint64); cbn; [|right; split; [lia|done]].
  destruct (Z.leb_spec (diff_size p c) max_uint64); cbn; [|lia].
  destruct (Z.leb_spec (diff_size c p) max_uint64); cbn; [|lia]. by left.
Qed.

Lemma diff_size_zero l r : gcanonical l → gcanonical r →
  diff_size l r = 0 ↔ ∀ t, gtid_in l t → gtid_in r t.
Proof.
  intros Hl Hr. pose proof (card_gtid_diff l r Hl Hr) as Hc. split.
  - intros H0 t Ht. rewrite H0 in Hc. pose proof (card_zero _ Hc t).
    assert (Decision (gtid_in r t)) as [|] by apply _; tauto.
  - intros Hsub. eapply card_unique; [exact Hc|]. apply card_empty. naive_solver.
Qed.

Lemma count_lt_iff l r : canonical l → canonical r →
  list_overlap l r < list_len l ↔ ∃ n, covered l n ∧ ¬ covered r n.
Proof.
  intros Hl Hr. pose proof (card_covered l Hl) as H1. pose proof (card_overlap l r Hl Hr) as H2.
  pose proof (card_diff _ _ _ _ H1 H2) as (xs & _ & Hin & Hlen). split.
  - intros Hlt. destruct xs as [|x xs]; cbn in *; [lia|]. exists x. apply Hin. set_solver.
  - intros (n & Hn). apply Hin in Hn. destruct xs; [by apply elem_of_nil in Hn|]. cbn in *; lia.
Qed.

Lemma only_additions_loop_spec uuid base cand entries : gcanonical base → gcanonical cand →
  (∀ e, e ∈ entries → e ∈ map_to_list (gs_intervals cand)) →
  ∃ b, only_additions_loop uuid base entries = Ok b ∧
    (b = true ↔ ∀ k l n, (k, l) ∈ entries → covered l n → ¬ covered (intervals_of base k) n →
                gtidSourceUUID k = uuid).
Proof.
  intros Hb Hc. induction entries as [|[k l] entries IH]; intros Hin; cbn.
  { exists true. split; [done|]. split; [|done]. intros _ ? ? ? ?%elem_of_nil. done. }
  assert (canonical l) as Hl by (apply (entry_canonical cand (k, l)); [done|set_solver]).
  pose proof (intervals_of_canonical base k Hb) as Hbk.
  rewrite (intervalTransactionCount_spec l Hl), (overlapTransactionCount_spec l _ Hl Hbk). cbn.
  pose proof (count_lt_iff l _ Hl Hbk) as Hlt. rewrite <- Z.ltb_lt in Hlt.
  destruct (list_overlap l (intervals_of base k) <? list_len l) eqn:E1;
    [destruct (String.eqb_spec (gtidSourceUUID k) uuid) as [Hu|Hu]|]; cbn.
  2: { exists false. split; [done|]. split; [done|]. intros H. destruct (proj1 Hlt eq_refl) as (n & ? & ?).
       exfalso. apply Hu, (H k l n); set_solver. }
  all: destruct IH as (b & -> & IH); [set_solver|]; exists b; split; [done|]; rewrite IH;
    setoid_rewrite elem_of_cons; split; [|naive_solver].
  - naive_solver.
  - intros H k' l' n [[= -> ->]|?] ? ?; [|by eapply H].
    assert (false = true) by (apply Hlt; eauto). done.
Qed.

Lemma HasOnlyAdditions_spec base cand uuid : gcanonical base → gcanonical cand →
  ∃ b, HasOnlyAdditionsFromSource base cand uuid = Ok b ∧
    (b = true ↔ validGTIDUUID (ToLower (TrimSpace uuid)) = true ∧
       ∀ t, gtid_in cand t → ¬ gtid_in base t → gtidSourceUUID t.1 = ToLower (TrimSpace uuid)).
Proof.
  intros Hb Hc. unfold HasOnlyAdditionsFromSource. destruct (validGTIDUUID _); cbn.
  2: { exists false. split; [done|]. naive_solver. }
  destruct (only_additions_loop_spec (ToLower (TrimSpace uuid)) base cand
              (map_to_list (gs_intervals cand)) Hb Hc ltac:(done)) as (b & -> & Hiff).
  exists b. split; [done|]. rewrite Hiff. setoid_rewrite entry_gtid_in at 1. split.
  - intros H. split; [done|]. intros t (l & Hin & Hn) Hnot. by eapply H.
  - intros [_ H] k l n Hin Hn Hnot. apply (H (k, n)); cbn; eauto.
Qed.

(** ** Properties *)

(** A GTID set that parses is canonical: for every source the parser keeps
    a non-empty list of well-formed intervals (1 <= start <= end <= 2^64 - 1)
    in increasing order, any two separated by at least one transaction the set
    does not contain. *)
Theorem ParseGTIDSet_canonical v s : ParseGTIDSet v = Ok s →
  ∀ source l, gs_intervals s !! source = Some l →
    l ≠ [] ∧ Forall iv_ok l ∧ StronglySorted iv_before l.
Proof.
  intros [Hc Hne]%ParseGTIDSet_raw source l Hl. specialize (Hne source l Hl) as [n Hn].
  split; [intros ->; by eapply covered_nil|]. by apply (Hc source).
Qed.

(** Normalising a source's intervals never changes the transactions they
    denote, whatever their order and overlaps, and two interval lists denoting
    the same transactions normalise to lists of the same total size. *)
Theorem normalize_faithful l1 l2 : Forall iv_ok l1 → Forall iv_ok l2 →
  (∀ n, covered l1 n ↔ covered l2 n) →
  (∀ n, covered (normalizeGTIDIntervals l1) n ↔ covered l1 n) ∧
  intervalTransactionCount (normalizeGTIDIntervals l1) =
  intervalTransactionCount (normalizeGTIDIntervals l2).
Proof.
  intros H1 H2 H. destruct (normalize_spec l1 H1) as [Hc1 Hn1].
  destruct (normalize_spec l2 H2) as [Hc2 Hn2]. split; [done|].
  rewrite !intervalTransactionCount_spec by done. f_equal.
  eapply card_unique; [by apply card_covered|].
  eapply card_ext; [|by apply card_covered]. intros n. by rewrite Hn1, Hn2, H.
Qed.

(** C12: Comparing two parsed GTID sets counts exactly: the missing count is the
    number of the primary's transactions the candidate does not have, the
    errant count the number of the candidate's the primary does not have; the
    only error is a set of more than 2^64 - 1 transactions. *)
Theorem CompareGTIDSets_exact tp tc p c :
  ParseGTIDSet tp = Ok p → ParseGTIDSet tc = Ok c →
  match CompareGTIDSets p c with
  | Ok r => card (λ t, gtid_in p t ∧ ¬ gtid_in c t) (MissingTransactions r) ∧
            card (λ t, gtid_in c t ∧ ¬ gtid_in p t) (ErrantTransactions r) ∧
            0 ≤ MissingTransactions r ≤ max_uint64 ∧ 0 ≤ ErrantTransactions r ≤ max_uint64
  | Err e => e = ErrCountOverflow ∧
             ∃ n, max_uint64 < n ∧ (card (gtid_in p) n ∨ card (gtid_in c) n)
  end.
Proof.
  intros [Hp _]%ParseGTIDSet_raw [Hc _]%ParseGTIDSet_raw.
  pose proof (card_gtid_in p Hp). pose proof (card_gtid_in c Hc).
  pose proof (diff_le_size p c Hp Hc). pose proof (diff_le_size c p Hc Hp).
  destruct (CompareGTIDSets_spec p c Hp Hc) as [[[? ?] ->]|[Hbig ->]]; cbn.
  - split; [by apply card_gtid_diff|]. split; [by apply card_gtid_diff|lia].
  - split; [done|]. unfold countable_sizes in Hbig.
    destruct (decide (set_size p ≤ max_uint64)); [exists (set_size c)|exists (set_size p)];
      (split; [lia|auto]).
Qed.

(** Counting a set or a difference gives the same answer in every order in
    which Go may range over the map of sources. *)
Theorem transactionDifference_any_order l r entries :
  gcanonical l → gcanonical r → entries ≡ₚ map_to_list (gs_intervals l) →
  for_each (difference_step r) 0 entries = transactionDifference l r ∧
  for_each count_step 0 entries = validateGTIDTransactionCount l.
Proof.
  intros Hl Hr He. split.
  - by rewrite (difference_loop_spec l r), transactionDifference_spec.
  - by rewrite (count_loop_spec l), validate_spec.
Qed.

(** The recovery assessment of a former primary: a result is produced only
    when everything purged was executed; the former primary may fast-rejoin
    exactly when the current primary has all its transactions and it already
    has everything the current primary has purged; purged history that was
    never executed is reported as such. *)
Lemma AssessGTIDRecovery_spec current purged former :
  gcanonical current → gcanonical purged → gcanonical former →
  match AssessGTIDRecovery current purged former with
  | Ok a => (∀ t, gtid_in purged t → gtid_in current t) ∧
            (ra_FastRejoinSafe a = true ↔
               (∀ t, gtid_in former t → gtid_in current t) ∧
               (∀ t, gtid_in purged t → gtid_in former t)) ∧
            card (λ t, gtid_in purged t ∧ ¬ gtid_in former t) (ra_PurgedMissingTransactions a)
  | Err ErrPurgedNotExecuted => ∃ t, gtid_in purged t ∧ ¬ gtid_in current t
  | Err e => e = ErrCountOverflow
  end.
Proof.
  intros Hc Hp Hf. unfold AssessGTIDRecovery. pose proof (diff_le_size purged former Hp Hf).
  destruct (CompareGTIDSets_spec current purged Hc Hp) as [[[? Hps] ->]|[_ ->]]; [|done]. cbn.
  destruct (Z.eqb_spec (diff_size purged current) 0) as [Hz|Hz]; cbn.
  - destruct (CompareGTIDSets_spec current former Hc Hf) as [[[? ?] ->]|[_ ->]]; [|done]. cbn.
    rewrite transactionDifference_spec by done. unfold checked.
    destruct (Z.leb_spec (diff_size purged former) max_uint64); [|done]. cbn.
    split; [by apply diff_size_zero|]. split; [|by apply card_gtid_diff].
    rewrite <- !diff_size_zero, andb_true_iff, !Z.eqb_eq by done. done.
  - pose proof (card_gtid_diff purged current Hp Hc) as (xs & _ & Hin & Hlen).
    destruct xs as [|t xs]; [cbn in Hlen; lia|]. exists t. apply Hin. set_solver.
Qed.

(** The likely-temporal-skew test accepts exactly when the candidate misses
    nothing, has something the primary's sample lacks, and every such
    transaction was generated by the primary's own server UUID. *)
Theorem LikelyTemporalSamplingSkew_correct primary candidate uuid t1 t2 :
  gcanonical primary → gcanonical candidate →
  LikelyTemporalSamplingSkew primary candidate uuid t1 t2 = Ok true ↔
  countable_sizes primary candidate ∧
  (∀ t, gtid_in primary t → gtid_in candidate t) ∧
  (∃ t, gtid_in candidate t ∧ ¬ gtid_in primary t) ∧
  validGTIDUUID (ToLower (TrimSpace uuid)) = true ∧
  (∀ t, gtid_in candidate t → ¬ gtid_in primary t → gtidSourceUUID t.1 = ToLower (TrimSpace uuid)).
Proof.
  intros Hp Hc. unfold LikelyTemporalSamplingSkew.
  pose proof (diff_size_zero primary candidate Hp Hc) as H1.
  pose proof (card_gtid_diff candidate primary Hc Hp) as (xs & _ & Hin & Hlen).
  assert (diff_size candidate primary ≠ 0 ↔ ∃ t, gtid_in candidate t ∧ ¬ gtid_in primary t) as H2.
  { setoid_rewrite <- Hin. destruct xs as [|x xs]; cbn in Hlen; split; try lia; set_solver by lia. }
  destruct (CompareGTIDSets_spec primary candidate Hp Hc) as [[? ->]|[? ->]]; cbn; [|naive_solver].
  destruct (HasOnlyAdditions_spec primary candidate uuid Hp Hc) as (b & -> & Hb).
  destruct (Z.eqb_spec (diff_size primary candidate) 0), (Z.eqb_spec (diff_size candidate primary) 0);
    cbn; (split; [intros H3; simplify_eq|]); naive_solver.
Qed.

(** ** Concrete instances *)

Definition sampleUUID : string := "3e11fa47-71ca-11e1-9e33-c80aa9429562".
Definition parsed (text : string) : GTIDSet :=
  match ParseGTIDSet text with Ok s => s | Err _ => mkGTIDSet ∅ end.
Definition sample_primary : GTIDSet := parsed (sampleUUID +:+ ":1-9").
Definition sample_candidate : GTIDSet := parsed (sampleUUID +:+ ":1-5:6-12").


Lemma parsed_ok text : is_ok (ParseGTIDSet text) = true → ParseGTIDSet text = Ok (parsed text).
Proof. unfold parsed. by destruct (ParseGTIDSet text). Qed.
Lemma parsed_canonical text : is_ok (ParseGTIDSet text) = true → gcanonical (parsed text).
Proof.
  unfold parsed. destruct (ParseGTIDSet text) as [s|] eqn:E; [|done]. intros _.
  by apply ParseGTIDSet_raw in E as [? _].
Qed.

Lemma sample_primary_ok : ParseGTIDSet (sampleUUID +:+ ":1-9") = Ok sample_primary.
Proof. apply parsed_ok. by vm_compute. Qed.
Lemma sample_candidate_ok : ParseGTIDSet (sampleUUID +:+ ":1-5:6-12") = Ok sample_candidate.
Proof. apply parsed_ok. by vm_compute. Qed.
Lemma sample_primary_canonical : gcanonical sample_primary.
Proof. apply parsed_canonical. by vm_compute. Qed.
Lemma sample_candidate_canonical : gcanonical sample_candidate.
Proof. apply parsed_canonical. by vm_compute. Qed.

Lemma ParseGTIDSet_canonical_witness :
  ∃ s l, ParseGTIDSet (sampleUUID +:+ ":7-9:1-5:6") = Ok s ∧
    gs_intervals s !! sampleUUID = Some l ∧ l ≠ [] ∧ Forall iv_ok l ∧ StronglySorted iv_before l.
Proof.
  exists (parsed (sampleUUID +:+ ":7-9:1-5:6")), [mkInterval 1 9].
  split; [apply parsed_ok; by vm_compute|]. split; [by vm_compute|].
  apply (ParseGTIDSet_canonical (sampleUUID +:+ ":7-9:1-5:6")
           (parsed (sampleUUID +:+ ":7-9:1-5:6"))) with (source := sampleUUID).
  - apply parsed_ok. by vm_compute.
  - by vm_compute.
Defined.

Lemma normalize_faithful_witness :
  intervalTransactionCount (normalizeGTIDIntervals [mkInterval 4 9; mkInterval 1 5]) =
  intervalTransactionCount (normalizeGTIDIntervals [mkInterval 1 9]).
Proof.
  apply (normalize_faithful [mkInterval 4 9; mkInterval 1 5] [mkInterval 1 9]).
  - repeat constructor; by vm_compute.
  - repeat constructor; by vm_compute.
  - intros n. rewrite !covered_cons. pose proof (covered_nil n). unfold iv_has; cbn.
    destruct (decide (n ≤ 5)); intuition lia.
Defined.

Lemma CompareGTIDSets_exact_witness :
  CompareGTIDSets sample_primary sample_candidate = Ok (mkComparison 0 3) ∧
  card (λ t, gtid_in sample_candidate t ∧ ¬ gtid_in sample_primary t) 3.
Proof.
  assert (CompareGTIDSets sample_primary sample_candidate = Ok (mkComparison 0 3)) as E by by vm_compute.
  split; [exact E|].
  pose proof (CompareGTIDSets_exact (sampleUUID +:+ ":1-9") (sampleUUID +:+ ":1-5:6-12")
    sample_primary sample_candidate sample_primary_ok sample_candidate_ok) as H.
  rewrite E in H. apply H.
Defined.

Lemma transactionDifference_any_order_witness :
  for_each (difference_step sample_primary) 0 (reverse (map_to_list (gs_intervals sample_candidate))) =
  transactionDifference sample_candidate sample_primary.
Proof.
  exact (proj1 (transactionDifference_any_order sample_candidate sample_primary
    (reverse (map_to_list (gs_intervals sample_candidate)))
    sample_candidate_canonical sample_primary_canonical (reverse_Permutation _))).
Defined.

Lemma LikelyTemporalSamplingSkew_correct_witness :
  LikelyTemporalSamplingSkew sample_primary sample_candidate sampleUUID 0 0 = Ok true ∧
  ∀ t, gtid_in sample_candidate t → ¬ gtid_in sample_primary t → gtidSourceUUID t.1 = sampleUUID.
Proof.
  split; [by vm_compute|]. apply (LikelyTemporalSamplingSkew_correct sample_primary sample_candidate sampleUUID 0 0).
  - apply sample_primary_canonical.
  - apply sample_candidate_canonical.
  - by vm_compute.
Defined.
