(* ===== verification/Endpoint.v ===== *)
(** * internal/endpoint: writer-endpoint leases

    [src/internal/endpoint/lease.go]: the lease and the request to hold one,
    with the two tests the stores decide by. *)
From S2P Require Import Prelude GoStd Model.

(** [endpoint.LeaseRequest]. *)
Record LeaseRequest : Type := mkLeaseRequest {
  req_ClusterID : ResourceID; req_HAEndpointID : ResourceID; req_OperationID : ResourceID;
  req_OwnerID : ResourceID; req_PreviousOwnerID : ResourceID; req_TTL : Duration;
  req_RenewOnly : bool
}.
#[export] Instance eta_LeaseRequest : Settable LeaseRequest := λ r,
  mkLeaseRequest (req_ClusterID r) (req_HAEndpointID r) (req_OperationID r) (req_OwnerID r)
  (req_PreviousOwnerID r) (req_TTL r) (req_RenewOnly r).

(** [endpoint.Lease]. *)
Record Lease : Type := mkLease {
  lease_ResourceID : ResourceID; lease_ClusterID : ResourceID; lease_HAEndpointID : ResourceID;
  lease_OperationID : ResourceID; lease_OwnerID : ResourceID; lease_PreviousOwnerID : ResourceID;
  lease_ExpiresAt : Time; lease_Active : bool
}.
#[export] Instance eta_Lease : Settable Lease := λ r,
  mkLease (lease_ResourceID r) (lease_ClusterID r) (lease_HAEndpointID r) (lease_OperationID r)
  (lease_OwnerID r) (lease_PreviousOwnerID r) (lease_ExpiresAt r) (lease_Active r).
#[export] Instance Lease_eq_dec : EqDecision Lease.
Proof. solve_decision. Defined.

Definition SameLeaseIdentity (current presented : Lease) : bool :=
  (lease_ResourceID current == lease_ResourceID presented) &&
  (lease_ClusterID current == lease_ClusterID presented) &&
  (lease_HAEndpointID current == lease_HAEndpointID presented) &&
  (lease_OperationID current == lease_OperationID presented) &&
  (lease_OwnerID current == lease_OwnerID presented) &&
  (lease_PreviousOwnerID current == lease_PreviousOwnerID presented) &&
  (lease_Active current == lease_Active presented).

Definition CanHandoffStableLease (current : Lease) (request : LeaseRequest) : bool :=
  ValidResourceID (req_PreviousOwnerID request) &&
  (lease_OperationID current == req_HAEndpointID request) &&
  (req_OperationID request != req_HAEndpointID request) &&
  (lease_OwnerID current == req_PreviousOwnerID request) &&
  (req_OwnerID request != req_PreviousOwnerID request).
