(* ===== verification/Lease.v ===== *)
(** * internal/coordination: the quorum lease store

    [src/internal/coordination/lease.go].  [LeaseStore] decides who may write
    behind an HA endpoint.  It keeps its records in a [LeaseRecordStore]; here
    that interface is the class [LeaseRecordStore] of operations with the laws
    [LeaseRecordLaws], which the repository discharges in [Repository.v], so
    every theorem of this file is about any implementation.

    An operation takes what it reads from its environment as arguments: whether
    [authorize] succeeded, the clock reading [now] and the new resource ID
    [fresh].  The mutex makes each operation one atomic step. *)
From S2P Require Import Prelude GoStd Model Endpoint.

Definition maxLeaseTTL : Duration := Minute.
(** The TTL granted when the requested one is out of range. *)
Definition capTTL (ttl : Duration) : Duration :=
  if (ttl <=? 0) || (maxLeaseTTL <? ttl) then 30 * Second else ttl.

(** [coordination.LeaseRecord]. *)
Record LeaseRecord : Type := mkLeaseRecord {
  lr_Lease : Lease; lr_CreatedAt : Time; lr_UpdatedAt : Time
}.
#[export] Instance eta_LeaseRecord : Settable LeaseRecord := λ r,
  mkLeaseRecord (lr_Lease r) (lr_CreatedAt r) (lr_UpdatedAt r).
Definition lr_id (r : LeaseRecord) : ResourceID := lease_ResourceID (lr_Lease r).

(** Where the records are kept. [E] are the store's errors. *)
Class LeaseRecordStore (S E : Type) := {
  CoordinationLeases : S → list LeaseRecord;
  PutCoordinationLease : LeaseRecord → S → S * result E unit;
  DeleteCoordinationLease : ResourceID → S → S * result E unit;
  ReplaceCoordinationLeases : list LeaseRecord → S → S * result E unit
}.

Inductive lease_error (E : Type) : Type :=
| ErrUnauthorized            (* [authorize] failed *)
| ErrInvalidScope            (* malformed resource IDs *)
| ErrDuplicateRequest        (* a second request for one endpoint in a batch *)
| ErrMultipleLeases          (* ErrLeaseConflict: several live leases *)
| ErrLeaseConflict           (* ErrLeaseConflict: the lease belongs to another operation *)
| ErrLeaseMissing            (* ErrLeaseConflict: missing, expired or changed *)
| ErrStore (e : E).
Arguments ErrUnauthorized {E}.
Arguments ErrInvalidScope {E}.
Arguments ErrDuplicateRequest {E}.
Arguments ErrMultipleLeases {E}.
Arguments ErrLeaseConflict {E}.
Arguments ErrLeaseMissing {E}.
Arguments ErrStore {E} e.

Definition live (now : Time) (l : Lease) : bool := lease_Active l && After (lease_ExpiresAt l) now.

Definition request_valid (r : LeaseRequest) : bool :=
  ValidResourceID (req_ClusterID r) && ValidResourceID (req_HAEndpointID r) &&
  ValidResourceID (req_OperationID r) && ValidResourceID (req_OwnerID r).
Definition same_endpoint (l : Lease) (r : LeaseRequest) : bool :=
  (lease_ClusterID l == req_ClusterID r) && (lease_HAEndpointID l == req_HAEndpointID r).
Definition same_holder (l : Lease) (r : LeaseRequest) : bool :=
  (lease_OperationID l == req_OperationID r) && (lease_OwnerID l == req_OwnerID r) &&
  (lease_PreviousOwnerID l == req_PreviousOwnerID r).

(** The lease as renewed, handed over to a transition, or first granted. *)
Definition renewed (now : Time) (r : LeaseRequest) (l : Lease) : Lease :=
  let requestedExpiry := Add now (req_TTL r) in
  if After requestedExpiry (lease_ExpiresAt l) || (maxLeaseTTL <? Sub (lease_ExpiresAt l) now)
  then l <| lease_ExpiresAt := requestedExpiry |> else l.
Definition handed_off (now : Time) (r : LeaseRequest) (l : Lease) : Lease :=
  l <| lease_OperationID := req_OperationID r |> <| lease_OwnerID := req_OwnerID r |>
    <| lease_PreviousOwnerID := req_PreviousOwnerID r |>
    <| lease_ExpiresAt := Add now (req_TTL r) |>.
Definition granted (now : Time) (fresh : ResourceID) (r : LeaseRequest) : Lease :=
  mkLease fresh (req_ClusterID r) (req_HAEndpointID r) (req_OperationID r) (req_OwnerID r)
    (req_PreviousOwnerID r) (Add now (req_TTL r)) true.

(** The scope key of a batch: the two IDs joined by a NUL byte. *)
Definition leaseScope (clusterID endpointID : ResourceID) : string :=
  clusterID +:+ String zero endpointID.

Definition record_le (a b : LeaseRecord) : Prop := String.leb (lr_id a) (lr_id b) = true.
#[export] Instance record_le_dec : RelDecision record_le.
Proof. intros a b. unfold record_le. apply _. Defined.

Section operations.
Context {S E : Type} `{!LeaseRecordStore S E}.
Implicit Types (s : S) (request : LeaseRequest).

(** Storing a record and answering with its lease. *)
Definition put_lease (record : LeaseRecord) (s : S) : S * result (lease_error E) Lease :=
  match PutCoordinationLease record s with
  | (s, Ok _) => (s, Ok (lr_Lease record))
  | (s, Err e) => (s, Err (ErrStore e))
  end.

(** The loop of [Acquire] over the stored records: [None] when it runs off the
    end, otherwise what the function returns from inside the loop.  The error of
    deleting an expired record is dropped, as in the source. *)
Fixpoint acquire_scan (now : Time) (request : LeaseRequest) (records : list LeaseRecord) (s : S)
  : S * option (result (lease_error E) Lease) :=
  match records with
  | [] => (s, None)
  | record :: records =>
      let lease := lr_Lease record in
      if negb (live now lease) then
        let '(s, _) := DeleteCoordinationLease (lease_ResourceID lease) s in
        acquire_scan now request records s
      else if negb (same_endpoint lease request) then acquire_scan now request records s
      else if same_holder lease request then
        let '(s, r) := put_lease (record <| lr_Lease := renewed now request lease |>
                                         <| lr_UpdatedAt := now |>) s in (s, Some r)
      else if negb (req_RenewOnly request) && CanHandoffStableLease lease request then
        let '(s, r) := put_lease (record <| lr_Lease := handed_off now request lease |>
                                         <| lr_UpdatedAt := now |>) s in (s, Some r)
      else (s, Some (Err ErrLeaseConflict))
  end.

Definition Acquire (authorized : bool) (now : Time) (fresh : ResourceID)
    (request : LeaseRequest) (s : S) : S * result (lease_error E) Lease :=
  if negb authorized then (s, Err ErrUnauthorized)
  else if negb (request_valid request) then (s, Err ErrInvalidScope)
  else
    let request := request <| req_TTL ::= capTTL |> in
    match acquire_scan now request (CoordinationLeases s) s with
    | (s, Some r) => (s, r)
    | (s, None) =>
        if req_RenewOnly request then (s, Err ErrLeaseMissing)
        else put_lease (mkLeaseRecord (granted now fresh request) now now) s
    end.

(** ** Batches *)

(** What [AcquireStableBatch] builds before it writes. *)
Record batch_state : Type := mkBatch {
  b_next : gmap ResourceID LeaseRecord; b_active : gmap string ResourceID;
  b_duplicates : gset string; b_seen : gset string; b_changed : bool;
  b_failures : list (lease_error E)
}.
#[local] Instance eta_batch : Settable batch_state := λ b,
  mkBatch (b_next b) (b_active b) (b_duplicates b) (b_seen b) (b_changed b) (b_failures b).

Definition batch_fail (e : lease_error E) (b : batch_state) : batch_state :=
  b <| b_failures ::= λ fs, fs ++ [e] |>.

(** The first loop: collect the live records and index them by scope. *)
Definition batch_load (now : Time) (b : batch_state) (record : LeaseRecord) : batch_state :=
  let lease := lr_Lease record in
  if negb (live now lease) then b <| b_changed := true |>
  else
    let b := b <| b_next ::= <[lease_ResourceID lease := record]> |> in
    let scope := leaseScope (lease_ClusterID lease) (lease_HAEndpointID lease) in
    match b_active b !! scope with
    | Some _ => b <| b_duplicates ::= λ d, {[scope]} ∪ d |>
    | None => b <| b_active ::= <[scope := lease_ResourceID lease]> |>
    end.

Definition stable_request_valid (r : LeaseRequest) : bool :=
  ValidResourceID (req_ClusterID r) && ValidResourceID (req_HAEndpointID r) &&
  (req_OperationID r == req_HAEndpointID r) && ValidResourceID (req_OwnerID r) &&
  (req_PreviousOwnerID r == "").

(** One iteration of the second loop, for one request. *)
Definition batch_request (now : Time) (fresh : ResourceID) (request : LeaseRequest)
    (b : batch_state) : batch_state :=
  if negb (stable_request_valid request) then batch_fail ErrInvalidScope b
  else
    let scope := leaseScope (req_ClusterID request) (req_HAEndpointID request) in
    if bool_decide (scope ∈ b_seen b) then batch_fail ErrDuplicateRequest b
    else
      let b := b <| b_seen ::= λ d, {[scope]} ∪ d |> in
      if bool_decide (scope ∈ b_duplicates b) then batch_fail ErrMultipleLeases b
      else
        let ttl := capTTL (req_TTL request) in
        match b_active b !! scope with
        | Some resourceID =>
            (* [next[resourceID]]: an absent record reads as the zero value *)
            let record := default (mkLeaseRecord (mkLease "" "" "" "" "" "" 0 false) 0 0)
                                  (b_next b !! resourceID) in
            let lease := lr_Lease record in
            if (lease_OperationID lease != req_OperationID request) ||
               (lease_OwnerID lease != req_OwnerID request)
            then batch_fail ErrLeaseConflict b
            else
              let staleAnchor := maxLeaseTTL <? Sub (lease_ExpiresAt lease) now in
              if negb staleAnchor && (ttl `quot` 2 <? Sub (lease_ExpiresAt lease) now) then b
              else b <| b_next ::= <[resourceID := record
                          <| lr_Lease := lease <| lease_ExpiresAt := Add now ttl |> |>
                          <| lr_UpdatedAt := now |>]> |>
                     <| b_changed := true |>
        | None =>
            if req_RenewOnly request then batch_fail ErrLeaseMissing b
            else
              let lease := mkLease fresh (req_ClusterID request) (req_HAEndpointID request)
                (req_OperationID request) (req_OwnerID request) "" (Add now ttl) true in
              b <| b_next ::= <[fresh := mkLeaseRecord lease now now]> |>
                <| b_active ::= <[scope := fresh]> |>
                <| b_changed := true |>
        end.

(** Each request comes with the resource ID [NewResourceID] would return for it. *)
Definition batch_requests (now : Time) (requests : list (ResourceID * LeaseRequest))
    (b : batch_state) : batch_state :=
  foldl (λ b fr, batch_request now fr.1 fr.2 b) b requests.

Definition batch_plan (now : Time) (requests : list (ResourceID * LeaseRequest)) (s : S)
  : batch_state :=
  batch_requests now requests
    (foldl (batch_load now) (mkBatch ∅ ∅ ∅ ∅ false []) (CoordinationLeases s)).

(** The result is the list of failures [errors.Join] reports. *)
Definition AcquireStableBatch (authorized : bool) (now : Time)
    (requests : list (ResourceID * LeaseRequest)) (s : S) : S * list (lease_error E) :=
  if negb authorized then (s, [ErrUnauthorized])
  else match requests with
  | [] => (s, [])
  | _ =>
      let b := batch_plan now requests s in
      if b_changed b then
        match ReplaceCoordinationLeases (merge_sort record_le (map_to_list (b_next b)).*2) s with
        | (s, Ok _) => (s, b_failures b)
        | (s, Err e) => (s, b_failures b ++ [ErrStore e])
        end
      else (s, b_failures b)
  end.

(** ** Reading *)

Definition Validate (authorized : bool) (now : Time) (lease : Lease) (s : S)
  : result (lease_error E) unit :=
  if negb authorized then Err ErrUnauthorized
  else if existsb (λ record, (lr_id record == lease_ResourceID lease) &&
                             live now (lr_Lease record) &&
                             SameLeaseIdentity (lr_Lease record) lease) (CoordinationLeases s)
  then Ok tt else Err ErrLeaseMissing.

Definition at_endpoint (clusterID haEndpointID : ResourceID) (l : Lease) : bool :=
  (lease_ClusterID l == clusterID) && (lease_HAEndpointID l == haEndpointID).

(** The loop of [Current]; [selected] is empty until a lease is found. *)
Definition current_step (now : Time) (clusterID haEndpointID : ResourceID)
    (selected : option Lease) (record : LeaseRecord) : result (lease_error E) (option Lease) :=
  let lease := lr_Lease record in
  if negb (live now lease) || negb (at_endpoint clusterID haEndpointID lease) then Ok selected
  else match selected with
       | Some l => if lease_ResourceID l == "" then Ok (Some lease) else Err ErrMultipleLeases
       | None => Ok (Some lease)
       end.

Definition Current (authorized : bool) (now : Time) (clusterID haEndpointID : ResourceID) (s : S)
  : result (lease_error E) Lease :=
  if negb authorized then Err ErrUnauthorized
  else
    selected ← for_each (current_step now clusterID haEndpointID) None (CoordinationLeases s);
    match selected with
    | Some l => if lease_ResourceID l == "" then Err ErrLeaseMissing else Ok l
    | None => Err ErrLeaseMissing
    end.

(** ** Ending a transition *)

Definition finalized (now : Time) (ttl : Duration) (l : Lease) : Lease :=
  l <| lease_OperationID := lease_HAEndpointID l |> <| lease_PreviousOwnerID := "" |>
    <| lease_ExpiresAt := Add now (capTTL ttl) |>.
Definition rolled_back (now : Time) (ttl : Duration) (l : Lease) : Lease :=
  l <| lease_OperationID := lease_HAEndpointID l |> <| lease_OwnerID := lease_PreviousOwnerID l |>
    <| lease_PreviousOwnerID := "" |> <| lease_ExpiresAt := Add now (capTTL ttl) |>.

Definition transition_ready (now : Time) (current transition : Lease) : bool :=
  live now current && SameLeaseIdentity current transition &&
  (lease_OperationID current != lease_HAEndpointID current).

(** The loops look at the first record with the transition's ID and stop. *)
Definition end_transition (ready : Lease → bool) (stable : Lease → Lease) (now : Time)
    (transition : Lease) (s : S) : S * result (lease_error E) Lease :=
  match find (λ record, lr_id record == lease_ResourceID transition) (CoordinationLeases s) with
  | Some record =>
      if ready (lr_Lease record)
      then put_lease (record <| lr_Lease := stable (lr_Lease record) |>
                             <| lr_UpdatedAt := now |>) s
      else (s, Err ErrLeaseMissing)
  | None => (s, Err ErrLeaseMissing)
  end.

Definition FinalizeTransition (authorized : bool) (now : Time) (transition : Lease)
    (ttl : Duration) (s : S) : S * result (lease_error E) Lease :=
  if negb authorized then (s, Err ErrUnauthorized)
  else end_transition (λ current, transition_ready now current transition)
         (finalized now ttl) now transition s.

Definition RollbackTransition (authorized : bool) (now : Time) (transition : Lease)
    (ttl : Duration) (s : S) : S * result (lease_error E) Lease :=
  if negb authorized then (s, Err ErrUnauthorized)
  else end_transition
         (λ current, transition_ready now current transition &&
                     ValidResourceID (lease_PreviousOwnerID current))
         (rolled_back now ttl) now transition s.

Definition Release (authorized : bool) (resourceID : ResourceID) (s : S)
  : S * result (lease_error E) unit :=
  if negb authorized then (s, Err ErrUnauthorized)
  else match DeleteCoordinationLease resourceID s with
       | (s, Ok _) => (s, Ok tt)
       | (s, Err e) => (s, Err (ErrStore e))
       end.
End operations.
Arguments batch_state E : clear implicits.

(** ** The contract of a record store

    [lease_view] is the map of records a state holds.  A mutation that returns
    an error may still have been applied (the metadata snapshot was published
    but the directory could not be synced), so an error leaves the view as it
    was or as after the mutation. *)
Definition keyed (r : LeaseRecord) : ResourceID * LeaseRecord := (lr_id r, r).
Definition scope_ok (r : LeaseRecord) : bool :=
  ValidResourceID (lr_id r) && ValidResourceID (lease_ClusterID (lr_Lease r)) &&
  ValidResourceID (lease_HAEndpointID (lr_Lease r)).

(** What one mutation does to the view. *)
Definition mutates {S E} (view : S → gmap ResourceID LeaseRecord)
    (f : gmap ResourceID LeaseRecord → gmap ResourceID LeaseRecord)
    (s s' : S) (r : result E unit) : Prop :=
  match r with
  | Ok _ => view s' = f (view s)
  | Err _ => view s' = view s ∨ view s' = f (view s)
  end.

Class LeaseRecordLaws (S E : Type) `{!LeaseRecordStore S E} := {
  store_ok : S → Prop;
  lease_view : S → gmap ResourceID LeaseRecord;
  leases_listed s : store_ok s → CoordinationLeases s ≡ₚ (map_to_list (lease_view s)).*2;
  leases_wf s id r : store_ok s → lease_view s !! id = Some r → lr_id r = id ∧ scope_ok r = true;
  put_law r s s' res : store_ok s → PutCoordinationLease r s = (s', res) →
    store_ok s' ∧ mutates lease_view <[lr_id r := r]> s s' res;
  delete_law id s s' res : store_ok s → DeleteCoordinationLease id s = (s', res) →
    store_ok s' ∧ mutates lease_view (delete id) s s' res;
  replace_law rs s s' res : store_ok s → ReplaceCoordinationLeases rs s = (s', res) →
    store_ok s' ∧ mutates lease_view (λ _, list_to_map (keyed <$> rs)) s s' res
}.

(** ** Live leases *)

Notation leases := (gmap ResourceID LeaseRecord) (only parsing).

Definition live_at (now : Time) (r : LeaseRecord) : Prop := live now (lr_Lease r) = true.
Definition scope_of (r : LeaseRecord) : ResourceID * ResourceID :=
  (lease_ClusterID (lr_Lease r), lease_HAEndpointID (lr_Lease r)).

(** At most one live lease per endpoint. *)
Definition unique_live (now : Time) (m : leases) : Prop :=
  ∀ i j r1 r2, m !! i = Some r1 → m !! j = Some r2 → live_at now r1 → live_at now r2 →
    scope_of r1 = scope_of r2 → i = j.

(** The abstract state of an endpoint: its live lease, if any. *)
Definition held (now : Time) (m : leases) (sc : ResourceID * ResourceID) (o : option Lease) : Prop :=
  match o with
  | Some l => ∃ id r, m !! id = Some r ∧ live_at now r ∧ scope_of r = sc ∧ lr_Lease r = l
  | None => ∀ id r, m !! id = Some r → live_at now r → scope_of r ≠ sc
  end.

(** [m'] is [m] without some expired records. *)
Definition prunes (now : Time) (m m' : leases) : Prop :=
  m' ⊆ m ∧ ∀ id r, m !! id = Some r → live_at now r → m' !! id = Some r.

Lemma live_later now now' r : now ≤ now' → live_at now' r → live_at now r.
Proof. unfold live_at, live. intros. bsimpl. bsplit; [done|]. time_lia. Qed.

Lemma unique_live_later now now' m : now ≤ now' → unique_live now m → unique_live now' m.
Proof. intros ? H i j r1 r2 ????. eapply (H i j r1 r2); by eauto using live_later. Qed.
Lemma unique_live_sub now m m' : m' ⊆ m → unique_live now m → unique_live now m'.
Proof. intros Hs H i j r1 r2 ??. apply (H i j r1 r2); by eapply lookup_weaken. Qed.
Lemma unique_live_insert now m id r :
  unique_live now m →
  (live_at now r → ∀ j r', m !! j = Some r' → live_at now r' → scope_of r' = scope_of r → j = id) →
  unique_live now (<[id := r]> m).
Proof.
  intros H Hr i j r1 r2. rewrite !lookup_insert_Some.
  intros [[<- <-]|[? H1]] [[<- <-]|[? H2]] L1 L2 Hsc; [done| | |by eapply H].
  - symmetry. by apply (Hr L1 j r2).
  - by apply (Hr L2 i r1).
Qed.

Lemma prunes_refl now m : prunes now m m.
Proof. by split. Qed.
Lemma prunes_trans now m1 m2 m3 : prunes now m1 m2 → prunes now m2 m3 → prunes now m1 m3.
Proof. intros [H1 L1] [H2 L2]. split; [by trans m2|]. eauto. Qed.
Lemma prunes_delete now m id r :
  m !! id = Some r → ¬ live_at now r → prunes now m (delete id m).
Proof.
  intros Hid Hdead. split; [apply delete_subseteq|]. intros j r' Hj Hl.
  rewrite lookup_delete_ne; [done|]. intros ->. by simplify_eq.
Qed.
Lemma prunes_held now m m' sc o : prunes now m m' → held now m sc o → held now m' sc o.
Proof.
  intros [Hs Hl]. destruct o as [l|]; cbn.
  - intros (id & r & H1 & H2 & H3). exists id, r. auto.
  - intros Hnone id r Hid. eapply Hnone. by eapply lookup_weaken.
Qed.
Lemma prunes_unique now m m' : prunes now m m' → unique_live now m → unique_live now m'.
Proof. intros [Hs _]. by apply unique_live_sub. Qed.

Lemma held_functional now m sc o1 o2 :
  unique_live now m → held now m sc o1 → held now m sc o2 → o1 = o2.
Proof.
  intros Hu. destruct o1 as [l1|], o2 as [l2|]; cbn; [| | |done].
  - intros (i & r1 & ? & ? & ? & <-) (j & r2 & ? & ? & ? & <-).
    assert (i = j) as <- by (eapply Hu; eauto; congruence). by simplify_eq.
  - intros (i & r1 & ? & ? & ? & <-) Hn. by edestruct Hn.
  - intros Hn (i & r1 & ? & ? & ? & <-). by edestruct Hn.
Qed.
Lemma held_exists now (m : leases) sc : ∃ o, held now m sc o.
Proof.
  destruct (decide (map_Exists (λ _ r, live now (lr_Lease r) = true ∧ scope_of r = sc) m)) as [Hex|Hn].
  - destruct Hex as (id & r & ? & ? & ?). by exists (Some (lr_Lease r)), id, r.
  - exists None. intros id r Hr Hl Hsc. apply Hn. by exists id, r.
Qed.
(** Writing a live record of one endpoint leaves the others' leases alone. *)
Lemma held_insert_other now m id r sc o :
  (∀ r0, m !! id = Some r0 → scope_of r0 = scope_of r) → sc ≠ scope_of r →
  held now m sc o → held now (<[id := r]> m) sc o.
Proof.
  intros Hid Hne. destruct o as [l|]; cbn.
  - intros (j & r' & Hj & ? & ? & ?). exists j, r'. split; [|done].
    rewrite lookup_insert_ne; [done|]. intros <-. apply Hne. rewrite <- (Hid r'); congruence.
  - intros H j r'. rewrite lookup_insert_Some. intros [[<- <-]|[? ?]]; [congruence|eauto].
Qed.
Lemma held_insert now m id r :
  live_at now r → held now (<[id := r]> m) (scope_of r) (Some (lr_Lease r)).
Proof. intros. exists id, r. by rewrite lookup_insert_eq. Qed.
Create HintDb lease.
#[export] Hint Resolve prunes_refl prunes_held prunes_unique held_insert unique_live_sub : lease.

(** ** Acquire *)

Definition request_scope (r : LeaseRequest) : ResourceID * ResourceID :=
  (req_ClusterID r, req_HAEndpointID r).

(** What [Acquire] answers, as a function of the endpoint's live lease. *)
Definition acquire_spec {E} (now : Time) (fresh : ResourceID) (request : LeaseRequest)
    (cur : option Lease) : result (lease_error E) Lease :=
  match cur with
  | Some l =>
      if same_holder l request then Ok (renewed now request l)
      else if negb (req_RenewOnly request) && CanHandoffStableLease l request
      then Ok (handed_off now request l)
      else Err ErrLeaseConflict
  | None => if req_RenewOnly request then Err ErrLeaseMissing else Ok (granted now fresh request)
  end.

Lemma capTTL_range ttl : 0 < capTTL ttl ≤ maxLeaseTTL.
Proof. unfold capTTL, maxLeaseTTL, Minute, Second. case_match; bsimpl; lia. Qed.

Lemma same_endpoint_scope r req :
  same_endpoint (lr_Lease r) req = true ↔ scope_of r = request_scope req.
Proof.
  unfold same_endpoint, scope_of, request_scope. split; intros; [bsimpl; congruence|]. simplify_eq. by bsplit.
Qed.

(** Leases written by the store keep their identity and are within the TTL. *)
Definition well_granted (now : Time) (l : Lease) : Prop :=
  now < lease_ExpiresAt l ≤ now + maxLeaseTTL ∧ lease_Active l = true.

Lemma well_granted_live now r : well_granted now (lr_Lease r) → live_at now r.
Proof. intros [? ?]. unfold live_at, live. bsplit; [done|]. time_lia. Qed.

Lemma renewed_spec now req l : live now l = true → 0 < req_TTL req ≤ maxLeaseTTL →
  well_granted now (renewed now req l) ∧ lease_ResourceID (renewed now req l) = lease_ResourceID l ∧
  lease_ClusterID (renewed now req l) = lease_ClusterID l ∧
  lease_HAEndpointID (renewed now req l) = lease_HAEndpointID l.
Proof.
  unfold live, well_granted, renewed, maxLeaseTTL. intros Hl Ht. bsimpl.
  destruct (After (Add now _) _ || _) eqn:Hc; cbn; (split; [split|done]); [|done| |done].
  - time_lia.
  - pose proof (Sub_le_iff (lease_ExpiresAt l) now Minute). time_lia.
Qed.
Lemma handed_off_spec now req l : live now l = true → 0 < req_TTL req ≤ maxLeaseTTL →
  well_granted now (handed_off now req l).
Proof. unfold live, well_granted, handed_off. intros. bsimpl. cbn. split; [time_lia|done]. Qed.
Lemma granted_spec now fresh req : 0 < req_TTL req ≤ maxLeaseTTL →
  well_granted now (granted now fresh req).
Proof. unfold well_granted, granted. cbn. intros. split; [time_lia|done]. Qed.

Section theory.
Context {S E : Type} `{!LeaseRecordStore S E, !LeaseRecordLaws S E}.
Implicit Types (s : S) (res : result (lease_error E) Lease).

(** The effect of [put_lease record]. *)
Definition wrote (record : LeaseRecord) (s s' : S) res : Prop :=
  store_ok s' ∧
  match res with
  | Ok l => l = lr_Lease record ∧ lease_view s' = <[lr_id record := record]> (lease_view s)
  | Err (ErrStore _) =>
      lease_view s' = lease_view s ∨ lease_view s' = <[lr_id record := record]> (lease_view s)
  | Err _ => False
  end.

Lemma put_lease_spec record s s' res :
  store_ok s → put_lease record s = (s', res) → wrote record s s' res.
Proof.
  unfold put_lease, wrote. intros Hok H.
  destruct (PutCoordinationLease record s) as [s1 [[]|e]] eqn:Hp;
    destruct (put_law record s _ _ Hok Hp) as [? Hm]; by simplify_eq/=.
Qed.

(** Writing a live lease for an endpoint which no other live lease is for. *)
Lemma wrote_held now record s s' res :
  wrote record s s' res → unique_live now (lease_view s) → live_at now record →
  (∀ r, lease_view s !! lr_id record = Some r → scope_of r = scope_of record) →
  (∀ j r, lease_view s !! j = Some r → live_at now r → scope_of r = scope_of record →
     j = lr_id record) →
  unique_live now (lease_view s') ∧
  (∀ sc o, sc ≠ scope_of record → held now (lease_view s) sc o → held now (lease_view s') sc o) ∧
  match res with
  | Ok l => l = lr_Lease record ∧
      held now (lease_view s') (scope_of record) (Some (lr_Lease record))
  | Err (ErrStore _) => lease_view s' = lease_view s ∨
      held now (lease_view s') (scope_of record) (Some (lr_Lease record))
  | Err _ => False
  end.
Proof.
  intros [_ Hw] Hu Hl Hid Hj.
  assert (unique_live now (<[lr_id record:=record]> (lease_view s))) by by apply unique_live_insert.
  destruct res as [l|[]]; try done; [destruct Hw as [-> ->]|destruct Hw as [->| ->]];
    (split; [done|]); (split; [by eauto using held_insert_other|]); auto with lease.
Qed.

(** What the scan of [records], started on [m0], left behind. *)
Definition scan_result (now : Time) (req : LeaseRequest) (m0 : leases) (records : list LeaseRecord)
    (s' : S) (o : option (result (lease_error E) Lease)) : Prop :=
  match o with
  | None => store_ok s' ∧ prunes now m0 (lease_view s') ∧
            ∀ r, r ∈ records → live_at now r → scope_of r ≠ request_scope req
  | Some res => ∃ r s1, store_ok s1 ∧ prunes now m0 (lease_view s1) ∧ r ∈ records ∧
      live_at now r ∧ scope_of r = request_scope req ∧
      match acquire_spec (E := E) now "" req (Some (lr_Lease r)) with
      | Ok l => wrote (r <| lr_Lease := l |> <| lr_UpdatedAt := now |>) s1 s' res
      | Err e => s' = s1 ∧ res = Err e
      end
  end.

Lemma scan_result_skip now req m0 r records s' o :
  (live_at now r → scope_of r ≠ request_scope req) →
  scan_result now req m0 records s' o → scan_result now req m0 (r :: records) s' o.
Proof.
  intros Hr. destruct o as [res|]; cbn.
  - intros (x & s2 & ? & ? & Hin & Hrest). exists x, s2. split; [done|]. split; [done|].
    split; [|exact Hrest]. set_solver.
  - intros (? & ? & Hall). split; [done|]. split; [done|].
    intros x [->|Hx]%elem_of_cons; auto.
Qed.

(** Deleting an expired record prunes, whether or not the store succeeds. *)
Lemma delete_expired now m0 s r s' e :
  store_ok s → prunes now m0 (lease_view s) → m0 !! lr_id r = Some r → live now (lr_Lease r) = false →
  DeleteCoordinationLease (lr_id r) s = (s', e) → store_ok s' ∧ prunes now m0 (lease_view s').
Proof.
  intros Hok Hp Hm Hl Hd. apply (delete_law _ _ _ _ Hok) in Hd as [Hok1 Hd]. split; [done|].
  assert (prunes now m0 (delete (lr_id r) (lease_view s))) as Hpd.
  { destruct (lease_view s !! lr_id r) as [r'|] eqn:Hr'; [|by rewrite delete_id].
    eapply prunes_trans; [done|]. eapply prunes_delete; [done|].
    assert (m0 !! lr_id r = Some r') by (destruct Hp; by eapply lookup_weaken).
    simplify_eq. unfold live_at. congruence. }
  unfold mutates in Hd. destruct e; [by rewrite Hd|by destruct Hd as [-> | ->]].
Qed.

Lemma acquire_scan_spec now req m0 records s s' o :
  store_ok s → prunes now m0 (lease_view s) → (∀ r, r ∈ records → m0 !! lr_id r = Some r) →
  acquire_scan now req records s = (s', o) → scan_result now req m0 records s' o.
Proof.
  revert s. induction records as [|r records IH]; intros s Hok Hp Hm H; cbn in H; simplify_eq.
  { split; [done|]. split; [done|]. intros r Hr. by apply elem_of_nil in Hr. }
  destruct (live now (lr_Lease r)) eqn:Hl; cbn in H.
  2: { destruct (DeleteCoordinationLease _ s) as [s1 e] eqn:Hd.
       eapply delete_expired in Hd as [? ?]; [|done|done|apply Hm; set_solver|done].
       apply scan_result_skip; [unfold live_at; congruence|]. eapply (IH s1); set_solver. }
  pose proof (same_endpoint_scope r req) as Hsc.
  destruct (same_endpoint (lr_Lease r) req) eqn:He; cbn in H.
  2: { apply scan_result_skip; [by intros _ ?%Hsc|]. eapply (IH s); set_solver. }
  assert (r ∈ r :: records) by set_solver. assert (live_at now r) by done.
  assert (scope_of r = request_scope req) by by apply Hsc. unfold scan_result, acquire_spec.
  destruct (same_holder (lr_Lease r) req) eqn:E1;
    [|destruct (negb (req_RenewOnly req) && CanHandoffStableLease (lr_Lease r) req) eqn:E2].
  3: { simplify_eq. exists r, s'. rewrite E1, E2. by split_and!. }
  all: destruct (put_lease _ s) as [s1 x] eqn:Hput; simplify_eq; exists r, s;
    rewrite E1, ?E2;
    do 5 (split; [done|]); by apply put_lease_spec.
Qed.

Lemma listed_lookup s r : store_ok s → r ∈ CoordinationLeases s → lease_view s !! lr_id r = Some r.
Proof.
  intros Hok Hin. rewrite (leases_listed s Hok), list_elem_of_fmap in Hin.
  destruct Hin as ([id r'] & -> & Hin). apply elem_of_map_to_list in Hin.
  destruct (leases_wf s id r' Hok Hin) as [<- _]. done.
Qed.
Lemma lookup_listed s id r : store_ok s → lease_view s !! id = Some r → r ∈ CoordinationLeases s.
Proof.
  intros Hok Hin. rewrite (leases_listed s Hok), list_elem_of_fmap.
  exists (id, r). split; [done|]. by apply elem_of_map_to_list.
Qed.

(** The lease of the endpoint [sc] the operation on [s] decides to install,
    and how the state it reaches may differ from [s]. *)
Definition installs (now : Time) (sc : ResourceID * ResourceID) (cur : option Lease)
    (want : result (lease_error E) Lease) (s s' : S) res : Prop :=
  store_ok s' ∧ unique_live now (lease_view s') ∧
  (∀ sc' o, sc' ≠ sc → held now (lease_view s) sc' o → held now (lease_view s') sc' o) ∧
  match want, res with
  | Ok l, Ok l' => l' = l ∧ held now (lease_view s') sc (Some l)
  | Ok l, Err (ErrStore _) => held now (lease_view s') sc cur ∨ held now (lease_view s') sc (Some l)
  | Err e, Err e' => e' = e ∧ held now (lease_view s') sc cur
  | _, _ => False
  end.

(** Replacing the live lease of its endpoint, or adding the first one. *)
Lemma wrote_installs now sc cur record new s s1 s' res :
  lr_Lease record = new →
  unique_live now (lease_view s) → prunes now (lease_view s) (lease_view s1) → scope_of record = sc →
  held now (lease_view s) sc cur → live_at now record →
  match cur with
  | Some l => ∃ r, lr_id r = lr_id record ∧ lease_view s !! lr_id r = Some r ∧ live_at now r ∧
                   scope_of r = sc ∧ lr_Lease r = l
  | None => lease_view s !! lr_id record = None
  end →
  wrote record s1 s' res →
  installs now sc cur (Ok new) s s' res.
Proof.
  intros <- Hu Hp Hsc Hcur Hl Hr Hw. split; [apply Hw|].
  pose proof (prunes_unique _ _ _ Hp Hu) as Hu1. destruct Hp as [Hsub Hlive].
  destruct (wrote_held now record s1 s' res) as (Hu' & Hoth & Hres); [done..| | |].
  - intros r0 Hr0. apply (lookup_weaken _ (lease_view s)) in Hr0; [|done].
    destruct cur as [l|]; [destruct Hr as (r & Hid & Hr & ? & ? & ?)|congruence].
    rewrite Hid in Hr. congruence.
  - intros j r0 Hj Hl0 Hsc0. apply (lookup_weaken _ (lease_view s)) in Hj; [|done].
    destruct cur as [l|]; [destruct Hr as (r & Hid & ? & ? & ? & ?)|].
    + rewrite <- Hid. eapply (Hu j (lr_id r) r0 r); eauto. congruence.
    + exfalso. eapply Hcur; eauto. congruence.
  - split; [done|]. subst sc. split.
    + intros sc' o Hne Ho. apply Hoth; [done|]. by eapply prunes_held.
    + destruct res as [l|[]]; try done. destruct Hres as [-> |?]; [left|by right].
      by eapply prunes_held.
Qed.

Lemma acquire_installs now fresh req s s' res cur :
  store_ok s → unique_live now (lease_view s) → lease_view s !! fresh = None →
  request_valid req = true → held now (lease_view s) (request_scope req) cur →
  Acquire true now fresh req s = (s', res) →
  installs now (request_scope req) cur
    (acquire_spec now fresh (req <| req_TTL ::= capTTL |>) cur) s s' res.
Proof.
  intros Hok Hu Hf Hv Hcur. unfold Acquire. rewrite Hv. cbn [negb].
  set (req' := req <| req_TTL ::= capTTL |>).
  assert (request_scope req = request_scope req') as Hsc by done. rewrite Hsc in *.
  assert (0 < req_TTL req' ≤ maxLeaseTTL) as Httl by apply (capTTL_range (req_TTL req)).
  destruct (acquire_scan now req' (CoordinationLeases s) s) as [s1 o] eqn:Hscan.
  eapply acquire_scan_spec in Hscan; [|done|apply prunes_refl|intros; by apply listed_lookup].
  destruct o as [res0|].
  - intros [= <- <-]. destruct Hscan as (r & s2 & Hok2 & Hp & Hin & Hl & Hrs & Hres).
    apply listed_lookup in Hin; [|done].
    assert (cur = Some (lr_Lease r)) as ->.
    { eapply held_functional; [done|exact Hcur|]. exists (lr_id r), r. auto. }
    destruct (renewed_spec now req' (lr_Lease r) Hl Httl) as (Hg1 & Hid1 & Hc1 & Hh1).
    pose proof (handed_off_spec now req' (lr_Lease r) Hl Httl) as Hg2. rewrite <- Hrs in *.
    assert (acquire_spec (E := E) now fresh req' (Some (lr_Lease r)) =
            acquire_spec now "" req' (Some (lr_Lease r))) as -> by done.
    destruct (acquire_spec now "" req' (Some (lr_Lease r))) as [l|e] eqn:Hspec.
    + assert (well_granted now l ∧ lease_ResourceID l = lr_id r ∧
        (lease_ClusterID l, lease_HAEndpointID l) = scope_of r) as (Hg & Hid & Hs).
      { unfold acquire_spec in Hspec. repeat case_match; simplify_eq; [|done].
        split; [done|]. split; [done|]. unfold scope_of. congruence. }
      eapply (wrote_installs now _ _ (r <| lr_Lease := l |> <| lr_UpdatedAt := now |>) l s s2); try done.
      * by apply well_granted_live.
      * exists r. by split_and!; [symmetry; apply Hid| | | |].
    + destruct Hres as [-> ->]. split; [done|]. split; [by eapply prunes_unique|].
      split; [intros; by eapply prunes_held|]. split; [done|by eapply prunes_held].
  - destruct Hscan as (Hok1 & Hp & Hnone).
    assert (cur = None) as ->.
    { eapply held_functional; [done|exact Hcur|]. intros id r Hid. apply Hnone.
      by eapply lookup_listed. }
    cbn [acquire_spec]. destruct (req_RenewOnly req'); intros Hput.
    + simplify_eq. split; [done|]. split; [by eapply prunes_unique|].
      split; [intros; by eapply prunes_held|]. split; [done|by eapply prunes_held].
    + apply put_lease_spec in Hput; [|done].
      eapply (wrote_installs now _ _ _ _ s s1) in Hput; try done.
      apply well_granted_live. by apply granted_spec.
Qed.
End theory.

(** ** Batches *)

Definition record_key (r : LeaseRecord) : string :=
  leaseScope (lease_ClusterID (lr_Lease r)) (lease_HAEndpointID (lr_Lease r)).
Definition scope_valid (sc : ResourceID * ResourceID) : Prop :=
  ValidResourceID sc.1 = true ∧ ValidResourceID sc.2 = true.

Lemma append_inj_length a b c d : String.length a = String.length c →
  a +:+ b = c +:+ d → a = c ∧ b = d.
Proof.
  revert c. induction a as [|x a IH]; intros [|y c] Hlen H; cbn in *; try done.
  injection H as -> H. injection Hlen as Hlen. by destruct (IH c Hlen H) as [-> ->].
Qed.
Lemma leaseScope_inj a b c d : ValidResourceID a = true → ValidResourceID c = true →
  leaseScope a b = leaseScope c d → a = c ∧ b = d.
Proof.
  intros Ha Hc H. apply append_inj_length in H as [-> H].
  - by injection H as ->.
  - unfold ValidResourceID in *. bsimpl.
    repeat match goal with H : Nat.eqb _ _ = true |- _ => apply Nat.eqb_eq in H end. congruence.
Qed.

(** What a batch does to an endpoint's live lease for the first valid request
    naming it; a conflicting lease is left alone. *)
Definition stable_spec (now : Time) (fresh : ResourceID) (request : LeaseRequest)
    (cur : option Lease) : option Lease :=
  let ttl := capTTL (req_TTL request) in
  match cur with
  | Some l =>
      if (lease_OperationID l != req_OperationID request) || (lease_OwnerID l != req_OwnerID request)
      then Some l
      else if negb (maxLeaseTTL <? Sub (lease_ExpiresAt l) now) &&
              (ttl `quot` 2 <? Sub (lease_ExpiresAt l) now) then Some l
      else Some (l <| lease_ExpiresAt := Add now ttl |>)
  | None =>
      if req_RenewOnly request then None
      else Some (mkLease fresh (req_ClusterID request) (req_HAEndpointID request)
             (req_OperationID request) (req_OwnerID request) "" (Add now ttl) true)
  end.
Definition first_request (sc : ResourceID * ResourceID)
    (requests : list (ResourceID * LeaseRequest)) : option (ResourceID * LeaseRequest) :=
  find (λ fr, stable_request_valid fr.2 && (request_scope fr.2 == sc)) requests.

Section batch.
Context {S E : Type} `{!LeaseRecordStore S E, !LeaseRecordLaws S E}.
Implicit Types (s : S) (b : batch_state E).

(** The invariant of the batch: [b_next] holds live records only and
    [b_active] is exactly its index by endpoint. *)
Definition batch_inv (now : Time) b : Prop :=
  (∀ id r, b_next b !! id = Some r → live_at now r ∧ lr_id r = id ∧ scope_ok r = true ∧
     b_active b !! record_key r = Some id) ∧
  (∀ key id, b_active b !! key = Some id → ∃ r, b_next b !! id = Some r ∧ record_key r = key) ∧
  b_duplicates b = ∅.

Lemma scope_ok_valid r : scope_ok r = true → scope_valid (scope_of r).
Proof. unfold scope_ok, scope_valid, scope_of. intros. by bsimpl. Qed.
Lemma record_key_inj r sc : scope_ok r = true → scope_valid sc →
  record_key r = leaseScope sc.1 sc.2 → scope_of r = sc.
Proof.
  intros Hr [? ?] Heq. apply scope_ok_valid in Hr as [? ?]. destruct sc.
  apply leaseScope_inj in Heq as [E1 E2]; [|done..]. cbn in *. unfold scope_of. by rewrite E1, E2.
Qed.

Lemma batch_inv_unique now b : batch_inv now b → unique_live now (b_next b).
Proof.
  intros (H1 & _ & _) i j r1 r2 Hi Hj _ _ Hsc.
  destruct (H1 i r1 Hi) as (_ & _ & _ & Ha), (H1 j r2 Hj) as (_ & _ & _ & Hb).
  unfold record_key, scope_of in *. simplify_eq. congruence.
Qed.

(** The index finds the live lease of an endpoint. *)
Lemma batch_inv_held now b sc : batch_inv now b → scope_valid sc →
  match b_active b !! leaseScope sc.1 sc.2 with
  | Some id => ∃ r, b_next b !! id = Some r ∧ lr_id r = id ∧ live_at now r ∧ scope_of r = sc ∧
                    scope_ok r = true
  | None => held now (b_next b) sc None
  end.
Proof.
  intros (H1 & H2 & _) Hsc. unfold held. destruct (b_active b !! _) as [id|] eqn:Ha.
  - destruct (H2 _ _ Ha) as (r & Hr & Hkey). destruct (H1 id r Hr) as (? & ? & ? & ?).
    exists r. split_and!; try done. by apply record_key_inj.
  - intros id r Hr _ Heq. destruct (H1 id r Hr) as (_ & _ & _ & Hk). unfold record_key in Hk.
    rewrite <- Heq in Ha. cbn in Ha. congruence.
Qed.

Lemma batch_load_spec now (b : batch_state E) r :
  batch_inv now b → scope_ok r = true → b_next b !! lr_id r = None →
  (∀ id r', b_next b !! id = Some r' → live_at now r → scope_of r' ≠ scope_of r) →
  batch_inv now (batch_load now b r) ∧
  (b_next (batch_load now b r) = if live now (lr_Lease r) then <[lr_id r := r]> (b_next b) else b_next b) ∧
  (b_changed (batch_load now b r) = false → b_changed b = false ∧ live_at now r) ∧
  b_failures (batch_load now b r) = b_failures b ∧ b_seen (batch_load now b r) = b_seen b.
Proof.
  intros (H1 & H2 & Hd) Hsc Hid Hnew. unfold batch_load.
  destruct (live now (lr_Lease r)) eqn:Hl; cbn; [|done].
  assert (b_active b !! record_key r = None) as Hnone.
  { apply eq_None_not_Some. intros [id Hk]. destruct (H2 _ _ Hk) as (r' & Hr' & Hkey).
    destruct (H1 _ _ Hr') as (_ & _ & Hs' & _). apply (Hnew _ _ Hr'); [done|].
    apply record_key_inj; [done|by apply scope_ok_valid|done]. }
  unfold record_key in Hnone. rewrite Hnone. cbn. split; [|done]. split; [|split; [|done]].
  - intros id r'. cbn. rewrite lookup_insert_Some. intros [[<- <-]|[Hne Hr']].
    + split_and!; try done. apply lookup_insert_eq.
    + destruct (H1 _ _ Hr') as (? & ? & ? & Hk). split_and!; try done.
      rewrite lookup_insert_ne; [done|]. intros Heq. unfold record_key in *. congruence.
  - intros key id. cbn. rewrite lookup_insert_Some. intros [[<- <-]|[Hne Hk]].
    + exists r. by rewrite lookup_insert_eq.
    + destruct (H2 _ _ Hk) as (r' & Hr' & Hkey). exists r'. split; [|done].
      rewrite lookup_insert_ne; [done|]. intros <-. unfold lr_id in *. congruence.
Qed.

(** Loading every record of a state with at most one live lease per endpoint. *)
Lemma batch_load_all now (m : leases) rs b0 :
  unique_live now m → (∀ id r, m !! id = Some r → lr_id r = id ∧ scope_ok r = true) →
  (∀ r, r ∈ rs → m !! lr_id r = Some r) → NoDup (lr_id <$> rs) →
  b0 = mkBatch ∅ ∅ ∅ ∅ false [] →
  let b := foldl (batch_load now) b0 rs in
  batch_inv now b ∧ b_failures b = [] ∧ b_seen b = ∅ ∧
  (∀ id r, b_next b !! id = Some r ↔ r ∈ rs ∧ live_at now r ∧ lr_id r = id) ∧
  (b_changed b = false → ∀ r, r ∈ rs → live_at now r).
Proof.
  intros Hu Hwf Hin Hnd ->. induction rs as [|r rs IH] using rev_ind.
  { split; [split; [|split; [|done]]; intros ? ? Hx; cbn in Hx; by rewrite lookup_empty in Hx|].
    split_and!; try done; [intros ? ?; cbn; rewrite lookup_empty; set_solver|set_solver]. }
  rewrite fmap_app in Hnd. apply NoDup_app in Hnd as (Hnd & Hdis & _). rewrite foldl_app. cbn.
  destruct IH as (Hi & Hf & Hs & Hn & Hc); [set_solver|done|].
  set (b := foldl _ _ rs) in *.
  destruct (Hwf _ _ (Hin r ltac:(set_solver))) as [_ Hok].
  destruct (batch_load_spec now b r) as (Hi' & Hn' & Hc' & Hf' & Hs'); [done|done| | |].
  - apply eq_None_not_Some. intros [r' Hr']. apply Hn in Hr' as (Hr' & _ & Hid).
    apply (Hdis (lr_id r)); [|set_solver]. rewrite <- Hid. by apply list_elem_of_fmap_2.
  - intros id r' Hr' Hl Hsc. apply Hn in Hr' as (Hr' & Hl' & <-).
    assert (lr_id r' = lr_id r) as Hid.
    { apply (Hu _ _ r' r); [apply Hin; set_solver..|done|done|done]. }
    apply (Hdis (lr_id r)); [|set_solver]. rewrite <- Hid. by apply list_elem_of_fmap_2.
  - split; [done|]. split; [congruence|]. split; [congruence|]. split.
    + intros id r'. rewrite Hn'. destruct (live now (lr_Lease r)) eqn:Hl.
      * rewrite lookup_insert_Some, Hn, elem_of_app, list_elem_of_singleton. split.
        -- intros [[<- <-]|[? (? & ? & ?)]]; auto.
        -- intros ([Hr' | ->] & ? & <-); [|by left]. destruct (decide (lr_id r = lr_id r')) as [Heq|]; [|auto].
           left. split; [done|]. assert (m !! lr_id r = Some r) by (apply Hin; set_solver).
           assert (m !! lr_id r' = Some r') by (apply Hin; set_solver). congruence.
      * rewrite Hn, elem_of_app, list_elem_of_singleton. unfold live_at.
        split; [tauto|]. intros ([?| ->] & ? & ?); [done|congruence].
    + intros [H1 H2]%Hc' r'. rewrite elem_of_app, list_elem_of_singleton. intros [?| ->]; [by apply Hc|done].
Qed.

(** *** One request *)

(** What one request leaves behind; [done] tells for which endpoints it was the
    first valid request. *)
Definition request_effect (now : Time) (fresh : ResourceID) (req : LeaseRequest) b b' : Prop :=
  batch_inv now b' ∧
  (b_changed b' = false → b_changed b = false ∧ b_next b' = b_next b) ∧
  (∀ id, id ≠ fresh → b_next b !! id = None → b_next b' !! id = None) ∧
  (∀ sc, scope_valid sc → leaseScope sc.1 sc.2 ∈ b_seen b' ↔
     leaseScope sc.1 sc.2 ∈ b_seen b ∨ stable_request_valid req = true ∧ request_scope req = sc) ∧
  (∀ sc cur, scope_valid sc → held now (b_next b) sc cur → held now (b_next b') sc
     (if bool_decide (leaseScope sc.1 sc.2 ∈ b_seen b) then cur
      else if stable_request_valid req && (request_scope req == sc) then stable_spec now fresh req cur
      else cur)).

Lemma stable_valid_scope req : stable_request_valid req = true → scope_valid (request_scope req).
Proof. unfold stable_request_valid, scope_valid, request_scope. intros. by bsimpl. Qed.

(** The first valid request for an endpoint. *)
Lemma request_effect_first now fresh req b b' :
  stable_request_valid req = true →
  leaseScope (req_ClusterID req) (req_HAEndpointID req) ∉ b_seen b →
  b_seen b' = {[leaseScope (req_ClusterID req) (req_HAEndpointID req)]} ∪ b_seen b →
  batch_inv now b' →
  (b_changed b' = false → b_changed b = false ∧ b_next b' = b_next b) →
  (∀ id, id ≠ fresh → b_next b !! id = None → b_next b' !! id = None) →
  (∀ cur, held now (b_next b) (request_scope req) cur →
     held now (b_next b') (request_scope req) (stable_spec now fresh req cur)) →
  (∀ sc cur, sc ≠ request_scope req → held now (b_next b) sc cur → held now (b_next b') sc cur) →
  request_effect now fresh req b b'.
Proof.
  intros Hv Hns Hs Hi Hc Hf Hsc Hoth. split; [done|]. split; [done|]. split; [done|].
  pose proof (stable_valid_scope req Hv) as [Hv1 _].
  assert (∀ sc, scope_valid sc → leaseScope sc.1 sc.2 =
    leaseScope (req_ClusterID req) (req_HAEndpointID req) ↔ request_scope req = sc) as Hkey.
  { intros [c h] [Hc1 _]. cbn in *. split; [|by intros [= <- <-]].
    intros Heq. apply leaseScope_inj in Heq as [-> ->]; done. }
  split.
  - intros sc Hval. rewrite Hs, elem_of_union, elem_of_singleton, Hkey by done. tauto.
  - intros sc cur Hval Hh. rewrite Hv. cbn. destruct (decide (request_scope req = sc)) as [<-|Hne].
    + rewrite bool_decide_false by done. rewrite bool_decide_true by done. by apply Hsc.
    + rewrite (bool_decide_false (_ = sc)) by done. destruct (bool_decide _); by apply Hoth.
Qed.

(** The record of the endpoint is rewritten, or none exists and one is added. *)
Lemma batch_inv_update now b r r' active seen c :
  batch_inv now b → live_at now r' → scope_ok r' = true → scope_of r' = scope_of r → lr_id r' = lr_id r →
  b_next b !! lr_id r = Some r ∧ active = b_active b ∨
  b_next b !! lr_id r = None ∧ b_active b !! record_key r = None ∧
    active = <[record_key r := lr_id r]> (b_active b) →
  batch_inv now (mkBatch (<[lr_id r := r']> (b_next b)) active (b_duplicates b) seen c (b_failures b)).
Proof.
  intros (H1 & H2 & Hd) Hl Hok Hsc Hid Hcase.
  assert (record_key r' = record_key r) as Hkey.
  { unfold record_key, scope_of in *. congruence. }
  split; [|split; [|done]]; cbn.
  - intros id x. rewrite lookup_insert_Some. intros [[<- <-]|[Hne Hx]].
    + split_and!; try done. rewrite Hkey. destruct Hcase as [[Hr ->]|(_ & _ & ->)]; [by apply H1|].
      apply lookup_insert_eq.
    + destruct (H1 _ _ Hx) as (? & ? & ? & Hk). split_and!; try done.
      destruct Hcase as [[Hr ->]|(_ & Hnone & ->)]; [done|]. rewrite lookup_insert_ne; [done|congruence].
  - intros key id Hk. destruct Hcase as [[Hr ->]|(Hr & Hnone & ->)];
      [|apply lookup_insert_Some in Hk as [[<- <-]|[Hne Hk]]].
    + destruct (H2 _ _ Hk) as (x & Hx & Hkx). destruct (decide (lr_id r = id)) as [<-|].
      * exists r'. rewrite lookup_insert_eq. split; [done|]. congruence.
      * exists x. by rewrite lookup_insert_ne.
    + exists r'. by rewrite lookup_insert_eq.
    + destruct (H2 _ _ Hk) as (x & Hx & Hkx). exists x. split; [|done].
      rewrite lookup_insert_ne; [done|congruence].
Qed.

Lemma batch_request_spec now fresh req b :
  batch_inv now b → b_next b !! fresh = None → ValidResourceID fresh = true →
  request_effect now fresh req b (batch_request now fresh req b).
Proof.
  intros Hi Hf Hvf. unfold batch_request.
  destruct (stable_request_valid req) eqn:Hv; cbn [negb].
  2: { split; [done|]. split; [done|]. split; [done|]. rewrite Hv. split; [naive_solver|].
       intros sc cur Hval Hh. by case_match. }
  pose proof (stable_valid_scope req Hv) as Hval.
  case_bool_decide as Hseen.
  { split; [done|]. split; [done|]. split; [done|]. rewrite Hv. split.
    - intros sc _. split; [by left|]. by intros [?|[_ <-]].
    - intros sc cur _ Hh. case_bool_decide; [done|]. rewrite bool_decide_false; [done|by intros <-]. }
  cbn [b_duplicates b_active set_field].
  assert (b_duplicates b = ∅) as Hd by apply Hi.
  rewrite bool_decide_false; [|cbn; rewrite Hd; set_solver].
  pose proof (batch_inv_held now b _ Hi Hval) as Hheld.
  pose proof (capTTL_range (req_TTL req)) as Httl. cbn in Hheld. cbn -[leaseScope capTTL maxLeaseTTL].
  destruct (b_active b !! leaseScope (req_ClusterID req) (req_HAEndpointID req)) as [id|] eqn:Hact.
  - destruct Hheld as (r & Hr & <- & Hl & Hsc & Hok). cbn -[leaseScope capTTL maxLeaseTTL].
    rewrite Hr. cbn [default]. change (id r) with r.
    assert (∀ cur, held now (b_next b) (request_scope req) cur → cur = Some (lr_Lease r)) as Hcur.
    { intros cur Hc. eapply held_functional; [by apply batch_inv_unique|exact Hc|].
      exists (lr_id r), r. auto. }
    destruct ((lease_OperationID (lr_Lease r) != _) || _) eqn:E1;
      [|destruct (negb (maxLeaseTTL <? _) && _) eqn:E2].
    1,2: apply request_effect_first; try done; intros cur Hc; specialize (Hcur cur Hc) as ->;
      unfold stable_spec; rewrite E1, ?E2; done.
    set (r' := r <| lr_Lease := _ |> <| lr_UpdatedAt := _ |>).
    assert (live_at now r') as Hl'.
    { apply well_granted_live. unfold live_at, live in Hl. bsimpl. split; cbn; [time_lia|done]. }
    apply request_effect_first; try done.
    + apply (batch_inv_update now b r r'); auto.
    + intros j Hj. cbn. intros Hn. rewrite lookup_insert_ne; [done|congruence].
    + intros cur Hc. rewrite (Hcur cur Hc). cbn [stable_spec]. rewrite E1, E2, <- Hsc.
      by apply (held_insert now (b_next b) (lr_id r) r').
    + intros sc cur Hne Hc. cbn. apply held_insert_other; [|by rewrite <- Hsc in Hne|done].
      intros r0 Hr0. by simplify_eq.
  - assert (∀ cur, held now (b_next b) (request_scope req) cur → cur = None) as Hcur.
    { intros cur Hc. by eapply held_functional; [apply batch_inv_unique| |]. }
    destruct (req_RenewOnly req) eqn:Hro.
    { apply request_effect_first; try done. intros cur Hc. rewrite (Hcur cur Hc). cbn. by rewrite Hro. }
    set (r := mkLeaseRecord _ now now).
    assert (live_at now r) as Hl by (apply well_granted_live; split; cbn; [time_lia|done]).
    apply request_effect_first; try done.
    + apply (batch_inv_update now b r r); auto. unfold scope_ok. destruct Hval. by bsplit.
    + intros j Hj Hn. cbn. by rewrite lookup_insert_ne.
    + intros cur Hc. rewrite (Hcur cur Hc). cbn [stable_spec]. rewrite Hro.
      by apply (held_insert now (b_next b) fresh r).
    + intros sc cur Hne Hc. cbn. apply held_insert_other; [|done|done].
      intros r0 Hr0. by simplify_eq.
Qed.

(** New resource IDs: valid, distinct, and not those of stored records. *)
Definition fresh_ids (m : leases) (ids : list ResourceID) : Prop :=
  NoDup ids ∧ ∀ id, id ∈ ids → ValidResourceID id = true ∧ m !! id = None.

Definition batch_spec (now : Time) (requests : list (ResourceID * LeaseRequest))
    (sc : ResourceID * ResourceID) (cur : option Lease) : option Lease :=
  match first_request sc requests with
  | Some (fresh, req) => stable_spec now fresh req cur
  | None => cur
  end.

Lemma batch_requests_spec now requests b :
  batch_inv now b → fresh_ids (b_next b) requests.*1 →
  let b' := batch_requests now requests b in
  batch_inv now b' ∧
  (b_changed b' = false → b_changed b = false ∧ b_next b' = b_next b) ∧
  (∀ sc cur, scope_valid sc → held now (b_next b) sc cur → held now (b_next b') sc
     (if bool_decide (leaseScope sc.1 sc.2 ∈ b_seen b) then cur
      else batch_spec now requests sc cur)).
Proof.
  unfold batch_requests. revert b. induction requests as [|[fresh req] requests IH]; intros b Hi [Hnd Hf].
  { cbn. split; [done|]. split; [done|]. intros. by case_match. }
  cbn in Hnd. apply NoDup_cons in Hnd as [Hnin Hnd].
  destruct (Hf fresh) as [Hvf Hfn]; [set_solver|].
  destruct (batch_request_spec now fresh req b Hi Hfn Hvf) as (Hi1 & Hc1 & Hf1 & Hs1 & Hh1).
  cbn. set (b1 := batch_request now fresh req b) in *.
  destruct (IH b1) as (Hi2 & Hc2 & Hh2); [done| |].
  { split; [done|]. intros id Hid. destruct (Hf id) as [? ?]; [set_solver|]. split; [done|].
    apply Hf1; [|done]. by intros ->. }
  split; [done|]. split.
  - intros [Hc Hn]%Hc2. destruct (Hc1 Hc) as [? Hn1]. split; [done|]. congruence.
  - intros sc cur Hval Hh. specialize (Hh1 sc cur Hval Hh). specialize (Hh2 sc _ Hval Hh1).
    unfold batch_spec, first_request. cbn.
    pose proof (Hs1 sc Hval) as Hs.
    destruct (bool_decide_reflect (leaseScope sc.1 sc.2 ∈ b_seen b)) as [Hseen|Hseen].
    + rewrite bool_decide_true in Hh2; [done|]. apply Hs. by left.
    + destruct (stable_request_valid req) eqn:Hv; cbn in *;
        [destruct (bool_decide_reflect (request_scope req = sc)) as [Hsc|Hsc]|].
      * rewrite bool_decide_true in Hh2; [done|]. apply Hs. by right.
      * rewrite bool_decide_false in Hh2; [done|]. rewrite Hs. naive_solver.
      * rewrite bool_decide_false in Hh2; [done|]. rewrite Hs. naive_solver.
Qed.

(** The IDs of the records of a map keyed by them. *)
Lemma map_ids (m : leases) : (∀ id r, m !! id = Some r → lr_id r = id) →
  lr_id <$> (map_to_list m).*2 = (map_to_list m).*1.
Proof.
  intros Hm. rewrite <- list_fmap_compose. apply list_fmap_ext. intros i [id r] Hi.
  apply list_elem_of_lookup_2, elem_of_map_to_list in Hi. by apply Hm.
Qed.
Lemma map_keyed (m : leases) : (∀ id r, m !! id = Some r → lr_id r = id) →
  keyed <$> (map_to_list m).*2 = map_to_list m.
Proof.
  intros Hm. rewrite <- list_fmap_compose. rewrite <- (list_fmap_id (map_to_list m)) at 2.
  apply list_fmap_ext. intros i [id r] Hi.
  apply list_elem_of_lookup_2, elem_of_map_to_list in Hi. cbn. unfold keyed. by rewrite (Hm id r Hi).
Qed.

(** The plan of a whole batch. *)
Lemma batch_plan_spec now requests s :
  store_ok s → unique_live now (lease_view s) → fresh_ids (lease_view s) requests.*1 →
  let b := batch_plan now requests s in
  batch_inv now b ∧ (b_changed b = false → b_next b = lease_view s) ∧
  ∀ sc cur, scope_valid sc → held now (lease_view s) sc cur →
    held now (b_next b) sc (batch_spec now requests sc cur).
Proof.
  intros Hok Hu [Hnd Hf]. unfold batch_plan.
  destruct (batch_load_all now (lease_view s) (CoordinationLeases s) (mkBatch ∅ ∅ ∅ ∅ false []))
    as (Hi & _ & Hs & Hn & Hc); try done.
  { intros id r Hid. by apply (leases_wf s). }
  { intros r. by apply listed_lookup. }
  { rewrite (leases_listed s Hok), map_ids; [apply NoDup_fst_map_to_list|].
    intros id r Hr. by apply (leases_wf s). }
  set (b0 := foldl _ _ _) in *.
  assert (∀ id r, b_next b0 !! id = Some r ↔ lease_view s !! id = Some r ∧ live_at now r) as Hview.
  { intros id r. rewrite Hn. split.
    - intros (Hin & Hl & <-). split; [by apply listed_lookup|done].
    - intros [Hin Hl]. split; [by eapply lookup_listed|]. split; [done|].
      by destruct (leases_wf s id r Hok Hin). }
  destruct (batch_requests_spec now requests b0 Hi) as (Hi' & Hc' & Hh').
  { split; [done|]. intros id Hid. destruct (Hf id Hid) as [? Hnone]. split; [done|].
    apply eq_None_not_Some. intros [r [Hr _]%Hview]. congruence. }
  split; [done|]. split.
  - intros [Hch ->]%Hc'. apply map_eq. intros id. apply option_eq. intros r. rewrite Hview.
    split; [tauto|]. intros Hr. split; [done|]. apply (Hc Hch). by eapply lookup_listed.
  - intros sc cur Hval Hh. specialize (Hh' sc cur Hval). rewrite Hs, bool_decide_false in Hh' by set_solver.
    apply Hh'. destruct cur as [l|]; cbn in *.
    + destruct Hh as (id & r & Hr & Hl & ? & ?). exists id, r. split; [by apply Hview|done].
    + intros id r [Hr _]%Hview. by apply Hh with id.
Qed.

(** Writing the plan replaces the view by it. *)
Lemma list_to_map_plan now b : batch_inv now b →
  list_to_map (keyed <$> merge_sort record_le (map_to_list (b_next b)).*2) = b_next b.
Proof.
  intros (H1 & _ & _).
  assert (∀ id r, b_next b !! id = Some r → lr_id r = id) as Hid by (intros; by apply H1).
  rewrite <- (list_to_map_to_list (b_next b)) at 2. rewrite <- (map_keyed _ Hid) at 2.
  apply list_to_map_proper; [|by rewrite merge_sort_Permutation].
  rewrite <- list_fmap_compose. change (fst ∘ keyed) with lr_id.
  rewrite merge_sort_Permutation, map_ids by done. apply NoDup_fst_map_to_list.
Qed.

Lemma batch_installs now requests s s' failures :
  store_ok s → unique_live now (lease_view s) → fresh_ids (lease_view s) requests.*1 →
  AcquireStableBatch true now requests s = (s', failures) →
  store_ok s' ∧ unique_live now (lease_view s') ∧
  ((∀ e, ErrStore e ∉ failures) → ∀ sc cur, scope_valid sc → held now (lease_view s) sc cur →
     held now (lease_view s') sc (batch_spec now requests sc cur)).
Proof.
  intros Hok Hu Hf. unfold AcquireStableBatch. cbn [negb].
  destruct requests as [|fr requests]; [intros [= <- <-]; by split_and!|].
  destruct (batch_plan_spec now (fr :: requests) s Hok Hu Hf) as (Hi & Hc & Hh).
  set (b := batch_plan now (fr :: requests) s) in *.
  destruct (b_changed b) eqn:Hch; [|intros [= <- <-]; specialize (Hc eq_refl)].
  2: { rewrite Hc in Hh. by split_and!. }
  destruct (ReplaceCoordinationLeases _ s) as [s1 r] eqn:Hr.
  apply (replace_law _ _ _ _ Hok) in Hr as [Hok1 Hv].
  unfold mutates in Hv. rewrite (list_to_map_plan now b Hi) in Hv.
  pose proof (batch_inv_unique now b Hi) as Hub.
  destruct r as [u|e]; intros [= <- <-]; (split; [done|]).
  - rewrite Hv. by split.
  - split; [by destruct Hv as [-> | ->]|]. intros Hno. exfalso. apply (Hno e). set_solver.
Qed.

(** A lease in force after a batch was in force before it, with the same holder,
    or was granted to a request that does not only renew. *)
Lemma SameLeaseIdentity_spec c t : SameLeaseIdentity c t = true →
  t = c <| lease_ExpiresAt := lease_ExpiresAt t |>.
Proof. unfold SameLeaseIdentity. destruct c, t. cbn. intros. by bsimpl. Qed.
Lemma SameLeaseIdentity_extended l expires : SameLeaseIdentity l (l <| lease_ExpiresAt := expires |>) = true.
Proof. unfold SameLeaseIdentity. cbn. by rewrite !bool_decide_true. Qed.
Lemma SameLeaseIdentity_refl l : SameLeaseIdentity l l = true.
Proof. pose proof (SameLeaseIdentity_extended l (lease_ExpiresAt l)). by destruct l. Qed.
Lemma SameLeaseIdentity_trans l1 l2 l3 :
  SameLeaseIdentity l1 l2 = true → SameLeaseIdentity l2 l3 = true → SameLeaseIdentity l1 l3 = true.
Proof.
  intros H12%SameLeaseIdentity_spec H23%SameLeaseIdentity_spec. rewrite H12 in H23. cbn in H23. rewrite H23.
  exact (SameLeaseIdentity_extended l1 (lease_ExpiresAt l3)).
Qed.
Lemma stable_spec_cases now fresh req cur l' : stable_spec now fresh req cur = Some l' →
  (∃ l, cur = Some l ∧ SameLeaseIdentity l l' = true) ∨
  cur = None ∧ req_RenewOnly req = false ∧ lease_OperationID l' = req_OperationID req ∧ lease_OwnerID l' = req_OwnerID req.
Proof.
  unfold stable_spec. destruct cur as [l|]; [|destruct (req_RenewOnly req); [done|]; intros [= <-]; by right].
  intros H. left. exists l. split; [done|].
  destruct (_ || _); [injection H as <-; apply SameLeaseIdentity_refl|].
  destruct (_ && _); injection H as <-; [apply SameLeaseIdentity_refl|apply SameLeaseIdentity_extended].
Qed.
Lemma held_valid now s sc l : store_ok s → held now (lease_view s) sc (Some l) → scope_valid sc.
Proof.
  intros Hok (id & r & Hr & _ & <- & _). apply scope_ok_valid. by apply (leases_wf s id r).
Qed.
Lemma batch_keeps now requests s s' failures sc l' :
  store_ok s → unique_live now (lease_view s) → fresh_ids (lease_view s) requests.*1 →
  AcquireStableBatch true now requests s = (s', failures) → held now (lease_view s') sc (Some l') →
  (∃ l, held now (lease_view s) sc (Some l) ∧ SameLeaseIdentity l l' = true) ∨
  held now (lease_view s) sc None ∧ ∃ fr, fr ∈ requests ∧ req_RenewOnly fr.2 = false ∧ request_scope fr.2 = sc ∧
    lease_OperationID l' = req_OperationID fr.2 ∧ lease_OwnerID l' = req_OwnerID fr.2.
Proof.
  intros Hok Hu Hf Ha Hheld. destruct (batch_installs _ _ _ _ _ Hok Hu Hf Ha) as (Hok' & Hu' & _).
  pose proof (held_valid _ _ _ _ Hok' Hheld) as Hsc. unfold AcquireStableBatch in Ha. cbn [negb] in Ha.
  destruct requests as [|fr requests]; [injection Ha as <- _; left; eauto using SameLeaseIdentity_refl|].
  destruct (batch_plan_spec now (fr :: requests) s Hok Hu Hf) as (Hi & Hc & Hh).
  set (b := batch_plan now (fr :: requests) s) in *.
  assert (lease_view s' = lease_view s ∨ lease_view s' = b_next b) as [Hv|Hv].
  { destruct (b_changed b) eqn:Hch; [|injection Ha as <- _; by left].
    destruct (ReplaceCoordinationLeases _ s) as [s1 r] eqn:Hr.
    apply (replace_law _ _ _ _ Hok) in Hr as [Hok1 Hm]. unfold mutates in Hm. rewrite (list_to_map_plan now b Hi) in Hm.
    destruct r; injection Ha as <- _; [by right|done]. }
  { rewrite Hv in Hheld. left. eauto using SameLeaseIdentity_refl. }
  destruct (held_exists now (lease_view s) sc) as [cur Hcur]. specialize (Hh sc cur Hsc Hcur).
  rewrite Hv in *. pose proof (held_functional _ _ _ _ _ Hu' Hheld Hh) as Hl. unfold batch_spec in Hl.
  destruct (first_request sc _) as [[fresh req]|] eqn:Hfirst.
  2: { subst cur. left. eauto using SameLeaseIdentity_refl. }
  symmetry in Hl. apply stable_spec_cases in Hl as [(l & -> & ?)|(-> & ? & ? & ?)]; [left; eauto|right].
  split; [done|]. apply find_some in Hfirst as [Hin [_ Hscope]%andb_true_iff].
  apply bool_decide_eq_true_1 in Hscope. exists (fresh, req). split; [by apply list_elem_of_In|done].
Qed.
End batch.

(** ** Reading and ending a transition *)

Section endings.
Context {S E : Type} `{!LeaseRecordStore S E, !LeaseRecordLaws S E}.
Implicit Types (s : S) (res : result (lease_error E) Lease).

Lemma at_endpoint_scope c h r : at_endpoint c h (lr_Lease r) = true ↔ scope_of r = (c, h).
Proof.
  unfold at_endpoint, scope_of. split; intros; [bsimpl; congruence|]. simplify_eq. by bsplit.
Qed.

Lemma current_skip now c h (sel : option Lease) rs :
  (∀ r, r ∈ rs → live_at now r → scope_of r ≠ (c, h)) →
  for_each (current_step (E := E) now c h) sel rs = Ok sel.
Proof.
  induction rs as [|r rs IH]; intros Hr; [done|]. cbn. unfold current_step at 1.
  destruct (live now (lr_Lease r)) eqn:Hl; cbn; [|apply IH; set_solver].
  destruct (at_endpoint c h (lr_Lease r)) eqn:Ha; cbn; [|apply IH; set_solver].
  apply at_endpoint_scope in Ha. exfalso. apply (Hr r); [set_solver|done|done].
Qed.

Lemma listed_nodup s : store_ok s → NoDup (lr_id <$> CoordinationLeases s).
Proof.
  intros Hok. rewrite (leases_listed s Hok), map_ids; [apply NoDup_fst_map_to_list|].
  intros id r Hr. by apply (leases_wf s).
Qed.

(** Under the invariant [Current] returns the endpoint's live lease. *)
Lemma Current_held now c h s o : store_ok s → unique_live now (lease_view s) →
  held now (lease_view s) (c, h) o →
  Current true now c h s = match o with Some l => Ok l | None => Err ErrLeaseMissing end.
Proof.
  intros Hok Hu Hh. unfold Current. cbn [negb]. destruct o as [l|].
  - destruct Hh as (id & r & Hr & Hl & Hsc & <-). pose proof (listed_nodup s Hok) as Hnd.
    destruct (leases_wf s id r Hok Hr) as [Hid Hsok].
    pose proof (lookup_listed s id r Hok Hr) as Hin.
    assert (∀ r', r' ∈ CoordinationLeases s → live_at now r' → scope_of r' = (c, h) → lr_id r' = lr_id r)
      as Hone.
    { intros r' Hr' ? ?. apply listed_lookup in Hr'; [|done]. rewrite Hid.
      eapply (Hu _ id r' r); eauto. congruence. }
    apply list_elem_of_split in Hin as (l1 & l2 & Hsplit). rewrite Hsplit in *.
    rewrite fmap_app in Hnd. apply NoDup_app in Hnd as (_ & Hdis & Hnd). cbn in Hnd.
    apply NoDup_cons in Hnd as [Hni _].
    rewrite for_each_app, current_skip; cbn.
    2: { intros r' Hr' ? ?. apply (Hdis (lr_id r')); [by apply list_elem_of_fmap_2|].
         rewrite (Hone r'); set_solver. }
    unfold current_step at 1. rewrite Hl, (proj2 (at_endpoint_scope c h r) Hsc). cbn.
    rewrite current_skip; cbn.
    2: { intros r' Hr' ? ?. apply Hni. rewrite <- (Hone r'); [by apply list_elem_of_fmap_2|set_solver..]. }
    unfold scope_ok in Hsok. bsimpl. rewrite bool_decide_false; [done|].
    by apply ValidResourceID_nonempty.
  - rewrite current_skip; [done|]. intros r Hr. apply (Hh (lr_id r)). by apply listed_lookup.
Qed.


Lemma end_transition_spec ready stable now t s s' res :
  store_ok s → unique_live now (lease_view s) →
  (∀ c, ready c = true → transition_ready now c t = true) →
  (∀ c, ready c = true → well_granted now (stable c) ∧ lease_ResourceID (stable c) = lease_ResourceID c ∧
     lease_ClusterID (stable c) = lease_ClusterID c ∧ lease_HAEndpointID (stable c) = lease_HAEndpointID c) →
  end_transition ready stable now t s = (s', res) →
  (s' = s ∧ res = Err ErrLeaseMissing) ∨
  ∃ c, ready c = true ∧ held now (lease_view s) (lease_ClusterID c, lease_HAEndpointID c) (Some c) ∧
    installs now (lease_ClusterID c, lease_HAEndpointID c) (Some c) (Ok (stable c)) s s' res.
Proof.
  intros Hok Hu Hready Hst. unfold end_transition.
  destruct (find _ _) as [r|] eqn:Hfind; [|intros [= <- <-]; by left].
  destruct (ready (lr_Lease r)) eqn:Hr; [|intros [= <- <-]; by left].
  intros Hput. right. exists (lr_Lease r). split; [done|].
  apply find_some in Hfind as [Hin _]. apply list_elem_of_In in Hin.
  apply listed_lookup in Hin; [|done]. specialize (Hready _ Hr). specialize (Hst _ Hr).
  destruct Hst as (Hg & Hid & Hc & Hh).
  assert (live_at now r) as Hl by (unfold transition_ready in Hready; by bsimpl).
  assert (held now (lease_view s) (scope_of r) (Some (lr_Lease r))) as Hheld by (exists (lr_id r), r; auto).
  split; [done|]. apply put_lease_spec in Hput; [|done].
  eapply (wrote_installs now _ _ _ _ s s) in Hput; try done.
  - unfold scope_of. cbn. by rewrite Hc, Hh.
  - by apply well_granted_live.
  - exists r. by split_and!.
Qed.

Lemma finalized_spec now ttl c : live now c = true →
  well_granted now (finalized now ttl c).
Proof. pose proof (capTTL_range ttl). unfold live, well_granted. intros. bsimpl. cbn. split; [time_lia|done]. Qed.
Lemma rolled_back_spec now ttl c : live now c = true →
  well_granted now (rolled_back now ttl c).
Proof. pose proof (capTTL_range ttl). unfold live, well_granted. intros. bsimpl. cbn. split; [time_lia|done]. Qed.

Lemma transition_ready_live now c t : transition_ready now c t = true → live now c = true.
Proof. unfold transition_ready. intros. by bsimpl. Qed.

Lemma finalize_spec now t ttl s s' res : store_ok s → unique_live now (lease_view s) →
  FinalizeTransition true now t ttl s = (s', res) →
  (s' = s ∧ res = Err ErrLeaseMissing) ∨
  ∃ c, transition_ready now c t = true ∧
    held now (lease_view s) (lease_ClusterID c, lease_HAEndpointID c) (Some c) ∧
    installs now (lease_ClusterID c, lease_HAEndpointID c) (Some c) (Ok (finalized now ttl c)) s s' res.
Proof.
  intros Hok Hu H. unfold FinalizeTransition in H. cbn [negb] in H.
  eapply end_transition_spec in H; eauto.
  intros c Hc%transition_ready_live. split; [by apply finalized_spec|done].
Qed.
Lemma rollback_spec now t ttl s s' res : store_ok s → unique_live now (lease_view s) →
  RollbackTransition true now t ttl s = (s', res) →
  (s' = s ∧ res = Err ErrLeaseMissing) ∨
  ∃ c, transition_ready now c t = true ∧ ValidResourceID (lease_PreviousOwnerID c) = true ∧
    held now (lease_view s) (lease_ClusterID c, lease_HAEndpointID c) (Some c) ∧
    installs now (lease_ClusterID c, lease_HAEndpointID c) (Some c) (Ok (rolled_back now ttl c)) s s' res.
Proof.
  intros Hok Hu H. unfold RollbackTransition in H. cbn [negb] in H.
  eapply end_transition_spec in H as [?|(c & Hr & ?)]; eauto.
  - right. exists c. bsimpl. tauto.
  - intros c Hc. by bsimpl.
  - intros c Hc. bsimpl. split; [|done]. apply rolled_back_spec. by eapply transition_ready_live.
Qed.
End endings.

(** A lease [Acquire] answers with is for the request. *)
Definition lease_for (request : LeaseRequest) (l : Lease) : Prop :=
  (lease_ClusterID l, lease_HAEndpointID l) = request_scope request ∧
  lease_OperationID l = req_OperationID request ∧ lease_OwnerID l = req_OwnerID request ∧
  lease_PreviousOwnerID l = req_PreviousOwnerID request.
Lemma acquire_spec_for {E} now fresh request cur l :
  (∀ l0, cur = Some l0 → (lease_ClusterID l0, lease_HAEndpointID l0) = request_scope request) →
  acquire_spec (E:=E) now fresh request cur = Ok l → lease_for request l.
Proof.
  intros Hcur. unfold acquire_spec, lease_for. destruct cur as [l0|]; [|by case_match; intros [= <-]].
  specialize (Hcur _ eq_refl). destruct (same_holder l0 request) eqn:Hh.
  - intros [= <-]. unfold same_holder in Hh. bsimpl. unfold renewed. case_match; by split_and!.
  - destruct (_ && _); [|done]. intros [= <-]. by split_and!.
Qed.
Lemma renew_only_fresh {S E} `{!LeaseRecordStore S E} authorized now fresh fresh' request (s : S) :
  req_RenewOnly request = true → Acquire authorized now fresh request s = Acquire authorized now fresh' request s.
Proof. intros Hr. unfold Acquire. cbn. rewrite Hr. by repeat case_match. Qed.

(** What every single mutation of the records preserves, the operations on one
    endpoint preserve. *)
Section moves.
Context {S E : Type} `{!LeaseRecordStore S E} (R : S → S → Prop) `{!PreOrder R}.
Hypotheses (put_moves : ∀ record s, R s (PutCoordinationLease record s).1)
  (delete_moves : ∀ id s, R s (DeleteCoordinationLease id s).1).
Lemma put_lease_moves record s : R s (put_lease record s).1.
Proof. unfold put_lease. pose proof (put_moves record s). by destruct (PutCoordinationLease _ _) as [? []]. Qed.
Lemma acquire_scan_moves now request records s : R s (acquire_scan now request records s).1.
Proof.
  revert s. induction records as [|x records IH]; intros s; cbn; [done|].
  destruct (negb (live now _)).
  - pose proof (delete_moves (lr_id x) s). unfold lr_id in *. destruct (DeleteCoordinationLease _ s) as [s1 ?]. by trans s1.
  - destruct (negb _); [apply IH|]. destruct (same_holder _ _); [|destruct (_ && _); [|done]];
      match goal with |- context [put_lease ?r s] => pose proof (put_lease_moves r s); by destruct (put_lease r s) end.
Qed.
Lemma Acquire_moves authorized now fresh request s : R s (Acquire authorized now fresh request s).1.
Proof.
  unfold Acquire. destruct (negb _); [done|]. destruct (negb _); [done|].
  pose proof (acquire_scan_moves now (request <| req_TTL ::= capTTL |>) (CoordinationLeases s) s) as Hs.
  destruct (acquire_scan _ _ _ s) as [s1 [r|]]; [done|]. destruct (req_RenewOnly _); [done|].
  trans s1; [done|apply put_lease_moves].
Qed.
Lemma end_transition_moves ready stable now t s : R s (end_transition ready stable now t s).1.
Proof. unfold end_transition. destruct (find _ _); [|done]. destruct (ready _); [apply put_lease_moves|done]. Qed.
End moves.

(** ** The store as a transition system

    One step is one operation at the current clock reading, a clock reading
    that did not go backwards, or a change of the store that leaves the leases
    alone. *)
Section steps.
Context {S E : Type} `{!LeaseRecordStore S E, !LeaseRecordLaws S E}.

Inductive lease_step : Time * S → Time * S → Prop :=
| step_clock now now' s s' :
    now ≤ now' → store_ok s' → lease_view s' = lease_view s → lease_step (now, s) (now', s')
| step_acquire authorized now fresh request s :
    lease_view s !! fresh = None →
    lease_step (now, s) (now, (Acquire authorized now fresh request s).1)
| step_batch authorized now requests s :
    fresh_ids (lease_view s) requests.*1 →
    lease_step (now, s) (now, (AcquireStableBatch authorized now requests s).1)
| step_finalize authorized now transition ttl s :
    lease_step (now, s) (now, (FinalizeTransition authorized now transition ttl s).1)
| step_rollback authorized now transition ttl s :
    lease_step (now, s) (now, (RollbackTransition authorized now transition ttl s).1)
| step_release authorized now id s :
    lease_step (now, s) (now, (Release authorized id s).1).

Definition lease_inv (c : Time * S) : Prop := store_ok c.2 ∧ unique_live c.1 (lease_view c.2).


Lemma lease_step_inv c c' : lease_step c c' → lease_inv c → lease_inv c'.
Proof.
  intros [] [Hok Hu]; cbn in *.
  - split; [done|]. cbn. rewrite H1. by eapply unique_live_later.
  - destruct (Acquire authorized now fresh request s) as [s' res] eqn:Ha. destruct authorized; cbn.
    2: { unfold Acquire in Ha. by simplify_eq/=. }
    destruct (request_valid request) eqn:Hv.
    2: { unfold Acquire in Ha. rewrite Hv in Ha. by simplify_eq/=. }
    destruct (held_exists now (lease_view s) (request_scope request)) as [cur Hcur].
    by destruct (acquire_installs now fresh request s s' res cur) as (? & ? & _).
  - destruct (AcquireStableBatch authorized now requests s) as [s' res] eqn:Ha. destruct authorized; cbn.
    + by destruct (batch_installs now requests s s' res) as (? & ? & _).
    + unfold AcquireStableBatch in Ha. by simplify_eq/=.
  - destruct (FinalizeTransition authorized now transition ttl s) as [s' res] eqn:Ha. destruct authorized; cbn.
    + apply finalize_spec in Ha as [[-> _]|(x & _ & _ & ? & ? & _)]; done.
    + unfold FinalizeTransition in Ha. by simplify_eq/=.
  - destruct (RollbackTransition authorized now transition ttl s) as [s' res] eqn:Ha. destruct authorized; cbn.
    + apply rollback_spec in Ha as [[-> _]|(x & _ & _ & _ & ? & ? & _)]; done.
    + unfold RollbackTransition in Ha. by simplify_eq/=.
  - unfold Release. destruct authorized; cbn; [|done].
    destruct (DeleteCoordinationLease id s) as [s' r] eqn:Hd.
    apply (delete_law _ _ _ _ Hok) in Hd as [Hok' Hd]. unfold mutates in Hd.
    assert (unique_live now (delete id (lease_view s))).
    { eapply unique_live_sub; [apply delete_subseteq|done]. }
    destruct r; cbn; split; cbn; try done; [by rewrite Hd|by destruct Hd as [-> | ->]].
Qed.
Lemma lease_steps_inv c c' : rtc lease_step c c' → lease_inv c → lease_inv c'.
Proof. induction 1; eauto using lease_step_inv. Qed.
End steps.

(** ** Properties *)

Section properties.
Context {S E : Type} `{!LeaseRecordStore S E, !LeaseRecordLaws S E}.
Implicit Types (s : S) (res : result (lease_error E) Lease).

(** C3: Split-brain safety of the lease store: from any state with at most one
    live lease per endpoint, no sequence of operations (acquire, batch renewal,
    finalize, rollback, release, with store failures, dropped deletions and a
    clock that never goes backwards) reaches a state with two live leases for
    one endpoint; and [Current] never reports several leases but returns
    exactly the live one. *)
Theorem one_live_lease_per_endpoint now0 s0 now s :
  store_ok s0 → unique_live now0 (lease_view s0) → rtc lease_step (now0, s0) (now, s) →
  (∀ r1 r2, r1 ∈ CoordinationLeases s → r2 ∈ CoordinationLeases s → live_at now r1 → live_at now r2 →
     scope_of r1 = scope_of r2 → r1 = r2) ∧
  (∀ c h, Current true now c h s ≠ Err ErrMultipleLeases ∧
     ∀ l, Current true now c h s = Ok l ↔
       ∃ r, r ∈ CoordinationLeases s ∧ live_at now r ∧ scope_of r = (c, h) ∧ lr_Lease r = l).
Proof.
  intros Hok0 Hu0 Hsteps. destruct (lease_steps_inv _ _ Hsteps) as [Hok Hu]; [done|]. cbn in Hok, Hu.
  split.
  - intros r1 r2 Hr1 Hr2 Hl1 Hl2 Hsc. apply listed_lookup in Hr1, Hr2; [|done..].
    assert (lr_id r1 = lr_id r2) as Heq by by eapply Hu. congruence.
  - intros c h. destruct (held_exists now (lease_view s) (c, h)) as [o Ho].
    rewrite (Current_held now c h s o) by done. split; [by destruct o|]. intros l.
    transitivity (held now (lease_view s) (c, h) (Some l)).
    + split; [by destruct o; intros; simplify_eq|]. intros Hl.
      by rewrite (held_functional _ _ _ _ _ Hu Ho Hl).
    + split; intros (x & Hx); [destruct Hx as (r & Hr & ? & ? & ?); exists r; by eauto using lookup_listed|].
      destruct Hx as (Hx & ? & ? & ?). exists (lr_id x), x. by split; [apply listed_lookup|].
Qed.

(** C38: [Acquire] implements its specification: as a function of the endpoint's
    live lease it renews for the same holder, hands a stable lease over to a
    transition of the next owner, grants a first lease, or refuses; the
    answered lease is the one in force afterwards, leases of other endpoints
    are not touched, and a storage error leaves either the old or the new
    lease in force. *)
Theorem Acquire_refines now fresh request s s' res cur :
  store_ok s → unique_live now (lease_view s) → lease_view s !! fresh = None →
  request_valid request = true → held now (lease_view s) (request_scope request) cur →
  Acquire true now fresh request s = (s', res) →
  installs now (request_scope request) cur
    (acquire_spec now fresh (request <| req_TTL ::= capTTL |>) cur) s s' res.
Proof. apply acquire_installs. Qed.

(** No lease is stolen: an acquired lease belongs to the requested endpoint,
    operation and owner and expires within one minute of the present; when a
    live lease of another holder was in force, the request was not renew-only,
    that lease was stable, and it was held by the owner the request names as
    the previous one. *)
Theorem Acquire_never_steals now fresh request s s' l :
  store_ok s → unique_live now (lease_view s) → lease_view s !! fresh = None →
  Acquire true now fresh request s = (s', Ok l) →
  (lease_ClusterID l, lease_HAEndpointID l) = request_scope request ∧
  lease_OperationID l = req_OperationID request ∧ lease_OwnerID l = req_OwnerID request ∧
  lease_PreviousOwnerID l = req_PreviousOwnerID request ∧ lease_Active l = true ∧
  now < lease_ExpiresAt l ≤ now + maxLeaseTTL ∧
  ∀ l0, held now (lease_view s) (request_scope request) (Some l0) →
    lease_ResourceID l = lease_ResourceID l0 ∧
    (same_holder l0 request = false →
       req_RenewOnly request = false ∧ lease_OperationID l0 = lease_HAEndpointID l0 ∧
       lease_OwnerID l0 = req_PreviousOwnerID request ∧ req_OwnerID request ≠ lease_OwnerID l0 ∧
       req_OperationID request ≠ req_HAEndpointID request).
Proof.
  intros Hok Hu Hf Ha. destruct (request_valid request) eqn:Hv.
  2: { unfold Acquire in Ha. rewrite Hv in Ha. by simplify_eq/=. }
  destruct (held_exists now (lease_view s) (request_scope request)) as [cur Hcur].
  destruct (acquire_installs now fresh request s s' _ cur Hok Hu Hf Hv Hcur Ha) as (_ & _ & _ & Hw).
  pose proof (capTTL_range (req_TTL request)) as Httl.
  set (req' := request <| req_TTL ::= capTTL |>) in *.
  destruct cur as [l1|]; cbn [acquire_spec] in Hw.
  2: { destruct (req_RenewOnly req'); [by destruct Hw|]. destruct Hw as [-> _].
       destruct (granted_spec now fresh req') as [? ?]; [done|]. split_and!; try done; try lia.
       intros l0 Hl0. by pose proof (held_functional _ _ _ _ _ Hu Hcur Hl0). }
  pose proof Hcur as (id & r & Hr & Hl & Hsc & <-). unfold live_at in Hl. unfold scope_of in Hsc.
  set (l1 := lr_Lease r) in *. clearbody l1.
  assert (∀ l0, held now (lease_view s) (request_scope request) (Some l0) → l0 = l1) as Hl0.
  { intros l0 Hx. pose proof (held_functional _ _ _ _ _ Hu Hcur Hx). congruence. }
  destruct (same_holder l1 req') eqn:Hsame;
    [|destruct (negb (req_RenewOnly req') && CanHandoffStableLease l1 req') eqn:Hho; [|by destruct Hw]];
    destruct Hw as [-> _].
  - destruct (renewed_spec now req' l1 Hl Httl) as ([? ?] & Hi & Hc & Hh).
    assert (lease_OperationID (renewed now req' l1) = lease_OperationID l1 ∧
            lease_OwnerID (renewed now req' l1) = lease_OwnerID l1 ∧
            lease_PreviousOwnerID (renewed now req' l1) = lease_PreviousOwnerID l1) as (? & ? & ?)
      by (unfold renewed; case_match; done).
    pose proof Hsame as Hs2. unfold same_holder in Hs2. bsimpl.
    split_and!; try congruence; try lia. intros l0 Hx%Hl0; subst l0. split; [done|].
    change (same_holder l1 request) with (same_holder l1 req'). congruence.
  - destruct (handed_off_spec now req' l1 Hl Httl) as [? ?].
    unfold CanHandoffStableLease in Hho. bsimpl. unfold request_scope in *. simplify_eq.
    split_and!; try done; try lia; [cbn; congruence|]. intros l0 Hx%Hl0; subst l0.
    split; [done|]. intros _. split_and!; congruence.
Qed.

(** Steady-state renewals do not interfere: when a batch is stored, every
    endpoint's live lease becomes what the first valid request naming it makes
    of it, and stays as it was when no valid request names it, whatever the
    other requests of the batch did; a lease its owner renews never expires
    more than one minute ahead, so one stranded by a clock step is re-anchored. *)
Theorem AcquireStableBatch_isolates now requests s s' failures :
  store_ok s → unique_live now (lease_view s) → fresh_ids (lease_view s) requests.*1 →
  AcquireStableBatch true now requests s = (s', failures) → (∀ e, ErrStore e ∉ failures) →
  ∀ sc cur, scope_valid sc → held now (lease_view s) sc cur →
    match first_request sc requests with
    | None => held now (lease_view s') sc cur
    | Some (fresh, req) =>
        held now (lease_view s') sc (stable_spec now fresh req cur) ∧
        ∀ l, stable_spec now fresh req cur = Some l → lease_OperationID l = req_OperationID req →
          lease_OwnerID l = req_OwnerID req → now < lease_ExpiresAt l ≤ now + maxLeaseTTL
    end.
Proof.
  intros Hok Hu Hf Hb Hne sc cur Hval Hh.
  destruct (batch_installs now requests s s' failures Hok Hu Hf Hb) as (_ & _ & Hw).
  specialize (Hw Hne sc cur Hval Hh). unfold batch_spec in Hw.
  destruct (first_request sc requests) as [[fresh req]|]; [|done]. split; [done|].
  pose proof (capTTL_range (req_TTL req)) as Httl. unfold stable_spec.
  intros l. destruct cur as [l0|].
  - destruct Hh as (id & r & _ & Hl & _ & <-). unfold live_at, live in Hl.
    destruct (_ || _) eqn:E1; [intros [= <-] Ho1 Ho2|].
    { rewrite Ho1, Ho2, !bool_decide_true in E1 by done. done. }
    destruct (negb _ && _) eqn:E2; intros [= <-] _ _; bsimpl; cbn; unfold maxLeaseTTL in *; [|time_lia].
    pose proof (Sub_le_iff (lease_ExpiresAt (lr_Lease r)) now Minute). time_lia.
  - case_match; [done|]. intros [= <-] _ _. cbn. unfold maxLeaseTTL in *. time_lia.
Qed.

(** Ending a transition leaves one stable lease: finalizing answers with the
    transition's owner, rolling back with the previous owner, under the same
    ID, without a previous owner, for at most one minute, and that lease is in
    force afterwards; other endpoints keep their leases; a transition that is
    expired, changed or already stable is refused and changes nothing. *)
Theorem transition_ends_stable (commit : bool) now t ttl s s' res :
  store_ok s → unique_live now (lease_view s) →
  (if commit then FinalizeTransition true now t ttl s else RollbackTransition true now t ttl s)
    = (s', res) →
  match res with
  | Ok l => ∃ c, held now (lease_view s) (lease_ClusterID t, lease_HAEndpointID t) (Some c) ∧
      SameLeaseIdentity c t = true ∧ lease_OperationID c ≠ lease_HAEndpointID c ∧
      l = mkLease (lease_ResourceID t) (lease_ClusterID t) (lease_HAEndpointID t) (lease_HAEndpointID t)
            (if commit then lease_OwnerID t else lease_PreviousOwnerID t) "" (Add now (capTTL ttl)) true ∧
      now < lease_ExpiresAt l ≤ now + maxLeaseTTL ∧
      held now (lease_view s') (lease_ClusterID t, lease_HAEndpointID t) (Some l) ∧
      ∀ sc o, sc ≠ (lease_ClusterID t, lease_HAEndpointID t) →
        held now (lease_view s) sc o → held now (lease_view s') sc o
  | Err ErrLeaseMissing => s' = s
  | Err (ErrStore _) => unique_live now (lease_view s')
  | Err _ => False
  end.
Proof.
  intros Hok Hu Hend. pose proof (capTTL_range ttl) as Httl.
  assert ((s' = s ∧ res = Err ErrLeaseMissing) ∨ ∃ c, transition_ready now c t = true ∧
    held now (lease_view s) (lease_ClusterID c, lease_HAEndpointID c) (Some c) ∧
    installs now (lease_ClusterID c, lease_HAEndpointID c) (Some c)
      (Ok (if commit then finalized now ttl c else rolled_back now ttl c)) s s' res)
    as [[-> ->]|(c & Hr & Hh & Hi)]; [|done|].
  { destruct commit; [by apply finalize_spec|].
    apply rollback_spec in Hend as [?|(c & ? & _ & ?)]; [by left|right; by exists c|done|done]. }
  destruct Hi as (_ & Hu' & Hoth & Hres). unfold transition_ready, live in Hr. bsimpl.
  pose proof (SameLeaseIdentity_spec c t ltac:(done)) as Ht.
  assert (lease_ClusterID t = lease_ClusterID c) as Hc1 by by rewrite Ht.
  assert (lease_HAEndpointID t = lease_HAEndpointID c) as Hc2 by by rewrite Ht.
  assert (lease_ResourceID t = lease_ResourceID c) as Hc3 by by rewrite Ht.
  assert (lease_OwnerID t = lease_OwnerID c) as Hc4 by by rewrite Ht.
  assert (lease_PreviousOwnerID t = lease_PreviousOwnerID c) as Hc5 by by rewrite Ht.
  rewrite Hc1, Hc2, Hc3, Hc4, Hc5.
  destruct res as [l|[]]; try done.
  destruct Hres as [-> Hh']. exists c. split_and!; try done.
  - unfold finalized, rolled_back. destruct commit, c; cbn in *; by subst.
  - destruct commit; cbn; time_lia.
  - destruct commit; cbn; time_lia.
Qed.
End properties.

(** ** A store in memory

    The simplest implementation of the interface; the concrete instances below
    run on it. *)
Module MapStore.
#[local] Instance map_store : LeaseRecordStore leases unit := {
  CoordinationLeases m := (map_to_list m).*2;
  PutCoordinationLease r m := if scope_ok r then (<[lr_id r := r]> m, Ok tt) else (m, Err tt);
  DeleteCoordinationLease id m := (delete id m, Ok tt);
  ReplaceCoordinationLeases rs m :=
    if forallb scope_ok rs then (list_to_map (keyed <$> rs), Ok tt) else (m, Err tt)
}.

Definition map_ok (m : leases) : Prop := ∀ id r, m !! id = Some r → lr_id r = id ∧ scope_ok r = true.

#[local] Program Instance map_laws : LeaseRecordLaws leases unit := {
  store_ok := map_ok; lease_view := id
}.
Next Obligation. done. Qed.
Next Obligation. intros s id r Hok Hr. by apply Hok. Qed.
Next Obligation.
  intros r s s' res Hok. cbn. destruct (scope_ok r) eqn:Hr; intros [= <- <-]; [|by split; [|left]].
  split; [|done]. intros id r'. rewrite lookup_insert_Some. intros [[<- <-]|[_ ?]]; [done|by apply Hok].
Qed.
Next Obligation.
  intros id s s' res Hok. cbn. intros [= <- <-]. split; [|done].
  intros j r. rewrite lookup_delete_Some. intros [_ ?]. by apply Hok.
Qed.
Next Obligation.
  intros rs s s' res Hok. cbn. destruct (forallb scope_ok rs) eqn:Hr; intros [= <- <-]; [|by split; [|left]].
  split; [|done]. intros id r Hid. apply elem_of_list_to_map_2, list_elem_of_fmap in Hid as (r' & [= -> ->] & Hin).
  split; [done|]. rewrite forallb_forall in Hr. apply Hr. by apply list_elem_of_In.
Qed.
End MapStore.

Section witnesses.
#[local] Existing Instances MapStore.map_store MapStore.map_laws.

Definition w_cluster : ResourceID := "11111111-1111-4111-8111-111111111111".
Definition w_endpoint : ResourceID := "22222222-2222-4222-8222-222222222222".
Definition w_owner : ResourceID := "33333333-3333-4333-8333-333333333333".
Definition w_next : ResourceID := "44444444-4444-4444-8444-444444444444".
Definition w_operation : ResourceID := "55555555-5555-4555-8555-555555555555".
Definition w_fresh : ResourceID := "66666666-6666-4666-8666-666666666666".
Definition w_now : Time := 1000 * Second.

(** The first, stable grant; the handoff to a transition; the transition. *)
Definition w_stable : LeaseRequest :=
  mkLeaseRequest w_cluster w_endpoint w_endpoint w_owner "" (20 * Second) false.
Definition w_handoff : LeaseRequest :=
  mkLeaseRequest w_cluster w_endpoint w_operation w_next w_owner (20 * Second) false.
Definition w_s0 : leases := ∅.
Definition w_s1 : leases := (Acquire true w_now w_fresh w_stable w_s0).1.
Definition w_s2 : leases := (Acquire true w_now w_next w_handoff w_s1).1.
Definition w_transition : Lease :=
  mkLease w_fresh w_cluster w_endpoint w_operation w_next w_owner (Add w_now (20 * Second)) true.

Lemma w_inv0 : lease_inv (w_now, w_s0).
Proof. split; intros ? ? ? *; cbn in *; by rewrite ?lookup_empty in *. Qed.
Lemma w_steps : rtc lease_step (w_now, w_s0) (w_now, w_s2).
Proof.
  eapply rtc_l; [by apply (step_acquire true w_now w_fresh w_stable)|].
  eapply rtc_l; [apply (step_acquire true w_now w_next w_handoff)|apply rtc_refl].
  by vm_compute.
Qed.
Lemma w_inv1 : lease_inv (w_now, w_s1).
Proof.
  eapply lease_step_inv; [|apply w_inv0]. by apply (step_acquire true w_now w_fresh w_stable).
Qed.
Lemma w_inv2 : lease_inv (w_now, w_s2).
Proof. eapply lease_steps_inv; [apply w_steps|apply w_inv0]. Qed.
Lemma w_held1 : held w_now w_s1 (w_cluster, w_endpoint)
  (Some (granted w_now w_fresh w_stable)).
Proof.
  exists w_fresh, (mkLeaseRecord (granted w_now w_fresh w_stable) w_now w_now).
  split_and!; by vm_compute.
Qed.

Definition w_later : Time := w_now + 15 * Second.
Definition w_s3 : leases := (AcquireStableBatch true w_later [(w_next, w_stable)] w_s1).1.
Definition w_s4 : leases := (FinalizeTransition true w_now w_transition (10 * Second) w_s2).1.
Lemma w_acquire2 : Acquire true w_now w_next w_handoff w_s1 = (w_s2, Ok w_transition).
Proof. apply pair_fst. by vm_compute. Qed.
Lemma w_batch : AcquireStableBatch true w_later [(w_next, w_stable)] w_s1 = (w_s3, []).
Proof. apply pair_fst. by vm_compute. Qed.
Lemma w_finalize : FinalizeTransition true w_now w_transition (10 * Second) w_s2 =
  (w_s4, Ok (finalized w_now (10 * Second) w_transition)).
Proof. apply pair_fst. by vm_compute. Qed.
Lemma w_fresh2 : w_s1 !! w_next = None.
Proof. by vm_compute. Qed.
Lemma w_fresh3 : fresh_ids w_s1 [w_next].
Proof. split; [by apply NoDup_singleton|]. intros id ->%list_elem_of_singleton. by split; [vm_compute|apply w_fresh2]. Qed.
Lemma w_held3 : held w_later w_s1 (w_cluster, w_endpoint) (Some (granted w_now w_fresh w_stable)).
Proof.
  exists w_fresh, (mkLeaseRecord (granted w_now w_fresh w_stable) w_now w_now).
  split_and!; by vm_compute.
Qed.

Lemma one_live_lease_per_endpoint_witness :
  Current true w_now w_cluster w_endpoint w_s2 ≠ Err ErrMultipleLeases.
Proof.
  exact (proj1 (proj2 (one_live_lease_per_endpoint w_now w_s0 w_now w_s2 (proj1 w_inv0) (proj2 w_inv0)
    w_steps) w_cluster w_endpoint)).
Defined.

Lemma Acquire_refines_witness :
  Acquire true w_now w_next w_handoff w_s1 = (w_s2, Ok w_transition) ∧
  held w_now w_s2 (w_cluster, w_endpoint) (Some w_transition).
Proof.
  split; [exact w_acquire2|].
  pose proof (Acquire_refines w_now w_next w_handoff w_s1 w_s2 (Ok w_transition)
    (Some (granted w_now w_fresh w_stable)) (proj1 w_inv1) (proj2 w_inv1) w_fresh2 eq_refl w_held1
    w_acquire2) as (_ & _ & _ & H).
  replace (acquire_spec w_now w_next (w_handoff <| req_TTL ::= capTTL |>) _)
    with (Ok (E := lease_error unit) w_transition) in H by by vm_compute.
  apply H.
Defined.

Lemma Acquire_never_steals_witness :
  Acquire true w_now w_next w_handoff w_s1 = (w_s2, Ok w_transition) ∧
  w_now < lease_ExpiresAt w_transition ≤ w_now + maxLeaseTTL.
Proof.
  split; [exact w_acquire2|].
  apply (Acquire_never_steals w_now w_next w_handoff w_s1 w_s2 w_transition (proj1 w_inv1)
    (proj2 w_inv1) w_fresh2 w_acquire2).
Defined.

Lemma AcquireStableBatch_isolates_witness :
  AcquireStableBatch true w_later [(w_next, w_stable)] w_s1 = (w_s3, []) ∧
  held w_later w_s3 (w_cluster, w_endpoint) (Some (granted w_later w_fresh w_stable)).
Proof.
  split; [exact w_batch|].
  pose proof (AcquireStableBatch_isolates w_later [(w_next, w_stable)] w_s1 w_s3 []
    (proj1 w_inv1) (unique_live_later w_now w_later w_s1 ltac:(by vm_compute) (proj2 w_inv1)) w_fresh3 w_batch
    (λ e, not_elem_of_nil _) (w_cluster, w_endpoint) _ ltac:(by split) w_held3) as H.
  replace (first_request (w_cluster, w_endpoint) [(w_next, w_stable)]) with (Some (w_next, w_stable))
    in H by by vm_compute.
  replace (stable_spec w_later w_next w_stable _)
    with (Some (granted w_later w_fresh w_stable)) in H by by vm_compute.
  apply H.
Defined.

Lemma transition_ends_stable_witness :
  FinalizeTransition true w_now w_transition (10 * Second) w_s2 =
    (w_s4, Ok (finalized w_now (10 * Second) w_transition)) ∧
  held w_now w_s4 (w_cluster, w_endpoint) (Some (finalized w_now (10 * Second) w_transition)).
Proof.
  split; [exact w_finalize|].
  destruct (transition_ends_stable true w_now w_transition (10 * Second) w_s2 w_s4
    (Ok (finalized w_now (10 * Second) w_transition)) (proj1 w_inv2) (proj2 w_inv2) w_finalize)
    as (c & _ & _ & _ & _ & _ & Hh & _). exact Hh.
Defined.
End witnesses.
