(* ===== verification/Locks.v ===== *)
(** * internal/coordination: cluster operation locks

    [src/internal/coordination/operation_lock.go].  A lock is a record per
    cluster in an [OperationLockRecordStore], given here as a class of
    operations with laws, as for leases.  [acquire] and the release function it
    returns are one atomic step each; the renewal goroutine is a sequence of
    ticks [renew_tick], each of which keeps the lock or loses it. *)
From S2P Require Import Prelude GoStd Model.

(** [coordination.OperationLockRecord]. *)
Record OperationLockRecord : Type := mkLock {
  lock_ResourceID : ResourceID; lock_ClusterID : ResourceID; lock_OperationID : ResourceID;
  lock_ExpiresAt : Time; lock_CreatedAt : Time; lock_UpdatedAt : Time
}.
#[export] Instance eta_OperationLockRecord : Settable OperationLockRecord := λ r,
  mkLock (lock_ResourceID r) (lock_ClusterID r) (lock_OperationID r) (lock_ExpiresAt r)
  (lock_CreatedAt r) (lock_UpdatedAt r).

Class OperationLockRecordStore (S E : Type) := {
  CoordinationOperationLocks : S → list OperationLockRecord;
  PutCoordinationOperationLock : OperationLockRecord → S → S * result E unit;
  DeleteCoordinationOperationLock : ResourceID → S → S * result E unit
}.

Inductive lock_error (E : Type) : Type :=
| ErrLockOperationID         (* [Acquire] without a durable operation ID *)
| ErrLockScope               (* malformed cluster or operation ID *)
| ErrLockUnauthorized        (* no mutation authority *)
| ErrOperationLockConflict   (* the cluster is locked *)
| ErrLockStore (e : E).
Arguments ErrLockOperationID {E}.
Arguments ErrLockScope {E}.
Arguments ErrLockUnauthorized {E}.
Arguments ErrOperationLockConflict {E}.
Arguments ErrLockStore {E} e.

(** Why a renewal lost the lock: [operationLockLeaseLostError]. *)
Inductive lock_lost (E : Type) : Type :=
| LostAuthority
| LostRecord
| LostStore (e : E).
Arguments LostAuthority {E}.
Arguments LostRecord {E}.
Arguments LostStore {E} e.

(** [NewOperationLocks]: the effective TTL. *)
Definition lockTTL (ttl : Duration) : Duration := if ttl <=? 0 then 15 * Minute else ttl.

(** The renewal interval [renew] computes from the TTL. *)
Definition renewInterval (ttl : Duration) : Duration :=
  let interval := ttl `quot` 3 in
  let interval := if interval <? 10 * Millisecond then 10 * Millisecond else interval in
  if ttl <=? interval then ttl `quot` 2 else interval.

Section operations.
Context {S E : Type} `{!OperationLockRecordStore S E}.

(** The loop of [acquire]: expired records are deleted, an unexpired one of the
    cluster is a conflict. *)
Fixpoint lock_scan (now : Time) (clusterID : ResourceID) (records : list OperationLockRecord) (s : S)
  : S * result (lock_error E) unit :=
  match records with
  | [] => (s, Ok tt)
  | record :: records =>
      if negb (After (lock_ExpiresAt record) now) then
        match DeleteCoordinationOperationLock (lock_ResourceID record) s with
        | (s, Ok _) => lock_scan now clusterID records s
        | (s, Err e) => (s, Err (ErrLockStore e))
        end
      else if lock_ClusterID record == clusterID then (s, Err ErrOperationLockConflict)
      else lock_scan now clusterID records s
  end.

Definition acquire (ttl : Duration) (authorized : bool) (now : Time) (fresh : ResourceID)
    (clusterID operationID : ResourceID) (s : S) : S * result (lock_error E) OperationLockRecord :=
  if negb (ValidResourceID clusterID) || negb (ValidResourceID operationID) then (s, Err ErrLockScope)
  else if negb authorized then (s, Err ErrLockUnauthorized)
  else match lock_scan now clusterID (CoordinationOperationLocks s) s with
  | (s, Err e) => (s, Err e)
  | (s, Ok _) =>
      let record := mkLock fresh clusterID operationID (Add now ttl) now now in
      match PutCoordinationOperationLock record s with
      | (s, Ok _) => (s, Ok record)
      | (s, Err e) => (s, Err (ErrLockStore e))
      end
  end.

Definition Acquire (ttl : Duration) (authorized : bool) (now : Time) (fresh : ResourceID)
    (operation : Operation) (s : S) : S * result (lock_error E) OperationLockRecord :=
  if negb (ValidResourceID (opn_ResourceID operation)) then (s, Err ErrLockOperationID)
  else acquire ttl authorized now fresh (opn_ClusterID operation) (opn_ResourceID operation) s.

(** [AcquireCluster] locks for a new operation ID. *)
Definition AcquireCluster (ttl : Duration) (authorized : bool) (now : Time)
    (fresh operationID : ResourceID) (clusterID : ResourceID) (s : S)
  : S * result (lock_error E) OperationLockRecord :=
  acquire ttl authorized now fresh clusterID operationID s.

(** The function [acquire] returns to release the lock, first call. *)
Definition release (record : OperationLockRecord) (s : S) : S :=
  (DeleteCoordinationOperationLock (lock_ResourceID record) s).1.

Definition still_stored (record current : OperationLockRecord) : bool :=
  (lock_ResourceID current == lock_ResourceID record) &&
  (lock_ClusterID current == lock_ClusterID record) &&
  (lock_OperationID current == lock_OperationID record).

(** One tick of the renewal loop. *)
Definition renew_tick (ttl : Duration) (authorized : bool) (now : Time)
    (record : OperationLockRecord) (s : S) : S * result (lock_lost E) OperationLockRecord :=
  if negb authorized then (s, Err LostAuthority)
  else if negb (existsb (still_stored record) (CoordinationOperationLocks s)) then (s, Err LostRecord)
  else
    let record := record <| lock_ExpiresAt := Add now ttl |> <| lock_UpdatedAt := now |> in
    match PutCoordinationOperationLock record s with
    | (s, Ok _) => (s, Ok record)
    | (s, Err e) => (s, Err (LostStore e))
    end.
End operations.

(** ** The contract of a record store *)

Notation locks := (gmap ResourceID OperationLockRecord) (only parsing).

Definition lock_mutates {S E} (view : S → locks) (f : locks → locks) (s s' : S) (r : result E unit)
  : Prop :=
  match r with
  | Ok _ => view s' = f (view s)
  | Err _ => view s' = view s ∨ view s' = f (view s)
  end.

Class OperationLockLaws (S E : Type) `{!OperationLockRecordStore S E} := {
  lock_store_ok : S → Prop;
  lock_view : S → locks;
  locks_listed s : lock_store_ok s →
    CoordinationOperationLocks s ≡ₚ (map_to_list (lock_view s)).*2;
  locks_keyed s id r : lock_store_ok s → lock_view s !! id = Some r → lock_ResourceID r = id;
  lock_put_law r s s' res : lock_store_ok s → PutCoordinationOperationLock r s = (s', res) →
    lock_store_ok s' ∧ lock_mutates lock_view <[lock_ResourceID r := r]> s s' res;
  lock_delete_law id s s' res : lock_store_ok s → DeleteCoordinationOperationLock id s = (s', res) →
    lock_store_ok s' ∧ lock_mutates lock_view (delete id) s s' res
}.

(** At most one record per cluster, whatever the clock says. *)
Definition one_lock_per_cluster (m : locks) : Prop :=
  ∀ i j r1 r2, m !! i = Some r1 → m !! j = Some r2 → lock_ClusterID r1 = lock_ClusterID r2 → i = j.

Section theory.
Context {S E : Type} `{!OperationLockRecordStore S E, !OperationLockLaws S E}.
Implicit Types (s : S).

Lemma lock_listed s r : lock_store_ok s →
  r ∈ CoordinationOperationLocks s ↔ lock_view s !! lock_ResourceID r = Some r.
Proof.
  intros Hok. rewrite (locks_listed s Hok), list_elem_of_fmap. split.
  - intros ([id r'] & -> & Hin). apply elem_of_map_to_list in Hin. cbn.
    by rewrite (locks_keyed s id r' Hok Hin).
  - intros Hr. exists (lock_ResourceID r, r). split; [done|]. by apply elem_of_map_to_list.
Qed.

Lemma one_lock_sub (m m' : locks) : m' ⊆ m → one_lock_per_cluster m → one_lock_per_cluster m'.
Proof. intros Hs H i j r1 r2 Hi Hj. apply (H i j r1 r2); by eapply lookup_weaken. Qed.

(** The scan only ever deletes; when it succeeds no record of the cluster is
    left among those it visited. *)
Lemma lock_scan_spec now c rs s s' res :
  lock_store_ok s → (∀ r, r ∈ rs → ∀ r', lock_view s !! lock_ResourceID r = Some r' → r' = r) →
  lock_scan now c rs s = (s', res) →
  lock_store_ok s' ∧ lock_view s' ⊆ lock_view s ∧
  (res = Ok tt → ∀ r, r ∈ rs → lock_ClusterID r = c → lock_view s' !! lock_ResourceID r = None) ∧
  (∀ r id, lock_view s !! id = Some r → (∀ x, x ∈ rs → lock_ResourceID x = id → now < lock_ExpiresAt x) →
     lock_view s' !! id = Some r).
Proof.
  revert s. induction rs as [|r rs IH]; intros s Hok Hin Hscan; cbn in Hscan.
  { simplify_eq. split_and!; try done. intros _ r Hr. by apply elem_of_nil in Hr. }
  destruct (After (lock_ExpiresAt r) now) eqn:Hexp; cbn in Hscan.
  - destruct (bool_decide_reflect (lock_ClusterID r = c)) as [Hc|Hc].
    { simplify_eq. by split_and!. }
    apply IH in Hscan as (Hok' & Hsub & Hres & Hlive); [|done|set_solver].
    split_and!; try done.
    + intros -> x [->|Hx]%elem_of_cons; [done|]. by apply Hres.
    + intros x id Hx Hl. apply Hlive; [done|]. intros y Hy. apply Hl. set_solver.
  - destruct (DeleteCoordinationOperationLock (lock_ResourceID r) s) as [s1 [[]|e]] eqn:Hd;
      apply (lock_delete_law _ _ _ _ Hok) in Hd as [Hok1 Hd]; cbn in Hd.
    2: { simplify_eq. assert (lock_view s' ⊆ lock_view s) as Hsub.
         { destruct Hd as [-> | ->]; [done|apply delete_subseteq]. }
         split_and!; try done. intros x id Hx Hl. destruct Hd as [-> | ->]; [done|].
         rewrite lookup_delete_ne; [done|]. intros Heq. specialize (Hl r).
         rewrite elem_of_cons in Hl. specialize (Hl (or_introl eq_refl) Heq). time_lia. }
    apply IH in Hscan as (Hok' & Hsub & Hres & Hlive); [|done|].
    2: { intros x Hx r'. rewrite Hd, lookup_delete_Some. intros [_ ?]. eapply Hin; set_solver. }
    rewrite Hd in Hsub, Hlive. split_and!; try done.
    + trans (delete (lock_ResourceID r) (lock_view s)); [done|apply delete_subseteq].
    + intros -> x [->|Hx]%elem_of_cons Hc; [|by apply Hres].
      apply eq_None_not_Some. intros [y Hy]. apply (lookup_weaken _ _ _ _ Hy) in Hsub.
      by rewrite lookup_delete_eq in Hsub.
    + intros x id Hx Hl. apply Hlive; [|intros y Hy; apply Hl; set_solver].
      rewrite lookup_delete_ne; [done|]. intros Heq. specialize (Hl r).
      rewrite elem_of_cons in Hl. specialize (Hl (or_introl eq_refl) Heq). time_lia.
Qed.

(** What a call of [acquire] may do to the records. *)
Definition lock_outcome (ttl : Duration) (now : Time) (fresh c op : ResourceID) (s s' : S)
    (res : result (lock_error E) OperationLockRecord) : Prop :=
  lock_store_ok s' ∧
  match res with
  | Ok r => r = mkLock fresh c op (Add now ttl) now now ∧ ∃ m, m ⊆ lock_view s ∧
      lock_view s' = <[fresh := r]> m ∧ (∀ id x, m !! id = Some x → lock_ClusterID x ≠ c) ∧
      (∀ id x, lock_view s !! id = Some x → now < lock_ExpiresAt x → lock_ClusterID x ≠ c ∧ m !! id = Some x)
  | Err e => ∃ m, m ⊆ lock_view s ∧
      (∀ id x, lock_view s !! id = Some x → now < lock_ExpiresAt x → m !! id = Some x) ∧
      (lock_view s' = m ∨
       (∀ id x, m !! id = Some x → lock_ClusterID x ≠ c) ∧
       lock_view s' = <[fresh := mkLock fresh c op (Add now ttl) now now]> m)
  end.

Lemma acquire_spec ttl now fresh c op s s' res :
  lock_store_ok s → acquire ttl true now fresh c op s = (s', res) →
  lock_outcome ttl now fresh c op s s' res.
Proof.
  intros Hok. unfold acquire. destruct (negb _ || negb _).
  { intros [= <- <-]. split; [done|]. exists (lock_view s). auto. }
  cbn [negb]. destruct (lock_scan now c (CoordinationOperationLocks s) s) as [s1 r1] eqn:Hscan.
  apply lock_scan_spec in Hscan as (Hok1 & Hsub & Hres & Hlive); [|done|].
  2: { intros r Hr r' Hr'. apply lock_listed in Hr; [|done]. congruence. }
  assert (∀ id x, lock_view s !! id = Some x → now < lock_ExpiresAt x → lock_view s1 !! id = Some x)
    as Hkeep.
  { intros id x Hx Hl. apply Hlive; [done|]. intros y Hy <-. apply lock_listed in Hy; [|done].
    congruence. }
  destruct r1 as [[]|e]; [|intros [= <- <-]; split; [done|]; exists (lock_view s1); auto].
  assert (∀ id x, lock_view s1 !! id = Some x → lock_ClusterID x ≠ c) as Hnone.
  { intros id x Hx Hc. pose proof (locks_keyed s1 id x Hok1 Hx) as <-.
    rewrite (Hres eq_refl x) in Hx; [done| |done]. apply lock_listed; [done|].
    by eapply lookup_weaken. }
  set (r := mkLock _ _ _ _ _ _). destruct (PutCoordinationOperationLock r s1) as [s2 [[]|e]] eqn:Hp;
    apply (lock_put_law _ _ _ _ Hok1) in Hp as [Hok2 Hp]; cbn in Hp; intros [= <- <-]; (split; [done|]).
  - split; [done|]. exists (lock_view s1). split_and!; try done. intros id x Hx Hl.
    specialize (Hkeep id x Hx Hl). eauto.
  - exists (lock_view s1). split_and!; try done. destruct Hp as [-> | ->]; auto.
Qed.

Lemma one_lock_insert (m : locks) r id :
  one_lock_per_cluster m → (∀ j x, m !! j = Some x → lock_ClusterID x = lock_ClusterID r → j = id) →
  one_lock_per_cluster (<[id := r]> m).
Proof.
  intros Hm Hr i j r1 r2. rewrite !lookup_insert_Some.
  intros [[<- <-]|[? Hi]] [[<- <-]|[? Hj]] Heq; [done| | |by eapply Hm].
  - symmetry. by apply (Hr j r2).
  - by apply (Hr i r1).
Qed.

Lemma acquire_one_lock ttl now fresh c op s s' res :
  one_lock_per_cluster (lock_view s) → lock_outcome ttl now fresh c op s s' res →
  one_lock_per_cluster (lock_view s').
Proof.
  intros Hu (_ & H). destruct res as [r|e].
  - destruct H as (-> & m & Hsub & -> & Hnone & _).
    apply one_lock_insert; [by eapply one_lock_sub|]. intros j x Hx Hc. by edestruct Hnone.
  - destruct H as (m & Hsub & _ & [-> | [Hnone ->]]); [by eapply one_lock_sub|].
    apply one_lock_insert; [by eapply one_lock_sub|]. intros j x Hx Hc. by edestruct Hnone.
Qed.

Definition renewed_lock (ttl : Duration) (now : Time) (record : OperationLockRecord) :=
  record <| lock_ExpiresAt := Add now ttl |> <| lock_UpdatedAt := now |>.

(** The record a renewal is for is still stored. *)
Definition lock_stored (record : OperationLockRecord) (m : locks) : Prop :=
  ∃ x, m !! lock_ResourceID record = Some x ∧ lock_ClusterID x = lock_ClusterID record ∧
       lock_OperationID x = lock_OperationID record.

Lemma renew_tick_spec ttl auth now record s s' res :
  lock_store_ok s → renew_tick ttl auth now record s = (s', res) →
  let view' := <[lock_ResourceID record := renewed_lock ttl now record]> (lock_view s) in
  lock_store_ok s' ∧
  match res with
  | Ok r => r = renewed_lock ttl now record ∧ lock_stored record (lock_view s) ∧ lock_view s' = view'
  | Err (LostStore _) => lock_stored record (lock_view s) ∧
      (lock_view s' = lock_view s ∨ lock_view s' = view')
  | Err _ => s' = s
  end.
Proof.
  intros Hok. unfold renew_tick. destruct auth; cbn [negb].
  2: { intros [= <- <-]. done. }
  destruct (existsb _ _) eqn:Hex; cbn [negb].
  2: { intros [= <- <-]. done. }
  apply existsb_exists in Hex as (x & Hx & Hst). apply list_elem_of_In, lock_listed in Hx; [|done].
  unfold still_stored in Hst. bsimpl.
  assert (lock_stored record (lock_view s)) by (exists x; split_and!; congruence).
  destruct (PutCoordinationOperationLock _ s) as [s1 [[]|e]] eqn:Hp;
    apply (lock_put_law _ _ _ _ Hok) in Hp as [Hok1 Hp]; cbn in Hp; intros [= <- <-]; done.
Qed.

(** ** The locks as a transition system

    Each step reads the clock afresh; readings need not be ordered. *)
Inductive lock_step : S → S → Prop :=
| lstep_acquire ttl auth now fresh c op s :
    lock_step s (acquire ttl auth now fresh c op s).1
| lstep_renew ttl auth now record s :
    lock_step s (renew_tick ttl auth now record s).1
| lstep_release record s : lock_step s (release record s)
| lstep_other s s' : lock_store_ok s' → lock_view s' = lock_view s → lock_step s s'.

Definition lock_inv s : Prop := lock_store_ok s ∧ one_lock_per_cluster (lock_view s).

Lemma renew_one_lock ttl now record (m : locks) :
  one_lock_per_cluster m → lock_stored record m →
  one_lock_per_cluster (<[lock_ResourceID record := renewed_lock ttl now record]> m).
Proof.
  intros Hu (x & Hx & Hc & _). apply one_lock_insert; [done|]. intros j y Hy Hcy.
  eapply (Hu j _ y x); eauto. rewrite Hc. exact Hcy.
Qed.

Lemma lock_step_inv s s' : lock_step s s' → lock_inv s → lock_inv s'.
Proof.
  intros Hstep [Hok Hu]. destruct Hstep as [ttl auth now fresh c op s|ttl auth now rec s|rec s|s s' Hok' Hv].
  - destruct auth.
    + destruct (acquire ttl true now fresh c op s) as [s' res] eqn:Ha.
      apply acquire_spec in Ha; [|done]. split; [apply Ha|]. by eapply acquire_one_lock.
    + unfold acquire. by destruct (_ || _).
  - destruct (renew_tick ttl auth now rec s) as [s' res] eqn:Hr.
    apply renew_tick_spec in Hr as (Hok' & Hres); [|done]. split; [done|]. cbn.
    destruct res as [r|[]]; [|by rewrite Hres..|].
    + destruct Hres as (_ & ? & ->). by apply renew_one_lock.
    + destruct Hres as (? & [-> | ->]); [done|]. by apply renew_one_lock.
  - unfold release. destruct (DeleteCoordinationOperationLock _ s) as [s1 r] eqn:Hd.
    apply (lock_delete_law _ _ _ _ Hok) in Hd as [Hok' Hd]. split; [done|]. cbn.
    assert (one_lock_per_cluster (delete (lock_ResourceID rec) (lock_view s))).
    { eapply one_lock_sub; [apply delete_subseteq|done]. }
    destruct r; cbn in Hd; [by rewrite Hd|by destruct Hd as [-> | ->]].
  - split; [done|]. by rewrite Hv.
Qed.
Lemma lock_steps_inv s s' : rtc lock_step s s' → lock_inv s → lock_inv s'.
Proof. induction 1; eauto using lock_step_inv. Qed.
End theory.

(** ** Properties *)

(** C8: Mutual exclusion of cluster operations: from any state with at most one
    lock record per cluster, no sequence of acquisitions, renewals and releases
    (with any clock readings, store failures included) reaches two records for
    one cluster, and an acquisition that succeeds there found no unexpired lock
    of the cluster, stores the cluster's only record and leaves every other
    cluster's unexpired lock in place. *)
Theorem operation_locks_exclusive {S E} `{!OperationLockRecordStore S E, !OperationLockLaws S E}
    (s0 s : S) ttl now fresh c op s' r :
  lock_store_ok s0 → one_lock_per_cluster (lock_view s0) → rtc lock_step s0 s →
  one_lock_per_cluster (lock_view s) ∧
  (acquire ttl true now fresh c op s = (s', Ok r) →
     one_lock_per_cluster (lock_view s') ∧ lock_view s' !! fresh = Some r ∧
     lock_ClusterID r = c ∧ lock_OperationID r = op ∧ lock_ExpiresAt r = now + ttl ∧
     ∀ id x, lock_view s !! id = Some x → now < lock_ExpiresAt x →
       lock_ClusterID x ≠ c ∧ (id ≠ fresh → lock_view s' !! id = Some x)).
Proof.
  intros Hok0 Hu0 Hsteps. destruct (lock_steps_inv s0 s Hsteps) as [Hok Hu]; [done|].
  split; [done|]. intros Ha%acquire_spec; [|done]. split; [by eapply acquire_one_lock|].
  destruct Ha as (_ & -> & m & Hsub & -> & Hnone & Hlive). rewrite lookup_insert_eq.
  split_and!; try done. intros id x Hx Hl. destruct (Hlive id x Hx Hl). split; [done|].
  intros. by rewrite lookup_insert_ne.
Qed.

(** A held lock keeps others out: while a cluster has an unexpired lock
    record, [acquire] for that cluster never succeeds and never removes it. *)
Theorem operation_lock_blocks {S E} `{!OperationLockRecordStore S E, !OperationLockLaws S E}
    (s : S) ttl now fresh c op s' res id x :
  lock_store_ok s → lock_view s !! id = Some x → lock_ClusterID x = c → now < lock_ExpiresAt x →
  acquire ttl true now fresh c op s = (s', res) →
  (∃ e, res = Err e) ∧ lock_view s' !! id = Some x.
Proof.
  intros Hok Hx Hc Hl Ha%acquire_spec; [|done]. destruct Ha as (_ & H). destruct res as [r|e].
  - destruct H as (_ & m & _ & _ & _ & Hlive). by destruct (Hlive id x Hx Hl).
  - split; [by exists e|]. destruct H as (m & _ & Hkeep & [-> | [Hnone _]]); [by apply Hkeep|].
    exfalso. by eapply Hnone; [apply (Hkeep id x)|].
Qed.

(** Renewal never resurrects a lock: a tick writes only when the record is
    still stored for the same cluster and operation, the record it writes
    expires one TTL after the tick, and when authority or the record is gone
    the lock is reported lost and nothing is written; the loop ticks before
    the lock it renews can expire. *)
Theorem renewal_keeps_or_loses {S E} `{!OperationLockRecordStore S E, !OperationLockLaws S E}
    ttl auth now record (s s' : S) res :
  lock_store_ok s → 0 < ttl → renew_tick ttl auth now record s = (s', res) →
  0 ≤ renewInterval ttl < ttl ∧
  match res with
  | Ok r => lock_stored record (lock_view s) ∧
            lock_view s' !! lock_ResourceID record = Some r ∧ lock_ExpiresAt r = now + ttl ∧
            lock_ClusterID r = lock_ClusterID record ∧ lock_OperationID r = lock_OperationID record
  | Err (LostStore _) => lock_stored record (lock_view s)
  | Err _ => s' = s
  end.
Proof.
  intros Hok Httl Hr. split.
  { unfold renewInterval, Millisecond. repeat case_match; bsimpl; Z.to_euclidean_division_equations; lia. }
  apply renew_tick_spec in Hr as (_ & Hres); [|done]. destruct res as [r|[]]; try done.
  - destruct Hres as (-> & ? & ->). by rewrite lookup_insert_eq.
  - by destruct Hres.
Qed.

(** ** A store in memory, and concrete instances *)

Module MapLocks.
#[local] Instance map_locks : OperationLockRecordStore locks unit := {
  CoordinationOperationLocks m := (map_to_list m).*2;
  PutCoordinationOperationLock r m := (<[lock_ResourceID r := r]> m, Ok tt);
  DeleteCoordinationOperationLock id m := (delete id m, Ok tt)
}.
#[local] Program Instance map_locks_laws : OperationLockLaws locks unit := {
  lock_store_ok m := ∀ id r, m !! id = Some r → lock_ResourceID r = id; lock_view := id
}.
Next Obligation. done. Qed.
Next Obligation. auto. Qed.
Next Obligation.
  intros r s s' res Hok. intros [= <- <-]. split; [|done].
  intros id r'. rewrite lookup_insert_Some. intros [[<- <-]|[_ ?]]; [done|by apply Hok].
Qed.
Next Obligation.
  intros id s s' res Hok. intros [= <- <-]. split; [|done].
  intros j r. rewrite lookup_delete_Some. intros [_ ?]. by apply Hok.
Qed.
End MapLocks.

Section witnesses.
#[local] Existing Instances MapLocks.map_locks MapLocks.map_locks_laws.

Definition wl_cluster : ResourceID := "11111111-1111-4111-8111-111111111111".
Definition wl_operation : ResourceID := "22222222-2222-4222-8222-222222222222".
Definition wl_lock : ResourceID := "33333333-3333-4333-8333-333333333333".
Definition wl_other : ResourceID := "44444444-4444-4444-8444-444444444444".
Definition wl_ttl : Duration := lockTTL 0.
Definition wl_now : Time := 5000 * Second.
Definition wl_record : OperationLockRecord :=
  mkLock wl_lock wl_cluster wl_operation (wl_now + wl_ttl) wl_now wl_now.
Definition wl_s1 : locks := (acquire wl_ttl true wl_now wl_lock wl_cluster wl_operation ∅).1.

Lemma wl_acquire : acquire wl_ttl true wl_now wl_lock wl_cluster wl_operation ∅ = (wl_s1, Ok wl_record).
Proof. apply pair_fst. by vm_compute. Qed.
Lemma wl_inv0 : lock_inv (∅ : locks).
Proof. split; intros ? ? *; cbn in *; by rewrite ?lookup_empty in *. Qed.
Lemma wl_inv1 : lock_inv wl_s1.
Proof. eapply lock_step_inv; [apply lstep_acquire|apply wl_inv0]. Qed.
Lemma wl_stored : lock_view wl_s1 !! wl_lock = Some wl_record.
Proof. by vm_compute. Qed.

Lemma operation_locks_exclusive_witness :
  acquire wl_ttl true wl_now wl_lock wl_cluster wl_operation ∅ = (wl_s1, Ok wl_record) ∧
  one_lock_per_cluster wl_s1.
Proof.
  split; [exact wl_acquire|].
  exact (proj1 (proj2 (operation_locks_exclusive ∅ ∅ wl_ttl wl_now wl_lock wl_cluster wl_operation
    wl_s1 wl_record (proj1 wl_inv0) (proj2 wl_inv0) (rtc_refl _ _)) wl_acquire)).
Defined.

Lemma operation_lock_blocks_witness :
  (acquire wl_ttl true (wl_now + Minute) wl_other wl_cluster wl_other wl_s1).2 =
    Err ErrOperationLockConflict ∧
  lock_view (acquire wl_ttl true (wl_now + Minute) wl_other wl_cluster wl_other wl_s1).1 !! wl_lock =
    Some wl_record.
Proof.
  split; [by vm_compute|].
  apply (operation_lock_blocks wl_s1 wl_ttl (wl_now + Minute) wl_other wl_cluster wl_other
    _ (Err ErrOperationLockConflict) wl_lock wl_record (proj1 wl_inv1) wl_stored eq_refl).
  - by vm_compute.
  - apply pair_fst. by vm_compute.
Defined.

Lemma renewal_keeps_or_loses_witness :
  lock_view (renew_tick wl_ttl true (wl_now + Minute) wl_record wl_s1).1 !! wl_lock =
  Some (renewed_lock wl_ttl (wl_now + Minute) wl_record).
Proof.
  destruct (renewal_keeps_or_loses wl_ttl true (wl_now + Minute) wl_record wl_s1
    (renew_tick wl_ttl true (wl_now + Minute) wl_record wl_s1).1
    (Ok (renewed_lock wl_ttl (wl_now + Minute) wl_record)) (proj1 wl_inv1) ltac:(by vm_compute)
    ltac:(apply pair_fst; by vm_compute)) as (_ & _ & H & _). exact H.
Defined.
End witnesses.
