(* ===== verification/Repository.v ===== *)
(** * internal/store: the repository core

    The durable state every controller component shares
    ([src/internal/store/repository.go], [retention.go], [replication.go]) and
    the operations that keep coordination records, freezes and maintenance
    flags in it ([coordination.go], [recovery_freeze.go], [maintenance.go], the
    lease rules of [disaster.go]).

    - [snapshot] has the fields of the Go struct the modelled operations read
      or write; the others pass through every one of them unchanged.
    - A mutation builds the next snapshot and commits it.  Persistence and
      consensus are the environment: [repo_commits] is the list of outcomes the
      coming commits have (all applied when it runs out).  The rename that
      publishes a snapshot is the commit boundary, so an outcome is applied,
      applied but reported as an error, or rejected.
    - [repo_now] is what [repository.now()] returns.  The mutexes make each
      operation one atomic step; cloning protects callers from aliasing and has
      no effect on values. *)
From S2P Require Import Prelude GoStd Model Endpoint Lease Locks.

(** ** The snapshot *)

(** The fields of [store.ConfigurationTask] the other operations consult. *)
Record ConfigurationTask : Type := mkConfigurationTask {
  ctask_TaskID : string; ctask_Status : string; ctask_Active : bool
}.
Record SoftwareUpdateGate : Type := mkSoftwareUpdateGate {
  gate_PatchID : string; gate_ExecutionID : string; gate_AcquiredAt : Time; gate_UpdatedAt : Time
}.

Record snapshot : Type := mkSnapshot {
  sn_Clusters : gmap ResourceID DatabaseCluster;
  sn_Instances : gmap ResourceID DatabaseInstance;
  sn_Endpoints : gmap ResourceID (gmap ResourceID Endpoint);
  sn_HAEndpoints : gmap ResourceID HAEndpoint;
  sn_ApprovalGrants : gmap ResourceID ApprovalGrant;
  sn_CoordinationLeases : gmap ResourceID LeaseRecord;
  sn_OperationLocks : gmap ResourceID OperationLockRecord;
  sn_SoftwareUpdateGate : option SoftwareUpdateGate;
  sn_ReplicationLinks : gmap ResourceID (list ReplicationLink);
  sn_TopologySnapshots : gmap ResourceID TopologySnapshot;
  sn_ObservationWatermarks : gmap ResourceID Time;
  sn_InventoryGenerations : gmap ResourceID uint64;
  sn_Operations : gmap ResourceID OperationRecord;
  sn_OperationKeys : gmap string ResourceID;
  sn_PowerOperations : gmap ResourceID PowerOperation;
  sn_RecoveryTasks : gmap ResourceID RecoveryTask;
  sn_Audits : list AuditEvent;
  sn_Reports : list Report;
  sn_ConfigurationTasks : gmap string ConfigurationTask
}.
#[export] Instance eta_snapshot : Settable snapshot := λ s,
  mkSnapshot (sn_Clusters s) (sn_Instances s) (sn_Endpoints s) (sn_HAEndpoints s)
    (sn_ApprovalGrants s) (sn_CoordinationLeases s) (sn_OperationLocks s) (sn_SoftwareUpdateGate s)
    (sn_ReplicationLinks s) (sn_TopologySnapshots s) (sn_ObservationWatermarks s)
    (sn_InventoryGenerations s) (sn_Operations s) (sn_OperationKeys s) (sn_PowerOperations s)
    (sn_RecoveryTasks s) (sn_Audits s) (sn_Reports s) (sn_ConfigurationTasks s).
Definition emptySnapshot : snapshot :=
  mkSnapshot ∅ ∅ ∅ ∅ ∅ ∅ ∅ None ∅ ∅ ∅ ∅ ∅ ∅ ∅ ∅ [] [] ∅.

(** ** Bounded history *)

Definition maximumApprovalGrants : nat := 1024.
Definition maximumActiveOperations : nat := 128.
Definition maximumPlannedOperations : nat := 128.
Definition maximumTerminalOperations : nat := 512.
Definition maximumAuditEvents : nat := 1024.
Definition maximumReports : nat := 512.

Definition terminalOperationStatus (status : OperationStatus) : bool :=
  match status with
  | OperationBlocked | OperationSucceeded | OperationFailed | OperationIndeterminate
  | OperationUnsupported => true
  | _ => false
  end.
Definition activeOperationStatus (status : OperationStatus) : bool := status == OperationRunning.

Record retainedResource : Type := mkRetained { ret_resourceID : ResourceID; ret_updatedAt : Time }.
(** Newest first, ties by descending ID. *)
Definition retained_le (a b : retainedResource) : Prop :=
  (if Equal (ret_updatedAt a) (ret_updatedAt b)
   then String.leb (ret_resourceID b) (ret_resourceID a)
   else After (ret_updatedAt a) (ret_updatedAt b)) = true.
#[export] Instance retained_le_dec : RelDecision retained_le.
Proof. intros a b. unfold retained_le. apply _. Defined.

Definition newestResourceIDs (resources : list retainedResource) (limit : nat) : gset ResourceID :=
  list_to_set (ret_resourceID <$> take limit (merge_sort retained_le resources)).

(** The candidates of a map of records, and the records kept. *)
Definition retained_of {A} (updatedAt : A → Time) (m : gmap ResourceID A) : list retainedResource :=
  (λ e, mkRetained e.1 (updatedAt e.2)) <$> map_to_list m.
Definition keep_ids {A} (ids : gset ResourceID) (m : gmap ResourceID A) : gmap ResourceID A :=
  filter (λ e, e.1 ∈ ids) m.

Definition planned_operations (m : gmap ResourceID OperationRecord) : gmap ResourceID OperationRecord :=
  filter (λ e, rec_Status e.2 = OperationPlanned) m.
Definition terminal_operations (m : gmap ResourceID OperationRecord) : gmap ResourceID OperationRecord :=
  filter (λ e, rec_Status e.2 ≠ OperationPlanned ∧ terminalOperationStatus (rec_Status e.2) = true) m.
Definition other_operations (m : gmap ResourceID OperationRecord) : gmap ResourceID OperationRecord :=
  filter (λ e, rec_Status e.2 ≠ OperationPlanned ∧ terminalOperationStatus (rec_Status e.2) = false) m.

Definition compact_operations (m : gmap ResourceID OperationRecord) : gmap ResourceID OperationRecord :=
  keep_ids (newestResourceIDs (retained_of rec_UpdatedAt (terminal_operations m))
              maximumTerminalOperations) m ∪
  (keep_ids (newestResourceIDs (retained_of rec_UpdatedAt (planned_operations m))
               maximumPlannedOperations) m ∪ other_operations m).

(** The index is rebuilt from the old entries that still point at a record and
    from the records' own keys. *)
Definition compact_keys (keys : gmap string ResourceID) (kept : gmap ResourceID OperationRecord)
  : gmap string ResourceID :=
  map_fold (λ id op acc,
      let key := TrimSpace (rec_IdempotencyKey op) in
      if key != "" then <[key := id]> acc else acc)
    (filter (λ e, is_Some (kept !! e.2)) keys) kept.

Definition compact_grants (m : gmap ResourceID ApprovalGrant) : gmap ResourceID ApprovalGrant :=
  keep_ids (newestResourceIDs (retained_of grant_UpdatedAt m) maximumApprovalGrants) m.

(** The last [limit] elements of a log. *)
Definition compact_tail {A} (limit : nat) (l : list A) : list A := drop (length l - limit) l.

Definition compactSnapshotHistory (value : snapshot) : snapshot :=
  let operations := compact_operations (sn_Operations value) in
  value <| sn_ApprovalGrants ::= compact_grants |>
        <| sn_Operations := operations |>
        <| sn_OperationKeys ::= λ keys, compact_keys keys operations |>
        <| sn_Audits ::= compact_tail maximumAuditEvents |>
        <| sn_Reports ::= compact_tail maximumReports |>.

(** ** Commits *)

Inductive store_error : Type :=
| ErrValidation
| ErrConflict
| ErrNotFound
| ErrContext              (* the caller's context is done *)
| ErrCommitRejected       (* the snapshot was not published *)
| ErrPostCommitDurability (* published, but durability is not confirmed *)
| ErrPanic                (* a nil dereference *).
#[export] Instance store_error_eq_dec : EqDecision store_error.
Proof. solve_decision. Defined.

Inductive commit_outcome : Type :=
| CommitApplied
| CommitAppliedWarning
| CommitRejected.

Record Repository : Type := mkRepository {
  repo_snapshot : snapshot; repo_stateRevision : uint64; repo_now : Time;
  repo_commits : list commit_outcome
}.
#[export] Instance eta_Repository : Settable Repository := λ r,
  mkRepository (repo_snapshot r) (repo_stateRevision r) (repo_now r) (repo_commits r).

(** [commitSnapshotLocked]. *)
Definition commit (value : snapshot) (r : Repository) : Repository * result store_error unit :=
  let applied := r <| repo_snapshot := compactSnapshotHistory value |>
                   <| repo_stateRevision ::= λ n, u64 (n + 1) |>
                   <| repo_commits ::= λ cs, tail cs |> in
  match repo_commits r with
  | [] | CommitApplied :: _ => (applied, Ok tt)
  | CommitAppliedWarning :: _ => (applied, Err ErrPostCommitDurability)
  | CommitRejected :: _ => (r <| repo_commits ::= λ cs, tail cs |>, Err ErrCommitRejected)
  end.

(** ** Disaster-recovery lease rules *)

Definition recoveryLeaseValid (s : snapshot) (task : RecoveryTask) (now : Time) : bool :=
  match sn_OperationLocks s !! task_LeaseID task with
  | Some lock => (lock_ClusterID lock == task_ClusterID task) &&
                 (lock_OperationID lock == task_ResourceID task) && After (lock_ExpiresAt lock) now
  | None => false
  end.

(** While disaster recovery owns a cluster only the member it committed may
    hold a live, stable writer lease. *)
Definition recoveryWriterLeaseAllowed (s : snapshot) (record : LeaseRecord) (now : Time) : bool :=
  let lease := lr_Lease record in
  let cluster := default zero_DatabaseCluster (sn_Clusters s !! lease_ClusterID lease) in
  if negb (DisasterRecoveryActive cluster) || negb (lease_Active lease) ||
     negb (After (lease_ExpiresAt lease) now)
  then true
  else match cluster_Recovery cluster with
  | Some recovery =>
      match sn_RecoveryTasks s !! rstate_TaskID recovery with
      | Some task =>
          (task_Stage task == RecoveryCommitted) && negb (IsZero (task_CommittedAt task)) &&
          (rstate_LastRecoveryStatus recovery == "committed") &&
          (task_PrimaryID task == lease_OwnerID lease) &&
          (lease_OperationID lease == lease_HAEndpointID lease) && recoveryLeaseValid s task now
      | None => false
      end
  | None => false
  end.

(** ** Coordination leases *)

Definition entry_le {A} (a b : ResourceID * A) : Prop := id_le a.1 b.1.
#[export] Instance entry_le_dec {A} : RelDecision (entry_le (A := A)).
Proof. intros a b. unfold entry_le. apply _. Defined.

(** A map's records, sorted by resource ID. *)
Definition sorted_values {A} (m : gmap ResourceID A) : list A :=
  (merge_sort entry_le (map_to_list m)).*2.

Definition lease_record_valid (record : LeaseRecord) : bool :=
  let lease := lr_Lease record in
  ValidResourceID (lease_ResourceID lease) && ValidResourceID (lease_ClusterID lease) &&
  ValidResourceID (lease_HAEndpointID lease) && ValidResourceID (lease_OperationID lease) &&
  ValidResourceID (lease_OwnerID lease) && negb (IsZero (lease_ExpiresAt lease)).

Definition CoordinationLeases (r : Repository) : list LeaseRecord :=
  sorted_values (sn_CoordinationLeases (repo_snapshot r)).

Definition PutCoordinationLease (record : LeaseRecord) (r : Repository)
  : Repository * result store_error unit :=
  let s := repo_snapshot r in
  if negb (lease_record_valid record) then (r, Err ErrValidation)
  else if bool_decide (sn_Clusters s !! lease_ClusterID (lr_Lease record) = None)
  then (r, Err ErrNotFound)
  else if negb (recoveryWriterLeaseAllowed s record (repo_now r)) then (r, Err ErrConflict)
  else commit (s <| sn_CoordinationLeases ::= <[lr_id record := record]> |>) r.

Definition DeleteCoordinationLease (resourceID : ResourceID) (r : Repository)
  : Repository * result store_error unit :=
  let s := repo_snapshot r in
  if negb (ValidResourceID resourceID) then (r, Err ErrValidation)
  else if bool_decide (sn_CoordinationLeases s !! resourceID = None) then (r, Ok tt)
  else commit (s <| sn_CoordinationLeases ::= delete resourceID |>) r.

(** The first loop of [ReplaceCoordinationLeases]: validate and index the batch. *)
Definition index_batch (next : gmap ResourceID LeaseRecord) (record : LeaseRecord)
  : result store_error (gmap ResourceID LeaseRecord) :=
  if negb (lease_record_valid record) || IsZero (lr_CreatedAt record) || IsZero (lr_UpdatedAt record)
  then Err ErrValidation
  else if bool_decide (is_Some (next !! lr_id record)) then Err ErrValidation
  else Ok (<[lr_id record := record]> next).

Definition batch_lease_allowed (s : snapshot) (now : Time) (u : unit) (e : ResourceID * LeaseRecord)
  : result store_error unit :=
  if bool_decide (sn_Clusters s !! lease_ClusterID (lr_Lease e.2) = None) then Err ErrNotFound
  else if negb (recoveryWriterLeaseAllowed s e.2 now) then Err ErrConflict
  else Ok tt.

Definition ReplaceCoordinationLeases (records : list LeaseRecord) (r : Repository)
  : Repository * result store_error unit :=
  let s := repo_snapshot r in
  match for_each index_batch ∅ records with
  | Err e => (r, Err e)
  | Ok nextRecords =>
      match for_each (batch_lease_allowed s (repo_now r)) tt (map_to_list nextRecords) with
      | Err e => (r, Err e)
      | Ok _ => commit (s <| sn_CoordinationLeases := nextRecords |>) r
      end
  end.

(** ** Operation locks *)

Definition CoordinationOperationLocks (r : Repository) : list OperationLockRecord :=
  sorted_values (sn_OperationLocks (repo_snapshot r)).

Definition PutCoordinationOperationLock (record : OperationLockRecord) (r : Repository)
  : Repository * result store_error unit :=
  if negb (ValidResourceID (lock_ResourceID record)) || negb (ValidResourceID (lock_ClusterID record)) ||
     negb (ValidResourceID (lock_OperationID record)) || IsZero (lock_ExpiresAt record) ||
     IsZero (lock_CreatedAt record) || IsZero (lock_UpdatedAt record)
  then (r, Err ErrValidation)
  else commit ((repo_snapshot r) <| sn_OperationLocks ::= <[lock_ResourceID record := record]> |>) r.

Definition DeleteCoordinationOperationLock (resourceID : ResourceID) (r : Repository)
  : Repository * result store_error unit :=
  let s := repo_snapshot r in
  if negb (ValidResourceID resourceID) then (r, Err ErrValidation)
  else if bool_decide (sn_OperationLocks s !! resourceID = None) then (r, Ok tt)
  else commit (s <| sn_OperationLocks ::= delete resourceID |>) r.

(** ** Freezes and maintenance *)

Definition SetRecoveryFreeze (ctx_done : bool) (clusterID : ResourceID) (value : bool) (r : Repository)
  : Repository * result store_error unit :=
  let s := repo_snapshot r in
  if ctx_done then (r, Err ErrContext)
  else if negb (ValidResourceID clusterID) then (r, Err ErrValidation)
  else match sn_Clusters s !! clusterID with
  | None => (r, Err ErrNotFound)
  | Some cluster =>
      let unfinished := match cluster_Recovery cluster with
        | Some rec => rstate_LastRecoveryStatus rec != "succeeded"
        | None => false
        end in
      if negb value && cluster_RecoveryFreeze cluster && unfinished then (r, Err ErrConflict)
      else if Bool.eqb (cluster_RecoveryFreeze cluster) value then (r, Ok tt)
      else
        let cluster := cluster <| cluster_RecoveryFreeze := value |>
          <| cluster_MetadataRevision ::= λ n, u64 (n + 1) |>
          <| cluster_UpdatedAt := repo_now r |> in
        commit (s <| sn_Clusters ::= <[clusterID := cluster]> |>) r
  end.

Definition RecoveryFrozen (ctx_done : bool) (clusterID : ResourceID) (r : Repository)
  : result store_error bool :=
  if ctx_done then Err ErrContext
  else match sn_Clusters (repo_snapshot r) !! clusterID with
  | None => Err ErrNotFound
  | Some cluster => Ok (cluster_RecoveryFreeze cluster)
  end.

Definition SetMaintenance (ctx_done : bool) (clusterID instanceID : ResourceID) (value : bool)
    (r : Repository) : Repository * result store_error unit :=
  let s := repo_snapshot r in
  if ctx_done then (r, Err ErrContext)
  else if negb (ValidResourceID clusterID) || negb (ValidResourceID instanceID)
  then (r, Err ErrValidation)
  else match sn_Instances s !! instanceID with
  | None => (r, Err ErrValidation)
  | Some instance =>
      if inst_ClusterID instance != clusterID then (r, Err ErrValidation)
      else if negb value &&
              DisasterRecoveryActive (default zero_DatabaseCluster (sn_Clusters s !! clusterID))
      then (r, Err ErrConflict)
      else if Bool.eqb (inst_Maintenance instance) value then (r, Ok tt)
      else
        let instance := instance <| inst_Maintenance := value |>
          <| inst_MetadataRevision ::= λ n, u64 (n + 1) |>
          <| inst_UpdatedAt := repo_now r |> in
        commit (s <| sn_Instances ::= <[instanceID := instance]> |>) r
  end.

Definition Maintenance (ctx_done : bool) (clusterID instanceID : ResourceID) (r : Repository)
  : result store_error bool :=
  if ctx_done then Err ErrContext
  else match sn_Instances (repo_snapshot r) !! instanceID with
  | None => Err ErrValidation
  | Some instance =>
      if inst_ClusterID instance != clusterID then Err ErrValidation
      else Ok (inst_Maintenance instance)
  end.

(** ** What a commit does *)

(** The state a mutation to [value] may reach, with its answer. *)
Definition committed (value : snapshot) (r r' : Repository) (res : result store_error unit) : Prop :=
  repo_now r' = repo_now r ∧
  match res with
  | Ok _ => repo_snapshot r' = compactSnapshotHistory value ∧
            repo_stateRevision r' = u64 (repo_stateRevision r + 1)
  | Err _ =>
      (repo_snapshot r' = repo_snapshot r ∧ repo_stateRevision r' = repo_stateRevision r) ∨
      (repo_snapshot r' = compactSnapshotHistory value ∧
       repo_stateRevision r' = u64 (repo_stateRevision r + 1))
  end.

Lemma commit_spec value r r' res : commit value r = (r', res) → committed value r r' res.
Proof.
  unfold commit. destruct (repo_commits r) as [|[] cs]; intros [= <- <-]; split; cbn; auto.
Qed.

(** A repository whose coming commits are all applied. *)
Definition reliable (r : Repository) : Prop := repo_commits r = [].
Lemma commit_reliable value r : reliable r →
  commit value r = (r <| repo_snapshot := compactSnapshotHistory value |>
                      <| repo_stateRevision ::= λ n, u64 (n + 1) |>
                      <| repo_commits ::= λ cs, tail cs |>, Ok tt).
Proof. unfold commit, reliable. by intros ->. Qed.

(** Compaction only touches grants, operations and their index, and the logs. *)
Lemma compact_leases s : sn_CoordinationLeases (compactSnapshotHistory s) = sn_CoordinationLeases s.
Proof. done. Qed.
Lemma compact_locks s : sn_OperationLocks (compactSnapshotHistory s) = sn_OperationLocks s.
Proof. done. Qed.

Create HintDb repository.

Lemma sorted_values_perm {A} (m : gmap ResourceID A) : sorted_values m ≡ₚ (map_to_list m).*2.
Proof. unfold sorted_values. by rewrite merge_sort_Permutation. Qed.

(** ** The repository implements both coordination stores *)

Definition repo_ok (r : Repository) : Prop :=
  (∀ id x, sn_CoordinationLeases (repo_snapshot r) !! id = Some x → lr_id x = id ∧ scope_ok x = true) ∧
  (∀ id x, sn_OperationLocks (repo_snapshot r) !! id = Some x → lock_ResourceID x = id).

#[export] Instance repository_leases : LeaseRecordStore Repository store_error := {
  Lease.CoordinationLeases := CoordinationLeases;
  Lease.PutCoordinationLease := PutCoordinationLease;
  Lease.DeleteCoordinationLease := DeleteCoordinationLease;
  Lease.ReplaceCoordinationLeases := ReplaceCoordinationLeases
}.
#[export] Instance repository_locks : OperationLockRecordStore Repository store_error := {
  Locks.CoordinationOperationLocks := CoordinationOperationLocks;
  Locks.PutCoordinationOperationLock := PutCoordinationOperationLock;
  Locks.DeleteCoordinationOperationLock := DeleteCoordinationOperationLock
}.

Definition repo_leases (r : Repository) : gmap ResourceID LeaseRecord :=
  sn_CoordinationLeases (repo_snapshot r).
Definition repo_locks (r : Repository) : gmap ResourceID OperationLockRecord :=
  sn_OperationLocks (repo_snapshot r).

(** The effect of committing a snapshot in which only the leases changed. *)
Lemma commit_leases f r r' res :
  repo_ok r →
  (∀ id x, f (repo_leases r) !! id = Some x → lr_id x = id ∧ scope_ok x = true) →
  commit ((repo_snapshot r) <| sn_CoordinationLeases ::= f |>) r = (r', res) →
  repo_ok r' ∧ mutates repo_leases f r r' res ∧ repo_locks r' = repo_locks r.
Proof.
  intros [H1 H2] Hf Hc%commit_spec. destruct Hc as [_ Hc].
  unfold mutates, repo_ok, repo_leases, repo_locks in *.
  destruct res as [u|e]; [destruct Hc as [-> _]|destruct Hc as [[-> _]|[-> _]]]; cbn;
    split_and!; try done; auto.
Qed.
Lemma commit_locks f r r' res :
  repo_ok r → (∀ id x, f (repo_locks r) !! id = Some x → lock_ResourceID x = id) →
  commit ((repo_snapshot r) <| sn_OperationLocks ::= f |>) r = (r', res) →
  repo_ok r' ∧ lock_mutates repo_locks f r r' res ∧ repo_leases r' = repo_leases r.
Proof.
  intros [H1 H2] Hf Hc%commit_spec. destruct Hc as [_ Hc].
  unfold lock_mutates, repo_ok, repo_leases, repo_locks in *.
  destruct res as [u|e]; [destruct Hc as [-> _]|destruct Hc as [[-> _]|[-> _]]]; cbn;
    split_and!; try done; auto.
Qed.

Lemma lease_record_valid_scope record : lease_record_valid record = true → scope_ok record = true.
Proof. unfold lease_record_valid, scope_ok, lr_id. intros. bsimpl. by bsplit. Qed.

(** An indexed batch is exactly its records. *)
Lemma index_batch_spec records m :
  for_each index_batch ∅ records = Ok m →
  m = list_to_map (keyed <$> records) ∧
  ∀ id x, m !! id = Some x → lr_id x = id ∧ scope_ok x = true.
Proof.
  intros Hrun.
  apply (for_each_inv (λ pre m, m = list_to_map (keyed <$> pre) ∧
    ∀ id x, m !! id = Some x → lr_id x = id ∧ scope_ok x = true)) in Hrun; [done| |].
  - split; [done|]. intros id x. by rewrite lookup_empty.
  - intros pre x post m1 m2 _ [-> Hm] Hx. unfold index_batch in Hx.
    destruct (negb _ || _ || _) eqn:Hv; [done|]. case_bool_decide as Hfree; [done|]. simplify_eq.
    apply eq_None_not_Some in Hfree. bsimpl. split.
    + rewrite fmap_app, list_to_map_app. cbn. rewrite insert_empty.
      by rewrite insert_union_singleton_r.
    + intros id y. rewrite lookup_insert_Some. intros [[<- <-]|[_ ?]]; [|by apply Hm].
      split; [done|]. by apply lease_record_valid_scope.
Qed.

#[export] Program Instance repository_lease_laws : LeaseRecordLaws Repository store_error := {
  store_ok := repo_ok; lease_view := repo_leases
}.
Next Obligation. intros r _. apply sorted_values_perm. Qed.
Next Obligation. intros r id x [Hok _] Hx. by apply Hok. Qed.
Next Obligation.
  intros record r r' res Hok. cbn. unfold PutCoordinationLease.
  destruct (lease_record_valid record) eqn:Hv; cbn [negb]; [|intros [= <- <-]; by split; [|left]].
  case_bool_decide; [intros [= <- <-]; by split; [|left]|].
  destruct (negb _); [intros [= <- <-]; by split; [|left]|].
  intros Hc. apply commit_leases in Hc; [tauto|done|].
  intros id x. rewrite lookup_insert_Some. intros [[<- <-]|[_ ?]]; [|by apply Hok].
  split; [done|]. by apply lease_record_valid_scope.
Qed.
Next Obligation.
  intros id r r' res Hok. cbn. unfold DeleteCoordinationLease.
  destruct (negb _); [intros [= <- <-]; by split; [|left]|].
  case_bool_decide as Hn.
  - intros [= <- <-]. split; [done|]. cbn. by rewrite delete_id.
  - intros Hc. apply commit_leases in Hc; [tauto|done|].
    intros j x. rewrite lookup_delete_Some. intros [_ ?]. by apply Hok.
Qed.
Next Obligation.
  intros records r r' res Hok. cbn. unfold ReplaceCoordinationLeases.
  destruct (for_each index_batch ∅ records) as [m|e] eqn:Hb; [|intros [= <- <-]; by split; [|left]].
  apply index_batch_spec in Hb as [-> Hm].
  destruct (for_each _ tt _); [|intros [= <- <-]; by split; [|left]].
  intros Hc. apply (commit_leases (λ _, list_to_map (keyed <$> records))) in Hc; tauto.
Qed.

#[export] Program Instance repository_lock_laws : OperationLockLaws Repository store_error := {
  lock_store_ok := repo_ok; lock_view := repo_locks
}.
Next Obligation. intros r _. apply sorted_values_perm. Qed.
Next Obligation. intros r id x [_ Hok] Hx. by apply Hok. Qed.
Next Obligation.
  intros record r r' res Hok. cbn. unfold PutCoordinationOperationLock.
  destruct (_ || _); [intros [= <- <-]; by split; [|left]|].
  intros Hc. apply commit_locks in Hc; [tauto|done|].
  intros id x. rewrite lookup_insert_Some. intros [[<- <-]|[_ ?]]; [done|by apply Hok].
Qed.
Next Obligation.
  intros id r r' res Hok. cbn. unfold DeleteCoordinationOperationLock.
  destruct (negb _); [intros [= <- <-]; by split; [|left]|].
  case_bool_decide as Hn.
  - intros [= <- <-]. split; [done|]. cbn. by rewrite delete_id.
  - intros Hc. apply commit_locks in Hc; [tauto|done|].
    intros j x. rewrite lookup_delete_Some. intros [_ ?]. by apply Hok.
Qed.

(** ** Bounded history: what is kept *)

#[export] Instance retained_le_total : Total retained_le.
Proof.
  intros a b. unfold retained_le, Equal, After.
  destruct (Z.eqb_spec (ret_updatedAt a) (ret_updatedAt b)) as [->|Hne].
  - rewrite Z.eqb_refl. destruct (String.le_total (ret_resourceID b) (ret_resourceID a)) as [H|H];
      apply Is_true_eq_true in H; auto.
  - destruct (Z.eqb_spec (ret_updatedAt b) (ret_updatedAt a)); [lia|].
    rewrite !Z.ltb_lt. lia.
Qed.
#[export] Instance retained_le_trans : Transitive retained_le.
Proof.
  intros a b c. unfold retained_le, Equal, After.
  destruct (Z.eqb_spec (ret_updatedAt a) (ret_updatedAt b)), (Z.eqb_spec (ret_updatedAt b) (ret_updatedAt c)),
    (Z.eqb_spec (ret_updatedAt a) (ret_updatedAt c)); try lia; rewrite ?Z.ltb_lt; try lia.
  intros H1%Is_true_eq_left H2%Is_true_eq_left. apply Is_true_eq_true.
  pose proof (PreOrder_Transitive (R := String.le)) as Ht. by apply (Ht _ (ret_resourceID b)).
Qed.
Lemma retained_le_time a b : retained_le a b → ret_updatedAt b ≤ ret_updatedAt a.
Proof. unfold retained_le, Equal, After. intros. case_match; bsimpl; lia. Qed.

Lemma newest_size l limit : (size (newestResourceIDs l limit) ≤ limit)%nat.
Proof.
  unfold newestResourceIDs. etrans; [apply size_list_to_set_le|]. rewrite length_fmap, length_take. lia.
Qed.
Lemma newest_newer l limit r r' :
  r ∈ l → ret_resourceID r ∉ newestResourceIDs l limit → NoDup (ret_resourceID <$> l) →
  r' ∈ l → ret_resourceID r' ∈ newestResourceIDs l limit → ret_updatedAt r ≤ ret_updatedAt r'.
Proof.
  unfold newestResourceIDs. intros Hr Hn Hnd Hr' Hin.
  pose proof (StronglySorted_merge_sort retained_le l) as Hs.
  pose proof (merge_sort_Permutation retained_le l) as Hp.
  rewrite <- (take_drop limit (merge_sort retained_le l)) in Hs, Hp.
  rewrite elem_of_list_to_set in Hn, Hin. apply list_elem_of_fmap in Hin as (x & Hid & Hx).
  assert (x = r') as ->.
  { rewrite <- Hp in Hnd, Hr'. assert (x ∈ take limit (merge_sort retained_le l) ++
      drop limit (merge_sort retained_le l)) as Hx' by set_solver.
    apply (list_elem_of_lookup) in Hr' as [i Hi], Hx' as [j Hj].
    assert (i = j) as <-; [|congruence].
    eapply NoDup_lookup; [exact Hnd|by rewrite list_lookup_fmap, Hi|].
    by rewrite list_lookup_fmap, Hj; cbn; rewrite Hid. }
  rewrite <- Hp, elem_of_app in Hr. destruct Hr as [Hr|Hr].
  - exfalso. apply Hn. by apply list_elem_of_fmap_2.
  - apply retained_le_time. eapply StronglySorted_app_1_elem_of; [exact Hs|done|done].
Qed.

Lemma retained_of_elem {A} (f : A → Time) (m : gmap ResourceID A) r :
  r ∈ retained_of f m ↔ ∃ a, m !! ret_resourceID r = Some a ∧ ret_updatedAt r = f a.
Proof.
  unfold retained_of. rewrite list_elem_of_fmap. split.
  - intros ([id a] & -> & Hin). apply elem_of_map_to_list in Hin. by exists a.
  - intros (a & Ha & Ht). exists (ret_resourceID r, a). destruct r; cbn in *; subst.
    split; [done|]. by apply elem_of_map_to_list.
Qed.
Lemma retained_of_ids {A} (f : A → Time) (m : gmap ResourceID A) :
  ret_resourceID <$> retained_of f m = (map_to_list m).*1.
Proof. unfold retained_of. by rewrite <- list_fmap_compose. Qed.

Lemma newest_of_mem {A} (f : A → Time) (m : gmap ResourceID A) limit id :
  id ∈ newestResourceIDs (retained_of f m) limit → is_Some (m !! id).
Proof.
  unfold newestResourceIDs. rewrite elem_of_list_to_set, list_elem_of_fmap. intros (r & -> & Hr).
  assert (r ∈ merge_sort retained_le (retained_of f m)) as Hm.
  { rewrite <- (take_drop limit (merge_sort retained_le (retained_of f m))). set_solver. }
  rewrite merge_sort_Permutation, retained_of_elem in Hm. rename Hm into Hr'. clear Hr. rename Hr' into Hr.
  destruct Hr as (a & Ha & _). by exists a.
Qed.
Lemma newest_of_newer {A} (f : A → Time) (m : gmap ResourceID A) limit i j a b :
  m !! i = Some a → m !! j = Some b → i ∉ newestResourceIDs (retained_of f m) limit →
  j ∈ newestResourceIDs (retained_of f m) limit → f a ≤ f b.
Proof.
  intros Hi Hj Hni Hnj.
  apply (newest_newer (retained_of f m) limit (mkRetained i (f a)) (mkRetained j (f b))); try done.
  - apply retained_of_elem. eauto.
  - rewrite retained_of_ids. apply NoDup_fst_map_to_list.
  - apply retained_of_elem. eauto.
Qed.

Lemma keep_ids_lookup {A} ids (m : gmap ResourceID A) id a :
  keep_ids ids m !! id = Some a ↔ m !! id = Some a ∧ id ∈ ids.
Proof. unfold keep_ids. by rewrite map_lookup_filter_Some. Qed.
Lemma keep_ids_size {A} ids (m : gmap ResourceID A) : (size (keep_ids ids m) ≤ size ids)%nat.
Proof.
  rewrite <- size_dom. apply subseteq_size. intros id. rewrite elem_of_dom. intros [a Ha].
  by apply keep_ids_lookup in Ha as [_ ?].
Qed.

Definition newest_terminal (m : gmap ResourceID OperationRecord) : gset ResourceID :=
  newestResourceIDs (retained_of rec_UpdatedAt (terminal_operations m)) maximumTerminalOperations.
Definition newest_planned (m : gmap ResourceID OperationRecord) : gset ResourceID :=
  newestResourceIDs (retained_of rec_UpdatedAt (planned_operations m)) maximumPlannedOperations.

Lemma compact_operations_lookup m id op :
  compact_operations m !! id = Some op ↔ m !! id = Some op ∧
    (id ∈ newest_terminal m ∨ id ∈ newest_planned m ∨
     rec_Status op ≠ OperationPlanned ∧ terminalOperationStatus (rec_Status op) = false).
Proof.
  unfold compact_operations. fold (newest_terminal m) (newest_planned m).
  rewrite !lookup_union_Some_raw, !eq_None_not_Some. unfold is_Some.
  setoid_rewrite keep_ids_lookup. unfold other_operations. rewrite map_lookup_filter_Some. cbn.
  destruct (decide (id ∈ newest_terminal m)), (decide (id ∈ newest_planned m)); naive_solver.
Qed.

Lemma newest_terminal_status m id op : m !! id = Some op → id ∈ newest_terminal m →
  rec_Status op ≠ OperationPlanned ∧ terminalOperationStatus (rec_Status op) = true.
Proof.
  intros Hop [op' Hop']%newest_of_mem. unfold terminal_operations in Hop'.
  apply map_lookup_filter_Some in Hop' as [? ?]. by simplify_eq.
Qed.
Lemma newest_planned_status m id op : m !! id = Some op → id ∈ newest_planned m →
  rec_Status op = OperationPlanned.
Proof.
  intros Hop [op' Hop']%newest_of_mem. unfold planned_operations in Hop'.
  apply map_lookup_filter_Some in Hop' as [? ?]. by simplify_eq.
Qed.

Lemma compact_terminal_size m :
  (size (terminal_operations (compact_operations m)) ≤ maximumTerminalOperations)%nat.
Proof.
  etrans; [|apply (newest_size (retained_of rec_UpdatedAt (terminal_operations m)))].
  rewrite <- size_dom. apply subseteq_size. intros id. rewrite elem_of_dom.
  unfold terminal_operations at 1. intros [op Hop].
  apply map_lookup_filter_Some in Hop as [Hop [? ?]].
  apply compact_operations_lookup in Hop as [Hop [?|[Hp|[_ ?]]]]; cbn in *; [done| |congruence].
  by apply (newest_planned_status m id op) in Hp.
Qed.
Lemma compact_planned_size m :
  (size (planned_operations (compact_operations m)) ≤ maximumPlannedOperations)%nat.
Proof.
  etrans; [|apply (newest_size (retained_of rec_UpdatedAt (planned_operations m)))].
  rewrite <- size_dom. apply subseteq_size. intros id. rewrite elem_of_dom.
  unfold planned_operations at 1. intros [op Hop].
  apply map_lookup_filter_Some in Hop as [Hop Hst].
  apply compact_operations_lookup in Hop as [Hop [Ht|[?|[? _]]]]; cbn in *; [|done|congruence].
  by apply (newest_terminal_status m id op) in Ht as [? _].
Qed.

Lemma compact_keys_spec keys kept key id :
  compact_keys keys kept !! key = Some id →
  (∃ op, kept !! id = Some op ∧ TrimSpace (rec_IdempotencyKey op) = key) ∨
  (keys !! key = Some id ∧ is_Some (kept !! id) ∧
   ∀ i op, kept !! i = Some op → TrimSpace (rec_IdempotencyKey op) = key → key = "").
Proof.
  unfold compact_keys. set (base := filter _ keys).
  assert (∀ k i, base !! k = Some i → keys !! k = Some i ∧ is_Some (kept !! i)) as Hb.
  { intros k i. unfold base. by rewrite map_lookup_filter_Some. }
  clearbody base. revert key id.
  eapply (map_fold_weak_ind (λ acc m, ∀ key id, acc !! key = Some id →
    (∃ op, m !! id = Some op ∧ TrimSpace (rec_IdempotencyKey op) = key) ∨
    (keys !! key = Some id ∧ is_Some (kept !! id) ∧
     ∀ i op, m !! i = Some op → TrimSpace (rec_IdempotencyKey op) = key → key = ""))).
  - intros key id Hk. right. destruct (Hb _ _ Hk). split_and!; try done.
  - intros i op m acc Hi IH key id. cbn. case_bool_decide as Hblank; cbn.
    + intros [(op' & Hop' & Hk)|(? & ? & Hno)]%IH.
      * left. exists op'. rewrite lookup_insert_ne; [done|]. intros <-. congruence.
      * right. split_and!; try done. intros j op'. rewrite lookup_insert_Some.
        intros [[<- <-]|[_ ?]]; [congruence|by eapply Hno].
    + rewrite lookup_insert_Some. intros [[<- <-]|[Hne Hk]].
      * left. exists op. by rewrite lookup_insert_eq.
      * apply IH in Hk as [(op' & Hop' & Hk)|(? & ? & Hno)].
        -- left. exists op'. rewrite lookup_insert_ne; [done|]. intros <-. congruence.
        -- right. split_and!; try done. intros j op'. rewrite lookup_insert_Some.
           intros [[<- <-]|[_ ?]]; [done|by eapply Hno].
Qed.
Lemma compact_keys_complete keys kept id op :
  kept !! id = Some op → TrimSpace (rec_IdempotencyKey op) ≠ "" →
  is_Some (compact_keys keys kept !! TrimSpace (rec_IdempotencyKey op)).
Proof.
  unfold compact_keys. revert id op.
  eapply (map_fold_weak_ind (λ acc m, ∀ id op, m !! id = Some op → TrimSpace (rec_IdempotencyKey op) ≠ "" →
    is_Some (acc !! TrimSpace (rec_IdempotencyKey op)))).
  - intros id op. by rewrite lookup_empty.
  - intros i op m acc Hi IH id op'. rewrite lookup_insert_Some. intros [[<- <-]|[_ Hop]] Hne; cbn.
    + rewrite bool_decide_false by done. cbn. by rewrite lookup_insert_eq.
    + case_bool_decide; cbn; [by eapply IH|].
      rewrite lookup_insert_is_Some'. right. by eapply IH.
Qed.

(** ** Writer leases during disaster recovery *)

(** The parts of the state the lease rules read besides the lease itself. *)
Definition same_rules (r r' : Repository) : Prop :=
  repo_now r' = repo_now r ∧ sn_Clusters (repo_snapshot r') = sn_Clusters (repo_snapshot r) ∧
  sn_RecoveryTasks (repo_snapshot r') = sn_RecoveryTasks (repo_snapshot r) ∧
  sn_OperationLocks (repo_snapshot r') = sn_OperationLocks (repo_snapshot r).

Lemma same_rules_refl r : same_rules r r.
Proof. done. Qed.
Lemma same_rules_trans r1 r2 r3 : same_rules r1 r2 → same_rules r2 r3 → same_rules r1 r3.
Proof. intros (?&?&?&?) (?&?&?&?). split_and!; congruence. Qed.
#[export] Hint Resolve same_rules_refl : repository.

Lemma allowed_same_rules r r' x now : same_rules r r' →
  recoveryWriterLeaseAllowed (repo_snapshot r') x now = recoveryWriterLeaseAllowed (repo_snapshot r) x now.
Proof.
  intros (_ & Hc & Ht & Hl). unfold recoveryWriterLeaseAllowed, recoveryLeaseValid.
  by rewrite Hc, Ht, Hl.
Qed.

Lemma commit_leases_rules f r r' res :
  commit ((repo_snapshot r) <| sn_CoordinationLeases ::= f |>) r = (r', res) → same_rules r r'.
Proof.
  intros [Hn Hc]%commit_spec. unfold same_rules.
  destruct res as [u|e]; [destruct Hc as [-> _]|destruct Hc as [[-> _]|[-> _]]]; done.
Qed.
Lemma delete_lease_rules id r r' res : DeleteCoordinationLease id r = (r', res) → same_rules r r'.
Proof.
  unfold DeleteCoordinationLease. repeat case_match; intros H'; simplify_eq; auto with repository.
  by apply commit_leases_rules in H'.
Qed.

Lemma put_lease_allowed record r r' l : put_lease record r = (r', Ok l) →
  l = lr_Lease record ∧ recoveryWriterLeaseAllowed (repo_snapshot r) record (repo_now r) = true.
Proof.
  unfold put_lease. cbn. unfold PutCoordinationLease.
  destruct (lease_record_valid record); cbn; [|done]. case_bool_decide; cbn; [done|].
  destruct (recoveryWriterLeaseAllowed _ _ _); cbn; [|done].
  destruct (commit _ r) as [r1 [[]|e]]; cbn; intros; by simplify_eq.
Qed.

(** Any lease a scan or a grant stores passed the rules. *)
Lemma acquire_scan_allowed now req records r r' l :
  acquire_scan now req records r = (r', Some (Ok l)) →
  ∃ record, lr_Lease record = l ∧ recoveryWriterLeaseAllowed (repo_snapshot r) record (repo_now r) = true.
Proof.
  revert r. induction records as [|x records IH]; intros r; cbn; [done|].
  destruct (live now (lr_Lease x)); cbn.
  2: { destruct (DeleteCoordinationLease _ r) as [r1 res1] eqn:Hd. apply delete_lease_rules in Hd.
       intros (record & Hr & Ha)%IH. exists record. split; [done|].
       rewrite <- (allowed_same_rules r r1) by done. destruct Hd as [Hn _]. by rewrite Hn in Ha. }
  destruct (same_endpoint _ _); cbn; [|apply IH].
  destruct (same_holder _ _); [|destruct (_ && _); [|done]];
    destruct (put_lease _ r) as [r1 res1] eqn:Hp; intros; simplify_eq;
    apply put_lease_allowed in Hp as [-> ?]; by eexists.
Qed.
Lemma acquire_scan_rules now req records r r' :
  acquire_scan now req records r = (r', None) → same_rules r r'.
Proof.
  revert r. induction records as [|x records IH]; intros r; cbn; [intros; simplify_eq; auto with repository|].
  destruct (live now (lr_Lease x)); cbn.
  2: { destruct (DeleteCoordinationLease _ r) as [r1 res1] eqn:Hd. apply delete_lease_rules in Hd.
       intros ?%IH. by eapply same_rules_trans. }
  destruct (same_endpoint _ _); cbn; [|apply IH].
  destruct (same_holder _ _); [|destruct (_ && _); [|done]]; by destruct (put_lease _ r).
Qed.
Lemma Acquire_allowed auth now fresh req r r' l :
  Lease.Acquire auth now fresh req r = (r', Ok l) →
  ∃ record, lr_Lease record = l ∧ recoveryWriterLeaseAllowed (repo_snapshot r) record (repo_now r) = true.
Proof.
  unfold Lease.Acquire. destruct auth; cbn; [|done]. destruct (request_valid req); cbn; [|done].
  destruct (acquire_scan _ _ _ r) as [r1 [res1|]] eqn:Hscan.
  - intros; simplify_eq. by eapply acquire_scan_allowed.
  - apply acquire_scan_rules in Hscan. destruct (req_RenewOnly _); [done|].
    intros [-> Ha]%put_lease_allowed. eexists. split; [done|].
    rewrite <- (allowed_same_rules r r1) by done. destruct Hscan as [Hn _]. by rewrite Hn in Ha.
Qed.
Lemma FinalizeTransition_allowed auth now t ttl r r' l (commit : bool) :
  (if commit then FinalizeTransition auth now t ttl r else RollbackTransition auth now t ttl r)
    = (r', Ok l) →
  ∃ record, lr_Lease record = l ∧ recoveryWriterLeaseAllowed (repo_snapshot r) record (repo_now r) = true.
Proof.
  assert (∀ ready stable, end_transition ready stable now t r = (r', Ok l) →
    ∃ record, lr_Lease record = l ∧
      recoveryWriterLeaseAllowed (repo_snapshot r) record (repo_now r) = true) as H.
  { intros ready stable. unfold end_transition. destruct (find _ _); [|done].
    destruct (ready _); [|done]. intros [-> ?]%put_lease_allowed. by eexists. }
  unfold FinalizeTransition, RollbackTransition. destruct commit, auth; cbn; try done; apply H.
Qed.

(** ** Properties *)

(** C13: No writer but the recovered one: while disaster recovery is active on a
    cluster, any lease the lease store hands out for it over the repository
    (by acquiring, renewing, finalizing or rolling back) that is live on the
    repository's clock is the stable lease of the primary that the cluster's
    own recovery task committed, under a still valid recovery operation lock. *)
Theorem recovery_writer_exclusive auth now fresh req t ttl r r' l rec :
  Lease.Acquire auth now fresh req r = (r', Ok l) ∨
  FinalizeTransition auth now t ttl r = (r', Ok l) ∨ RollbackTransition auth now t ttl r = (r', Ok l) →
  (∃ cluster, sn_Clusters (repo_snapshot r) !! lease_ClusterID l = Some cluster ∧
     cluster_RecoveryFreeze cluster = true ∧ cluster_Recovery cluster = Some rec ∧
     rstate_LastRecoveryStatus rec ≠ "succeeded") →
  lease_Active l = true → repo_now r < lease_ExpiresAt l →
  rstate_LastRecoveryStatus rec = "committed" ∧ lease_OperationID l = lease_HAEndpointID l ∧
  ∃ task lock, sn_RecoveryTasks (repo_snapshot r) !! rstate_TaskID rec = Some task ∧
    task_Stage task = RecoveryCommitted ∧ task_CommittedAt task ≠ 0 ∧
    task_PrimaryID task = lease_OwnerID l ∧
    sn_OperationLocks (repo_snapshot r) !! task_LeaseID task = Some lock ∧
    lock_ClusterID lock = task_ClusterID task ∧ lock_OperationID lock = task_ResourceID task ∧
    repo_now r < lock_ExpiresAt lock.
Proof.
  intros Hop (cluster & Hc & Hf & Hr & Hst) Hact Hexp.
  assert (∃ record, lr_Lease record = l ∧
    recoveryWriterLeaseAllowed (repo_snapshot r) record (repo_now r) = true) as (record & <- & Ha).
  { destruct Hop as [H|[H|H]]; [exact (Acquire_allowed auth now fresh req r r' l H)|
      exact (FinalizeTransition_allowed auth now t ttl r r' l true H)|
      exact (FinalizeTransition_allowed auth now t ttl r r' l false H)]. }
  clear Hop. unfold recoveryWriterLeaseAllowed, DisasterRecoveryActive in Ha.
  rewrite Hc in Ha. cbn in Ha.
  rewrite Hf, Hr, Hact in Ha. cbn in Ha.
  assert (String.eqb (rstate_LastRecoveryStatus rec) "succeeded" = false) as Hs by by apply String.eqb_neq.
  assert (After (lease_ExpiresAt (lr_Lease record)) (repo_now r) = true) as He by time_lia.
  rewrite Hs, He in Ha. cbn in Ha. 
  destruct (sn_RecoveryTasks (repo_snapshot r) !! rstate_TaskID rec) as [task|] eqn:Ht; [|done].
  unfold recoveryLeaseValid in Ha. destruct (sn_OperationLocks (repo_snapshot r) !! task_LeaseID task) as [lock|] eqn:Hl;
    repeat bsimpl_step.
  split_and!; try done. exists task, lock. unfold IsZero, After, zero_time in *.
  repeat bsimpl_step. by split_and!.
Qed.

(** Bounding the history is safe: compaction invents nothing and changes no
    record it keeps, never drops an operation that is neither planned nor
    terminal, drops a planned or terminal one only when every kept one of its
    class is at least as recent, respects every limit, and leaves an
    idempotency index in which each entry points at a kept operation and each
    kept key is found. *)
Theorem compactSnapshotHistory_safe s :
  let s' := compactSnapshotHistory s in
  (∀ id op, sn_Operations s' !! id = Some op → sn_Operations s !! id = Some op) ∧
  (∀ id op, sn_Operations s !! id = Some op → rec_Status op ≠ OperationPlanned →
     terminalOperationStatus (rec_Status op) = false → sn_Operations s' !! id = Some op) ∧
  (∀ i j a b, sn_Operations s !! i = Some a → sn_Operations s' !! i = None →
     sn_Operations s' !! j = Some b → (rec_Status a = OperationPlanned ↔ rec_Status b = OperationPlanned) →
     terminalOperationStatus (rec_Status a) = terminalOperationStatus (rec_Status b) →
     rec_UpdatedAt a ≤ rec_UpdatedAt b) ∧
  (size (terminal_operations (sn_Operations s')) ≤ 512 ∧ size (planned_operations (sn_Operations s')) ≤ 128 ∧
   size (sn_ApprovalGrants s') ≤ 1024 ∧ length (sn_Audits s') ≤ 1024 ∧ length (sn_Reports s') ≤ 512)%nat ∧
  (∀ key id, sn_OperationKeys s' !! key = Some id → is_Some (sn_Operations s' !! id)) ∧
  (∀ id op, sn_Operations s' !! id = Some op → TrimSpace (rec_IdempotencyKey op) ≠ "" →
     ∃ id' op', sn_OperationKeys s' !! TrimSpace (rec_IdempotencyKey op) = Some id' ∧
       sn_Operations s' !! id' = Some op' ∧
       TrimSpace (rec_IdempotencyKey op') = TrimSpace (rec_IdempotencyKey op)).
Proof.
  cbn. split_and!.
  - intros id op Hop. by apply compact_operations_lookup in Hop as [? _].
  - intros id op Hop Hp Ht. apply compact_operations_lookup. auto.
  - intros i j a b Ha Hn Hb Hp Ht. apply compact_operations_lookup in Hb as [Hb Hkept].
    assert (¬ (compact_operations (sn_Operations s) !! i = Some a)) as Hdrop by congruence.
    rewrite compact_operations_lookup in Hdrop.
    destruct (decide (rec_Status a = OperationPlanned)) as [Hpa|Hpa].
    + apply (newest_of_newer rec_UpdatedAt (planned_operations (sn_Operations s)) maximumPlannedOperations i j).
      1, 2: apply map_lookup_filter_Some; cbn; tauto.
      * intros Hx. apply Hdrop. auto.
      * destruct Hkept as [Hx|[Hx|[? _]]]; [|done|tauto].
        apply (newest_terminal_status _ _ _ Hb) in Hx. tauto.
    + destruct (terminalOperationStatus (rec_Status a)) eqn:Hta; [|exfalso; apply Hdrop; auto].
      apply (newest_of_newer rec_UpdatedAt (terminal_operations (sn_Operations s)) maximumTerminalOperations i j).
      1, 2: apply map_lookup_filter_Some; cbn; split; [done|]; split; [tauto|congruence].
      * intros Hx. apply Hdrop. auto.
      * destruct Hkept as [Hx|[Hx|[_ ?]]]; [done| |congruence].
        apply (newest_planned_status _ _ _ Hb) in Hx. tauto.
  - apply compact_terminal_size.
  - apply compact_planned_size.
  - etrans; [apply keep_ids_size|apply newest_size].
  - unfold compact_tail, maximumAuditEvents. rewrite length_drop. lia.
  - unfold compact_tail, maximumReports. rewrite length_drop. lia.
  - intros key id [(op & Hop & _)|(_ & Hop & _)]%compact_keys_spec; [by exists op|done].
  - intros id op Hop Hne. destruct (compact_keys_complete (sn_OperationKeys s) _ id op Hop Hne) as [id' Hid].
    pose proof Hid as [(op' & Hop' & Hk)|(_ & _ & Hno)]%compact_keys_spec; [by exists id', op'|].
    by destruct (Hno id op Hop eq_refl).
Qed.

(** ** Concrete instances *)

Definition wr_cluster : ResourceID := "11111111-1111-4111-8111-111111111111".
Definition wr_task : ResourceID := "77777777-7777-4777-8777-777777777777".
Definition wr_lock : ResourceID := "88888888-8888-4888-8888-888888888888".
Definition wr_recovery : RecoveryState :=
  zero_RecoveryState <| rstate_TaskID := wr_task |> <| rstate_LastRecoveryStatus := "committed" |>.
Definition wr_clusters : gmap ResourceID DatabaseCluster :=
  {[ wr_cluster := zero_DatabaseCluster <| cluster_ResourceID := wr_cluster |>
       <| cluster_RecoveryFreeze := true |> <| cluster_Recovery := Some wr_recovery |> ]}.
Definition wr_committed : RecoveryTask :=
  zero_RecoveryTask <| task_ResourceID := wr_task |> <| task_ClusterID := wr_cluster |>
    <| task_Stage := RecoveryCommitted |> <| task_CommittedAt := Second |>
    <| task_PrimaryID := w_owner |> <| task_LeaseID := wr_lock |>.
Definition wr_repo : Repository :=
  mkRepository (emptySnapshot <| sn_Clusters := wr_clusters |>
      <| sn_RecoveryTasks := {[ wr_task := wr_committed ]} |>
      <| sn_OperationLocks := {[ wr_lock := mkLock wr_lock wr_cluster wr_task (w_now + Minute) 1 1 ]} |>)
    7 w_now [].
Definition wr_lease : Lease := granted w_now w_fresh w_stable.
Definition wr_repo' : Repository := (Lease.Acquire true w_now w_fresh w_stable wr_repo).1.

Lemma wr_acquire : Lease.Acquire true w_now w_fresh w_stable wr_repo = (wr_repo', Ok wr_lease).
Proof. unfold wr_repo'. apply pair_fst. by vm_compute. Qed.

Lemma recovery_writer_exclusive_witness :
  Lease.Acquire true w_now w_fresh w_stable wr_repo = (wr_repo', Ok wr_lease) ∧
  lease_OperationID wr_lease = lease_HAEndpointID wr_lease.
Proof.
  split; [exact wr_acquire|].
  apply (recovery_writer_exclusive true w_now w_fresh w_stable wr_lease 0 wr_repo wr_repo' wr_lease
    wr_recovery (or_introl wr_acquire)).
  - eexists. split; [by vm_compute|]. by split_and!.
  - done.
  - by vm_compute.
Defined.
