(* ===== verification/Inventory.v ===== *)
(** * internal/store/repository.go: inventory queries

    What the controllers read of a cluster.  [sort.Slice] by display name leaves
    equal names in the order of the map's iteration, which no caller relies on;
    here it is the order of [map_to_list]. *)
From S2P Require Import Prelude GoStd Model Repository.

Definition Cluster (id : ResourceID) (r : Repository) : option DatabaseCluster :=
  sn_Clusters (repo_snapshot r) !! id.
Definition Instance_ (id : ResourceID) (r : Repository) : option DatabaseInstance :=
  sn_Instances (repo_snapshot r) !! id.

Definition cluster_name_le (a b : DatabaseCluster) : Prop := id_le (cluster_DisplayName a) (cluster_DisplayName b).
#[export] Instance cluster_name_le_dec : RelDecision cluster_name_le.
Proof. intros a b. unfold cluster_name_le. apply _. Defined.
Definition Clusters (r : Repository) : list DatabaseCluster :=
  merge_sort cluster_name_le (map_to_list (sn_Clusters (repo_snapshot r))).*2.

(** The stored observation with the registered record laid over it: identity,
    address and maintenance come from the inventory, role and health from the
    observation. *)
Definition overlay (canonical observed : DatabaseInstance) : DatabaseInstance :=
  observed <| inst_ResourceID := inst_ResourceID canonical |>
    <| inst_MetadataRevision := inst_MetadataRevision canonical |>
    <| inst_CreatedAt := inst_CreatedAt canonical |> <| inst_UpdatedAt := inst_UpdatedAt canonical |>
    <| inst_ClusterID := inst_ClusterID canonical |> <| inst_NodeID := inst_NodeID canonical |>
    <| inst_DisplayName := inst_DisplayName canonical |> <| inst_Hostname := inst_Hostname canonical |>
    <| inst_IPAddress := inst_IPAddress canonical |> <| inst_Port := inst_Port canonical |>
    <| inst_Aliases := inst_Aliases canonical |> <| inst_Maintenance := inst_Maintenance canonical |>.
Definition overlay_instance (s : snapshot) (observed : DatabaseInstance) : DatabaseInstance :=
  match sn_Instances s !! inst_ResourceID observed with
  | Some canonical => overlay canonical observed
  | None => observed
  end.
Definition TopologyOf (clusterID : ResourceID) (r : Repository) : option TopologySnapshot :=
  let s := repo_snapshot r in
  value ← sn_TopologySnapshots s !! clusterID;
  Some (value <| topo_Instances ::= fmap (overlay_instance s) |>).

Lemma Clusters_elem r c :
  c ∈ Clusters r ↔ ∃ id, sn_Clusters (repo_snapshot r) !! id = Some c.
Proof.
  unfold Clusters. rewrite merge_sort_Permutation, list_elem_of_fmap. split.
  - intros ([id x] & -> & Hin). exists id. by apply elem_of_map_to_list.
  - intros [id Hid]. exists (id, c). split; [done|]. by apply elem_of_map_to_list.
Qed.
