(* ===== verification/Operations.v ===== *)
(** * internal/store: operations and approval grants

    [src/internal/store/operations.go] and [approvals.go]: the durable record
    of every workflow operation.  [applyOperationTransition] is the state
    machine; the repository operations around it add compare-and-swap on the
    metadata revision, idempotent creation, atomic finalisation with audit and
    report, and one-time approval grants.

    [Text] stands for [redact.Text], which rewrites secrets in a message with
    regular expressions and is not modelled: every theorem holds for any
    function.  Each new resource ID is an argument, and where the code returns
    a value beside an error the model keeps the error. *)
From S2P Require Import Prelude GoStd Model Endpoint Lease Locks Repository.

Definition maximumOperationReviewNoteLength : nat := 1024.
Definition maximumAuditActorLength : nat := 256.
Definition maximumAuditMessageLength : nat := 2048.
Definition maximumReportTitleLength : nat := 256.
Definition maximumReportSummaryLength : nat := 4096.

Definition validOperationKind (kind : OperationKind) : bool :=
  match kind with OperationKindOther _ => false | _ => true end.
Definition validOperationStatus (status : OperationStatus) : bool :=
  match status with OperationStatusOther _ => false | _ => true end.

Definition workflowStageOrder (stage : WorkflowStage) : Z :=
  match stage with
  | StageDiscover => 1 | StagePrecheck => 2 | StagePlan => 3 | StageSafetyGuard => 4
  | StageLock => 5 | StageApprove => 6 | StageExecute => 7 | StageVerify => 8
  | StageAudit => 9 | StageReport => 10 | WorkflowStageOther _ => 0
  end.

(** The zero values a transition uses for "unchanged". *)
Definition no_stage : WorkflowStage := WorkflowStageOther "".
Definition no_status : OperationStatus := OperationStatusOther "".

Definition operationIntentMatches (existing requested : OperationRecord) : bool :=
  (opn_ClusterID (rec_Operation existing) == opn_ClusterID (rec_Operation requested)) &&
  (opn_Engine (rec_Operation existing) == opn_Engine (rec_Operation requested)) &&
  (opn_Kind (rec_Operation existing) == opn_Kind (rec_Operation requested)) &&
  (rec_TargetID existing == rec_TargetID requested).

Definition validateOperationRequest (operation : OperationRecord) : result store_error unit :=
  _ ← require (ValidResourceID (opn_ClusterID (rec_Operation operation))) ErrValidation;
  _ ← require (ValidResourceID (rec_TargetID operation)) ErrValidation;
  _ ← require (Engine_Valid (opn_Engine (rec_Operation operation))) ErrValidation;
  _ ← require (validOperationKind (opn_Kind (rec_Operation operation))) ErrValidation;
  reject (TrimSpace (rec_IdempotencyKey operation) == "") ErrValidation.

(** Writing an operation record: revision, times and the embedded copy. *)
Definition touch (now : Time) (operation : OperationRecord) : OperationRecord :=
  let revision := u64 (rec_MetadataRevision operation + 1) in
  operation <| rec_MetadataRevision := revision |> <| rec_UpdatedAt := now |>
    <| rec_Operation ::= λ o, o <| opn_MetadataRevision := revision |> <| opn_UpdatedAt := now |> |>.

(** The record [CreateOperation] stores for a request. *)
Definition created_operation (fresh : ResourceID) (now : Time) (operation : OperationRecord)
  : OperationRecord :=
  operation <| rec_ResourceID := fresh |> <| rec_MetadataRevision := 1 |>
    <| rec_CreatedAt := now |> <| rec_UpdatedAt := now |>
    <| rec_Operation ::= λ o, o <| opn_ResourceID := fresh |> <| opn_MetadataRevision := 1 |>
         <| opn_CreatedAt := now |> <| opn_UpdatedAt := now |> <| opn_Status := OperationPlanned |> |>
    <| rec_Stage := StageDiscover |> <| rec_Status := OperationPlanned |> <| rec_Attempts := [] |>.

(** Storing the record of one operation. *)
Definition put_operation (id : ResourceID) (operation : OperationRecord) (s : snapshot) : snapshot :=
  s <| sn_Operations ::= <[id := operation]> |>.

Definition answer {A} (a : A) (c : Repository * result store_error unit)
  : Repository * result store_error A :=
  (c.1, match c.2 with Ok _ => Ok a | Err e => Err e end).

(** The flag is true when the key was already used for the same intent. *)
Definition CreateOperation (fresh : ResourceID) (operation : OperationRecord) (r : Repository)
  : Repository * result store_error (OperationRecord * bool) :=
  let operation := operation <| rec_IdempotencyKey ::= TrimSpace |> in
  let s := repo_snapshot r in
  match validateOperationRequest operation with
  | Err e => (r, Err e)
  | Ok _ =>
      match sn_OperationKeys s !! rec_IdempotencyKey operation with
      | Some resourceID =>
          match sn_Operations s !! resourceID with
          | None => (r, Err ErrConflict)
          | Some existing =>
              if negb (operationIntentMatches existing operation) then (r, Err ErrConflict)
              else (r, Ok (existing, true))
          end
      | None =>
          let active := filter (λ e, activeOperationStatus (rec_Status e.2) = true) (sn_Operations s) in
          if bool_decide (maximumActiveOperations ≤ size active)%nat then (r, Err ErrValidation)
          else
            let operation := created_operation fresh (repo_now r) operation in
            answer (operation, false)
              (commit ((put_operation fresh operation s)
                 <| sn_OperationKeys ::= <[rec_IdempotencyKey operation := fresh]> |>) r)
      end
  end.

Definition OperationByID (resourceID : ResourceID) (r : Repository) : option OperationRecord :=
  sn_Operations (repo_snapshot r) !! resourceID.
Definition OperationByIdempotencyKey (key : string) (r : Repository) : option OperationRecord :=
  resourceID ← sn_OperationKeys (repo_snapshot r) !! TrimSpace key;
  sn_Operations (repo_snapshot r) !! resourceID.
Definition OperationsOf (clusterID : ResourceID) (r : Repository) : list OperationRecord :=
  filter (λ o, clusterID = "" ∨ opn_ClusterID (rec_Operation o) = clusterID)
    (map_to_list (sn_Operations (repo_snapshot r))).*2.

(** ** Plans *)

Fixpoint steps_ordered (index : Z) (steps : list PlanStep) : bool :=
  match steps with
  | [] => true
  | step :: steps =>
      (step_Index step == index + 1) && (TrimSpace (step_Name step) != "") &&
      (TrimSpace (step_Owner step) != "") && steps_ordered (index + 1) steps
  end.

Definition validateOperationPlan (operation : OperationRecord) (plan : OperationPlan)
  : result store_error unit :=
  _ ← require (plan_OperationID plan == rec_ResourceID operation) ErrValidation;
  _ ← require (plan_ClusterID plan == opn_ClusterID (rec_Operation operation)) ErrValidation;
  _ ← require (ValidResourceID (plan_SourceID plan)) ErrValidation;
  _ ← require (plan_TargetID plan == rec_TargetID operation) ErrValidation;
  _ ← reject (TrimSpace (plan_ObservationToken plan) == "") ErrValidation;
  _ ← reject (TrimSpace (plan_Digest plan) == "") ErrValidation;
  _ ← reject (bool_decide (size (plan_ResourceRevisions plan) = 0%nat)) ErrValidation;
  _ ← require (forallb (λ e, ValidResourceID e.1 && negb (e.2 =? 0))
                 (map_to_list (plan_ResourceRevisions plan))) ErrValidation;
  _ ← reject (bool_decide (plan_Steps plan = [])) ErrValidation;
  require (steps_ordered 0 (plan_Steps plan)) ErrValidation.

Definition stored_plan (fresh : ResourceID) (now : Time) (plan : OperationPlan) : OperationPlan :=
  plan <| plan_ResourceID := fresh |> <| plan_MetadataRevision := 1 |>
       <| plan_CreatedAt := now |> <| plan_UpdatedAt := now |> <| plan_Stage := StagePlan |>.

Definition PutOperationPlan (fresh : ResourceID) (resourceID : ResourceID) (expectedRevision : uint64)
    (plan : OperationPlan) (r : Repository) : Repository * result store_error OperationRecord :=
  let s := repo_snapshot r in
  match sn_Operations s !! resourceID with
  | None => (r, Err ErrValidation)
  | Some operation =>
      if rec_MetadataRevision operation != expectedRevision then (r, Err ErrConflict)
      else if terminalOperationStatus (rec_Status operation) then (r, Err ErrConflict)
      else match validateOperationPlan operation plan with
      | Err e => (r, Err e)
      | Ok _ =>
          if plan_Digest (rec_Plan operation) != "" then
            if plan_Digest (rec_Plan operation) != plan_Digest plan then (r, Err ErrConflict)
            else (r, Ok operation)
          else
            let operation := touch (repo_now r)
              (operation <| rec_Plan := stored_plan fresh (repo_now r) plan |>
                         <| rec_Stage := StagePlan |>) in
            answer operation (commit (put_operation resourceID operation s) r)
      end
  end.

(** ** Transitions *)

Definition maximum_attempt (step : string) (existing : list StepAttempt) : uint64 :=
  foldl (λ maximum candidate,
    if (att_Step candidate == step) && (maximum <? att_Attempt candidate)
    then att_Attempt candidate else maximum) 0 existing.

Definition validateAttempt (existing : list StepAttempt) (attempt : StepAttempt)
  : result store_error unit :=
  _ ← reject ((TrimSpace (att_Step attempt) == "") || (att_Attempt attempt =? 0) ||
              negb (validOperationStatus (att_Status attempt)) || IsZero (att_StartedAt attempt))
       ErrValidation;
  reject (att_Attempt attempt <=? maximum_attempt (att_Step attempt) existing) ErrConflict.

(** Verification evidence may still settle an indeterminate operation. *)
Definition verificationReconciliationAllowed (operation : OperationRecord)
    (transition : OperationTransition) : bool :=
  match trans_Verification transition with
  | None => false
  | Some verification =>
      (rec_Status operation == OperationIndeterminate) &&
      ((trans_Status transition == OperationIndeterminate) ||
       (trans_Status transition == OperationSucceeded)) &&
      negb ((trans_Status transition == OperationSucceeded) && negb (Successful verification)) &&
      negb ((trans_Observation transition != "") || bool_decide (is_Some (trans_Attempt transition))) &&
      negb ((trans_Stage transition != no_stage) && (trans_Stage transition != rec_Stage operation) &&
            (trans_Stage transition != StageReport))
  end.

Section transitions.
Variable Text : string → string.

Definition redact_check (c : Check) : Check := c <| check_Message ::= Text |>.

Definition apply_stage (transition : OperationTransition) (operation : OperationRecord)
  : result store_error OperationRecord :=
  if trans_Stage transition != no_stage then
    let nextOrder := workflowStageOrder (trans_Stage transition) in
    _ ← reject ((nextOrder =? 0) || (nextOrder <? workflowStageOrder (rec_Stage operation))) ErrConflict;
    Ok (operation <| rec_Stage := trans_Stage transition |>)
  else Ok operation.

Definition apply_status (transition : OperationTransition) (operation : OperationRecord)
  : result store_error OperationRecord :=
  if trans_Status transition != no_status then
    _ ← require (validOperationStatus (trans_Status transition)) ErrValidation;
    Ok (operation <| rec_Status := trans_Status transition |>
                  <| rec_Operation ::= λ o, o <| opn_Status := trans_Status transition |> |>)
  else Ok operation.

Definition apply_observation (transition : OperationTransition) (operation : OperationRecord)
  : result store_error OperationRecord :=
  if trans_Observation transition != "" then
    _ ← reject ((rec_Observation operation != "") &&
                (rec_Observation operation != trans_Observation transition)) ErrConflict;
    Ok (operation <| rec_Observation := trans_Observation transition |>)
  else Ok operation.

Definition apply_precheck (transition : OperationTransition) (operation : OperationRecord)
  : OperationRecord :=
  match trans_Precheck transition with
  | Some checks => operation <| rec_Precheck := redact_check <$> checks |>
  | None => operation
  end.

Definition apply_attempt (transition : OperationTransition) (operation : OperationRecord)
  : result store_error OperationRecord :=
  match trans_Attempt transition with
  | Some attempt =>
      _ ← validateAttempt (rec_Attempts operation) attempt;
      Ok (operation <| rec_Attempts ::= λ l, l ++ [attempt <| att_Message ::= Text |>] |>)
  | None => Ok operation
  end.

Definition apply_execution (transition : OperationTransition) (operation : OperationRecord)
  : OperationRecord :=
  match trans_Execution transition with
  | Some execution =>
      operation <| rec_Execution := execution <| exec_OperationID := rec_ResourceID operation |>
                                              <| exec_Message ::= Text |> |>
  | None => operation
  end.

Definition apply_verification (transition : OperationTransition) (operation : OperationRecord)
  : result store_error OperationRecord :=
  match trans_Verification transition with
  | Some verification =>
      _ ← reject ((ver_OperationID verification != "") &&
                  (ver_OperationID verification != rec_ResourceID operation)) ErrValidation;
      Ok (operation <| rec_Verification := verification
            <| ver_OperationID := rec_ResourceID operation |>
            <| ver_Checks ::= fmap redact_check |> |>)
  | None => Ok operation
  end.

Definition applyOperationTransition (operation : OperationRecord) (transition : OperationTransition)
    (now : Time) : result store_error OperationRecord :=
  let reconcilingVerification := verificationReconciliationAllowed operation transition in
  _ ← reject (terminalOperationStatus (rec_Status operation) && negb reconcilingVerification) ErrConflict;
  operation ← apply_stage transition operation;
  operation ← apply_status transition operation;
  operation ← apply_observation transition operation;
  operation ← apply_attempt transition (apply_precheck transition operation);
  operation ← apply_verification transition (apply_execution transition operation);
  _ ← reject ((rec_Status operation == OperationSucceeded) &&
              (negb (Successful (rec_Verification operation)) ||
               (ver_OperationID (rec_Verification operation) != rec_ResourceID operation)))
       ErrValidation;
  Ok (touch now
        (operation <| rec_FailureClass := TrimSpace (trans_FailureClass transition) |>
                   <| rec_Message := Text (TrimSpace (trans_Message transition)) |>)).

Definition configuration_active (s : snapshot) : bool :=
  existsb (λ e, ctask_Active e.2) (map_to_list (sn_ConfigurationTasks s)).

Definition TransitionOperation (resourceID : ResourceID) (expectedRevision : uint64)
    (transition : OperationTransition) (r : Repository)
  : Repository * result store_error OperationRecord :=
  let s := repo_snapshot r in
  match sn_Operations s !! resourceID with
  | None => (r, Err ErrValidation)
  | Some operation =>
      if rec_MetadataRevision operation != expectedRevision then (r, Err ErrConflict)
      else if (trans_Status transition == OperationRunning) && configuration_active s
      then (r, Err ErrConflict)
      else match applyOperationTransition operation transition (repo_now r) with
      | Err e => (r, Err e)
      | Ok operation => answer operation (commit (put_operation resourceID operation s) r)
      end
  end.

(** ** Audit events and reports *)

Definition redactAudit (event : AuditEvent) : AuditEvent :=
  event <| audit_Message ::= Text |> <| audit_Actor ::= Text |>.
Definition redactReport (report : Report) : Report :=
  report <| report_Title ::= Text |> <| report_Summary ::= Text |>.
Definition longer (limit : nat) (s : string) : bool := Nat.ltb limit (String.length (TrimSpace s)).
Definition validateAuditText (event : AuditEvent) : result store_error unit :=
  reject (longer maximumAuditActorLength (audit_Actor event) ||
          longer maximumAuditMessageLength (audit_Message event)) ErrValidation.
Definition validateReportText (report : Report) : result store_error unit :=
  reject (longer maximumReportTitleLength (report_Title report) ||
          longer maximumReportSummaryLength (report_Summary report)) ErrValidation.

(** [fresh] is the ID a record without one is given. *)
Definition normalizeFinalAudit (fresh : ResourceID) (event : AuditEvent) (operationID : ResourceID)
    (now : Time) : result store_error AuditEvent :=
  let event := redactAudit event in
  _ ← reject ((audit_OperationID event != "") && (audit_OperationID event != operationID)) ErrValidation;
  let event := event <| audit_OperationID := operationID |> in
  _ ← validateAuditText event;
  Ok (event <| audit_ResourceID := if audit_ResourceID event == "" then fresh else audit_ResourceID event |>
            <| audit_CreatedAt := if IsZero (audit_CreatedAt event) then now else audit_CreatedAt event |>
            <| audit_UpdatedAt := now |> <| audit_MetadataRevision := 1 |>).

(** The loop over the stored reports: replace the first with the same ID, or
    append. *)
Fixpoint upsert_report (report : Report) (operationID : ResourceID) (now : Time) (reports : list Report)
  : result store_error (list Report) :=
  match reports with
  | [] =>
      Ok [report <| report_CreatedAt := if IsZero (report_CreatedAt report) then now
                                        else report_CreatedAt report |>
                 <| report_UpdatedAt := now |> <| report_MetadataRevision := 1 |>]
  | existing :: rest =>
      if report_ResourceID existing != report_ResourceID report then
        rest ← upsert_report report operationID now rest; Ok (existing :: rest)
      else if report_OperationID existing != operationID then Err ErrConflict
      else Ok (report <| report_CreatedAt := report_CreatedAt existing |>
                      <| report_UpdatedAt := now |>
                      <| report_MetadataRevision := u64 (report_MetadataRevision existing + 1) |> :: rest)
  end.

Definition upsertFinalReport (fresh : ResourceID) (reports : list Report) (report : Report)
    (operationID : ResourceID) (now : Time) : result store_error (list Report) :=
  let report := redactReport report in
  _ ← require (terminalOperationStatus (report_Status report)) ErrValidation;
  _ ← reject ((report_OperationID report != "") && (report_OperationID report != operationID)) ErrValidation;
  _ ← validateReportText report;
  let report := report <| report_OperationID := operationID |>
    <| report_ResourceID := if report_ResourceID report == "" then fresh else report_ResourceID report |> in
  upsert_report report operationID now reports.

(** ** Review *)

Definition normalizeOperationReviewInput (reviewedBy note : string)
  : result store_error (string * string) :=
  let reviewedBy := TrimSpace reviewedBy in
  let note := TrimSpace note in
  _ ← reject ((reviewedBy == "") || Nat.ltb maximumAuditActorLength (String.length reviewedBy))
       ErrValidation;
  _ ← reject ((note == "") || Nat.ltb maximumOperationReviewNoteLength (String.length note))
       ErrValidation;
  Ok (reviewedBy, note).

Definition reviewed_operation (now : Time) (reviewedBy note : string) (operation : OperationRecord)
  : OperationRecord :=
  touch now (operation <| rec_Review :=
    Some (mkOperationReview now reviewedBy OperationReviewAcknowledgedIndeterminate note) |>).

Definition ReviewIndeterminateOperation (freshAudit freshReport : ResourceID) (resourceID : ResourceID)
    (expectedRevision : uint64) (reviewedBy note : string) (r : Repository)
  : Repository * result store_error OperationRecord :=
  let s := repo_snapshot r in
  let now := repo_now r in
  match normalizeOperationReviewInput reviewedBy note with
  | Err e => (r, Err e)
  | Ok (reviewedBy, note) =>
  match sn_Operations s !! resourceID with
  | None => (r, Err ErrNotFound)
  | Some operation =>
  match rec_Review operation with
  | Some review =>
      if (review_ReviewedBy review == reviewedBy) && (review_Note review == note) &&
         (review_Disposition review == OperationReviewAcknowledgedIndeterminate)
      then (r, Ok operation) else (r, Err ErrConflict)
  | None =>
      if rec_MetadataRevision operation != expectedRevision then (r, Err ErrConflict)
      else if rec_Status operation != OperationIndeterminate then (r, Err ErrConflict)
      else
        let operation := reviewed_operation now reviewedBy note operation in
        let written :=
          audit ← normalizeFinalAudit freshAudit
            (zero_AuditEvent <| audit_OperationID := rec_ResourceID operation |>
               <| audit_Stage := StageReport |> <| audit_Actor := reviewedBy |>
               <| audit_Message :=
                    ("indeterminate outcome acknowledged after operator review: " +:+ note) |>)
            (rec_ResourceID operation) now;
          reports ← upsertFinalReport freshReport (sn_Reports s)
            (zero_Report <| report_OperationID := rec_ResourceID operation |>
               <| report_Title := "indeterminate operation review" |>
               <| report_Status := OperationIndeterminate |>
               <| report_Summary := ("operator acknowledged the unresolved outcome: " +:+ note) |>)
            (rec_ResourceID operation) now;
          Ok (audit, reports) in
        match written with
        | Err e => (r, Err e)
        | Ok (audit, reports) =>
            answer operation (commit ((put_operation resourceID operation s)
              <| sn_Audits ::= λ l, l ++ [audit] |> <| sn_Reports := reports |>) r)
        end
  end end end.

(** ** Finalisation *)

(** Audits and reports come with the IDs [NewResourceID] would give them. *)
Definition finalizeOperationLocked (resourceID : ResourceID) (expectedRevision : uint64)
    (transition : OperationTransition) (audits : list (ResourceID * AuditEvent))
    (reports : list (ResourceID * Report)) (r : Repository)
  : Repository * result store_error OperationRecord :=
  let s := repo_snapshot r in
  let now := repo_now r in
  match sn_Operations s !! resourceID with
  | None => (r, Err ErrValidation)
  | Some operation =>
      if rec_MetadataRevision operation != expectedRevision then (r, Err ErrConflict)
      else
        let next :=
          operation ← applyOperationTransition operation transition now;
          audits ← for_each (λ l e, event ← normalizeFinalAudit e.1 e.2 resourceID now; Ok (l ++ [event]))
                     (sn_Audits s) audits;
          reports ← for_each (λ l e, upsertFinalReport e.1 l e.2 resourceID now) (sn_Reports s) reports;
          Ok (operation, audits, reports) in
        match next with
        | Err e => (r, Err e)
        | Ok (operation, audits, reports) =>
            answer operation (commit ((put_operation resourceID operation s)
              <| sn_Audits := audits |> <| sn_Reports := reports |>) r)
        end
  end.

Definition FinalizeOperation := finalizeOperationLocked.

(** The flag tells whether the operation was abandoned and is now finalised. *)
Definition FinalizeAbandonedOperation (resourceID : ResourceID) (expectedRevision : uint64)
    (observedAt staleBefore : Time) (transition : OperationTransition)
    (audits : list (ResourceID * AuditEvent)) (reports : list (ResourceID * Report)) (r : Repository)
  : Repository * result store_error (OperationRecord * bool) :=
  let s := repo_snapshot r in
  if IsZero observedAt || IsZero staleBefore || After staleBefore observedAt then (r, Err ErrValidation)
  else match sn_Operations s !! resourceID with
  | None => (r, Err ErrValidation)
  | Some operation =>
      if (rec_MetadataRevision operation != expectedRevision) ||
         (rec_Status operation != OperationRunning) ||
         IsZero (rec_UpdatedAt operation) || After (rec_UpdatedAt operation) staleBefore
      then (r, Ok (operation, false))
      else if existsb (λ e, (lock_OperationID e.2 == resourceID) && After (lock_ExpiresAt e.2) observedAt)
                (map_to_list (sn_OperationLocks s))
      then (r, Ok (operation, false))
      else match finalizeOperationLocked resourceID expectedRevision transition audits reports r with
      | (r, Ok finalized) => (r, Ok (finalized, true))
      | (r, Err e) => (r, Err e)
      end
  end.

(** ** Approval grants *)

Record ConsumeApprovalGrantRequest : Type := mkConsume {
  con_GrantID : ResourceID; con_TokenHash : string; con_OperationID : ResourceID;
  con_ExpectedOperationRevision : uint64; con_Now : Time; con_Transition : OperationTransition
}.

Definition validApprovalGrantStatus (status : ApprovalGrantStatus) : bool :=
  match status with ApprovalGrantStatusOther _ => false | _ => true end.

Definition validateApprovalGrant (grant : ApprovalGrant) : result store_error unit :=
  _ ← require (ValidResourceID (grant_ResourceID grant)) ErrValidation;
  _ ← reject (grant_MetadataRevision grant =? 0) ErrValidation;
  _ ← reject (TrimSpace (grant_TokenHash grant) == "") ErrValidation;
  _ ← require (ValidResourceID (grant_OperationID grant) && ValidResourceID (grant_ClusterID grant) &&
               ValidResourceID (grant_TargetID grant)) ErrValidation;
  _ ← require (Engine_Valid (grant_Engine grant) && validOperationKind (grant_OperationKind grant))
       ErrValidation;
  _ ← reject ((TrimSpace (grant_PlanDigest grant) == "") ||
              (TrimSpace (grant_ObservationDigest grant) == "")) ErrValidation;
  _ ← reject ((TrimSpace (grant_IssuedBy grant) == "") || IsZero (grant_IssuedAt grant) ||
              negb (After (grant_ExpiresAt grant) (grant_IssuedAt grant))) ErrValidation;
  _ ← require (validApprovalGrantStatus (grant_Status grant)) ErrValidation;
  if grant_Status grant == ApprovalGrantConsumed
  then reject (IsZero (grant_ConsumedAt grant) ||
               negb (ValidResourceID (grant_ConsumedByOperationID grant))) ErrValidation
  else reject (negb (IsZero (grant_ConsumedAt grant)) || (grant_ConsumedByOperationID grant != ""))
         ErrValidation.

Definition PutApprovalGrant (grant : ApprovalGrant) (r : Repository)
  : Repository * result store_error unit :=
  let s := repo_snapshot r in
  match validateApprovalGrant grant with
  | Err e => (r, Err e)
  | Ok _ =>
      if bool_decide (is_Some (sn_ApprovalGrants s !! grant_ResourceID grant)) then (r, Err ErrConflict)
      else commit (s <| sn_ApprovalGrants ::= <[grant_ResourceID grant := grant]> |>) r
  end.

Definition GrantByID (resourceID : ResourceID) (r : Repository) : option ApprovalGrant :=
  sn_ApprovalGrants (repo_snapshot r) !! resourceID.

(** The grant was issued for exactly this operation, plan and observation. *)
Definition grant_matches (grant : ApprovalGrant) (operation : OperationRecord) : bool :=
  (grant_OperationID grant == rec_ResourceID operation) &&
  (grant_ClusterID grant == opn_ClusterID (rec_Operation operation)) &&
  (grant_Engine grant == opn_Engine (rec_Operation operation)) &&
  (grant_OperationKind grant == opn_Kind (rec_Operation operation)) &&
  (grant_TargetID grant == rec_TargetID operation) &&
  (grant_PlanDigest grant == plan_Digest (rec_Plan operation)) &&
  (grant_ObservationDigest grant == rec_Observation operation).

Definition consumed_grant (now : Time) (operationID : ResourceID) (grant : ApprovalGrant) : ApprovalGrant :=
  grant <| grant_Status := ApprovalGrantConsumed |> <| grant_ConsumedAt := now |>
        <| grant_ConsumedByOperationID := operationID |>
        <| grant_MetadataRevision ::= λ n, u64 (n + 1) |> <| grant_UpdatedAt := now |>.

Definition ConsumeApprovalGrant (request : ConsumeApprovalGrantRequest) (r : Repository)
  : Repository * result store_error (ApprovalGrant * OperationRecord) :=
  let s := repo_snapshot r in
  let tokenHash := TrimSpace (con_TokenHash request) in
  let checked :=
    _ ← require (ValidResourceID (con_GrantID request) && ValidResourceID (con_OperationID request) &&
                 negb (con_ExpectedOperationRevision request =? 0)) ErrValidation;
    _ ← reject (tokenHash == "") ErrValidation;
    _ ← require (trans_Stage (con_Transition request) == StageApprove) ErrValidation;
    grant ← match sn_ApprovalGrants s !! con_GrantID request with Some g => Ok g | None => Err ErrConflict end;
    operation ← match sn_Operations s !! con_OperationID request with Some o => Ok o | None => Err ErrConflict end;
    _ ← require (rec_MetadataRevision operation == con_ExpectedOperationRevision request) ErrConflict;
    _ ← require (grant_Status grant == ApprovalGrantActive) ErrConflict;
    let now := if IsZero (con_Now request) then repo_now r else con_Now request in
    _ ← require (Before now (grant_ExpiresAt grant)) ErrConflict;
    _ ← require (grant_TokenHash grant == tokenHash) ErrConflict;
    _ ← require (grant_matches grant operation) ErrConflict;
    approved ← applyOperationTransition operation (con_Transition request) now;
    Ok (consumed_grant now (rec_ResourceID operation) grant, approved) in
  match checked with
  | Err e => (r, Err e)
  | Ok (grant, approved) =>
      answer (grant, approved)
        (commit ((put_operation (rec_ResourceID approved) approved s)
           <| sn_ApprovalGrants ::= <[grant_ResourceID grant := grant]> |>) r)
  end.
End transitions.

(** ** How a record may change *)

(** A succeeded operation carries its own successful verification. *)
Definition op_verified (operation : OperationRecord) : Prop :=
  Successful (rec_Verification operation) = true ∧
  ver_OperationID (rec_Verification operation) = rec_ResourceID operation.

(** The request an operation was created for. *)
Definition op_intent (o : OperationRecord)
  : ResourceID * ResourceID * string * ResourceID * ResourceID * Engine * OperationKind :=
  (rec_ResourceID o, rec_TargetID o, rec_IdempotencyKey o, opn_ResourceID (rec_Operation o),
   opn_ClusterID (rec_Operation o), opn_Engine (rec_Operation o), opn_Kind (rec_Operation o)).

(** One write of an operation record. *)
Record op_evolves (old new : OperationRecord) : Prop := mk_evolves {
  ev_intent : op_intent new = op_intent old;
  ev_revision : rec_MetadataRevision new = u64 (rec_MetadataRevision old + 1);
  ev_copy : opn_MetadataRevision (rec_Operation new) = rec_MetadataRevision new;
  ev_status : opn_Status (rec_Operation old) = rec_Status old → opn_Status (rec_Operation new) = rec_Status new;
  ev_settled : terminalOperationStatus (rec_Status old) = true → rec_Status old = OperationIndeterminate;
  ev_indeterminate : rec_Status old = OperationIndeterminate →
    rec_Status new = OperationIndeterminate ∨ rec_Status new = OperationSucceeded;
  ev_verified : rec_Status new = OperationSucceeded → op_verified new;
  ev_observation : rec_Observation old ≠ "" → rec_Observation new = rec_Observation old;
  ev_plan : plan_Digest (rec_Plan old) ≠ "" → rec_Plan new = rec_Plan old;
  ev_stage : workflowStageOrder (rec_Stage old) ≤ workflowStageOrder (rec_Stage new) ∨
             plan_Digest (rec_Plan old) = "" ∧ rec_Stage new = StagePlan;
  ev_attempts : ∃ extra, rec_Attempts new = rec_Attempts old ++ extra;
  ev_review : is_Some (rec_Review old) → rec_Review new = rec_Review old
}.

Section evolution.
Variable Text : string → string.

(** Filling in a record keeps what is already settled in it. *)
Record op_grows (o o' : OperationRecord) : Prop := mk_grows {
  gr_intent : op_intent o' = op_intent o;
  gr_revision : rec_MetadataRevision o' = rec_MetadataRevision o;
  gr_status : opn_Status (rec_Operation o) = rec_Status o → opn_Status (rec_Operation o') = rec_Status o';
  gr_plan : rec_Plan o' = rec_Plan o;
  gr_review : rec_Review o' = rec_Review o;
  gr_observation : rec_Observation o ≠ "" → rec_Observation o' = rec_Observation o;
  gr_stage : workflowStageOrder (rec_Stage o) ≤ workflowStageOrder (rec_Stage o');
  gr_attempts : ∃ extra, rec_Attempts o' = rec_Attempts o ++ extra
}.
#[export] Instance op_grows_preorder : PreOrder op_grows.
Proof.
  split.
  - intros o. split; try done. exists []. by rewrite app_nil_r.
  - intros o1 o2 o3 [H1 H2 H2' H3 H4 H5 H6 [x1 H7]] [G1 G2 G2' G3 G4 G5 G6 [x2 G7]].
    split; try congruence; [auto| |lia|].
    + intros Hne. rewrite <- (H5 Hne). apply G5. by rewrite H5.
    + exists (x1 ++ x2). by rewrite G7, H7, app_assoc.
Qed.

Ltac grows := split; cbn; try done; try (exists []; by rewrite app_nil_r).

Lemma apply_stage_grows t o o' : apply_stage t o = Ok o' →
  op_grows o o' ∧ rec_Status o' = rec_Status o.
Proof.
  unfold apply_stage. intros H. case_match; repeat bsimpl_step; injection H as <-; [|done].
  split; [|done]. grows; lia.
Qed.
Lemma apply_status_grows t o o' : apply_status t o = Ok o' →
  op_grows o o' ∧ rec_Status o' = (if trans_Status t != no_status then trans_Status t else rec_Status o).
Proof.
  unfold apply_status. intros H. case_match; repeat bsimpl_step; injection H as <-; [|done].
  split; [|done]. grows.
Qed.
Lemma apply_observation_grows t o o' : apply_observation t o = Ok o' →
  op_grows o o' ∧ rec_Status o' = rec_Status o.
Proof.
  unfold apply_observation. intros H. case_match; repeat bsimpl_step; injection H as <-; [|done].
  split; [|done]. grows. intros Hne.
  match goal with H : _ ∨ _ |- _ => destruct H end; by repeat bsimpl_step.
Qed.
Lemma apply_precheck_grows t o :
  op_grows o (apply_precheck Text t o) ∧ rec_Status (apply_precheck Text t o) = rec_Status o.
Proof. unfold apply_precheck. destruct (trans_Precheck t); [|done]. split; [|done]. grows. Qed.
Lemma apply_attempt_grows t o o' : apply_attempt Text t o = Ok o' →
  op_grows o o' ∧ rec_Status o' = rec_Status o.
Proof.
  unfold apply_attempt. intros H. destruct (trans_Attempt t); repeat bsimpl_step; injection H as <-; [|done].
  split; [|done]. split; try done. by eexists.
Qed.
Lemma apply_execution_grows t o :
  op_grows o (apply_execution Text t o) ∧ rec_Status (apply_execution Text t o) = rec_Status o.
Proof. unfold apply_execution. destruct (trans_Execution t); [|done]. split; [|done]. grows. Qed.
Lemma apply_verification_grows t o o' : apply_verification Text t o = Ok o' →
  op_grows o o' ∧ rec_Status o' = rec_Status o.
Proof.
  unfold apply_verification. intros H. destruct (trans_Verification t); repeat bsimpl_step; injection H as <-; [|done].
  split; [|done]. grows.
Qed.

(** A change and the write that records it. *)
Lemma grows_evolves o o' now :
  op_grows o o' →
  (terminalOperationStatus (rec_Status o) = true → rec_Status o = OperationIndeterminate) →
  (rec_Status o = OperationIndeterminate →
    rec_Status o' = OperationIndeterminate ∨ rec_Status o' = OperationSucceeded) →
  (rec_Status o' = OperationSucceeded → op_verified o') → op_evolves o (touch now o').
Proof.
  intros [H1 H2 H2' H3 H4 H5 H6 H7] Hs Hi Hv. split; cbn; try done; try tauto; try congruence.
Qed.

Lemma reconciliation_status o t : verificationReconciliationAllowed o t = true →
  rec_Status o = OperationIndeterminate ∧
  (trans_Status t = OperationIndeterminate ∨ trans_Status t = OperationSucceeded).
Proof.
  unfold verificationReconciliationAllowed. destruct (trans_Verification t); [|done].
  intros H. repeat bsimpl_step. split; [done|].
  repeat (match goal with H : _ ∨ _ |- _ => destruct H end; repeat bsimpl_step); auto.
Qed.

Lemma apply_evolves o t now o' :
  applyOperationTransition Text o t now = Ok o' → op_evolves o o' ∧
  rec_Status o' = (if trans_Status t != no_status then trans_Status t else rec_Status o) ∧
  rec_UpdatedAt o' = now.
Proof.
  unfold applyOperationTransition. intros H.
  apply result_bind_ok in H as (u & Hterm & H). apply result_bind_ok in H as (o1 & H1 & H).
  apply result_bind_ok in H as (o2 & H2 & H). apply result_bind_ok in H as (o3 & H3 & H).
  apply result_bind_ok in H as (o4 & H4 & H). apply result_bind_ok in H as (o5 & H5 & H).
  apply result_bind_ok in H as (u' & Hver & H). injection H as <-.
  apply reject_ok in Hterm, Hver.
  assert (terminalOperationStatus (rec_Status o) = true →
    rec_Status o = OperationIndeterminate ∧
    (trans_Status t = OperationIndeterminate ∨ trans_Status t = OperationSucceeded)) as Hrec.
  { intros Ht. apply reconciliation_status. destruct (verificationReconciliationAllowed o t); [done|].
    by rewrite Ht in Hterm. }
  clear Hterm.
  apply apply_stage_grows in H1 as [H1 E1]. apply apply_status_grows in H2 as [H2 E2].
  apply apply_observation_grows in H3 as [H3 E3].
  pose proof (apply_precheck_grows t o3) as [Hp Ep]. apply apply_attempt_grows in H4 as [H4 E4].
  pose proof (apply_execution_grows t o4) as [He Ee]. apply apply_verification_grows in H5 as [H5 E5].
  assert (op_grows o o5) as G by (by do 6 (etrans; [eassumption|])).
  assert (rec_Status o5 = if trans_Status t != no_status then trans_Status t else rec_Status o) as E
    by (rewrite E5, Ee, E4, Ep, E3, E2, E1; done).
  clear H1 H2 H3 H4 H5 Hp He E1 E2 E3 E4 E5 Ep Ee o1 o2 o3 o4.
  split; [|done]. apply grows_evolves.
  - destruct G. by split.
  - naive_solver.
  - intros Hi. cbn. rewrite E. destruct (Hrec ltac:(by rewrite Hi)) as [_ [-> | ->]]; cbn; auto.
  - cbn. intros Hs. rewrite bool_decide_true in Hver by done.
    cbn [andb] in Hver. repeat bsimpl_step.
    match goal with H : Successful _ = true |- _ => by split end.
Qed.

(** ** What the repository operations do to the records *)

(** The state of the records: the identities agree, a succeeded operation is
    verified, and the idempotency index is exact. *)
Record operations_ok (ops : gmap ResourceID OperationRecord) (keys : gmap string ResourceID) : Prop := mk_ops_ok {
  ok_ids : ∀ id op, ops !! id = Some op → rec_ResourceID op = id ∧ opn_ResourceID (rec_Operation op) = id;
  ok_copy : ∀ id op, ops !! id = Some op → opn_Status (rec_Operation op) = rec_Status op ∧
    opn_MetadataRevision (rec_Operation op) = rec_MetadataRevision op;
  ok_verified : ∀ id op, ops !! id = Some op → rec_Status op = OperationSucceeded → op_verified op;
  ok_blank : ∀ id op, ops !! id = Some op → TrimSpace (rec_IdempotencyKey op) ≠ "";
  ok_index : ∀ key id, keys !! key = Some id ↔
    ∃ op, ops !! id = Some op ∧ TrimSpace (rec_IdempotencyKey op) = key
}.
Definition grants_ok (grants : gmap ResourceID ApprovalGrant) : Prop :=
  ∀ id g, grants !! id = Some g → grant_ResourceID g = id.
Definition store_operations_ok (s : snapshot) : Prop :=
  operations_ok (sn_Operations s) (sn_OperationKeys s) ∧ grants_ok (sn_ApprovalGrants s).

(** How a mutation changes the operation records; a new one gets an ID that is
    not in [used]. *)
Inductive operations_change (used : gset ResourceID) (s value : snapshot) : Prop :=
| change_none : sn_Operations value = sn_Operations s → sn_OperationKeys value = sn_OperationKeys s →
    operations_change used s value
| change_write id op op' : sn_Operations s !! id = Some op → op_evolves op op' →
    sn_Operations value = <[id := op']> (sn_Operations s) → sn_OperationKeys value = sn_OperationKeys s →
    operations_change used s value
| change_create fresh now op : fresh ∉ used → sn_Operations s !! fresh = None →
    sn_OperationKeys s !! rec_IdempotencyKey op = None →
    TrimSpace (rec_IdempotencyKey op) = rec_IdempotencyKey op → rec_IdempotencyKey op ≠ "" →
    sn_Operations value = <[fresh := created_operation fresh now op]> (sn_Operations s) →
    sn_OperationKeys value = <[rec_IdempotencyKey op := fresh]> (sn_OperationKeys s) →
    operations_change used s value.

(** Grants: only a new ID, or an active grant that is consumed, is ever written. *)
Definition grants_change (used : gset ResourceID) (s value : snapshot) : Prop :=
  ∀ id g, sn_ApprovalGrants value !! id = Some g →
    sn_ApprovalGrants s !! id = Some g ∨
    grant_ResourceID g = id ∧
    (id ∉ used ∨ ∃ old, sn_ApprovalGrants s !! id = Some old ∧ grant_Status old = ApprovalGrantActive ∧ grant_Status g = ApprovalGrantConsumed).

Lemma compacted_grant s id g :
  sn_ApprovalGrants (compactSnapshotHistory s) !! id = Some g → sn_ApprovalGrants s !! id = Some g.
Proof. cbn. unfold compact_grants. rewrite keep_ids_lookup. tauto. Qed.
Lemma compacted_operation s id op :
  sn_Operations (compactSnapshotHistory s) !! id = Some op → sn_Operations s !! id = Some op.
Proof. cbn. by intros [? _]%compact_operations_lookup. Qed.
Lemma compact_operations_ok s :
  store_operations_ok s → store_operations_ok (compactSnapshotHistory s).
Proof.
  intros [[H1 H2 H3 H4 H5] Hg]. split; [|intros id g Hid%compacted_grant; by apply Hg]. cbn. clear Hg.
  set (kept := compact_operations (sn_Operations s)).
  assert (∀ id op, kept !! id = Some op → sn_Operations s !! id = Some op) as Hsub
    by (intros id op Hop; by apply compact_operations_lookup in Hop as [? _]).
  assert (∀ key id, compact_keys (sn_OperationKeys s) kept !! key = Some id →
    ∃ op, kept !! id = Some op ∧ TrimSpace (rec_IdempotencyKey op) = key) as Hk.
  { intros key id [?|(Hkey & [op Hop] & _)]%compact_keys_spec; [done|].
    apply H5 in Hkey as (op' & Hop' & <-). exists op.
    assert (op' = op) as -> by (apply Hsub in Hop; congruence). done. }
  split; [by eauto..|]. intros key id. split; [apply Hk|]. intros (op & Hop & <-).
  assert (TrimSpace (rec_IdempotencyKey op) ≠ "") as Hne by eauto.
  destruct (compact_keys_complete (sn_OperationKeys s) kept id op Hop Hne) as [id' Hid].
  rewrite Hid. f_equal. apply Hk in Hid as (op' & Hop' & Hkey).
  assert (sn_OperationKeys s !! TrimSpace (rec_IdempotencyKey op) = Some id) by (apply H5; eauto).
  assert (sn_OperationKeys s !! TrimSpace (rec_IdempotencyKey op) = Some id') by (apply H5; eauto).
  congruence.
Qed.

Lemma evolves_key old new : op_evolves old new → rec_IdempotencyKey new = rec_IdempotencyKey old.
Proof. intros [H _ _ _ _ _ _ _ _ _ _ _]. by injection H. Qed.

Lemma change_ok used s value :
  operations_ok (sn_Operations s) (sn_OperationKeys s) → operations_change used s value →
  operations_ok (sn_Operations value) (sn_OperationKeys value).
Proof.
  intros [H1 H2 H3 H4 H5] Hch.
  destruct Hch as [Ho Hk|id op op' Hop He Ho Hk|fresh now op _ Hf Hfk Ht Hb Ho Hk]; rewrite Ho, Hk; clear Ho Hk.
  - by split.
  - pose proof (evolves_key _ _ He) as Hkey. destruct (H1 _ _ Hop), (H2 _ _ Hop).
    destruct He as [Hi _ Hc Hst _ _ Hv _ _ _ _ _]. injection Hi as Hi1 _ _ Hi2 _ _ _.
    split; try (intros j o; rewrite lookup_insert_Some; intros [[<- <-]|[_ Ho]]; [|by eauto]).
    + split; congruence.
    + split; [by apply Hst|done].
    + done.
    + rewrite Hkey. by eauto.
    + intros key j. rewrite H5. setoid_rewrite lookup_insert_Some. split.
      * intros (o & Ho & <-). destruct (decide (id = j)) as [->|]; [|by eauto 6].
        exists op'. split; [by auto|]. rewrite Hkey. congruence.
      * intros (o & [[<- <-]|[_ Ho]] & <-); [exists op|by eauto]. by rewrite Hkey.
  - split; try (intros j o; rewrite lookup_insert_Some; intros [[<- <-]|[_ Ho]]; [|by eauto]);
      try done; [change (TrimSpace (rec_IdempotencyKey op) ≠ ""); congruence|].
    intros key j. setoid_rewrite lookup_insert_Some. split.
    + intros [[<- <-]|[Hne Ho]]; [by eauto|]. apply H5 in Ho as (o & Ho & <-). exists o.
      split; [|done]. right. split; [|done]. intros <-. congruence.
    + intros (o & [[<- <-]|[Hne Ho]] & <-); [left; cbn; auto|]. right.
      split; [|by apply H5; eauto]. intros Hk. assert (is_Some (sn_OperationKeys s !! rec_IdempotencyKey op)) as [? ?].
      { exists j. apply H5. by eauto. }
      congruence.
Qed.

(** The effect of one repository operation on the records. *)
Definition operations_effect (used : gset ResourceID) (r r' : Repository) : Prop :=
  repo_snapshot r' = repo_snapshot r ∨
  ∃ value, repo_snapshot r' = compactSnapshotHistory value ∧ operations_change used (repo_snapshot r) value ∧
    grants_change used (repo_snapshot r) value.

Lemma effect_none used r : operations_effect used r r.
Proof. by left. Qed.
Lemma commit_effect {A} (a : A) used value r r' res :
  operations_change used (repo_snapshot r) value → grants_change used (repo_snapshot r) value → answer a (commit value r) = (r', res) → operations_effect used r r'.
Proof.
  intros Hv Hg. destruct (commit value r) as [r1 res1] eqn:Hc. intros [= <- _].
  apply commit_spec in Hc as [_ Hc]. cbn. unfold operations_effect.
  destruct res1; [|destruct Hc as [Hc|Hc]]; destruct Hc; eauto.
Qed.

Lemma create_effect used fresh op r r' res :
  fresh ∉ used → sn_Operations (repo_snapshot r) !! fresh = None →
  CreateOperation fresh op r = (r', res) → operations_effect used r r'.
Proof.
  unfold CreateOperation. intros Hfr Hf.
  destruct (validateOperationRequest _) eqn:Hval; [|intros [= <- <-]; apply effect_none].
  unfold validateOperationRequest in Hval. repeat bsimpl_step.
  destruct (sn_OperationKeys _ !! _) as [known|] eqn:Hk.
  { destruct (sn_Operations _ !! known); [destruct (negb _)|]; intros [= <- <-]; apply effect_none. }
  case_bool_decide; [intros [= <- <-]; apply effect_none|].
  assert (TrimSpace (TrimSpace (rec_IdempotencyKey op)) = TrimSpace (rec_IdempotencyKey op)) as Ht
    by apply TrimSpace_idemp.
  apply commit_effect; [|by left]. eapply change_create; try done.
  intros He. match goal with H : TrimSpace _ ≠ "" |- _ => apply H end. by rewrite He.
Qed.

Lemma plan_evolves fresh now plan op :
  terminalOperationStatus (rec_Status op) = false → plan_Digest (rec_Plan op) = "" →
  (rec_Status op = OperationSucceeded → op_verified op) →
  op_evolves op (touch now (op <| rec_Plan := stored_plan fresh now plan |> <| rec_Stage := StagePlan |>)).
Proof.
  intros Ht Hp Hv. split; try done; cbn; try congruence.
  - intros He. by rewrite He in Ht.
  - by right.
  - exists []. by rewrite app_nil_r.
Qed.
Lemma review_evolves now by_ note op :
  rec_Status op = OperationIndeterminate → rec_Review op = None →
  op_evolves op (reviewed_operation now by_ note op).
Proof.
  intros Hs Hr. split; try done; cbn; auto; try congruence.
  - by left.
  - exists []. by rewrite app_nil_r.
  - rewrite Hr. by intros [].
Qed.

Lemma plan_effect used fresh id rev plan r r' res :
  PutOperationPlan fresh id rev plan r = (r', res) → operations_effect used r r'.
Proof.
  unfold PutOperationPlan. destruct (sn_Operations _ !! id) as [op|] eqn:Hop; [|intros [= <- <-]; apply effect_none].
  destruct (_ != rev); [intros [= <- <-]; apply effect_none|].
  destruct (terminalOperationStatus _) eqn:Ht; [intros [= <- <-]; apply effect_none|].
  destruct (validateOperationPlan _ _); [|intros [= <- <-]; apply effect_none].
  destruct (bool_decide_reflect (plan_Digest (rec_Plan op) = "")) as [Hd|Hd]; cbn [negb].
  2: { destruct (_ != _); intros [= <- <-]; apply effect_none. }
  apply commit_effect; [|by left]. eapply change_write; [done| |done..].
  apply plan_evolves; [done..|]. intros He. by rewrite He in Ht.
Qed.
Lemma transition_effect used id rev t r r' res :
  TransitionOperation Text id rev t r = (r', res) → operations_effect used r r'.
Proof.
  unfold TransitionOperation. destruct (sn_Operations _ !! id) as [op|] eqn:Hop; [|intros [= <- <-]; apply effect_none].
  destruct (_ != rev); [intros [= <- <-]; apply effect_none|].
  destruct (_ && _); [intros [= <- <-]; apply effect_none|].
  destruct (applyOperationTransition _ _ _ _) eqn:Ha; [|intros [= <- <-]; apply effect_none].
  apply commit_effect; [|by left]. eapply change_write; [done| |done..]. by eapply apply_evolves.
Qed.
Lemma review_effect used f1 f2 id rev by_ note r r' res :
  ReviewIndeterminateOperation Text f1 f2 id rev by_ note r = (r', res) → operations_effect used r r'.
Proof.
  unfold ReviewIndeterminateOperation.
  destruct (normalizeOperationReviewInput _ _) as [[b n]|]; [|intros [= <- <-]; apply effect_none].
  destruct (sn_Operations _ !! id) as [op|] eqn:Hop; [|intros [= <- <-]; apply effect_none].
  destruct (rec_Review op) eqn:Hr; [destruct (_ && _); intros [= <- <-]; apply effect_none|].
  destruct (_ != rev); [intros [= <- <-]; apply effect_none|].
  destruct (bool_decide_reflect (rec_Status op = OperationIndeterminate)) as [Hs|Hs]; cbn [negb];
    [|intros [= <- <-]; apply effect_none].
  match goal with |- context [match ?x with Ok _ => _ | Err _ => _ end] => destruct x as [[au re]|] end;
    [|intros [= <- <-]; apply effect_none].
  apply commit_effect; [|by left]. eapply change_write; [done| |done..]. by apply review_evolves.
Qed.
Lemma finalize_effect used id rev t audits reports r r' res :
  finalizeOperationLocked Text id rev t audits reports r = (r', res) → operations_effect used r r'.
Proof.
  unfold finalizeOperationLocked. destruct (sn_Operations _ !! id) as [op|] eqn:Hop; [|intros [= <- <-]; apply effect_none].
  destruct (_ != rev); [intros [= <- <-]; apply effect_none|].
  destruct (applyOperationTransition _ _ _ _) eqn:Ha; [|intros [= <- <-]; apply effect_none].
  cbn [mbind result_bind].
  match goal with |- context [match ?x with Ok _ => _ | Err _ => _ end] => destruct x as [[[op2 au] re]|] eqn:Hx end;
    [|intros [= <- <-]; apply effect_none].
  repeat bsimpl_step. injection Hx as -> _ _.
  apply commit_effect; [|by left]. eapply change_write; [done| |done..]. by eapply apply_evolves.
Qed.
Lemma abandoned_effect used id rev obs stale t audits reports r r' res :
  FinalizeAbandonedOperation Text id rev obs stale t audits reports r = (r', res) → operations_effect used r r'.
Proof.
  unfold FinalizeAbandonedOperation. destruct (_ || _); [intros [= <- <-]; apply effect_none|].
  destruct (sn_Operations _ !! id); [|intros [= <- <-]; apply effect_none].
  destruct (_ || _); [intros [= <- <-]; apply effect_none|].
  destruct (existsb _ _); [intros [= <- <-]; apply effect_none|].
  destruct (finalizeOperationLocked _ _ _ _ _ _ r) as [r1 [o1|e1]] eqn:Hf;
    intros [= <- <-]; by eapply finalize_effect.
Qed.
Lemma grant_effect used grant r r' res :
  grant_ResourceID grant ∉ used → PutApprovalGrant grant r = (r', res) → operations_effect used r r'.
Proof.
  intros Hu. unfold PutApprovalGrant. destruct (validateApprovalGrant _); [|intros [= <- <-]; apply effect_none].
  case_bool_decide; [intros [= <- <-]; apply effect_none|]. intros Hc.
  eapply (commit_effect tt); [| |unfold answer; by rewrite Hc]; [by apply change_none|].
  intros id g. cbn. rewrite lookup_insert_Some. intros [[<- <-]|[_ ?]]; auto.
Qed.
Lemma consume_effect used request r r' res :
  store_operations_ok (repo_snapshot r) →
  ConsumeApprovalGrant Text request r = (r', res) → operations_effect used r r'.
Proof.
  intros [Hok Hgok]. unfold ConsumeApprovalGrant.
  match goal with |- context [match ?x with Ok _ => _ | Err _ => _ end] => destruct x as [[g ap]|] eqn:Hx end;
    [|intros [= <- <-]; apply effect_none].
  repeat bsimpl_step. injection Hx as <- ->.
  repeat match goal with H : match _ !! _ with Some _ => _ | None => _ end = Ok _ |- _ =>
    destruct (_ !! _) eqn:? in H; [injection H as ->|done] end.
  apply commit_effect.
  2: { intros id g'. cbn. rewrite lookup_insert_Some. intros [[<- <-]|[_ ?]]; [right|by left]. split; [done|].
       right. match goal with H : sn_ApprovalGrants _ !! _ = Some ?g |- _ => exists g; by rewrite (Hgok _ _ H) end. }
  match goal with H : applyOperationTransition _ ?o _ _ = Ok _, H' : sn_Operations _ !! _ = Some ?o |- _ =>
    apply apply_evolves in H as [He _]; apply (change_write _ _ _ (con_OperationID request) o ap); try done;
    destruct (ok_ids _ _ Hok _ _ H'); destruct He as [Hi _ _ _ _ _ _ _ _ _ _ _] end.
  injection Hi as Hi _ _ _ _ _ _. cbn. by replace (rec_ResourceID ap) with (con_OperationID request) by congruence.
Qed.

(** ** Runs *)

(** One step of the system: an operation of this file, any other component's
    mutation (leases, locks, freezes, power, inventory: none of them writes
    operations or grants), or the environment moving the clock and choosing the
    next outcomes.  [NewResourceID] never returns an ID of [used]. *)
Inductive operation_step (used : gset ResourceID) (r r' : Repository) : Prop :=
| step_create fresh op res : fresh ∉ used → sn_Operations (repo_snapshot r) !! fresh = None →
    CreateOperation fresh op r = (r', res) → operation_step used r r'
| step_plan fresh id rev plan res : PutOperationPlan fresh id rev plan r = (r', res) → operation_step used r r'
| step_transition id rev t res : TransitionOperation Text id rev t r = (r', res) → operation_step used r r'
| step_review f1 f2 id rev reviewer note res :
    ReviewIndeterminateOperation Text f1 f2 id rev reviewer note r = (r', res) → operation_step used r r'
| step_finalize id rev t audits reports res :
    FinalizeOperation Text id rev t audits reports r = (r', res) → operation_step used r r'
| step_abandoned id rev obs stale t audits reports res :
    FinalizeAbandonedOperation Text id rev obs stale t audits reports r = (r', res) → operation_step used r r'
| step_grant grant res : grant_ResourceID grant ∉ used → PutApprovalGrant grant r = (r', res) →
    operation_step used r r'
| step_consume request res : ConsumeApprovalGrant Text request r = (r', res) → operation_step used r r'
| step_other value res : sn_Operations value = sn_Operations (repo_snapshot r) →
    sn_OperationKeys value = sn_OperationKeys (repo_snapshot r) →
    sn_ApprovalGrants value = sn_ApprovalGrants (repo_snapshot r) →
    commit value r = (r', res) → operation_step used r r'
| step_environment now outcomes : r' = r <| repo_now := now |> <| repo_commits := outcomes |> →
    operation_step used r r'.

Lemma step_effect used r r' :
  store_operations_ok (repo_snapshot r) → operation_step used r r' → operations_effect used r r'.
Proof.
  intros Hok []; eauto using create_effect, plan_effect, transition_effect, review_effect, finalize_effect,
    abandoned_effect, grant_effect, consume_effect.
  - eapply (commit_effect tt); [| |unfold answer; by erewrite H2]; [by apply change_none|].
    intros id g. rewrite H1. by left.
  - subst. by left.
Qed.
Lemma effect_ok used r r' :
  store_operations_ok (repo_snapshot r) → operations_effect used r r' → store_operations_ok (repo_snapshot r').
Proof.
  intros Hok [->|(value & -> & Hc & Hg)]; [done|]. apply compact_operations_ok. destruct Hok as [Ho Hgo].
  split; [by eapply change_ok|]. intros id g [?|[? _]]%Hg; [by apply Hgo|done].
Qed.
Lemma empty_ok : store_operations_ok emptySnapshot.
Proof.
  split; [|by intros id g [=]]. split; try by intros id op [=].
  intros key id. split; [by intros [=]|]. by intros (op & [=] & _).
Qed.
Lemma steps_ok used r r' :
  store_operations_ok (repo_snapshot r) → rtc (operation_step used) r r' →
  store_operations_ok (repo_snapshot r').
Proof. intros Hok Hr. induction Hr; eauto using effect_ok, step_effect. Qed.

(** One record over one step: it evolves by at most one write, or is forgotten. *)
Lemma step_record used r r' id op :
  store_operations_ok (repo_snapshot r) → id ∈ used → operation_step used r r' →
  sn_Operations (repo_snapshot r) !! id = Some op →
  sn_Operations (repo_snapshot r') !! id = None ∨
  ∃ op', sn_Operations (repo_snapshot r') !! id = Some op' ∧ rtc op_evolves op op'.
Proof.
  intros Hok Hin Hst Hop. apply (step_effect used) in Hst as [Hs|(value & Hs & Hc & _)]; [| |exact Hok].
  { right. exists op. rewrite Hs. split; [exact Hop|apply rtc_refl]. }
  destruct (sn_Operations (repo_snapshot r') !! id) as [op'|] eqn:Hop'; [right|by left].
  exists op'. split; [done|]. rewrite Hs in Hop'. apply compacted_operation in Hop'. clear Hs Hok.
  destruct Hc as [Ho _|i o o' Hi He Ho _|fresh now o Hfr Hf _ _ _ Ho _]; rewrite Ho in Hop'.
  - assert (op' = op) as -> by congruence. apply rtc_refl.
  - apply lookup_insert_Some in Hop' as [[-> ->]|[_ ?]].
    + assert (o = op) as -> by congruence. by apply rtc_once.
    + assert (op' = op) as -> by congruence. apply rtc_refl.
  - apply lookup_insert_Some in Hop' as [[-> _]|[_ ?]]; [congruence|].
    assert (op' = op) as -> by congruence. apply rtc_refl.
Qed.
(** A forgotten record does not come back. *)
Lemma step_gone used r r' id :
  store_operations_ok (repo_snapshot r) → id ∈ used → operation_step used r r' →
  sn_Operations (repo_snapshot r) !! id = None → sn_Operations (repo_snapshot r') !! id = None.
Proof.
  intros Hok Hin Hst Hn.
  destruct (sn_Operations (repo_snapshot r') !! id) as [op'|] eqn:Hop'; [exfalso|done].
  apply (step_effect used) in Hst as [Hs|(value & Hs & Hc & _)]; [rewrite Hs in Hop'; congruence| |exact Hok].
  rewrite Hs in Hop'. clear Hs Hok. apply compacted_operation in Hop'.
  destruct Hc as [Ho _|i o o' Hi He Ho _|fresh now o Hfr Hf _ _ _ Ho _]; rewrite Ho in Hop';
    [|apply lookup_insert_Some in Hop' as [[-> _]|[_ ?]]..]; congruence.
Qed.

Lemma steps_record used r r' id op :
  store_operations_ok (repo_snapshot r) → id ∈ used → rtc (operation_step used) r r' →
  sn_Operations (repo_snapshot r) !! id = Some op →
  sn_Operations (repo_snapshot r') !! id = None ∨
  ∃ op', sn_Operations (repo_snapshot r') !! id = Some op' ∧ rtc op_evolves op op'.
Proof.
  intros Hok Hin Hr Hop.
  assert (store_operations_ok (repo_snapshot r') ∧ (sn_Operations (repo_snapshot r') !! id = None ∨
    ∃ op', sn_Operations (repo_snapshot r') !! id = Some op' ∧ rtc op_evolves op op')) as [_ ?]; [|done].
  pattern r'. eapply rtc_ind_r; [eauto using rtc_refl| |exact Hr]. clear r' Hr. intros r1 r2 _ Hs IH.
  destruct IH as [Hok' IH]. split; [by eapply effect_ok, step_effect|].
  destruct IH as [Hn|(op1 & Hop1 & Hev)]; [left; by eapply step_gone|].
  destruct (step_record _ _ _ _ _ Hok' Hin Hs Hop1) as [?|(op2 & ? & ?)]; [by left|right].
  exists op2. split; [done|]. by etrans.
Qed.

Lemma steps_gone used r r' id :
  store_operations_ok (repo_snapshot r) → id ∈ used → rtc (operation_step used) r r' →
  sn_Operations (repo_snapshot r) !! id = None → sn_Operations (repo_snapshot r') !! id = None.
Proof.
  intros Hok Hin Hr Hn. induction Hr as [|r r1 r2 Hs Hr IH]; [done|].
  apply IH; [by eapply effect_ok, step_effect|by eapply step_gone].
Qed.

Lemma evolves_facts old new :
  rtc op_evolves old new →
  (terminalOperationStatus (rec_Status old) = true → rec_Status old ≠ OperationIndeterminate → new = old) ∧
  (rec_Status old = OperationIndeterminate →
    rec_Status new = OperationIndeterminate ∨ rec_Status new = OperationSucceeded) ∧
  op_intent new = op_intent old ∧
  (plan_Digest (rec_Plan old) ≠ "" → rec_Plan new = rec_Plan old) ∧
  (rec_Observation old ≠ "" → rec_Observation new = rec_Observation old) ∧
  (is_Some (rec_Review old) → rec_Review new = rec_Review old) ∧
  ∃ extra, rec_Attempts new = rec_Attempts old ++ extra.
Proof.
  induction 1 as [o|o1 o2 o3 He _ IH]; [split_and!; eauto; exists []; by rewrite app_nil_r|].
  destruct He as [H1 _ _ _ H2 H3 _ H4 H5 _ [x H6] H7].
  destruct IH as (I1 & I2 & I3 & I4 & I5 & I6 & [y I7]). split_and!.
  - intros Ht Hn. by apply H2 in Ht.
  - intros Hi. destruct (H3 Hi) as [?|Hs]; [by apply I2|]. rewrite I1; [auto|by rewrite Hs|congruence].
  - congruence.
  - intros Hp. rewrite <- (H5 Hp). apply I4. by rewrite H5.
  - intros Hp. rewrite <- (H4 Hp). apply I5. by rewrite H4.
  - intros Hp. rewrite <- (H7 Hp). apply I6. by rewrite H7.
  - exists (x ++ y). by rewrite I7, H6, app_assoc.
Qed.

Lemma steps_grant used r r' id g :
  id ∈ used → store_operations_ok (repo_snapshot r) → rtc (operation_step used) r r' →
  (∀ g', sn_ApprovalGrants (repo_snapshot r) !! id = Some g' → g' = g) → grant_Status g ≠ ApprovalGrantActive →
  ∀ g', sn_ApprovalGrants (repo_snapshot r') !! id = Some g' → g' = g.
Proof.
  intros Hin Hok Hr Hg Hs.
  assert (store_operations_ok (repo_snapshot r') ∧
    ∀ g', sn_ApprovalGrants (repo_snapshot r') !! id = Some g' → g' = g) as [_ ?]; [|done].
  pattern r'. eapply rtc_ind_r; [done| |exact Hr]. clear r' Hr. intros r1 r2 _ Hst [Hok' IH].
  pose proof (step_effect _ _ _ Hok' Hst) as He. split; [by eapply effect_ok|].
  destruct He as [->|(value & -> & _ & Hc)]; [done|].
  intros g' Hg'%compacted_grant. apply Hc in Hg' as [?|[_ [?|(old & Hold & Ha & _)]]]; [by apply IH|done|].
  apply IH in Hold as ->. done.
Qed.

Lemma create_spec fresh op r r1 created :
  CreateOperation fresh op r = (r1, Ok (created, false)) →
  created = created_operation fresh (repo_now r) (op <| rec_IdempotencyKey ::= TrimSpace |>) ∧
  ∀ o, sn_Operations (repo_snapshot r1) !! fresh = Some o → o = created.
Proof.
  unfold CreateOperation. destruct (validateOperationRequest _); [|done].
  destruct (sn_OperationKeys _ !! _) as [known|].
  { destruct (sn_Operations _ !! known); [destruct (negb _)|]; done. }
  case_bool_decide; [done|]. unfold answer. destruct (commit _ r) as [r' [u|e]] eqn:Hcom; [|done].
  intros [= <- <-]. split; [done|]. apply commit_spec in Hcom as [_ [Hs _]]. rewrite Hs.
  intros o Ho%compacted_operation. unfold put_operation in Ho. cbn in Ho.
  rewrite lookup_insert_eq in Ho. by injection Ho as <-.
Qed.
Lemma validate_trimmed op :
  validateOperationRequest (op <| rec_IdempotencyKey ::= TrimSpace |>) = validateOperationRequest op.
Proof.
  unfold validateOperationRequest.
  change (rec_IdempotencyKey op <| rec_IdempotencyKey ::= TrimSpace |>) with (TrimSpace (rec_IdempotencyKey op)).
  by rewrite TrimSpace_idemp.
Qed.

(** An accepted write moves the revision on. *)
Lemma commit_revision id old new value r r1 (op : OperationRecord) :
  answer new (commit value r) = (r1, Ok op) → op_evolves old new →
  sn_Operations value = <[id := new]> (sn_Operations (repo_snapshot r)) →
  ∀ op', sn_Operations (repo_snapshot r1) !! id = Some op' →
    rec_MetadataRevision op' ≠ rec_MetadataRevision old.
Proof.
  unfold answer. destruct (commit _ r) as [r' [u|]] eqn:Hc; [|done]. intros [= <- _] He Hv op'.
  apply commit_spec in Hc as [_ [-> _]]. intros Hop%compacted_operation. rewrite Hv, lookup_insert_eq in Hop.
  injection Hop as <-. rewrite (ev_revision _ _ He). apply u64_succ_ne.
Qed.
Lemma transition_revision id rev t r r1 op :
  TransitionOperation Text id rev t r = (r1, Ok op) →
  ∀ op', sn_Operations (repo_snapshot r1) !! id = Some op' → rec_MetadataRevision op' ≠ rev.
Proof.
  unfold TransitionOperation. destruct (sn_Operations (repo_snapshot r) !! id) as [o|] eqn:Hop; [|done].
  destruct (bool_decide_reflect (rec_MetadataRevision o = rev)) as [<-|]; cbn [negb]; [|done].
  destruct (_ && _); [done|]. destruct (applyOperationTransition _ _ _ _) eqn:Ha; [|done].
  intros Hc. eapply commit_revision; [exact Hc|by eapply apply_evolves|done].
Qed.
Lemma finalize_revision id rev t audits reports r r1 op :
  finalizeOperationLocked Text id rev t audits reports r = (r1, Ok op) →
  ∀ op', sn_Operations (repo_snapshot r1) !! id = Some op' → rec_MetadataRevision op' ≠ rev.
Proof.
  unfold finalizeOperationLocked. destruct (sn_Operations (repo_snapshot r) !! id) as [o|] eqn:Hop; [|done].
  destruct (bool_decide_reflect (rec_MetadataRevision o = rev)) as [<-|]; cbn [negb]; [|done].
  destruct (applyOperationTransition _ _ _ _) eqn:Ha; [|done]. cbn [mbind result_bind].
  match goal with |- context [match ?x with Ok _ => _ | Err _ => _ end] => destruct x as [[[op2 au] re]|] eqn:Hx end;
    [|done].
  repeat bsimpl_step. injection Hx as -> _ _.
  intros Hc. eapply commit_revision; [exact Hc|by eapply apply_evolves|done].
Qed.
Lemma plan_revision fresh id rev plan r r1 op :
  PutOperationPlan fresh id rev plan r = (r1, Ok op) → r1 ≠ r →
  ∀ op', sn_Operations (repo_snapshot r1) !! id = Some op' → rec_MetadataRevision op' ≠ rev.
Proof.
  unfold PutOperationPlan. destruct (sn_Operations (repo_snapshot r) !! id) as [o|] eqn:Hop; [|done].
  destruct (bool_decide_reflect (rec_MetadataRevision o = rev)) as [<-|]; cbn [negb]; [|done].
  destruct (terminalOperationStatus _) eqn:Ht; [done|]. destruct (validateOperationPlan _ _); [|done].
  destruct (bool_decide_reflect (plan_Digest (rec_Plan o) = "")) as [Hd|Hd]; cbn [negb].
  2: { destruct (_ != _); [done|]. by intros [= <- _]. }
  intros Hc _. eapply commit_revision; [exact Hc| |done].
  apply plan_evolves; [done..|]. intros He. by rewrite He in Ht.
Qed.

(** What a successful consumption checked and did. *)
Lemma consume_spec request r r' g op :
  ConsumeApprovalGrant Text request r = (r', Ok (g, op)) →
  let now := if IsZero (con_Now request) then repo_now r else con_Now request in
  ∃ g0 op0, sn_ApprovalGrants (repo_snapshot r) !! con_GrantID request = Some g0 ∧
    sn_Operations (repo_snapshot r) !! con_OperationID request = Some op0 ∧
    rec_MetadataRevision op0 = con_ExpectedOperationRevision request ∧
    grant_Status g0 = ApprovalGrantActive ∧ now < grant_ExpiresAt g0 ∧
    grant_TokenHash g0 = TrimSpace (con_TokenHash request) ∧ grant_matches g0 op0 = true ∧
    trans_Stage (con_Transition request) = StageApprove ∧
    op_evolves op0 op ∧ g = consumed_grant now (rec_ResourceID op0) g0 ∧
    repo_snapshot r' = compactSnapshotHistory ((put_operation (rec_ResourceID op) op (repo_snapshot r))
      <| sn_ApprovalGrants ::= <[grant_ResourceID g := g]> |>).
Proof.
  unfold ConsumeApprovalGrant.
  match goal with |- context [match ?x with Ok _ => _ | Err _ => _ end] => destruct x as [[g' ap]|] eqn:Hx end;
    [|done].
  destruct (commit _ r) as [r1 [u|]] eqn:Hc; cbn [answer fst snd]; unfold answer; cbn; intros [= <- <- <-].
  apply commit_spec in Hc as [_ [Hc _]]. repeat bsimpl_step. injection Hx as <- <-.
  repeat match goal with H : match _ !! _ with Some _ => _ | None => _ end = Ok _ |- _ =>
    destruct (_ !! _) eqn:? in H; [injection H as ->|done] end.
  match goal with H : Before _ _ = true |- _ => unfold Before in H; apply Z.ltb_lt in H end.
  match goal with H : applyOperationTransition _ _ _ _ = Ok _ |- _ => apply apply_evolves in H as [He _] end.
  do 2 eexists. split_and!; try eassumption; done.
Qed.

(** ** Properties *)

(** C39: Every run of the system from the empty repository, whatever the
    outcomes of its commits, keeps the operation records consistent: a record
    and its embedded copy have the stored ID, revision and status; a succeeded
    operation carries its own successful verification; and the idempotency
    index is exact, so no two stored operations share an idempotency key. *)
Theorem operations_invariant used r0 r :
  repo_snapshot r0 = emptySnapshot → rtc (operation_step used) r0 r →
  let ops := sn_Operations (repo_snapshot r) in
  operations_ok ops (sn_OperationKeys (repo_snapshot r)) ∧
  ∀ i j a b, ops !! i = Some a → ops !! j = Some b →
    TrimSpace (rec_IdempotencyKey a) = TrimSpace (rec_IdempotencyKey b) → i = j.
Proof.
  intros H0 Hr. assert (store_operations_ok (repo_snapshot r0)) as Hok by (rewrite H0; exact empty_ok).
  destruct (steps_ok _ _ _ Hok Hr) as [Hops _]. cbn. split; [done|]. intros i j a b Ha Hb He.
  assert (sn_OperationKeys (repo_snapshot r) !! TrimSpace (rec_IdempotencyKey a) = Some i)
    by (apply (ok_index _ _ Hops); eauto).
  assert (sn_OperationKeys (repo_snapshot r) !! TrimSpace (rec_IdempotencyKey a) = Some j)
    by (apply (ok_index _ _ Hops); eauto).
  congruence.
Qed.

(** C6: The history of an operation is append-only in what matters: over any
    further run its record is either forgotten for good or still stored, and
    then it has the same identity and intent, a settled outcome (blocked,
    succeeded, failed, unsupported) is never changed again, an indeterminate
    one can only be confirmed as succeeded, and the plan, the observation and
    the review, once recorded, and the attempts so far never change. *)
Theorem operation_history used r r' id op :
  store_operations_ok (repo_snapshot r) → id ∈ used → rtc (operation_step used) r r' →
  sn_Operations (repo_snapshot r) !! id = Some op →
  sn_Operations (repo_snapshot r') !! id = None ∨
  ∃ op', sn_Operations (repo_snapshot r') !! id = Some op' ∧
    (terminalOperationStatus (rec_Status op) = true → rec_Status op ≠ OperationIndeterminate → op' = op) ∧
    (rec_Status op = OperationIndeterminate →
      rec_Status op' = OperationIndeterminate ∨ rec_Status op' = OperationSucceeded) ∧
    op_intent op' = op_intent op ∧
    (plan_Digest (rec_Plan op) ≠ "" → rec_Plan op' = rec_Plan op) ∧
    (rec_Observation op ≠ "" → rec_Observation op' = rec_Observation op) ∧
    (is_Some (rec_Review op) → rec_Review op' = rec_Review op) ∧
    (∃ extra, rec_Attempts op' = rec_Attempts op ++ extra) ∧
    (rec_Status op' = OperationSucceeded → op_verified op').
Proof.
  intros Hok Hin Hr Hop. destruct (steps_record _ _ _ _ _ Hok Hin Hr Hop) as [?|(op' & Hop' & He)]; [by left|right].
  exists op'. destruct (evolves_facts _ _ He) as (?&?&?&?&?&?&?). split_and!; try done.
  destruct (steps_ok _ _ _ Hok Hr) as [Hops _]. by apply (ok_verified _ _ Hops id).
Qed.

(** Creating an operation is idempotent for as long as it is remembered: a
    request with the same idempotency key (up to surrounding space) answers the
    stored operation when its cluster, target, engine and kind are the
    same, and a conflict otherwise, without changing the repository. *)
Theorem CreateOperation_idempotent used fresh op r r1 created r2 cur fresh' again :
  store_operations_ok (repo_snapshot r) → sn_Operations (repo_snapshot r) !! fresh = None →
  CreateOperation fresh op r = (r1, Ok (created, false)) →
  fresh ∈ used → rtc (operation_step used) r1 r2 →
  sn_Operations (repo_snapshot r2) !! fresh = Some cur →
  TrimSpace (rec_IdempotencyKey again) = TrimSpace (rec_IdempotencyKey op) →
  validateOperationRequest again = Ok tt →
  CreateOperation fresh' again r2 =
    (r2, if operationIntentMatches op again then Ok (cur, true) else Err ErrConflict).
Proof.
  intros Hok Hf Hc Hin Hr Hcur Hkey Hv.
  pose proof (create_effect ∅ _ _ _ _ _ (not_elem_of_empty _) Hf Hc) as He. apply effect_ok in He; [|done].
  assert (op_intent cur = op_intent (created_operation fresh (repo_now r) (op <| rec_IdempotencyKey ::= TrimSpace |>)))
    as Hint.
  { destruct (create_spec _ _ _ _ _ Hc) as [Hcd Hcr].
    destruct (sn_Operations (repo_snapshot r1) !! fresh) as [o|] eqn:Ho.
    - destruct (steps_record _ _ _ _ _ He Hin Hr Ho) as [?|(o' & Ho' & Hev)]; [congruence|].
      apply evolves_facts in Hev as (_&_&Hi&_). rewrite <- Hcd, <- (Hcr _ eq_refl). congruence.
    - pose proof (steps_gone _ _ _ _ He Hin Hr Ho). congruence. }
  destruct (steps_ok _ _ _ He Hr) as [Hops _].
  assert (sn_OperationKeys (repo_snapshot r2) !! TrimSpace (rec_IdempotencyKey again) = Some fresh) as Hidx.
  { apply (ok_index _ _ Hops). exists cur. split; [done|]. injection Hint as _ _ -> _ _ _ _.
    rewrite Hkey. apply TrimSpace_idemp. }
  unfold CreateOperation. rewrite validate_trimmed, Hv. cbn [rec_IdempotencyKey set_field].
  change (rec_IdempotencyKey again <| rec_IdempotencyKey ::= TrimSpace |>)
    with (TrimSpace (rec_IdempotencyKey again)). rewrite Hidx, Hcur.
  injection Hint as _ Ht _ _ H1 H2 H3. unfold operationIntentMatches. rewrite Ht, H1, H2, H3. cbn.
  by destruct (_ && _).
Qed.

(** An approval grant authorises one transition of one operation, once: a
    successful consumption found the grant active, unexpired, with the token's
    hash, and issued for exactly the stored operation (its cluster, engine,
    kind, target, plan digest and observation) at the expected revision; and no
    later consumption of that grant succeeds in any further run. *)
Theorem approval_single_use used request r r1 g op :
  store_operations_ok (repo_snapshot r) →
  ConsumeApprovalGrant Text request r = (r1, Ok (g, op)) →
  (∃ g0 op0,
    sn_ApprovalGrants (repo_snapshot r) !! con_GrantID request = Some g0 ∧
    sn_Operations (repo_snapshot r) !! con_OperationID request = Some op0 ∧
    grant_Status g0 = ApprovalGrantActive ∧
    (if IsZero (con_Now request) then repo_now r else con_Now request) < grant_ExpiresAt g0 ∧
    grant_TokenHash g0 = TrimSpace (con_TokenHash request) ∧
    grant_PlanDigest g0 = plan_Digest (rec_Plan op0) ∧ grant_ObservationDigest g0 = rec_Observation op0 ∧
    grant_matches g0 op0 = true ∧ rec_MetadataRevision op0 = con_ExpectedOperationRevision request ∧
    op_evolves op0 op) ∧
  ∀ r2 request', con_GrantID request ∈ used → rtc (operation_step used) r1 r2 →
    con_GrantID request' = con_GrantID request →
    is_ok (ConsumeApprovalGrant Text request' r2).2 = false.
Proof.
  intros Hok Hc. destruct (consume_spec _ _ _ _ _ Hc) as (g0 & op0 & Hg0 & Hop0 & Hrev & Hact & Hexp & Htok & Hm & Hst & Hev & Hg & Hs).
  split.
  { exists g0, op0. split_and!; try done; unfold grant_matches in Hm; by repeat bsimpl_step. }
  intros r2 request' Hin Hr Hid.
  assert (store_operations_ok (repo_snapshot r1)) as Hok1.
  { by eapply effect_ok, (consume_effect used). }
  assert (grant_ResourceID g = con_GrantID request) as Hgid by (subst g; cbn; by apply (proj2 Hok)).
  assert (∀ g', sn_ApprovalGrants (repo_snapshot r2) !! con_GrantID request = Some g' → g' = g) as Hg'.
  { apply (steps_grant used r1 r2); [done..| |by subst g].
    rewrite Hs. intros g'. intros Hx%compacted_grant. cbn in Hx.
    rewrite Hgid, lookup_insert_eq in Hx. by injection Hx as <-. }
  destruct (ConsumeApprovalGrant Text request' r2) as [r3 [[g3 op3]|e]] eqn:Hc'; [exfalso|done].
  apply consume_spec in Hc' as (g1 & op1 & Hg1 & _ & _ & Hact1 & _). rewrite Hid in Hg1.
  apply Hg' in Hg1 as ->. by subst g.
Qed.

(** An abandoned operation is finalised only when it is safe: the stored
    operation is running at the expected revision, was last written no later
    than the staleness bound, and no operation lock it holds is unexpired at
    the observation time.  In every other case, and on every error of a
    reliable store, nothing changes. *)
Theorem FinalizeAbandonedOperation_safe id rev observedAt staleBefore t audits reports r r' res :
  FinalizeAbandonedOperation Text id rev observedAt staleBefore t audits reports r = (r', res) →
  match res with
  | Ok (op', true) => ∃ op, sn_Operations (repo_snapshot r) !! id = Some op ∧
      rec_MetadataRevision op = rev ∧ rec_Status op = OperationRunning ∧
      rec_UpdatedAt op ≤ staleBefore ≤ observedAt ∧ op_evolves op op' ∧
      ∀ k lock, sn_OperationLocks (repo_snapshot r) !! k = Some lock → lock_OperationID lock = id →
        lock_ExpiresAt lock ≤ observedAt
  | Ok (op', false) => r' = r ∧ sn_Operations (repo_snapshot r) !! id = Some op'
  | Err _ => reliable r → r' = r
  end.
Proof.
  unfold FinalizeAbandonedOperation. destruct (_ || _) eqn:Hargs; [by intros [= <- <-]|].
  destruct (sn_Operations _ !! id) as [op|] eqn:Hop; [|by intros [= <- <-]].
  destruct (_ || _) eqn:Hst in |- *; [by intros [= <- <-]|].
  destruct (existsb _ _) eqn:Hl; [by intros [= <- <-]|].
  unfold finalizeOperationLocked. rewrite Hop.
  destruct (bool_decide_reflect (rec_MetadataRevision op = rev)) as [Hrev|]; cbn [negb]; [|by intros [= <- <-]].
  destruct (applyOperationTransition _ _ _ _) as [op1|] eqn:Ha; [|by intros [= <- <-]].
  cbn [mbind result_bind].
  match goal with |- context [match ?x with Ok _ => _ | Err _ => _ end] => destruct x as [[[op2 au] re]|] eqn:Hx end;
    [|by intros [= <- <-]].
  repeat bsimpl_step. injection Hx as -> _ _. unfold answer.
  match goal with |- context [commit ?v r] => destruct (commit v r) as [r1 [u|e]] eqn:Hc end; cbn; intros [= <- <-].
  2: { intros Hrel. by rewrite commit_reliable in Hc. }
  exists op. apply apply_evolves in Ha as [Hev _]. unfold After in *. repeat bsimpl_step. split_and!; try done.
  intros k lock Hk Hid.
  destruct (Z.ltb_spec observedAt (lock_ExpiresAt lock)); [|lia].
  assert (existsb (λ e, (lock_OperationID e.2 == id) && (observedAt <? lock_ExpiresAt e.2))
    (map_to_list (sn_OperationLocks (repo_snapshot r))) = true) as Hb; [|congruence].
  apply existsb_exists. exists (k, lock). split; [by apply list_elem_of_In, elem_of_map_to_list|].
  cbn. bsplit; done.
Qed.

(** No update is lost: once a transition, a finalisation or a plan is
    accepted at a revision of an operation, every other writer that read the
    same revision is refused. *)
Theorem operation_no_lost_update id rev t audits reports fresh plan r r1 op :
  TransitionOperation Text id rev t r = (r1, Ok op) ∨
  FinalizeOperation Text id rev t audits reports r = (r1, Ok op) ∨
  PutOperationPlan fresh id rev plan r = (r1, Ok op) ∧ r1 ≠ r →
  ∀ t2 audits2 reports2 fresh2 plan2,
    is_ok (TransitionOperation Text id rev t2 r1).2 = false ∧
    is_ok (FinalizeOperation Text id rev t2 audits2 reports2 r1).2 = false ∧
    is_ok (PutOperationPlan fresh2 id rev plan2 r1).2 = false.
Proof.
  intros Hw t2 audits2 reports2 fresh2 plan2.
  assert (∀ op', sn_Operations (repo_snapshot r1) !! id = Some op' → rec_MetadataRevision op' ≠ rev) as Hrev.
  { destruct Hw as [H|[H|[H Hne]]]; [by eapply transition_revision|by eapply finalize_revision|].
    by eapply plan_revision. }
  clear Hw. unfold TransitionOperation, FinalizeOperation, finalizeOperationLocked, PutOperationPlan.
  destruct (sn_Operations (repo_snapshot r1) !! id) as [op'|]; [|done].
  rewrite bool_decide_false by auto. done.
Qed.
End evolution.

(** ** Concrete instances *)

Definition wo_text (s : string) : string := s.
Definition wo_id : ResourceID := "aaaaaaaa-aaaa-4aaa-8aaa-aaaaaaaaaaaa".
Definition wo_plan_id : ResourceID := "bbbbbbbb-bbbb-4bbb-8bbb-bbbbbbbbbbbb".
Definition wo_grant_id : ResourceID := "cccccccc-cccc-4ccc-8ccc-cccccccccccc".
Definition wo_request : OperationRecord :=
  zero_OperationRecord <| rec_Operation := zero_Operation <| opn_ClusterID := w_cluster |>
      <| opn_Engine := EngineMySQL |> <| opn_Kind := OperationFailover |> |>
    <| rec_TargetID := w_owner |> <| rec_IdempotencyKey := " failover-1 " |>.
Definition wo_plan : OperationPlan :=
  zero_OperationPlan <| plan_OperationID := wo_id |> <| plan_ClusterID := w_cluster |>
    <| plan_SourceID := w_fresh |> <| plan_TargetID := w_owner |> <| plan_ObservationToken := "o" |>
    <| plan_ResourceRevisions := {[ w_owner := 1 ]} |>
    <| plan_Steps := [mkPlanStep 1 "promote" "agent" "" true ""] |> <| plan_Digest := "d" |>.
Definition wo_observed : OperationTransition :=
  zero_OperationTransition <| trans_Stage := StageSafetyGuard |> <| trans_Observation := "o" |>.
Definition wo_grant : ApprovalGrant :=
  zero_ApprovalGrant <| grant_ResourceID := wo_grant_id |> <| grant_MetadataRevision := 1 |>
    <| grant_TokenHash := "h" |> <| grant_OperationID := wo_id |> <| grant_ClusterID := w_cluster |>
    <| grant_Engine := EngineMySQL |> <| grant_OperationKind := OperationFailover |>
    <| grant_TargetID := w_owner |> <| grant_PlanDigest := "d" |> <| grant_ObservationDigest := "o" |>
    <| grant_IssuedBy := "operator" |> <| grant_IssuedAt := w_now |>
    <| grant_ExpiresAt := w_now + Minute |> <| grant_Status := ApprovalGrantActive |>.
Definition wo_consume : ConsumeApprovalGrantRequest :=
  mkConsume wo_grant_id " h " wo_id 3 0
    (zero_OperationTransition <| trans_Stage := StageApprove |> <| trans_Status := OperationRunning |>).
Definition wo_r0 : Repository := mkRepository emptySnapshot 0 w_now [].
Definition wo_r1 : Repository := (CreateOperation wo_id wo_request wo_r0).1.
Definition wo_r2 : Repository := (PutOperationPlan wo_plan_id wo_id 1 wo_plan wo_r1).1.
Definition wo_r3 : Repository := (TransitionOperation wo_text wo_id 2 wo_observed wo_r2).1.
Definition wo_r4 : Repository := (PutApprovalGrant wo_grant wo_r3).1.
Definition wo_r5 : Repository := (ConsumeApprovalGrant wo_text wo_consume wo_r4).1.
Definition wo_r6 : Repository := wo_r5 <| repo_now := w_now + Minute |> <| repo_commits := [] |>.
Definition wo_failed : OperationTransition :=
  zero_OperationTransition <| trans_Stage := StageReport |> <| trans_Status := OperationFailed |>.
Definition wo_created : OperationRecord :=
  created_operation wo_id w_now (wo_request <| rec_IdempotencyKey ::= TrimSpace |>).
Definition wo_approved : OperationRecord :=
  default zero_OperationRecord (sn_Operations (repo_snapshot wo_r5) !! wo_id).
Definition wo_consumed : ApprovalGrant := consumed_grant w_now wo_id wo_grant.

Lemma wo_create : CreateOperation wo_id wo_request wo_r0 = (wo_r1, Ok (wo_created, false)).
Proof. unfold wo_r1. apply pair_fst. by vm_compute. Qed.
Lemma wo_consume_ok : ConsumeApprovalGrant wo_text wo_consume wo_r4 = (wo_r5, Ok (wo_consumed, wo_approved)).
Proof. unfold wo_r5. apply pair_fst. by vm_compute. Qed.
Lemma wo_steps01 : operation_step wo_text ∅ wo_r0 wo_r1.
Proof. exact (step_create _ _ wo_r0 _ wo_id wo_request _ (not_elem_of_empty _) eq_refl wo_create). Qed.
Lemma wo_steps14 used : wo_grant_id ∉ used → rtc (operation_step wo_text used) wo_r1 wo_r4.
Proof.
  intros Hu. eapply rtc_l; [exact (step_plan _ _ _ _ wo_plan_id wo_id 1 wo_plan _ (surjective_pairing _))|].
  eapply rtc_l; [exact (step_transition _ _ _ _ wo_id 2 wo_observed _ (surjective_pairing _))|].
  apply rtc_once. exact (step_grant _ _ _ _ wo_grant _ Hu (surjective_pairing _)).
Qed.
Lemma wo_steps46 used : rtc (operation_step wo_text used) wo_r4 wo_r6.
Proof.
  eapply rtc_l; [exact (step_consume _ _ _ _ wo_consume _ (surjective_pairing _))|].
  apply rtc_once. by eapply step_environment.
Qed.
Lemma wo_run : rtc (operation_step wo_text ∅) wo_r0 wo_r6.
Proof.
  eapply rtc_l; [exact wo_steps01|]. etrans; [apply wo_steps14; set_solver|apply wo_steps46].
Qed.
Lemma wo_ok r : rtc (operation_step wo_text ∅) wo_r0 r → store_operations_ok (repo_snapshot r).
Proof. apply steps_ok, empty_ok. Qed.

Lemma operations_invariant_witness :
  rtc (operation_step wo_text ∅) wo_r0 wo_r6 ∧
  operations_ok (sn_Operations (repo_snapshot wo_r6)) (sn_OperationKeys (repo_snapshot wo_r6)).
Proof.
  split; [exact wo_run|]. exact (proj1 (operations_invariant wo_text ∅ wo_r0 wo_r6 eq_refl wo_run)).
Defined.

Lemma wo_other : wo_grant_id ∉ ({[ wo_id ]} : gset ResourceID).
Proof. intros H%elem_of_singleton. unfold wo_grant_id, wo_id in H. discriminate H. Qed.
Lemma operation_history_witness :
  sn_Operations (repo_snapshot wo_r1) !! wo_id = Some wo_created ∧
  (sn_Operations (repo_snapshot wo_r4) !! wo_id = None ∨
   ∃ op', sn_Operations (repo_snapshot wo_r4) !! wo_id = Some op' ∧ op_intent op' = op_intent wo_created).
Proof.
  assert (sn_Operations (repo_snapshot wo_r1) !! wo_id = Some wo_created) as Hop by by vm_compute.
  split; [exact Hop|].
  pose proof (operation_history wo_text {[ wo_id ]} wo_r1 wo_r4 wo_id wo_created
    (wo_ok _ (rtc_once _ _ wo_steps01)) (proj2 (elem_of_singleton wo_id wo_id) eq_refl)
    (wo_steps14 _ wo_other) Hop) as H.
  clear Hop. destruct H as [H|(op' & H & _ & _ & Hi & _)]; [left; exact H|right]. exists op'. exact (conj H Hi).
Defined.

Definition wo_again : OperationRecord := wo_request <| rec_IdempotencyKey := "failover-1" |>.
Lemma CreateOperation_idempotent_witness :
  CreateOperation wo_id wo_request wo_r0 = (wo_r1, Ok (wo_created, false)) ∧
  CreateOperation wo_plan_id wo_again wo_r1 = (wo_r1, Ok (wo_created, true)).
Proof.
  split; [exact wo_create|].
  exact (CreateOperation_idempotent wo_text {[ wo_id ]} wo_id wo_request wo_r0 wo_r1 wo_created wo_r1
    wo_created wo_plan_id wo_again empty_ok eq_refl wo_create (proj2 (elem_of_singleton _ _) eq_refl)
    (rtc_refl _ _) ltac:(by vm_compute) eq_refl eq_refl).
Defined.

Lemma approval_single_use_witness :
  ConsumeApprovalGrant wo_text wo_consume wo_r4 = (wo_r5, Ok (wo_consumed, wo_approved)) ∧
  is_ok (ConsumeApprovalGrant wo_text wo_consume wo_r5).2 = false.
Proof.
  split; [exact wo_consume_ok|].
  exact (proj2 (approval_single_use wo_text {[ wo_grant_id ]} wo_consume wo_r4 wo_r5 wo_consumed wo_approved
    (wo_ok _ (rtc_l _ _ _ _ wo_steps01 (wo_steps14 ∅ (not_elem_of_empty _)))) wo_consume_ok) wo_r5 wo_consume
    (proj2 (elem_of_singleton _ _) eq_refl) (rtc_refl _ _) eq_refl).
Defined.

Definition wo_finalized : Repository * result store_error (OperationRecord * bool) :=
  FinalizeAbandonedOperation wo_text wo_id 4 (w_now + Minute) (w_now + Second) wo_failed [] [] wo_r6.
Lemma FinalizeAbandonedOperation_safe_witness :
  (∃ op', wo_finalized.2 = Ok (op', true)) ∧
  ∃ op, sn_Operations (repo_snapshot wo_r6) !! wo_id = Some op ∧ rec_Status op = OperationRunning.
Proof.
  assert (∃ op', wo_finalized.2 = Ok (op', true)) as [op' Hf] by (eexists; by vm_compute).
  split; [exists op'; exact Hf|].
  pose proof (FinalizeAbandonedOperation_safe wo_text wo_id 4 (w_now + Minute) (w_now + Second) wo_failed [] []
    wo_r6 wo_finalized.1 wo_finalized.2 (surjective_pairing _)) as H.
  rewrite Hf in H. destruct H as (op & H1 & _ & H2 & _). exists op. exact (conj H1 H2).
Defined.

Lemma operation_no_lost_update_witness :
  (∃ op, TransitionOperation wo_text wo_id 2 wo_observed wo_r2 = (wo_r3, Ok op)) ∧
  is_ok (TransitionOperation wo_text wo_id 2 wo_failed wo_r3).2 = false.
Proof.
  assert (∃ op, TransitionOperation wo_text wo_id 2 wo_observed wo_r2 = (wo_r3, Ok op)) as [op Ho].
  { eexists. unfold wo_r3. apply pair_fst. by vm_compute. }
  split; [exists op; exact Ho|].
  exact (proj1 (operation_no_lost_update wo_text wo_id 2 wo_observed [] [] wo_plan_id wo_plan wo_r2 wo_r3 op
    (or_introl Ho) wo_failed [] [] wo_plan_id wo_plan)).
Defined.
