(* ===== verification/Power.v ===== *)
(** * The power lifecycle

    [src/pkg/model/power.go] and [src/internal/store/power.go],
    [power_complete.go]: the state machine of a planned shutdown and the
    recovery after it, its records in the repository, and the protections
    (recovery freeze and maintenance) it holds meanwhile.

    [ctx_done] is [ctx.Err() != nil].  [ActivePowerOperation] and the list
    queries iterate a Go map in any order; the model takes the map's own order
    and the properties show where the order cannot be seen. *)
From S2P Require Import Prelude GoStd Model Endpoint Lease Locks Repository Operations.

(** ** The state machine *)

Definition PowerOperationType_Valid (t : PowerOperationType) : bool :=
  (t == PowerService) || (t == PowerPowerOff).
Definition PowerState_Valid (state : PowerState) : bool :=
  match state with PowerStateOther _ => false | _ => true end.
Definition TerminalPowerState (state : PowerState) : bool :=
  (state == PowerCompleted) || (state == PowerFailed).

Definition allowedPowerTransitions (from : PowerState) : list PowerState :=
  match from with
  | PowerNormal => [PowerPrechecking; PowerFailed]
  | PowerPrechecking => [PowerMaintenance; PowerNormal; PowerFailed]
  | PowerMaintenance => [PowerShutdownPlanned; PowerFailed]
  | PowerShutdownPlanned => [PowerShuttingDown; PowerNormal; PowerFailed]
  | PowerShuttingDown => [PowerPoweredOff; PowerFailed]
  | PowerPoweredOff => [PowerBootDetected; PowerFailed]
  | PowerBootDetected => [PowerRecovering; PowerFailed]
  | PowerRecovering => [PowerVerifying; PowerFailed]
  | PowerVerifying => [PowerCompleted; PowerFailed]
  | PowerCompleted | PowerFailed | PowerStateOther _ => []
  end.

Definition ValidPowerTransition (from to : PowerState) : bool :=
  if negb (PowerState_Valid from) || negb (PowerState_Valid to) then false
  else if (to == PowerFailed) && negb (TerminalPowerState from) then true
  else existsb (λ candidate, candidate == to) (allowedPowerTransitions from).

Definition ShutdownTime (operation : PowerOperation) : Time * bool :=
  if (pow_State operation == PowerNormal) || (pow_State operation == PowerPrechecking)
  then (zero_time, false) else (pow_StartedAt operation, true).

(** ** Repository operations *)

Definition active_power (clusterID : ResourceID) (operation : PowerOperation) : bool :=
  (pow_ClusterID operation == clusterID) && negb (TerminalPowerState (pow_State operation)).

Definition put_power (id : ResourceID) (operation : PowerOperation) (s : snapshot) : snapshot :=
  s <| sn_PowerOperations ::= <[id := operation]> |>.

Definition created_power (fresh : ResourceID) (now : Time) (cluster : DatabaseCluster)
    (operation : PowerOperation) : PowerOperation :=
  operation <| pow_ResourceID := fresh |> <| pow_MetadataRevision := 1 |>
    <| pow_CreatedAt := now |> <| pow_UpdatedAt := now |> <| pow_State := PowerNormal |>
    <| pow_Engine := cluster_Engine cluster |>
    <| pow_StartedAt := if IsZero (pow_StartedAt operation) then now else pow_StartedAt operation |>.

Definition CreatePowerOperation (ctx_done : bool) (fresh : ResourceID) (operation : PowerOperation)
    (r : Repository) : Repository * result store_error PowerOperation :=
  let s := repo_snapshot r in
  if ctx_done then (r, Err ErrContext)
  else if negb (ValidResourceID (pow_ClusterID operation)) then (r, Err ErrValidation)
  else if negb (PowerOperationType_Valid (pow_OperationType operation)) then (r, Err ErrValidation)
  else if TrimSpace (pow_RequestedBy operation) == "" then (r, Err ErrValidation)
  else if configuration_active s then (r, Err ErrConflict)
  else match sn_Clusters s !! pow_ClusterID operation with
  | None => (r, Err ErrNotFound)
  | Some cluster =>
      if existsb (λ e, active_power (pow_ClusterID operation) e.2) (map_to_list (sn_PowerOperations s))
      then (r, Err ErrConflict)
      else
        let operation := created_power fresh (repo_now r) cluster operation in
        answer operation (commit (put_power fresh operation s) r)
  end.

Definition PowerOperationByID (resourceID : ResourceID) (r : Repository) : option PowerOperation :=
  sn_PowerOperations (repo_snapshot r) !! resourceID.

Definition ActivePowerOperation (ctx_done : bool) (clusterID : ResourceID) (r : Repository)
  : option PowerOperation :=
  if ctx_done then None
  else find (active_power clusterID) (map_to_list (sn_PowerOperations (repo_snapshot r))).*2.

(** Newest first: by update time, then creation time, then ID. *)
Definition newer_power (a b : PowerOperation) : bool :=
  if negb (Equal (pow_UpdatedAt a) (pow_UpdatedAt b)) then After (pow_UpdatedAt a) (pow_UpdatedAt b)
  else if negb (Equal (pow_CreatedAt a) (pow_CreatedAt b)) then After (pow_CreatedAt a) (pow_CreatedAt b)
  else String.ltb (pow_ResourceID b) (pow_ResourceID a).
Definition power_le (a b : PowerOperation) : Prop := newer_power b a = false.
#[export] Instance power_le_dec : RelDecision power_le.
Proof. intros a b. unfold power_le. apply _. Defined.

Definition PowerOperationsByCluster (clusterID : ResourceID) (r : Repository) : list PowerOperation :=
  merge_sort power_le
    (filter (λ o, pow_ClusterID o = clusterID) (map_to_list (sn_PowerOperations (repo_snapshot r))).*2).

(** The states whose entry needs no configuration task to be active. *)
Definition entry_guarded (targetState : PowerState) : bool :=
  (targetState == PowerPrechecking) || (targetState == PowerMaintenance) ||
  (targetState == PowerShutdownPlanned) || (targetState == PowerShuttingDown).

Definition transitioned_power (now : Time) (targetState : PowerState) (approvedBy message : string)
    (powerSnapshot : option PowerSnapshot) (operation : PowerOperation) : PowerOperation :=
  let operation := operation <| pow_State := targetState |>
    <| pow_MetadataRevision ::= λ n, u64 (n + 1) |> <| pow_UpdatedAt := now |> in
  let operation := if TrimSpace approvedBy != "" then operation <| pow_ApprovedBy := approvedBy |> else operation in
  let operation := if TrimSpace message != "" then operation <| pow_Message := message |> else operation in
  let operation := match powerSnapshot with
                   | Some _ => operation <| pow_Snapshot := powerSnapshot |>
                   | None => operation
                   end in
  if TerminalPowerState targetState then operation <| pow_CompletedAt := now |> else operation.

Definition TransitionPowerOperation (ctx_done : bool) (resourceID : ResourceID) (expectedRevision : uint64)
    (targetState : PowerState) (approvedBy message : string) (powerSnapshot : option PowerSnapshot)
    (r : Repository) : Repository * result store_error PowerOperation :=
  let s := repo_snapshot r in
  if ctx_done then (r, Err ErrContext)
  else if negb (ValidResourceID resourceID) then (r, Err ErrValidation)
  else if negb (PowerState_Valid targetState) then (r, Err ErrValidation)
  else if entry_guarded targetState && configuration_active s then (r, Err ErrConflict)
  else match sn_PowerOperations s !! resourceID with
  | None => (r, Err ErrNotFound)
  | Some operation =>
      if pow_MetadataRevision operation != expectedRevision then (r, Err ErrConflict)
      else if TerminalPowerState (pow_State operation) then (r, Err ErrConflict)
      else if negb (ValidPowerTransition (pow_State operation) targetState) then (r, Err ErrConflict)
      else
        let operation := transitioned_power (repo_now r) targetState approvedBy message powerSnapshot operation in
        answer operation (commit (put_power resourceID operation s) r)
  end.

(** ** Protections *)

Definition display_le (a b : DatabaseInstance) : Prop := String.leb (inst_DisplayName a) (inst_DisplayName b) = true.
#[export] Instance display_le_dec : RelDecision display_le.
Proof. intros a b. unfold display_le. apply _. Defined.

Definition Instances (clusterID : ResourceID) (r : Repository) : list DatabaseInstance :=
  merge_sort display_le
    (filter (λ i, clusterID = "" ∨ inst_ClusterID i = clusterID)
       (map_to_list (sn_Instances (repo_snapshot r))).*2).

Fixpoint maintain_each (ctx_done : bool) (clusterID : ResourceID) (value : bool)
    (instances : list DatabaseInstance) (r : Repository) : Repository * result store_error unit :=
  match instances with
  | [] => (r, Ok tt)
  | instance :: instances =>
      match SetMaintenance ctx_done clusterID (inst_ResourceID instance) value r with
      | (r, Ok _) => maintain_each ctx_done clusterID value instances r
      | (r, Err e) => (r, Err e)
      end
  end.

Definition set_protections (ctx_done : bool) (clusterID : ResourceID) (value : bool) (r : Repository)
  : Repository * result store_error unit :=
  match SetRecoveryFreeze ctx_done clusterID value r with
  | (r, Ok _) => maintain_each ctx_done clusterID value (Instances clusterID r) r
  | (r, Err e) => (r, Err e)
  end.
Definition ApplyPowerProtections (ctx_done : bool) (clusterID : ResourceID) (r : Repository) :=
  set_protections ctx_done clusterID true r.
Definition ReleasePowerProtections (ctx_done : bool) (clusterID : ResourceID) (r : Repository) :=
  set_protections ctx_done clusterID false r.

(** The loop of [IsClusterPowerProtected], over one iteration order. *)
Definition latest_step (clusterID : ResourceID) (latest : option PowerOperation) (operation : PowerOperation)
  : option PowerOperation :=
  if pow_ClusterID operation != clusterID then latest
  else match latest with
  | None => Some operation
  | Some l =>
      if After (pow_UpdatedAt operation) (pow_UpdatedAt l) ||
         (Equal (pow_UpdatedAt operation) (pow_UpdatedAt l) && After (pow_CreatedAt operation) (pow_CreatedAt l)) ||
         (Equal (pow_UpdatedAt operation) (pow_UpdatedAt l) && Equal (pow_CreatedAt operation) (pow_CreatedAt l) &&
          String.ltb (pow_ResourceID l) (pow_ResourceID operation))
      then Some operation else Some l
  end.
Definition latest_power (clusterID : ResourceID) (operations : list PowerOperation) : option PowerOperation :=
  foldl (latest_step clusterID) None operations.

Definition protected_state (state : PowerState) : bool :=
  match state with
  | PowerShuttingDown | PowerPoweredOff | PowerBootDetected | PowerRecovering | PowerVerifying
  | PowerFailed => true
  | _ => false
  end.
(** A disaster recovery that finished after the operation supersedes it. *)
Definition superseded (cluster : DatabaseCluster) (latest : PowerOperation) : bool :=
  match cluster_Recovery cluster with
  | Some recovery =>
      negb (cluster_RecoveryFreeze cluster) && (rstate_LastRecoveryStatus recovery == "succeeded") &&
      rstate_IncidentRecovered recovery && After (rstate_RecoveredAt recovery) (pow_UpdatedAt latest)
  | None => false
  end.

Definition protection_of (clusterID : ResourceID) (operations : list PowerOperation) (s : snapshot)
  : bool * PowerState :=
  match latest_power clusterID operations with
  | None => (false, PowerNormal)
  | Some latest =>
      if superseded (default zero_DatabaseCluster (sn_Clusters s !! clusterID)) latest
      then (false, PowerNormal)
      else if protected_state (pow_State latest) then (true, pow_State latest) else (false, PowerNormal)
  end.
Definition IsClusterPowerProtected (clusterID : ResourceID) (r : Repository) : bool * PowerState :=
  protection_of clusterID (map_to_list (sn_PowerOperations (repo_snapshot r))).*2 (repo_snapshot r).

(** ** Completion *)

Definition completion_message : string :=
  "recovery verified; completion and protection release committed atomically".
Definition completed_power (now : Time) (op : PowerOperation) : PowerOperation :=
  op <| pow_State := PowerCompleted |> <| pow_CompletedAt := now |> <| pow_UpdatedAt := now |>
     <| pow_MetadataRevision ::= λ n, u64 (n + 1) |> <| pow_Message := completion_message |>.
Definition unfrozen (now : Time) (cluster : DatabaseCluster) : DatabaseCluster :=
  cluster <| cluster_RecoveryFreeze := false |> <| cluster_UpdatedAt := now |>
          <| cluster_MetadataRevision ::= λ n, u64 (n + 1) |>.
Definition released (now : Time) (clusterID : ResourceID) (instance : DatabaseInstance) : DatabaseInstance :=
  if inst_ClusterID instance == clusterID
  then instance <| inst_Maintenance := false |> <| inst_UpdatedAt := now |>
                <| inst_MetadataRevision ::= λ n, u64 (n + 1) |>
  else instance.
Definition topology_released (topology : TopologySnapshot) : TopologySnapshot :=
  mkTopologySnapshot (topo_ClusterID topology)
    ((λ i, i <| inst_Maintenance := false |>) <$> topo_Instances topology)
    (topo_Links topology) (topo_Probes topology) (topo_Health topology) (topo_Anomalies topology)
    (topo_ObservedAt topology).

(** The loop over [topology.Instances] writes through a slice that the current
    snapshot owns: the write is made before the commit and is not undone when
    the commit is rejected. *)
Definition CompletePowerRecovery (ctx_done : bool) (id : ResourceID) (revision : uint64) (observedAt : Time)
    (r : Repository) : Repository * result store_error PowerOperation :=
  let s := repo_snapshot r in
  if ctx_done then (r, Err ErrContext)
  else match sn_PowerOperations s !! id with
  | None => (r, Err ErrNotFound)
  | Some op =>
      if (pow_MetadataRevision op != revision) || (pow_State op != PowerVerifying) then (r, Err ErrConflict)
      else match sn_TopologySnapshots s !! pow_ClusterID op with
      | None => (r, Err ErrConflict)
      | Some topology =>
          if IsZero observedAt || negb (Equal (topo_ObservedAt topology) observedAt) then (r, Err ErrConflict)
          else
            let cluster := default zero_DatabaseCluster (sn_Clusters s !! pow_ClusterID op) in
            if DisasterRecoveryActive cluster then (r, Err ErrConflict)
            else
              let now := repo_now r in
              let op := completed_power now op in
              let aliased := s <| sn_TopologySnapshots ::= <[pow_ClusterID op := topology_released topology]> |> in
              let next := (put_power id op aliased)
                <| sn_Clusters ::= <[pow_ClusterID op := unfrozen now cluster]> |>
                <| sn_Instances ::= fmap (released now (pow_ClusterID op)) |> in
              answer op (commit next (r <| repo_snapshot := aliased |>))
      end
  end.

(** ** The state machine has no shortcut *)

Definition power_transition (from to : PowerState) : Prop := ValidPowerTransition from to = true.

(** The stages of a lifecycle, in order. *)
Definition lifecycle : list PowerState :=
  [PowerNormal; PowerPrechecking; PowerMaintenance; PowerShutdownPlanned; PowerShuttingDown;
   PowerPoweredOff; PowerBootDetected; PowerRecovering; PowerVerifying; PowerCompleted].
Definition stage_rank (state : PowerState) : Z :=
  match state with
  | PowerNormal => 0 | PowerPrechecking => 1 | PowerMaintenance => 2 | PowerShutdownPlanned => 3
  | PowerShuttingDown => 4 | PowerPoweredOff => 5 | PowerBootDetected => 6 | PowerRecovering => 7
  | PowerVerifying => 8 | PowerCompleted => 9 | PowerFailed | PowerStateOther _ => -1
  end.

Lemma power_transition_rank from to :
  power_transition from to → stage_rank to ≤ stage_rank from + 1 ∧ (to = PowerNormal → stage_rank from ≤ 3).
Proof. destruct from, to; by vm_compute. Qed.
Lemma terminal_no_transition from to : TerminalPowerState from = true → ¬ power_transition from to.
Proof. destruct from, to; by vm_compute. Qed.
Lemma terminal_stuck from to : TerminalPowerState from = true → rtc power_transition from to → to = from.
Proof. intros Ht Hr. destruct Hr as [|? ? ? H _]; [done|]. by apply terminal_no_transition in H. Qed.

(** ** What the operations do to the records *)

(** One write of a power operation. *)
Record power_evolves (old new : PowerOperation) : Prop := mk_power_evolves {
  pe_identity : (pow_ResourceID new, pow_ClusterID new, pow_OperationType new, pow_RequestedBy new, pow_StartedAt new)
    = (pow_ResourceID old, pow_ClusterID old, pow_OperationType old, pow_RequestedBy old, pow_StartedAt old);
  pe_state : power_transition (pow_State old) (pow_State new);
  pe_active : TerminalPowerState (pow_State old) = false;
  pe_revision : pow_MetadataRevision new = u64 (pow_MetadataRevision old + 1);
  pe_completed : if TerminalPowerState (pow_State new) then pow_CompletedAt new = pow_UpdatedAt new
                 else pow_CompletedAt new = pow_CompletedAt old
}.

(** Identities agree and no cluster has two operations in progress. *)
Definition power_ok (s : snapshot) : Prop :=
  (∀ id op, sn_PowerOperations s !! id = Some op → pow_ResourceID op = id) ∧
  ∀ i j a b, sn_PowerOperations s !! i = Some a → sn_PowerOperations s !! j = Some b →
    pow_ClusterID a = pow_ClusterID b → TerminalPowerState (pow_State a) = false →
    TerminalPowerState (pow_State b) = false → i = j.

Inductive power_change (s s' : snapshot) : Prop :=
| power_none : sn_PowerOperations s' = sn_PowerOperations s → power_change s s'
| power_write id op op' : sn_PowerOperations s !! id = Some op → power_evolves op op' →
    sn_PowerOperations s' = <[id := op']> (sn_PowerOperations s) → power_change s s'
| power_create fresh now cluster op : sn_PowerOperations s !! fresh = None →
    (∀ id o, sn_PowerOperations s !! id = Some o → active_power (pow_ClusterID op) o = false) →
    sn_PowerOperations s' = <[fresh := created_power fresh now cluster op]> (sn_PowerOperations s) →
    power_change s s'.

Lemma power_change_ok s s' : power_ok s → power_change s s' → power_ok s'.
Proof.
  intros [H1 H2] Hc. unfold power_ok.
  destruct Hc as [He|id op op' Hop Hev He|fresh now cluster op Hf Ha He]; rewrite He; clear He.
  - done.
  - destruct Hev as [Hi _ Hn _ _]. injection Hi as Hid Hcl _ _ _. split.
    + intros i o. rewrite lookup_insert_Some. intros [[<- <-]|[_ Ho]]; [rewrite Hid|]; by apply H1.
    + assert (∀ j b, sn_PowerOperations s !! j = Some b → pow_ClusterID op = pow_ClusterID b →
        TerminalPowerState (pow_State b) = false → id = j) as H3 by (intros; by eapply H2).
      intros i j a b. rewrite !lookup_insert_Some. intros [[<- <-]|[Hi' Hoi]] [[<- <-]|[Hj Hoj]] Hc Hta Htb; try done.
      * by rewrite Hcl in Hc; eapply H3.
      * rewrite Hcl in Hc. symmetry. by eapply H3.
      * by eapply H2.
  - split.
    + intros i o. rewrite lookup_insert_Some. intros [[<- <-]|[_ Ho]]; [done|by apply H1].
    + assert (∀ j b, sn_PowerOperations s !! j = Some b → pow_ClusterID b = pow_ClusterID op →
        TerminalPowerState (pow_State b) = false → False) as H3.
      { intros j b Hb Hc Ht. specialize (Ha _ _ Hb). unfold active_power in Ha.
        rewrite Ht, bool_decide_true in Ha by done. done. }
      intros i j a b. rewrite !lookup_insert_Some. intros [[<- <-]|[Hi' Hoi]] [[<- <-]|[Hj Hoj]] Hc Hta Htb; try done.
      * by destruct (H3 _ _ Hoj).
      * by destruct (H3 _ _ Hoi).
      * by eapply H2.
Qed.

Lemma commit_power {A} (a : A) value r r' res s :
  answer a (commit value r) = (r', res) → power_change s value → power_change s (repo_snapshot r) →
  power_change s (repo_snapshot r').
Proof.
  destruct (commit value r) as [r1 res1] eqn:Hc. intros [= <- _] Hv Hr. cbn.
  apply commit_spec in Hc as [_ Hc].
  assert (power_change s (compactSnapshotHistory value)) as Hv'.
  { destruct Hv; [by apply power_none|by eapply power_write|by eapply power_create]. }
  destruct res1; [|destruct Hc as [Hc|Hc]]; destruct Hc as [-> _]; done.
Qed.

Lemma create_power_change ctx fresh op r r' res :
  sn_PowerOperations (repo_snapshot r) !! fresh = None →
  CreatePowerOperation ctx fresh op r = (r', res) → power_change (repo_snapshot r) (repo_snapshot r').
Proof.
  unfold CreatePowerOperation. intros Hf. destruct ctx; [intros [= <- _]; by apply power_none|].
  repeat (case_match; [intros [= <- _]; by apply power_none|]).
  destruct (sn_Clusters _ !! _) as [cluster|]; [|intros [= <- _]; by apply power_none].
  destruct (existsb _ _) eqn:He; [intros [= <- _]; by apply power_none|].
  intros Hc. eapply commit_power; [exact Hc| |by apply power_none]. eapply power_create; [done| |done].
  intros id o Ho. apply not_true_iff_false. intros Ha. apply not_true_iff_false in He. apply He.
  apply existsb_exists. exists (id, o). split; [by apply list_elem_of_In, elem_of_map_to_list|done].
Qed.
Lemma transitioned_evolves now target by_ msg snap op :
  TerminalPowerState (pow_State op) = false → ValidPowerTransition (pow_State op) target = true →
  power_evolves op (transitioned_power now target by_ msg snap op).
Proof.
  intros Ht Hv. unfold transitioned_power.
  destruct (_ != _), (_ != _), snap, (TerminalPowerState target) eqn:Htt; split; cbn; try done; by rewrite Htt.
Qed.
Lemma transition_power_change ctx id rev target by_ msg snap r r' res :
  TransitionPowerOperation ctx id rev target by_ msg snap r = (r', res) →
  power_change (repo_snapshot r) (repo_snapshot r').
Proof.
  unfold TransitionPowerOperation. destruct ctx; [intros [= <- _]; by apply power_none|].
  destruct (negb (ValidResourceID id)); [intros [= <- _]; by apply power_none|].
  destruct (negb (PowerState_Valid target)); [intros [= <- _]; by apply power_none|].
  destruct (_ && _); [intros [= <- _]; by apply power_none|].
  destruct (_ !! id) as [op|] eqn:Hop; [|intros [= <- _]; by apply power_none].
  destruct (_ != rev); [intros [= <- _]; by apply power_none|].
  destruct (TerminalPowerState _) eqn:Ht; [intros [= <- _]; by apply power_none|].
  destruct (ValidPowerTransition _ _) eqn:Hv; cbn [negb]; [|intros [= <- _]; by apply power_none].
  intros Hc. eapply commit_power; [exact Hc| |by apply power_none].
  eapply power_write; [done|by apply transitioned_evolves|done].
Qed.
Lemma complete_power_change ctx id rev observedAt r r' res :
  CompletePowerRecovery ctx id rev observedAt r = (r', res) → power_change (repo_snapshot r) (repo_snapshot r').
Proof.
  unfold CompletePowerRecovery. destruct ctx; [intros [= <- _]; by apply power_none|].
  destruct (_ !! id) as [op|] eqn:Hop; [|intros [= <- _]; by apply power_none].
  destruct (_ || _) eqn:Hst; [intros [= <- _]; by apply power_none|].
  destruct (sn_TopologySnapshots _ !! _) as [topology|]; [|intros [= <- _]; by apply power_none].
  destruct (_ || _) in |- *; [intros [= <- _]; by apply power_none|].
  destruct (DisasterRecoveryActive _); [intros [= <- _]; by apply power_none|].
  intros Hc. repeat bsimpl_step. eapply commit_power; [exact Hc| |by apply power_none].
  eapply (power_write _ _ id op); [done| |done].
  match goal with H : pow_State op = PowerVerifying |- _ => split; cbn; rewrite ?H; done end.
Qed.

(** ** Runs *)

(** One step of the system: a power operation, any mutation of another
    component (none of them writes power operations), or the environment. *)
Inductive power_step (r r' : Repository) : Prop :=
| pstep_create ctx fresh op res : sn_PowerOperations (repo_snapshot r) !! fresh = None →
    CreatePowerOperation ctx fresh op r = (r', res) → power_step r r'
| pstep_transition ctx id rev target approvedBy message snap res :
    TransitionPowerOperation ctx id rev target approvedBy message snap r = (r', res) → power_step r r'
| pstep_complete ctx id rev observedAt res :
    CompletePowerRecovery ctx id rev observedAt r = (r', res) → power_step r r'
| pstep_other value res : sn_PowerOperations value = sn_PowerOperations (repo_snapshot r) →
    commit value r = (r', res) → power_step r r'
| pstep_environment now outcomes : r' = r <| repo_now := now |> <| repo_commits := outcomes |> → power_step r r'.

Lemma power_step_change r r' : power_step r r' → power_change (repo_snapshot r) (repo_snapshot r').
Proof.
  intros [ctx fresh op res Hf Hc|ctx id rev target by_ msg snap res Hc|ctx id rev obs res Hc|value res Hv Hc|now cs ->].
  - by eapply create_power_change.
  - by eapply transition_power_change.
  - by eapply complete_power_change.
  - apply (commit_power tt value r r' res); [unfold answer; rewrite Hc; by destruct res as [[]|]| |]; by apply power_none.
  - by apply power_none.
Qed.
Lemma empty_power_ok s : sn_PowerOperations s = ∅ → power_ok s.
Proof. unfold power_ok. intros ->. by split; intros *; rewrite lookup_empty. Qed.
Lemma power_steps_ok r r' : power_ok (repo_snapshot r) → rtc power_step r r' → power_ok (repo_snapshot r').
Proof. intros Hok Hr. induction Hr; eauto using power_change_ok, power_step_change. Qed.

Lemma power_steps_record r r' id op :
  rtc power_step r r' → sn_PowerOperations (repo_snapshot r) !! id = Some op →
  ∃ op', sn_PowerOperations (repo_snapshot r') !! id = Some op' ∧ rtc power_evolves op op'.
Proof.
  intros Hr. revert op. induction Hr as [r|r r1 r2 Hs _ IH]; intros op Hop; [eauto using rtc_refl|].
  assert (∃ op1, sn_PowerOperations (repo_snapshot r1) !! id = Some op1 ∧ rtc power_evolves op op1)
    as (op1 & Hop1 & H1).
  { apply power_step_change in Hs.
    destruct Hs as [He|i o o' Ho Hev He|fresh now cluster o Hf _ He]; rewrite He.
    - eauto using rtc_refl.
    - destruct (decide (i = id)) as [->|]; [|rewrite lookup_insert_ne by done; eauto using rtc_refl].
      rewrite lookup_insert_eq. assert (o = op) as -> by congruence. eauto using rtc_once.
    - rewrite lookup_insert_ne by congruence. eauto using rtc_refl. }
  destruct (IH _ Hop1) as (op2 & ? & ?). exists op2. split; [done|]. by etrans.
Qed.
Lemma power_evolves_path old new :
  rtc power_evolves old new →
  rtc power_transition (pow_State old) (pow_State new) ∧
  (TerminalPowerState (pow_State old) = true → new = old) ∧
  (pow_ResourceID new, pow_ClusterID new, pow_OperationType new, pow_RequestedBy new, pow_StartedAt new)
    = (pow_ResourceID old, pow_ClusterID old, pow_OperationType old, pow_RequestedBy old, pow_StartedAt old).
Proof.
  induction 1 as [o|o1 o2 o3 He _ (I1 & I2 & I3)]; [split_and!; eauto using rtc_refl|].
  destruct He as [Hi Hs Ha _ _]. split_and!; [by eapply rtc_l|congruence|congruence].
Qed.

(** Ranks rise by at most one per write, so a run cannot jump over a stage. *)
Lemma run_visits r r' id op op' s :
  rtc power_step r r' →
  sn_PowerOperations (repo_snapshot r) !! id = Some op →
  sn_PowerOperations (repo_snapshot r') !! id = Some op' →
  stage_rank (pow_State op) ≤ stage_rank s ≤ stage_rank (pow_State op') → 0 ≤ stage_rank s →
  ∃ r1 op1, rtc power_step r r1 ∧ rtc power_step r1 r' ∧
    sn_PowerOperations (repo_snapshot r1) !! id = Some op1 ∧ pow_State op1 = s.
Proof.
  intros Hr Hop Hop' Hrank Hs. revert op Hop Hrank.
  induction Hr as [r|r r1 r2 Hst Hr IH]; intros op Hop Hrank.
  - exists r, op. assert (op' = op) as -> by congruence. split_and!; [apply rtc_refl..|done|].
    destruct (pow_State op), s; cbn in *; done || lia.
  - destruct (decide (stage_rank s = stage_rank (pow_State op))) as [He|Hne].
    { exists r, op. split_and!; [apply rtc_refl|by eapply rtc_l|done|].
      destruct (pow_State op), s; cbn in *; done || lia. }
    destruct (power_steps_record _ _ _ _ (rtc_once _ _ Hst) Hop) as (op1 & Hop1 & Hev).
    assert (stage_rank (pow_State op1) ≤ stage_rank s) as Hle; [|
      destruct (IH Hop' op1 Hop1) as (r3 & op3 & ? & ? & ? & ?); [lia|];
      exists r3, op3; split_and!; [by eapply rtc_l|done..]].
    apply power_step_change in Hst.
    destruct Hst as [He|i o o' Ho Hev' He|fresh now cluster o Hf _ He]; rewrite He in Hop1.
    + assert (op1 = op) as -> by congruence. lia.
    + apply lookup_insert_Some in Hop1 as [[-> ->]|[_ ?]].
      * assert (o = op) as -> by congruence. destruct Hev' as [_ Ht _ _ _].
        apply power_transition_rank in Ht. lia.
      * assert (op1 = op) as -> by congruence. lia.
    + apply lookup_insert_Some in Hop1 as [[-> _]|[_ ?]]; [congruence|].
      assert (op1 = op) as -> by congruence. lia.
Qed.

Lemma lifecycle_rank s : s ∈ lifecycle → 0 ≤ stage_rank s ≤ 9.
Proof. revert s. apply Forall_forall. by repeat constructor. Qed.

(** ** Protections *)

(** Only maintenance flags changed, and only to [value]. *)
Definition maintained (value : bool) (m m' : gmap ResourceID DatabaseInstance) : Prop :=
  ∀ j, match m !! j, m' !! j with
       | Some a, Some b => inst_ClusterID b = inst_ClusterID a ∧
           (b = a ∨ inst_Maintenance b = value)
       | None, None => True
       | _, _ => False
       end.
Lemma maintained_refl value m : maintained value m m.
Proof. intros j. destruct (m !! j); auto. Qed.
Lemma maintained_trans value m1 m2 m3 :
  maintained value m1 m2 → maintained value m2 m3 → maintained value m1 m3.
Proof.
  intros H1 H2 j. specialize (H1 j); specialize (H2 j).
  destruct (m1 !! j), (m2 !! j), (m3 !! j); try done.
  destruct H1 as [E1 [->|H1]], H2 as [E2 [->|H2]]; split; try congruence; auto.
Qed.

Lemma SetMaintenance_ok ctx clusterID id value r r' :
  SetMaintenance ctx clusterID id value r = (r', Ok tt) →
  maintained value (sn_Instances (repo_snapshot r)) (sn_Instances (repo_snapshot r')) ∧
  sn_Clusters (repo_snapshot r') = sn_Clusters (repo_snapshot r) ∧
  ∃ i, sn_Instances (repo_snapshot r') !! id = Some i ∧ inst_Maintenance i = value.
Proof.
  unfold SetMaintenance. destruct ctx; [done|]. destruct (_ || _); [done|].
  destruct (sn_Instances _ !! id) as [i|] eqn:Hi; [|done].
  destruct (_ != clusterID); [done|]. destruct (negb value && _); [done|].
  destruct (Bool.eqb (inst_Maintenance i) value) eqn:He.
  { intros [= <-]. apply eqb_prop in He. split_and!; [apply maintained_refl|done|by exists i]. }
  intros Hc. apply commit_spec in Hc as [_ [-> _]]. cbn. split_and!; [|done|eexists; by rewrite lookup_insert_eq].
  intros j. destruct (decide (id = j)) as [<-|]; [rewrite Hi, lookup_insert_eq; auto|].
  rewrite lookup_insert_ne by done. apply maintained_refl.
Qed.
Lemma maintain_each_other ctx clusterID value l r r' res id :
  maintain_each ctx clusterID value l r = (r', res) → (∀ x, x ∈ l → inst_ResourceID x ≠ id) →
  sn_Instances (repo_snapshot r') !! id = sn_Instances (repo_snapshot r) !! id.
Proof.
  revert r. induction l as [|x l IH]; intros r; cbn; [by intros [= <- _]|].
  destruct (SetMaintenance _ _ _ _ r) as [r1 res1] eqn:Hs. intros H Hne.
  assert (sn_Instances (repo_snapshot r1) !! id = sn_Instances (repo_snapshot r) !! id) as H1.
  { assert (inst_ResourceID x ≠ id) as Hx by (apply Hne; set_solver).
    revert Hs. unfold SetMaintenance. destruct ctx; [by intros [= <- _]|]. destruct (_ || _); [by intros [= <- _]|].
    destruct (sn_Instances _ !! inst_ResourceID x) as [i|]; [|by intros [= <- _]].
    destruct (_ != clusterID); [by intros [= <- _]|]. destruct (_ && _); [by intros [= <- _]|].
    destruct (Bool.eqb _ _); [by intros [= <- _]|]. intros Hc. apply commit_spec in Hc as [_ Hc].
    destruct res1 as [u|e]; [destruct Hc as [-> _]|destruct Hc as [[-> _]|[-> _]]]; cbn; try done;
      by rewrite lookup_insert_ne. }
  destruct res1; [|by injection H as <- _]. rewrite <- H1. apply IH; [done|set_solver].
Qed.
Lemma SetRecoveryFreeze_ok ctx clusterID value r r' :
  SetRecoveryFreeze ctx clusterID value r = (r', Ok tt) →
  clusterID ≠ "" ∧ sn_Instances (repo_snapshot r') = sn_Instances (repo_snapshot r) ∧
  ∃ c, sn_Clusters (repo_snapshot r') !! clusterID = Some c ∧ cluster_RecoveryFreeze c = value.
Proof.
  unfold SetRecoveryFreeze. destruct ctx; [done|].
  destruct (ValidResourceID clusterID) eqn:Hv; [|done]. cbn [negb].
  assert (clusterID ≠ "") as Hne by (intros ->; by vm_compute in Hv).
  destruct (sn_Clusters _ !! clusterID) as [c|] eqn:Hc; [|done]. destruct (_ && _); [done|].
  destruct (Bool.eqb _ value) eqn:He.
  { intros [= <-]. apply eqb_prop in He. split_and!; [done..|by exists c]. }
  intros Hcom. apply commit_spec in Hcom as [_ [-> _]]. cbn. split_and!; [done..|].
  eexists. by rewrite lookup_insert_eq.
Qed.
Lemma maintain_each_ok ctx clusterID value l r r' :
  maintain_each ctx clusterID value l r = (r', Ok tt) →
  maintained value (sn_Instances (repo_snapshot r)) (sn_Instances (repo_snapshot r')) ∧
  sn_Clusters (repo_snapshot r') = sn_Clusters (repo_snapshot r) ∧
  ∀ x, x ∈ l → ∃ i, sn_Instances (repo_snapshot r') !! inst_ResourceID x = Some i ∧ inst_Maintenance i = value.
Proof.
  revert r. induction l as [|x l IH]; intros r; cbn.
  { intros [= <-]. split_and!; [apply maintained_refl|done|set_solver]. }
  destruct (SetMaintenance _ _ _ _ r) as [r1 [[]|e]] eqn:Hs; [|done].
  apply SetMaintenance_ok in Hs as (H1 & H2 & i & Hi & Hv). intros (H3 & H4 & H5)%IH.
  split_and!; [by eapply maintained_trans|congruence|].
  intros y [->|Hy]%elem_of_cons; [|by apply H5].
  specialize (H3 (inst_ResourceID x)). rewrite Hi in H3.
  destruct (sn_Instances (repo_snapshot r') !! inst_ResourceID x) as [b|]; [|done].
  exists b. split; [done|]. by destruct H3 as [_ [->|?]].
Qed.

(** ** The latest operation *)

Lemma ltb_leb a b : String.ltb a b = negb (String.leb b a).
Proof.
  unfold String.ltb, String.leb. rewrite (String.compare_antisym b a). by destruct (String.compare a b).
Qed.
Lemma ltb_trans a b c : String.ltb a b = true → String.ltb b c = true → String.ltb a c = true.
Proof.
  rewrite !ltb_leb, !negb_true_iff. intros H1 H2. apply not_true_iff_false. intros H3.
  apply not_true_iff_false in H2. apply H2. apply Is_true_eq_true. apply Is_true_eq_left in H3.
  assert (String.le a b) as H4.
  { destruct (String.le_total a b) as [?|H]; [done|]. apply Is_true_eq_true in H.
    change (String.leb b a = true) in H. congruence. }
  by apply (PreOrder_Transitive (R := String.le) c a b).
Qed.
Lemma ltb_total a b : a ≠ b → String.ltb a b = true ∨ String.ltb b a = true.
Proof.
  intros Hne. unfold String.ltb. rewrite (String.compare_antisym b a).
  destruct (String.compare a b) eqn:Hc; cbn; auto. apply String.compare_eq_iff in Hc. congruence.
Qed.
Lemma ltb_irrefl a : String.ltb a a = false.
Proof. unfold String.ltb. pose proof (String.compare_antisym a a). by destruct (String.compare a a). Qed.

Lemma newer_trans a b c : newer_power a b = true → newer_power b c = true → newer_power a c = true.
Proof.
  unfold newer_power, Equal, After.
  destruct (Z.eqb_spec (pow_UpdatedAt a) (pow_UpdatedAt b)), (Z.eqb_spec (pow_UpdatedAt b) (pow_UpdatedAt c)),
    (Z.eqb_spec (pow_UpdatedAt a) (pow_UpdatedAt c)), (Z.eqb_spec (pow_CreatedAt a) (pow_CreatedAt b)),
    (Z.eqb_spec (pow_CreatedAt b) (pow_CreatedAt c)), (Z.eqb_spec (pow_CreatedAt a) (pow_CreatedAt c)); cbn;
    rewrite ?Z.ltb_lt; try lia; intros H1 H2; by eapply ltb_trans.
Qed.
Lemma newer_total a b : pow_ResourceID a ≠ pow_ResourceID b → newer_power a b = true ∨ newer_power b a = true.
Proof.
  unfold newer_power, Equal, After. rewrite (Z.eqb_sym (pow_UpdatedAt b)), (Z.eqb_sym (pow_CreatedAt b)).
  destruct (Z.eqb_spec (pow_UpdatedAt a) (pow_UpdatedAt b)), (Z.eqb_spec (pow_CreatedAt a) (pow_CreatedAt b)); cbn;
    rewrite ?Z.ltb_lt; try lia. intros Hne. apply ltb_total. congruence.
Qed.
Lemma newer_irrefl a : newer_power a a = false.
Proof. unfold newer_power, Equal. rewrite !Z.eqb_refl. cbn. apply ltb_irrefl. Qed.

(** [op] is the newest operation of the cluster in [l]. *)
Definition is_latest (clusterID : ResourceID) (l : list PowerOperation) (op : PowerOperation) : Prop :=
  op ∈ l ∧ pow_ClusterID op = clusterID ∧
  ∀ o, o ∈ l → pow_ClusterID o = clusterID → o = op ∨ newer_power op o = true.

Lemma latest_step_newer clusterID l op : pow_ClusterID op = clusterID →
  latest_step clusterID (Some l) op = Some (if newer_power op l then op else l).
Proof.
  intros Hc. unfold latest_step, newer_power, Equal, After. rewrite bool_decide_true by done. cbn [negb].
  destruct (Z.eqb_spec (pow_UpdatedAt op) (pow_UpdatedAt l)) as [He|Hne]; cbn.
  - assert ((pow_UpdatedAt l <? pow_UpdatedAt op) = false) as -> by lia. cbn.
    destruct (Z.eqb_spec (pow_CreatedAt op) (pow_CreatedAt l)) as [He'|Hne']; cbn.
    + assert ((pow_CreatedAt l <? pow_CreatedAt op) = false) as -> by lia. cbn. by destruct (String.ltb _ _).
    + rewrite orb_false_r. by destruct (_ <? _).
  - rewrite !orb_false_r. by destruct (_ <? _).
Qed.
Lemma latest_spec clusterID l :
  (∀ a b, a ∈ l → b ∈ l → pow_ResourceID a = pow_ResourceID b → a = b) →
  match latest_power clusterID l with
  | Some op => is_latest clusterID l op
  | None => ∀ o, o ∈ l → pow_ClusterID o ≠ clusterID
  end.
Proof.
  unfold latest_power. induction l as [|x l IH] using rev_ind; [set_solver|]. intros Hid.
  rewrite foldl_app. cbn [foldl].
  specialize (IH ltac:(intros a b Ha Hb; apply Hid; set_solver)).
  destruct (bool_decide_reflect (pow_ClusterID x = clusterID)) as [Hx|Hx].
  2: { unfold latest_step. rewrite bool_decide_false by done. cbn [negb].
       destruct (foldl _ None l) as [op|]; [|set_solver]. destruct IH as (H1 & H2 & H3).
       split_and!; [set_solver|done|]. intros o [?|?]%elem_of_app Ho; [by apply H3|set_solver]. }
  destruct (foldl _ None l) as [op|].
  - rewrite latest_step_newer by done. destruct IH as (H1 & H2 & H3).
    destruct (newer_power x op) eqn:Hn; (split_and!; [set_solver|done|]); intros o [Ho|Ho]%elem_of_app Hc.
    + right. destruct (H3 o Ho Hc) as [->|?]; [done|]. by eapply newer_trans.
    + left. set_solver.
    + by apply H3.
    + assert (o = x) as -> by set_solver. destruct (decide (pow_ResourceID x = pow_ResourceID op)) as [He|Hne].
      * left. apply Hid; set_solver.
      * right. destruct (newer_total x op Hne); congruence.
  - unfold latest_step. rewrite bool_decide_true by done. cbn [negb].
    split_and!; [set_solver|done|]. intros o [Ho|Ho]%elem_of_app Hc; [by destruct (IH o Ho)|left; set_solver].
Qed.
Lemma is_latest_unique clusterID l op op' : is_latest clusterID l op → is_latest clusterID l op' → op = op'.
Proof.
  intros (H1 & H2 & H3) (G1 & G2 & G3). destruct (H3 _ G1 G2) as [?|Hn]; [done|].
  destruct (G3 _ H1 H2) as [?|Hn']; [done|]. pose proof (newer_trans _ _ _ Hn Hn') as Hx.
  by rewrite newer_irrefl in Hx.
Qed.

(** ** Properties *)

(** C37: The power lifecycle is fail-closed and takes no shortcut: over any run a
    recorded operation is never lost, keeps its identity and moves only along
    allowed transitions; once completed or failed its record never changes; and
    one that completes was seen stored in every stage of the lifecycle between
    its state at the start and completion, in order. *)
Theorem power_lifecycle_history r r' id op :
  rtc power_step r r' → sn_PowerOperations (repo_snapshot r) !! id = Some op →
  ∃ op', sn_PowerOperations (repo_snapshot r') !! id = Some op' ∧
    (pow_ResourceID op', pow_ClusterID op', pow_OperationType op', pow_RequestedBy op', pow_StartedAt op')
      = (pow_ResourceID op, pow_ClusterID op, pow_OperationType op, pow_RequestedBy op, pow_StartedAt op) ∧
    rtc power_transition (pow_State op) (pow_State op') ∧
    (TerminalPowerState (pow_State op) = true → op' = op) ∧
    (pow_State op' = PowerCompleted → ∀ s, s ∈ lifecycle → stage_rank (pow_State op) ≤ stage_rank s →
       ∃ r1 op1, rtc power_step r r1 ∧ rtc power_step r1 r' ∧
         sn_PowerOperations (repo_snapshot r1) !! id = Some op1 ∧ pow_State op1 = s).
Proof.
  intros Hr Hop. destruct (power_steps_record _ _ _ _ Hr Hop) as (op' & Hop' & Hev).
  exists op'. destruct (power_evolves_path _ _ Hev) as (Hp & Ht & Hi). split_and!; try done.
  intros Hc s Hs%lifecycle_rank Hrank. eapply run_visits; [done..| |lia]. rewrite Hc. cbn. lia.
Qed.

(** At most one power operation is in progress per cluster, in every run
    from an empty repository, and [ActivePowerOperation] returns exactly it,
    whatever the iteration order of the map. *)
Theorem one_active_power_operation r0 r clusterID :
  sn_PowerOperations (repo_snapshot r0) = ∅ → rtc power_step r0 r →
  (∀ i j a b, sn_PowerOperations (repo_snapshot r) !! i = Some a → sn_PowerOperations (repo_snapshot r) !! j = Some b →
     active_power clusterID a = true → active_power clusterID b = true → i = j) ∧
  ∀ op, ActivePowerOperation false clusterID r = Some op ↔
    sn_PowerOperations (repo_snapshot r) !! pow_ResourceID op = Some op ∧ active_power clusterID op = true.
Proof.
  intros H0 Hr. assert (power_ok (repo_snapshot r)) as [Hid Hone].
  { eapply power_steps_ok; [by apply empty_power_ok|done]. }
  assert (∀ i j a b, sn_PowerOperations (repo_snapshot r) !! i = Some a → sn_PowerOperations (repo_snapshot r) !! j = Some b →
     active_power clusterID a = true → active_power clusterID b = true → i = j) as Huniq.
  { unfold active_power. intros i j a b Ha Hb Hta Htb. repeat bsimpl_step. eapply Hone; [done..|congruence|done|done]. }
  split; [done|]. intros op. unfold ActivePowerOperation.
  assert (∀ o, o ∈ (map_to_list (sn_PowerOperations (repo_snapshot r))).*2 ↔
    sn_PowerOperations (repo_snapshot r) !! pow_ResourceID o = Some o) as Hin.
  { intros o. rewrite list_elem_of_fmap. split.
    - intros ([i o'] & -> & Ho%elem_of_map_to_list). cbn in *. by rewrite (Hid _ _ Ho).
    - intros Ho. exists (pow_ResourceID o, o). split; [done|]. by apply elem_of_map_to_list. }
  split.
  - intros Hf. apply find_some in Hf as [Ho Ha]. apply list_elem_of_In, Hin in Ho. done.
  - intros [Ho Ha]. destruct (find _ _) as [o|] eqn:Hf.
    + apply find_some in Hf as [Ho' Ha']. apply list_elem_of_In, Hin in Ho'.
      assert (pow_ResourceID o = pow_ResourceID op) as He by (by eapply Huniq). congruence.
    + rewrite (find_none _ _ Hf op) in Ha; [done|]. by apply list_elem_of_In, Hin.
Qed.

(** Completion is atomic and bound to what was verified: it succeeds only for
    a verifying operation at the expected revision, on the topology observation
    the caller checked and outside a disaster recovery; then the operation is
    completed, the cluster unfrozen and every member out of maintenance, other
    members untouched.  On any other answer (but the late durability warning)
    operations, clusters and members are unchanged. *)
Theorem CompletePowerRecovery_atomic ctx id revision observedAt r r' res :
  CompletePowerRecovery ctx id revision observedAt r = (r', res) →
  let s := repo_snapshot r in let s' := repo_snapshot r' in
  match res with
  | Ok op' => ∃ op topology,
      sn_PowerOperations s !! id = Some op ∧ pow_MetadataRevision op = revision ∧
      pow_State op = PowerVerifying ∧ sn_TopologySnapshots s !! pow_ClusterID op = Some topology ∧
      topo_ObservedAt topology = observedAt ∧ observedAt ≠ 0 ∧
      DisasterRecoveryActive (default zero_DatabaseCluster (sn_Clusters s !! pow_ClusterID op)) = false ∧
      sn_PowerOperations s' !! id = Some op' ∧ pow_State op' = PowerCompleted ∧
      (∃ cluster, sn_Clusters s' !! pow_ClusterID op = Some cluster ∧ cluster_RecoveryFreeze cluster = false) ∧
      (∀ i m, sn_Instances s' !! i = Some m → inst_ClusterID m = pow_ClusterID op → inst_Maintenance m = false) ∧
      (∀ i m, sn_Instances s !! i = Some m → inst_ClusterID m ≠ pow_ClusterID op → sn_Instances s' !! i = Some m)
  | Err e => e ≠ ErrPostCommitDurability →
      sn_PowerOperations s' = sn_PowerOperations s ∧ sn_Clusters s' = sn_Clusters s ∧
      sn_Instances s' = sn_Instances s
  end.
Proof.
  unfold CompletePowerRecovery. destruct ctx; [by intros [= <- <-]|].
  destruct (_ !! id) as [op|] eqn:Hop; [|by intros [= <- <-]].
  destruct (_ || _) eqn:Hst; [by intros [= <- <-]|].
  destruct (sn_TopologySnapshots _ !! _) as [topology|] eqn:Htopo; [|by intros [= <- <-]].
  destruct (_ || _) eqn:Hobs in |- *; [by intros [= <- <-]|].
  destruct (DisasterRecoveryActive _) eqn:Hdr; [by intros [= <- <-]|].
  unfold answer. match goal with |- context [commit ?v ?q] => destruct (commit v q) as [r1 [u|e]] eqn:Hc end;
    cbn [fst snd]; intros [= <- <-]; cbn zeta.
  2: { intros Hne. unfold commit in Hc. cbn in Hc.
       destruct (repo_commits r) as [|[] cs]; try discriminate Hc; injection Hc as <- <-; done. }
  apply commit_spec in Hc as [_ [-> _]]. unfold IsZero, Equal in Hobs. repeat bsimpl_step.
  exists op, topology. split_and!; try done; cbn.
  - unfold put_power. cbn. by rewrite lookup_insert_eq.
  - eexists. rewrite lookup_insert_eq. by split.
  - intros i m. rewrite lookup_fmap, fmap_Some. intros (m0 & Hm0 & ->). unfold released.
    by destruct (bool_decide_reflect (inst_ClusterID m0 = pow_ClusterID op)).
  - intros i m Hm Hne. rewrite lookup_fmap, Hm. cbn. unfold released. by rewrite bool_decide_false.
Qed.


(** Applying (releasing) the power protections, when it succeeds, freezes
    (unfreezes) recovery on the cluster and puts every one of its members in
    (out of) maintenance, and touches no member of another cluster. *)
Theorem power_protections_complete clusterID value r r' :
  (∀ id i, sn_Instances (repo_snapshot r) !! id = Some i → inst_ResourceID i = id) →
  set_protections false clusterID value r = (r', Ok tt) →
  RecoveryFrozen false clusterID r' = Ok value ∧
  (∀ id i, sn_Instances (repo_snapshot r') !! id = Some i → inst_ClusterID i = clusterID →
     inst_Maintenance i = value) ∧
  (∀ id i, sn_Instances (repo_snapshot r) !! id = Some i → inst_ClusterID i ≠ clusterID →
     sn_Instances (repo_snapshot r') !! id = Some i).
Proof.
  intros Hid. unfold set_protections.
  destruct (SetRecoveryFreeze _ _ _ r) as [r1 [[]|e]] eqn:Hs; [|done]. intros Hm.
  apply SetRecoveryFreeze_ok in Hs as (Hv & Hi & cluster & Hc & Hf).
  pose proof (λ id, maintain_each_other _ _ _ _ _ _ _ id Hm) as H4.
  apply maintain_each_ok in Hm as (H1 & H2 & H3). rewrite Hi in H1.
  assert (∀ id i, sn_Instances (repo_snapshot r) !! id = Some i → inst_ClusterID i = clusterID →
    i ∈ Instances clusterID r1) as Hin.
  { intros id i Hii Hcl. unfold Instances. rewrite merge_sort_Permutation, list_elem_of_filter, Hi. split; [by right|].
    apply list_elem_of_fmap. exists (id, i). split; [done|]. by apply elem_of_map_to_list. }
  split_and!.
  - unfold RecoveryFrozen. by rewrite H2, Hc, Hf.
  - intros id i Hii Hcl. specialize (H1 id). rewrite Hii in H1.
    destruct (sn_Instances (repo_snapshot r) !! id) as [i0|] eqn:Hi0; [|done]. destruct H1 as [He _].
    destruct (H3 i0) as (i' & Hi' & Hm'); [eapply Hin; [done|congruence]|].
    rewrite (Hid _ _ Hi0) in Hi'. congruence.
  - intros id i Hii Hcl. rewrite H4, Hi; [done|]. intros x Hx He. unfold Instances in Hx.
    rewrite merge_sort_Permutation, list_elem_of_filter, Hi in Hx. destruct Hx as [[?|Hxc] Hx]; [done|].
    apply list_elem_of_fmap in Hx as ([j y] & -> & Hy%elem_of_map_to_list). cbn in *.
    rewrite (Hid _ _ Hy) in He. congruence.
Qed.

(** Whether a cluster is protected depends only on its newest power operation
    (by update time, creation time, then ID), in whatever order the map is
    iterated: it is exactly when that operation is shutting down, powered off,
    booting, recovering, verifying or failed, and no disaster recovery that
    finished later has superseded it. *)
Theorem IsClusterPowerProtected_latest clusterID r l :
  (∀ id op, sn_PowerOperations (repo_snapshot r) !! id = Some op → pow_ResourceID op = id) →
  l ≡ₚ (map_to_list (sn_PowerOperations (repo_snapshot r))).*2 →
  protection_of clusterID l (repo_snapshot r) = IsClusterPowerProtected clusterID r ∧
  ∀ state, IsClusterPowerProtected clusterID r = (true, state) ↔
    ∃ op, is_latest clusterID l op ∧ pow_State op = state ∧ protected_state state = true ∧
      superseded (default zero_DatabaseCluster (sn_Clusters (repo_snapshot r) !! clusterID)) op = false.
Proof.
  intros Hid Hl.
  assert (∀ l', l' ≡ₚ (map_to_list (sn_PowerOperations (repo_snapshot r))).*2 →
    ∀ a b, a ∈ l' → b ∈ l' → pow_ResourceID a = pow_ResourceID b → a = b) as Huniq.
  { intros l' Hl' a b. rewrite Hl', !list_elem_of_fmap.
    intros ([i a'] & -> & Ha%elem_of_map_to_list) ([j b'] & -> & Hb%elem_of_map_to_list); cbn.
    rewrite (Hid _ _ Ha), (Hid _ _ Hb). congruence. }
  pose proof (latest_spec clusterID l (Huniq l Hl)) as H1.
  pose proof (latest_spec clusterID _ (Huniq _ (reflexivity _))) as H2.
  assert (latest_power clusterID (map_to_list (sn_PowerOperations (repo_snapshot r))).*2 =
    latest_power clusterID l) as He.
  { destruct (latest_power clusterID l) as [op|]; destruct (latest_power _ _) as [op'|]; try done.
    - f_equal. eapply is_latest_unique; [exact H2|]. destruct H1 as (? & ? & ?). unfold is_latest. by setoid_rewrite <- Hl.
    - destruct H1 as (Ho & Hc & _). rewrite Hl in Ho. by destruct (H2 _ Ho).
    - destruct H2 as (Ho & Hc & _). rewrite <- Hl in Ho. by destruct (H1 _ Ho). }
  unfold IsClusterPowerProtected, protection_of. rewrite He. split; [done|]. clear H2 He.
  intros state. destruct (latest_power clusterID l) as [op|].
  - transitivity (superseded (default zero_DatabaseCluster (sn_Clusters (repo_snapshot r) !! clusterID)) op = false ∧
      protected_state (pow_State op) = true ∧ pow_State op = state).
    + destruct (superseded _ _); [naive_solver|]. destruct (protected_state _); naive_solver.
    + split; [intros (? & ? & <-); by exists op|]. intros (op' & Hop' & <- & ? & ?).
      by assert (op = op') as -> by (by eapply is_latest_unique).
  - split; [done|]. intros (op & (Ho & Hc & _) & _). by destruct (H1 _ Ho).
Qed.

(** ** Concrete instances *)

Definition wp_cluster : DatabaseCluster := zero_DatabaseCluster <| cluster_ResourceID := w_cluster |>.
Definition wp_member : DatabaseInstance :=
  zero_DatabaseInstance <| inst_ResourceID := w_owner |> <| inst_ClusterID := w_cluster |>.
Definition wp_topology : TopologySnapshot := mkTopologySnapshot w_cluster
  [wp_member <| inst_Maintenance := true |>] [] [] zero_Health [] w_now.
Definition wp_r0 : Repository := mkRepository
  (emptySnapshot <| sn_Clusters := {[ w_cluster := wp_cluster ]} |>
     <| sn_Instances := {[ w_owner := wp_member ]} |>
     <| sn_TopologySnapshots := {[ w_cluster := wp_topology ]} |>) 0 w_now [].
Definition wp_id : ResourceID := "dddddddd-dddd-4ddd-8ddd-dddddddddddd".
Definition wp_request : PowerOperation :=
  zero_PowerOperation <| pow_ClusterID := w_cluster |> <| pow_OperationType := PowerPowerOff |>
    <| pow_RequestedBy := "operator" |>.
Definition wp_created : Repository := (CreatePowerOperation false wp_id wp_request wp_r0).1.
Definition wp_move (r : Repository) (e : uint64 * PowerState) : Repository :=
  (TransitionPowerOperation false wp_id e.1 e.2 "operator" "" None r).1.
Definition wp_path : list (uint64 * PowerState) :=
  zip [1; 2; 3; 4; 5; 6; 7; 8]
    [PowerPrechecking; PowerMaintenance; PowerShutdownPlanned; PowerShuttingDown; PowerPoweredOff;
     PowerBootDetected; PowerRecovering; PowerVerifying].
Definition wp_verifying : Repository := foldl wp_move wp_created wp_path.
Definition wp_completed : Repository := (CompletePowerRecovery false wp_id 9 w_now wp_verifying).1.
Definition wp_protected : Repository := (ApplyPowerProtections false w_cluster wp_r0).1.
Definition wp_rejecting : Repository := wp_verifying <| repo_commits := [CommitRejected] |>.

Lemma wp_run : rtc power_step wp_created wp_verifying.
Proof.
  unfold wp_verifying. generalize wp_created. induction wp_path as [|e l IH]; intros r; [apply rtc_refl|].
  eapply rtc_l; [|apply IH].
  exact (pstep_transition _ _ false wp_id e.1 e.2 "operator" "" None _ (surjective_pairing _)).
Qed.
Lemma wp_step0 : power_step wp_r0 wp_created.
Proof. exact (pstep_create wp_r0 _ false wp_id wp_request _ eq_refl (surjective_pairing _)). Qed.
Lemma wp_stepn : power_step wp_verifying wp_completed.
Proof. exact (pstep_complete _ _ false wp_id 9 w_now _ (surjective_pairing _)). Qed.
Lemma wp_full : rtc power_step wp_created wp_completed.
Proof. etrans; [exact wp_run|]. apply rtc_once, wp_stepn. Qed.
Definition wp_first : PowerOperation := created_power wp_id w_now wp_cluster wp_request.

Lemma power_lifecycle_history_witness :
  sn_PowerOperations (repo_snapshot wp_created) !! wp_id = Some wp_first ∧
  ∃ op', sn_PowerOperations (repo_snapshot wp_completed) !! wp_id = Some op' ∧ pow_State op' = PowerCompleted ∧
    ∃ r1 op1, rtc power_step wp_created r1 ∧ rtc power_step r1 wp_completed ∧
      sn_PowerOperations (repo_snapshot r1) !! wp_id = Some op1 ∧ pow_State op1 = PowerRecovering.
Proof.
  assert (sn_PowerOperations (repo_snapshot wp_created) !! wp_id = Some wp_first) as Hop by by vm_compute.
  split; [exact Hop|].
  destruct (power_lifecycle_history wp_created wp_completed wp_id wp_first wp_full Hop)
    as (op' & Hop' & _ & _ & _ & Hall).
  exists op'. split; [exact Hop'|].
  assert (pow_State op' = PowerCompleted) as Hc.
  { assert (pow_State <$> (sn_PowerOperations (repo_snapshot wp_completed) !! wp_id) = Some PowerCompleted) as H
      by by vm_compute. rewrite Hop' in H. by injection H. }
  split; [exact Hc|]. apply (Hall Hc PowerRecovering); [apply list_elem_of_In; cbn; tauto|by vm_compute].
Defined.

Lemma one_active_power_operation_witness :
  rtc power_step wp_r0 wp_created ∧ ActivePowerOperation false w_cluster wp_created = Some wp_first.
Proof.
  split; [apply rtc_once, wp_step0|].
  apply (one_active_power_operation wp_r0 wp_created w_cluster eq_refl (rtc_once _ _ wp_step0)). by vm_compute.
Defined.

Lemma CompletePowerRecovery_atomic_witness :
  ∃ op', CompletePowerRecovery false wp_id 9 w_now wp_verifying = (wp_completed, Ok op') ∧
    pow_State op' = PowerCompleted.
Proof.
  assert (∃ op', CompletePowerRecovery false wp_id 9 w_now wp_verifying = (wp_completed, Ok op')) as [op' H].
  { eexists. unfold wp_completed. apply pair_fst. by vm_compute. }
  exists op'. split; [exact H|].
  destruct (CompletePowerRecovery_atomic _ _ _ _ _ _ _ H) as (op & t & _ & _ & _ & _ & _ & _ & _ & _ & Hs & _).
  exact Hs.
Defined.


Lemma power_protections_complete_witness :
  set_protections false w_cluster true wp_r0 = (wp_protected, Ok tt) ∧
  RecoveryFrozen false w_cluster wp_protected = Ok true.
Proof.
  assert (set_protections false w_cluster true wp_r0 = (wp_protected, Ok tt)) as H.
  { unfold wp_protected. apply pair_fst. by vm_compute. }
  split; [exact H|]. refine (proj1 (power_protections_complete w_cluster true wp_r0 wp_protected _ H)).
  intros id i H0. change (({[ w_owner := wp_member ]} : gmap ResourceID DatabaseInstance) !! id = Some i) in H0.
  by apply lookup_singleton_Some in H0 as [<- <-].
Defined.

Lemma IsClusterPowerProtected_latest_witness :
  IsClusterPowerProtected w_cluster wp_verifying = (true, PowerVerifying) ∧
  ∃ op, pow_State op = PowerVerifying ∧
    is_latest w_cluster (map_to_list (sn_PowerOperations (repo_snapshot wp_verifying))).*2 op.
Proof.
  assert (IsClusterPowerProtected w_cluster wp_verifying = (true, PowerVerifying)) as H by by vm_compute.
  split; [exact H|].
  assert (∀ id op, sn_PowerOperations (repo_snapshot wp_verifying) !! id = Some op → pow_ResourceID op = id) as Hid.
  { apply (power_steps_ok wp_r0); [by apply empty_power_ok|eapply rtc_l; [exact wp_step0|exact wp_run]]. }
  destruct (proj2 (IsClusterPowerProtected_latest w_cluster wp_verifying _ Hid (reflexivity _)) PowerVerifying)
    as [Hl _].
  destruct (Hl H) as (op & H1 & H2 & _). exists op. exact (conj H2 H1).
Defined.
