(* ===== verification/AgentProtocol.v ===== *)
(** * internal/agent: the messages of an agent

    [src/internal/agent/reconcile_protocol.go], signed decisions for an agent,
    and the commands of [src/internal/agent/protocol.go].

    An agent asks the controllers whether it may keep the writer endpoint; both
    messages carry an HMAC over their other fields.  [mac] stands for
    HMAC-SHA256 over the JSON of the unsigned message: [reconcileMAC] adds what
    the code does around it.  Times are instants, so [UTC()] changes nothing. *)
From S2P Require Import Prelude GoStd Model.

Inductive ReconcileAction : Type :=
| ReconcileKeepVIP
| ReconcileTransitionTarget
| ReconcileTransitionSource
| ReconcileBootstrapPrimary
| ReconcileSelfIsolate
| ReconcileRecoveryPrimary
| ReconcileRecoveryActivate
| ReconcileRecoveryReplica
| ReconcileRecoveryPrepare
| ReconcileActionOther (raw : string).
#[export] Instance ReconcileAction_eq_dec : EqDecision ReconcileAction.
Proof. solve_decision. Defined.

Record ReconcileRequest : Type := mkReconcileRequest {
  rq_ClusterID : ResourceID; rq_InstanceID : ResourceID; rq_RequestedAt : Time;
  rq_Nonce : string; rq_Signature : string
}.
#[export] Instance eta_ReconcileRequest : Settable ReconcileRequest := λ r,
  mkReconcileRequest (rq_ClusterID r) (rq_InstanceID r) (rq_RequestedAt r) (rq_Nonce r) (rq_Signature r).

Record ReconcileResponse : Type := mkReconcileResponse {
  rr_RecoveryTaskID : ResourceID; rr_ClusterID : ResourceID; rr_InstanceID : ResourceID;
  rr_Action : ReconcileAction; rr_Reason : string; rr_LeaseID : ResourceID;
  rr_ValidUntil : Time; rr_ControllerID : ResourceID; rr_Signature : string
}.
#[export] Instance eta_ReconcileResponse : Settable ReconcileResponse := λ r,
  mkReconcileResponse (rr_RecoveryTaskID r) (rr_ClusterID r) (rr_InstanceID r) (rr_Action r)
    (rr_Reason r) (rr_LeaseID r) (rr_ValidUntil r) (rr_ControllerID r) (rr_Signature r).

(** What the MAC covers. *)
Record unsignedReconcileRequest : Type := mkUnsignedRequest {
  urq_ClusterID : ResourceID; urq_InstanceID : ResourceID; urq_RequestedAt : Time; urq_Nonce : string
}.
Record unsignedReconcileResponse : Type := mkUnsignedResponse {
  urr_RecoveryTaskID : ResourceID; urr_ClusterID : ResourceID; urr_InstanceID : ResourceID;
  urr_Action : ReconcileAction; urr_Reason : string; urr_LeaseID : ResourceID;
  urr_ValidUntil : Time; urr_ControllerID : ResourceID
}.
Definition unsigned_request (r : ReconcileRequest) : unsignedReconcileRequest :=
  mkUnsignedRequest (rq_ClusterID r) (rq_InstanceID r) (rq_RequestedAt r) (rq_Nonce r).
Definition unsigned_response (r : ReconcileResponse) : unsignedReconcileResponse :=
  mkUnsignedResponse (rr_RecoveryTaskID r) (rr_ClusterID r) (rr_InstanceID r) (rr_Action r)
    (TrimSpace (rr_Reason r)) (rr_LeaseID r) (rr_ValidUntil r) (rr_ControllerID r).

Inductive reconcile_error : Type :=
| ErrReconcileSecret | ErrReconcileScope | ErrReconcileWindow | ErrReconcileSignature
| ErrRecoveryAuthorization | ErrUnexpectedRecovery | ErrReconcileAction | ErrReconcileLease.

(** The actions of a disaster recovery, and those that let the agent keep or
    take the writer endpoint on a stable or transition lease. *)
Definition recovery_action (action : ReconcileAction) : bool :=
  (action == ReconcileRecoveryPrimary) || (action == ReconcileRecoveryActivate) ||
  (action == ReconcileRecoveryReplica) || (action == ReconcileRecoveryPrepare).
Definition ownership_action (action : ReconcileAction) : bool :=
  (action == ReconcileKeepVIP) || (action == ReconcileTransitionTarget) ||
  (action == ReconcileTransitionSource) || (action == ReconcileBootstrapPrimary).

Section protocol.
Context {V : Type} (mac : string → V → string).

Definition reconcileMAC (value : V) (secret : string) : result reconcile_error string :=
  if TrimSpace secret == "" then Err ErrReconcileSecret else Ok (mac secret value).
End protocol.

Section requests.
Variable mac_request : string → unsignedReconcileRequest → string.

(** The signature of the request is the MAC of its other fields. *)
Definition SignReconcileRequest (request : ReconcileRequest) (secret : string)
  : result reconcile_error ReconcileRequest :=
  signature ← reconcileMAC mac_request (unsigned_request request) secret;
  Ok (request <| rq_Signature := signature |>).
Definition VerifyReconcileRequest (request : ReconcileRequest) (secret : string) (now : Time)
  : result reconcile_error unit :=
  _ ← reject (negb (ValidResourceID (rq_ClusterID request)) || negb (ValidResourceID (rq_InstanceID request)) ||
              Nat.ltb (String.length (rq_Nonce request)) 16 || Nat.ltb 128 (String.length (rq_Nonce request)))
       ErrReconcileScope;
  let age := Sub now (rq_RequestedAt request) in
  _ ← reject ((age <? - (30 * Second)) || (30 * Second <? age)) ErrReconcileWindow;
  match reconcileMAC mac_request (unsigned_request request) secret with
  | Err _ => Err ErrReconcileSignature
  | Ok expected => require (expected == TrimSpace (rq_Signature request)) ErrReconcileSignature
  end.

End requests.

Section responses.
Variable mac_response : string → unsignedReconcileResponse → string.

Definition SignReconcileResponse (response : ReconcileResponse) (secret : string)
  : result reconcile_error ReconcileResponse :=
  let response := response <| rr_Reason := TrimSpace (rr_Reason response) |> in
  signature ← reconcileMAC mac_response (unsigned_response response) secret;
  Ok (response <| rr_Signature := signature |>).
Definition VerifyReconcileResponse (response : ReconcileResponse) (request : ReconcileRequest)
    (secret : string) (now : Time) : result reconcile_error unit :=
  _ ← reject ((rr_ClusterID response != rq_ClusterID request) || (rr_InstanceID response != rq_InstanceID request) ||
              negb (ValidResourceID (rr_ControllerID response)) || (TrimSpace (rr_Reason response) == ""))
       ErrReconcileScope;
  let recovery := recovery_action (rr_Action response) in
  _ ← reject (recovery && (negb (ValidResourceID (rr_RecoveryTaskID response)) ||
                           negb (ValidResourceID (rr_LeaseID response)) ||
                           After (rr_ValidUntil response) (Add now (10 * Second)))) ErrRecoveryAuthorization;
  _ ← reject (negb recovery && (rr_RecoveryTaskID response != "")) ErrUnexpectedRecovery;
  _ ← reject (negb recovery && negb (ownership_action (rr_Action response)) &&
              (rr_Action response != ReconcileSelfIsolate)) ErrReconcileAction;
  _ ← reject (ownership_action (rr_Action response) && negb (ValidResourceID (rr_LeaseID response))) ErrReconcileLease;
  _ ← reject (negb (After (rr_ValidUntil response) now) || After (rr_ValidUntil response) (Add now Minute))
       ErrReconcileWindow;
  match reconcileMAC mac_response (unsigned_response response) secret with
  | Err _ => Err ErrReconcileSignature
  | Ok expected => require (expected == TrimSpace (rr_Signature response)) ErrReconcileSignature
  end.

(** ** What an accepted response says *)

Lemma VerifyReconcileResponse_ok response request secret now u :
  VerifyReconcileResponse response request secret now = Ok u ↔
  (rr_ClusterID response = rq_ClusterID request ∧ rr_InstanceID response = rq_InstanceID request ∧
   ValidResourceID (rr_ControllerID response) = true ∧ TrimSpace (rr_Reason response) ≠ "") ∧
  (if recovery_action (rr_Action response)
   then ValidResourceID (rr_RecoveryTaskID response) = true ∧ ValidResourceID (rr_LeaseID response) = true ∧
        rr_ValidUntil response ≤ now + 10 * Second
   else rr_RecoveryTaskID response = "" ∧
        (ownership_action (rr_Action response) = true ∧ ValidResourceID (rr_LeaseID response) = true ∨
         rr_Action response = ReconcileSelfIsolate)) ∧
  now < rr_ValidUntil response ≤ now + Minute ∧ TrimSpace secret ≠ "" ∧
  mac_response secret (unsigned_response response) = TrimSpace (rr_Signature response).
Proof.
  unfold VerifyReconcileResponse, reconcileMAC. rewrite !reject_bind. destruct u.
  destruct (bool_decide_reflect (TrimSpace secret = "")) as [Hs|Hs].
  { split; [by intros (_ & _ & _ & _ & _ & _ & ?)|tauto]. }
  rewrite require_ok, bool_decide_eq_true. unfold After, Add.
  destruct (recovery_action _) eqn:Hr.
  - assert (ownership_action (rr_Action response) = false) as -> by (destruct (rr_Action response); done). cbn.
    rewrite !orb_false_iff, !negb_false_iff, !bool_decide_eq_false, !bool_decide_eq_true, !Z.ltb_ge, Z.ltb_lt. tauto.
  - cbn. rewrite !orb_false_iff, !negb_false_iff, !bool_decide_eq_false, !bool_decide_eq_true, Z.ltb_ge, Z.ltb_lt.
    destruct (ownership_action _) eqn:Ho; cbn; rewrite ?negb_false_iff, ?bool_decide_eq_true, ?bool_decide_eq_false.
    + assert (rr_Action response ≠ ReconcileSelfIsolate) by (intros Hx; rewrite Hx in Ho; done). naive_solver.
    + naive_solver.
Qed.
End responses.

(** ** Commands *)

Definition CommandVIPStatus : string := "vip_status".
Definition CommandVIPAcquire : string := "vip_acquire".
Definition CommandVIPRelease : string := "vip_release".
Definition CommandSelfIsolate : string := "self_isolate".
Definition CommandRoleStatus : string := "role_status".
Definition CommandPostgreSQLStatus : string := "postgresql_status".
Definition StatusOK : string := "ok".
Definition StatusBlocked : string := "blocked".

(** [agent.Request] without the two payload pointers of the power and the WAL
    commands. *)
Record Request : Type := mkRequest {
  cmd_RecoveryTaskID : ResourceID; cmd_RecoveryFingerprint : string; cmd_Command : string; cmd_Engine : Engine;
  cmd_ClusterID : ResourceID; cmd_OperationID : ResourceID; cmd_LeaseID : ResourceID; cmd_PlanDigest : string;
  cmd_ExpiresAt : Time; cmd_VIP : string; cmd_Interface : string; cmd_Prefix : Z; cmd_ReadOnly : bool;
  cmd_SourceInstanceID : ResourceID; cmd_SourceNodeID : ResourceID; cmd_SourceHostname : string;
  cmd_SourceIPAddress : string; cmd_SourcePort : Z; cmd_OracleTarget : string; cmd_Signature : string
}.
#[export] Instance eta_Request : Settable Request := λ r,
  mkRequest (cmd_RecoveryTaskID r) (cmd_RecoveryFingerprint r) (cmd_Command r) (cmd_Engine r) (cmd_ClusterID r)
    (cmd_OperationID r) (cmd_LeaseID r) (cmd_PlanDigest r) (cmd_ExpiresAt r) (cmd_VIP r) (cmd_Interface r)
    (cmd_Prefix r) (cmd_ReadOnly r) (cmd_SourceInstanceID r) (cmd_SourceNodeID r) (cmd_SourceHostname r)
    (cmd_SourceIPAddress r) (cmd_SourcePort r) (cmd_OracleTarget r) (cmd_Signature r).
Definition zero_Request : Request :=
  mkRequest "" "" "" (EngineOther "") "" "" "" "" 0 "" "" 0 false "" "" "" "" 0 "" "".

(** The fields of [agent.Response] about the VIP and the role of a database. *)
Record Response : Type := mkResponse {
  resp_Status : string; resp_Message : string; resp_Error : string; resp_OwnsVIP : option bool;
  resp_ReadOnly : option bool; resp_SuperReadOnly : option bool; resp_ServiceRunning : option bool;
  resp_DatabaseReachable : option bool; resp_RestartReadOnly : option bool; resp_PersistedReadOnly : option bool
}.
#[export] Instance Response_eq_dec : EqDecision Response.
Proof. solve_decision. Defined.
Definition zero_Response : Response := mkResponse "" "" "" None None None None None None None.

(** The signature covers every other field. *)
Definition canonicalRequest (request : Request) : Request := request <| cmd_Signature := "" |>.
Definition SignRequest (mac : string → Request → string) (request : Request) (secret : string) : string :=
  mac secret (canonicalRequest request).
