(* ===== verification/FailureWindow.v ===== *)
(** * internal/coordination: failure evidence and controller authority

    [src/internal/coordination/failure_window.go], [membership.go] and
    [agent_authorization.go]: the window of consecutive failures automatic
    failover waits for, the majority a controller needs before it may mutate, and
    the record of the authorizations already given to agents.

    Every method runs under the object's mutex, so it is one step; [Record] is
    the only writer of a window. *)
From S2P Require Import Prelude GoStd Model AgentProtocol.

(** ** The failure window *)

Record failureSeries : Type := mkSeries {
  fs_startedAt : Time; fs_lastObserved : Time; fs_checks : list Time
}.
Record FailureWindow : Type := mkWindow {
  fw_requiredChecks : Z; fw_requiredDuration : Duration; fw_maximumGap : Duration;
  fw_series : gmap ResourceID failureSeries
}.
#[export] Instance eta_FailureWindow : Settable FailureWindow := λ w,
  mkWindow (fw_requiredChecks w) (fw_requiredDuration w) (fw_maximumGap w) (fw_series w).

Definition WithMaximumObservationGap (maximumGap : Duration) (window : FailureWindow) : FailureWindow :=
  if 0 <? maximumGap then window <| fw_maximumGap := maximumGap |> else window.

(** A [nil] option is [None]. *)
Definition NewFailureWindow (requiredChecks : Z) (requiredDuration : Duration)
    (options : list (option (FailureWindow → FailureWindow))) : FailureWindow :=
  let requiredChecks := if requiredChecks <=? 0 then 6 else requiredChecks in
  let requiredDuration := if requiredDuration <=? 0 then 30 * Second else requiredDuration in
  let maximumGap := Z.quot (i64 (2 * requiredDuration)) requiredChecks in
  foldl (λ window option, match option with Some f => f window | None => window end)
    (mkWindow requiredChecks requiredDuration maximumGap ∅) options.

(** The last [n] elements. *)
Definition last_n {A} (n : Z) (l : list A) : list A := drop (length l - Z.to_nat n) l.

Definition Record_ (clusterID : ResourceID) (failed : bool) (observedAt : Time) (window : FailureWindow)
  : FailureWindow :=
  if negb (ValidResourceID clusterID) || IsZero observedAt then window
  else if negb failed then window <| fw_series ::= delete clusterID |>
  else
    let started := mkSeries observedAt observedAt [] in
    match fw_series window !! clusterID with
    | None => window <| fw_series ::= <[clusterID := started]> |>
    | Some series =>
        if Before observedAt (fs_startedAt series) ||
           (negb (IsZero (fs_lastObserved series)) &&
            (fw_maximumGap window <? Sub observedAt (fs_lastObserved series)))
        then window <| fw_series ::= <[clusterID := started]> |>
        else if negb (After observedAt (fs_lastObserved series)) then window
        else
          let checks := fs_checks series ++ [observedAt] in
          let checks := if fw_requiredChecks window <? Z.of_nat (length checks)
                        then last_n (fw_requiredChecks window) checks else checks in
          window <| fw_series ::= <[clusterID := mkSeries (fs_startedAt series) observedAt checks]> |>
    end.

Definition stableSeries (window : FailureWindow) (series : failureSeries) (now : Time) : bool :=
  if (Z.of_nat (length (fs_checks series)) <? fw_requiredChecks window) || IsZero now then false
  else (fw_requiredDuration window <=? Sub now (fs_startedAt series)) &&
       negb (Before now (fs_lastObserved series)) &&
       (Sub now (fs_lastObserved series) <=? fw_maximumGap window).

Definition Stable (clusterID : ResourceID) (now : Time) (window : FailureWindow) : bool :=
  match fw_series window !! clusterID with
  | Some series => stableSeries window series now
  | None => false
  end.
Definition Incident (clusterID : ResourceID) (now : Time) (window : FailureWindow) : Time * bool :=
  match fw_series window !! clusterID with
  | Some series => if negb (stableSeries window series now) then (zero_time, false)
                   else (fs_startedAt series, true)
  | None => (zero_time, false)
  end.
Definition StableIncident (clusterID : ResourceID) (startedAt : Time) (window : FailureWindow) : bool :=
  if IsZero startedAt then false
  else match fw_series window !! clusterID with
  | Some series =>
      Equal (fs_startedAt series) startedAt &&
      (fw_requiredChecks window <=? Z.of_nat (length (fs_checks series))) &&
      (fw_requiredDuration window <=? Sub (fs_lastObserved series) (fs_startedAt series))
  | None => false
  end.

(** One observation of a cluster's primary. *)
Record observation : Type := mkObservation {
  obs_cluster : ResourceID; obs_failed : bool; obs_at : Time
}.
Definition record_all (log : list observation) (window : FailureWindow) : FailureWindow :=
  foldl (λ w o, Record_ (obs_cluster o) (obs_failed o) (obs_at o) w) window log.

(** ** Controller membership *)

Inductive authority_error : Type := ErrCanceled | ErrNotLeader | ErrNoQuorum | ErrMembership.

Record Controller : Type := mkController { ctl_ResourceID : ResourceID; ctl_Healthy : bool }.
Record Membership : Type := mkMembership {
  mem_localID : ResourceID; mem_leaderID : ResourceID; mem_controllers : gmap ResourceID Controller
}.
#[export] Instance eta_Membership : Settable Membership := λ m,
  mkMembership (mem_localID m) (mem_leaderID m) (mem_controllers m).

Definition add_controller (m : gmap ResourceID Controller) (controller : Controller)
  : result authority_error (gmap ResourceID Controller) :=
  _ ← require (ValidResourceID (ctl_ResourceID controller)) ErrMembership;
  _ ← reject (bool_decide (is_Some (m !! ctl_ResourceID controller))) ErrMembership;
  Ok (<[ctl_ResourceID controller := controller]> m).

Definition NewMembership (localID leaderID : ResourceID) (controllers : list Controller)
  : result authority_error Membership :=
  _ ← reject (negb (ValidResourceID localID) || negb (ValidResourceID leaderID) ||
              Nat.ltb (length controllers) 3 || Nat.eqb (length controllers mod 2) 0) ErrMembership;
  m ← for_each add_controller ∅ controllers;
  _ ← require (bool_decide (is_Some (m !! localID))) ErrMembership;
  _ ← require (bool_decide (is_Some (m !! leaderID))) ErrMembership;
  Ok (mkMembership localID leaderID m).

Definition healthy_controllers (m : Membership) : gset ResourceID :=
  dom (filter (λ e, ctl_Healthy e.2 = true) (mem_controllers m)).
Definition Majority (m : Membership) : nat := (size (mem_controllers m) / 2 + 1)%nat.

Definition RequireMutationAuthority (ctx_done : bool) (m : Membership) : result authority_error unit :=
  _ ← reject ctx_done ErrCanceled;
  _ ← require (mem_localID m == mem_leaderID m) ErrNotLeader;
  reject (Nat.ltb (size (healthy_controllers m)) (size (mem_controllers m) / 2 + 1)) ErrNoQuorum.

Definition SetHealth (controllerID : ResourceID) (healthy : bool) (m : Membership)
  : Membership * result authority_error unit :=
  match mem_controllers m !! controllerID with
  | None => (m, Err ErrMembership)
  | Some controller =>
      (m <| mem_controllers ::= <[controllerID := mkController (ctl_ResourceID controller) healthy]> |>, Ok tt)
  end.

(** ** Agent authorizations *)

Record agentAuthorizationRecord : Type := mkAuthorization {
  auth_leadershipEpoch : uint64; auth_validUntil : Time
}.
(** [None] is the nil tracker. *)
Definition AgentAuthorizationTracker : Type := option (gmap (ResourceID * ResourceID) agentAuthorizationRecord).

Definition positiveAgentAuthorization (action : ReconcileAction) : bool :=
  match action with ReconcileSelfIsolate | ReconcileActionOther _ => false | _ => true end.

Definition RecordAuthorization (response : ReconcileResponse) (leadershipEpoch : uint64)
    (tracker : AgentAuthorizationTracker) : AgentAuthorizationTracker :=
  match tracker with
  | None => None
  | Some records =>
      if (leadershipEpoch =? 0) || negb (ValidResourceID (rr_ClusterID response)) ||
         negb (ValidResourceID (rr_InstanceID response)) || negb (ValidResourceID (rr_LeaseID response)) ||
         negb (positiveAgentAuthorization (rr_Action response)) || IsZero (rr_ValidUntil response)
      then Some records
      else
        let key := (rr_ClusterID response, rr_InstanceID response) in
        let record := mkAuthorization leadershipEpoch (rr_ValidUntil response) in
        match records !! key with
        | Some current =>
            if leadershipEpoch <? auth_leadershipEpoch current then Some records
            else if (auth_leadershipEpoch current =? leadershipEpoch) &&
                    negb (After (auth_validUntil record) (auth_validUntil current))
            then Some records
            else Some (<[key := record]> records)
        | None => Some (<[key := record]> records)
        end
  end.

Definition AuthorizationUntil (clusterID instanceID : ResourceID) (leadershipEpoch : uint64)
    (tracker : AgentAuthorizationTracker) : Time * bool :=
  match tracker with
  | None => (zero_time, false)
  | Some records =>
      if (leadershipEpoch =? 0) || negb (ValidResourceID clusterID) || negb (ValidResourceID instanceID)
      then (zero_time, false)
      else match records !! (clusterID, instanceID) with
      | Some record =>
          if (auth_leadershipEpoch record != leadershipEpoch) || IsZero (auth_validUntil record)
          then (zero_time, false) else (auth_validUntil record, true)
      | None => (zero_time, false)
      end
  end.

(** ** The window against an unbounded history *)

(** What a cluster's window stands for: every accepted failure time since the
    series started, with nothing forgotten. *)
Definition chain_step (gap : Duration) (chain : option (list Time)) (failed : bool) (t : Time)
  : option (list Time) :=
  if negb failed then None
  else match chain with
  | None => Some [t]
  | Some c =>
      if (t <? hd 0 c) || (gap <? Sub t (List.last c 0)) then Some [t]
      else if t <=? List.last c 0 then Some c
      else Some (c ++ [t])
  end.
Definition chain_of (gap : Duration) (clusterID : ResourceID) (log : list observation) : option (list Time) :=
  foldl (λ chain o,
    if (obs_cluster o == clusterID) && ValidResourceID clusterID && negb (IsZero (obs_at o))
    then chain_step gap chain (obs_failed o) (obs_at o) else chain) None log.

(** The abstract verdict: enough failures, over long enough, the last one fresh. *)
Definition chain_stable (checks : Z) (duration gap : Duration) (now : Time) (chain : option (list Time)) : bool :=
  match chain with
  | Some c => (checks <? Z.of_nat (length c)) && negb (IsZero now) &&
              (duration <=? Sub now (hd 0 c)) && (List.last c 0 <=? now) && (Sub now (List.last c 0) <=? gap)
  | None => false
  end.

Definition series_rep (n : Z) (series : option failureSeries) (chain : option (list Time)) : Prop :=
  match series, chain with
  | None, None => True
  | Some s, Some c => ∃ rest, c = fs_startedAt s :: rest ∧ fs_lastObserved s = List.last c 0 ∧
      fs_lastObserved s ≠ 0 ∧ fs_checks s = last_n n rest
  | _, _ => False
  end.

Lemma last_n_length {A} n (l : list A) : 0 ≤ n → Z.of_nat (length (last_n n l)) = Z.min n (Z.of_nat (length l)).
Proof. intros. unfold last_n. rewrite length_drop. lia. Qed.
Lemma last_n_snoc {A} n (l : list A) a : 0 < n → last_n n (last_n n l ++ [a]) = last_n n (l ++ [a]).
Proof.
  intros Hn. unfold last_n. rewrite !length_app, length_drop. cbn [length].
  set (k := Z.to_nat n). assert (0 < k)%nat by lia.
  destruct (le_lt_dec (length l) k) as [Hle|Hlt].
  - replace (length l - k)%nat with 0%nat by lia. rewrite drop_0. f_equal. lia.
  - rewrite (drop_app_le l) by lia.
    replace (length l - (length l - k) + 1 - k)%nat with 1%nat by lia.
    rewrite drop_app_le by (rewrite length_drop; lia). rewrite drop_drop. f_equal. f_equal. lia.
Qed.
Lemma last_n_all {A} n (l : list A) : Z.of_nat (length l) ≤ n → last_n n l = l.
Proof. intros. unfold last_n. replace (length l - Z.to_nat n)%nat with 0%nat by lia. apply drop_0. Qed.

Lemma Record_params id failed t w : let w' := Record_ id failed t w in
  fw_requiredChecks w' = fw_requiredChecks w ∧ fw_requiredDuration w' = fw_requiredDuration w ∧
  fw_maximumGap w' = fw_maximumGap w.
Proof.
  unfold Record_. destruct (_ || _); [done|]. destruct (negb failed); [done|].
  destruct (_ !! _); [|done]. destruct (_ || _); [done|]. by destruct (negb _).
Qed.

Lemma Record_rep id failed t w c chain :
  0 < fw_requiredChecks w → series_rep (fw_requiredChecks w) (fw_series w !! c) chain →
  series_rep (fw_requiredChecks w) (fw_series (Record_ id failed t w) !! c)
    (if (id == c) && ValidResourceID c && negb (IsZero t)
     then chain_step (fw_maximumGap w) chain failed t else chain).
Proof.
  intros Hn Hrep. unfold Record_, IsZero, zero_time.
  destruct (bool_decide_reflect (id = c)) as [->|Hne]; cbn [andb].
  2: { destruct (_ || _); [done|]. destruct (negb failed); cbn; [by rewrite lookup_delete_ne|].
       destruct (fw_series w !! id) as [s|]; [|cbn; by rewrite lookup_insert_ne].
       destruct (_ || _); [cbn; by rewrite lookup_insert_ne|]. destruct (negb _); [done|].
       cbn. by rewrite lookup_insert_ne. }
  destruct (ValidResourceID c); cbn [negb orb andb]; [|done].
  destruct (Z.eqb_spec t 0) as [->|Ht]; cbn [negb]; [done|].
  unfold chain_step. destruct (negb failed); [cbn; by rewrite lookup_delete_eq|].
  unfold series_rep in Hrep |- *.
  destruct (fw_series w !! c) as [s|] eqn:Hs, chain as [ch|]; try done.
  2: { cbn. rewrite lookup_insert_eq. exists []. by split_and!. }
  destruct Hrep as (rest & Hc & Hl & Hz & Hk). unfold Before, After.
  destruct (Z.eqb_spec (fs_lastObserved s) 0); [done|]. cbn [negb andb].
  rewrite <- Hl. assert (hd 0 ch = fs_startedAt s) as -> by by rewrite Hc.
  destruct ((_ <? _) || _) eqn:Hreset; [cbn; rewrite lookup_insert_eq; exists []; by split_and!|].
  assert ((t <=? fs_lastObserved s) = negb (fs_lastObserved s <? t)) as -> by lia.
  destruct (fs_lastObserved s <? t) eqn:Hafter; cbn [negb]; [|rewrite Hs; by exists rest].
  cbn. rewrite lookup_insert_eq. exists (rest ++ [t]). cbn. split_and!; try done.
  - by rewrite Hc.
  - by rewrite last_last.
  - rewrite Hk. destruct (Z.ltb_spec (fw_requiredChecks w) (Z.of_nat (length (last_n (fw_requiredChecks w) rest ++ [t])))) as [Hlt|Hge].
    + by apply last_n_snoc.
    + rewrite <- (last_n_snoc _ rest) by done. by rewrite (last_n_all _ (_ ++ _)).
Qed.

Lemma record_all_params log w : let w' := record_all log w in
  fw_requiredChecks w' = fw_requiredChecks w ∧ fw_requiredDuration w' = fw_requiredDuration w ∧
  fw_maximumGap w' = fw_maximumGap w.
Proof.
  cbn. revert w. induction log as [|o log IH]; intros w; [done|].
  change (record_all (o :: log) w) with (record_all log (Record_ (obs_cluster o) (obs_failed o) (obs_at o) w)).
  destruct (IH (Record_ (obs_cluster o) (obs_failed o) (obs_at o) w)) as (-> & -> & ->). apply Record_params.
Qed.
Lemma record_all_rep log w c :
  0 < fw_requiredChecks w → fw_series w = ∅ →
  series_rep (fw_requiredChecks w) (fw_series (record_all log w) !! c) (chain_of (fw_maximumGap w) c log).
Proof.
  intros Hn He. induction log as [|o log IH] using rev_ind; [unfold record_all; cbn; by rewrite He, lookup_empty|].
  assert (record_all (log ++ [o]) w = Record_ (obs_cluster o) (obs_failed o) (obs_at o) (record_all log w)) as ->
    by (unfold record_all; by rewrite foldl_app).
  unfold chain_of in *. rewrite foldl_app. cbn [foldl].
  match type of IH with series_rep _ _ ?ch => set (chain := ch) in * end. clearbody chain.
  destruct (record_all_params log w) as (H1 & _ & H3). rewrite <- H1 in IH |- *. rewrite <- H3.
  apply Record_rep; [lia|done].
Qed.

Lemma stable_chain w log clusterID now :
  0 < fw_requiredChecks w → fw_series w = ∅ →
  Stable clusterID now (record_all log w) =
    chain_stable (fw_requiredChecks w) (fw_requiredDuration w) (fw_maximumGap w) now
      (chain_of (fw_maximumGap w) clusterID log).
Proof.
  intros Hn He. pose proof (record_all_rep log w clusterID Hn He) as Hrep.
  destruct (record_all_params log w) as (H1 & H2 & H3). unfold Stable.
  destruct (fw_series (record_all log w) !! clusterID) as [s|]; [|by destruct (chain_of _ _ _)].
  destruct (chain_of _ _ _) as [c|]; [|done]. destruct Hrep as (rest & Hc & Hl & _ & Hk).
  unfold stableSeries, chain_stable, Before. rewrite H1, H2, H3, <- Hl, Hk, last_n_length by lia. rewrite Hc. cbn [hd length].
  destruct (IsZero now); [by rewrite orb_true_r, andb_false_r|]. rewrite orb_false_r, andb_true_r.
  destruct (Z.ltb_spec (Z.min (fw_requiredChecks w) (Z.of_nat (length rest))) (fw_requiredChecks w)) as [Hlt|Hge].
  - by assert ((fw_requiredChecks w <? Z.of_nat (S (length rest))) = false) as -> by (apply Z.ltb_ge; lia).
  - assert ((fw_requiredChecks w <? Z.of_nat (S (length rest))) = true) as -> by (apply Z.ltb_lt; lia). cbn [andb].
    by rewrite Z.ltb_antisym, negb_involutive.
Qed.

(** Consecutive failures: increasing times, no gap longer than allowed. *)
Fixpoint consecutive (gap : Duration) (ts : list Time) : Prop :=
  match ts with
  | a :: (b :: _) as rest => a < b ∧ Sub b a ≤ gap ∧ consecutive gap rest
  | _ => True
  end.

Lemma consecutive_snoc gap ts t :
  ts ≠ [] → consecutive gap (ts ++ [t]) ↔ consecutive gap ts ∧ List.last ts 0 < t ∧ Sub t (List.last ts 0) ≤ gap.
Proof.
  induction ts as [|a [|b ts] IH]; [done|cbn; tauto|]. intros _.
  change (List.last (a :: b :: ts) 0) with (List.last (b :: ts) 0).
  cbn [app consecutive]. cbn [app consecutive] in IH. rewrite IH by done. tauto.
Qed.
Lemma consecutive_head gap a ts : consecutive gap (a :: ts) → a ≤ List.last (a :: ts) 0.
Proof.
  revert a. induction ts as [|b ts IH]; intros a; [cbn; lia|]. cbn [consecutive]. intros (Hab & _ & H).
  apply IH in H. change (List.last (a :: b :: ts) 0) with (List.last (b :: ts) 0). lia.
Qed.

(** The observations that count for a cluster. *)
Definition relevant (clusterID : ResourceID) (o : observation) : bool :=
  (obs_cluster o == clusterID) && ValidResourceID clusterID && negb (IsZero (obs_at o)).
Definition chain_from (gap : Duration) (clusterID : ResourceID) (chain : option (list Time)) (log : list observation) :=
  foldl (λ chain o, if relevant clusterID o then chain_step gap chain (obs_failed o) (obs_at o) else chain) chain log.

Lemma chain_of_spec gap clusterID log ch :
  chain_of gap clusterID log = Some ch →
  ch ≠ [] ∧ consecutive gap ch ∧
  ∃ pre run, log = pre ++ run ∧ (∀ o, o ∈ run → relevant clusterID o = true → obs_failed o = true) ∧
    ∀ t, t ∈ ch → ∃ o, o ∈ run ∧ relevant clusterID o = true ∧ obs_at o = t.
Proof.
  change (chain_of gap clusterID log) with (chain_from gap clusterID None log). unfold chain_from.
  revert ch. induction log as [|o log IH] using rev_ind; intros ch; [done|]. rewrite foldl_app. cbn [foldl].
  assert (relevant clusterID o = true → obs_failed o = true → [obs_at o] ≠ [] ∧ consecutive gap [obs_at o] ∧
    ∃ pre run, log ++ [o] = pre ++ run ∧ (∀ o, o ∈ run → relevant clusterID o = true → obs_failed o = true) ∧
      ∀ t, t ∈ [obs_at o] → ∃ o, o ∈ run ∧ relevant clusterID o = true ∧ obs_at o = t) as Hnew.
  { intros Hr Hf. split_and!; [done|done|]. exists log, [o]. split_and!; [done| |].
    - by intros o' ->%list_elem_of_singleton.
    - intros t ->%list_elem_of_singleton. exists o. split_and!; [set_solver|done..]. }
  destruct (relevant clusterID o) eqn:Hr.
  - unfold chain_step at 1. destruct (obs_failed o) eqn:Hf; cbn [negb]; [|done].
    destruct (foldl _ None log) as [c|]; [|intros [= <-]; by apply Hnew].
    destruct (IH c eq_refl) as (Hne & Hc & pre & run & -> & Hrun & Hin).
    destruct ((_ <? _) || _) eqn:Hreset; [intros [= <-]; by apply Hnew|].
    assert (∀ o', o' ∈ run ++ [o] → relevant clusterID o' = true → obs_failed o' = true) as Hrun'
      by (intros o' [Ho'| ->%list_elem_of_singleton]%elem_of_app; [by apply Hrun|done]).
    destruct (_ <=? _) eqn:Hold; intros [= <-]; repeat bsimpl_step.
    + split_and!; [done..|]. exists pre, (run ++ [o]). rewrite app_assoc. split_and!; [done..|].
      intros t (o' & ? & ?)%Hin. exists o'. split; [set_solver|done].
    + split_and!; [by destruct c|by apply consecutive_snoc|].
      exists pre, (run ++ [o]). rewrite app_assoc. split_and!; [done..|].
      intros t [(o' & ? & ?)%Hin| ->%list_elem_of_singleton]%elem_of_app; [exists o'|exists o]; (split; [set_solver|done]).
  - intros (Hne & Hc & pre & run & -> & Hrun & Hin)%IH. split_and!; [done..|].
    exists pre, (run ++ [o]). rewrite app_assoc. split_and!; [done| |].
    + intros o' [Ho'| ->%list_elem_of_singleton]%elem_of_app ?; [by apply Hrun|congruence].
    + intros t (o' & ? & ?)%Hin. exists o'. split; [set_solver|done].
Qed.

Lemma chain_from_run gap clusterID run c ts :
  (∀ o, o ∈ run → relevant clusterID o = true → obs_failed o = true) →
  obs_at <$> filter (λ o, relevant clusterID o = true) run = ts → c ≠ [] → consecutive gap (c ++ ts) →
  chain_from gap clusterID (Some c) run = Some (c ++ ts).
Proof.
  unfold chain_from. revert c ts. induction run as [|o run IH]; intros c ts Hrun <- Hc Hcon; [by cbn; rewrite app_nil_r|].
  rewrite filter_cons in Hcon |- *. cbn [foldl].
  destruct (relevant clusterID o) eqn:Hr; cbn [decide] in *.
  2: { apply IH; [set_solver|done..]. }
  rewrite decide_True in Hcon |- * by done. cbn [fmap list_fmap] in Hcon |- *.
  replace (c ++ obs_at o :: (obs_at <$> filter (λ o, relevant clusterID o = true) run)) with
    ((c ++ [obs_at o]) ++ (obs_at <$> filter (λ o, relevant clusterID o = true) run)) in Hcon |- * by by rewrite <- app_assoc.
  assert (consecutive gap (c ++ [obs_at o])) as H1.
  { clear -Hcon. revert Hcon. generalize (obs_at <$> filter (λ o, relevant clusterID o = true) run). intros ts.
    generalize (c ++ [obs_at o]). intros l. induction l as [|a [|b l] IH]; cbn; tauto. }
  pose proof H1 as (Hc' & Hlt & Hgap)%consecutive_snoc; [|done].
  unfold chain_step at 2. rewrite (Hrun o) by (set_solver || done). cbn [negb].
  destruct c as [|a c]; [done|]. cbn [hd]. pose proof (consecutive_head _ _ _ Hc') as Hhd.
  assert ((obs_at o <? a) = false) as -> by (apply Z.ltb_ge; lia).
  assert ((gap <? Sub (obs_at o) (List.last (a :: c) 0)) = false) as -> by (apply Z.ltb_ge; lia).
  assert ((obs_at o <=? List.last (a :: c) 0) = false) as -> by (apply Z.leb_gt; lia). cbn [orb].
  apply IH; [set_solver|done|by destruct c|done].
Qed.

(** ** Properties *)

(** C36: The bounded window is exact: however long the log of observations, the
    verdict from the few timestamps the window keeps is the one computed from
    the whole history: more than the required number of failures since the
    series started (by a first failure, a gap or a restart), over at least the
    required time, the last one fresh; and an incident is reported exactly then. *)
Theorem FailureWindow_refines w log clusterID now :
  0 < fw_requiredChecks w → fw_series w = ∅ →
  Stable clusterID now (record_all log w) =
    chain_stable (fw_requiredChecks w) (fw_requiredDuration w) (fw_maximumGap w) now
      (chain_of (fw_maximumGap w) clusterID log) ∧
  (Incident clusterID now (record_all log w)).2 = Stable clusterID now (record_all log w).
Proof.
  intros Hn He. split; [by apply stable_chain|]. unfold Stable, Incident.
  destruct (_ !! _); [|done]. by destruct (stableSeries _ _ _).
Qed.

(** Failover needs real evidence: when a cluster's failure series is stable,
    the log ends with a stretch without a single recovery of that cluster which
    contains more than the required number of failures, at increasing times with
    no gap longer than the maximum, spanning at least the required time, the last
    one not in the future and not older than the maximum gap. *)
Theorem failure_window_sound w log clusterID now :
  0 < fw_requiredChecks w → fw_series w = ∅ →
  Stable clusterID now (record_all log w) = true →
  ∃ pre run ts, log = pre ++ run ∧
    (∀ o, o ∈ run → relevant clusterID o = true → obs_failed o = true) ∧
    (∀ t, t ∈ ts → ∃ o, o ∈ run ∧ relevant clusterID o = true ∧ obs_at o = t) ∧
    consecutive (fw_maximumGap w) ts ∧ fw_requiredChecks w < Z.of_nat (length ts) ∧
    fw_requiredDuration w ≤ Sub now (hd 0 ts) ∧ List.last ts 0 ≤ now ∧
    Sub now (List.last ts 0) ≤ fw_maximumGap w.
Proof.
  intros Hn He Hs. pose proof (record_all_rep log w clusterID Hn He) as Hrep.
  destruct (record_all_params log w) as (H1 & H2 & H3). unfold Stable in Hs.
  destruct (fw_series (record_all log w) !! clusterID) as [s|]; [|done].
  destruct (chain_of _ _ _) as [ts|] eqn:Hch; [|done].
  apply chain_of_spec in Hch as (_ & Hcon & pre & run & Hlog & Hrun & Hin).
  destruct Hrep as (rest & Hc & Hl & _ & Hk). exists pre, run, ts.
  unfold stableSeries, Before in Hs. rewrite H1, H2, H3, Hk, last_n_length, Hl in Hs by lia.
  destruct (_ || _) eqn:Hor in Hs; [done|]. repeat bsimpl_step.
  split_and!; try done; rewrite Hc; cbn [length hd]; try lia; by rewrite <- Hc.
Qed.

(** A real outage is detected: after a recovery of the cluster (or from the
    start), more than the required number of failures at increasing times
    with no gap longer than the maximum and spanning the required time make the
    series stable while the last one is fresh, whatever is reported about other
    clusters meanwhile; and one recovery clears it at once. *)
Theorem failure_window_detects w before run clusterID ts recovered now :
  0 < fw_requiredChecks w → fw_series w = ∅ → now ≠ 0 →
  relevant clusterID recovered = true → obs_failed recovered = false →
  (∀ o, o ∈ run → relevant clusterID o = true → obs_failed o = true) →
  obs_at <$> filter (λ o, relevant clusterID o = true) run = ts →
  consecutive (fw_maximumGap w) ts → fw_requiredChecks w < Z.of_nat (length ts) →
  fw_requiredDuration w ≤ Sub now (hd 0 ts) → List.last ts 0 ≤ now →
  Sub now (List.last ts 0) ≤ fw_maximumGap w →
  Stable clusterID now (record_all (before ++ recovered :: run) w) = true ∧
  Stable clusterID now (record_all (before ++ recovered :: run ++ [recovered]) w) = false.
Proof.
  intros Hn He Hnow Hrel Hok Hrun Hts Hcon Hlen Hdur Hlast Hfresh.
  assert (chain_of (fw_maximumGap w) clusterID (before ++ recovered :: run) = Some ts) as Hch.
  { change (chain_from (fw_maximumGap w) clusterID None (before ++ recovered :: run) = Some ts).
    unfold chain_from. rewrite foldl_app. cbn [foldl]. rewrite Hrel. unfold chain_step at 2. rewrite Hok. cbn [negb].
    revert Hts Hcon Hrun. destruct ts as [|t ts]; [cbn in Hlen; lia|]. clear -He.
    induction run as [|o run IH]; [done|]. rewrite filter_cons. cbn [foldl].
    destruct (relevant clusterID o) eqn:Hr; cbn [decide].
    - rewrite decide_True by done. cbn [fmap list_fmap]. intros [= <- Hts] Hcon Hrun. unfold chain_step at 2.
      rewrite (Hrun o) by (set_solver || done). cbn [negb].
      apply (chain_from_run (fw_maximumGap w) clusterID run [obs_at o] ts); [set_solver|done..].
    - rewrite decide_False by done. intros Hts Hcon Hrun. apply IH; [done..|set_solver]. }
  assert (∀ log, Stable clusterID now (record_all log w) =
    chain_stable (fw_requiredChecks w) (fw_requiredDuration w) (fw_maximumGap w) now
      (chain_of (fw_maximumGap w) clusterID log)) as Hst by (intros log; by apply stable_chain).
  rewrite !Hst, Hch. split.
  - unfold chain_stable, IsZero, zero_time. destruct (Z.eqb_spec now 0); [done|].
    bsplit; done.
  - replace (before ++ recovered :: run ++ [recovered]) with ((before ++ recovered :: run) ++ [recovered])
      by by rewrite <- app_assoc.
    unfold chain_of. rewrite foldl_app. cbn [foldl]. unfold relevant in Hrel. rewrite Hrel. unfold chain_step.
    by rewrite Hok.
Qed.

Lemma majority_intersect (A B U : gset ResourceID) :
  A ⊆ U → B ⊆ U → (size U / 2 + 1 ≤ size A)%nat → (size U / 2 + 1 ≤ size B)%nat → ∃ x, x ∈ A ∧ x ∈ B.
Proof.
  intros HA HB Ha Hb. destruct (decide (A ∩ B = ∅)) as [He|Hne].
  2: { apply set_choose_L in Hne as [x Hx]. exists x. set_solver. }
  assert (size (A ∪ B) = size A + size B)%nat as Hs by (apply size_union; set_solver).
  assert (size (A ∪ B) ≤ size U)%nat by (apply subseteq_size; set_solver).
  pose proof (Nat.div_mod_eq (size U) 2). pose proof (Nat.mod_upper_bound (size U) 2). lia.
Qed.
Lemma healthy_subset m : healthy_controllers m ⊆ dom (mem_controllers m).
Proof. unfold healthy_controllers. apply dom_filter_subseteq. Qed.
Lemma authority_ok m : RequireMutationAuthority false m = Ok tt →
  mem_localID m = mem_leaderID m ∧ (Majority m ≤ size (healthy_controllers m))%nat.
Proof.
  unfold RequireMutationAuthority, Majority. intros H. repeat bsimpl_step. split; [done|].
  by apply Nat.ltb_ge.
Qed.

(** No two halves may both mutate: a controller is granted authority only as
    the leader and with a majority of its membership healthy, and any two views
    of one membership that are both granted it share a healthy controller. *)
Theorem mutation_authority_quorum m1 m2 :
  dom (mem_controllers m1) = dom (mem_controllers m2) →
  RequireMutationAuthority false m1 = Ok tt → RequireMutationAuthority false m2 = Ok tt →
  mem_localID m1 = mem_leaderID m1 ∧ mem_localID m2 = mem_leaderID m2 ∧
  ∃ id c1 c2, mem_controllers m1 !! id = Some c1 ∧ mem_controllers m2 !! id = Some c2 ∧
    ctl_Healthy c1 = true ∧ ctl_Healthy c2 = true.
Proof.
  intros Hdom [H1 Hm1]%authority_ok [H2 Hm2]%authority_ok. split_and!; [done..|].
  unfold Majority in *. assert (size (mem_controllers m2) = size (mem_controllers m1)) as Hsz
    by (rewrite <- !size_dom; congruence).
  destruct (majority_intersect (healthy_controllers m1) (healthy_controllers m2) (dom (mem_controllers m1)))
    as (x & Hx1 & Hx2).
  - apply healthy_subset.
  - rewrite Hdom. apply healthy_subset.
  - by rewrite size_dom.
  - by rewrite size_dom, <- Hsz.
  - unfold healthy_controllers in *. apply elem_of_dom in Hx1 as [c1 Hc1], Hx2 as [c2 Hc2].
    apply map_lookup_filter_Some in Hc1 as [? ?], Hc2 as [? ?]. by exists x, c1, c2.
Qed.

(** Recording a run of responses, each under the epoch it was issued in. *)
Definition record_responses (log : list (ReconcileResponse * uint64)) (tracker : AgentAuthorizationTracker)
  : AgentAuthorizationTracker :=
  foldl (λ t e, RecordAuthorization e.1 e.2 t) tracker log.
Definition authorizes (clusterID instanceID : ResourceID) (epoch : uint64) (e : ReconcileResponse * uint64) : bool :=
  (rr_ClusterID e.1 == clusterID) && (rr_InstanceID e.1 == instanceID) && (e.2 =? epoch) &&
  ValidResourceID (rr_LeaseID e.1) && positiveAgentAuthorization (rr_Action e.1) &&
  negb (IsZero (rr_ValidUntil e.1)).

(** What the tracker holds for one agent: at least this epoch and, in it, this time. *)
Definition holds_at (key : ResourceID * ResourceID) (epoch : uint64) (t : Time) (tracker : AgentAuthorizationTracker) : Prop :=
  ∃ records record, tracker = Some records ∧ records !! key = Some record ∧ auth_validUntil record ≠ 0 ∧
    auth_leadershipEpoch record = epoch ∧ t ≤ auth_validUntil record.

Lemma RecordAuthorization_holds key epoch t e tracker :
  holds_at key epoch t tracker → e.2 ≤ epoch → holds_at key epoch t (RecordAuthorization e.1 e.2 tracker).
Proof.
  intros (records & record & -> & Hr & Hz & He & Ht) Hle. unfold RecordAuthorization.
  destruct (_ || _) eqn:Hg; [by exists records, record|]. repeat bsimpl_step.
  unfold IsZero, After, zero_time in *. repeat bsimpl_step.
  destruct (decide ((rr_ClusterID e.1, rr_InstanceID e.1) = key)) as [<-|Hne].
  - rewrite Hr. destruct (Z.ltb_spec e.2 (auth_leadershipEpoch record)); [by exists records, record|].
    destruct (Z.eqb_spec (auth_leadershipEpoch record) e.2); [|lia]. cbn [andb].
    destruct (negb _) eqn:Hn; [by exists records, record|]. repeat bsimpl_step. cbn in *.
    eexists _, _. split; [done|]. rewrite lookup_insert_eq. split_and!; [done|done|cbn; lia..].
  - assert (∀ x, holds_at key epoch t (Some (<[(rr_ClusterID e.1, rr_InstanceID e.1) := x]> records))) as Hother.
    { intros x. eexists _, record. split; [done|]. rewrite lookup_insert_ne by done. done. }
    destruct (records !! (rr_ClusterID e.1, rr_InstanceID e.1)) as [c|]; [|apply Hother].
    destruct (_ <? _); [by exists records, record|]. destruct (_ && _); [by exists records, record|apply Hother].
Qed.
(** Epochs so far, and no empty validity. *)
Definition epochs_upto (epoch : uint64) (tracker : AgentAuthorizationTracker) : Prop :=
  ∃ records, tracker = Some records ∧
    ∀ key r, records !! key = Some r → auth_leadershipEpoch r ≤ epoch ∧ auth_validUntil r ≠ 0.
Lemma RecordAuthorization_epochs epoch e tracker :
  epochs_upto epoch tracker → e.2 ≤ epoch → epochs_upto epoch (RecordAuthorization e.1 e.2 tracker).
Proof.
  intros (records & -> & Hr) Hle. unfold RecordAuthorization.
  destruct (_ || _) eqn:Hg; [by exists records|]. repeat bsimpl_step. unfold IsZero, zero_time in *. repeat bsimpl_step.
  assert (epochs_upto epoch (Some (<[(rr_ClusterID e.1, rr_InstanceID e.1) :=
    mkAuthorization e.2 (rr_ValidUntil e.1)]> records))) as Hnew.
  { eexists. split; [done|]. intros key r. rewrite lookup_insert_Some. intros [[_ <-]|[_ ?]]; [done|by eapply Hr]. }
  destruct (records !! (rr_ClusterID e.1, rr_InstanceID e.1)) as [c|]; [|done]. destruct (_ <? _); [by exists records|]. destruct (_ && _); [by exists records|done].
Qed.
Lemma RecordAuthorization_new clusterID instanceID epoch e tracker :
  authorizes clusterID instanceID epoch e = true → ValidResourceID clusterID = true →
  ValidResourceID instanceID = true → epoch ≠ 0 → epochs_upto epoch tracker →
  holds_at (clusterID, instanceID) epoch (rr_ValidUntil e.1) (RecordAuthorization e.1 e.2 tracker).
Proof.
  intros Ha Hv1 Hv2 Hz (records & -> & Hr). unfold authorizes in Ha. repeat bsimpl_step. subst.
  unfold RecordAuthorization.
  assert ((e.2 =? 0) = false) as -> by (by apply Z.eqb_neq). rewrite Hv1, Hv2.
  repeat match goal with H : ?b = true |- context [negb ?b] => rewrite H end.
  match goal with H : IsZero _ = false |- _ => rewrite H; unfold IsZero, zero_time in H; repeat bsimpl_step end.
  cbn [negb orb]. assert (holds_at (rr_ClusterID e.1, rr_InstanceID e.1) e.2 (rr_ValidUntil e.1)
    (Some (<[(rr_ClusterID e.1, rr_InstanceID e.1) := mkAuthorization e.2 (rr_ValidUntil e.1)]> records))) as Hnew.
  { eexists _, _. split; [done|]. rewrite lookup_insert_eq. split_and!; [done|done|done|cbn; lia]. }
  destruct (records !! (rr_ClusterID e.1, rr_InstanceID e.1)) as [c|] eqn:Hc; [|done]. destruct (Hr _ _ Hc) as [Hce Hcz].
  destruct (Z.ltb_spec e.2 (auth_leadershipEpoch c)); [lia|].
  destruct (Z.eqb_spec (auth_leadershipEpoch c) e.2) as [He|]; cbn [andb]; [|done].
  unfold After. cbn [auth_validUntil]. destruct (Z.ltb_spec (auth_validUntil c) (rr_ValidUntil e.1)); cbn [negb]; [done|].
  exists records, c. by split_and!.
Qed.

(** Every keep-the-address answer is remembered: the time the tracker gives
    for an agent in a leadership epoch is at least the validity of every positive
    authorization recorded for it in that epoch, whatever was recorded for
    others, for older epochs or out of order, so a transition that waits for it
    cannot overlap an authorization already given. *)
Theorem AuthorizationUntil_covers clusterID instanceID epoch log e :
  ValidResourceID clusterID = true → ValidResourceID instanceID = true → epoch ≠ 0 →
  (∀ x, x ∈ log → x.2 ≤ epoch) → e ∈ log → authorizes clusterID instanceID epoch e = true →
  ∃ t, AuthorizationUntil clusterID instanceID epoch (record_responses log (Some ∅)) = (t, true) ∧
    rr_ValidUntil e.1 ≤ t.
Proof.
  intros Hv1 Hv2 Hz Hep Hin Ha.
  assert (epochs_upto epoch (record_responses log (Some ∅)) ∧
    holds_at (clusterID, instanceID) epoch (rr_ValidUntil e.1) (record_responses log (Some ∅))) as [_ Hh].
  { assert (∀ log', (∀ x, x ∈ log' → x.2 ≤ epoch) → epochs_upto epoch (record_responses log' (Some ∅))) as Hinv.
    { induction log' as [|x log' IH] using rev_ind; intros Hall.
      - exists ∅. split; [done|]. intros key r. by rewrite lookup_empty.
      - unfold record_responses in *. rewrite foldl_app. apply RecordAuthorization_epochs; [apply IH|apply Hall]; set_solver. }
    split; [by apply Hinv|]. revert Hin Hep. induction log as [|x log IH] using rev_ind; [set_solver|].
    intros [Hin|Hin]%elem_of_app Hep; unfold record_responses in *; rewrite foldl_app; cbn [foldl].
    - apply RecordAuthorization_holds; [apply IH; set_solver|apply Hep; set_solver].
    - apply list_elem_of_singleton in Hin as <-. apply RecordAuthorization_new; try done. apply Hinv. set_solver. }
  destruct Hh as (records & r & Hrec & Hr & Hrz & Hre & Hrt). exists (auth_validUntil r).
  split; [|done]. unfold AuthorizationUntil. rewrite Hrec, Hv1, Hv2, Hr.
  assert ((epoch =? 0) = false) as -> by (by apply Z.eqb_neq). cbn [negb orb]. rewrite bool_decide_true by done.
  unfold IsZero, zero_time. by assert ((auth_validUntil r =? 0) = false) as -> by (by apply Z.eqb_neq).
Qed.

(** ** Concrete instances *)

Definition wf_cluster : ResourceID := "11111111-1111-4111-8111-111111111111".
Definition wf_other : ResourceID := "22222222-2222-4222-8222-222222222222".
Definition wf_third : ResourceID := "33333333-3333-4333-8333-333333333333".
Definition wf_window : FailureWindow := NewFailureWindow 3 (20 * Second) [None].
Definition wf_at (n : Z) : Time := 1000 * Second + n * Second.
Definition wf_fail (n : Z) : observation := mkObservation wf_cluster true (wf_at n).
Definition wf_recovered : observation := mkObservation wf_cluster false (wf_at 0).
Definition wf_run : list observation :=
  [wf_fail 1; wf_fail 10; mkObservation wf_other false (wf_at 12); wf_fail 15; wf_fail 25].
Definition wf_times : list Time := [wf_at 1; wf_at 10; wf_at 15; wf_at 25].

Lemma wf_all o : o ∈ wf_run → relevant wf_cluster o = true → obs_failed o = true.
Proof.
  assert (Forall (λ o, relevant wf_cluster o = true → obs_failed o = true) wf_run) as H by by repeat constructor.
  rewrite Forall_forall in H. apply H.
Qed.
Lemma wf_stable : Stable wf_cluster (wf_at 26) (record_all (wf_recovered :: wf_run) wf_window) = true.
Proof. by vm_compute. Qed.

Lemma FailureWindow_refines_witness :
  Stable wf_cluster (wf_at 26) (record_all (wf_recovered :: wf_run) wf_window) =
    chain_stable 3 (20 * Second) (fw_maximumGap wf_window) (wf_at 26)
      (chain_of (fw_maximumGap wf_window) wf_cluster (wf_recovered :: wf_run)).
Proof. exact (proj1 (FailureWindow_refines wf_window (wf_recovered :: wf_run) wf_cluster (wf_at 26) eq_refl eq_refl)). Defined.

Lemma failure_window_sound_witness :
  Stable wf_cluster (wf_at 26) (record_all (wf_recovered :: wf_run) wf_window) = true ∧
  ∃ ts, consecutive (fw_maximumGap wf_window) ts ∧ 3 < Z.of_nat (length ts).
Proof.
  split; [exact wf_stable|].
  destruct (failure_window_sound wf_window (wf_recovered :: wf_run) wf_cluster (wf_at 26) eq_refl eq_refl wf_stable)
    as (pre & run & ts & _ & _ & _ & Hc & Hl & _). exists ts. exact (conj Hc Hl).
Defined.

Lemma failure_window_detects_witness :
  Stable wf_cluster (wf_at 26) (record_all ([] ++ wf_recovered :: wf_run) wf_window) = true.
Proof.
  apply (failure_window_detects wf_window [] wf_run wf_cluster wf_times wf_recovered (wf_at 26));
    try exact wf_all; by vm_compute.
Defined.

Definition wf_controllers (a b c : bool) : list Controller :=
  [mkController wf_cluster a; mkController wf_other b; mkController wf_third c].
Definition wf_member (leader : ResourceID) (a b c : bool) : Membership :=
  match NewMembership leader leader (wf_controllers a b c) with Ok m => m | Err _ => mkMembership "" "" ∅ end.
Lemma mutation_authority_quorum_witness :
  RequireMutationAuthority false (wf_member wf_cluster true true false) = Ok tt ∧
  ∃ id c, mem_controllers (wf_member wf_cluster true true false) !! id = Some c ∧ ctl_Healthy c = true.
Proof.
  assert (RequireMutationAuthority false (wf_member wf_cluster true true false) = Ok tt) as H1 by by vm_compute.
  assert (RequireMutationAuthority false (wf_member wf_other false true true) = Ok tt) as H2 by by vm_compute.
  split; [exact H1|].
  assert (dom (mem_controllers (wf_member wf_cluster true true false)) =
    dom (mem_controllers (wf_member wf_other false true true))) as Hd.
  { apply (bool_decide_eq_true_1 _). vm_compute. reflexivity. }
  pose proof (mutation_authority_quorum _ _ Hd H1 H2) as (_ & _ & id & c1 & c2 & Hc1 & _ & Hh & _).
  exists id, c1. exact (conj Hc1 Hh).
Defined.

Definition wf_response (n : Z) : ReconcileResponse * uint64 :=
  (mkReconcileResponse "" wf_cluster wf_other ReconcileKeepVIP "" wf_third (wf_at n) "" "", 7).
Definition wf_log : list (ReconcileResponse * uint64) := [wf_response 30; wf_response 20].
Lemma AuthorizationUntil_covers_witness :
  ∃ t, AuthorizationUntil wf_cluster wf_other 7 (record_responses wf_log (Some ∅)) = (t, true) ∧ wf_at 20 ≤ t.
Proof.
  apply (AuthorizationUntil_covers wf_cluster wf_other 7 wf_log (wf_response 20)); try by vm_compute.
  - assert (Forall (λ x : ReconcileResponse * uint64, x.2 ≤ 7) wf_log) as H by by repeat constructor.
    rewrite Forall_forall in H. exact H.
  - apply list_elem_of_In. cbn. tauto.
Defined.
