(* ===== verification/HAEndpoints.v ===== *)
(** * internal/store/ha_endpoints.go: writer endpoints

    The registry of highly available endpoints (a virtual IP moved between
    Linux hosts, or a Kubernetes Service) and of the member that owns each.

    [valid_ipv4] is [net.ParseIP(s) != nil && net.ParseIP(s).To4() != nil] and
    [valid_ip] is [net.ParseIP(s) != nil]; every theorem holds for any such
    functions.  Where the code takes the first match of a map iteration the
    model takes the map's own order; [ha_ok] shows there is at most one match. *)
From S2P Require Import Prelude GoStd Model Endpoint Lease Locks Repository Operations.

Section ha_endpoints.
Variables valid_ip valid_ipv4 : string → bool.

Record HAEndpointSpec : Type := mkHAEndpointSpec {
  hs_ClusterID : ResourceID; hs_Kind : EndpointKind; hs_Hostname : string; hs_IPAddress : string;
  hs_Port : Z; hs_Interface : string; hs_Prefix : Z; hs_Provider : EndpointProviderKind;
  hs_ProviderRef : string; hs_OwnerID : ResourceID; hs_Active : bool
}.

Definition effective_provider (provider : EndpointProviderKind) : EndpointProviderKind :=
  if provider == EndpointProviderKindOther "" then EndpointProviderLinuxVIP else provider.

Definition validateLinuxVIP (spec : HAEndpointSpec) : result store_error unit :=
  _ ← require (hs_Kind spec == EndpointVIP) ErrValidation;
  _ ← require (valid_ipv4 (TrimSpace (hs_IPAddress spec))) ErrValidation;
  _ ← reject (TrimSpace (hs_Interface spec) == "") ErrValidation;
  reject ((hs_Prefix spec <? 1) || (32 <? hs_Prefix spec)) ErrValidation.
Definition validateKubernetesService (spec : HAEndpointSpec) : result store_error unit :=
  _ ← require (hs_Kind spec == EndpointService) ErrValidation;
  _ ← reject ((TrimSpace (hs_ProviderRef spec) == "") || (TrimSpace (hs_Hostname spec) == "") ||
              (hs_Port spec <? 1) || (65535 <? hs_Port spec)) ErrValidation;
  _ ← reject ((TrimSpace (hs_IPAddress spec) != "") && negb (valid_ip (TrimSpace (hs_IPAddress spec))))
       ErrValidation;
  reject ((TrimSpace (hs_Interface spec) != "") || negb (hs_Prefix spec =? 0)) ErrValidation.

Definition validateHAEndpointSpec (current : snapshot) (spec : HAEndpointSpec) : result store_error unit :=
  _ ← require (ValidResourceID (hs_ClusterID spec)) ErrValidation;
  _ ← require (bool_decide (is_Some (sn_Clusters current !! hs_ClusterID spec))) ErrValidation;
  let provider := effective_provider (hs_Provider spec) in
  _ ← require (EndpointProviderKind_Valid provider) ErrValidation;
  _ ← (if provider == EndpointProviderLinuxVIP then validateLinuxVIP spec else Ok tt);
  _ ← (if provider == EndpointProviderKubernetesService then validateKubernetesService spec else Ok tt);
  match sn_Instances current !! hs_OwnerID spec with
  | Some owner => require (inst_ClusterID owner == hs_ClusterID spec) ErrValidation
  | None => Err ErrValidation
  end.

Definition normalizedSpec (spec : HAEndpointSpec) : HAEndpointSpec :=
  mkHAEndpointSpec (hs_ClusterID spec) (hs_Kind spec) (TrimSpace (hs_Hostname spec))
    (TrimSpace (hs_IPAddress spec)) (hs_Port spec) (TrimSpace (hs_Interface spec)) (hs_Prefix spec)
    (effective_provider (hs_Provider spec)) (TrimSpace (hs_ProviderRef spec)) (hs_OwnerID spec)
    (hs_Active spec).

(** A lookup in the two-level endpoint map; a missing entry is the zero value. *)
Definition endpoint_at (s : snapshot) (clusterID endpointID : ResourceID) : option Endpoint :=
  sn_Endpoints s !! clusterID ≫= λ m, m !! endpointID.
Definition put_endpoint (clusterID : ResourceID) (endpoint : Endpoint)
    (m : gmap ResourceID (gmap ResourceID Endpoint)) : gmap ResourceID (gmap ResourceID Endpoint) :=
  <[clusterID := <[ep_ResourceID endpoint := endpoint]> (default ∅ (m !! clusterID))]> m.

Definition existing_resource (s : snapshot) (spec : HAEndpointSpec) : option HAEndpoint :=
  find (λ c, (ha_ClusterID c == hs_ClusterID spec) && (ha_Kind c == hs_Kind spec))
    (map_to_list (sn_HAEndpoints s)).*2.

(** Another registered VIP is active on the same address. *)
Definition address_taken (s : snapshot) (resourceID : ResourceID) (address : string) : bool :=
  existsb (λ c,
      negb ((ha_ResourceID c == resourceID) || (ha_Kind c != EndpointVIP)) &&
      let e := default zero_Endpoint (endpoint_at s (ha_ClusterID c) (ha_EndpointID c)) in
      ep_Active e && (ep_IPAddress e == address))
    (map_to_list (sn_HAEndpoints s)).*2.

(** The stored records for a spec, from the existing ones or fresh. *)
Definition identify (freshResource freshEndpoint : ResourceID) (now : Time) (existing : option HAEndpoint)
    (s : snapshot) (clusterID : ResourceID) : HAEndpoint * Endpoint :=
  let fresh := (zero_HAEndpoint <| ha_ResourceID := freshResource |> <| ha_MetadataRevision := 1 |>
                  <| ha_CreatedAt := now |> <| ha_UpdatedAt := now |>,
                zero_Endpoint <| ep_ResourceID := freshEndpoint |> <| ep_MetadataRevision := 1 |>
                  <| ep_CreatedAt := now |> <| ep_UpdatedAt := now |>) in
  match existing with
  | Some resource =>
      let endpoint := default zero_Endpoint (endpoint_at s clusterID (ha_EndpointID resource)) in
      if ha_ResourceID resource == "" then
        (resource <| ha_ResourceID := freshResource |> <| ha_MetadataRevision := 1 |>
           <| ha_CreatedAt := now |> <| ha_UpdatedAt := now |>,
         endpoint <| ep_ResourceID := freshEndpoint |> <| ep_MetadataRevision := 1 |>
           <| ep_CreatedAt := now |> <| ep_UpdatedAt := now |>)
      else
        (resource <| ha_MetadataRevision ::= λ n, u64 (n + 1) |> <| ha_UpdatedAt := now |>,
         endpoint <| ep_MetadataRevision ::= λ n, u64 (n + 1) |> <| ep_UpdatedAt := now |>)
  | None => fresh
  end.

Definition apply_spec (spec : HAEndpointSpec) (p : HAEndpoint * Endpoint) : HAEndpoint * Endpoint :=
  let endpoint := p.2 <| ep_ClusterID := hs_ClusterID spec |> <| ep_InstanceID := hs_OwnerID spec |>
    <| ep_Kind := hs_Kind spec |> <| ep_Hostname := hs_Hostname spec |>
    <| ep_IPAddress := hs_IPAddress spec |> <| ep_Port := hs_Port spec |> <| ep_Active := hs_Active spec |> in
  (p.1 <| ha_ClusterID := hs_ClusterID spec |> <| ha_EndpointID := ep_ResourceID endpoint |>
     <| ha_Kind := hs_Kind spec |> <| ha_DesiredRole := RolePrimary |> <| ha_OwnerID := hs_OwnerID spec |>
     <| ha_Interface := hs_Interface spec |> <| ha_Prefix := hs_Prefix spec |>
     <| ha_Provider := hs_Provider spec |> <| ha_ProviderRef := hs_ProviderRef spec |> <| ha_Healthy := false |>,
   endpoint).

Definition PutHAEndpoint (freshResource freshEndpoint : ResourceID) (spec : HAEndpointSpec) (r : Repository)
  : Repository * result store_error (HAEndpoint * Endpoint) :=
  let spec := normalizedSpec spec in
  let s := repo_snapshot r in
  match validateHAEndpointSpec s spec with
  | Err e => (r, Err e)
  | Ok _ =>
      let existing := existing_resource s spec in
      let resourceID := match existing with Some c => ha_ResourceID c | None => "" end in
      if hs_Active spec && address_taken s resourceID (hs_IPAddress spec) then (r, Err ErrConflict)
      else
        let p := apply_spec spec
          (identify freshResource freshEndpoint (repo_now r) existing s (hs_ClusterID spec)) in
        answer p (commit (s <| sn_Endpoints ::= put_endpoint (hs_ClusterID spec) p.2 |>
                            <| sn_HAEndpoints ::= <[ha_ResourceID p.1 := p.1]> |>) r)
  end.

(** [expected] is [None] for [CommitHAEndpointOwner] and the observed resource
    and endpoint revisions for [CommitObservedHAEndpointOwner]. *)
Definition commitHAEndpointOwner (clusterID resourceID ownerID : ResourceID) (healthy : bool)
    (expected : option (uint64 * uint64)) (r : Repository) : Repository * result store_error unit :=
  let s := repo_snapshot r in
  if negb (ValidResourceID clusterID) || negb (ValidResourceID resourceID) || negb (ValidResourceID ownerID)
  then (r, Err ErrValidation)
  else match sn_HAEndpoints s !! resourceID with
  | None => (r, Err ErrValidation)
  | Some resource =>
      if (ha_ClusterID resource != clusterID) || (ha_Kind resource != EndpointVIP) then (r, Err ErrValidation)
      else match sn_Instances s !! ownerID with
      | None => (r, Err ErrValidation)
      | Some owner =>
          if inst_ClusterID owner != clusterID then (r, Err ErrValidation)
          else match endpoint_at s clusterID (ha_EndpointID resource) with
          | None => (r, Err ErrValidation)
          | Some endpoint =>
              if (ep_Kind endpoint != EndpointVIP) || negb (ep_Active endpoint) then (r, Err ErrValidation)
              else if match expected with
                      | Some (e1, e2) => (ha_MetadataRevision resource != e1) || (ep_MetadataRevision endpoint != e2)
                      | None => false
                      end then (r, Err ErrConflict)
              else if (ha_OwnerID resource == ownerID) && Bool.eqb (ha_Healthy resource) healthy &&
                      (ep_InstanceID endpoint == ownerID) then (r, Ok tt)
              else
                let now := repo_now r in
                let resource := resource <| ha_OwnerID := ownerID |> <| ha_Healthy := healthy |>
                  <| ha_MetadataRevision ::= λ n, u64 (n + 1) |> <| ha_UpdatedAt := now |> in
                let endpoint := endpoint <| ep_InstanceID := ownerID |>
                  <| ep_MetadataRevision ::= λ n, u64 (n + 1) |> <| ep_UpdatedAt := now |> in
                commit (s <| sn_HAEndpoints ::= <[resourceID := resource]> |>
                          <| sn_Endpoints ::= put_endpoint clusterID endpoint |>) r
          end
      end
  end.
Definition CommitHAEndpointOwner (clusterID resourceID ownerID : ResourceID) (healthy : bool) :=
  commitHAEndpointOwner clusterID resourceID ownerID healthy None.
Definition CommitObservedHAEndpointOwner (clusterID resourceID : ResourceID)
    (expectedResourceRevision expectedEndpointRevision : uint64) (ownerID : ResourceID) (healthy : bool) :=
  commitHAEndpointOwner clusterID resourceID ownerID healthy
    (Some (expectedResourceRevision, expectedEndpointRevision)).

Definition HAEndpointByID (resourceID : ResourceID) (r : Repository) : option HAEndpoint :=
  sn_HAEndpoints (repo_snapshot r) !! resourceID.
Definition HAEndpoints (clusterID : ResourceID) (r : Repository) : list HAEndpoint :=
  filter (λ x, ha_ClusterID x = clusterID) (sorted_values (sn_HAEndpoints (repo_snapshot r))).
Definition EndpointByID (resourceID : ResourceID) (r : Repository) : option Endpoint :=
  head (omap (λ m, m !! resourceID) (map_to_list (sn_Endpoints (repo_snapshot r))).*2).

(** ** One active VIP per address *)

(** Every HA endpoint is stored under its ID with its own endpoint record; a
    cluster has one of a kind; and an address is active in one place. *)
Record ha_ok (s : snapshot) : Prop := mk_ha_ok {
  hok_id : ∀ id x, sn_HAEndpoints s !! id = Some x → ha_ResourceID x = id ∧ id ≠ "";
  hok_kind : ∀ i j x y, sn_HAEndpoints s !! i = Some x → sn_HAEndpoints s !! j = Some y →
    ha_ClusterID x = ha_ClusterID y → ha_Kind x = ha_Kind y → i = j;
  hok_endpoint : ∀ id x, sn_HAEndpoints s !! id = Some x →
    ∃ e, endpoint_at s (ha_ClusterID x) (ha_EndpointID x) = Some e ∧ ep_ResourceID e = ha_EndpointID x;
  hok_own : ∀ i j x y, sn_HAEndpoints s !! i = Some x → sn_HAEndpoints s !! j = Some y →
    ha_ClusterID x = ha_ClusterID y → ha_EndpointID x = ha_EndpointID y → i = j;
  hok_vip : ∀ i j x y e f, sn_HAEndpoints s !! i = Some x → sn_HAEndpoints s !! j = Some y →
    ha_Kind x = EndpointVIP → ha_Kind y = EndpointVIP →
    endpoint_at s (ha_ClusterID x) (ha_EndpointID x) = Some e →
    endpoint_at s (ha_ClusterID y) (ha_EndpointID y) = Some f →
    ep_Active e = true → ep_Active f = true → ep_IPAddress e = ep_IPAddress f → i = j
}.

Lemma endpoint_at_put (s s' : snapshot) clusterID e c i :
  sn_Endpoints s' = put_endpoint clusterID e (sn_Endpoints s) →
  endpoint_at s' c i = if bool_decide (c = clusterID ∧ i = ep_ResourceID e) then Some e else endpoint_at s c i.
Proof.
  unfold endpoint_at. intros ->. unfold put_endpoint.
  destruct (decide (c = clusterID)) as [->|Hne].
  - rewrite lookup_insert_eq. cbn. destruct (decide (i = ep_ResourceID e)) as [->|Hi].
    + by rewrite lookup_insert_eq, bool_decide_true.
    + rewrite lookup_insert_ne, bool_decide_false by naive_solver. by destruct (sn_Endpoints s !! clusterID).
  - rewrite lookup_insert_ne, bool_decide_false by naive_solver. done.
Qed.

(** Rewriting one resource and its own endpoint record keeps the invariant. *)
Lemma ha_ok_put s s' id x e :
  ha_ok s →
  sn_HAEndpoints s' = <[id := x]> (sn_HAEndpoints s) →
  (∀ c i, endpoint_at s' c i = if bool_decide (c = ha_ClusterID x ∧ i = ha_EndpointID x) then Some e
                               else endpoint_at s c i) →
  ha_ResourceID x = id → id ≠ "" → ep_ResourceID e = ha_EndpointID x →
  (∀ j y, sn_HAEndpoints s !! j = Some y → j ≠ id →
     (ha_ClusterID y = ha_ClusterID x → ha_Kind y ≠ ha_Kind x ∧ ha_EndpointID y ≠ ha_EndpointID x) ∧
     (ha_Kind x = EndpointVIP → ha_Kind y = EndpointVIP → ep_Active e = true → ∀ f,
        endpoint_at s (ha_ClusterID y) (ha_EndpointID y) = Some f → ep_Active f = true →
        ep_IPAddress f ≠ ep_IPAddress e)) →
  ha_ok s'.
Proof.
  intros [H1 H2 H3 H4 H5] Hs He Hid Hne Hee Hother.
  assert (∀ j y, sn_HAEndpoints s !! j = Some y → j ≠ id →
    endpoint_at s' (ha_ClusterID y) (ha_EndpointID y) = endpoint_at s (ha_ClusterID y) (ha_EndpointID y)) as Hkeep.
  { intros j y Hy Hj. rewrite He, bool_decide_false; [done|]. intros [Hc Hi]. by destruct (Hother j y Hy Hj) as [[_ ?] _]. }
  assert (endpoint_at s' (ha_ClusterID x) (ha_EndpointID x) = Some e) as Hx by by rewrite He, bool_decide_true.
  split; rewrite Hs.
  - intros i y. rewrite lookup_insert_Some. intros [[<- <-]|[_ Hy]]; [done|by apply H1].
  - intros i j y z. rewrite !lookup_insert_Some. intros [[<- <-]|[Hi Hy]] [[<- <-]|[Hj Hz]] Hc Hk; try done.
    + by destruct (Hother j z Hz ltac:(done)) as [[? _] _].
    + by destruct (Hother i y Hy ltac:(done)) as [[? _] _].
    + by eapply H2.
  - intros i y. rewrite lookup_insert_Some. intros [[<- <-]|[Hi Hy]]; [by exists e|].
    rewrite (Hkeep i y) by done. by eapply H3.
  - intros i j y z. rewrite !lookup_insert_Some. intros [[<- <-]|[Hi Hy]] [[<- <-]|[Hj Hz]] Hc Hk; try done.
    + by destruct (Hother j z Hz ltac:(done)) as [[_ ?] _].
    + by destruct (Hother i y Hy ltac:(done)) as [[_ ?] _].
    + by eapply H4.
  - intros i j y z a b. rewrite !lookup_insert_Some.
    intros [[<- <-]|[Hi Hy]] [[<- <-]|[Hj Hz]] Hky Hkz Ha Hb Hta Htb Hip; try done.
    + rewrite Hx in Ha. rewrite (Hkeep j z) in Hb by done. injection Ha as ->.
      destruct (Hother j z Hz ltac:(done)) as [_ Hv]. by destruct (Hv Hky Hkz Hta b Hb Htb).
    + rewrite Hx in Hb. rewrite (Hkeep i y) in Ha by done. injection Hb as ->.
      destruct (Hother i y Hy ltac:(done)) as [_ Hv]. by destruct (Hv Hkz Hky Htb a Ha Hta).
    + rewrite (Hkeep i y) in Ha by done. rewrite (Hkeep j z) in Hb by done. by eapply H5.
Qed.

Lemma ha_ok_same s s' :
  sn_HAEndpoints s' = sn_HAEndpoints s → sn_Endpoints s' = sn_Endpoints s → ha_ok s → ha_ok s'.
Proof. intros H1 H2 [A B C D E]. unfold endpoint_at in *. split; unfold endpoint_at; rewrite H1, ?H2; done. Qed.

Lemma commit_ha {A} (a : A) value r r' res :
  answer a (commit value r) = (r', res) → ha_ok value → ha_ok (repo_snapshot r) → ha_ok (repo_snapshot r').
Proof.
  destruct (commit value r) as [r1 res1] eqn:Hc. intros [= <- _] Hv Hr. cbn.
  apply commit_spec in Hc as [_ Hc].
  destruct res1; [|destruct Hc as [Hc|Hc]]; destruct Hc as [-> _]; try done; by apply (ha_ok_same value).
Qed.

Lemma address_free s resourceID address j y f :
  address_taken s resourceID address = false → sn_HAEndpoints s !! j = Some y →
  ha_ResourceID y ≠ resourceID → ha_Kind y = EndpointVIP →
  endpoint_at s (ha_ClusterID y) (ha_EndpointID y) = Some f → ep_Active f = true → ep_IPAddress f ≠ address.
Proof.
  intros Ht Hy Hne Hk Hf Ha He. apply not_true_iff_false in Ht. apply Ht. apply existsb_exists. exists y.
  split; [apply list_elem_of_In, list_elem_of_fmap; exists (j, y); by rewrite elem_of_map_to_list|].
  rewrite Hf. cbn. rewrite Ha. rewrite (bool_decide_false (ha_ResourceID y = resourceID)) by done. bsplit; [|done..].
  by rewrite bool_decide_true.
Qed.

Lemma existing_spec s spec x : existing_resource s spec = Some x →
  (∃ i, sn_HAEndpoints s !! i = Some x) ∧ ha_ClusterID x = hs_ClusterID spec ∧ ha_Kind x = hs_Kind spec.
Proof.
  unfold existing_resource. intros [Hx Hb]%find_some. repeat bsimpl_step. split_and!; try done.
  apply list_elem_of_In, list_elem_of_fmap in Hx as ([i z] & -> & Hz%elem_of_map_to_list). by exists i.
Qed.
Lemma existing_none s spec : existing_resource s spec = None →
  ∀ j y, sn_HAEndpoints s !! j = Some y → ha_ClusterID y = hs_ClusterID spec → ha_Kind y ≠ hs_Kind spec.
Proof.
  unfold existing_resource. intros Hn j y Hy Hc Hk. pose proof (find_none _ _ Hn y) as Hb. cbn in Hb.
  rewrite !bool_decide_true in Hb by done. discriminate Hb.
  apply list_elem_of_In, list_elem_of_fmap. exists (j, y). by rewrite elem_of_map_to_list.
Qed.

(** Apply [ha_ok_put] to the records the commit stores. *)
Ltac ha_put id :=
  match goal with |- context [put_endpoint _ ?ep] =>
    match goal with |- context [<[_ := ?q]>] => apply (ha_ok_put _ _ id q ep) || eapply (ha_ok_put _ _ id q ep) end end.

Lemma put_ha_ok f1 f2 spec r r' res :
  ha_ok (repo_snapshot r) → f1 ≠ "" → sn_HAEndpoints (repo_snapshot r) !! f1 = None →
  (∀ c, endpoint_at (repo_snapshot r) c f2 = None) →
  PutHAEndpoint f1 f2 spec r = (r', res) → ha_ok (repo_snapshot r').
Proof.
  intros Hok Hf1 Hfree Hf2. unfold PutHAEndpoint. generalize (normalizedSpec spec) as sp. intros sp.
  destruct (validateHAEndpointSpec _ _); [|by intros [= <- _]].
  destruct (_ && _) eqn:Htaken; [by intros [= <- _]|].
  set (p := apply_spec sp _). intros Hc. eapply commit_ha; [exact Hc| |done]. clear Hc.
  destruct (existing_resource (repo_snapshot r) sp) as [x|] eqn:Hex.
  - apply existing_spec in Hex as ([i Hi] & Hcl & Hk). destruct (hok_id _ Hok _ _ Hi) as [Hid Hne]. subst i.
    destruct (hok_endpoint _ Hok _ _ Hi) as (e & He & Hee). subst p. unfold identify.
    rewrite <- Hcl, He. cbn [default]. rewrite bool_decide_false by congruence. cbn [fst snd].
    ha_put (ha_ResourceID x); [exact Hok|reflexivity| |reflexivity|exact Hne|exact eq_refl|].
    + intros c j. erewrite endpoint_at_put by reflexivity. cbn. by rewrite ?Hcl.
    + intros j y Hy Hji. split.
      * cbn. rewrite <- Hcl, <- Hk. intros Hcy. split; [intros Hky|rewrite Hee; intros Hey].
        -- by apply Hji, (hok_kind _ Hok j (ha_ResourceID x) y x).
        -- by apply Hji, (hok_own _ Hok j (ha_ResourceID x) y x).
      * cbn. intros _ Hky Hact f Hf Hfa. rewrite Hact in Htaken. cbn [andb] in Htaken.
        eapply address_free; [exact Htaken|exact Hy| |done..]. destruct (hok_id _ Hok _ _ Hy). congruence.
  - subst p. cbn [identify]. ha_put f1; [exact Hok|reflexivity| |reflexivity|exact Hf1|reflexivity|].
    + intros c j. by erewrite endpoint_at_put by reflexivity.
    + intros j y Hy Hji. split.
      * cbn. intros Hcy. split; [by eapply existing_none|]. intros Hey.
        destruct (hok_endpoint _ Hok _ _ Hy) as (e & He & _). rewrite Hey, Hf2 in He. done.
      * cbn. intros _ Hky Hact f Hf Hfa. rewrite Hact in Htaken. cbn [andb] in Htaken.
        eapply address_free; [exact Htaken|exact Hy| |done..]. destruct (hok_id _ Hok _ _ Hy). congruence.
Qed.

Lemma commit_owner_ok c id owner healthy expected r r' res :
  ha_ok (repo_snapshot r) → commitHAEndpointOwner c id owner healthy expected r = (r', res) → ha_ok (repo_snapshot r').
Proof.
  intros Hok. unfold commitHAEndpointOwner.
  repeat lazymatch goal with
  | |- (r, _) = _ → _ => by intros [= <- _]
  | |- commit _ _ = _ → _ => fail
  | |- (if ?b then _ else _) = _ → _ => destruct b eqn:?
  | |- match ?o with Some _ => _ | None => _ end = _ → _ => destruct o eqn:?
  end; intros Hc.
  eapply (commit_ha tt); [unfold answer; by rewrite Hc| |done]. clear Hc. repeat bsimpl_step.
  match goal with H : sn_HAEndpoints _ !! id = Some ?y |- _ => rename H into Hx, y into x end.
  match goal with H : endpoint_at _ c _ = Some ?y |- _ => rename H into He, y into e end.
  destruct (hok_id _ Hok _ _ Hx) as [Hid Hne]. destruct (hok_endpoint _ Hok _ _ Hx) as (e' & He' & Hee).
  assert (e' = e) as -> by congruence.
  assert (ha_ClusterID x = c) as Hxc by congruence.
  ha_put id; [exact Hok|reflexivity| |exact Hid|exact Hne|exact Hee|].
  - intros c' j. erewrite endpoint_at_put by reflexivity. cbn.
    rewrite Hee. by rewrite Hxc.
  - intros j y Hy Hji. split.
    + cbn. intros Hcy. split; [intros Hk|intros Hey]; apply Hji;
        [by apply (hok_kind _ Hok j id y x)|by apply (hok_own _ Hok j id y x)].
    + cbn. intros Hkx Hky Hact f Hf Hfa Hip. apply Hji. eapply (hok_vip _ Hok j id y x f e); done.
Qed.

(** What the other components do to the registry: cluster retirement removes
    entries, disaster recovery rewrites owners, inventory and lifecycle write
    endpoint records that belong to no HA endpoint. *)
Definition ha_frame (s s' : snapshot) : Prop :=
  ∀ id x', sn_HAEndpoints s' !! id = Some x' →
    ∃ x e e', sn_HAEndpoints s !! id = Some x ∧
      endpoint_at s (ha_ClusterID x) (ha_EndpointID x) = Some e ∧
      endpoint_at s' (ha_ClusterID x') (ha_EndpointID x') = Some e' ∧
      (ha_ResourceID x', ha_ClusterID x', ha_EndpointID x', ha_Kind x') =
        (ha_ResourceID x, ha_ClusterID x, ha_EndpointID x, ha_Kind x) ∧
      (ep_ResourceID e', ep_IPAddress e', ep_Active e') = (ep_ResourceID e, ep_IPAddress e, ep_Active e).

Lemma ha_frame_ok s s' : ha_frame s s' → ha_ok s → ha_ok s'.
Proof.
  intros Hf [H1 H2 H3 H4 H5]. split.
  - intros id x (y & _ & _ & Hy & _ & _ & [= -> _ _ _] & _)%Hf. by apply H1.
  - intros i j x y (a & _ & _ & Ha & _ & _ & [= _ -> _ ->] & _)%Hf (b & _ & _ & Hb & _ & _ & [= _ -> _ ->] & _)%Hf.
    by apply H2.
  - intros id x (y & e & e' & Hy & He & He' & [= _ _ Hi _] & [= Hr _ _])%Hf. exists e'. split; [done|].
    destruct (H3 _ _ Hy) as (e2 & He2 & Hr2). congruence.
  - intros i j x y (a & _ & _ & Ha & _ & _ & [= _ -> -> _] & _)%Hf (b & _ & _ & Hb & _ & _ & [= _ -> -> _] & _)%Hf.
    by apply H4.
  - intros i j x y e f (a & ea & ea' & Ha & Hea & Hea' & [= _ _ _ ->] & [= _ Hia Haa])%Hf
      (b & eb & eb' & Hb & Heb & Heb' & [= _ _ _ ->] & [= _ Hib Hab])%Hf Hkx Hky He Hf' Hae Haf Hip.
    simplify_eq. eapply (H5 i j a b ea eb); congruence.
Qed.

(** The steps of the store, seen from the endpoint registry.  A new resource's
    identifiers are unused ([model.NewResourceID] is random). *)
Inductive ha_step (r r' : Repository) : Prop :=
| hstep_put f1 f2 spec res : f1 ≠ "" → sn_HAEndpoints (repo_snapshot r) !! f1 = None →
    (∀ c, endpoint_at (repo_snapshot r) c f2 = None) →
    PutHAEndpoint f1 f2 spec r = (r', res) → ha_step r r'
| hstep_owner c id owner healthy expected res :
    commitHAEndpointOwner c id owner healthy expected r = (r', res) → ha_step r r'
| hstep_other value res : ha_frame (repo_snapshot r) value → commit value r = (r', res) → ha_step r r'
| hstep_environment now outcomes : r' = r <| repo_now := now |> <| repo_commits := outcomes |> → ha_step r r'.

Lemma ha_step_ok r r' : ha_ok (repo_snapshot r) → ha_step r r' → ha_ok (repo_snapshot r').
Proof.
  intros Hok [f1 f2 spec res H1 H2 H3 Hp|c id o h ex res Hc|value res Hf Hc| now cs ->].
  - by eapply put_ha_ok.
  - by eapply commit_owner_ok.
  - eapply (commit_ha tt value r r' res); [unfold answer; rewrite Hc; by destruct res as [[]|]| |done].
    by eapply ha_frame_ok.
  - done.
Qed.
Lemma ha_steps_ok r r' : ha_ok (repo_snapshot r) → rtc ha_step r r' → ha_ok (repo_snapshot r').
Proof. intros Hok Hr. induction Hr; eauto using ha_step_ok. Qed.
Lemma empty_ha_ok s : sn_HAEndpoints s = ∅ → ha_ok s.
Proof. intros He. split; rewrite He; intros *; by rewrite lookup_empty. Qed.

(** however endpoints are registered, updated, moved and removed, a virtual
    IP address is active in at most one registered HA endpoint: two VIP
    endpoints whose records are active and carry the same address are the same
    one. *)
Theorem vip_exclusive r r' i j x y e f :
  sn_HAEndpoints (repo_snapshot r) = ∅ → rtc ha_step r r' →
  HAEndpointByID i r' = Some x → HAEndpointByID j r' = Some y →
  ha_Kind x = EndpointVIP → ha_Kind y = EndpointVIP →
  endpoint_at (repo_snapshot r') (ha_ClusterID x) (ha_EndpointID x) = Some e →
  endpoint_at (repo_snapshot r') (ha_ClusterID y) (ha_EndpointID y) = Some f →
  ep_Active e = true → ep_Active f = true → ep_IPAddress e = ep_IPAddress f → i = j.
Proof. intros He Hr. by apply (hok_vip _ (ha_steps_ok r r' (empty_ha_ok _ He) Hr)). Qed.

(** ** Stale observations *)

(** A write to a registered resource advances its revision. *)
Definition revised (s s' : snapshot) : Prop :=
  ∀ id x x', sn_HAEndpoints s !! id = Some x → sn_HAEndpoints s' !! id = Some x' → x' = x ∨
    ha_MetadataRevision x' = u64 (ha_MetadataRevision x + 1).

Lemma commit_revised {A} (a : A) value r r' res :
  answer a (commit value r) = (r', res) → revised (repo_snapshot r) value →
  revised (repo_snapshot r) (repo_snapshot r').
Proof.
  destruct (commit value r) as [r1 res1] eqn:Hc. intros [= <- _] Hv. cbn.
  apply commit_spec in Hc as [_ Hc].
  destruct res1; [|destruct Hc as [Hc|Hc]]; destruct Hc as [-> _]; try done.
  intros id x x' Hx Hx'. left. cbn in *. congruence.
Qed.

Lemma revised_insert s s' k v :
  sn_HAEndpoints s' = <[k := v]> (sn_HAEndpoints s) →
  (∀ x, sn_HAEndpoints s !! k = Some x → ha_MetadataRevision v = u64 (ha_MetadataRevision x + 1)) →
  revised s s'.
Proof.
  intros He Hk id x x' Hx. rewrite He, lookup_insert_Some. intros [[<- <-]|[_ Hx']]; [right; by apply Hk|left; congruence].
Qed.

Lemma put_revised f1 f2 spec r r' res :
  ha_ok (repo_snapshot r) → sn_HAEndpoints (repo_snapshot r) !! f1 = None →
  PutHAEndpoint f1 f2 spec r = (r', res) → revised (repo_snapshot r) (repo_snapshot r').
Proof.
  intros Hok Hfree. assert (revised (repo_snapshot r) (repo_snapshot r)) as Hrefl.
  { intros id x x' Hx Hx'. left. congruence. }
  unfold PutHAEndpoint. generalize (normalizedSpec spec) as sp. intros sp.
  destruct (validateHAEndpointSpec _ _); [|by intros [= <- _]].
  destruct (_ && _) eqn:Htaken; [by intros [= <- _]|]. clear Htaken.
  intros Hc. eapply commit_revised; [exact Hc|]. clear Hc. eapply revised_insert; [reflexivity|].
  destruct (existing_resource (repo_snapshot r) sp) as [y|] eqn:Hex; cbn [identify].
  - apply existing_spec in Hex as ([i Hi] & _ & _). destruct (hok_id _ Hok _ _ Hi) as [Hid Hne]. subst i.
    rewrite bool_decide_false by congruence. intros x Hx. cbn in *. congruence.
  - intros x Hx. cbn in Hx. congruence.
Qed.

Lemma owner_revised c id owner healthy expected r r' res :
  commitHAEndpointOwner c id owner healthy expected r = (r', res) →
  revised (repo_snapshot r) (repo_snapshot r').
Proof.
  assert (revised (repo_snapshot r) (repo_snapshot r)) as Hrefl.
  { intros i x x' Hx Hx'. left. congruence. }
  unfold commitHAEndpointOwner.
  repeat lazymatch goal with
  | |- (r, _) = _ → _ => by intros [= <- _]
  | |- commit _ _ = _ → _ => fail
  | |- (if ?b then _ else _) = _ → _ => destruct b eqn:?
  | |- match ?o with Some _ => _ | None => _ end = _ → _ => destruct o eqn:?
  end; intros Hc.
  eapply (commit_revised tt); [unfold answer; by rewrite Hc|].
  eapply revised_insert; [reflexivity|]. intros x Hx. cbn. congruence.
Qed.

(** A write of the registry, by an operator or by the reconciler. *)
Inductive ha_write (r r' : Repository) : Prop :=
| hw_put f1 f2 spec res : sn_HAEndpoints (repo_snapshot r) !! f1 = None →
    PutHAEndpoint f1 f2 spec r = (r', res) → ha_write r r'
| hw_owner c id owner healthy expected res :
    commitHAEndpointOwner c id owner healthy expected r = (r', res) → ha_write r r'.

(** an observation that was overtaken is never stored: when the resource a
    reconciler observed was rewritten before it reports (a switchover, an
    operator's update), [CommitObservedHAEndpointOwner] with the observed
    revision is refused and the repository keeps the newer record, also when
    the revision counter wraps. *)
Theorem stale_observation_refused r0 r r1 id x x1 clusterID endpointRevision owner healthy :
  sn_HAEndpoints (repo_snapshot r0) = ∅ → rtc ha_step r0 r → ha_write r r1 →
  HAEndpointByID id r = Some x → HAEndpointByID id r1 = Some x1 → x1 ≠ x →
  ∃ e, CommitObservedHAEndpointOwner clusterID id (ha_MetadataRevision x) endpointRevision owner healthy r1 =
         (r1, Err e).
Proof.
  intros He Hr Hw Hx Hx1 Hne. pose proof (ha_steps_ok r0 r (empty_ha_ok _ He) Hr) as Hok.
  assert (revised (repo_snapshot r) (repo_snapshot r1)) as Hrev
    by (destruct Hw; [by eapply put_revised|by eapply owner_revised]).
  destruct (Hrev id x x1 Hx Hx1) as [?|Hv]; [done|].
  unfold CommitObservedHAEndpointOwner, commitHAEndpointOwner, HAEndpointByID in *. rewrite Hx1.
  rewrite Hv, (bool_decide_false (u64 (ha_MetadataRevision x + 1) = ha_MetadataRevision x)) by apply u64_succ_ne.
  cbn [negb orb]. repeat case_match; try done; by eexists.
Qed.
End ha_endpoints.

(** ** Concrete instances *)

(** A concrete address parser for the witnesses: it knows two addresses. *)
Definition wh_parse (address : string) : bool := existsb (String.eqb address) ["10.0.0.10"; "10.0.0.11"].
Definition wh_r0 : Repository := mkRepository
  (emptySnapshot
     <| sn_Clusters := {[ w_cluster := zero_DatabaseCluster <| cluster_ResourceID := w_cluster |> ]} |>
     <| sn_Instances := {[
          w_owner := zero_DatabaseInstance <| inst_ResourceID := w_owner |> <| inst_ClusterID := w_cluster |>;
          w_next := zero_DatabaseInstance <| inst_ResourceID := w_next |> <| inst_ClusterID := w_cluster |> ]} |>)
  0 w_now [].
Definition wh_spec : HAEndpointSpec :=
  mkHAEndpointSpec w_cluster EndpointVIP "" " 10.0.0.10 " 3306 "eth0" 24 (EndpointProviderKindOther "") ""
    w_owner true.
Definition wh_r1 : Repository := (PutHAEndpoint wh_parse wh_parse w_endpoint w_fresh wh_spec wh_r0).1.
Definition wh_r2 : Repository := (CommitHAEndpointOwner w_cluster w_endpoint w_next true wh_r1).1.
Definition wh_x1 : HAEndpoint := default zero_HAEndpoint (HAEndpointByID w_endpoint wh_r1).
Definition wh_x2 : HAEndpoint := default zero_HAEndpoint (HAEndpointByID w_endpoint wh_r2).
Definition wh_e2 : Endpoint := default zero_Endpoint (EndpointByID w_fresh wh_r2).

Lemma wh_step1 : ha_step wh_parse wh_parse wh_r0 wh_r1.
Proof.
  exact (hstep_put wh_parse wh_parse wh_r0 wh_r1 w_endpoint w_fresh wh_spec _ ltac:(done) eq_refl
    (λ c, eq_refl) (surjective_pairing _)).
Qed.
Lemma wh_step2 : ha_step wh_parse wh_parse wh_r1 wh_r2.
Proof. exact (hstep_owner wh_parse wh_parse wh_r1 wh_r2 w_cluster w_endpoint w_next true None _ (surjective_pairing _)). Qed.

Lemma vip_exclusive_witness :
  ha_OwnerID wh_x2 = w_next ∧ ep_IPAddress wh_e2 = "10.0.0.10" ∧
  ∀ j y f, HAEndpointByID j wh_r2 = Some y → ha_Kind y = EndpointVIP →
    endpoint_at (repo_snapshot wh_r2) (ha_ClusterID y) (ha_EndpointID y) = Some f →
    ep_Active f = true → ep_IPAddress f = "10.0.0.10" → j = w_endpoint.
Proof.
  split; [by vm_compute|]. split; [by vm_compute|]. intros j y f Hy Hk Hf Ha Hip.
  refine (vip_exclusive wh_parse wh_parse wh_r0 wh_r2 j w_endpoint y wh_x2 f wh_e2 eq_refl
    (rtc_l _ _ _ _ wh_step1 (rtc_once _ _ wh_step2)) Hy _ Hk _ Hf _ Ha _ _).
  - by vm_compute.
  - by vm_compute.
  - by vm_compute.
  - by vm_compute.
  - rewrite Hip. by vm_compute.
Defined.

Lemma stale_observation_refused_witness :
  ∃ e, CommitObservedHAEndpointOwner w_cluster w_endpoint (ha_MetadataRevision wh_x1) 1 w_owner true wh_r2 =
         (wh_r2, Err e).
Proof.
  refine (stale_observation_refused wh_parse wh_parse wh_r0 wh_r1 wh_r2 w_endpoint wh_x1 wh_x2 w_cluster 1 w_owner true
    eq_refl (rtc_once _ _ wh_step1)
    (hw_owner wh_parse wh_parse wh_r1 wh_r2 w_cluster w_endpoint w_next true None _ (surjective_pairing _)) _ _ _).
  - by vm_compute.
  - by vm_compute.
  - intros H. assert (ha_OwnerID wh_x2 = ha_OwnerID wh_x1) as H2 by by rewrite H. by vm_compute in H2.
Defined.
