(* ===== verification/Interfaces.v ===== *)
(** * The interfaces between the controllers' components

    What internal/coordination and internal/endpoint ask of the metadata store,
    of the lease store and of the agents: one class per Go interface, on the
    state [W] of the world outside the component.  [Repository] keeps the
    records and the leases; its instances are at the end of the file. *)
From S2P Require Import Prelude GoStd Model Endpoint Lease Locks Gtid Repository Inventory Operations Power.
From S2P Require Import AgentProtocol HAEndpoints.

(** [adapter.ResolvedOperation] without credentials. *)
Record ResolvedOperation : Type := mkResolved {
  ro_OperationID : ResourceID; ro_AutomaticFailureIncidentAt : Time; ro_Cluster : DatabaseCluster;
  ro_Snapshot : TopologySnapshot; ro_Primary : DatabaseInstance; ro_Target : DatabaseInstance;
  ro_PlanDigest : string; ro_VerifiedIsolatedSourceID : ResourceID
}.

(** [endpoint.Inventory]. *)
Class EndpointInventory (W E : Type) := {
  inv_HAEndpoints : ResourceID → W → list HAEndpoint;
  inv_Endpoint : ResourceID → W → option Endpoint;
  inv_CommitHAEndpointOwner : ResourceID → ResourceID → ResourceID → bool → W → W * result E unit
}.
(** [endpoint.LeaseStore] with [CurrentLeaseReader]. *)
Class LeaseStore (W E : Type) := {
  ls_Acquire : LeaseRequest → W → W * result E Lease;
  ls_Validate : Lease → W → W * result E unit;
  ls_FinalizeTransition : Lease → Duration → W → W * result E Lease;
  ls_RollbackTransition : Lease → Duration → W → W * result E Lease;
  ls_Release : ResourceID → W → W * result E unit;
  ls_Current : ResourceID → ResourceID → W → W * result E Lease
}.

(** [l] is the stable lease of [owner] that the transition [t] ends in. *)
Definition settled (t : Lease) (owner : ResourceID) (l : Lease) : Prop :=
  lease_ResourceID l = lease_ResourceID t ∧ lease_ClusterID l = lease_ClusterID t ∧
  lease_HAEndpointID l = lease_HAEndpointID t ∧ lease_OperationID l = lease_HAEndpointID t ∧
  lease_OwnerID l = owner ∧ lease_PreviousOwnerID l = "".
(** What a lease store promises: [lease_at w c e o] says that [o] is the lease in
    force for the endpoint [e] of the cluster [c].  A first lease needs an unused ID. *)
Class LeaseStoreLaws (W E : Type) `{!LeaseStore W E} := {
  leases_ok : W → Prop;
  unused_id : W → Prop;
  lease_at : W → ResourceID → ResourceID → option Lease → Prop;
  acquire_law request w w' (r : result E Lease) : leases_ok w → req_RenewOnly request = true ∨ unused_id w →
    ls_Acquire request w = (w', r) →
    leases_ok w' ∧ ∀ l, r = Ok l → lease_for request l ∧ lease_at w' (lease_ClusterID l) (lease_HAEndpointID l) (Some l);
  finalize_law t ttl w w' (r : result E Lease) : leases_ok w → ls_FinalizeTransition t ttl w = (w', r) →
    leases_ok w' ∧ ∀ l, r = Ok l →
      settled t (lease_OwnerID t) l ∧ lease_at w' (lease_ClusterID t) (lease_HAEndpointID t) (Some l);
  rollback_law t ttl w w' (r : result E Lease) : leases_ok w → ls_RollbackTransition t ttl w = (w', r) →
    leases_ok w' ∧ ∀ l, r = Ok l →
      settled t (lease_PreviousOwnerID t) l ∧ lease_at w' (lease_ClusterID t) (lease_HAEndpointID t) (Some l)
}.
(** [endpoint.AgentTransport]: a command to the agent of an instance. *)
Class AgentTransport (W E : Type) := {
  Send : DatabaseInstance → Request → W → W * result E Response
}.
(** [provider.now]. *)
Class Clock (W : Type) := { clock : W → Time }.

(** ** The store behind the interfaces *)

(** The environment the metadata store lives in: the authority of the
    controller, the next resource ID, and the hosts with their agents. *)
Record World (H : Type) : Type := mkWorld {
  wd_repo : Repository; wd_authorized : bool; wd_fresh : list ResourceID; wd_hosts : H
}.
Arguments mkWorld {H}. Arguments wd_repo {H}. Arguments wd_authorized {H}.
Arguments wd_fresh {H}. Arguments wd_hosts {H}.

Inductive world_error : Type :=
| ErrMetadata (e : store_error)
| ErrLease (e : lease_error store_error)
| ErrAgent.

Section world.
Context {Hosts : Type}.
Definition put_repo (r : Repository) (w : World Hosts) : World Hosts :=
  mkWorld r (wd_authorized w) (wd_fresh w) (wd_hosts w).
#[export] Instance World_clock : Clock (World Hosts) := {| clock w := repo_now (wd_repo w) |}.
#[export] Instance World_inventory : EndpointInventory (World Hosts) world_error := {|
  inv_HAEndpoints clusterID w := HAEndpoints clusterID (wd_repo w);
  inv_Endpoint id w := EndpointByID id (wd_repo w);
  inv_CommitHAEndpointOwner clusterID resourceID ownerID healthy w :=
    let '(r, res) := CommitHAEndpointOwner clusterID resourceID ownerID healthy (wd_repo w) in
    (put_repo r w, match res with Ok u => Ok u | Err e => Err (ErrMetadata e) end)
|}.
Definition lease_result {A} (res : result (lease_error store_error) A) : result world_error A :=
  match res with Ok a => Ok a | Err e => Err (ErrLease e) end.
#[export] Instance World_leases : LeaseStore (World Hosts) world_error := {|
  ls_Acquire request w :=
    let '(r, res) := Lease.Acquire (wd_authorized w) (repo_now (wd_repo w)) (hd "" (wd_fresh w)) request (wd_repo w) in
    (mkWorld r (wd_authorized w) (tail (wd_fresh w)) (wd_hosts w), lease_result res);
  ls_Validate lease w :=
    (w, lease_result (Lease.Validate (wd_authorized w) (repo_now (wd_repo w)) lease (wd_repo w)));
  ls_FinalizeTransition transition ttl w :=
    let '(r, res) := Lease.FinalizeTransition (wd_authorized w) (repo_now (wd_repo w)) transition ttl (wd_repo w) in
    (put_repo r w, lease_result res);
  ls_RollbackTransition transition ttl w :=
    let '(r, res) := Lease.RollbackTransition (wd_authorized w) (repo_now (wd_repo w)) transition ttl (wd_repo w) in
    (put_repo r w, lease_result res);
  ls_Release id w :=
    let '(r, res) := Lease.Release (wd_authorized w) id (wd_repo w) in
    (put_repo r w, lease_result res);
  ls_Current clusterID endpointID w :=
    (w, lease_result (Lease.Current (wd_authorized w) (repo_now (wd_repo w)) clusterID endpointID (wd_repo w)))
|}.

Definition world_leases (w : World Hosts) : Prop := lease_inv (repo_now (wd_repo w), wd_repo w).
Definition world_unused (w : World Hosts) : Prop := lease_view (wd_repo w) !! hd "" (wd_fresh w) = None.
Definition world_lease_at (w : World Hosts) (c e : ResourceID) (o : option Lease) : Prop :=
  held (repo_now (wd_repo w)) (lease_view (wd_repo w)) (c, e) o.

(** The clock is not a matter of the lease store. *)
Definition same_now (r r' : Repository) : Prop := repo_now r' = repo_now r.
#[export] Instance same_now_preorder : PreOrder same_now.
Proof. split; [done|]. intros a b c. unfold same_now. congruence. Qed.
Lemma commit_now value r : same_now r (commit value r).1.
Proof. destruct (commit value r) as [r' res] eqn:Hc. by apply commit_spec in Hc as [Hn _]. Qed.
Lemma put_now record r : same_now r (Lease.PutCoordinationLease record r).1.
Proof. cbn. unfold Repository.PutCoordinationLease. repeat (case_match; [done|]). apply commit_now. Qed.
Lemma delete_now id r : same_now r (Lease.DeleteCoordinationLease id r).1.
Proof. cbn. unfold Repository.DeleteCoordinationLease. repeat (case_match; [done|]). apply commit_now. Qed.

Lemma world_step (w : World Hosts) r' fresh : world_leases w → lease_step (repo_now (wd_repo w), wd_repo w) (repo_now (wd_repo w), r') →
  same_now (wd_repo w) r' → world_leases (mkWorld r' (wd_authorized w) fresh (wd_hosts w)).
Proof. unfold world_leases, same_now. cbn. intros Hw Hs ->. by eapply lease_step_inv. Qed.
Lemma world_acquire request (w w' : World Hosts) r : world_leases w → req_RenewOnly request = true ∨ world_unused w →
  ls_Acquire request w = (w', r) →
  world_leases w' ∧ ∀ l, r = Ok l → lease_for request l ∧ world_lease_at w' (lease_ClusterID l) (lease_HAEndpointID l) (Some l).
Proof.
  intros Hw Hf H. assert (∃ id, lease_view (wd_repo w) !! id = None ∧ Lease.Acquire (wd_authorized w) (repo_now (wd_repo w))
    (hd "" (wd_fresh w)) request (wd_repo w) = Lease.Acquire (wd_authorized w) (repo_now (wd_repo w)) id request (wd_repo w))
    as (id & Hid & Heq).
  { destruct Hf as [Hr|Hu]; [|by eexists]. exists (fresh (dom (lease_view (wd_repo w)))).
    split; [apply not_elem_of_dom, is_fresh|by apply renew_only_fresh]. }
  cbn in H. rewrite Heq in H. pose proof (step_acquire (wd_authorized w) (repo_now (wd_repo w)) id request (wd_repo w) Hid) as Hs.
  pose proof (Acquire_moves same_now put_now delete_now (wd_authorized w) (repo_now (wd_repo w)) id request (wd_repo w)) as Hn.
  destruct (Lease.Acquire _ _ id request _) as [r1 res] eqn:Ha. injection H as <- <-. unfold same_now in Hn. cbn [fst] in Hn, Hs.
  split; [by apply (world_step w)|]. intros l Hl. destruct res as [l'|]; [|done]. injection Hl as ->.
  unfold world_lease_at. cbn. rewrite Hn.
  unfold Lease.Acquire in Ha. destruct (wd_authorized w) eqn:Hau; [|done]. destruct (request_valid request) eqn:Hv; [|done].
  destruct Hw as [Hok Huq]. destruct (held_exists (repo_now (wd_repo w)) (lease_view (wd_repo w)) (request_scope request)) as [cur Hcur].
  destruct (acquire_installs (repo_now (wd_repo w)) id request (wd_repo w) r1 (Ok l) cur) as (_ & _ & _ & Hi); try done.
  { unfold Lease.Acquire. by rewrite Hv. }
  destruct (Lease.acquire_spec (repo_now (wd_repo w)) id (request <| req_TTL ::= capTTL |>) cur) as [l'|] eqn:Hspec; [|done]. destruct Hi as [-> Hh].
  apply acquire_spec_for in Hspec as Hfor.
  2: { intros l0 ->. by destruct Hcur as (? & ? & _ & _ & Hsc & <-). }
  split; [done|]. destruct Hfor as [Hsc _]. unfold request_scope in Hsc, Hh. cbn in Hsc. by rewrite Hsc.
Qed.

Lemma ready_settles now ttl c t : transition_ready now c t = true →
  settled t (lease_OwnerID t) (finalized now ttl c) ∧ settled t (lease_PreviousOwnerID t) (rolled_back now ttl c) ∧
  lease_ClusterID c = lease_ClusterID t ∧ lease_HAEndpointID c = lease_HAEndpointID t.
Proof.
  unfold transition_ready. intros Hr. apply andb_true_iff in Hr as [[_ Hs]%andb_true_iff _].
  apply SameLeaseIdentity_spec in Hs as ->. by split_and!.
Qed.
Lemma world_settle (commit : bool) t ttl (w w' : World Hosts) r : world_leases w →
  (if commit then ls_FinalizeTransition t ttl w else ls_RollbackTransition t ttl w) = (w', r) →
  world_leases w' ∧ ∀ l, r = Ok l → settled t (if commit then lease_OwnerID t else lease_PreviousOwnerID t) l ∧
    world_lease_at w' (lease_ClusterID t) (lease_HAEndpointID t) (Some l).
Proof.
  intros [Hok Hu] H. cbn in Hok, Hu. set (now := repo_now (wd_repo w)) in *.
  assert (same_now (wd_repo w) (wd_repo w')) as Hn.
  { destruct commit; cbn in H; unfold FinalizeTransition, RollbackTransition in H; destruct (wd_authorized w); cbn in H;
      try (by injection H as <- <-);
      match type of H with context [end_transition ?a ?b ?c ?d ?e] =>
        pose proof (end_transition_moves same_now put_now a b c d e) as Hm; destruct (end_transition a b c d e) end;
      by injection H as <- <-. }
  destruct (wd_authorized w) eqn:Ha.
  2: { destruct commit; cbn in H; rewrite Ha in H; cbn in H; injection H as <- <-; by split. }
  destruct commit; cbn in H; rewrite Ha in H;
    [destruct (FinalizeTransition _ _ _ _ _) as [r1 res] eqn:Hf|destruct (RollbackTransition _ _ _ _ _) as [r1 res] eqn:Hf];
    injection H as <- <-; cbn in Hn; unfold world_leases, world_lease_at; cbn; rewrite Hn; fold now.
  - apply finalize_spec in Hf as [[-> ->]|(c & Hr & Hc & Ho & Hu' & Hoth & Hi)]; [by split| |done|done].
    split; [by split|]. intros l Hl. destruct res as [l'|]; [|done]. injection Hl as ->. destruct Hi as [-> Hh].
    apply (ready_settles _ ttl) in Hr as (Hs1 & Hs2 & <- & <-). by split.
  - apply rollback_spec in Hf as [[-> ->]|(c & Hr & Hp & Hc & Ho & Hu' & Hoth & Hi)]; [by split| |done|done].
    split; [by split|]. intros l Hl. destruct res as [l'|]; [|done]. injection Hl as ->. destruct Hi as [-> Hh].
    apply (ready_settles _ ttl) in Hr as (Hs1 & Hs2 & <- & <-). by split.
Qed.
#[export] Instance World_lease_laws : LeaseStoreLaws (World Hosts) world_error := {
  leases_ok := world_leases; unused_id := world_unused; lease_at := world_lease_at;
  acquire_law := world_acquire;
  finalize_law := world_settle true; rollback_law := world_settle false
}.
End world.

Lemma no_leases_ok H authorized fresh (hosts : H) r : repo_leases r = ∅ → repo_locks r = ∅ →
  leases_ok (mkWorld r authorized fresh hosts).
Proof.
  intros Hl Hk. unfold repo_leases, repo_locks in *. split.
  - split; intros id x; cbn; [rewrite Hl|rewrite Hk]; by rewrite lookup_empty.
  - intros i j r1 r2. cbn. unfold repo_leases. rewrite Hl. by rewrite lookup_empty.
Qed.
