(* ===== verification/LinuxVIP.v ===== *)
(** * internal/endpoint/linux_vip.go: moving the writer VIP

    The provider observes which instances own the VIP through their agents and
    moves it from the source of an operation to its target.  It reaches the
    metadata store, the lease store and the agents through [Interfaces].  The
    probes of one observation run concurrently in the code; a status command
    changes nothing, so their order here is the order of the instances.
    The authorizations with their renewal goroutines are in [Transition].
    Checks are given by their status. *)
From S2P Require Import Prelude GoStd Model Endpoint Lease Locks Gtid Repository Inventory Operations Power.
From S2P Require Import AgentProtocol HAEndpoints Interfaces.

Record endpointResource : Type := mkEndpointResource { er_resource : HAEndpoint; er_endpoint : Endpoint }.
Record OwnershipObservation : Type := mkObservation {
  oo_HAEndpointID : ResourceID; oo_HAEndpointRevision : uint64; oo_EndpointRevision : uint64;
  oo_CanonicalOwnerID : ResourceID; oo_EndpointOwnerID : ResourceID; oo_OwnerIDs : list ResourceID;
  oo_ObservedInstanceIDs : list ResourceID; oo_Complete : bool
}.

Inductive vip_error (E : Type) : Type :=
| ErrUnconfigured | ErrScope | ErrActiveVIP | ErrProviderKind | ErrIncompleteVIP | ErrBlocked
| ErrUnsafeBefore | ErrZeroOwners | ErrTargetOnly | ErrMetadataOwner | ErrSkipped | ErrStatus
| ErrCanonicalOwner | ErrStableLease | ErrEnv (e : E).
Arguments ErrUnconfigured {E}. Arguments ErrScope {E}. Arguments ErrActiveVIP {E}. Arguments ErrProviderKind {E}.
Arguments ErrIncompleteVIP {E}. Arguments ErrBlocked {E}. Arguments ErrUnsafeBefore {E}. Arguments ErrZeroOwners {E}.
Arguments ErrTargetOnly {E}. Arguments ErrMetadataOwner {E}. Arguments ErrSkipped {E}. Arguments ErrStatus {E}.
Arguments ErrCanonicalOwner {E}. Arguments ErrStableLease {E}. Arguments ErrEnv {E}.

(** What the agent of an instance said about the VIP. *)
Record ownerObservation (E : Type) : Type := mkOwner {
  obs_instance : DatabaseInstance; obs_owns : bool; obs_err : option (vip_error E)
}.
Arguments mkOwner {E}. Arguments obs_instance {E}. Arguments obs_owns {E}. Arguments obs_err {E}.

Section linux_vip.
Context {W E : Type} `{!EndpointInventory W E, !LeaseStore W E, !AgentTransport W E, !Clock W}.
Variables (mac : string → Request → string) (secret : string) (configured : bool) (transitionLeaseTTL : Duration).
Implicit Types (w : W) (resolved : ResolvedOperation) (resource : endpointResource).

Definition env_result {A} (p : W * result E A) : W * result (vip_error E) A :=
  let '(w, r) := p in (w, match r with Ok a => Ok a | Err e => Err (ErrEnv e) end).

Definition Executable : bool := configured && (TrimSpace secret != "").

(** ** The VIP of a cluster *)

Definition active_vip (resource : HAEndpoint) w : bool :=
  match inv_Endpoint (ha_EndpointID resource) w with
  | Some endpoint => (ha_Kind resource == EndpointVIP) && (ep_Kind endpoint == EndpointVIP) && ep_Active endpoint
  | None => false
  end.
Definition linux_provider (kind : EndpointProviderKind) : bool :=
  (kind == EndpointProviderLinuxVIP) || (kind == EndpointProviderKindOther "").
Definition resource_of (clusterID : ResourceID) w : result (vip_error E) endpointResource :=
  match List.filter (λ x, active_vip x w) (inv_HAEndpoints clusterID w) with
  | [active] =>
      if negb (linux_provider (ha_Provider active)) then Err ErrProviderKind
      else match inv_Endpoint (ha_EndpointID active) w with
      | None => Err ErrIncompleteVIP
      | Some endpoint =>
          if (TrimSpace (ep_IPAddress endpoint) == "") || (TrimSpace (ha_Interface active) == "") ||
             (ha_Prefix active <? 1) || (32 <? ha_Prefix active) then Err ErrIncompleteVIP
          else Ok (mkEndpointResource active endpoint)
      end
  | _ => Err ErrActiveVIP
  end.

(** ** Observation *)

Definition signedRequest resolved resource (command : string) (leaseID : ResourceID) w : Request :=
  let digest := TrimSpace (ro_PlanDigest resolved) in
  let digest := if digest == "" then "sha256:precheck:" +:+ ro_OperationID resolved else digest in
  let request := zero_Request <| cmd_Command := command |>
    <| cmd_ClusterID := cluster_ResourceID (ro_Cluster resolved) |>
    <| cmd_OperationID := ro_OperationID resolved |> <| cmd_LeaseID := leaseID |> <| cmd_PlanDigest := digest |>
    <| cmd_ExpiresAt := Add (clock w) (30 * Second) |> <| cmd_Engine := cluster_Engine (ro_Cluster resolved) |>
    <| cmd_VIP := ep_IPAddress (er_endpoint resource) |> <| cmd_Interface := ha_Interface (er_resource resource) |>
    <| cmd_Prefix := ha_Prefix (er_resource resource) |> in
  request <| cmd_Signature := SignRequest mac request secret |>.

Definition observe_one resolved resource (skip : ResourceID) (instance : DatabaseInstance) w
  : W * ownerObservation E :=
  if ValidResourceID skip && (inst_ResourceID instance == skip) then (w, mkOwner instance false (Some ErrSkipped))
  else
    let '(w, response) := Send instance (signedRequest resolved resource CommandVIPStatus "" w) w in
    (w, match response with
        | Err e => mkOwner instance false (Some (ErrEnv e))
        | Ok response =>
            match resp_OwnsVIP response with
            | Some owns =>
                if resp_Status response != StatusOK then mkOwner instance false (Some ErrStatus)
                else mkOwner instance owns None
            | None => mkOwner instance false (Some ErrStatus)
            end
        end).
Fixpoint observe_all resolved resource (skip : ResourceID) (instances : list DatabaseInstance) w
  : W * list (ownerObservation E) :=
  match instances with
  | [] => (w, [])
  | instance :: instances =>
      let '(w, observation) := observe_one resolved resource skip instance w in
      let '(w, observations) := observe_all resolved resource skip instances w in
      (w, observation :: observations)
  end.
Definition observeWithSkip resolved resource (skip : ResourceID) w : W * list (ownerObservation E) :=
  observe_all resolved resource skip (topo_Instances (ro_Snapshot resolved)) w.
Definition observe resolved resource w := observeWithSkip resolved resource "" w.

(** The verified isolated source may be skipped when it is the source of the operation. *)
Definition skipped_source resolved : ResourceID :=
  let verified := ro_VerifiedIsolatedSourceID resolved in
  if (verified != inst_ResourceID (ro_Primary resolved)) || (verified == inst_ResourceID (ro_Target resolved))
  then "" else verified.
Definition observeTransition resolved resource w := observeWithSkip resolved resource (skipped_source resolved) w.

Definition answered (observation : ownerObservation E) : bool :=
  match obs_err observation with None => true | Some _ => false end.
Definition obs_id (observation : ownerObservation E) : ResourceID := inst_ResourceID (obs_instance observation).
(** Owners, observed instances, and whether every instance answered. *)
Definition observationCoverage (observations : list (ownerObservation E)) : list ResourceID * list ResourceID * bool :=
  (obs_id <$> List.filter (λ o, answered o && obs_owns o) observations,
   obs_id <$> List.filter answered observations,
   Nat.ltb 0 (length observations) && forallb answered observations).
Definition observationSummary (observations : list (ownerObservation E)) : list ResourceID * bool :=
  let '(owners, _, complete) := observationCoverage observations in (owners, complete).
Definition allowed_gap resolved (observation : ownerObservation E) : bool :=
  let verified := ro_VerifiedIsolatedSourceID resolved in
  ValidResourceID verified && (verified == inst_ResourceID (ro_Primary resolved)) &&
  (inst_ResourceID (ro_Primary resolved) != inst_ResourceID (ro_Target resolved)) &&
  (obs_id observation == verified).
Definition transitionObservationSummary resolved (observations : list (ownerObservation E)) : list ResourceID * bool :=
  (obs_id <$> List.filter (λ o, answered o && obs_owns o) observations,
   Nat.ltb 0 (length observations) && forallb (λ o, answered o || allowed_gap resolved o) observations).

Definition ObserveOwnership (cluster : DatabaseCluster) (snapshot : TopologySnapshot) w
  : W * result (vip_error E) OwnershipObservation :=
  if negb Executable then (w, Err ErrUnconfigured)
  else if (cluster_ResourceID cluster == "") || (topo_ClusterID snapshot != cluster_ResourceID cluster)
  then (w, Err ErrScope)
  else match resource_of (cluster_ResourceID cluster) w with
  | Err e => (w, Err e)
  | Ok resource =>
      let id := ha_ResourceID (er_resource resource) in
      let resolved := mkResolved id zero_time cluster snapshot zero_DatabaseInstance zero_DatabaseInstance
                        ("sha256:ownership:" +:+ id) "" in
      let '(w, observations) := observe resolved resource w in
      let '(owners, observed, complete) := observationCoverage observations in
      (w, Ok (mkObservation id (ha_MetadataRevision (er_resource resource))
                (ep_MetadataRevision (er_endpoint resource)) (ha_OwnerID (er_resource resource))
                (ep_InstanceID (er_endpoint resource)) owners observed complete))
  end.

(** ** Mutation *)

Definition sendMutation resolved resource (instance : DatabaseInstance) (command : string) (lease : Lease) w
  : W * result (vip_error E) unit :=
  let '(w, valid) := ls_Validate lease w in
  match valid with
  | Err e => (w, Err (ErrEnv e))
  | Ok _ =>
      let '(w, response) := Send instance (signedRequest resolved resource command (lease_ResourceID lease) w) w in
      (w, match response with
          | Err e => Err (ErrEnv e)
          | Ok response => if resp_Status response != StatusOK then Err ErrBlocked else Ok tt
          end)
  end.

Definition transition_request resolved resource (renewOnly : bool) : LeaseRequest :=
  mkLeaseRequest (cluster_ResourceID (ro_Cluster resolved)) (ha_ResourceID (er_resource resource))
    (ro_OperationID resolved) (inst_ResourceID (ro_Target resolved)) (inst_ResourceID (ro_Primary resolved))
    (if transitionLeaseTTL <=? 0 then 30 * Second else transitionLeaseTTL) renewOnly.
Definition acquireTransitionLease resolved resource w : W * result (vip_error E) Lease :=
  env_result (ls_Acquire (transition_request resolved resource false) w).

(** The loop that releases every other owner; whether one was released. *)
Fixpoint release_owners resolved resource (lease : Lease) (released : bool)
    (observations : list (ownerObservation E)) w : W * result (vip_error E) bool :=
  match observations with
  | [] => (w, Ok released)
  | observation :: observations =>
      if obs_owns observation && (obs_id observation != inst_ResourceID (ro_Target resolved)) then
        let '(w, r) := sendMutation resolved resource (obs_instance observation) CommandVIPRelease lease w in
        match r with
        | Err e => (w, Err e)
        | Ok _ => release_owners resolved resource lease true observations w
        end
      else release_owners resolved resource lease released observations w
  end.

(** Nobody but the target owns the VIP any more, and the target acquires it. *)
Definition move_to_target resolved resource (lease : Lease) (observations : list (ownerObservation E)) w
  : W * result (vip_error E) unit :=
  let acquire w := sendMutation resolved resource (ro_Target resolved) CommandVIPAcquire lease w in
  let '(w, released) := release_owners resolved resource lease false observations w in
  match released with
  | Err e => (w, Err e)
  | Ok false => acquire w
  | Ok true =>
      let '(w, observations) := observeTransition resolved resource w in
      let '(owners, complete) := transitionObservationSummary resolved observations in
      if negb complete || negb (bool_decide (owners = [])) then (w, Err ErrZeroOwners) else acquire w
  end.

Definition owned_by_target resolved (owners : list ResourceID) : bool :=
  bool_decide (owners = [inst_ResourceID (ro_Target resolved)]).
Definition Transfer resolved w : W * result (vip_error E) unit :=
  match resource_of (cluster_ResourceID (ro_Cluster resolved)) w with
  | Err e => (w, Err e)
  | Ok resource =>
      let '(w, acquired) := acquireTransitionLease resolved resource w in
      match acquired with
      | Err e => (w, Err e)
      | Ok lease =>
          let '(w, observations) := observeTransition resolved resource w in
          let '(owners, complete) := transitionObservationSummary resolved observations in
          if negb complete || Nat.ltb 1 (length owners) then (w, Err ErrUnsafeBefore)
          else
            let '(w, moved) :=
              if owned_by_target resolved owners then (w, Ok tt)
              else move_to_target resolved resource lease observations w in
            match moved with
            | Err e => (w, Err e)
            | Ok _ =>
                let '(w, observations) := observeTransition resolved resource w in
                let '(owners, complete) := transitionObservationSummary resolved observations in
                if negb complete || negb (owned_by_target resolved owners) then (w, Err ErrTargetOnly)
                else
                  let '(w, committed) := env_result (inv_CommitHAEndpointOwner
                    (cluster_ResourceID (ro_Cluster resolved)) (ha_ResourceID (er_resource resource))
                    (inst_ResourceID (ro_Target resolved)) true w) in
                  match committed with
                  | Err e => (w, Err e)
                  | Ok _ =>
                      match resource_of (cluster_ResourceID (ro_Cluster resolved)) w with
                      | Err _ => (w, Err ErrMetadataOwner)
                      | Ok committed =>
                          if (ha_OwnerID (er_resource committed) != inst_ResourceID (ro_Target resolved)) ||
                             (ep_InstanceID (er_endpoint committed) != inst_ResourceID (ro_Target resolved))
                          then (w, Err ErrMetadataOwner) else (w, Ok tt)
                      end
                  end
            end
      end
  end.

(** ** Checks *)

Definition Verify resolved w : W * CheckStatus :=
  match resource_of (cluster_ResourceID (ro_Cluster resolved)) w with
  | Err _ => (w, CheckFail)
  | Ok resource =>
      let '(w, observations) := observeTransition resolved resource w in
      let '(owners, complete) := transitionObservationSummary resolved observations in
      (w, if negb complete || negb (owned_by_target resolved owners) ||
             (ha_OwnerID (er_resource resource) != inst_ResourceID (ro_Target resolved)) ||
             (ep_InstanceID (er_endpoint resource) != inst_ResourceID (ro_Target resolved))
          then CheckFail else CheckPass)
  end.
Definition Precheck resolved w : W * CheckStatus :=
  if negb Executable then (w, CheckFail)
  else match resource_of (cluster_ResourceID (ro_Cluster resolved)) w with
  | Err _ => (w, CheckFail)
  | Ok resource =>
      let '(w, observations) := observe resolved resource w in
      let '(owners, complete) := observationSummary observations in
      (w, if negb complete || negb (bool_decide (owners = [inst_ResourceID (ro_Primary resolved)]))
          then CheckFail else CheckPass)
  end.

(** The lease of an endpoint is the stable lease of the operation's primary. *)
Definition stable_for_primary resolved resource (lease : Lease) : bool :=
  (lease_OperationID lease == ha_ResourceID (er_resource resource)) &&
  (lease_OwnerID lease == inst_ResourceID (ro_Primary resolved)) && (lease_PreviousOwnerID lease == "").
Definition owned_by_primary resolved resource : bool :=
  (ha_OwnerID (er_resource resource) == inst_ResourceID (ro_Primary resolved)) &&
  (ep_InstanceID (er_endpoint resource) == inst_ResourceID (ro_Primary resolved)).

(** Instances by ID; [None] on an invalid or repeated ID. *)
Definition by_id (m : option (gmap ResourceID (ownerObservation E))) (o : ownerObservation E)
  : option (gmap ResourceID (ownerObservation E)) :=
  m ← m;
  if negb (ValidResourceID (obs_id o)) || bool_decide (is_Some (m !! obs_id o)) then None else Some (<[obs_id o := o]> m).
Definition FormerPrimaryPrecheck resolved w : W * CheckStatus :=
  let primary := inst_ResourceID (ro_Primary resolved) in
  let former := inst_ResourceID (ro_Target resolved) in
  if negb Executable || negb (ValidResourceID primary) || negb (ValidResourceID former) || (primary == former)
  then (w, CheckFail)
  else match resource_of (cluster_ResourceID (ro_Cluster resolved)) w with
  | Err _ => (w, CheckFail)
  | Ok resource =>
      if negb (owned_by_primary resolved resource) then (w, CheckFail)
      else
        let '(w, observations) := observeTransition resolved resource w in
        let '(owners, observed, _) := observationCoverage observations in
        match foldl by_id (Some ∅) observations with
        | None => (w, CheckFail)
        | Some m =>
            match m !! primary, m !! former with
            | Some p, Some f =>
                if negb (answered p) || negb (answered f) || negb (obs_owns p) || obs_owns f ||
                   negb (bool_decide (owners = [primary])) ||
                   Nat.leb (length observed) (length (topo_Instances (ro_Snapshot resolved)) / 2) then (w, CheckFail)
                else
                  let '(w, current) := ls_Current (cluster_ResourceID (ro_Cluster resolved))
                                         (ha_ResourceID (er_resource resource)) w in
                  match current with
                  | Err _ => (w, CheckFail)
                  | Ok lease =>
                      if negb (stable_for_primary resolved resource lease) then (w, CheckFail)
                      else
                        let '(w, valid) := ls_Validate lease w in
                        (w, match valid with Ok _ => CheckPass | Err _ => CheckFail end)
                  end
            | _, _ => (w, CheckFail)
            end
        end
  end.

End linux_vip.

(** What sending a command preserves, an observation preserves. *)
Section moves.
Context {W E : Type} `{!EndpointInventory W E, !AgentTransport W E, !Clock W} (R : W → W → Prop) `{!PreOrder R}.
Hypothesis send_moves : ∀ i request w, R w (Send i request w).1.
Variables (mac : string → Request → string) (secret : string).
Lemma observe_all_moves resolved resource skip instances w : R w (observe_all mac secret resolved resource skip instances w).1.
Proof using All.
  revert w. induction instances as [|i instances IH]; intros w; cbn; [done|]. unfold observe_one.
  destruct (_ && _).
  - pose proof (IH w) as Hw. by destruct (observe_all _ _ _ _ _ _ w).
  - match goal with |- context [Send i ?q w] => pose proof (send_moves i q w) as Hs; destruct (Send i q w) as [w1 r] end.
    pose proof (IH w1) as Hw. destruct (observe_all _ _ _ _ _ _ w1). cbn in *. by trans w1.
Qed.
Lemma ObserveOwnership_moves configured cluster snapshot w : R w (ObserveOwnership mac secret configured cluster snapshot w).1.
Proof using All.
  unfold ObserveOwnership. destruct (negb _); [done|]. destruct (_ || _); [done|]. destruct (resource_of _ w); [|done].
  unfold observe, observeWithSkip.
  match goal with |- context [observe_all ?a ?b ?c ?d ?e ?f ?g] => pose proof (observe_all_moves c d e f g) as Hm; destruct (observe_all a b c d e f g) end.
  by destruct (observationCoverage _) as [[? ?] ?].
Qed.
End moves.

(** ** What the agents promise *)

(** [owners] are the instances that have the VIP, [history] the owners after
    every command any agent has been sent.  A command that fails may have done
    its work. *)
Class AgentLaws {W E} `{!EndpointInventory W E, !LeaseStore W E, !AgentTransport W E}
    (owners : W → gset ResourceID) (history : W → list (gset ResourceID)) : Prop := {
  law_history : ∀ i request w w' (r : result E Response), Send i request w = (w', r) →
    history w' = history w ++ [owners w'];
  law_status : ∀ i request w w' (r : result E Response), Send i request w = (w', r) → cmd_Command request = CommandVIPStatus →
    owners w' = owners w ∧
    ∀ response owns, r = Ok response → resp_Status response = StatusOK → resp_OwnsVIP response = Some owns →
      owns = bool_decide (inst_ResourceID i ∈ owners w);
  law_release : ∀ i request w w' (r : result E Response), Send i request w = (w', r) → cmd_Command request = CommandVIPRelease →
    owners w' ⊆ owners w;
  law_acquire : ∀ i request w w' (r : result E Response), Send i request w = (w', r) → cmd_Command request = CommandVIPAcquire →
    owners w' ⊆ {[inst_ResourceID i]} ∪ owners w;
  law_leases : ∀ request w w' (r : result E Lease), ls_Acquire request w = (w', r) →
    owners w' = owners w ∧ history w' = history w;
  law_validate : ∀ lease w w' (r : result E unit), ls_Validate lease w = (w', r) →
    owners w' = owners w ∧ history w' = history w;
  law_commit : ∀ a b c d w w' (r : result E unit), inv_CommitHAEndpointOwner a b c d w = (w', r) →
    owners w' = owners w ∧ history w' = history w
}.

Section proofs.
Context {W E : Type} `{!EndpointInventory W E, !LeaseStore W E, !AgentTransport W E, !Clock W}.
Context (owners : W → gset ResourceID) (history : W → list (gset ResourceID)) {laws : AgentLaws owners history}.
Variables (mac : string → Request → string) (secret : string) (transitionLeaseTTL : Duration).
Implicit Types (w : W) (resolved : ResolvedOperation) (resource : endpointResource).

(** The world went through states that all satisfy [P]. *)
Definition evolves (P : gset ResourceID → Prop) w w' : Prop :=
  ∃ states, history w' = history w ++ states ∧ Forall P states.
Lemma evolves_refl P w w' : history w' = history w → evolves P w w'.
Proof. intros Hh. exists []. by rewrite Hh, app_nil_r. Qed.
Lemma evolves_trans P w1 w2 w3 : evolves P w1 w2 → evolves P w2 w3 → evolves P w1 w3.
Proof. intros (s1 & Hh1 & H1) (s2 & Hh2 & H2). exists (s1 ++ s2). by rewrite Hh2, Hh1, app_assoc, Forall_app. Qed.
Lemma evolves_mono (P Q : gset ResourceID → Prop) w w' : (∀ s, P s → Q s) → evolves P w w' → evolves Q w w'.
Proof. intros HPQ (states & Hh & HP). exists states. eauto using Forall_impl. Qed.
Lemma evolves_send (P : gset ResourceID → Prop) i request w w' (r : result E Response) :
  Send i request w = (w', r) → P (owners w') → evolves P w w'.
Proof. intros Hs HP. exists [owners w']. split; [by eapply law_history|by constructor]. Qed.

(** An observation changes nothing and an answer is the truth. *)
Definition truthful w (observation : ownerObservation E) : Prop :=
  answered observation = true → obs_owns observation = bool_decide (obs_id observation ∈ owners w).

Lemma observe_one_spec resolved resource skip instance w w' observation :
  observe_one mac secret resolved resource skip instance w = (w', observation) →
  owners w' = owners w ∧ evolves (.= owners w) w w' ∧ obs_instance observation = instance ∧ truthful w observation ∧
  (answered observation = false → obs_owns observation = false) ∧
  (ValidResourceID skip = true → inst_ResourceID instance = skip → answered observation = false).
Proof.
  unfold observe_one. destruct (ValidResourceID skip && _) eqn:Hskip.
  { intros [= <- <-]. split_and!; try done. by apply evolves_refl. }
  destruct (Send instance _ w) as [w1 r] eqn:Hs. pose proof (law_status _ _ _ _ _ Hs eq_refl) as [Ho Htrue].
  intros [= <- <-]. split; [done|]. split; [eapply evolves_send; [exact Hs|exact Ho]|].
  assert (ValidResourceID skip = true → inst_ResourceID instance = skip → False) as Hns.
  { intros Hv Hi. rewrite Hv, Hi in Hskip. cbn in Hskip. by rewrite bool_decide_true in Hskip. }
  destruct r as [response|e]; [|split_and!; try done; intros; exfalso; auto].
  destruct (resp_OwnsVIP response) as [owns|] eqn:Hown; [|split_and!; try done; intros; exfalso; auto].
  destruct (bool_decide_reflect (resp_Status response = StatusOK)) as [Hok|Hok]; cbn [negb];
    split_and!; try done; try (intros; exfalso; auto; done). intros _. by eapply Htrue.
Qed.

Lemma observe_all_spec resolved resource skip instances w w' observations :
  observe_all mac secret resolved resource skip instances w = (w', observations) →
  owners w' = owners w ∧ evolves (.= owners w) w w' ∧ obs_instance <$> observations = instances ∧
  Forall (truthful w) observations ∧
  Forall (λ o, answered o = false → obs_owns o = false) observations.
Proof.
  revert w w' observations. induction instances as [|i instances IH]; intros w w' obs; cbn.
  { intros [= <- <-]. split_and!; try done. by apply evolves_refl. }
  destruct (observe_one _ _ _ _ _ i w) as [w1 o] eqn:H1. destruct (observe_all _ _ _ _ _ instances w1) as [w2 os] eqn:H2.
  intros [= <- <-]. apply observe_one_spec in H1 as (Ho1 & He1 & Hi1 & Ht1 & Hf1 & _).
  apply IH in H2 as (Ho2 & He2 & Hi2 & Ht2 & Hf2). rewrite Ho1 in *. split_and!.
  - done.
  - eapply evolves_trans; [done|]. eapply evolves_mono; [|exact He2]. done.
  - cbn. congruence.
  - constructor; [done|]. eapply Forall_impl; [exact Ht2|]. unfold truthful. by rewrite Ho1.
  - by constructor.
Qed.

(** The instances whose ownership an operation must know: all but the verified
    isolated source. *)
Definition known resolved : gset ResourceID :=
  list_to_set (inst_ResourceID <$> topo_Instances (ro_Snapshot resolved)) ∖ {[skipped_source resolved]}.
Notation target resolved := (inst_ResourceID (ro_Target resolved)).

Lemma gap_skipped resolved (o : ownerObservation E) : allowed_gap resolved o = true → obs_id o = skipped_source resolved.
Proof.
  unfold allowed_gap, skipped_source. intros Hg. bsimpl.
  repeat match goal with H : _ = _ |- _ => rewrite H in * end.
  rewrite !bool_decide_true, (bool_decide_false (_ = inst_ResourceID (ro_Target resolved))) by congruence. cbn. congruence.
Qed.

Lemma observeTransition_spec resolved resource w w' observations owned complete :
  observeTransition mac secret resolved resource w = (w', observations) →
  transitionObservationSummary resolved observations = (owned, complete) →
  owners w' = owners w ∧ evolves (.= owners w) w w' ∧
  (∀ o, o ∈ observations → obs_owns o = true → obs_id o ∈ owners w ∧ obs_id o ∈ owned) ∧
  (∀ i, i ∈ owned → i ∈ owners w) ∧
  (complete = true → ∀ i, i ∈ owners w → i ∈ known resolved → i ∈ owned).
Proof.
  intros Ho Hs. apply observe_all_spec in Ho as (Hw & He & Hi & Ht & Hf). injection Hs as <- <-.
  rewrite Forall_forall in Ht, Hf. assert (∀ o, o ∈ observations → obs_owns o = true → answered o = true) as Hans.
  { intros o Hin Hown. destruct (answered o) eqn:Ha; [done|]. by rewrite Hf in Hown. }
  split; [done|]. split; [done|]. split_and!.
  - intros o Hin Hown. pose proof (Hans o Hin Hown) as Ha. split.
    + pose proof (Ht o Hin Ha) as Hx. rewrite Hown in Hx. symmetry in Hx. by apply bool_decide_eq_true_1 in Hx.
    + apply list_elem_of_fmap. exists o. split; [done|]. apply list_elem_of_In, filter_In.
      split; [by apply list_elem_of_In|]. by rewrite Ha, Hown.
  - intros i (o & -> & Hin)%list_elem_of_fmap. apply list_elem_of_In, filter_In in Hin as [Hin Hao].
    apply andb_true_iff in Hao as [Ha Hown]. pose proof (Ht o ltac:(by apply list_elem_of_In) Ha) as Hx.
    rewrite Hown in Hx. symmetry in Hx. by apply bool_decide_eq_true_1 in Hx.
  - intros [_ Hc]%andb_true_iff i Hown Hk. unfold known in Hk.
    apply elem_of_difference in Hk as [Hk Hns]. apply elem_of_list_to_set in Hk.
    rewrite <- Hi in Hk. apply list_elem_of_fmap in Hk as (x & -> & (o & -> & Hin)%list_elem_of_fmap).
    apply forallb_forall with (x := o) in Hc; [|by apply list_elem_of_In].
    apply orb_true_iff in Hc as [Ha|Hg]; [|apply gap_skipped in Hg; set_solver].
    apply list_elem_of_fmap. exists o. split; [done|]. apply list_elem_of_In, filter_In.
    split; [by apply list_elem_of_In|]. rewrite Ha. cbn. rewrite (Ht o Hin Ha). by apply bool_decide_eq_true_2.
Qed.

Lemma sendMutation_spec resolved resource i command lease w w' r :
  sendMutation mac secret resolved resource i command lease w = (w', r) →
  (command = CommandVIPRelease → owners w' ⊆ owners w ∧ evolves (.⊆ owners w) w w') ∧
  (command = CommandVIPAcquire →
     owners w' ⊆ {[inst_ResourceID i]} ∪ owners w ∧ evolves (.⊆ {[inst_ResourceID i]} ∪ owners w) w w').
Proof.
  unfold sendMutation. destruct (ls_Validate lease w) as [w1 v] eqn:Hv. apply law_validate in Hv as [Ho Hh].
  destruct v; [|intros [= <- <-]; rewrite Ho; split; intros _; (split; [set_solver|by apply evolves_refl])].
  destruct (Send i _ w1) as [w2 r2] eqn:Hs. intros [= <- _].
  split; intros ->.
  - pose proof (law_release _ _ _ _ _ Hs eq_refl) as Hr. rewrite Ho in Hr. split; [done|].
    eapply evolves_trans; [by apply evolves_refl|]. by eapply evolves_send.
  - pose proof (law_acquire _ _ _ _ _ Hs eq_refl) as Hr. rewrite Ho in Hr. split; [done|].
    eapply evolves_trans; [by apply evolves_refl|]. by eapply evolves_send.
Qed.

Lemma release_owners_spec resolved resource lease released observations w w' r :
  release_owners mac secret resolved resource lease released observations w = (w', r) →
  owners w' ⊆ owners w ∧ evolves (.⊆ owners w) w w' ∧
  (r = Ok false → released = false ∧ w' = w ∧
     ∀ o, o ∈ observations → obs_owns o = true → obs_id o = target resolved).
Proof.
  revert released w. induction observations as [|o os IH]; intros released w; cbn.
  { intros [= <- <-]. split_and!; [done|by apply evolves_refl|]. intros [= ->]. split_and!; try done. set_solver. }
  destruct (obs_owns o) eqn:Hown; cbn [andb]; [|intros H].
  - destruct (bool_decide_reflect (obs_id o = target resolved)) as [Hid|Hid]; cbn [negb]; [intros H|].
    + apply IH in H as (H1 & H2 & H3). split_and!; try done. intros Hr. destruct (H3 Hr) as (? & ? & ?).
      split_and!; try done. intros o' [->|?]%elem_of_cons; auto.
    + destruct (sendMutation _ _ _ _ _ _ _ w) as [w1 r1] eqn:Hs.
      apply sendMutation_spec in Hs as [Hs _]. destruct (Hs eq_refl) as [Ho1 He1].
      destruct r1; [|intros [= <- <-]; by split_and!]. intros H. apply IH in H as (H1 & H2 & H3).
      split_and!; [set_solver|eapply evolves_trans; [done|]; eapply evolves_mono; [|done]; set_solver|].
      intros Hr. by destruct (H3 Hr).
  - apply IH in H as (H1 & H2 & H3). split_and!; try done. intros Hr. destruct (H3 Hr) as (? & ? & ?).
    split_and!; try done. intros o' [->|?]%elem_of_cons; [congruence|auto].
Qed.

(** What the states of a transfer that starts with the owners [initial] satisfy:
    nobody gained the VIP, or nobody but the target has it. *)
Definition exclusive resolved (initial states : gset ResourceID) : Prop :=
  states ⊆ initial ∨ states ∩ known resolved ⊆ {[target resolved]}.

Lemma acquire_exclusive resolved resource lease initial w w' r :
  owners w ∩ known resolved ⊆ {[target resolved]} →
  sendMutation mac secret resolved resource (ro_Target resolved) CommandVIPAcquire lease w = (w', r) →
  evolves (exclusive resolved initial) w w' ∧ exclusive resolved initial (owners w').
Proof.
  intros Hw Hs. apply sendMutation_spec in Hs as [_ Hs]. destruct (Hs eq_refl) as [Ho He].
  assert (∀ s, s ⊆ {[target resolved]} ∪ owners w → exclusive resolved initial s) as Hx by (intros s Hsub; right; set_solver).
  split; [eapply evolves_mono; [exact Hx|exact He]|apply Hx, Ho].
Qed.

Lemma move_to_target_spec resolved resource lease observations owned complete w0 w w' r :
  observeTransition mac secret resolved resource w0 = (w, observations) →
  transitionObservationSummary resolved observations = (owned, complete) →
  complete = true → owned_by_target resolved owned = false → (length owned ≤ 1)%nat →
  move_to_target mac secret resolved resource lease observations w = (w', r) →
  evolves (exclusive resolved (owners w)) w w' ∧ exclusive resolved (owners w) (owners w').
Proof.
  intros Hobs Hsum Hc Hnt Hlen. destruct (observeTransition_spec _ _ _ _ _ _ _ Hobs Hsum) as (Hw & _ & Hown & _ & Hall).
  unfold move_to_target. destruct (release_owners _ _ _ _ _ _ _ w) as [w1 released] eqn:Hrel.
  apply release_owners_spec in Hrel as (Hsub & He & Hnone).
  assert (evolves (exclusive resolved (owners w)) w w1) as He1 by (eapply evolves_mono; [|exact He]; by left).
  destruct released as [[|]|]; [| |intros [= <- <-]; by split; [|left]].
  - destruct (observeTransition _ _ _ _ w1) as [w2 obs2] eqn:Hobs2.
    destruct (transitionObservationSummary resolved obs2) as [owned2 complete2] eqn:Hsum2.
    destruct (observeTransition_spec _ _ _ _ _ _ _ Hobs2 Hsum2) as (Hw2 & He2 & _ & _ & Hall2).
    assert (evolves (exclusive resolved (owners w)) w w2) as He3.
    { eapply evolves_trans; [done|]. eapply evolves_mono; [|exact He2]. intros s ->. by left. }
    destruct complete2; cbn [negb orb]; [|intros [= <- <-]; rewrite Hw2; by split; [|left]].
    destruct (bool_decide_reflect (owned2 = [])) as [Hnil|]; cbn [negb]; [|intros [= <- <-]; rewrite Hw2; by split; [|left]].
    intros Hs. apply (acquire_exclusive _ _ _ (owners w)) in Hs as [He4 Hx]; [split; [by eapply evolves_trans|done]|].
    intros i [Hi Hk]%elem_of_intersection. rewrite Hw2 in Hi. specialize (Hall2 eq_refl i Hi Hk). rewrite Hnil in Hall2. set_solver.
  - destruct (Hnone eq_refl) as (_ & -> & Htgt). intros Hs.
    apply (acquire_exclusive _ _ _ (owners w)) in Hs as [He4 Hx]; [by split|].
    intros i [Hi Hk]%elem_of_intersection. rewrite Hw in Hi. specialize (Hall Hc i Hi Hk).
    apply elem_of_singleton. unfold transitionObservationSummary in Hsum. injection Hsum as <- _.
    apply list_elem_of_fmap in Hall as (o & -> & Hin). apply list_elem_of_In, filter_In in Hin as [Hin Hao].
    apply andb_true_iff in Hao as [_ Ho]. apply Htgt; [by apply list_elem_of_In|done].
Qed.

(** C30: A transfer never gives the VIP to a second instance: every state the
    hosts go through while [Transfer] runs, whatever the agents answer and
    wherever it stops, has no owner that was not one before, or among the
    instances it must know (all of the topology but the verified isolated
    source) no owner but the target.  When it succeeds, the target and no other
    known instance has the VIP and both metadata records name the target. *)
Theorem vip_transfer_exclusive resolved w w' r :
  Transfer mac secret transitionLeaseTTL resolved w = (w', r) →
  evolves (exclusive resolved (owners w)) w w' ∧
  (r = Ok tt →
     target resolved ∈ owners w' ∧ owners w' ∩ known resolved ⊆ {[target resolved]} ∧
     ∃ resource, resource_of (cluster_ResourceID (ro_Cluster resolved)) w' = Ok resource ∧
       ha_OwnerID (er_resource resource) = target resolved ∧ ep_InstanceID (er_endpoint resource) = target resolved).
Proof.
  unfold Transfer. destruct (resource_of _ w) as [resource|e]; [|intros [= <- <-]; split; [by apply evolves_refl|done]].
  unfold acquireTransitionLease, env_result. destruct (ls_Acquire _ w) as [w1 lease] eqn:Hl.
  apply law_leases in Hl as [Ho1 Hh1]. pose proof (evolves_refl (exclusive resolved (owners w)) _ _ Hh1) as He1.
  destruct lease as [lease|]; [|intros [= <- <-]; by split].
  destruct (observeTransition _ _ _ _ w1) as [w2 obs] eqn:Hobs.
  destruct (transitionObservationSummary resolved obs) as [owned complete] eqn:Hsum.
  destruct (observeTransition_spec _ _ _ _ _ _ _ Hobs Hsum) as (Ho2 & He2 & _).
  assert (evolves (exclusive resolved (owners w)) w w2) as He3.
  { eapply evolves_trans; [done|]. eapply evolves_mono; [|exact He2]. intros s ->. rewrite Ho1. by left. }
  destruct complete eqn:Hc; cbn [negb orb]; [|intros [= <- <-]; by split].
  destruct (Nat.ltb 1 (length owned)) eqn:Hlen; [intros [= <- <-]; by split|]. apply Nat.ltb_ge in Hlen.
  destruct (if owned_by_target resolved owned then _ else _) as [w3 moved] eqn:Hm.
  assert (evolves (exclusive resolved (owners w)) w w3 ∧ exclusive resolved (owners w) (owners w3)) as [He4 Hx].
  { destruct (owned_by_target resolved owned) eqn:Ht; [injection Hm as <- _; split; [done|left; by rewrite Ho2, Ho1]|].
    apply (move_to_target_spec _ _ _ _ _ _ _ _ _ _ Hobs Hsum eq_refl Ht Hlen) in Hm as [He Hx].
    rewrite Ho2, Ho1 in He, Hx. split; [by eapply evolves_trans|done]. }
  destruct moved; [|intros [= <- <-]; by split].
  destruct (observeTransition _ _ _ _ w3) as [w4 obs4] eqn:Hobs4.
  destruct (transitionObservationSummary resolved obs4) as [owned4 complete4] eqn:Hsum4.
  destruct (observeTransition_spec _ _ _ _ _ _ _ Hobs4 Hsum4) as (Ho4 & He5 & _ & Hin4 & Hall4).
  assert (evolves (exclusive resolved (owners w)) w w4) as He6.
  { eapply evolves_trans; [exact He4|]. eapply evolves_mono; [|exact He5]. by intros s ->. }
  destruct complete4; cbn [negb orb]; [|intros [= <- <-]; by split].
  unfold owned_by_target. destruct (bool_decide_reflect (owned4 = [target resolved])) as [->|]; cbn [negb];
    [|intros [= <- <-]; by split].
  destruct (inv_CommitHAEndpointOwner _ _ _ _ w4) as [w5 rc] eqn:Hcm. apply law_commit in Hcm as [Ho5 Hh5].
  assert (evolves (exclusive resolved (owners w)) w w5) as He7 by (eapply evolves_trans; [exact He6|by apply evolves_refl]).
  destruct rc; [|intros [= <- <-]; by split].
  destruct (resource_of _ w5) as [final|] eqn:Hf; [|intros [= <- <-]; by split].
  destruct (_ || _) eqn:Hm2; [intros [= <- <-]; by split|]. intros [= <- <-]. split; [done|]. intros _.
  apply orb_false_iff in Hm2 as [Hm2 Hm3]. apply negb_false_iff, bool_decide_eq_true_1 in Hm2, Hm3.
  rewrite Ho5, Ho4. split; [|split; [|by exists final]].
  - apply Hin4. set_solver.
  - intros i [Hi Hk]%elem_of_intersection. specialize (Hall4 eq_refl i Hi Hk). set_solver.
Qed.
End proofs.

(** ** Concrete instances *)

(** Hosts whose agents obey, and may not answer: the VIP's owners, what was,
    and the instances that do not answer. *)
Record wv_hosts : Type := mkHosts { wv_owners : gset ResourceID; wv_history : list (gset ResourceID); wv_down : gset ResourceID }.
Definition wv_obey (i : ResourceID) (command : string) (owners : gset ResourceID) : gset ResourceID :=
  if String.eqb command CommandVIPRelease then owners ∖ {[i]}
  else if String.eqb command CommandVIPAcquire then {[i]} ∪ owners else owners.
#[export] Instance wv_transport : AgentTransport (World wv_hosts) world_error := {|
  Send i request w :=
    let id := inst_ResourceID i in
    let h := wd_hosts w in
    let down := bool_decide (id ∈ wv_down h) in
    let owners := if down then wv_owners h else wv_obey id (cmd_Command request) (wv_owners h) in
    (mkWorld (wd_repo w) (wd_authorized w) (wd_fresh w) (mkHosts owners (wv_history h ++ [owners]) (wv_down h)),
     if down then Err ErrAgent
     else Ok (mkResponse StatusOK "" "" (Some (bool_decide (id ∈ owners))) None None None None None None))
|}.
#[export] Instance wv_laws : AgentLaws (λ w : World wv_hosts, wv_owners (wd_hosts w)) (λ w, wv_history (wd_hosts w)).
Proof.
  split.
  - intros i request w w' r [= <- _]. done.
  - intros i request w w' r H Hc. unfold Send, wv_transport in H. rewrite Hc in H. injection H as <- <-. cbn.
    split; [by destruct (bool_decide _)|]. intros response owns. case_match; [done|]. intros [= <-] _ [= <-]. done.
  - intros i request w w' r H Hc. unfold Send, wv_transport in H. rewrite Hc in H. injection H as <- _. cbn. case_match; set_solver.
  - intros i request w w' r H Hc. unfold Send, wv_transport in H. rewrite Hc in H. injection H as <- _. cbn. case_match; set_solver.
  - intros request w w' r. cbn. destruct (Lease.Acquire _ _ _ _ _). by intros [= <- _].
  - intros lease w w' r. cbn. by intros [= <- _].
  - intros a b c d w w' r. cbn. destruct (CommitHAEndpointOwner _ _ _ _ _). by intros [= <- _].
Qed.

Definition wv_w0 : World wv_hosts := mkWorld wh_r1 true [w_operation] (mkHosts {[w_owner]} [] ∅).
Definition wv_instance (id : ResourceID) : DatabaseInstance :=
  zero_DatabaseInstance <| inst_ResourceID := id |> <| inst_ClusterID := w_cluster |>.
Definition wv_resolved : ResolvedOperation := mkResolved w_operation zero_time
  (zero_DatabaseCluster <| cluster_ResourceID := w_cluster |>)
  (zero_TopologySnapshot <| topo_ClusterID := w_cluster |> <| topo_Instances := [wv_instance w_owner; wv_instance w_next] |>)
  (wv_instance w_owner) (wv_instance w_next) "sha256:plan" "".
Definition wv_mac (secret : string) (request : Request) : string := secret +:+ cmd_Command request.
Definition wv_w1 : World wv_hosts := (Transfer wv_mac "secret" (30 * Second) wv_resolved wv_w0).1.

Lemma vip_transfer_exclusive_witness :
  wv_owners (wd_hosts wv_w1) = {[w_next]} ∧
  evolves (λ w : World wv_hosts, wv_history (wd_hosts w)) (exclusive wv_resolved {[w_owner]}) wv_w0 wv_w1.
Proof.
  split; [vm_compute; reflexivity|].
  exact (proj1 (vip_transfer_exclusive (λ w : World wv_hosts, wv_owners (wd_hosts w)) (λ w, wv_history (wd_hosts w)) wv_mac "secret"
    (30 * Second) wv_resolved wv_w0 wv_w1 _ (surjective_pairing _))).
Defined.
