(* ===== verification/Transition.v ===== *)
(** * internal/endpoint/linux_vip.go: authorizations of a running operation

    An operation that changes a database holds the writer endpoint's lease
    while it works.  [AuthorizeTransition] takes the lease of a transition and
    returns a context and the two functions that end it; a goroutine renews the
    lease and cancels the context when it cannot.  [AuthorizeStableOwner] keeps
    the stable lease of the current primary alive.  The variables the closures
    share are the record [TransitionAuthorization]; a closure call holds its mutex and is one
    step, and a tick of the goroutine is another.  After its context is done or
    it has been told to stop the goroutine changes nothing: it returns, or asks
    the store with a context that is done. *)
From S2P Require Import Prelude GoStd Model Endpoint Lease Locks Gtid Repository Inventory Operations Power.
From S2P Require Import AgentProtocol HAEndpoints Interfaces LinuxVIP.

(** Why the context of an authorization is done. *)
Inductive cancel_cause : Type :=
| CauseCanceled | CauseParent | CauseRenew | CauseFinalize | CauseRollback.
Inductive terminal_action : Type := TerminalFinalize | TerminalAbort.
Inductive transition_error (E : Type) : Type :=
| ErrContext (cause : cancel_cause) | ErrAlreadyAborted | ErrAlreadyFinalized | ErrIdentity | ErrTransition (e : E).
Arguments ErrContext {E}. Arguments ErrAlreadyAborted {E}. Arguments ErrAlreadyFinalized {E}.
Arguments ErrIdentity {E}. Arguments ErrTransition {E}.

(** [adapter.TransitionAuthorization]: the variables its closures share. *)
Record TransitionAuthorization (E : Type) : Type := mkAuthorization {
  au_LeaseID : ResourceID; au_ttl : Duration;
  au_done : option cancel_cause;                      (* guarded.Err() *)
  au_stopped : bool;                                  (* the goroutine has returned *)
  au_lease : Lease; au_request : LeaseRequest;        (* renewalLease, renewalRequest *)
  au_terminal : option (terminal_action * result (transition_error E) unit)  (* terminalAction, terminalErr *)
}.
Arguments mkAuthorization {E}. Arguments au_LeaseID {E}. Arguments au_ttl {E}. Arguments au_done {E}.
Arguments au_stopped {E}. Arguments au_lease {E}. Arguments au_request {E}. Arguments au_terminal {E}.
#[export] Instance eta_TransitionAuthorization E : Settable (TransitionAuthorization E) := λ a,
  mkAuthorization (au_LeaseID a) (au_ttl a) (au_done a) (au_stopped a) (au_lease a) (au_request a) (au_terminal a).

Section transition.
Context {W E : Type} `{!EndpointInventory W E, !LeaseStore W E}.
Variables (transitionLeaseTTL : Duration).
Implicit Types (w : W) (au : TransitionAuthorization E) (resolved : ResolvedOperation) (resource : endpointResource).

Definition cancelCause (cause : cancel_cause) au : TransitionAuthorization E :=
  match au_done au with Some _ => au | None => au <| au_done := Some cause |> end.
Definition stop au : TransitionAuthorization E := au <| au_stopped := true |>.

Definition renew au w : TransitionAuthorization E * W * result (transition_error E) unit :=
  let '(w, renewed) := ls_Acquire (au_request au) w in
  match renewed with
  | Err e => (au, w, Err (ErrTransition e))
  | Ok lease => if SameLeaseIdentity (au_lease au) lease then (au <| au_lease := lease |>, w, Ok tt) else (au, w, Err ErrIdentity)
  end.
(** One tick of the renewal goroutine. *)
Definition renew_tick au w : TransitionAuthorization E * W :=
  if au_stopped au || bool_decide (is_Some (au_done au)) then (au, w)
  else match renew au w with
  | (au, w, Ok _) => (au, w)
  | (au, w, Err _) => (stop (cancelCause CauseRenew au), w)
  end.

Definition finalize au w : TransitionAuthorization E * W * result (transition_error E) unit :=
  match au_terminal au with
  | Some (TerminalFinalize, terminalErr) => (au, w, terminalErr)
  | Some (TerminalAbort, _) => (au, w, Err ErrAlreadyAborted)
  | None =>
      match au_done au with
      | Some cause => (au, w, Err (ErrContext cause))
      | None =>
          let '(w, stable) := ls_FinalizeTransition (au_lease au) (au_ttl au) w in
          match stable with
          | Ok stable =>
              (au <| au_lease := stable |>
                  <| au_request := mkLeaseRequest (lease_ClusterID stable) (lease_HAEndpointID stable)
                       (lease_HAEndpointID stable) (lease_OwnerID stable) "" (au_ttl au) true |>
                  <| au_terminal := Some (TerminalFinalize, Ok tt) |>, w, Ok tt)
          | Err e =>
              (cancelCause CauseFinalize (au <| au_terminal := Some (TerminalFinalize, Err (ErrTransition e)) |>), w,
               Err (ErrTransition e))
          end
      end
  end.

Definition abort au w : TransitionAuthorization E * W * result (transition_error E) unit :=
  match au_terminal au with
  | Some (TerminalAbort, terminalErr) => (au, w, terminalErr)
  | Some (TerminalFinalize, _) => (au, w, Err ErrAlreadyFinalized)
  | None =>
      let '(w, rolledBack) := ls_RollbackTransition (au_lease au) (au_ttl au) w in
      match rolledBack with
      | Ok _ => (stop au <| au_terminal := Some (TerminalAbort, Ok tt) |>, w, Ok tt)
      | Err e =>
          (cancelCause CauseRollback (stop au <| au_terminal := Some (TerminalAbort, Err (ErrTransition e)) |>), w,
           Err (ErrTransition e))
      end
  end.
Definition Cancel au : TransitionAuthorization E := cancelCause CauseCanceled (stop au).

Definition transition_ttl : Duration := if transitionLeaseTTL <=? 0 then 30 * Second else transitionLeaseTTL.
Definition AuthorizeTransition resolved w : W * result (vip_error E) (TransitionAuthorization E) :=
  match resource_of (cluster_ResourceID (ro_Cluster resolved)) w with
  | Err e => (w, Err e)
  | Ok resource =>
      let '(w, acquired) := acquireTransitionLease transitionLeaseTTL resolved resource w in
      (w, match acquired with
          | Err e => Err e
          | Ok lease => Ok (mkAuthorization (lease_ResourceID lease) transition_ttl None false lease
                              (transition_request transitionLeaseTTL resolved resource true) None)
          end)
  end.

(** ** The stable owner *)

(** [adapter.StableOwnershipAuthorization]: the lease it keeps, its request, and why its context is done. *)
Record StableOwnershipAuthorization : Type := mkStable {
  st_LeaseID : ResourceID; st_current : Lease; st_request : LeaseRequest; st_done : option cancel_cause
}.
Definition AuthorizeStableOwner resolved w : W * result (vip_error E) StableOwnershipAuthorization :=
  match resource_of (cluster_ResourceID (ro_Cluster resolved)) w with
  | Err e => (w, Err e)
  | Ok resource =>
      if negb (owned_by_primary resolved resource) then (w, Err ErrCanonicalOwner)
      else
        let clusterID := cluster_ResourceID (ro_Cluster resolved) in
        let endpointID := ha_ResourceID (er_resource resource) in
        let '(w, current) := ls_Current clusterID endpointID w in
        match current with
        | Err e => (w, Err (ErrEnv e))
        | Ok current =>
            if negb (stable_for_primary resolved resource current) then (w, Err ErrStableLease)
            else
              let '(w, valid) := ls_Validate current w in
              match valid with
              | Err e => (w, Err (ErrEnv e))
              | Ok _ =>
                  let request := mkLeaseRequest clusterID endpointID endpointID
                                   (inst_ResourceID (ro_Primary resolved)) "" transition_ttl true in
                  let '(w, renewed) := ls_Acquire request w in
                  match renewed with
                  | Err e => (w, Err (ErrEnv e))
                  | Ok renewed =>
                      if SameLeaseIdentity current renewed
                      then (w, Ok (mkStable (lease_ResourceID renewed) current request None))
                      else (w, Err ErrStableLease)
                  end
              end
        end
  end.
(** One tick of its goroutine, which returns when the context is done or [Cancel] is called. *)
Definition stable_tick (st : StableOwnershipAuthorization) w : StableOwnershipAuthorization * W :=
  match st_done st with
  | Some _ => (st, w)
  | None =>
      let '(w, renewed) := ls_Acquire (st_request st) w in
      let failed := mkStable (st_LeaseID st) (st_current st) (st_request st) (Some CauseRenew) in
      match renewed with
      | Err _ => (failed, w)
      | Ok lease => if SameLeaseIdentity (st_current st) lease then (st, w) else (failed, w)
      end
  end.
End transition.

(** ** What an authorization guarantees *)

Section proofs.
Context {W E : Type} `{!EndpointInventory W E, !LeaseStore W E, !LeaseStoreLaws W E}.
Variables (transitionLeaseTTL : Duration).
Implicit Types (w : W) (au : TransitionAuthorization E) (resolved : ResolvedOperation).

(** What may happen while an authorization exists: a tick, a call, the end of
    the context it was derived from, and anything in the world that keeps the
    leases well-formed. *)
Inductive au_step : TransitionAuthorization E * W → TransitionAuthorization E * W → Prop :=
| au_world au w w' : leases_ok w' → au_step (au, w) (au, w')
| au_tick au w : au_step (au, w) (renew_tick au w)
| au_finalize au w au' w' r : finalize au w = (au', w', r) → au_step (au, w) (au', w')
| au_abort au w au' w' r : abort au w = (au', w', r) → au_step (au, w) (au', w')
| au_cancel au w : au_step (au, w) (Cancel au, w)
| au_parent au w : au_step (au, w) (cancelCause CauseParent au, w).

(** The lease of an authorization that started with [lease]. *)
Definition same_lease (a b : Lease) : Prop := b = a <| lease_ExpiresAt := lease_ExpiresAt b |>.
Definition au_inv (lease : Lease) au w : Prop :=
  leases_ok w ∧ req_RenewOnly (au_request au) = true ∧
  match au_terminal au with
  | Some (TerminalFinalize, Ok _) => ∃ l, settled lease (lease_OwnerID lease) l ∧ same_lease l (au_lease au)
  | _ => same_lease lease (au_lease au)
  end.

Lemma same_lease_trans a b c : same_lease a b → SameLeaseIdentity b c = true → same_lease a c.
Proof. intros -> ->%SameLeaseIdentity_spec. done. Qed.
Lemma cancelCause_fields cause au :
  au_terminal (cancelCause cause au) = au_terminal au ∧ au_lease (cancelCause cause au) = au_lease au ∧
  au_request (cancelCause cause au) = au_request au.
Proof. unfold cancelCause. by destruct (au_done au). Qed.
Lemma au_inv_cancel lease cause au w : au_inv lease au w → au_inv lease (cancelCause cause au) w.
Proof. unfold au_inv. by destruct (cancelCause_fields cause au) as (-> & -> & ->). Qed.
Lemma au_inv_stop lease au w : au_inv lease au w → au_inv lease (stop au) w.
Proof. done. Qed.
#[local] Hint Resolve au_inv_cancel au_inv_stop : core.

Lemma renew_inv lease au w au' w' r : au_inv lease au w → renew au w = (au', w', r) →
  au_inv lease au' w' ∧ au_terminal au' = au_terminal au.
Proof.
  intros (Hok & Hro & Hl). unfold renew. destruct (ls_Acquire _ w) as [w1 res] eqn:Ha.
  destruct (acquire_law _ _ _ _ Hok (or_introl Hro) Ha) as [Hok1 _].
  destruct res as [l|]; [|by intros [= <- <- _]].
  destruct (SameLeaseIdentity _ l) eqn:Hs; intros [= <- <- _]; [|done]. split; [|done].
  split; [done|]. split; [done|]. cbn. destruct (au_terminal au) as [[[] [[]|]]|];
    try (by eapply same_lease_trans). destruct Hl as (l0 & ? & ?). exists l0. split; [done|]. by eapply same_lease_trans.
Qed.
Lemma tick_inv lease au w : au_inv lease au w →
  au_inv lease (renew_tick au w).1 (renew_tick au w).2 ∧ au_terminal (renew_tick au w).1 = au_terminal au.
Proof.
  intros Hi. unfold renew_tick. destruct (_ || _); [done|]. destruct (renew au w) as [[au1 w1] r] eqn:Hr.
  apply (renew_inv lease) in Hr as [H1 H2]; [|done]. destruct r; [done|]. cbn. split; [auto|].
  by destruct (cancelCause_fields CauseRenew au1) as (-> & _).
Qed.

(** What [finalize] and [abort] do the first time. *)
Lemma finalize_first lease au w au' w' r : au_inv lease au w → au_terminal au = None → finalize au w = (au', w', r) →
  au_inv lease au' w' ∧
  (r = Ok tt → settled lease (lease_OwnerID lease) (au_lease au') ∧
     lease_at w' (lease_ClusterID lease) (lease_HAEndpointID lease) (Some (au_lease au')) ∧
     au_terminal au' = Some (TerminalFinalize, Ok tt)).
Proof.
  intros (Hok & Hro & Hl) Ht. unfold finalize. rewrite Ht in *. destruct (au_done au) eqn:Hd.
  { intros [= <- <- <-]. split; [|done]. split; [done|]. by rewrite Ht. }
  destruct (ls_FinalizeTransition _ _ w) as [w1 res] eqn:Hf.
  destruct (finalize_law _ _ _ _ _ Hok Hf) as [Hok1 Hf1]. destruct res as [l|e]; intros [= <- <- <-].
  - specialize (Hf1 _ eq_refl). rewrite Hl in Hf1. destruct Hf1 as [Hs Hat]. split.
    + split; [done|]. split; [done|]. exists l. split; [exact Hs|by destruct l].
    + intros _. by split_and!.
  - split; [|done]. apply au_inv_cancel. by repeat split.
Qed.
Lemma abort_first lease au w au' w' r : au_inv lease au w → au_terminal au = None → abort au w = (au', w', r) →
  au_inv lease au' w' ∧
  (r = Ok tt → ∃ l, settled lease (lease_PreviousOwnerID lease) l ∧
     lease_at w' (lease_ClusterID lease) (lease_HAEndpointID lease) (Some l)).
Proof.
  intros (Hok & Hro & Hl) Ht. unfold abort. rewrite Ht in *.
  destruct (ls_RollbackTransition _ _ w) as [w1 res] eqn:Hf.
  destruct (rollback_law _ _ _ _ _ Hok Hf) as [Hok1 Hf1]. destruct res as [l|e]; intros [= <- <- <-].
  - specialize (Hf1 _ eq_refl). rewrite Hl in Hf1. split; [by repeat split|]. intros _. by exists l.
  - split; [|done]. apply au_inv_cancel. by repeat split.
Qed.
Lemma ended_calls au w a r : au_terminal au = Some (a, r) →
  finalize au w = (au, w, match a with TerminalFinalize => r | TerminalAbort => Err ErrAlreadyAborted end) ∧
  abort au w = (au, w, match a with TerminalAbort => r | TerminalFinalize => Err ErrAlreadyFinalized end).
Proof. intros Ht. unfold finalize, abort. rewrite Ht. by destruct a. Qed.

Lemma au_step_inv lease c c' : au_step c c' → au_inv lease c.1 c.2 →
  au_inv lease c'.1 c'.2 ∧ ∀ x, au_terminal c.1 = Some x → au_terminal c'.1 = Some x.
Proof.
  intros Hs Hi. destruct Hs as [au w w' Hok|au w|au w au' w' r Hf|au w au' w' r Hf|au w|au w]; cbn in *.
  - split; [|done]. by destruct Hi as (_ & ? & ?).
  - apply tick_inv in Hi as [H1 H2]. split; [done|]. by rewrite H2.
  - destruct (au_terminal au) as [[a x]|] eqn:Ht.
    + destruct (ended_calls au w a x Ht) as [Hc _]. rewrite Hc in Hf. injection Hf as <- <- _. by rewrite Ht.
    + by destruct (finalize_first lease au w au' w' r).
  - destruct (au_terminal au) as [[a x]|] eqn:Ht.
    + destruct (ended_calls au w a x Ht) as [_ Hc]. rewrite Hc in Hf. injection Hf as <- <- _. by rewrite Ht.
    + by destruct (abort_first lease au w au' w' r).
  - split; [unfold Cancel; auto|]. unfold Cancel. by destruct (cancelCause_fields CauseCanceled (stop au)) as (-> & _).
  - split; [auto|]. by destruct (cancelCause_fields CauseParent au) as (-> & _).
Qed.
Lemma au_steps_inv lease c c' : rtc au_step c c' → au_inv lease c.1 c.2 →
  au_inv lease c'.1 c'.2 ∧ ∀ x, au_terminal c.1 = Some x → au_terminal c'.1 = Some x.
Proof.
  induction 1 as [|c c1 c2 Hs _ IH]; [done|]. intros Hi. apply (au_step_inv lease) in Hs as [H1 H2]; [|done].
  destruct (IH H1) as [H3 H4]. split; auto.
Qed.
Lemma AuthorizeTransition_inv resolved w w' au : leases_ok w → unused_id w →
  AuthorizeTransition transitionLeaseTTL resolved w = (w', Ok au) →
  au_inv (au_lease au) au w' ∧ au_terminal au = None ∧ ∃ resource,
    resource_of (cluster_ResourceID (ro_Cluster resolved)) w = Ok resource ∧
    lease_for (transition_request transitionLeaseTTL resolved resource false) (au_lease au).
Proof.
  intros Hok Hu. unfold AuthorizeTransition, acquireTransitionLease, env_result.
  destruct (resource_of _ w) as [resource|] eqn:Hr; [|done]. destruct (ls_Acquire _ w) as [w1 res] eqn:Ha.
  destruct (acquire_law _ _ _ _ Hok (or_intror Hu) Ha) as [Hok1 Hl]. destruct res as [l|]; intros [= <- <-].
  split; [|split; [done|]]; [|exists resource; split; [done|]; by apply Hl].
  split; [done|]. split; [done|]. cbn. by destruct l.
Qed.

(** A transition ends once, in one of two ways.  Whatever happens after
    [AuthorizeTransition] succeeded (renewals, calls in any order, cancellation,
    any other change of the lease store, passage of time): the first call that
    ends it leaves a stable lease of the endpoint in force, owned by the target
    when [finalize] succeeds and by the source when [abort] does; from then on
    every call of the same kind gives the same answer without touching the store,
    and every call of the other kind is refused. *)
Theorem transition_ends_once resolved w0 w1 au0 au w :
  leases_ok w0 → unused_id w0 → AuthorizeTransition transitionLeaseTTL resolved w0 = (w1, Ok au0) →
  rtc au_step (au0, w1) (au, w) →
  let cluster := cluster_ResourceID (ro_Cluster resolved) in
  ∃ resource, resource_of cluster w0 = Ok resource ∧
  let endpoint := ha_ResourceID (er_resource resource) in
  let ends_with owner w' l := lease_at w' cluster endpoint (Some l) ∧ lease_ResourceID l = lease_ResourceID (au_lease au0) ∧
    lease_OperationID l = endpoint ∧ lease_OwnerID l = owner ∧ lease_PreviousOwnerID l = "" in
  (∀ au' w', au_terminal au = None → finalize au w = (au', w', Ok tt) →
     ends_with (inst_ResourceID (ro_Target resolved)) w' (au_lease au') ∧
     au_terminal au' = Some (TerminalFinalize, Ok tt)) ∧
  (∀ au' w', au_terminal au = None → abort au w = (au', w', Ok tt) →
     ∃ l, ends_with (inst_ResourceID (ro_Primary resolved)) w' l) ∧
  (∀ a r au2 w2, au_terminal au = Some (a, r) → rtc au_step (au, w) (au2, w2) →
     finalize au2 w2 = (au2, w2, match a with TerminalFinalize => r | TerminalAbort => Err ErrAlreadyAborted end) ∧
     abort au2 w2 = (au2, w2, match a with TerminalAbort => r | TerminalFinalize => Err ErrAlreadyFinalized end)).
Proof.
  intros Hok Hu Hat Hsteps cluster. apply AuthorizeTransition_inv in Hat as (Hi & _ & resource & Hr & Hfor); [|done..].
  exists resource. split; [done|]. intros endpoint ends_with.
  destruct (au_steps_inv (au_lease au0) _ _ Hsteps Hi) as [Hi1 _]. cbn in Hi1.
  destruct Hfor as (Hsc & Hop & Hown & Hprev). cbn in Hsc, Hop, Hown, Hprev. injection Hsc as Hc He.
  split; [|split].
  - intros au' w' Ht Hf. apply (finalize_first (au_lease au0)) in Hf as [_ Hf]; [|done..].
    destruct (Hf eq_refl) as ((H1 & H2 & H3 & H4 & H5 & H6) & Hl & Ht'). rewrite Hc, He in *.
    split; [|done]. unfold ends_with. rewrite H5, Hown. by split_and!.
  - intros au' w' Ht Hf. apply (abort_first (au_lease au0)) in Hf as [_ Hf]; [|done..].
    destruct (Hf eq_refl) as (l & (H1 & H2 & H3 & H4 & H5 & H6) & Hl). rewrite Hc, He in *.
    exists l. unfold ends_with. rewrite H5, Hprev. by split_and!.
  - intros a r au2 w2 Ht Hs2. destruct (au_steps_inv (au_lease au0) _ _ Hs2 Hi1) as [_ Hterm].
    apply ended_calls. by apply Hterm.
Qed.
End proofs.

(** ** Concrete instances *)

Definition wt_authorized := AuthorizeTransition (30 * Second) wv_resolved wv_w0.
Definition wt_w1 : World wv_hosts := wt_authorized.1.
Definition wt_au0 : TransitionAuthorization world_error :=
  match wt_authorized.2 with
  | Ok au => au
  | Err _ => mkAuthorization "" 0 None true (mkLease "" "" "" "" "" "" 0 false) (mkLeaseRequest "" "" "" "" "" 0 false) None
  end.
Definition wt_ticked := renew_tick wt_au0 wt_w1.
Definition wt_final := finalize wt_ticked.1 wt_ticked.2.

Lemma transition_ends_once_witness :
  au_LeaseID wt_au0 = w_operation ∧ lease_OwnerID (au_lease wt_final.1.1) = w_next ∧
  abort wt_final.1.1 wt_final.1.2 = (wt_final.1.1, wt_final.1.2, Err ErrAlreadyFinalized).
Proof.
  assert (leases_ok wv_w0) as Hok by (apply no_leases_ok; vm_compute; reflexivity).
  assert (unused_id wv_w0) as Hu by (vm_compute; reflexivity).
  assert (wt_authorized = (wt_w1, Ok wt_au0)) as Hat by (vm_compute; reflexivity).
  assert (finalize wt_ticked.1 wt_ticked.2 = (wt_final.1.1, wt_final.1.2, Ok tt)) as Hf by (vm_compute; reflexivity).
  assert (rtc au_step (wt_au0, wt_w1) (wt_ticked.1, wt_ticked.2)) as Hs1
    by (rewrite <- (surjective_pairing wt_ticked); exact (rtc_once _ _ (au_tick wt_au0 wt_w1))).
  pose proof (rtc_r _ _ _ Hs1 (au_finalize _ _ _ _ _ Hf)) as Hs2.
  split; [vm_compute; reflexivity|]. split.
  - destruct (transition_ends_once (30 * Second) wv_resolved wv_w0 wt_w1 wt_au0 wt_ticked.1 wt_ticked.2 Hok Hu Hat Hs1)
      as (resource & _ & Hfin & _).
    destruct (Hfin _ _ ltac:(vm_compute; reflexivity) Hf) as [(_ & _ & _ & Ho & _) _]. exact Ho.
  - destruct (transition_ends_once (30 * Second) wv_resolved wv_w0 wt_w1 wt_au0 wt_final.1.1 wt_final.1.2 Hok Hu Hat Hs2)
      as (resource & _ & _ & _ & Hend).
    exact (proj2 (Hend TerminalFinalize (Ok tt) _ _ ltac:(vm_compute; reflexivity) (rtc_refl _ _))).
Defined.
