(* ===== verification/Bootstrap.v ===== *)
(** * internal/coordination/reboot_bootstrap.go: restarting a fenced cluster

    After a reboot every member of a MySQL cluster comes back read-only, so
    discovery finds no primary.  [RebootBootstrapCandidate] decides whether the
    canonical owner may be reactivated; [bootstrap_evidence] states, without
    loops and early exits, what it has then proved. *)
From S2P Require Import Prelude GoStd Model.

Definition strictMySQLBoolean (metadata : gmap string string) (key : string) : option bool :=
  let v := ToLower (TrimSpace (mget metadata key)) in
  if existsb (String.eqb v) ["true"; "1"; "on"] then Some true
  else if existsb (String.eqb v) ["false"; "0"; "off"] then Some false else None.

Definition zeroLag (lag : option Z) : bool := match lag with Some l => l =? 0 | None => false end.
Definition normalizedGTIDPosition (value : string) : string := JoinFields value.
Definition mysqlBooleanIs (metadata : gmap string string) (key : string) (expected : bool) : bool :=
  strictMySQLBoolean metadata key == Some expected.

Definition MySQLSemisyncIdleReplicaSafe (canonical replica : DatabaseInstance) : bool :=
  let source := inst_EngineMetadata canonical in
  let metadata := inst_EngineMetadata replica in
  (health_State (inst_Health replica) == HealthDegraded) &&
  (health_Summary (inst_Health replica) == "MySQL replica is not actively acknowledging semi-sync transactions") &&
  forallb (λ key, mysqlBooleanIs source key true)
    ["semi_sync_required"; "semi_sync_available"; "semi_sync_source_enabled"] &&
  mysqlBooleanIs source "semi_sync_source_status" true &&
  match Atoi (TrimSpace (mget source "semi_sync_source_clients")),
        Atoi (TrimSpace (mget source "semi_sync_wait_for_replica_count")) with
  | Some clients, Some required => negb (required <? 1) && negb (clients <? required)
  | _, _ => false
  end &&
  forallb (λ key, mysqlBooleanIs metadata key true)
    ["semi_sync_required"; "semi_sync_available"; "semi_sync_source_enabled"; "semi_sync_replica_enabled"] &&
  mysqlBooleanIs metadata "semi_sync_replica_status" false &&
  negb (EqualFold (TrimSpace (mget metadata "semi_sync_probe_error")) "true") &&
  let canonicalGTID := normalizedGTIDPosition (mget source "gtid_executed") in
  let replicaGTID := normalizedGTIDPosition (repl_ExecutedPosition (inst_Replication replica)) in
  (canonicalGTID != "") && (replicaGTID == canonicalGTID).

Inductive bootstrap_error : Type :=
| ErrBootScope | ErrBootStale | ErrBootReplicas | ErrBootAnomalies | ErrBootInstance | ErrBootDuplicate
| ErrBootWritable | ErrBootMaintenance | ErrBootAbsent | ErrBootNotFenced | ErrBootCoverage
| ErrBootProbe | ErrBootProbeInconsistent | ErrBootUnavailable | ErrBootUnsafeReplica | ErrBootEdge
| ErrBootTarget | ErrBootLinks.

Definition default_age (maxAge : Duration) : Duration := if maxAge <=? 0 then 15 * Second else maxAge.

Definition fully_read_only (metadata : gmap string string) : bool :=
  mysqlBooleanIs metadata "read_only" true && mysqlBooleanIs metadata "super_read_only" true.

(** ** The loops *)

Section boot_loops.
Variables (snapshot : TopologySnapshot) (canonicalOwnerID : ResourceID).

Definition boot_instance (st : gmap ResourceID DatabaseInstance * DatabaseInstance) (instance : DatabaseInstance)
  : result bootstrap_error (gmap ResourceID DatabaseInstance * DatabaseInstance) :=
  let '(instances, canonical) := st in
  _ ← reject (negb (ValidResourceID (inst_ResourceID instance)) ||
              (inst_ClusterID instance != topo_ClusterID snapshot) ||
              (inst_Engine instance != EngineMySQL)) ErrBootInstance;
  _ ← reject (bool_decide (is_Some (instances !! inst_ResourceID instance))) ErrBootDuplicate;
  _ ← require (fully_read_only (inst_EngineMetadata instance)) ErrBootWritable;
  _ ← reject (inst_Maintenance instance) ErrBootMaintenance;
  Ok (<[inst_ResourceID instance := instance]> instances,
      if inst_ResourceID instance == canonicalOwnerID then instance else canonical).

(** The discovery at the snapshot's own instant reached the instance. *)
Definition probe_current (probe : ProbeStatus) : bool :=
  Equal (probe_DiscoveryObservedAt probe) (topo_ObservedAt snapshot).
Definition probe_failed_now (probe : ProbeStatus) : bool :=
  IsZero (probe_DiscoveryObservedAt probe) &&
  Equal (health_ObservedAt (probe_Health probe)) (topo_ObservedAt snapshot) &&
  ((health_State (probe_Health probe) == HealthUnknown) ||
   (health_State (probe_Health probe) == HealthUnhealthy)).

Definition boot_probe (instances : gmap ResourceID DatabaseInstance)
    (st : gset ResourceID * gset ResourceID) (probe : ProbeStatus)
  : result bootstrap_error (gset ResourceID * gset ResourceID) :=
  let '(probed, unavailable) := st in
  match instances !! probe_InstanceID probe with
  | None => Err ErrBootProbe
  | Some instance =>
      _ ← reject (bool_decide (probe_InstanceID probe ∈ probed) ||
                  (health_State (probe_Health probe) != health_State (inst_Health instance)))
           ErrBootProbeInconsistent;
      let probed := {[probe_InstanceID probe]} ∪ probed in
      if probe_current probe then Ok (probed, unavailable)
      else
        _ ← require (probe_failed_now probe) ErrBootProbe;
        _ ← reject ((inst_ResourceID instance == canonicalOwnerID) || (inst_Role instance != RoleReplica) ||
                    negb (mysqlBooleanIs (inst_EngineMetadata instance) "read_only" true) ||
                    negb (mysqlBooleanIs (inst_EngineMetadata instance) "super_read_only" true))
             ErrBootUnavailable;
        Ok (probed, {[inst_ResourceID instance]} ∪ unavailable)
  end.

Definition follower_safe (canonical : DatabaseInstance) (instance : DatabaseInstance) : bool :=
  let replication := inst_Replication instance in
  (inst_Role instance == RoleReplica) &&
  ((health_State (inst_Health instance) == HealthHealthy) || MySQLSemisyncIdleReplicaSafe canonical instance) &&
  (repl_IOThread replication == ThreadRunning) && (repl_SQLThread replication == ThreadRunning) &&
  zeroLag (repl_LagSeconds replication) &&
  EqualFold (TrimSpace (mget (repl_SourceIdentity replication) "server_uuid"))
    (ToLower (TrimSpace (mget (inst_EngineIdentity canonical) "server_uuid"))).

Definition boot_follower (canonical : DatabaseInstance) (unavailable : gset ResourceID)
    (followers : gset ResourceID) (instance : DatabaseInstance) : result bootstrap_error (gset ResourceID) :=
  if inst_ResourceID instance == canonicalOwnerID then Ok followers
  else if bool_decide (inst_ResourceID instance ∈ unavailable) then Ok followers
  else
    _ ← require (follower_safe canonical instance) ErrBootUnsafeReplica;
    Ok ({[inst_ResourceID instance]} ∪ followers).

Definition boot_link (unavailable followers : gset ResourceID) (linked : gset ResourceID) (link : ReplicationLink)
  : result bootstrap_error (gset ResourceID) :=
  let target := link_TargetInstanceID link in
  _ ← reject ((link_ClusterID link != topo_ClusterID snapshot) ||
              (link_SourceInstanceID link != canonicalOwnerID)) ErrBootEdge;
  if bool_decide (target ∈ unavailable) then
    _ ← reject (link_Healthy link) ErrBootUnavailable;
    _ ← reject (bool_decide (target ∈ linked)) ErrBootTarget;
    Ok ({[target]} ∪ linked)
  else
    _ ← require (zeroLag (link_LagSeconds link)) ErrBootEdge;
    _ ← require (bool_decide (target ∈ followers)) ErrBootTarget;
    _ ← reject (bool_decide (target ∈ linked)) ErrBootTarget;
    Ok ({[target]} ∪ linked).

Definition RebootBootstrapCandidate (now : Time) (maxAge : Duration) : result bootstrap_error DatabaseInstance :=
  let observedAt := topo_ObservedAt snapshot in
  let maxAge := default_age maxAge in
  _ ← reject (negb (ValidResourceID (topo_ClusterID snapshot)) || negb (ValidResourceID canonicalOwnerID)) ErrBootScope;
  _ ← reject (IsZero observedAt || (maxAge <? Sub now observedAt) || (maxAge <? Sub observedAt now)) ErrBootStale;
  _ ← reject (Nat.ltb (length (topo_Instances snapshot)) 2) ErrBootReplicas;
  _ ← require (bool_decide (topo_Anomalies snapshot = [] :> list MetadataAnomaly)) ErrBootAnomalies;
  found ← for_each boot_instance (∅, zero_DatabaseInstance) (topo_Instances snapshot);
  let '(instances, canonical) := found in
  _ ← reject (inst_ResourceID canonical == "") ErrBootAbsent;
  let canonicalUUID := ToLower (TrimSpace (mget (inst_EngineIdentity canonical) "server_uuid")) in
  _ ← reject ((canonicalUUID == "") || (inst_Role canonical != RoleUnknown) ||
              (health_State (inst_Health canonical) != HealthDegraded) ||
              (repl_SourceIdentity (inst_Replication canonical) != ∅)) ErrBootNotFenced;
  _ ← require (Nat.eqb (length (topo_Probes snapshot)) (length (topo_Instances snapshot))) ErrBootCoverage;
  probes ← for_each (boot_probe instances) (∅, ∅) (topo_Probes snapshot);
  let '(_, unavailable) := probes in
  followers ← for_each (boot_follower canonical unavailable) ∅ (topo_Instances snapshot);
  _ ← reject (bool_decide (followers = ∅)) ErrBootReplicas;
  linked ← for_each (boot_link unavailable followers) ∅ (topo_Links snapshot);
  _ ← require (forallb (λ id, bool_decide (id ∈ linked)) (elements followers)) ErrBootLinks;
  Ok canonical.
End boot_loops.

(** ** The evidence *)

Section evidence.
Variables (snapshot : TopologySnapshot) (owner : ResourceID).

(** No current discovery reached the instance. *)
Definition unavailable (id : ResourceID) : Prop :=
  ∃ probe, probe ∈ topo_Probes snapshot ∧ probe_InstanceID probe = id ∧ probe_current snapshot probe = false.
(** A replica the discovery reached. *)
Definition follower (id : ResourceID) : Prop :=
  (∃ i, i ∈ topo_Instances snapshot ∧ inst_ResourceID i = id) ∧ id ≠ owner ∧ ¬ unavailable id.

Record bootstrap_evidence (now : Time) (maxAge : Duration) (p : DatabaseInstance) : Prop := {
  be_scope : ValidResourceID (topo_ClusterID snapshot) = true ∧ ValidResourceID owner = true;
  be_fresh : topo_ObservedAt snapshot ≠ 0 ∧ Sub now (topo_ObservedAt snapshot) ≤ default_age maxAge ∧
    Sub (topo_ObservedAt snapshot) now ≤ default_age maxAge;
  be_anomalies : topo_Anomalies snapshot = [];
  be_unique : NoDup (inst_ResourceID <$> topo_Instances snapshot);
  (** nothing in the cluster accepts writes *)
  be_instances : ∀ i, i ∈ topo_Instances snapshot →
    ValidResourceID (inst_ResourceID i) = true ∧ inst_ClusterID i = topo_ClusterID snapshot ∧
    inst_Engine i = EngineMySQL ∧ fully_read_only (inst_EngineMetadata i) = true ∧ inst_Maintenance i = false;
  (** the candidate is the canonical owner, fenced *)
  be_canonical : p ∈ topo_Instances snapshot ∧ inst_ResourceID p = owner ∧
    ToLower (TrimSpace (mget (inst_EngineIdentity p) "server_uuid")) ≠ "" ∧
    inst_Role p = RoleUnknown ∧ health_State (inst_Health p) = HealthDegraded ∧
    repl_SourceIdentity (inst_Replication p) = ∅;
  (** one probe per instance, current or a proven failure of a replica *)
  be_probes : probe_InstanceID <$> topo_Probes snapshot ≡ₚ inst_ResourceID <$> topo_Instances snapshot;
  be_probe : ∀ probe i, probe ∈ topo_Probes snapshot → i ∈ topo_Instances snapshot →
    probe_InstanceID probe = inst_ResourceID i →
    health_State (probe_Health probe) = health_State (inst_Health i) ∧
    (probe_current snapshot probe = true ∨
     probe_failed_now snapshot probe = true ∧ inst_ResourceID i ≠ owner ∧ inst_Role i = RoleReplica);
  (** every other reachable instance has caught up with the candidate *)
  be_followers : ∀ i, i ∈ topo_Instances snapshot → follower (inst_ResourceID i) → follower_safe p i = true;
  be_some : ∃ id, follower id;
  (** the replication edges are exactly the candidate's *)
  be_links : NoDup (link_TargetInstanceID <$> topo_Links snapshot);
  be_link : ∀ l, l ∈ topo_Links snapshot →
    link_ClusterID l = topo_ClusterID snapshot ∧ link_SourceInstanceID l = owner ∧
    (unavailable (link_TargetInstanceID l) ∧ link_Healthy l = false ∨
     follower (link_TargetInstanceID l) ∧ zeroLag (link_LagSeconds l) = true);
  be_linked : ∀ id, follower id → id ∈ link_TargetInstanceID <$> topo_Links snapshot
}.

(** *** The loops compute the evidence *)

Definition index_instances (l : list DatabaseInstance) (m : gmap ResourceID DatabaseInstance) :
  gmap ResourceID DatabaseInstance := foldl (λ m i, <[inst_ResourceID i := i]> m) m l.

Lemma index_fresh l m id : id ∉ inst_ResourceID <$> l → index_instances l m !! id = m !! id.
Proof.
  unfold index_instances. revert m. induction l as [|i l IH]; intros m Hid; [done|]. cbn in *.
  apply not_elem_of_cons in Hid as [Hne Hid]. rewrite IH by done. by rewrite lookup_insert_ne.
Qed.
Lemma index_dom l m id : is_Some (index_instances l m !! id) ↔ is_Some (m !! id) ∨ id ∈ inst_ResourceID <$> l.
Proof.
  unfold index_instances. revert m. induction l as [|i l IH]; intros m; cbn; [set_solver|].
  rewrite IH, elem_of_cons. destruct (decide (id = inst_ResourceID i)) as [->|Hne].
  - rewrite lookup_insert_eq. split; [by auto|]. intros _. left. by eexists.
  - rewrite lookup_insert_ne by done. tauto.
Qed.
Lemma index_lookup l id i : NoDup (inst_ResourceID <$> l) →
  index_instances l ∅ !! id = Some i ↔ i ∈ l ∧ inst_ResourceID i = id.
Proof.
  induction l as [|a l IH] using rev_ind; intros Hnd.
  { unfold index_instances. cbn. rewrite lookup_empty. set_solver. }
  unfold index_instances in *. rewrite foldl_app. cbn. rewrite fmap_app in Hnd.
  apply NoDup_app in Hnd as (Hnd & Hdisj & _). rewrite lookup_insert_Some, IH by done.
  rewrite elem_of_app, list_elem_of_singleton. split.
  - intros [[<- <-]|[Hne [Hi Hid]]]; auto.
  - intros [[Hi| ->] Hid]; [|by left]. right. split; [|done]. intros Heq. apply (Hdisj (inst_ResourceID i)).
    + apply list_elem_of_fmap. by exists i.
    + rewrite Hid, <- Heq. by apply list_elem_of_singleton.
Qed.

Definition instance_guard (i : DatabaseInstance) : Prop :=
  ValidResourceID (inst_ResourceID i) = true ∧ inst_ClusterID i = topo_ClusterID snapshot ∧
  inst_Engine i = EngineMySQL ∧ fully_read_only (inst_EngineMetadata i) = true ∧ inst_Maintenance i = false.

Definition canonical_of (l : list DatabaseInstance) : DatabaseInstance :=
  foldl (λ c i, if inst_ResourceID i == owner then i else c) zero_DatabaseInstance l.

Lemma boot_instance_iff st i st' :
  boot_instance snapshot owner st i = Ok st' ↔
    (instance_guard i ∧ st.1 !! inst_ResourceID i = None) ∧
    st' = (<[inst_ResourceID i := i]> st.1, if inst_ResourceID i == owner then i else st.2).
Proof.
  destruct st as [m c]. unfold boot_instance, instance_guard. cbn. split.
  - intros H. repeat bsimpl_step. simplify_eq. rewrite <- eq_None_not_Some in *. tauto.
  - intros [((H1 & H2 & H3 & H4 & H5) & H6) ->]. rewrite H1, H4, H5, H6.
    rewrite (bool_decide_true (inst_ClusterID i = _)), (bool_decide_true (inst_Engine i = _)) by done. reflexivity.
Qed.

Lemma boot_instances_iff l m c :
  for_each (boot_instance snapshot owner) (∅, zero_DatabaseInstance) l = Ok (m, c) ↔
    NoDup (inst_ResourceID <$> l) ∧ (∀ i, i ∈ l → instance_guard i) ∧ m = index_instances l ∅ ∧ c = canonical_of l.
Proof.
  rewrite (for_each_iff _ _ _ _ _ _ boot_instance_iff).
  assert (∀ l st, foldl (λ st i, (<[inst_ResourceID i := i]> st.1, if inst_ResourceID i == owner then i else st.2)) st l =
    (index_instances l st.1, foldl (λ c i, if inst_ResourceID i == owner then i else c) st.2 l)) as Hf.
  { clear. induction l as [|i l IH]; intros [m c]; [done|]. cbn. by rewrite IH. }
  rewrite Hf, NoDup_seen, <- forall_split. cbn. split.
  - intros [H [= -> ->]]. split_and!; try done.
    + intros pre a post Heq. destruct (H pre a post Heq) as [_ Hn]. rewrite Hf in Hn. cbn in Hn.
      intros Hin. assert (is_Some (index_instances pre ∅ !! inst_ResourceID a)) as [x Hx]; [|congruence].
      apply index_dom. by right.
    + intros pre a post Heq. by apply (H pre a post).
  - intros (Hnd & Hg & -> & ->). split; [|done]. intros pre a post Heq. split; [by eapply Hg|].
    rewrite Hf. cbn. rewrite index_fresh; [apply lookup_empty|]. by eapply Hnd.
Qed.

Lemma canonical_found l : NoDup (inst_ResourceID <$> l) → ValidResourceID owner = true →
  (inst_ResourceID (canonical_of l) ≠ "" → canonical_of l ∈ l ∧ inst_ResourceID (canonical_of l) = owner) ∧
  (∀ p, p ∈ l → inst_ResourceID p = owner → canonical_of l = p).
Proof.
  intros Hnd Hv. unfold canonical_of. induction l as [|a l IH] using rev_ind; [split; [done|by intros p ?%elem_of_nil]|].
  rewrite foldl_app. cbn. rewrite fmap_app in Hnd. apply NoDup_app in Hnd as (Hnd & Hdisj & _).
  destruct (IH Hnd) as [IH1 IH2]. setoid_rewrite elem_of_app. setoid_rewrite list_elem_of_singleton.
  destruct (bool_decide_reflect (inst_ResourceID a = owner)) as [Ha|Ha].
  - split; [by auto|]. intros p [Hp|Hp] Ho; [|done]. exfalso. apply (Hdisj owner).
    + rewrite <- Ho. apply list_elem_of_fmap. by exists p.
    + cbn. rewrite Ha. by apply list_elem_of_singleton.
  - split; [intros H; destruct (IH1 H); auto|]. intros p [Hp| ->] Ho; [by apply IH2|done].
Qed.

Definition probe_guard (instances : gmap ResourceID DatabaseInstance) (probe : ProbeStatus) : Prop :=
  ∃ i, instances !! probe_InstanceID probe = Some i ∧
    health_State (probe_Health probe) = health_State (inst_Health i) ∧
    (probe_current snapshot probe = true ∨
     probe_failed_now snapshot probe = true ∧ inst_ResourceID i ≠ owner ∧ inst_Role i = RoleReplica ∧
     fully_read_only (inst_EngineMetadata i) = true).
Definition probe_upd (st : gset ResourceID * gset ResourceID) (probe : ProbeStatus) :=
  ({[probe_InstanceID probe]} ∪ st.1,
   if probe_current snapshot probe then st.2 else {[probe_InstanceID probe]} ∪ st.2).

Lemma boot_probe_iff instances st probe st' :
  (∀ id i, instances !! id = Some i → inst_ResourceID i = id) →
  boot_probe snapshot owner instances st probe = Ok st' ↔
    (probe_guard instances probe ∧ probe_InstanceID probe ∉ st.1) ∧ st' = probe_upd st probe.
Proof.
  intros Hids. destruct st as [probed un]. unfold boot_probe, probe_guard, probe_upd. cbn.
  destruct (instances !! probe_InstanceID probe) as [i|] eqn:Hi; [|split; [done|intros [[(? & ? & _) _] _]; done]].
  rewrite (Hids _ _ Hi). split.
  - intros H. repeat bsimpl_step. destruct (probe_current snapshot probe) eqn:Hc.
    + simplify_eq. split; [|done]. split; [|done]. exists i. auto.
    + repeat bsimpl_step. simplify_eq. split; [|done]. split; [|done]. exists i. split_and!; try done. right.
      rewrite (Hids _ _ Hi). split_and!; try done. unfold fully_read_only. by bsplit.
  - intros [[(j & [= <-] & H1 & H2) H3] ->]. rewrite H1.
    rewrite (bool_decide_false (_ ∈ probed)), (bool_decide_true (_ = health_State (inst_Health i))) by done. cbn.
    destruct (probe_current snapshot probe); [done|]. destruct H2 as [?|(H4 & H5 & H6 & H7)]; [done|].
    rewrite (Hids _ _ Hi) in H5.
    unfold fully_read_only in H7. apply andb_true_iff in H7 as [H7 H8].
    by rewrite H4, H6, H7, H8, (bool_decide_false (_ = owner)).
Qed.

Lemma boot_probes_iff instances l st' :
  (∀ id i, instances !! id = Some i → inst_ResourceID i = id) →
  for_each (boot_probe snapshot owner instances) (∅, ∅) l = Ok st' ↔
    NoDup (probe_InstanceID <$> l) ∧ (∀ probe, probe ∈ l → probe_guard instances probe) ∧
    st' = foldl probe_upd (∅, ∅) l.
Proof.
  intros Hids. rewrite (for_each_iff _ _ _ _ _ _ (λ st p st', boot_probe_iff instances st p st' Hids)).
  rewrite NoDup_seen, <- forall_split.
  assert (∀ l st x, x ∈ (foldl probe_upd st l).1 ↔ x ∈ st.1 ∨ x ∈ probe_InstanceID <$> l) as Hf.
  { clear. induction l as [|p l IH]; intros st x; cbn; [set_solver|]. rewrite IH. cbn. set_solver. }
  split.
  - intros [H ->]. split_and!; [|by intros; eapply H|done]. intros pre a post Heq Hin.
    destruct (H pre a post Heq) as [_ Hn]. apply Hn, Hf. by right.
  - intros (Hnd & Hg & ->). split; [|done]. intros pre a post Heq. split; [by eapply Hg|].
    rewrite Hf. intros [?|?]; [set_solver|by eapply Hnd].
Qed.

Lemma probes_unavailable l st x :
  x ∈ (foldl probe_upd st l).2 ↔ x ∈ st.2 ∨
    ∃ probe, probe ∈ l ∧ probe_InstanceID probe = x ∧ probe_current snapshot probe = false.
Proof.
  revert st. induction l as [|p l IH]; intros st; cbn.
  { split; [by left|]. intros [?|(? & ?%elem_of_nil & _)]; done. }
  rewrite IH. unfold probe_upd. cbn. setoid_rewrite elem_of_cons.
  destruct (probe_current snapshot p) eqn:Hp; [|rewrite elem_of_union, elem_of_singleton].
  - split; [naive_solver|]. intros [?|(q & [->|?] & ? & ?)]; [by left|congruence|right; by exists q].
  - split; [|naive_solver]. intros [[->|?]|?]; [right; exists p; by auto|by left|naive_solver].
Qed.

(** The follower loop collects the reachable instances. *)
Lemma boot_followers_iff p un l s' :
  (∀ x, x ∈ un ↔ unavailable x) → (∀ i, i ∈ l → i ∈ topo_Instances snapshot) →
  for_each (boot_follower owner p un) ∅ l = Ok s' ↔
    (∀ i, i ∈ l → follower (inst_ResourceID i) → follower_safe p i = true) ∧
    s' = foldl (λ s i, if bool_decide (inst_ResourceID i = owner ∨ inst_ResourceID i ∈ un) then s
                       else {[inst_ResourceID i]} ∪ s) ∅ l.
Proof.
  intros Hun Hl. rewrite (for_each_iff (λ _ i, inst_ResourceID i ≠ owner → inst_ResourceID i ∉ un → follower_safe p i = true)
    (λ s i, if bool_decide (inst_ResourceID i = owner ∨ inst_ResourceID i ∈ un) then s else {[inst_ResourceID i]} ∪ s)).
  - rewrite (forall_split (λ i, inst_ResourceID i ≠ owner → inst_ResourceID i ∉ un → follower_safe p i = true)).
    unfold follower. split; intros [H ->]; (split; [|done]).
    + intros i Hi (_ & ? & ?). apply H; [done..|by rewrite Hun].
    + intros i Hi Ho Hu. rewrite Hun in Hu. apply H; [done|]. split_and!; try done. exists i. auto.
  - intros s i s1. unfold boot_follower.
    destruct (bool_decide_reflect (inst_ResourceID i = owner)) as [Ho|Ho].
    { rewrite bool_decide_true by auto. split; [by intros [= ->]|by intros [_ ->]]. }
    destruct (bool_decide_reflect (inst_ResourceID i ∈ un)) as [Hu|Hu].
    { rewrite bool_decide_true by auto. split; [by intros [= ->]|by intros [_ ->]]. }
    rewrite bool_decide_false by tauto. destruct (follower_safe p i).
    + split; [by intros [= ->]|by intros [_ ->]].
    + split; [done|]. intros [H _]. by specialize (H Ho Hu).
Qed.
Lemma followers_set (un : gset ResourceID) l x : (∀ x, x ∈ un ↔ unavailable x) →
  x ∈ foldl (λ s i, if bool_decide (inst_ResourceID i = owner ∨ inst_ResourceID i ∈ un) then s
            else {[inst_ResourceID i]} ∪ s) (∅ : gset ResourceID) l ↔
  (∃ i, i ∈ l ∧ inst_ResourceID i = x) ∧ x ≠ owner ∧ ¬ unavailable x.
Proof.
  intros Hun. induction l as [|i l IH] using rev_ind; [set_solver|]. rewrite foldl_app. cbn.
  setoid_rewrite elem_of_app. setoid_rewrite list_elem_of_singleton. rewrite <- Hun in *.
  destruct (bool_decide_reflect (inst_ResourceID i = owner ∨ inst_ResourceID i ∈ un)) as [H|H];
    [|rewrite elem_of_union, elem_of_singleton]; rewrite IH; naive_solver.
Qed.

Lemma boot_links_iff un fs l s' :
  for_each (boot_link snapshot owner un fs) ∅ l = Ok s' ↔
    NoDup (link_TargetInstanceID <$> l) ∧
    (∀ k, k ∈ l → link_ClusterID k = topo_ClusterID snapshot ∧ link_SourceInstanceID k = owner ∧
       (link_TargetInstanceID k ∈ un ∧ link_Healthy k = false ∨
        link_TargetInstanceID k ∉ un ∧ link_TargetInstanceID k ∈ fs ∧ zeroLag (link_LagSeconds k) = true)) ∧
    s' = foldl (λ s k, {[link_TargetInstanceID k]} ∪ s) ∅ l.
Proof.
  rewrite (for_each_iff (λ s k, (link_ClusterID k = topo_ClusterID snapshot ∧ link_SourceInstanceID k = owner ∧
       (link_TargetInstanceID k ∈ un ∧ link_Healthy k = false ∨
        link_TargetInstanceID k ∉ un ∧ link_TargetInstanceID k ∈ fs ∧ zeroLag (link_LagSeconds k) = true)) ∧
       link_TargetInstanceID k ∉ s) (λ s k, {[link_TargetInstanceID k]} ∪ s)).
  - rewrite NoDup_seen, <- forall_split. split.
    + intros [H ->]. split_and!; [|by intros; eapply H|done]. intros pre a post Heq Hin.
      destruct (H pre a post Heq) as [_ Hn]. apply Hn, foldl_insert_set. by right.
    + intros (Hnd & Hg & ->). split; [|done]. intros pre a post Heq. split; [by eapply Hg|].
      rewrite foldl_insert_set. intros [?|?]; [set_solver|by eapply Hnd].
  - intros s k s1. unfold boot_link. split.
    + intros H. repeat bsimpl_step.
      destruct (bool_decide_reflect (link_TargetInstanceID k ∈ un)) as [Hu|Hu]; repeat bsimpl_step; simplify_eq; tauto.
    + intros [[(H1 & H2 & H3) H4] ->]. rewrite (bool_decide_true (_ = topo_ClusterID _)), (bool_decide_true (_ = owner)) by done.
      cbn. destruct H3 as [[Hu Hh]|(Hu & Hf & Hz)].
      * by rewrite (bool_decide_true (_ ∈ un)), Hh, (bool_decide_false (_ ∈ s)).
      * by rewrite (bool_decide_false (_ ∈ un)), Hz, (bool_decide_true (_ ∈ fs)), (bool_decide_false (_ ∈ s)).
Qed.

Lemma un_unavailable x : x ∈ (foldl probe_upd (∅, ∅) (topo_Probes snapshot)).2 ↔ unavailable x.
Proof. rewrite probes_unavailable. unfold unavailable. cbn. set_solver. Qed.
Lemma fs_follower x :
  x ∈ foldl (λ s i, if bool_decide (inst_ResourceID i = owner ∨
                        inst_ResourceID i ∈ (foldl probe_upd (∅, ∅) (topo_Probes snapshot)).2) then s
                    else {[inst_ResourceID i]} ∪ s) (∅ : gset ResourceID) (topo_Instances snapshot) ↔ follower x.
Proof. rewrite followers_set by apply un_unavailable. reflexivity. Qed.

Lemma index_ids l id i : NoDup (inst_ResourceID <$> l) → index_instances l ∅ !! id = Some i → inst_ResourceID i = id.
Proof. intros Hnd Hi%index_lookup; [by destruct Hi|done]. Qed.

(** The body after the instance loop. *)
Lemma candidate_tail c p : NoDup (inst_ResourceID <$> topo_Instances snapshot) →
  (probes ← for_each (boot_probe snapshot owner (index_instances (topo_Instances snapshot) ∅)) (∅, ∅) (topo_Probes snapshot);
   let '(_, unavailable) := probes in
   followers ← for_each (boot_follower owner c unavailable) ∅ (topo_Instances snapshot);
   _ ← reject (bool_decide (followers = ∅)) ErrBootReplicas;
   linked ← for_each (boot_link snapshot owner unavailable followers) ∅ (topo_Links snapshot);
   _ ← require (forallb (λ id, bool_decide (id ∈ linked)) (elements followers)) ErrBootLinks;
   Ok c) = Ok p ↔
  p = c ∧
  (NoDup (probe_InstanceID <$> topo_Probes snapshot) ∧
   (∀ probe, probe ∈ topo_Probes snapshot → probe_guard (index_instances (topo_Instances snapshot) ∅) probe)) ∧
  (∀ i, i ∈ topo_Instances snapshot → follower (inst_ResourceID i) → follower_safe c i = true) ∧
  (∃ id, follower id) ∧
  (NoDup (link_TargetInstanceID <$> topo_Links snapshot) ∧
   (∀ k, k ∈ topo_Links snapshot → link_ClusterID k = topo_ClusterID snapshot ∧ link_SourceInstanceID k = owner ∧
       (unavailable (link_TargetInstanceID k) ∧ link_Healthy k = false ∨
        follower (link_TargetInstanceID k) ∧ zeroLag (link_LagSeconds k) = true)) ∧
   (∀ x, follower x → x ∈ link_TargetInstanceID <$> topo_Links snapshot)).
Proof.
  intros Hnd. assert (∀ id i, index_instances (topo_Instances snapshot) ∅ !! id = Some i → inst_ResourceID i = id) as Hids
    by (intros; by eapply index_ids).
  rewrite result_bind_ok. setoid_rewrite (boot_probes_iff _ _ _ Hids).
  pose proof un_unavailable as Hun. pose proof fs_follower as Hfs.
  destruct (foldl probe_upd (∅, ∅) (topo_Probes snapshot)) as [pr un]. cbn [snd] in *.
  set (fs := foldl _ (∅ : gset ResourceID) (topo_Instances snapshot)) in *.
  assert (fs ≠ ∅ ↔ ∃ id, follower id) as Hsome.
  { setoid_rewrite <- Hfs. split; [by intros ?%set_choose_L|]. intros [x Hx] He. rewrite He in Hx. set_solver. }
  assert (∀ linked, forallb (λ id, bool_decide (id ∈ (linked : gset ResourceID))) (elements fs) = true ↔
    ∀ x, follower x → x ∈ linked) as Hlk.
  { intros linked. rewrite forallb_forall. setoid_rewrite <- Hfs. split.
    - intros H x Hx. apply elem_of_elements, list_elem_of_In, H in Hx. by apply bool_decide_eq_true_1 in Hx.
    - intros H x Hx%list_elem_of_In%elem_of_elements. by apply bool_decide_eq_true_2, H. }
  assert (∀ k, (link_TargetInstanceID k ∈ un ∧ link_Healthy k = false ∨
        link_TargetInstanceID k ∉ un ∧ link_TargetInstanceID k ∈ fs ∧ zeroLag (link_LagSeconds k) = true) ↔
     (unavailable (link_TargetInstanceID k) ∧ link_Healthy k = false ∨
        follower (link_TargetInstanceID k) ∧ zeroLag (link_LagSeconds k) = true)) as Hk.
  { intros k. rewrite Hfs, Hun. unfold follower. tauto. }
  split.
  - intros (? & (Hp1 & Hp2 & ->) & H). apply result_bind_ok in H as (fs' & Hf & H).
    apply (boot_followers_iff c un _ _ Hun) in Hf as [Hf ->]; [|done]. fold fs in H.
    rewrite reject_bind, result_bind_ok in H. destruct H as (Hne & linked & Hl & H).
    apply boot_links_iff in Hl as (Hl1 & Hl2 & ->). setoid_rewrite Hk in Hl2.
    apply require_bind in H as [Hall [= <-]]. rewrite Hlk in Hall. apply bool_decide_eq_false_1 in Hne.
    split_and!; try done; [by apply Hsome|]. intros x Hx. apply Hall, foldl_insert_set in Hx as [?|?]; [set_solver|done].
  - intros (-> & [Hp1 Hp2] & Hf & Hs & Hl1 & Hl2 & Hall). exists (pr, un). split; [done|]. cbv beta iota.
    apply result_bind_ok. exists fs. split; [by apply (boot_followers_iff c un _ _ Hun)|].
    rewrite reject_bind, result_bind_ok. split; [by apply bool_decide_eq_false_2, Hsome|].
    eexists. split; [apply boot_links_iff; setoid_rewrite Hk; done|]. apply require_bind. split; [|done].
    apply Hlk. intros x Hx. apply foldl_insert_set. right. by apply Hall.
Qed.

(** The probe conditions, in terms of the instances of the snapshot. *)
Lemma probes_evidence : NoDup (inst_ResourceID <$> topo_Instances snapshot) →
  (∀ i, i ∈ topo_Instances snapshot → instance_guard i) →
  (length (topo_Probes snapshot) = length (topo_Instances snapshot) ∧
   NoDup (probe_InstanceID <$> topo_Probes snapshot) ∧
   ∀ probe, probe ∈ topo_Probes snapshot → probe_guard (index_instances (topo_Instances snapshot) ∅) probe) ↔
  (probe_InstanceID <$> topo_Probes snapshot ≡ₚ inst_ResourceID <$> topo_Instances snapshot ∧
   ∀ probe i, probe ∈ topo_Probes snapshot → i ∈ topo_Instances snapshot → probe_InstanceID probe = inst_ResourceID i →
    health_State (probe_Health probe) = health_State (inst_Health i) ∧
    (probe_current snapshot probe = true ∨
     probe_failed_now snapshot probe = true ∧ inst_ResourceID i ≠ owner ∧ inst_Role i = RoleReplica)).
Proof.
  intros Hnd Hg. unfold probe_guard. setoid_rewrite index_lookup; [|done..]. split.
  - intros (Hlen & Hp & Hpr). split.
    + apply submseteq_length_Permutation; [|by rewrite !length_fmap, Hlen].
      apply NoDup_submseteq; [done|]. intros x (pr & -> & Hin)%list_elem_of_fmap.
      destruct (Hpr _ Hin) as (i & [Hi <-] & _). apply list_elem_of_fmap. by exists i.
    + intros pr i Hin Hi Hid. destruct (Hpr _ Hin) as (j & [Hj Hjd] & Hh & Hc).
      assert (j = i) as ->; [|tauto].
      assert (index_instances (topo_Instances snapshot) ∅ !! inst_ResourceID i = Some i) as H1 by by apply index_lookup.
      assert (index_instances (topo_Instances snapshot) ∅ !! inst_ResourceID i = Some j) as H2; [|congruence].
      apply index_lookup; [done|]. by rewrite Hjd, Hid.
  - intros [Hperm Hpr]. split_and!.
    + apply Permutation_length in Hperm. by rewrite !length_fmap in Hperm.
    + by rewrite Hperm.
    + intros pr Hin. assert (probe_InstanceID pr ∈ inst_ResourceID <$> topo_Instances snapshot) as (i & Hid & Hi)%list_elem_of_fmap.
      { rewrite <- Hperm. apply list_elem_of_fmap. by exists pr. }
      exists i. destruct (Hpr pr i Hin Hi Hid) as [Hh Hc]. destruct (Hg i Hi) as (_ & _ & _ & Hro & _).
      symmetry in Hid. tauto.
Qed.

Lemma candidate_head now maxAge p :
  RebootBootstrapCandidate snapshot owner now maxAge = Ok p → bootstrap_evidence now maxAge p.
Proof.
  unfold RebootBootstrapCandidate. cbv zeta. rewrite !reject_bind, require_bind, result_bind_ok.
  intros (H1 & H2 & _ & H4 & [m c] & Hi & H). apply boot_instances_iff in Hi as (Hnd & Hg & -> & ->).
  rewrite !reject_bind, require_bind in H. destruct H as (H5 & H6 & H7 & H).
  apply Nat.eqb_eq in H7. apply (candidate_tail _ _ Hnd) in H as (-> & [Hp1 Hp2] & Hf & Hs & Hl1 & Hl2 & Hl3).
  destruct (proj1 (probes_evidence Hnd Hg)) as [Hperm Hpr]; [done|].
  unfold IsZero, zero_time in H2. repeat bsimpl_step.
  destruct (canonical_found _ Hnd ltac:(eassumption)) as [Hc _]. destruct Hc as [Hc1 Hc2]; [done|].
  split; try done; split_and!; done.
Qed.

(** C34: [RebootBootstrapCandidate] selects an instance exactly on complete
    evidence: a fresh, anomaly-free snapshot in which every instance is in
    scope, fully read-only and out of maintenance, each has one probe that is
    current or (for a replica) failed at this very observation, the candidate
    is the fenced canonical owner, at least one replica is reachable, every
    reachable replica has caught up with the candidate, and the replication
    links are one edge from the candidate to each of them.  The many loops and
    early returns accept nothing more and nothing less, in any order of the
    snapshot's lists. *)
Theorem RebootBootstrapCandidate_exact now maxAge p :
  RebootBootstrapCandidate snapshot owner now maxAge = Ok p ↔ bootstrap_evidence now maxAge p.
Proof.
  split; [apply candidate_head|].
  intros [[Hs1 Hs2] (Hf1 & Hf2 & Hf3) Ha Hu Hi (Hc1 & Hc2 & Hc3 & Hc4 & Hc5 & Hc6) Hp1 Hp2 Hfo Hso Hl1 Hl2 Hl3].
  unfold RebootBootstrapCandidate. cbv zeta. rewrite !reject_bind, require_bind, result_bind_ok.
  rewrite Hs1, Hs2. unfold IsZero, zero_time. split; [done|]. split; [|split; [|split; [by apply bool_decide_eq_true_2|]]].
  - apply orb_false_iff; split; [apply orb_false_iff; split|]; [by apply Z.eqb_neq|by apply Z.ltb_ge..].
  - destruct Hso as (id & (i & Hin & Hid) & Hne & _). apply Nat.ltb_ge.
    destruct (topo_Instances snapshot) as [|a [|b l]]; [by apply elem_of_nil in Hc1| |cbn; lia].
    apply list_elem_of_singleton in Hc1, Hin. congruence.
  - exists (index_instances (topo_Instances snapshot) ∅, p). split.
    { apply boot_instances_iff. split_and!; try done. symmetry. by apply canonical_found. }
    assert (ValidResourceID "" = false) as Hemp by done.
    rewrite !reject_bind, require_bind. rewrite Hc4, Hc5, Hc6, (bool_decide_false (_ = "" :> string)) by congruence.
    rewrite (bool_decide_false (_ = "")) by done. split_and!; [done..| |].
    + apply Permutation_length in Hp1. rewrite !length_fmap in Hp1. by apply Nat.eqb_eq.
    + destruct (proj2 (probes_evidence Hu Hi)) as (_ & Hnp & Hgp); [done|].
      apply (candidate_tail p p Hu). split_and!; done.
Qed.
End evidence.

(** ** Concrete instances *)

Definition wb_cluster : ResourceID := "11111111-1111-4111-8111-111111111111".
Definition wb_owner : ResourceID := "33333333-3333-4333-8333-333333333333".
Definition wb_replica : ResourceID := "44444444-4444-4444-8444-444444444444".
Definition wb_offline : ResourceID := "55555555-5555-4555-8555-555555555555".
Definition wb_now : Time := 1000 * Second.
Definition wb_uuid : string := "3E11FA47-71CA-11E1-9E33-C80AA9429562".
Definition wb_read_only : gmap string string := {[ "read_only" := "ON"; "super_read_only" := "1" ]}.
Definition wb_member (id : ResourceID) (role : InstanceRole) (state : HealthState) : DatabaseInstance :=
  zero_DatabaseInstance <| inst_ResourceID := id |> <| inst_ClusterID := wb_cluster |>
    <| inst_Engine := EngineMySQL |> <| inst_Role := role |>
    <| inst_EngineMetadata := wb_read_only |> <| inst_Health := zero_Health <| health_State := state |> |>.
Definition wb_p : DatabaseInstance :=
  (wb_member wb_owner RoleUnknown HealthDegraded) <| inst_EngineIdentity := {[ "server_uuid" := wb_uuid ]} |>.
Definition wb_r : DatabaseInstance :=
  (wb_member wb_replica RoleReplica HealthHealthy)
    <| inst_Replication := zero_ReplicationStatus <| repl_IOThread := ThreadRunning |>
         <| repl_SQLThread := ThreadRunning |> <| repl_LagSeconds := Some 0 |>
         <| repl_SourceIdentity := {[ "server_uuid" := ToLower wb_uuid ]} |> |>.
Definition wb_o : DatabaseInstance := wb_member wb_offline RoleReplica HealthUnhealthy.
Definition wb_probe (id : ResourceID) (state : HealthState) (at_ : Time) : ProbeStatus :=
  zero_ProbeStatus <| probe_InstanceID := id |> <| probe_DiscoveryObservedAt := at_ |>
    <| probe_Health := zero_Health <| health_State := state |> <| health_ObservedAt := wb_now |> |>.
Definition wb_link (target : ResourceID) (healthy : bool) (lag : option Z) : ReplicationLink :=
  zero_ReplicationLink <| link_ClusterID := wb_cluster |> <| link_SourceInstanceID := wb_owner |>
    <| link_TargetInstanceID := target |> <| link_Healthy := healthy |> <| link_LagSeconds := lag |>.
Definition wb_topology : TopologySnapshot :=
  mkTopologySnapshot wb_cluster [wb_r; wb_p; wb_o]
    [wb_link wb_offline false None; wb_link wb_replica true (Some 0)]
    [wb_probe wb_owner HealthDegraded wb_now; wb_probe wb_offline HealthUnhealthy 0;
     wb_probe wb_replica HealthHealthy wb_now] zero_Health [] wb_now.

(** A fenced primary with one caught-up and one offline replica is selected;
    as soon as the offline one is a primary it is not. *)
Lemma RebootBootstrapCandidate_exact_witness :
  bootstrap_evidence wb_topology wb_owner (wb_now + 5 * Second) 0 wb_p ∧
  RebootBootstrapCandidate
    (wb_topology <| topo_Instances := [wb_r; wb_p; wb_o <| inst_Role := RolePrimary |>] |>)
    wb_owner (wb_now + 5 * Second) 0 = Err ErrBootUnavailable.
Proof.
  split; [|by vm_compute].
  apply (proj1 (RebootBootstrapCandidate_exact wb_topology wb_owner (wb_now + 5 * Second) 0 wb_p)).
  vm_compute. reflexivity.
Defined.
