(* ===== verification/Ownership.v ===== *)
(** * internal/coordination/ownership_keeper.go, ownership_ack.go: who keeps the writer VIP

    The keeper runs on the leading controller.  In each round it looks, for
    every cluster, at the stored topology and at the observed owners of the
    VIP, decides which instance may own the VIP, commits that owner to the
    metadata and asks for the stable leases of all clusters in one batch.  The
    clusters are reconciled concurrently in the code; each of them reads and
    commits the records of its own cluster only, so here they follow one
    another. *)
From S2P Require Import Prelude GoStd Model Endpoint Lease Locks Gtid Repository Inventory Operations Power.
From S2P Require Import AgentProtocol FailureWindow HAEndpoints Interfaces LinuxVIP Bootstrap.

(** ** Probes *)

Definition probe_of (instanceID : ResourceID) (probe : ProbeStatus) : bool := probe_InstanceID probe == instanceID.
(** At least one probe of the instance, and all of them satisfy [good]. *)
Definition probes_all (good : ProbeStatus → bool) (snapshot : TopologySnapshot) (instanceID : ResourceID) : bool :=
  existsb (probe_of instanceID) (topo_Probes snapshot) &&
  forallb (λ probe, negb (probe_of instanceID probe) || good probe) (topo_Probes snapshot).
Definition probe_succeeded (snapshot : TopologySnapshot) (probe : ProbeStatus) : bool :=
  Equal (probe_DiscoveryObservedAt probe) (topo_ObservedAt snapshot) && (health_State (probe_Health probe) == HealthHealthy).
Definition currentSuccessfulProbe (snapshot : TopologySnapshot) : ResourceID → bool :=
  probes_all (probe_succeeded snapshot) snapshot.
Definition probe_failed (snapshot : TopologySnapshot) (probe : ProbeStatus) : bool :=
  IsZero (probe_DiscoveryObservedAt probe) && Equal (health_ObservedAt (probe_Health probe)) (topo_ObservedAt snapshot) &&
  ((health_State (probe_Health probe) == HealthUnknown) || (health_State (probe_Health probe) == HealthUnhealthy)).
Definition currentFailedProbe (snapshot : TopologySnapshot) : ResourceID → bool :=
  probes_all (probe_failed snapshot) snapshot.
Definition probe_ack_degraded (snapshot : TopologySnapshot) (probe : ProbeStatus) : bool :=
  Equal (probe_DiscoveryObservedAt probe) (topo_ObservedAt snapshot) &&
  (health_State (probe_Health probe) == HealthDegraded) &&
  ((probe_Outcome probe == ProbeOutcomeReachable) || (probe_Outcome probe == ProbeOutcomeMetricsUnavailable)).
Definition currentACKDegradedProbe (snapshot : TopologySnapshot) : ResourceID → bool :=
  probes_all (probe_ack_degraded snapshot) snapshot.

(** ** The writable primary *)

Definition metadata_false (metadata : gmap string string) (key : string) : bool :=
  EqualFold (TrimSpace (mget metadata key)) "false".
Definition primaryProvenWritable (primary : DatabaseInstance) : bool :=
  let metadata := inst_EngineMetadata primary in
  match inst_Engine primary with
  | EngineMySQL => metadata_false metadata "read_only" && metadata_false metadata "super_read_only"
  | EnginePostgreSQL => metadata_false metadata "in_recovery" && metadata_false metadata "transaction_read_only"
  | _ => false
  end.

Inductive ownership_error : Type :=
| ErrMultiplePrimaries | ErrAmbiguousPrimary | ErrNoPrimary | ErrStaleTopology | ErrUnsafeOwnership
| ErrControlledRecovery | ErrBootstrapCoverage | ErrBootstrapMetadata | ErrBootstrapOwner | ErrBootstrapUnsafe
| ErrBootstrapBlocked (e : bootstrap_error) | ErrMajorityCoverage | ErrNonPrimaryOwner | ErrZeroOwnerMetadata
| ErrBootstrapOwned.

Definition writable_here (snapshot : TopologySnapshot) (instance : DatabaseInstance) : bool :=
  (health_State (inst_Health instance) == HealthHealthy) && primaryProvenWritable instance &&
  currentSuccessfulProbe snapshot (inst_ResourceID instance).
Definition writable_step (snapshot : TopologySnapshot) (primary instance : DatabaseInstance)
  : result ownership_error DatabaseInstance :=
  if inst_Role instance != RolePrimary then Ok primary
  else if writable_here snapshot instance then
    _ ← require (inst_ResourceID primary == "") ErrMultiplePrimaries; Ok instance
  else
    _ ← require (currentFailedProbe snapshot (inst_ResourceID instance)) ErrAmbiguousPrimary; Ok primary.
Definition writablePrimary (snapshot : TopologySnapshot) : result ownership_error DatabaseInstance :=
  primary ← for_each (writable_step snapshot) zero_DatabaseInstance (topo_Instances snapshot);
  _ ← require (ValidResourceID (inst_ResourceID primary)) ErrNoPrimary;
  Ok primary.

(** ** A primary whose semi-synchronous acknowledgements are missing *)

Definition mysqlPrimaryACKOnlyDegraded (metadata : gmap string string) : bool :=
  forallb (λ key, mysqlBooleanIs metadata key true)
    ["semi_sync_ack_missing"; "semi_sync_required"; "semi_sync_available"; "semi_sync_source_enabled"] &&
  negb (bool_decide (is_Some (metadata !! "semi_sync_probe_error")) &&
        negb (mysqlBooleanIs metadata "semi_sync_probe_error" false)) &&
  (TrimSpace (mget metadata "semi_sync_wait_point") == "AFTER_SYNC") &&
  let status := TrimSpace (mget metadata "semi_sync_source_status") in
  match Atoi (TrimSpace (mget metadata "semi_sync_wait_for_replica_count")),
        Atoi (TrimSpace (mget metadata "semi_sync_source_clients")) with
  | Some required, Some clients =>
      ((status == "true") || (status == "false")) && negb (required <? 1) && negb (clients <? 0) &&
      ((status == "false") || (clients <? required))
  | _, _ => false
  end.

(** The loops over the instances and over the observed IDs, which reject early. *)
Definition ack_instance (snapshot : TopologySnapshot) (st : gset ResourceID * DatabaseInstance)
    (instance : DatabaseInstance) : result unit (gset ResourceID * DatabaseInstance) :=
  let '(instances, primary) := st in
  _ ← reject (negb (ValidResourceID (inst_ResourceID instance)) || bool_decide (inst_ResourceID instance ∈ instances) ||
              (inst_ClusterID instance != topo_ClusterID snapshot) || (inst_Engine instance != EngineMySQL)) tt;
  _ ← reject ((inst_Role instance == RolePrimary) && (inst_ResourceID primary != "")) tt;
  Ok ({[inst_ResourceID instance]} ∪ instances, if inst_Role instance == RolePrimary then instance else primary).
Definition observed_step (admissible : ResourceID → bool) (observed : gset ResourceID) (id : ResourceID)
  : result unit (gset ResourceID) :=
  _ ← require (admissible id && negb (bool_decide (id ∈ observed))) tt;
  Ok ({[id]} ∪ observed).
Definition observed_set (admissible : ResourceID → bool) (ids : list ResourceID) : result unit (gset ResourceID) :=
  for_each (observed_step admissible) ∅ ids.
Definition sole_owner (observation : OwnershipObservation) (id : ResourceID) : bool :=
  (oo_CanonicalOwnerID observation == id) && (oo_EndpointOwnerID observation == id) &&
  bool_decide (oo_OwnerIDs observation = [id]).
Definition ack_primary (snapshot : TopologySnapshot) (primary : DatabaseInstance) : bool :=
  ValidResourceID (inst_ResourceID primary) && negb (inst_Maintenance primary) &&
  (health_State (inst_Health primary) == HealthDegraded) && primaryProvenWritable primary &&
  (repl_SourceIdentity (inst_Replication primary) == ∅) &&
  mysqlPrimaryACKOnlyDegraded (inst_EngineMetadata primary) &&
  currentACKDegradedProbe snapshot (inst_ResourceID primary).
Definition ackDegradedPrimaryForRenewal (snapshot : TopologySnapshot) (observation : OwnershipObservation)
  : result unit DatabaseInstance :=
  _ ← require (ValidResourceID (topo_ClusterID snapshot)) tt;
  st ← for_each (ack_instance snapshot) (∅, zero_DatabaseInstance) (topo_Instances snapshot);
  let '(instances, primary) := st in
  _ ← require (ack_primary snapshot primary) tt;
  _ ← require (sole_owner observation (inst_ResourceID primary)) tt;
  observed ← observed_set (λ id, bool_decide (id ∈ instances)) (oo_ObservedInstanceIDs observation);
  _ ← reject (negb (bool_decide (inst_ResourceID primary ∈ observed)) ||
              (oo_Complete observation && negb (Nat.eqb (size observed) (size instances)))) tt;
  Ok primary.

(** ** Partial coverage *)

Definition safePartialOwnershipCoverage (snapshot : TopologySnapshot) (observation : OwnershipObservation)
    (primaryID : ResourceID) : bool :=
  if oo_Complete observation || negb (ValidResourceID primaryID) || negb (sole_owner observation primaryID) then false
  else match observed_set ValidResourceID (inst_ResourceID <$> topo_Instances snapshot) with
  | Err _ => false
  | Ok instanceIDs =>
      if Nat.eqb (size instanceIDs) 0 then false
      else match observed_set (λ id, ValidResourceID id && bool_decide (id ∈ instanceIDs))
                   (oo_ObservedInstanceIDs observation) with
      | Err _ => false
      | Ok observedIDs =>
          bool_decide (primaryID ∈ observedIDs) && Nat.ltb (size instanceIDs / 2) (size observedIDs)
      end
  end.

(** ** A round *)

Definition agentOwnershipProtocolSupported (engine : Engine) : bool :=
  (engine == EngineMySQL) || (engine == EnginePostgreSQL).
Definition endpoint_mutating (record : OperationRecord) : bool :=
  (rec_Status record == OperationRunning) &&
  match opn_Kind (rec_Operation record) with
  | OperationSwitchover | OperationFailover | OperationFormerPrimaryRejoin => true
  | _ => false
  end.

(** [OwnershipInventory] with [OwnershipOperationInventory], [OwnershipObserver], [OwnershipLeaseStore]. *)
Class OwnershipInventory (W E : Type) := {
  own_Clusters : W → list DatabaseCluster;
  own_TopologySnapshot : ResourceID → W → option TopologySnapshot;
  own_Operations : ResourceID → W → list OperationRecord;
  own_CommitObservedHAEndpointOwner : ResourceID → ResourceID → uint64 → uint64 → ResourceID → bool →
    W → W * result E unit
}.
Class OwnershipObserver (W E : Type) := {
  own_ObserveOwnership : DatabaseCluster → TopologySnapshot → W → W * result E OwnershipObservation
}.
Class OwnershipLeaseStore (W E : Type) := {
  own_AcquireStableBatch : list LeaseRequest → W → W * result E unit
}.

Inductive keeper_error (E : Type) : Type := ErrKeeper (e : ownership_error) | ErrOutside (e : E).
Arguments ErrKeeper {E}. Arguments ErrOutside {E}.
(** How the owner of a request was chosen. *)
Inductive keeper_mode : Type := ModeWritable | ModeACK | ModeBootstrap | ModeConvergence.

Section keeper.
Context {W E : Type} `{!OwnershipInventory W E, !OwnershipObserver W E, !OwnershipLeaseStore W E}.
Variables (interval maxAge : Duration).
Implicit Types (w : W).

Definition controlledPostgreSQLEndpointMutationActive (cluster : DatabaseCluster) w : bool :=
  (cluster_Engine cluster == EnginePostgreSQL) &&
  existsb endpoint_mutating (own_Operations (cluster_ResourceID cluster) w).

Definition topology_stale (now : Time) (snapshot : TopologySnapshot) : bool :=
  IsZero (topo_ObservedAt snapshot) || (maxAge <? Sub now (topo_ObservedAt snapshot)) ||
  After (topo_ObservedAt snapshot) (Add now interval).

(** The primary of the request and how it was found. *)
Definition bootstrap_mode (observation : OwnershipObservation) : result ownership_error keeper_mode :=
  match oo_OwnerIDs observation with
  | [] => Ok ModeBootstrap
  | [owner] => if owner != oo_CanonicalOwnerID observation then Err ErrBootstrapOwner else Ok ModeConvergence
  | _ => Err ErrBootstrapUnsafe
  end.
Definition bootstrap_primary (now : Time) (cluster : DatabaseCluster) (snapshot : TopologySnapshot)
    (observation : OwnershipObservation) : result ownership_error (DatabaseInstance * keeper_mode) :=
  _ ← require (cluster_Engine cluster == EngineMySQL) ErrControlledRecovery;
  _ ← require (oo_Complete observation) ErrBootstrapCoverage;
  _ ← require (oo_CanonicalOwnerID observation == oo_EndpointOwnerID observation) ErrBootstrapMetadata;
  mode ← bootstrap_mode observation;
  match RebootBootstrapCandidate snapshot (oo_CanonicalOwnerID observation) now maxAge with
  | Ok primary => Ok (primary, mode)
  | Err e => Err (ErrBootstrapBlocked e)
  end.
Definition select_owner (now : Time) (cluster : DatabaseCluster) (snapshot : TopologySnapshot)
    (observation : OwnershipObservation) : result ownership_error (DatabaseInstance * keeper_mode) :=
  match writablePrimary snapshot with
  | Ok primary => Ok (primary, ModeWritable)
  | Err _ =>
      match (if cluster_Engine cluster == EngineMySQL then ackDegradedPrimaryForRenewal snapshot observation else Err tt) with
      | Ok candidate => Ok (candidate, ModeACK)
      | Err _ => bootstrap_primary now cluster snapshot observation
      end
  end.
(** The guards after the selection; whether the request only renews. *)
Definition owner_guards (snapshot : TopologySnapshot) (observation : OwnershipObservation)
    (primary : DatabaseInstance) (mode : keeper_mode) : result ownership_error bool :=
  let id := inst_ResourceID primary in
  let owners := oo_OwnerIDs observation in
  let partialRenewal := negb (oo_Complete observation) in
  _ ← reject (partialRenewal && negb (safePartialOwnershipCoverage snapshot observation id)) ErrMajorityCoverage;
  _ ← reject (match owners with [owner] => owner != id | _ => false end) ErrNonPrimaryOwner;
  _ ← reject (bool_decide (owners = []) &&
              ((oo_CanonicalOwnerID observation != id) || (oo_EndpointOwnerID observation != id))) ErrZeroOwnerMetadata;
  _ ← reject (match mode with ModeBootstrap => negb (bool_decide (owners = [])) | _ => false end) ErrBootstrapOwned;
  Ok (partialRenewal || match mode with ModeConvergence | ModeACK => true | _ => false end).

Definition stable_request (cluster : DatabaseCluster) (observation : OwnershipObservation) (primary : DatabaseInstance)
    (renewOnly : bool) : LeaseRequest :=
  mkLeaseRequest (cluster_ResourceID cluster) (oo_HAEndpointID observation) (oo_HAEndpointID observation)
    (inst_ResourceID primary) "" Minute renewOnly.

Definition reconcileCluster (cluster : DatabaseCluster) (now : Time) w : W * result (keeper_error E) LeaseRequest :=
  match own_TopologySnapshot (cluster_ResourceID cluster) w with
  | None => (w, Err (ErrKeeper ErrStaleTopology))
  | Some snapshot =>
      if topology_stale now snapshot then (w, Err (ErrKeeper ErrStaleTopology))
      else
        let '(w, observed) := own_ObserveOwnership cluster snapshot w in
        match observed with
        | Err e => (w, Err (ErrOutside e))
        | Ok observation =>
            if negb (ValidResourceID (oo_HAEndpointID observation)) || Nat.ltb 1 (length (oo_OwnerIDs observation))
            then (w, Err (ErrKeeper ErrUnsafeOwnership))
            else match select_owner now cluster snapshot observation with
            | Err e => (w, Err (ErrKeeper e))
            | Ok (primary, mode) =>
                match owner_guards snapshot observation primary mode with
                | Err e => (w, Err (ErrKeeper e))
                | Ok renewOnly =>
                    let request := stable_request cluster observation primary renewOnly in
                    if renewOnly then (w, Ok request)
                    else
                      let '(w, committed) := own_CommitObservedHAEndpointOwner (cluster_ResourceID cluster)
                        (oo_HAEndpointID observation) (oo_HAEndpointRevision observation)
                        (oo_EndpointRevision observation) (inst_ResourceID primary)
                        (Nat.eqb (length (oo_OwnerIDs observation)) 1) w in
                      (w, match committed with Ok _ => Ok request | Err e => Err (ErrOutside e) end)
                end
            end
        end
  end.

(** The clusters a round looks at. *)
Definition kept_cluster w (cluster : DatabaseCluster) : bool :=
  negb (DisasterRecoveryActive cluster) && agentOwnershipProtocolSupported (cluster_Engine cluster) &&
  negb (controlledPostgreSQLEndpointMutationActive cluster w).
Fixpoint reconcile_clusters (clusters : list DatabaseCluster) (now : Time) w
  : W * list LeaseRequest * list (keeper_error E) :=
  match clusters with
  | [] => (w, [], [])
  | cluster :: clusters =>
      let '(w, r) := reconcileCluster cluster now w in
      let '(w, requests, failures) := reconcile_clusters clusters now w in
      match r with
      | Ok request => (w, request :: requests, failures)
      | Err e => (w, requests, e :: failures)
      end
  end.
(** [RunOnce]: [contextDone] is [ctx.Err() != nil], [authorized] the answer of
    the mutation authority; the errors are joined, [[]] is success. *)
Inductive run_error : Type := ErrRunContext | ErrRun (e : keeper_error E).
Definition RunOnce (contextDone authorized : bool) (now : Time) w : W * list run_error :=
  if contextDone then (w, [ErrRunContext])
  else if negb authorized then (w, [])
  else
    let '(w, requests, failures) := reconcile_clusters (List.filter (kept_cluster w) (own_Clusters w)) now w in
    match requests with
    | [] => (w, ErrRun <$> failures)
    | _ =>
        let '(w, r) := own_AcquireStableBatch requests w in
        (w, (ErrRun <$> failures) ++ match r with Ok _ => [] | Err e => [ErrRun (ErrOutside e)] end)
    end.
End keeper.

(** ** What a request is based on *)

Lemma observed_set_spec admissible ids s :
  observed_set admissible ids = Ok s ↔ NoDup ids ∧ Forall (λ id, admissible id = true) ids ∧ s = list_to_set ids.
Proof.
  unfold observed_set. rewrite (for_each_iff (λ s id, admissible id = true ∧ id ∉ s) (λ s id, {[id]} ∪ s)).
  2: { intros s0 id s'. unfold observed_step. rewrite require_bind, andb_true_iff, negb_true_iff, bool_decide_eq_false. naive_solver. }
  assert (∀ l s0, foldl (λ (s : gset ResourceID) id, {[id]} ∪ s) s0 l = list_to_set l ∪ s0) as Hfold.
  { induction l as [|a l IH]; intros s0; cbn; [set_solver|]. rewrite IH. set_solver. }
  rewrite Hfold, union_empty_r_L. split.
  - intros [Hg ->]. split_and!; [|apply Forall_forall; intros id (pre & post & ->)%list_elem_of_split; by apply (Hg pre id post)|done].
    rewrite <- (list_fmap_id ids). apply NoDup_seen. intros pre a post ->. rewrite list_fmap_id.
    destruct (Hg pre a post eq_refl) as [_ Hn]. rewrite Hfold in Hn. set_solver.
  - intros (Hnd & Hf & ->). split; [|done]. intros pre a post ->. rewrite Hfold. rewrite Forall_forall in Hf.
    split; [apply Hf; set_solver|]. apply NoDup_app in Hnd as (_ & Hd & _). set_solver.
Qed.

Lemma ValidResourceID_zero : ValidResourceID "" = false.
Proof. done. Qed.

(** [p] is the only primary of the topology that accepts writes: every other
    member in that role failed its latest probe. *)
Definition only_writable (snapshot : TopologySnapshot) (p : DatabaseInstance) : Prop :=
  p ∈ topo_Instances snapshot ∧ inst_Role p = RolePrimary ∧ writable_here snapshot p = true ∧
  ∀ q, q ∈ topo_Instances snapshot → inst_Role q = RolePrimary → ValidResourceID (inst_ResourceID q) = true →
    q = p ∨ currentFailedProbe snapshot (inst_ResourceID q) = true.
Lemma writablePrimary_sound snapshot p : writablePrimary snapshot = Ok p → only_writable snapshot p.
Proof.
  unfold writablePrimary. rewrite result_bind_ok. intros (p0 & Hl & Hv). apply require_bind in Hv as [Hv [= ->]].
  eapply (for_each_inv (λ pre p, (p = zero_DatabaseInstance ∨ p ∈ pre ∧ inst_Role p = RolePrimary ∧ writable_here snapshot p = true) ∧
    ∀ q, q ∈ pre → inst_Role q = RolePrimary → ValidResourceID (inst_ResourceID q) = true →
      q = p ∨ currentFailedProbe snapshot (inst_ResourceID q) = true)) in Hl as [[->|(? & ? & ?)] Hq]; [done|done| |].
  - split; [by left|]. set_solver.
  - clear Hl. intros pre a post s1 s2 _ [Hs Hq] Ha. unfold writable_step in Ha.
    destruct (bool_decide_reflect (inst_Role a = RolePrimary)) as [Hr|Hr]; cbn [negb] in Ha.
    2: { injection Ha as <-. split; [destruct Hs as [->|(? & ? & ?)]; [by left|right; set_solver]|]. set_solver. }
    destruct (writable_here snapshot a) eqn:Hw; apply require_bind in Ha as [Hg [= <-]].
    + apply bool_decide_eq_true_1 in Hg. split; [right; set_solver|].
      intros q [Hin| ->%list_elem_of_singleton]%elem_of_app Hrq Hvq; [|by left].
      destruct (Hq q Hin Hrq Hvq) as [->|?]; [|by right]. by rewrite Hg in Hvq.
    + split; [destruct Hs as [->|(? & ? & ?)]; [by left|right; set_solver]|].
      intros q [Hin| ->%list_elem_of_singleton]%elem_of_app Hrq Hvq; [by apply Hq|by right].
Qed.

(** [p] is the only primary, and lacks nothing but acknowledging replicas. *)
Definition ack_renewal (snapshot : TopologySnapshot) (observation : OwnershipObservation) (p : DatabaseInstance) : Prop :=
  p ∈ topo_Instances snapshot ∧ inst_Role p = RolePrimary ∧ ack_primary snapshot p = true ∧
  sole_owner observation (inst_ResourceID p) = true ∧ inst_ResourceID p ∈ oo_ObservedInstanceIDs observation ∧
  NoDup (inst_ResourceID <$> topo_Instances snapshot) ∧
  ∀ q, q ∈ topo_Instances snapshot → inst_Engine q = EngineMySQL ∧ (inst_Role q = RolePrimary → q = p).
Lemma ack_instances_sound snapshot instances p :
  for_each (ack_instance snapshot) (∅, zero_DatabaseInstance) (topo_Instances snapshot) = Ok (instances, p) →
  ValidResourceID (inst_ResourceID p) = true →
  p ∈ topo_Instances snapshot ∧ inst_Role p = RolePrimary ∧ NoDup (inst_ResourceID <$> topo_Instances snapshot) ∧
  ∀ q, q ∈ topo_Instances snapshot → inst_Engine q = EngineMySQL ∧ (inst_Role q = RolePrimary → q = p).
Proof.
  intros Hl. eapply (for_each_inv (λ pre st, st.1 = list_to_set (inst_ResourceID <$> pre) ∧ NoDup (inst_ResourceID <$> pre) ∧
    (st.2 = zero_DatabaseInstance ∨ st.2 ∈ pre ∧ inst_Role st.2 = RolePrimary) ∧
    ∀ q, q ∈ pre → inst_Engine q = EngineMySQL ∧ ValidResourceID (inst_ResourceID q) = true ∧ (inst_Role q = RolePrimary → q = st.2))) in Hl.
  - cbn in Hl. destruct Hl as (_ & Hnd & Hp & Hq). intros Hv. destruct Hp as [->|[? ?]]; [done|].
    split_and!; [done..|]. intros q Hin. by destruct (Hq q Hin) as (? & _ & ?).
  - cbn. split_and!; [done|constructor|by left|set_solver].
  - intros pre a post [s1 p1] [s2 p2] _ (Hs & Hnd & Hp & Hq) Ha. cbn in Hs, Hp, Hq. unfold ack_instance in Ha.
    apply reject_bind in Ha as [Hg Ha]. apply reject_bind in Ha as [Hr [= <- <-]].
    apply orb_false_iff in Hg as [[[Hg1 Hg2]%orb_false_iff Hg3]%orb_false_iff Hg4].
    apply negb_false_iff in Hg1. apply bool_decide_eq_false in Hg2. apply negb_false_iff, bool_decide_eq_true_1 in Hg4.
    cbn. rewrite fmap_app, list_to_set_app_L. cbn. split_and!.
    + rewrite Hs. set_solver.
    + rewrite NoDup_app. split_and!; [done|set_solver|apply NoDup_singleton].
    + destruct (bool_decide_reflect (inst_Role a = RolePrimary)) as [Hrole|Hrole]; [right; set_solver|].
      destruct Hp as [->|[? ?]]; [by left|right; set_solver].
    + intros q [Hin| ->%list_elem_of_singleton]%elem_of_app.
      * destruct (Hq q Hin) as (? & Hvq & He). split_and!; [done..|]. intros Hrq. specialize (He Hrq) as ->.
        destruct (bool_decide_reflect (inst_Role a = RolePrimary)) as [Hrole|Hrole]; [|done].
        cbn in Hr. apply negb_false_iff, bool_decide_eq_true_1 in Hr. by rewrite Hr in Hvq.
      * split_and!; [done..|]. intros Hra. by rewrite bool_decide_true.
Qed.
Lemma ackDegraded_sound snapshot observation p :
  ackDegradedPrimaryForRenewal snapshot observation = Ok p → ack_renewal snapshot observation p.
Proof.
  unfold ackDegradedPrimaryForRenewal. rewrite require_bind, result_bind_ok. intros (_ & [instances p0] & Hl & Ha).
  apply require_bind in Ha as [Hp Ha]. apply require_bind in Ha as [Hs Ha].
  apply result_bind_ok in Ha as (observed & Ho & Ha). apply reject_bind in Ha as [Hin [= ->]].
  apply observed_set_spec in Ho as (_ & _ & ->). apply orb_false_iff in Hin as [Hin _].
  apply negb_false_iff, bool_decide_eq_true_1 in Hin. apply elem_of_list_to_set in Hin.
  assert (ValidResourceID (inst_ResourceID p) = true) as Hv by (unfold ack_primary in Hp; by do 6 (apply andb_true_iff in Hp as [Hp _])).
  destruct (ack_instances_sound _ _ _ Hl Hv) as (? & ? & ? & ?). by split_and!.
Qed.

(** A partial observation that suffices: it saw a majority of the members. *)
Lemma partial_sound snapshot observation id : safePartialOwnershipCoverage snapshot observation id = true →
  sole_owner observation id = true ∧ id ∈ oo_ObservedInstanceIDs observation ∧
  NoDup (oo_ObservedInstanceIDs observation) ∧ oo_ObservedInstanceIDs observation ⊆ inst_ResourceID <$> topo_Instances snapshot ∧
  (length (topo_Instances snapshot) < 2 * length (oo_ObservedInstanceIDs observation))%nat.
Proof.
  unfold safePartialOwnershipCoverage. destruct (oo_Complete observation); [done|].
  destruct (ValidResourceID id); [|done]. destruct (sole_owner observation id); [|done]. cbn [negb orb].
  destruct (observed_set ValidResourceID _) as [ids|] eqn:Hi; [|done]. apply observed_set_spec in Hi as (Hnd & _ & ->).
  destruct (Nat.eqb _ 0); [done|]. destruct (observed_set _ (oo_ObservedInstanceIDs observation)) as [obs|] eqn:Ho; [|done].
  apply observed_set_spec in Ho as (Hndo & Hf & ->). intros [Hin Hlt]%andb_true_iff.
  apply bool_decide_eq_true_1, elem_of_list_to_set in Hin. apply Nat.ltb_lt in Hlt. rewrite !size_list_to_set in Hlt by done.
  rewrite length_fmap in Hlt. split_and!; [done..| |].
  - intros x Hx. rewrite Forall_forall in Hf. apply Hf, andb_true_iff in Hx as [_ Hx].
    by apply bool_decide_eq_true_1, elem_of_list_to_set in Hx.
  - pose proof (Nat.div_mod_eq (length (topo_Instances snapshot)) 2). pose proof (Nat.mod_upper_bound (length (topo_Instances snapshot)) 2). lia.
Qed.

Section evidence.
Context {W E : Type} `{!OwnershipInventory W E, !OwnershipObserver W E, !OwnershipLeaseStore W E}.
Variables (interval maxAge : Duration).
Implicit Types (w : W) (cluster : DatabaseCluster) (snapshot : TopologySnapshot) (observation : OwnershipObservation).

(** Why [p] may keep or take the VIP: it is the only writable primary; or it is
    the only primary, degraded by missing acknowledgements, and keeps what it
    has; or the cluster was rebooted, all its members are proven read-only,
    every agent answered, and [p] is the owner the metadata names. *)
Definition owner_evidence (now : Time) cluster snapshot observation (renewOnly : bool) (p : DatabaseInstance) : Prop :=
  only_writable snapshot p ∨
  ack_renewal snapshot observation p ∧ cluster_Engine cluster = EngineMySQL ∧ renewOnly = true ∨
  cluster_Engine cluster = EngineMySQL ∧ bootstrap_evidence snapshot (inst_ResourceID p) now maxAge p ∧
    oo_Complete observation = true ∧ oo_CanonicalOwnerID observation = inst_ResourceID p ∧
    oo_EndpointOwnerID observation = inst_ResourceID p ∧
    (oo_OwnerIDs observation = [] ∨ oo_OwnerIDs observation = [inst_ResourceID p] ∧ renewOnly = true).

Lemma select_owner_sound now cluster snapshot observation p mode :
  select_owner maxAge now cluster snapshot observation = Ok (p, mode) →
  match mode with
  | ModeWritable => only_writable snapshot p
  | ModeACK => ack_renewal snapshot observation p ∧ cluster_Engine cluster = EngineMySQL
  | _ => cluster_Engine cluster = EngineMySQL ∧ bootstrap_evidence snapshot (inst_ResourceID p) now maxAge p ∧
      oo_Complete observation = true ∧ oo_CanonicalOwnerID observation = inst_ResourceID p ∧
      oo_EndpointOwnerID observation = inst_ResourceID p ∧
      oo_OwnerIDs observation = match mode with ModeBootstrap => [] | _ => [inst_ResourceID p] end
  end.
Proof.
  unfold select_owner. destruct (writablePrimary snapshot) as [p0|] eqn:Hw.
  { intros [= -> <-]. by apply writablePrimary_sound. }
  destruct (if _ == _ then _ else _) as [c|] eqn:Ha.
  { intros [= -> <-]. destruct (bool_decide_reflect (cluster_Engine cluster = EngineMySQL)); [|done].
    split; [by apply ackDegraded_sound|done]. }
  unfold bootstrap_primary. rewrite !require_bind, result_bind_ok.
  intros (He & Hc & Hm & m & Hmode & Hb). apply bool_decide_eq_true_1 in He, Hm.
  destruct (RebootBootstrapCandidate _ _ _ _) as [p0|] eqn:Hr; [|done]. injection Hb as -> ->.
  apply candidate_head in Hr. pose proof (be_canonical _ _ _ _ _ Hr) as (_ & Hid & _).
  rewrite <- Hid in Hr. unfold bootstrap_mode in Hmode.
  destruct (oo_OwnerIDs observation) as [|o [|]] eqn:Ho; [injection Hmode as <-|..|done].
  - split_and!; try done; congruence.
  - destruct (bool_decide_reflect (o = oo_CanonicalOwnerID observation)) as [->|]; cbn [negb] in Hmode; [|done].
    injection Hmode as <-. split_and!; try done; congruence.
Qed.

Lemma owner_guards_sound snapshot observation p mode renewOnly :
  owner_guards snapshot observation p mode = Ok renewOnly → (length (oo_OwnerIDs observation) ≤ 1)%nat →
  (∀ o, o ∈ oo_OwnerIDs observation → o = inst_ResourceID p) ∧
  (oo_OwnerIDs observation = [] → oo_CanonicalOwnerID observation = inst_ResourceID p ∧
     oo_EndpointOwnerID observation = inst_ResourceID p) ∧
  (oo_Complete observation = false →
     renewOnly = true ∧ safePartialOwnershipCoverage snapshot observation (inst_ResourceID p) = true) ∧
  (mode = ModeACK ∨ mode = ModeConvergence → renewOnly = true).
Proof.
  unfold owner_guards. rewrite !reject_bind. intros (Hpart & Hno & Hzero & _ & [= <-]) Hlen. split_and!.
  - intros o Ho. destruct (oo_OwnerIDs observation) as [|x [|]]; cbn in Hlen; [set_solver| |lia].
    apply list_elem_of_singleton in Ho as ->. by apply negb_false_iff, bool_decide_eq_true_1 in Hno.
  - intros Hnil. rewrite (bool_decide_true _ Hnil) in Hzero. apply orb_false_iff in Hzero as [H1 H2].
    by apply negb_false_iff, bool_decide_eq_true_1 in H1, H2.
  - intros Hc. rewrite Hc in *. cbn in Hpart. split; [done|]. by apply negb_false_iff in Hpart.
  - intros [-> | ->]; apply orb_true_r.
Qed.

(** Every lease request of a round is justified.  When a cluster's
    reconciliation ends with a request, the stored topology was fresh, the VIP
    was observed on that topology, and the requested owner is its only writable
    primary, or an acknowledgement-degraded primary that only renews, or the
    canonical owner of a rebooted cluster in which nothing accepts writes; no
    other instance was seen with the VIP; when some agent did not answer, the
    request only renews the lease of the sole owner seen by a majority; and the
    metadata names the owner unless the request only renews. *)
Theorem ownership_requests_justified cluster now w w' request :
  reconcileCluster interval maxAge cluster now w = (w', Ok request) →
  ∃ snapshot w1 observation p,
    own_TopologySnapshot (cluster_ResourceID cluster) w = Some snapshot ∧
    topo_ObservedAt snapshot ≠ 0 ∧ Sub now (topo_ObservedAt snapshot) ≤ maxAge ∧
    own_ObserveOwnership cluster snapshot w = (w1, Ok observation) ∧
    request = stable_request cluster observation p (req_RenewOnly request) ∧
    owner_evidence now cluster snapshot observation (req_RenewOnly request) p ∧
    (∀ o, o ∈ oo_OwnerIDs observation → o = req_OwnerID request) ∧
    (oo_Complete observation = false →
       req_RenewOnly request = true ∧ sole_owner observation (req_OwnerID request) = true ∧
       req_OwnerID request ∈ oo_ObservedInstanceIDs observation ∧ NoDup (oo_ObservedInstanceIDs observation) ∧
       oo_ObservedInstanceIDs observation ⊆ inst_ResourceID <$> topo_Instances snapshot ∧
       (length (topo_Instances snapshot) < 2 * length (oo_ObservedInstanceIDs observation))%nat) ∧
    (if req_RenewOnly request then w' = w1
     else own_CommitObservedHAEndpointOwner (cluster_ResourceID cluster) (oo_HAEndpointID observation)
            (oo_HAEndpointRevision observation) (oo_EndpointRevision observation) (req_OwnerID request)
            (Nat.eqb (length (oo_OwnerIDs observation)) 1) w1 = (w', Ok tt)).
Proof.
  unfold reconcileCluster. destruct (own_TopologySnapshot _ w) as [snapshot|] eqn:Ht; [|done].
  destruct (topology_stale _ _ now snapshot) eqn:Hst; [done|].
  destruct (own_ObserveOwnership cluster snapshot w) as [w1 [observation|]] eqn:Ho; [|done].
  destruct (_ || _) eqn:Hu; [done|]. apply orb_false_iff in Hu as [_ Hlen]. apply Nat.ltb_ge in Hlen.
  destruct (select_owner _ _ _ _ _) as [[p mode]|] eqn:Hsel; [|done]. apply select_owner_sound in Hsel.
  destruct (owner_guards _ _ _ _) as [renewOnly|] eqn:Hg; [|done].
  apply owner_guards_sound in Hg as (Hall & Hzero & Hpart & Hmode); [|done]. intros H.
  assert (request = stable_request cluster observation p renewOnly ∧
    (if renewOnly then w' = w1 else own_CommitObservedHAEndpointOwner (cluster_ResourceID cluster) (oo_HAEndpointID observation)
       (oo_HAEndpointRevision observation) (oo_EndpointRevision observation) (inst_ResourceID p)
       (Nat.eqb (length (oo_OwnerIDs observation)) 1) w1 = (w', Ok tt))) as [-> Hw].
  { destruct renewOnly; [by injection H as <- <-|].
    destruct (own_CommitObservedHAEndpointOwner _ _ _ _ _ _ w1) as [w2 [[]|]]; [|done]. by injection H as <- <-. }
  unfold topology_stale in Hst. apply orb_false_iff in Hst as [[Hz Hage]%orb_false_iff _].
  exists snapshot, w1, observation, p. cbn. split; [done|]. split; [by unfold IsZero in Hz; bsimpl|].
  split; [by apply Z.ltb_ge in Hage|]. split; [done|]. split; [done|]. split; [|split; [done|split; [|done]]].
  - unfold owner_evidence. destruct mode; [by left|right; left|right; right..].
    + destruct Hsel as [? ?]. split_and!; [done..|]. by apply Hmode; left.
    + destruct Hsel as (? & ? & ? & ? & ? & ?). split_and!; [done..|]. by left.
    + destruct Hsel as (? & ? & ? & ? & ? & ?). split_and!; [done..|]. right. split; [done|]. by apply Hmode; right.
  - intros Hc. destruct (Hpart Hc) as [-> Hp]. by apply partial_sound in Hp as (? & ? & ? & ? & ?).
Qed.
End evidence.

(** ** The round and the leases *)

(** [w'] is [w] after something that gave nobody a lease. *)
Definition quiet {W E} `{!LeaseStore W E, !LeaseStoreLaws W E} (unused_ids : nat → W → Prop) (w w' : W) : Prop :=
  (leases_ok w → leases_ok w') ∧ (∀ n, unused_ids n w → unused_ids n w') ∧
  ∀ c e l, leases_ok w → lease_at w' c e (Some l) → lease_at w c e (Some l).
#[export] Instance quiet_preorder {W E} `{!LeaseStore W E, !LeaseStoreLaws W E} unused_ids : PreOrder (quiet (W:=W) unused_ids).
Proof.
  split; [intros a; unfold quiet; auto|]. intros a b d (H1 & H2 & H3) (H4 & H5 & H6). unfold quiet.
  split; [auto|]. split; [auto|]. intros c e l Hok Hl. eauto.
Qed.

(** What the keeper relies on: observing and recording an owner grants no
    lease, and a batch grants one only to a request that does not only renew,
    for an endpoint without a lease in force. *)
Class KeeperLaws (W E EL : Type) `{!OwnershipInventory W E, !OwnershipObserver W E, !OwnershipLeaseStore W E,
    !LeaseStore W EL, !LeaseStoreLaws W EL} := {
  unused_ids : nat → W → Prop;
  unused_ids_le m n w : (m ≤ n)%nat → unused_ids n w → unused_ids m w;
  observe_law cluster snapshot w w' (r : result E OwnershipObservation) :
    own_ObserveOwnership cluster snapshot w = (w', r) → quiet unused_ids w w';
  commit_law c id r1 r2 owner healthy w w' (r : result E unit) :
    own_CommitObservedHAEndpointOwner c id r1 r2 owner healthy w = (w', r) → quiet unused_ids w w';
  batch_law requests w w' (r : result E unit) : leases_ok w → unused_ids (length requests) w →
    own_AcquireStableBatch requests w = (w', r) →
    leases_ok w' ∧ ∀ c e l', lease_at w' c e (Some l') →
      (∃ l, lease_at w c e (Some l) ∧ SameLeaseIdentity l l' = true) ∨
      lease_at w c e None ∧ ∃ request, request ∈ requests ∧ req_RenewOnly request = false ∧
        (req_ClusterID request, req_HAEndpointID request) = (c, e) ∧
        lease_OperationID l' = req_OperationID request ∧ lease_OwnerID l' = req_OwnerID request
}.

Section round.
Context {W E EL : Type} `{!OwnershipInventory W E, !OwnershipObserver W E, !OwnershipLeaseStore W E,
  !LeaseStore W EL, !LeaseStoreLaws W EL, !KeeperLaws W E EL}.
Variables (interval maxAge : Duration).
Implicit Types (w : W) (cluster : DatabaseCluster).

Lemma reconcileCluster_quiet cluster now w : quiet unused_ids w (reconcileCluster interval maxAge cluster now w).1.
Proof.
  unfold reconcileCluster. destruct (own_TopologySnapshot _ w) as [snapshot|]; [|done].
  destruct (topology_stale _ _ _ _); [done|]. destruct (own_ObserveOwnership cluster snapshot w) as [w1 r] eqn:Ho.
  apply observe_law in Ho. destruct r as [observation|]; [|done]. destruct (_ || _); [done|].
  destruct (select_owner _ _ _ _ _) as [[p mode]|]; [|done]. destruct (owner_guards _ _ _ _) as [[|]|]; [done| |done].
  destruct (own_CommitObservedHAEndpointOwner _ _ _ _ _ _ w1) as [w2 r] eqn:Hc. apply commit_law in Hc.
  cbn. by trans w1.
Qed.

(** The requests of a round come from its clusters, at states the round went through. *)
Definition round_request (clusters : list DatabaseCluster) now w request : Prop :=
  ∃ cluster w1 w2, cluster ∈ clusters ∧ quiet unused_ids w w1 ∧
    reconcileCluster interval maxAge cluster now w1 = (w2, Ok request).
Lemma reconcile_clusters_spec clusters now w w' requests failures :
  reconcile_clusters interval maxAge clusters now w = (w', requests, failures) →
  quiet unused_ids w w' ∧ (length requests ≤ length clusters)%nat ∧
  ∀ request, request ∈ requests → round_request clusters now w request.
Proof.
  revert w w' requests failures. induction clusters as [|cluster clusters IH]; intros w w' requests failures; cbn.
  { intros [= <- <- <-]. split_and!; [done|done|set_solver]. }
  pose proof (reconcileCluster_quiet cluster now w) as Hq. destruct (reconcileCluster _ _ cluster now w) as [w1 r] eqn:Hr.
  cbn in Hq. destruct (reconcile_clusters _ _ clusters now w1) as [[w2 rs] fs] eqn:Hrs.
  destruct (IH _ _ _ _ Hrs) as (Hq2 & Hlen & Hin). intros H.
  assert (w' = w2 ∧ requests = match r with Ok q => q :: rs | Err _ => rs end) as [-> ->] by (destruct r; by injection H as <- <- _).
  assert (∀ q, q ∈ rs → round_request (cluster :: clusters) now w q) as Hrest.
  { intros q (c & v1 & v2 & ? & ? & ?)%Hin. exists c, v1, v2. split_and!; [set_solver|by trans w1|done]. }
  split; [by trans w1|]. destruct r as [q|]; cbn; (split; [lia|]); [|done].
  intros q' [->|?]%elem_of_cons; [|auto]. exists cluster, w, w1. split_and!; [set_solver|done|done].
Qed.

End round.

(** ** The keeper over the repository, the VIP provider and the lease store *)

(** Sending a command to a host leaves the controller's own state alone. *)
Class HostTransport {Hosts} `{!AgentTransport (World Hosts) world_error} : Prop :=
  send_hosts i request w : ∃ hosts, (Send i request w).1 = mkWorld (wd_repo w) (wd_authorized w) (wd_fresh w) hosts.

Section world.
Context {Hosts : Type} `{!AgentTransport (World Hosts) world_error}.
Variables (mac : string → Request → string) (secret : string).
Definition World_keeper_inventory : OwnershipInventory (World Hosts) (vip_error world_error) := {|
  own_Clusters w := Clusters (wd_repo w);
  own_TopologySnapshot id w := TopologyOf id (wd_repo w);
  own_Operations id w := OperationsOf id (wd_repo w);
  own_CommitObservedHAEndpointOwner c id r1 r2 owner healthy w :=
    let '(r, res) := CommitObservedHAEndpointOwner c id r1 r2 owner healthy (wd_repo w) in
    (put_repo r w, match res with Ok u => Ok u | Err e => Err (ErrEnv (ErrMetadata e)) end)
|}.
Definition World_observer : OwnershipObserver (World Hosts) (vip_error world_error) := {|
  own_ObserveOwnership := ObserveOwnership mac secret true
|}.
Definition World_batch : OwnershipLeaseStore (World Hosts) (vip_error world_error) := {|
  own_AcquireStableBatch requests w :=
    let n := length requests in
    let '(r, failures) := Lease.AcquireStableBatch (wd_authorized w) (repo_now (wd_repo w))
                            (zip (take n (wd_fresh w)) requests) (wd_repo w) in
    (mkWorld r (wd_authorized w) (drop n (wd_fresh w)) (wd_hosts w),
     match failures with [] => Ok tt | e :: _ => Err (ErrEnv (ErrLease e)) end)
|}.
#[local] Existing Instances World_keeper_inventory World_observer World_batch.

Definition world_unused_ids (n : nat) (w : World Hosts) : Prop :=
  (n ≤ length (wd_fresh w))%nat ∧ fresh_ids (lease_view (wd_repo w)) (wd_fresh w).
Lemma commit_owner_leases c id owner healthy expected r r' res :
  commitHAEndpointOwner c id owner healthy expected r = (r', res) →
  same_now r r' ∧ repo_leases r' = repo_leases r ∧ repo_locks r' = repo_locks r.
Proof.
  unfold commitHAEndpointOwner. repeat (case_match; try (intros [= <- <-]; done)). all: intros Hc.
  all: apply commit_spec in Hc as [Hn Hc]; split; [done|]; unfold repo_leases, repo_locks.
  all: destruct res; [destruct Hc as [-> _]|destruct Hc as [[-> _]|[-> _]]]; done.
Qed.
Lemma replace_now records r : same_now r (Lease.ReplaceCoordinationLeases records r).1.
Proof.
  cbn. unfold ReplaceCoordinationLeases. destruct (for_each index_batch _ _); [|done].
  destruct (for_each (batch_lease_allowed _ _) _ _); [apply commit_now|done].
Qed.
Lemma batch_now authorized requests r : same_now r (Lease.AcquireStableBatch authorized (repo_now r) requests r).1.
Proof.
  unfold Lease.AcquireStableBatch. destruct (negb _); [done|]. destruct requests; [done|]. destruct (b_changed _); [|done].
  match goal with |- context [Lease.ReplaceCoordinationLeases ?l r] =>
    pose proof (replace_now l r); by destruct (Lease.ReplaceCoordinationLeases l r) as [? []] end.
Qed.
Lemma quiet_repo (w w' : World Hosts) :
  same_now (wd_repo w) (wd_repo w') → repo_leases (wd_repo w') = repo_leases (wd_repo w) →
  repo_locks (wd_repo w') = repo_locks (wd_repo w) → wd_fresh w' = wd_fresh w → quiet world_unused_ids w w'.
Proof.
  unfold same_now. intros Hn Hl Hk Hf. unfold quiet. cbn. unfold world_leases, world_lease_at, lease_inv, world_unused_ids. cbn.
  unfold repo_ok, repo_leases, repo_locks in *. rewrite Hn, Hf, Hl, Hk. auto.
Qed.
#[export] Program Instance World_keeper_laws `{!HostTransport} :
  KeeperLaws (World Hosts) (vip_error world_error) world_error := {| unused_ids := world_unused_ids |}.
Next Obligation. intros _ m n w Hmn [? ?]. split; [lia|done]. Qed.
Next Obligation.
  intros Hsend cluster snapshot w w' r Ho.
  pose proof (ObserveOwnership_moves (quiet world_unused_ids)) as Hm. cbn in Ho.
  specialize (Hm ltac:(intros i q v; destruct (send_hosts i q v) as [hosts ->]; by apply quiet_repo) mac secret true cluster snapshot w).
  by rewrite Ho in Hm.
Qed.
Next Obligation.
  intros _ c id r1 r2 owner healthy w w' r. cbn. unfold CommitObservedHAEndpointOwner.
  destruct (commitHAEndpointOwner _ _ _ _ _ _) as [r' res] eqn:Hc. apply commit_owner_leases in Hc as (? & ? & ?).
  intros [= <- _]. by apply quiet_repo.
Qed.
Next Obligation.
  intros _ requests w w' r [Hok Hu] [Hlen [Hnd Hf]]. change (store_ok (wd_repo w)) in Hok.
  change (unique_live (repo_now (wd_repo w)) (lease_view (wd_repo w))) in Hu. cbn. set (ids := take (length requests) (wd_fresh w)).
  assert ((zip ids requests).*1 = ids) as Hids by (apply fst_zip; unfold ids; rewrite length_take; lia).
  assert (fresh_ids (lease_view (wd_repo w)) (zip ids requests).*1) as Hfresh.
  { rewrite Hids. unfold ids. rewrite <- (take_drop (length requests) (wd_fresh w)) in Hnd. apply NoDup_app in Hnd as (? & _ & _).
    split; [done|]. intros id Hin%elem_of_take. apply Hf. destruct Hin as (k & ? & _). by eapply list_elem_of_lookup_2. }
  pose proof (batch_now (wd_authorized w) (zip ids requests) (wd_repo w)) as Hn.
  destruct (AcquireStableBatch _ _ _ _) as [r' failures] eqn:Hb. unfold same_now in Hn. cbn [fst] in Hn. intros [= <- _].
  unfold world_leases, world_lease_at, lease_inv. cbn. rewrite Hn. destruct (wd_authorized w).
  2: { injection Hb as <- _. split; [done|]. eauto using SameLeaseIdentity_refl. }
  destruct (batch_installs _ _ _ _ _ Hok Hu Hfresh Hb) as (Hok' & Hu' & _). split; [done|].
  intros c e l' Hl. destruct (batch_keeps _ _ _ _ _ _ _ Hok Hu Hfresh Hb Hl) as [?|(Hnone & [id q] & Hin & Hq)]; [by left|].
  right. split; [done|]. exists q. split; [|done]. by apply elem_of_zip_r in Hin.
Qed.
End world.

(** ** Concrete instances *)

#[export] Instance wv_host_transport : HostTransport (Hosts:=wv_hosts).
Proof. intros i request w. by eexists. Qed.
Definition wk_instance (id : ResourceID) (role : InstanceRole) (metadata : list (string * string)) : DatabaseInstance :=
  (wv_instance id) <| inst_Engine := EngineMySQL |> <| inst_Role := role |>
    <| inst_Health := zero_Health <| health_State := HealthHealthy |> |> <| inst_EngineMetadata := list_to_map metadata |>.
Definition wk_snapshot : TopologySnapshot :=
  zero_TopologySnapshot <| topo_ClusterID := w_cluster |> <| topo_ObservedAt := w_now |>
    <| topo_Instances := [wk_instance w_owner RolePrimary [("read_only", "false"); ("super_read_only", "False")];
                          wk_instance w_next RoleReplica [("read_only", "true")]] |>
    <| topo_Probes := [zero_ProbeStatus <| probe_InstanceID := w_owner |> <| probe_DiscoveryObservedAt := w_now |>
                         <| probe_Health := zero_Health <| health_State := HealthHealthy |> |>] |>.
Definition wk_cluster : DatabaseCluster := zero_DatabaseCluster <| cluster_ResourceID := w_cluster |> <| cluster_Engine := EngineMySQL |>.
Definition wk_w0 : World wv_hosts := mkWorld
  (wh_r1 <| repo_snapshot ::= λ s, s <| sn_Clusters := {[w_cluster := wk_cluster]} |>
                                     <| sn_TopologySnapshots := {[w_cluster := wk_snapshot]} |> |>)
  true [w_operation] (mkHosts {[w_owner]} [] ∅).
#[local] Existing Instances World_keeper_inventory World_batch.
#[local] Instance wk_observer : OwnershipObserver (World wv_hosts) (vip_error world_error) := World_observer wv_mac "secret".
Definition wk_request : LeaseRequest := mkLeaseRequest w_cluster w_endpoint w_endpoint w_owner "" Minute false.
Definition wk_reconciled := reconcileCluster (5 * Second) (15 * Second) wk_cluster w_now wk_w0.
Definition wk_round := RunOnce (5 * Second) (15 * Second) false true w_now wk_w0.

Lemma ownership_requests_justified_witness :
  wk_reconciled.2 = Ok wk_request ∧
  ∃ snapshot, TopologyOf w_cluster (wd_repo wk_w0) = Some snapshot ∧ topo_ObservedAt snapshot ≠ 0.
Proof.
  assert (wk_reconciled.2 = Ok wk_request) as Hok by (vm_compute; reflexivity). split; [exact Hok|].
  destruct (ownership_requests_justified (5 * Second) (15 * Second) wk_cluster w_now wk_w0 wk_reconciled.1 wk_request
    (pair_fst wk_reconciled (Ok wk_request) Hok)) as (snapshot & _ & _ & _ & Ht & Hz & _).
  exists snapshot. exact (conj Ht Hz).
Defined.

