(* ===== verification/Fence.v ===== *)
(** * internal/coordination/failover_safety.go: fencing the old primary

    Before a failover promotes the target, [Fence] must know that the old
    primary cannot accept writes or hold the VIP any more: its agent isolated
    itself, or an external fencer confirmed, or every authorization the agent
    may have been given has expired while the transition lease stayed in force.
    The tracker's gate is held from before the lease is acquired until the
    authorization time has been read, so here the two follow each other.  The
    texts that say how isolation was proven are left out. *)
From S2P Require Import Prelude GoStd Model Endpoint Lease Locks Gtid Repository Inventory Operations Power.
From S2P Require Import AgentProtocol FailureWindow HAEndpoints Interfaces LinuxVIP.

Definition agentAuthorizationExpiryMargin : Duration := Second.
Definition isolationSettleAttempts : nat := 5.
Definition isolationSettleInterval : Duration := 500 * 1000000.

Record ExternalFenceRequest : Type := mkFenceRequest {
  fr_ClusterID : ResourceID; fr_OperationID : ResourceID; fr_LeaseID : ResourceID; fr_Instance : DatabaseInstance
}.

(** What the provider asks of the controller it runs in: the failure window, the
    authority, the authorization tracker, the external fencer and the timer.
    [fe_AuthorizationUntil] is [false] without a tracker or an epoch. *)
Class FailoverEnvironment (W E : Type) := {
  fe_Stable : ResourceID → Time → W → bool;
  fe_StableIncident : ResourceID → Time → W → bool;
  fe_RequireMutationAuthority : W → W * result E unit;
  fe_AuthorizationUntil : ResourceID → ResourceID → W → Time * bool;
  fe_Available : ResourceID → W → bool;
  fe_Fence : ExternalFenceRequest → W → W * result E unit;
  fe_Status : ExternalFenceRequest → W → W * result E bool;
  fe_wait : Duration → W → W * result E unit
}.

Inductive fence_error (E : Type) : Type :=
| ErrFenceConfig | ErrEvidenceExpired | ErrNoEndpoint | ErrVIPIncomplete | ErrServiceIncomplete | ErrAgentBlocked
| ErrNoIsolationPath | ErrNotFenced | ErrLeaseChanged | ErrLeaseNotExact | ErrNotIsolated | ErrRestartWritable
| ErrRoleUnreachable | ErrStatusUnavailable | ErrFuel | ErrFence (e : E).
Arguments ErrFenceConfig {E}. Arguments ErrEvidenceExpired {E}. Arguments ErrNoEndpoint {E}.
Arguments ErrVIPIncomplete {E}. Arguments ErrServiceIncomplete {E}. Arguments ErrAgentBlocked {E}.
Arguments ErrNoIsolationPath {E}. Arguments ErrNotFenced {E}. Arguments ErrLeaseChanged {E}.
Arguments ErrLeaseNotExact {E}. Arguments ErrNotIsolated {E}. Arguments ErrRestartWritable {E}.
Arguments ErrRoleUnreachable {E}. Arguments ErrStatusUnavailable {E}. Arguments ErrFuel {E}. Arguments ErrFence {E}.

(** [GuardedFailoverSafety]: what is configured. *)
Record GuardedFailoverSafety : Type := mkSafety {
  gs_transport : bool; gs_secret : string; gs_external : bool; gs_agentQuorum : bool; gs_agentQuorumGrace : Duration
}.
(** [WithAgentQuorumFencing]. *)
Definition WithAgentQuorumFencing (grace : Duration) (provider : GuardedFailoverSafety) : GuardedFailoverSafety :=
  mkSafety (gs_transport provider) (gs_secret provider) (gs_external provider) true
    (if grace <? 15 * Second then 15 * Second else grace).

Record failoverVIPResource : Type := mkFailoverResource { fv_haEndpoint : HAEndpoint; fv_endpoint : Endpoint }.

(** ** The writer endpoint *)

Definition vip_pair (resource : HAEndpoint) (endpoint : Endpoint) : bool :=
  (ha_Kind resource == EndpointVIP) && (ep_Kind endpoint == EndpointVIP).
Definition provider_kind (resource : HAEndpoint) (endpoint : Endpoint) : EndpointProviderKind :=
  if (ha_Provider resource == EndpointProviderKindOther "") && vip_pair resource endpoint
  then EndpointProviderLinuxVIP else ha_Provider resource.
Definition endpointProviderKind (resource : failoverVIPResource) : EndpointProviderKind :=
  provider_kind (fv_haEndpoint resource) (fv_endpoint resource).
(** The candidate is active, of a known provider, and of that provider's kind. *)
Definition writer_candidate (resource : HAEndpoint) (candidate : Endpoint) : bool :=
  ep_Active candidate &&
  match provider_kind resource candidate with
  | EndpointProviderLinuxVIP => vip_pair resource candidate
  | EndpointProviderKubernetesService => (ha_Kind resource == EndpointService) && (ep_Kind candidate == EndpointService)
  | EndpointProviderKindOther _ => false
  end.

Section fence.
Context {W E : Type} `{!EndpointInventory W E, !LeaseStore W E, !AgentTransport W E, !Clock W, !FailoverEnvironment W E}.
Variables (mac : string → Request → string) (provider : GuardedFailoverSafety).
Implicit Types (w : W) (resolved : ResolvedOperation) (resource : failoverVIPResource).

Definition failover_resources (clusterID : ResourceID) w : list failoverVIPResource :=
  omap (λ ha, candidate ← inv_Endpoint (ha_EndpointID ha) w;
              if writer_candidate ha candidate then Some (mkFailoverResource ha candidate) else None)
       (inv_HAEndpoints clusterID w).
Definition activeVIP (clusterID : ResourceID) w : result (fence_error E) failoverVIPResource :=
  match failover_resources clusterID w with
  | [resource] =>
      let endpoint := fv_endpoint resource in
      let haEndpoint := fv_haEndpoint resource in
      match endpointProviderKind resource with
      | EndpointProviderLinuxVIP =>
          if (TrimSpace (ep_IPAddress endpoint) == "") || (TrimSpace (ha_Interface haEndpoint) == "") ||
             (ha_Prefix haEndpoint <? 1) || (32 <? ha_Prefix haEndpoint) then Err ErrVIPIncomplete else Ok resource
      | EndpointProviderKubernetesService =>
          if (TrimSpace (ep_Hostname endpoint) == "") || (ep_Port endpoint <? 1) || (65535 <? ep_Port endpoint) ||
             (TrimSpace (ha_ProviderRef haEndpoint) == "") then Err ErrServiceIncomplete else Ok resource
      | EndpointProviderKindOther _ => Ok resource
      end
  | _ => Err ErrNoEndpoint
  end.

(** ** Configuration *)

Definition agent_path : bool := gs_transport provider && (gs_secret provider != "").
Definition configured : bool := agent_path || gs_external provider.
Definition externalAvailable (instanceID : ResourceID) w : bool := gs_external provider && fe_Available instanceID w.
Definition linux_path resource : bool := (endpointProviderKind resource == EndpointProviderLinuxVIP) && agent_path.
Definition agentQuorumEnabled resolved w : bool :=
  let engine := cluster_Engine (ro_Cluster resolved) in
  gs_agentQuorum provider && ((engine == EngineMySQL) || (engine == EnginePostgreSQL)) &&
  match activeVIP (cluster_ResourceID (ro_Cluster resolved)) w with
  | Ok resource => endpointProviderKind resource == EndpointProviderLinuxVIP
  | Err _ => false
  end && agent_path.
Definition stableFailure resolved w : bool :=
  let clusterID := cluster_ResourceID (ro_Cluster resolved) in
  if IsZero (ro_AutomaticFailureIncidentAt resolved) then fe_Stable clusterID (clock w) w
  else fe_StableIncident clusterID (ro_AutomaticFailureIncidentAt resolved) w.
Definition transitionLeaseTTL resolved w : Duration :=
  if negb (agentQuorumEnabled resolved w) then 30 * Second else Minute.

(** ** Probing the old primary *)

Definition failover_request resolved resource (command : string) (leaseID : ResourceID) w : result (fence_error E) Request :=
  if endpointProviderKind resource != EndpointProviderLinuxVIP then Err ErrNoIsolationPath
  else
    let digest := if TrimSpace (ro_PlanDigest resolved) == "" then "sha256:failover-precheck:" +:+ ro_OperationID resolved
                  else ro_PlanDigest resolved in
    let request := zero_Request <| cmd_Command := command |>
      <| cmd_ClusterID := cluster_ResourceID (ro_Cluster resolved) |> <| cmd_OperationID := ro_OperationID resolved |>
      <| cmd_Engine := cluster_Engine (ro_Cluster resolved) |> <| cmd_LeaseID := leaseID |> <| cmd_PlanDigest := digest |>
      <| cmd_ExpiresAt := Add (clock w) (30 * Second) |> <| cmd_VIP := ep_IPAddress (fv_endpoint resource) |>
      <| cmd_Interface := ha_Interface (fv_haEndpoint resource) |> <| cmd_Prefix := ha_Prefix (fv_haEndpoint resource) |> in
    Ok (request <| cmd_Signature := SignRequest mac request (gs_secret provider) |>).
Definition externalFenceRequest resolved (leaseID : ResourceID) : ExternalFenceRequest :=
  mkFenceRequest (cluster_ResourceID (ro_Cluster resolved)) (ro_OperationID resolved) leaseID (ro_Primary resolved).

(** What the role status of the old primary says: a verdict, or nothing usable. *)
Definition mysql_isolated (ownsVIP : bool) (role : Response) : option (result (fence_error E) bool) :=
  match resp_ReadOnly role, resp_SuperReadOnly role with
  | Some readOnly, Some superReadOnly =>
      Some match resp_DatabaseReachable role, resp_ServiceRunning role, resp_RestartReadOnly role, resp_PersistedReadOnly role with
      | Some reachable, Some running, Some restartReadOnly, Some persisted =>
          if negb restartReadOnly then Err ErrRestartWritable
          else if negb reachable then if running then Err ErrRoleUnreachable else Ok (negb ownsVIP && persisted)
          else Ok (negb ownsVIP && readOnly && superReadOnly && persisted)
      | _, _, _, _ => Ok (negb ownsVIP && readOnly && superReadOnly)
      end
  | _, _ => None
  end.
Definition role_verdict (engine : Engine) (ownsVIP : bool) (role : Response) : option (result (fence_error E) bool) :=
  if resp_Status role != StatusOK then None
  else if engine == EnginePostgreSQL then (λ running, Ok (negb ownsVIP && negb running)) <$> resp_ServiceRunning role
  else mysql_isolated ownsVIP role.
Definition role_command (engine : Engine) : string :=
  if engine == EnginePostgreSQL then CommandPostgreSQLStatus else CommandRoleStatus.

(** The two questions to the agent: a verdict, or nothing usable. *)
Definition probe_agent resolved resource w : W * option (result (fence_error E) bool) :=
  match failover_request resolved resource CommandVIPStatus "" w with
  | Err _ => (w, None)
  | Ok request =>
      let '(w, vip) := Send (ro_Primary resolved) request w in
      match vip with
      | Err _ => (w, None)
      | Ok vip =>
          match resp_OwnsVIP vip with
          | None => (w, None)
          | Some ownsVIP =>
              if resp_Status vip != StatusOK then (w, None)
              else
                let engine := cluster_Engine (ro_Cluster resolved) in
                match failover_request resolved resource (role_command engine) "" w with
                | Err _ => (w, None)
                | Ok request =>
                    let '(w, role) := Send (ro_Primary resolved) request w in
                    (w, match role with Err _ => None | Ok role => role_verdict engine ownsVIP role end)
                end
          end
      end
  end.
Definition probe_external resolved w : W * result (fence_error E) bool :=
  if externalAvailable (inst_ResourceID (ro_Primary resolved)) w then
    let '(w, fenced) := fe_Status (externalFenceRequest resolved "") w in
    (w, match fenced with Ok fenced => Ok fenced | Err e => Err (ErrFence e) end)
  else (w, Err ErrStatusUnavailable).
Definition probeIsolation resolved w : W * result (fence_error E) bool :=
  match activeVIP (cluster_ResourceID (ro_Cluster resolved)) w with
  | Ok resource =>
      if linux_path resource then
        match probe_agent resolved resource w with
        | (w, Some verdict) => (w, verdict)
        | (w, None) => probe_external resolved w
        end
      else probe_external resolved w
  | Err _ => probe_external resolved w
  end.

(** ** The transition lease *)

Definition exact_transition resolved (lease : Lease) : bool :=
  (lease_OperationID lease == ro_OperationID resolved) &&
  (lease_OwnerID lease == inst_ResourceID (ro_Target resolved)) &&
  (lease_PreviousOwnerID lease == inst_ResourceID (ro_Primary resolved)).
Definition finalized_target resolved resource (lease : Lease) : bool :=
  let target := inst_ResourceID (ro_Target resolved) in
  (lease_OperationID lease == ha_ResourceID (fv_haEndpoint resource)) && (lease_OwnerID lease == target) &&
  (ha_OwnerID (fv_haEndpoint resource) == target) && (ep_InstanceID (fv_endpoint resource) == target).
Definition verifyAgentQuorumLeaseForResource resolved resource (allowFinalized : bool) w
  : W * result (fence_error E) unit :=
  let '(w, current) := ls_Current (cluster_ResourceID (ro_Cluster resolved)) (ha_ResourceID (fv_haEndpoint resource)) w in
  match current with
  | Err e => (w, Err (ErrFence e))
  | Ok lease =>
      if negb (exact_transition resolved lease) && negb (allowFinalized && finalized_target resolved resource lease)
      then (w, Err ErrLeaseNotExact)
      else
        let '(w, valid) := ls_Validate lease w in
        (w, match valid with Ok _ => Ok tt | Err e => Err (ErrFence e) end)
  end.
Definition verifyAgentQuorumLease resolved w : W * result (fence_error E) unit :=
  match activeVIP (cluster_ResourceID (ro_Cluster resolved)) w with
  | Err e => (w, Err e)
  | Ok resource =>
      let '(w, authority) := fe_RequireMutationAuthority w in
      match authority with
      | Err e => (w, Err (ErrFence e))
      | Ok _ => verifyAgentQuorumLeaseForResource resolved resource true w
      end
  end.

(** ** Waiting until every stale authorization has expired *)

(** The loop: [remaining] is what is left of the grace period. *)
Fixpoint grace_loop (fuel : nat) (request : LeaseRequest) (transition : Lease) (remaining : Duration) w
  : W * result (fence_error E) Lease :=
  match fuel with
  | O => (w, Err ErrFuel)
  | S fuel =>
      let wait := Z.min remaining (req_TTL request `quot` 2) in
      let '(w, waited) := if 0 <? wait then fe_wait wait w else (w, Ok tt) in
      match waited with
      | Err e => (w, Err (ErrFence e))
      | Ok _ =>
          let '(w, authority) := fe_RequireMutationAuthority w in
          match authority with
          | Err e => (w, Err (ErrFence e))
          | Ok _ =>
              let '(w, renewed) := ls_Acquire request w in
              match renewed with
              | Err e => (w, Err (ErrFence e))
              | Ok renewed =>
                  if negb (SameLeaseIdentity transition renewed) then (w, Err ErrLeaseChanged)
                  else
                    let remaining := remaining - wait in
                    if remaining <=? 0 then (w, Ok renewed) else grace_loop fuel request renewed remaining w
              end
          end
      end
  end.
Definition grace_fuel (request : LeaseRequest) (remaining : Duration) : nat :=
  S (Z.to_nat (remaining `quot` (req_TTL request `quot` 2))).

(** The last probes: an unreachable or isolated old primary ends them. *)
Fixpoint settle_loop (attempts : nat) resolved w : W * result (fence_error E) unit :=
  match attempts with
  | O => (w, Err ErrNotIsolated)
  | S attempts =>
      let '(w, probe) := probeIsolation resolved w in
      match probe with
      | Err _ | Ok true => (w, Ok tt)
      | Ok false =>
          match attempts with
          | O => (w, Err ErrNotIsolated)
          | S _ =>
              let '(w, waited) := fe_wait isolationSettleInterval w in
              match waited with Err e => (w, Err (ErrFence e)) | Ok _ => settle_loop attempts resolved w end
          end
      end
  end.

Definition fence_deadline (transitionStartedAt : Time) (authorization : Time * bool) : Time :=
  let '(authorizationUntil, tracked) := authorization in
  if tracked then Add authorizationUntil agentAuthorizationExpiryMargin
  else Add transitionStartedAt (gs_agentQuorumGrace provider).
Definition awaitAgentQuorumFence resolved resource (request : LeaseRequest) (transition : Lease)
    (transitionStartedAt : Time) (authorization : Time * bool) w : W * result (fence_error E) unit :=
  let remainingGrace := Sub (fence_deadline transitionStartedAt authorization) (clock w) in
  let request := request <| req_RenewOnly := true |> in
  let '(w, waited) := grace_loop (grace_fuel request remainingGrace) request transition remainingGrace w in
  match waited with
  | Err e => (w, Err e)
  | Ok transition =>
      let '(w, valid) := ls_Validate transition w in
      match valid with
      | Err e => (w, Err (ErrFence e))
      | Ok _ =>
          let '(w, verified) := verifyAgentQuorumLeaseForResource resolved resource false w in
          match verified with
          | Err e => (w, Err e)
          | Ok _ => settle_loop isolationSettleAttempts resolved w
          end
      end
  end.

(** ** Fence *)

(** The order to the old primary's agent: [Ok] when it obeyed, else the failure if it was asked. *)
Definition order_isolation resolved resource (lease : Lease) w : W * result (option (fence_error E)) unit :=
  if linux_path resource then
    match failover_request resolved resource CommandSelfIsolate (lease_ResourceID lease) w with
    | Err e => (w, Err (Some e))
    | Ok request =>
        let '(w, response) := Send (ro_Primary resolved) request w in
        (w, match response with
            | Err e => Err (Some (ErrFence e))
            | Ok response => if resp_Status response != StatusOK then Err (Some ErrAgentBlocked) else Ok tt
            end)
    end
  else (w, Err None).
Definition fence_external resolved (lease : Lease) w : W * result (fence_error E) unit :=
  let request := externalFenceRequest resolved (lease_ResourceID lease) in
  let '(w, ordered) := fe_Fence request w in
  match ordered with
  | Err e => (w, Err (ErrFence e))
  | Ok _ =>
      let '(w, fenced) := fe_Status request w in
      (w, match fenced with
          | Err e => Err (ErrFence e)
          | Ok fenced => if fenced then Ok tt else Err ErrNotFenced
          end)
  end.
Definition failover_lease_request resolved resource w : LeaseRequest :=
  mkLeaseRequest (cluster_ResourceID (ro_Cluster resolved)) (ha_ResourceID (fv_haEndpoint resource))
    (ro_OperationID resolved) (inst_ResourceID (ro_Target resolved)) (inst_ResourceID (ro_Primary resolved))
    (transitionLeaseTTL resolved w) false.
Definition fence_with resolved resource w : W * result (fence_error E) unit :=
  let request := failover_lease_request resolved resource w in
  let '(w, acquired) := ls_Acquire request w in
  let transitionStartedAt := clock w in
  let authorization := fe_AuthorizationUntil (cluster_ResourceID (ro_Cluster resolved))
                         (inst_ResourceID (ro_Primary resolved)) w in
  match acquired with
  | Err e => (w, Err (ErrFence e))
  | Ok lease =>
      let '(w, ordered) := order_isolation resolved resource lease w in
      match ordered with
      | Ok _ => (w, Ok tt)
      | Err agentFailure =>
          if negb (externalAvailable (inst_ResourceID (ro_Primary resolved)) w) then
            if agentQuorumEnabled resolved w
            then awaitAgentQuorumFence resolved resource request lease transitionStartedAt authorization w
            else (w, Err (default ErrNoIsolationPath agentFailure))
          else fence_external resolved lease w
      end
  end.
Definition Fence resolved w : W * result (fence_error E) unit :=
  if negb configured then (w, Err ErrFenceConfig)
  else
    let '(w, authority) := fe_RequireMutationAuthority w in
    match authority with
    | Err e => (w, Err (ErrFence e))
    | Ok _ =>
        if negb (stableFailure resolved w) then (w, Err ErrEvidenceExpired)
        else match activeVIP (cluster_ResourceID (ro_Cluster resolved)) w with
        | Err e => (w, Err e)
        | Ok resource => fence_with resolved resource w
        end
    end.

(** ** Checks, by name and status *)

Definition Precheck resolved w : W * list (string * CheckStatus) :=
  if cluster_RecoveryFreeze (ro_Cluster resolved) then (w, [("recovery_frozen", CheckFail)])
  else if negb configured
  then (w, [("stable_primary_failure", CheckFail); ("controller_quorum", CheckFail); ("old_primary_fenced", CheckFail)])
  else
    let stable := if stableFailure resolved w then CheckPass else CheckFail in
    let '(w, authority) := fe_RequireMutationAuthority w in
    let quorum := match authority with Ok _ => CheckPass | Err _ => CheckFail end in
    let '(w, fenced) :=
      if agentQuorumEnabled resolved w then (w, CheckPass)
      else
        let '(w, probe) := probeIsolation resolved w in
        (w, match probe with
            | Err _ => if agentQuorumEnabled resolved w then CheckPass else CheckFail
            | Ok _ => CheckPass
            end) in
    (w, [("stable_primary_failure", stable); ("controller_quorum", quorum); ("old_primary_fenced", fenced)]).

Definition verified {A} (p : W * result (fence_error E) A) : W * CheckStatus :=
  let '(w, r) := p in (w, match r with Ok _ => CheckPass | Err _ => CheckFail end).
Definition verify_probe resolved w : W * CheckStatus :=
  let '(w, probe) := probeIsolation resolved w in
  match probe with
  | Err _ => if agentQuorumEnabled resolved w then verified (verifyAgentQuorumLease resolved w) else (w, CheckFail)
  | Ok isolated => (w, if isolated then CheckPass else CheckFail)
  end.
Definition Verify resolved w : W * CheckStatus :=
  if negb configured then (w, CheckFail)
  else if agentQuorumEnabled resolved w && (ro_VerifiedIsolatedSourceID resolved == inst_ResourceID (ro_Primary resolved))
  then match verified (verifyAgentQuorumLease resolved w) with
       | (w, CheckPass) => (w, CheckPass)
       | (w, _) => verify_probe resolved w
       end
  else verify_probe resolved w.
End fence.

(** ** What fencing guarantees *)

Section fuel.
Context {W E : Type} `{!EndpointInventory W E, !LeaseStore W E, !AgentTransport W E, !Clock W, !FailoverEnvironment W E}.
Variables (mac : string → Request → string) (provider : GuardedFailoverSafety).
Implicit Types (w : W) (resolved : ResolvedOperation) (resource : failoverVIPResource).

(** One round of the grace loop: it ends, or goes on with less to wait for. *)
Lemma grace_step request transition remaining fuel w : 0 < req_TTL request `quot` 2 →
  (Z.to_nat (remaining `quot` (req_TTL request `quot` 2)) < fuel)%nat →
  (grace_loop fuel request transition remaining w).2 ≠ Err ErrFuel.
Proof.
  intros Hh. set (half := req_TTL request `quot` 2) in *. revert transition remaining w.
  induction fuel as [|fuel IH]; intros transition remaining w Hf; [lia|]. cbn. fold half.
  destruct (if 0 <? _ then _ else _) as [w1 [|e]]; [|done].
  destruct (fe_RequireMutationAuthority w1) as [w2 [|e]]; [|done].
  destruct (ls_Acquire request w2) as [w3 [renewed|e]]; [|done]. destruct (negb _); [done|].
  destruct (Z.leb_spec (remaining - Z.min remaining half) 0) as [Hle|Hgt]; [done|]. apply IH.
  assert (remaining - Z.min remaining half = remaining - half) as -> by lia.
  rewrite !Z.quot_div_nonneg in * by lia. replace (remaining - half) with (remaining + (-1) * half) by lia.
  rewrite Z.div_add by lia. assert (1 <= remaining / half) by (apply Z.div_le_lower_bound; lia). lia.
Qed.
Lemma settle_no_fuel attempts resolved w : (settle_loop mac provider attempts resolved w).2 ≠ Err ErrFuel.
Proof.
  revert w. induction attempts as [|attempts IH]; intros w; [done|]. cbn.
  destruct (probeIsolation _ _ _ w) as [w1 [[|]|e]]; [done| |done]. destruct attempts; [done|].
  destruct (fe_wait _ w1) as [w2 [|e]]; [apply IH|done].
Qed.
Lemma verify_no_fuel resolved resource allowFinalized w :
  (verifyAgentQuorumLeaseForResource resolved resource allowFinalized w).2 ≠ Err ErrFuel.
Proof.
  unfold verifyAgentQuorumLeaseForResource. destruct (ls_Current _ _ w) as [w1 [l|e]]; [|done].
  destruct (_ && _); [done|]. by destruct (ls_Validate l w1) as [w2 [|]].
Qed.

(** C26: Fencing terminates: whatever the environment does and however long the
    grace period is, the loop that waits out the agents' authorizations ends
    within the fuel its caller gives it (one round per half lease and a last
    one), so [Fence] never stops for lack of it. *)
Theorem Fence_terminates resolved w : (Fence mac provider resolved w).2 ≠ Err ErrFuel.
Proof.
  unfold Fence. destruct (negb _); [done|]. destruct (fe_RequireMutationAuthority w) as [w1 [|e]]; [|done].
  destruct (negb _); [done|]. destruct (activeVIP _ w1) as [resource|e] eqn:Hv.
  2: { unfold activeVIP in Hv. repeat case_match; by simplify_eq. }
  unfold fence_with. destruct (ls_Acquire _ w1) as [w2 [lease|e]]; [|done].
  destruct (order_isolation _ _ _ _ _ w2) as [w3 [|failure]] eqn:Ho; [done|].
  destruct (negb _); [|unfold fence_external; destruct (fe_Fence _ w3) as [w4 [|]]; [|done];
    by destruct (fe_Status _ w4) as [w5 [[|]|]]].
  destruct (agentQuorumEnabled _ resolved w3).
  - unfold awaitAgentQuorumFence. match goal with |- context [grace_loop ?f ?q ?t ?r ?v] =>
      pose proof (grace_step q t r f v) as Hg; destruct (grace_loop f q t r v) as [w4 [l|e]] end.
    + destruct (ls_Validate l w4) as [w5 [|]]; [|done]. pose proof (verify_no_fuel resolved resource false w5).
      destruct (verifyAgentQuorumLeaseForResource _ _ _ w5) as [w6 [|]]; [apply settle_no_fuel|done].
    + intros [= ->]. apply Hg; [|unfold grace_fuel; lia|done]. cbn. unfold transitionLeaseTTL. by destruct (negb _).
  - cbn. unfold order_isolation in Ho. destruct (linux_path _ _); [|by simplify_eq/=].
    destruct (failover_request _ _ _ _ _ _ w2) as [q|e] eqn:Hq.
    + destruct (Send _ q w2) as [? [response|]]; [destruct (negb _)|]; by simplify_eq/=.
    + unfold failover_request in Hq. destruct (negb _); by simplify_eq/=.
Qed.
End fuel.

(** The clock of the controller does not go backwards, and a timer waits at least
    as long as it was set to. *)
Definition later {W} `{!Clock W} (w w' : W) : Prop := clock w ≤ clock w'.
#[export] Instance later_preorder {W} `{!Clock W} : PreOrder (later (W:=W)).
Proof. split; [intros a; unfold later; lia|intros a b c; unfold later; lia]. Qed.
Class FailoverLaws (W E : Type) `{!EndpointInventory W E, !LeaseStore W E, !AgentTransport W E, !Clock W,
    !FailoverEnvironment W E} : Prop := {
  send_later i request w w' (r : result E Response) : Send i request w = (w', r) → later w w';
  acquire_later request w w' (r : result E Lease) : ls_Acquire request w = (w', r) → later w w';
  validate_later lease w w' (r : result E unit) : ls_Validate lease w = (w', r) → later w w';
  current_later c e w w' (r : result E Lease) : ls_Current c e w = (w', r) → later w w';
  authority_later w w' (r : result E unit) : fe_RequireMutationAuthority w = (w', r) → later w w';
  status_later request w w' (r : result E bool) : fe_Status request w = (w', r) → later w w';
  wait_law d w w' (r : result E unit) : fe_wait d w = (w', r) → later w w' ∧ (r = Ok tt → clock w + d ≤ clock w')
}.

Section guarantees.
Context {W E : Type} `{!EndpointInventory W E, !LeaseStore W E, !AgentTransport W E, !Clock W, !FailoverEnvironment W E,
  !FailoverLaws W E}.
Variables (mac : string → Request → string) (provider : GuardedFailoverSafety).
Implicit Types (w : W) (resolved : ResolvedOperation) (resource : failoverVIPResource).

(** A grace loop that succeeds has waited for all of the grace period, and
    holds the lease it started with. *)
Lemma grace_waits fuel request transition remaining w w' l :
  grace_loop fuel request transition remaining w = (w', Ok l) → later w w' ∧ clock w + remaining ≤ clock w' ∧
  SameLeaseIdentity transition l = true.
Proof.
  revert transition remaining w. induction fuel as [|fuel IH]; intros transition remaining w; [done|]. cbn.
  set (wait := Z.min remaining _).
  destruct (if 0 <? wait then _ else _) as [w1 [[]|e]] eqn:Hw; [|done].
  assert (later w w1 ∧ clock w + wait ≤ clock w1) as [Hl1 Hc1].
  { destruct (Z.ltb_spec 0 wait); [apply wait_law in Hw as [? Hw]; split; [done|by apply Hw]|].
    injection Hw as <-. unfold later. lia. }
  destruct (fe_RequireMutationAuthority w1) as [w2 [|e]] eqn:Ha; [|done]. apply authority_later in Ha.
  destruct (ls_Acquire request w2) as [w3 [renewed|e]] eqn:Hq; [|done]. apply acquire_later in Hq.
  destruct (SameLeaseIdentity transition renewed) eqn:Hs; cbn [negb]; [|done]. unfold later in *.
  destruct (Z.leb_spec (remaining - wait) 0) as [Hle|Hgt].
  - intros [= <- <-]. split; [lia|]. split; [lia|done].
  - intros (? & ? & Hs2)%IH. split; [lia|]. split; [lia|]. by eapply SameLeaseIdentity_trans.
Qed.
Lemma probe_later resolved w w' r : probeIsolation mac provider resolved w = (w', r) → later w w'.
Proof.
  assert (∀ v, probe_external provider resolved v = (w', r) → later v w') as Hext.
  { intros v. unfold probe_external. destruct (externalAvailable _ _ v); [|by intros [= <- _]].
    destruct (fe_Status _ v) as [v1 s] eqn:Hs. apply status_later in Hs. by intros [= <- _]. }
  unfold probeIsolation. destruct (activeVIP _ w) as [resource|]; [|apply Hext].
  destruct (linux_path _ _); [|apply Hext]. unfold probe_agent. destruct (failover_request _ _ _ _ _ _ w) as [q|]; [|apply Hext].
  destruct (Send _ q w) as [w1 vip] eqn:Hs1. apply send_later in Hs1. destruct vip as [vip|]; [|intros ?%Hext; by trans w1].
  destruct (resp_OwnsVIP vip); [|intros ?%Hext; by trans w1]. destruct (negb _); [intros ?%Hext; by trans w1|].
  destruct (failover_request _ _ _ _ _ _ w1) as [q2|]; [|intros ?%Hext; by trans w1].
  destruct (Send _ q2 w1) as [w2 role] eqn:Hs2. apply send_later in Hs2.
  destruct (match role with Ok _ => _ | Err _ => _ end) as [v|]; [intros [= <- _]; by trans w1|].
  intros ?%Hext. trans w1; [done|]. by trans w2.
Qed.

(** The probes after the grace period end at an unreachable or isolated primary. *)
Definition unreachable_or_isolated resolved w w' : Prop :=
  ∃ r, probeIsolation mac provider resolved w = (w', r) ∧ r ≠ Ok false.
Lemma settle_isolated attempts resolved w w' :
  settle_loop mac provider attempts resolved w = (w', Ok tt) → ∃ w1, later w w1 ∧ unreachable_or_isolated resolved w1 w'.
Proof.
  revert w. induction attempts as [|attempts IH]; intros w; [done|]. cbn.
  destruct (probeIsolation _ _ _ w) as [w1 r] eqn:Hp.
  destruct r as [[|]|e]; [intros [= <-]; exists w; split; [done|by eexists]| |intros [= <-]; exists w; split; [done|by eexists]].
  apply probe_later in Hp. destruct attempts as [|attempts]; [done|].
  destruct (fe_wait _ w1) as [w2 [|]] eqn:Hw; [|done]. apply wait_law in Hw as [Hw _].
  intros (w3 & ? & ?)%IH. exists w3. split; [|done]. trans w1; [done|]. by trans w2.
Qed.

(** Waiting the authorizations out: at [w3], after the deadline, the lease in
    force was the exact transition and valid; then the old primary was
    unreachable or isolated. *)
Definition authorizations_expired resolved (resource : failoverVIPResource) (deadline : Time) w' : Prop :=
  ∃ w3 w4 w5 l, deadline ≤ clock w3 ∧
    ls_Current (cluster_ResourceID (ro_Cluster resolved)) (ha_ResourceID (fv_haEndpoint resource)) w3 = (w4, Ok l) ∧
    exact_transition resolved l = true ∧ ls_Validate l w4 = (w5, Ok tt) ∧
    ∃ w6, later w5 w6 ∧ unreachable_or_isolated resolved w6 w'.
Lemma await_sound resolved resource request lease started authorization w w' :
  fence_deadline provider started authorization - clock w ≤ maxDuration →
  awaitAgentQuorumFence mac provider resolved resource request lease started authorization w = (w', Ok tt) →
  authorizations_expired resolved resource (fence_deadline provider started authorization) w'.
Proof.
  intros Hmax. unfold awaitAgentQuorumFence. set (deadline := fence_deadline _ _ _) in *.
  destruct (grace_loop _ _ _ _ w) as [w1 [l1|e]] eqn:Hg; [|done]. apply grace_waits in Hg as (_ & Hc & _).
  assert (deadline ≤ clock w1) as Hd by (unfold Sub, minDuration in Hc; lia).
  destruct (ls_Validate l1 w1) as [w2 [|e]] eqn:Hv; [|done]. apply validate_later in Hv.
  destruct (verifyAgentQuorumLeaseForResource _ _ _ w2) as [w3 [[]|e]] eqn:Hver; [|done].
  intros (w6 & Hl6 & Hiso)%settle_isolated.
  unfold verifyAgentQuorumLeaseForResource in Hver. destruct (ls_Current _ _ w2) as [w4 [l|e]] eqn:Hcur; [|done].
  cbn [andb] in Hver. rewrite andb_true_r in Hver. destruct (exact_transition resolved l) eqn:Hex; cbn [negb] in Hver; [|done].
  destruct (ls_Validate l w4) as [w5 [[]|e]] eqn:Hv2; [|done]. injection Hver as ->.
  exists w2, w4, w3, l. split; [unfold later in Hv; lia|]. split_and!; [done..|]. by exists w6.
Qed.

End guarantees.

(** ** Concrete instances *)

(** A controller with a fixed failure window and tracker, in leadership epoch
    [epoch], and no external fencer; its timer moves the clock. *)
Section world.
Context {Hosts : Type} `{!AgentTransport (World Hosts) world_error}.
Variables (window : FailureWindow) (tracker : AgentAuthorizationTracker) (epoch : uint64).
Definition World_failover : FailoverEnvironment (World Hosts) world_error := {|
  fe_Stable clusterID now w := Stable clusterID now window;
  fe_StableIncident clusterID startedAt w := StableIncident clusterID startedAt window;
  fe_RequireMutationAuthority w := (w, if wd_authorized w then Ok tt else Err ErrAgent);
  fe_AuthorizationUntil clusterID instanceID w := AuthorizationUntil clusterID instanceID epoch tracker;
  fe_Available instanceID w := false;
  fe_Fence request w := (w, Err ErrAgent);
  fe_Status request w := (w, Err ErrAgent);
  fe_wait d w := (put_repo ((wd_repo w) <| repo_now ::= λ now, now + Z.max 0 d |>) w, Ok tt)
|}.
#[local] Existing Instance World_failover.
Lemma World_failover_laws :
  (∀ i request (w : World Hosts), later w (Send i request w).1) → FailoverLaws (World Hosts) world_error.
Proof.
  intros Hsend. split.
  - intros i request w w' r H. pose proof (Hsend i request w) as Hl. by rewrite H in Hl.
  - intros request w w' r. cbn.
    pose proof (Acquire_moves same_now put_now delete_now (wd_authorized w) (repo_now (wd_repo w)) (hd "" (wd_fresh w)) request (wd_repo w)) as Hn.
    destruct (Lease.Acquire _ _ _ _ _). intros [= <- _]. unfold later. cbn in *. unfold same_now in Hn. lia.
  - intros lease w w' r [= <- _]. unfold later. lia.
  - intros c e w w' r [= <- _]. unfold later. lia.
  - intros w w' r [= <- _]. unfold later. lia.
  - intros request w w' r [= <- _]. unfold later. lia.
  - intros d w w' r [= <- _]. unfold later. cbn. split; [|intros _]; lia.
Qed.
End world.

Definition wx_window : FailureWindow := record_all
  [FailureWindow.mkObservation w_cluster true (w_now - 30 * Second);
   FailureWindow.mkObservation w_cluster true (w_now - 20 * Second); FailureWindow.mkObservation w_cluster true (w_now - 10 * Second);
   FailureWindow.mkObservation w_cluster true w_now] (NewFailureWindow 3 (15 * Second) [Some (WithMaximumObservationGap (15 * Second))]).
Definition wf_until : Time := w_now + 8 * Second.
Definition wf_tracker : AgentAuthorizationTracker := Some {[ (w_cluster, w_owner) := FailureWindow.mkAuthorization 3 wf_until ]}.
#[local] Instance wf_environment : FailoverEnvironment (World wv_hosts) world_error := World_failover wx_window wf_tracker 3.
Definition wf_provider : GuardedFailoverSafety := WithAgentQuorumFencing 0 (mkSafety true "secret" false false 0).
Definition wf_resolved : ResolvedOperation :=
  mkResolved w_operation 0 (zero_DatabaseCluster <| cluster_ResourceID := w_cluster |> <| cluster_Engine := EngineMySQL |>)
    (ro_Snapshot wv_resolved) (wv_instance w_owner) (wv_instance w_next) "sha256:plan" "".
(** The old primary is down; the controller waits its authorization out. *)
Definition wf_w0 : World wv_hosts := mkWorld wh_r1 true [w_operation] (mkHosts {[w_owner]} [] {[w_owner]}).
Definition wf_fenced := Fence wv_mac wf_provider wf_resolved wf_w0.
#[local] Instance wf_laws : FailoverLaws (World wv_hosts) world_error.
Proof. apply World_failover_laws. intros i request w. unfold later. cbn. lia. Qed.


(** ** A reachable primary that is not isolated *)

(** The agent of the old primary refuses to isolate itself and reports that it
    owns the VIP and that its database is reachable, writable, and writable
    after a restart.  [probeIsolation] answers with an error, not with a
    verdict, and the last loop of [awaitAgentQuorumFence] takes every error for
    an unreachable node. *)
Definition wf_report : Response :=
  mkResponse StatusOK "" "" (Some true) (Some false) (Some false) (Some true) (Some true) (Some false) (Some false).
#[local] Instance wf_defiant : AgentTransport (World unit) world_error := {|
  Send i request w :=
    (w, Ok (if cmd_Command request == CommandSelfIsolate
            then mkResponse StatusBlocked "" "" None None None None None None None else wf_report))
|}.
#[local] Instance wf_defiant_environment : FailoverEnvironment (World unit) world_error := World_failover wx_window wf_tracker 3.
Definition wf_d0 : World unit := mkWorld wh_r1 true [w_operation] tt.
Theorem Fence_accepts_reachable_writer :
  (Fence wv_mac wf_provider wf_resolved wf_d0).2 = Ok tt ∧
  (probeIsolation wv_mac wf_provider wf_resolved (Fence wv_mac wf_provider wf_resolved wf_d0).1).2 = Err ErrRestartWritable.
Proof. split; vm_compute; reflexivity. Qed.
