(* ===== verification/Selection.v ===== *)
(** * internal/disaster: choosing the primary of a destroyed cluster

    [selection.go]: after every member is fenced, the member whose history
    contains every peer's committed history is selected; [wal.go]: the proof,
    collected from the members' agents, that two PostgreSQL members agree on
    the WAL of their common timelines.

    [EvidenceDigest] is the SHA-256 of the JSON encoding of an evidence record;
    [VerifyWAL] asks a member's agent and may change the world [W].  The
    theorems hold for any of them. *)
From S2P Require Import Prelude GoStd Model Gtid.

Inductive select_error : Type :=
| ErrPosition | ErrMissingEvidence | ErrMixedMembers | ErrBadEvidence | ErrNativeIdentity | ErrSystemIdentifier
| ErrUnregistered | ErrEngine | ErrGTIDEvidence | ErrGTIDInconsistent | ErrNoCandidate | ErrControlIdentity
| ErrTimelineHistory | ErrTimelineAncestry | ErrTimelineConflict | ErrNoCommonTimeline | ErrOtherSystem
| ErrStaleProof | ErrCanceledWAL | ErrNoCommonRange | ErrWALRead | ErrWALConflict | ErrWALIncomplete.

(** ** WAL positions *)

Definition LSN (value : string) : result select_error uint64 :=
  match Split "/" value with
  | [hi; lo] =>
      if (hi == "") || (lo == "") || Nat.ltb 8 (String.length hi) || Nat.ltb 8 (String.length lo) then Err ErrPosition
      else match ParseUint hi 16 32, ParseUint lo 16 32 with
           | Some hi, Some lo => Ok (Z.lor (Z.shiftl hi 32) lo)
           | _, _ => Err ErrPosition
           end
  | _ => Err ErrPosition
  end.
(** [position, _ := LSN(value)]. *)
Definition LSN0 (value : string) : uint64 := match LSN value with Ok v => v | Err _ => 0 end.

(** The verb [%X] on an unsigned integer. *)
Definition upper_digit (d : Z) : ascii := ascii_of_N (Z.to_N (if d <? 10 then 48 + d else 55 + d)).
Fixpoint hex_fuel (fuel : nat) (n : Z) (acc : string) : string :=
  match fuel with
  | O => acc
  | S fuel => if n =? 0 then acc else hex_fuel fuel (n / 16) (String (upper_digit (n mod 16)) acc)
  end.
Definition format_hex (n : Z) : string := if n =? 0 then "0" else hex_fuel 16 n "".
Definition formatLSN (value : uint64) : string :=
  format_hex (Z.shiftr value 32) +:+ String "/" (format_hex (Z.land value 4294967295)).

Section selection.
Variable EvidenceDigest : RecoveryEvidence → string.

Definition EvidenceFingerprint (e : RecoveryEvidence) : string :=
  EvidenceDigest (e <| ev_Fingerprint := "" |> <| ev_ObservedAt := zero_time |>).

(** ** Evidence *)

Definition check_member (members : list DatabaseInstance) (_ : unit) (member : DatabaseInstance)
  : result select_error unit :=
  match members with
  | [] => Ok tt
  | first :: _ =>
      reject ((inst_Engine member != inst_Engine first) || (inst_ClusterID member != inst_ClusterID first) ||
              negb (ValidResourceID (inst_ResourceID member))) ErrMixedMembers
  end.

Definition match_member (e : RecoveryEvidence) (found : bool) (member : DatabaseInstance) : result select_error bool :=
  if inst_ResourceID member != ev_InstanceID e then Ok found
  else
    let key := if inst_Engine member == EngineMySQL then "server_uuid" else "resource_id" in
    _ ← reject ((ev_Engine e != inst_Engine member) || (ev_NativeID e == "") ||
                negb (EqualFold (ev_NativeID e) (mget (inst_EngineIdentity member) key))) ErrNativeIdentity;
    _ ← reject ((ev_Engine e == EnginePostgreSQL) &&
                ((ev_SystemIdentifier e == "") ||
                 (ev_SystemIdentifier e != mget (inst_EngineIdentity member) "system_identifier"))) ErrSystemIdentifier;
    Ok true.

Definition check_evidence (members : list DatabaseInstance) (st : gset ResourceID * gset string) (e : RecoveryEvidence)
  : result select_error (gset ResourceID * gset string) :=
  let '(seen, native) := st in
  _ ← reject (bool_decide (ev_InstanceID e ∈ seen) || negb (ev_Fenced e) || negb (ev_Complete e) ||
              ev_PreparedTransactions e || IsZero (ev_ObservedAt e) ||
              (ev_Fingerprint e != EvidenceFingerprint e)) ErrBadEvidence;
  found ← for_each (match_member e) false members;
  _ ← reject (negb found || bool_decide (ToLower (ev_NativeID e) ∈ native)) ErrUnregistered;
  Ok ({[ev_InstanceID e]} ∪ seen, {[ToLower (ev_NativeID e)]} ∪ native).

Definition ValidateEvidence (members : list DatabaseInstance) (evidence : list RecoveryEvidence)
  : result select_error unit :=
  _ ← reject (Nat.ltb (length members) 2 || negb (Nat.eqb (length evidence) (length members))) ErrMissingEvidence;
  _ ← for_each (check_member members) tt members;
  _ ← for_each (check_evidence members) (∅, ∅) evidence;
  Ok tt.

(** ** MySQL *)

Definition parse_evidence (value : string) : result select_error GTIDSet :=
  match ParseGTIDSet value with Ok s => Ok s | Err _ => Err ErrGTIDEvidence end.
Definition mysqlContains (candidate other : RecoveryEvidence) : result select_error bool :=
  c ← parse_evidence (ev_GTIDExecuted candidate);
  p ← parse_evidence (ev_GTIDPurged candidate);
  o ← parse_evidence (ev_GTIDExecuted other);
  match AssessGTIDRecovery c p o with
  | Ok assessment => Ok (ra_ErrantTransactions assessment =? 0)
  | Err _ => Err ErrGTIDInconsistent
  end.

(** ** PostgreSQL timelines *)

Definition path_step (last : Z * uint64) (entry : RecoveryTimeline) : result select_error (Z * uint64) :=
  match LSN (tl_SwitchLSN entry) with
  | Err _ => Err ErrTimelineHistory
  | Ok position =>
      if (tl_Timeline entry <=? last.1) || (position =? 0) || (position <? last.2) then Err ErrTimelineHistory
      else Ok (tl_Timeline entry, position)
  end.
Definition timelinePath (e : RecoveryEvidence) : result select_error (list RecoveryTimeline) :=
  _ ← reject ((ev_Timeline e =? 0) || (ev_SystemIdentifier e == "")) ErrControlIdentity;
  let path := ev_History e ++ [mkRecoveryTimeline (ev_Timeline e) (ev_Position e)] in
  _ ← for_each path_step (0, 0) path;
  _ ← reject (match path with first :: _ => negb (tl_Timeline first =? 1) | [] => true end) ErrTimelineAncestry;
  Ok path.

Definition same_entry (a b : RecoveryTimeline) : bool :=
  (tl_Timeline a =? tl_Timeline b) && (LSN0 (tl_SwitchLSN a) =? LSN0 (tl_SwitchLSN b)).
Fixpoint common_walk (found : Z * uint64) (ap bp : list RecoveryTimeline) : Z * uint64 :=
  match ap, bp with
  | a :: ap, b :: bp =>
      if negb (tl_Timeline a =? tl_Timeline b) then found
      else
        let aend := LSN0 (tl_SwitchLSN a) in
        let bend := LSN0 (tl_SwitchLSN b) in
        let found := (tl_Timeline a, Z.min aend bend) in
        if negb (aend =? bend) || bool_decide (ap = []) || bool_decide (bp = []) then found
        else common_walk found ap bp
  | _, _ => found
  end.
Definition CommonTimeline (a b : RecoveryEvidence) : result select_error (Z * uint64) :=
  ap ← timelinePath a;
  bp ← timelinePath b;
  _ ← (if ev_Timeline a =? ev_Timeline b then
         _ ← require (Nat.eqb (length (ev_History a)) (length (ev_History b))) ErrTimelineConflict;
         require (forallb (λ p, same_entry p.1 p.2) (zip (ev_History a) (ev_History b))) ErrTimelineConflict
       else Ok tt);
  let found := common_walk (0, 0) ap bp in
  _ ← reject ((found.1 =? 0) || (found.2 =? 0)) ErrNoCommonTimeline;
  Ok found.

(** The verdict of the first proof about the pair. *)
Fixpoint proof_verdict (candidate other : RecoveryEvidence) (commonEnd oend : uint64) (proofs : list RecoveryProof)
  : result select_error bool :=
  match proofs with
  | [] => Ok false
  | p :: proofs =>
      if (proof_CandidateID p != ev_InstanceID candidate) || (proof_OtherID p != ev_InstanceID other)
      then proof_verdict candidate other commonEnd oend proofs
      else if (proof_CandidateFingerprint p != ev_Fingerprint candidate) ||
              (proof_OtherFingerprint p != ev_Fingerprint other) then Err ErrStaleProof
      else if negb (proof_CommonWALVerified p) then Ok false
      else if (ev_Timeline other =? ev_Timeline candidate) ||
              ((ev_Timeline other <? ev_Timeline candidate) && (oend <=? commonEnd)) then Ok true
      else Ok (proof_DiscardedWALVerified p && negb (proof_DiscardedTransactions p))
  end.
Definition PostgreSQLContains (candidate other : RecoveryEvidence) (proofs : list RecoveryProof)
  : result select_error bool :=
  _ ← require (ev_SystemIdentifier candidate == ev_SystemIdentifier other) ErrOtherSystem;
  common ← CommonTimeline candidate other;
  cend ← LSN (ev_Position candidate);
  oend ← LSN (ev_Position other);
  if (ev_Timeline candidate =? ev_Timeline other) && (cend <? oend) then Ok false
  else proof_verdict candidate other common.2 oend proofs.

(** ** Selection *)

Definition contains (proofs : list RecoveryProof) (candidate other : RecoveryEvidence) : result select_error bool :=
  match ev_Engine candidate with
  | EngineMySQL => mysqlContains candidate other
  | EnginePostgreSQL => PostgreSQLContains candidate other proofs
  | _ => Err ErrEngine
  end.
(** The loop over the other members, which stops at the first that is not contained. *)
Fixpoint contains_all (proofs : list RecoveryProof) (candidate : RecoveryEvidence) (others : list RecoveryEvidence)
  : result select_error bool :=
  match others with
  | [] => Ok true
  | other :: others =>
      if ev_InstanceID candidate == ev_InstanceID other then contains_all proofs candidate others
      else match contains proofs candidate other with
           | Err e => Err e
           | Ok false => Ok false
           | Ok true => contains_all proofs candidate others
           end
  end.
Definition select_step (proofs : list RecoveryProof) (evidence : list RecoveryEvidence) (candidates : list ResourceID)
    (candidate : RecoveryEvidence) : result select_error (list ResourceID) :=
  all ← contains_all proofs candidate evidence;
  Ok (if all : bool then candidates ++ [ev_InstanceID candidate] else candidates).
Definition Select (members : list DatabaseInstance) (evidence : list RecoveryEvidence) (proofs : list RecoveryProof)
  : result select_error ResourceID :=
  _ ← ValidateEvidence members evidence;
  candidates ← for_each (select_step proofs evidence) [] evidence;
  match merge_sort id_le candidates with
  | [] => Err ErrNoCandidate
  | first :: _ => Ok first
  end.
End selection.

(** ** WAL comparison *)

Record RecoveryWALRequest : Type := mkWALRequest {
  wal_Fingerprint : string; wal_Timeline : Z; wal_Start : string; wal_End : string
}.
Record RecoveryWALResult : Type := mkWALResult { wal_Digest : string; wal_Transactions : bool }.

Section wal.
Context {W : Type}.
Variables (ctx_done : W → bool)
  (VerifyWAL : RecoveryEvidence → RecoveryWALRequest → W → W * option RecoveryWALResult).

Definition wal_request (e : RecoveryEvidence) (timeline : Z) (start stop : uint64) : RecoveryWALRequest :=
  mkWALRequest (ev_Fingerprint e) timeline (formatLSN start) (formatLSN stop).
Definition digest_ok (mine theirs : RecoveryWALResult) : bool :=
  HasPrefix (wal_Digest mine) "sha256:" && Nat.eqb (String.length (wal_Digest mine)) 71 &&
  (wal_Digest mine == wal_Digest theirs).

(** The branches of the candidate's path up to the common timeline. *)
Fixpoint common_branches (candidate other : RecoveryEvidence) (timeline : Z) (stop : uint64)
    (path : list RecoveryTimeline) (position : uint64) (w : W) : W * result select_error uint64 :=
  match path with
  | [] => (w, Ok position)
  | branch :: path =>
      let branchEnd := Z.min (LSN0 (tl_SwitchLSN branch)) stop in
      if branchEnd <=? position then common_branches candidate other timeline stop path position w
      else
        match VerifyWAL candidate (wal_request candidate (tl_Timeline branch) position branchEnd) w with
        | (w, None) => (w, Err ErrWALRead)
        | (w, Some mine) =>
            match VerifyWAL other (wal_request other (tl_Timeline branch) position branchEnd) w with
            | (w, None) => (w, Err ErrWALRead)
            | (w, Some theirs) =>
                if negb (digest_ok mine theirs) then (w, Err ErrWALConflict)
                else if tl_Timeline branch =? timeline then (w, Ok branchEnd)
                else common_branches candidate other timeline stop path branchEnd w
            end
        end
  end.

(** The branches of the peer after the common end. *)
Fixpoint discarded_branches (other : RecoveryEvidence) (path : list RecoveryTimeline) (position : uint64)
    (transactions : bool) (w : W) : W * result select_error (uint64 * bool) :=
  match path with
  | [] => (w, Ok (position, transactions))
  | branch :: path =>
      let branchEnd := LSN0 (tl_SwitchLSN branch) in
      if branchEnd <=? position then discarded_branches other path position transactions w
      else
        match VerifyWAL other (wal_request other (tl_Timeline branch) position branchEnd) w with
        | (w, None) => (w, Err ErrWALRead)
        | (w, Some answer) =>
            discarded_branches other path branchEnd (transactions || wal_Transactions answer) w
        end
  end.

Definition discarded_proof (candidate other : RecoveryEvidence) (stop : uint64) (proof : RecoveryProof) (w : W)
  : W * result select_error RecoveryProof :=
  let otherEnd := LSN0 (ev_Position other) in
  if (stop <? otherEnd) && negb (ev_Timeline other =? ev_Timeline candidate) then
    match timelinePath other with
    | Err e => (w, Err e)
    | Ok path =>
        match discarded_branches other path stop false w with
        | (w, Err e) => (w, Err e)
        | (w, Ok (position, transactions)) =>
            (w, Ok (mkRecoveryProof (proof_CandidateID proof) (proof_OtherID proof)
                      (proof_CandidateFingerprint proof) (proof_OtherFingerprint proof)
                      (proof_CommonWALVerified proof) (position =? otherEnd)
                      (proof_DiscardedTransactions proof || transactions)))
        end
    end
  else (w, Ok proof).

(** The body of the inner loop of [CompareWAL]. *)
Definition compare_pair (candidate other : RecoveryEvidence) (w : W) : W * result select_error RecoveryProof :=
  let ranges :=
    _ ← reject (ctx_done w) ErrCanceledWAL;
    common ← CommonTimeline candidate other;
    cstart ← LSN (ev_Redo candidate);
    ostart ← LSN (ev_Redo other);
    _ ← reject (common.2 <=? Z.min cstart ostart) ErrNoCommonRange;
    path ← timelinePath candidate;
    Ok (common, Z.min cstart ostart, path) in
  match ranges with
  | Err e => (w, Err e)
  | Ok (common, start, path) =>
      let '(timeline, stop) := common in
      match common_branches candidate other timeline stop path start w with
      | (w, Err e) => (w, Err e)
      | (w, Ok position) =>
          if negb (position =? stop) then (w, Err ErrWALIncomplete)
          else discarded_proof candidate other stop
                 (mkRecoveryProof (ev_InstanceID candidate) (ev_InstanceID other) (ev_Fingerprint candidate)
                    (ev_Fingerprint other) true false false) w
      end
  end.

Fixpoint compare_others (candidate : RecoveryEvidence) (others : list RecoveryEvidence) (proofs : list RecoveryProof)
    (w : W) : W * result select_error (list RecoveryProof) :=
  match others with
  | [] => (w, Ok proofs)
  | other :: others =>
      if ev_InstanceID candidate == ev_InstanceID other then compare_others candidate others proofs w
      else match compare_pair candidate other w with
           | (w, Err e) => (w, Err e)
           | (w, Ok proof) => compare_others candidate others (proofs ++ [proof]) w
           end
  end.
Fixpoint compare_candidates (evidence candidates : list RecoveryEvidence) (proofs : list RecoveryProof) (w : W)
  : W * result select_error (list RecoveryProof) :=
  match candidates with
  | [] => (w, Ok proofs)
  | candidate :: candidates =>
      match compare_others candidate evidence proofs w with
      | (w, Err e) => (w, Err e)
      | (w, Ok proofs) => compare_candidates evidence candidates proofs w
      end
  end.
Definition CompareWAL (evidence : list RecoveryEvidence) (w : W) : W * result select_error (list RecoveryProof) :=
  compare_candidates evidence evidence [] w.
End wal.

(** ** Positions round trip *)

Definition no_slash (s : string) : bool := string_forall (λ c, negb (Ascii.eqb c "/")) s.

Lemma no_slash_cons c s : no_slash (String c s) = negb (Ascii.eqb c "/") && no_slash s.
Proof. reflexivity. Qed.
Lemma Split_cons sep c s : Split sep (String c s) =
  if Ascii.eqb c sep then EmptyString :: Split sep s
  else match Split sep s with h :: t => String c h :: t | [] => [String c EmptyString] end.
Proof. reflexivity. Qed.
Lemma split_none s : no_slash s = true → Split "/" s = [s].
Proof.
  induction s as [|c s IH]; [done|]. rewrite no_slash_cons, Split_cons. intros [Hc Hs]%andb_true_iff.
  apply negb_true_iff in Hc. by rewrite Hc, (IH Hs).
Qed.
Lemma split_at s r : no_slash s = true → Split "/" (s +:+ String "/" r) = s :: Split "/" r.
Proof.
  induction s as [|c s IH]; [done|]. rewrite append_cons, no_slash_cons, Split_cons. intros [Hc Hs]%andb_true_iff.
  apply negb_true_iff in Hc. by rewrite Hc, (IH Hs).
Qed.

Lemma upper_digit_spec d : 0 ≤ d < 16 →
  digit_value 16 (upper_digit d) = Some d ∧ Ascii.eqb (upper_digit d) "/" = false.
Proof.
  intros Hd. assert (Forall (λ d, digit_value 16 (upper_digit d) = Some d ∧ Ascii.eqb (upper_digit d) "/" = false)
    (seqZ 0 16)) as H by by repeat constructor.
  rewrite Forall_forall in H. apply H, elem_of_seqZ. lia.
Qed.

Lemma hex_fuel_spec k : ∀ n acc, 0 ≤ n < 16 ^ Z.of_nat k →
  parse_digits 16 0 (hex_fuel k n acc) = parse_digits 16 n acc ∧
  (no_slash acc = true → no_slash (hex_fuel k n acc) = true) ∧
  (String.length acc ≤ String.length (hex_fuel k n acc) ≤ k + String.length acc)%nat ∧
  (0 < n → hex_fuel k n acc ≠ "").
Proof.
  induction k as [|k IH]; intros n acc Hn.
  { cbn in Hn. assert (n = 0) as -> by lia. cbn. split_and!; try done; lia. }
  cbn [hex_fuel]. rewrite Nat2Z.inj_succ, Z.pow_succ_r in Hn by lia.
  destruct (Z.eqb_spec n 0) as [->|Hne]; [split_and!; try done; lia|].
  assert (0 ≤ n mod 16 < 16) as Hm by (apply Z.mod_pos_bound; lia).
  assert (0 ≤ n / 16 < 16 ^ Z.of_nat k) as Hd
    by (split; [apply Z.div_pos; lia|apply Z.div_lt_upper_bound; lia]).
  destruct (upper_digit_spec (n mod 16) Hm) as [Hv Hs].
  destruct (IH (n / 16) (String (upper_digit (n mod 16)) acc) Hd) as (H1 & H2 & H3 & _). cbn in H3.
  split_and!; try lia.
  - rewrite H1. cbn [parse_digits]. rewrite Hv. f_equal. pose proof (Z.div_mod n 16). lia.
  - intros Ha. apply H2. rewrite no_slash_cons. by rewrite Hs.
  - intros _ He. rewrite He in H3. cbn in H3. lia.
Qed.

Lemma hex_fuel_enough k : ∀ n j acc, 0 ≤ n < 16 ^ Z.of_nat k → hex_fuel (k + j) n acc = hex_fuel k n acc.
Proof.
  induction k as [|k IH]; intros n j acc Hn.
  { cbn in Hn. assert (n = 0) as -> by lia. by destruct j. }
  cbn. destruct (Z.eqb_spec n 0); [done|]. apply IH. rewrite Nat2Z.inj_succ, Z.pow_succ_r in Hn by lia.
  split; [apply Z.div_pos; lia|apply Z.div_lt_upper_bound; lia].
Qed.

Lemma format_hex_spec n : 0 ≤ n < 2 ^ 32 →
  ParseUint (format_hex n) 16 32 = Some n ∧ no_slash (format_hex n) = true ∧ format_hex n ≠ "" ∧
  (String.length (format_hex n) ≤ 8)%nat.
Proof.
  intros Hn. unfold format_hex. destruct (Z.eqb_spec n 0) as [->|Hne]; [by vm_compute; split_and!; try lia|].
  change 16%nat with (8 + 8)%nat. rewrite (hex_fuel_enough 8 n 8 "") by (change (16 ^ Z.of_nat 8) with (2 ^ 32); lia).
  destruct (hex_fuel_spec 8 n "") as (H1 & H2 & H3 & H4); [change (16 ^ Z.of_nat 8) with (2 ^ 32); lia|].
  assert (hex_fuel 8 n "" ≠ "") as H5 by (apply H4; lia). cbn [String.length] in H3.
  split_and!; [|by apply H2|done|lia].
  unfold ParseUint. destruct (hex_fuel 8 n "") eqn:He; [done|]. rewrite H1. cbn.
  rewrite (proj2 (Z.ltb_lt n (2 ^ 32))) by lia. done.
Qed.

Lemma lor_disjoint h l : 0 ≤ l < 2 ^ 32 → Z.lor (Z.shiftl h 32) l = h * 2 ^ 32 + l.
Proof.
  intros Hl. pose proof (Z.add_lor_land (Z.shiftl h 32) l) as H.
  assert (Z.land (Z.shiftl h 32) l = 0) as H0.
  { apply Z.bits_inj'. intros n Hn. rewrite Z.land_spec, Z.shiftl_spec, Z.bits_0 by done.
    destruct (Z.ltb_spec n 32) as [Hlt|Hge]; [by rewrite Z.testbit_neg_r by lia|].
    rewrite <- (Z.mod_small l (2 ^ 32)) by done. rewrite Z.mod_pow2_bits_high by lia. apply andb_false_r. }
  rewrite H0, Z.shiftl_mul_pow2 in * by lia. lia.
Qed.

(** WAL positions survive printing: the text sent to an agent for any 64-bit
    position parses back to that position, so the ranges the controller asks
    for are the ranges it computed; and only positions that fit 64 bits parse. *)
Theorem LSN_roundtrip v : 
  (0 ≤ v ≤ max_uint64 → LSN (formatLSN v) = Ok v) ∧
  (∀ text, LSN text = Ok v → 0 ≤ v ≤ max_uint64).
Proof.
  unfold max_uint64. split.
  - intros Hv. unfold formatLSN. assert (Z.land v 4294967295 = v mod 2 ^ 32) as ->.
    { change 4294967295 with (Z.ones 32). by apply Z.land_ones. }
    rewrite Z.shiftr_div_pow2 by lia.
    destruct (format_hex_spec (v / 2 ^ 32)) as (Hh1 & Hh2 & Hh3 & Hh4).
    { split; [apply Z.div_pos; lia|apply Z.div_lt_upper_bound; lia]. }
    assert (0 ≤ v mod 2 ^ 32 < 2 ^ 32) as Hm by (apply Z.mod_pos_bound; lia).
    destruct (format_hex_spec (v mod 2 ^ 32) Hm) as (Hl1 & Hl2 & Hl3 & Hl4).
    unfold LSN. rewrite split_at, split_none, Hh1, Hl1 by done.
    rewrite !bool_decide_false by done. rewrite !(proj2 (Nat.ltb_ge _ _)) by lia. cbn [orb].
    rewrite lor_disjoint by done. f_equal. pose proof (Z.div_mod v (2 ^ 32)). lia.
  - intros text. unfold LSN. destruct (Split "/" text) as [|hi [|lo [|]]]; try done. destruct (_ || _); [done|].
    destruct (ParseUint hi 16 32) as [h|] eqn:Hh; [|done]. destruct (ParseUint lo 16 32) as [l|] eqn:Hl; [|done].
    intros [= <-]. apply ParseUint_bound in Hh, Hl; [|lia..]. rewrite lor_disjoint by done. lia.
Qed.

(** ** The selected member holds every history *)

Section authoritative.
Variable EvidenceDigest : RecoveryEvidence → string.

(** What the record of [e] proves about the history of [o]. *)
Definition holds_history (proofs : list RecoveryProof) (e o : RecoveryEvidence) : Prop :=
  match ev_Engine e with
  | EngineMySQL =>
      ∃ mine theirs, ParseGTIDSet (ev_GTIDExecuted e) = Ok mine ∧ ParseGTIDSet (ev_GTIDExecuted o) = Ok theirs ∧
        ∀ t, gtid_in theirs t → gtid_in mine t
  | EnginePostgreSQL =>
      ev_SystemIdentifier e = ev_SystemIdentifier o ∧
      ∃ common p, CommonTimeline e o = Ok common ∧ p ∈ proofs ∧
        (proof_CandidateID p, proof_OtherID p) = (ev_InstanceID e, ev_InstanceID o) ∧
        (proof_CandidateFingerprint p, proof_OtherFingerprint p) = (ev_Fingerprint e, ev_Fingerprint o) ∧
        proof_CommonWALVerified p = true ∧
        (ev_Timeline o = ev_Timeline e ∧ LSN0 (ev_Position o) ≤ LSN0 (ev_Position e) ∨
         ev_Timeline o < ev_Timeline e ∧ LSN0 (ev_Position o) ≤ common.2 ∨
         ev_Timeline o ≠ ev_Timeline e ∧ proof_DiscardedWALVerified p = true ∧ proof_DiscardedTransactions p = false)
  | _ => False
  end.

Lemma mysqlContains_spec e o : mysqlContains e o = Ok true → 
  ∃ mine theirs, ParseGTIDSet (ev_GTIDExecuted e) = Ok mine ∧ ParseGTIDSet (ev_GTIDExecuted o) = Ok theirs ∧
    ∀ t, gtid_in theirs t → gtid_in mine t.
Proof.
  unfold mysqlContains, parse_evidence.
  destruct (ParseGTIDSet (ev_GTIDExecuted e)) as [c|] eqn:Hc; [|done].
  destruct (ParseGTIDSet (ev_GTIDPurged e)) as [p|] eqn:Hp; [|done].
  destruct (ParseGTIDSet (ev_GTIDExecuted o)) as [f|] eqn:Hf; [|done]. cbn [mbind result_bind].
  apply ParseGTIDSet_raw in Hc as [Hcc _], Hp as [Hpc _], Hf as [Hfc _].
  unfold AssessGTIDRecovery.
  destruct (CompareGTIDSets_spec c p Hcc Hpc) as [[_ ->]|[_ ->]]; [|done]. cbn [mbind result_bind ErrantTransactions].
  destruct (negb _); [done|].
  destruct (CompareGTIDSets_spec c f Hcc Hfc) as [[_ ->]|[_ ->]]; [|done]. cbn [mbind result_bind].
  destruct (transactionDifference p f); [|done]. intros [= Hz%Z.eqb_eq]. cbn in Hz.
  exists c, f. split_and!; try done. by apply diff_size_zero.
Qed.

Lemma proof_verdict_spec e o ce oe proofs : proof_verdict e o ce oe proofs = Ok true →
  ∃ p, p ∈ proofs ∧ (proof_CandidateID p, proof_OtherID p) = (ev_InstanceID e, ev_InstanceID o) ∧
    (proof_CandidateFingerprint p, proof_OtherFingerprint p) = (ev_Fingerprint e, ev_Fingerprint o) ∧
    proof_CommonWALVerified p = true ∧
    (ev_Timeline o = ev_Timeline e ∨ ev_Timeline o < ev_Timeline e ∧ oe ≤ ce ∨
     ev_Timeline o ≠ ev_Timeline e ∧ proof_DiscardedWALVerified p = true ∧ proof_DiscardedTransactions p = false).
Proof.
  induction proofs as [|p proofs IH]; cbn; [done|].
  destruct (_ || _) eqn:Hid; [intros (q & ? & ?)%IH; exists q; split; [set_solver|done]|].
  destruct (_ || _) eqn:Hfp in |- *; [done|]. destruct (proof_CommonWALVerified p) eqn:Hw; [|done]. cbn [negb].
  repeat bsimpl_step. intros Hv. exists p. split; [set_solver|]. split; [congruence|]. split; [congruence|].
  split; [done|]. destruct (Z.eqb_spec (ev_Timeline o) (ev_Timeline e)); [by left|]. cbn in Hv.
  destruct (_ && _) eqn:Ho in Hv; repeat bsimpl_step; [right; left; lia|right; right].
  injection Hv as Hv. apply andb_true_iff in Hv as [? ?%negb_true_iff]. done.
Qed.

Lemma contains_holds proofs e o : contains proofs e o = Ok true → holds_history proofs e o.
Proof.
  unfold contains, holds_history. destruct (ev_Engine e); try done; [apply mysqlContains_spec|].
  unfold PostgreSQLContains. intros H. apply require_bind in H as [Hs%bool_decide_eq_true_1 H].
  apply result_bind_ok in H as (common & Hcom & H). apply result_bind_ok in H as (cend & Hce & H).
  apply result_bind_ok in H as (oend & Hoe & H). split; [done|]. unfold LSN0. rewrite Hce, Hoe.
  destruct (_ && _) eqn:Hlt in H; [done|]. apply proof_verdict_spec in H as (p & Hp & Hid & Hf & Hw & Hv).
  exists common, p. split_and!; try done. apply andb_false_iff in Hlt.
  destruct Hv as [Ht|[?|?]]; [left|by auto..]. split; [done|].
  destruct Hlt as [Hn%Z.eqb_neq|Hn%Z.ltb_ge]; [congruence|done].
Qed.

Lemma contains_all_spec proofs e l b : contains_all proofs e l = Ok b →
  b = true ↔ ∀ o, o ∈ l → ev_InstanceID o ≠ ev_InstanceID e → contains proofs e o = Ok true.
Proof.
  induction l as [|o l IH]; cbn; [intros [= <-]; split; [by intros _ o ?%elem_of_nil|done]|].
  destruct (bool_decide_reflect (ev_InstanceID e = ev_InstanceID o)) as [He|He].
  - intros H. rewrite (IH H). split; intros Hall p; [rewrite elem_of_cons; intros [->|Hp] Hne; [congruence|by apply Hall]|].
    intros Hp. apply Hall. set_solver.
  - destruct (contains proofs e o) as [[]|] eqn:Hc; [|intros [= <-]|done].
    + intros Hr. rewrite (IH Hr). split; intros Hall p; [rewrite elem_of_cons; intros [->|Hp] Hne; [done|by apply Hall]|].
      intros Hp. apply Hall. set_solver.
    + split; [done|]. intros Hall. rewrite (Hall o) in Hc; [done|set_solver|done].
Qed.

(** The members that contain all others. *)
Definition dominates (proofs : list RecoveryProof) (evidence : list RecoveryEvidence) (e : RecoveryEvidence) : Prop :=
  ∀ o, o ∈ evidence → ev_InstanceID o ≠ ev_InstanceID e → contains proofs e o = Ok true.

Lemma select_candidates proofs evidence l acc cs :
  for_each (select_step proofs evidence) acc l = Ok cs →
  ∀ id, id ∈ cs ↔ id ∈ acc ∨ ∃ e, e ∈ l ∧ ev_InstanceID e = id ∧ dominates proofs evidence e.
Proof.
  revert acc. induction l as [|e l IH]; intros acc; cbn.
  { intros [= ->] id. split; [by left|]. intros [?|(? & ?%elem_of_nil & _)]; done. }
  destruct (select_step proofs evidence acc e) as [acc'|] eqn:Hs; [|done]. intros H id. rewrite (IH _ H).
  unfold select_step in Hs. apply result_bind_ok in Hs as (b & Hb & [= <-]). apply contains_all_spec in Hb.
  unfold dominates in *. setoid_rewrite elem_of_cons. destruct b.
  - rewrite elem_of_app, list_elem_of_singleton. split; [|naive_solver].
    intros [[?| ->]|(e' & ? & ? & ?)]; [by left| |right; exists e'; by auto].
    right. exists e. split_and!; [by left|done|]. by apply Hb.
  - split; [naive_solver|]. intros [?|(e' & [->|?] & ? & Hd)]; [by left| |right; by exists e'].
    by apply Hb in Hd.
Qed.

Lemma match_members e found l b : for_each (match_member e) found l = Ok b →
  b = true → found = true ∨ ∃ m, m ∈ l ∧ inst_ResourceID m = ev_InstanceID e ∧ ev_Engine e = inst_Engine m.
Proof.
  revert found. induction l as [|m l IH]; intros found; cbn; [intros [= ->]; by left|].
  destruct (match_member e found m) as [f'|] eqn:Hm; [|done]. intros H ->. destruct (IH f' H eq_refl) as [->|(x & ? & ?)];
    [|right; exists x; split; [set_solver|done]].
  unfold match_member in Hm. destruct (bool_decide_reflect (inst_ResourceID m = ev_InstanceID e)) as [Hid|Hid]; cbn in Hm.
  - right. exists m. repeat bsimpl_step. split; [set_solver|done].
  - left. congruence.
Qed.

Definition evidence_good (members : list DatabaseInstance) (e : RecoveryEvidence) : Prop :=
  ev_Fenced e = true ∧ ev_Complete e = true ∧ ev_PreparedTransactions e = false ∧
  ev_Fingerprint e = EvidenceFingerprint EvidenceDigest e ∧
  ∃ m, m ∈ members ∧ inst_ResourceID m = ev_InstanceID e ∧ ev_Engine e = inst_Engine m.

Lemma check_evidence_spec members st e st' :
  check_evidence EvidenceDigest members st e = Ok st' →
  (evidence_good members e ∧ ev_InstanceID e ∉ st.1) ∧ st'.1 = {[ev_InstanceID e]} ∪ st.1.
Proof.
  destruct st as [seen native]. unfold check_evidence, evidence_good. intros H.
  apply reject_bind in H as [Hr H]. apply result_bind_ok in H as (found & Hf & H).
  apply reject_bind in H as [Hn [= <-]]. repeat bsimpl_step. subst found.
  apply match_members in Hf; [|done]. destruct Hf as [?|?]; [done|]. done.
Qed.

Lemma evidence_spec members evidence : ValidateEvidence EvidenceDigest members evidence = Ok tt →
  NoDup (ev_InstanceID <$> evidence) ∧ (∀ e, e ∈ evidence → evidence_good members e) ∧
  inst_ResourceID <$> members ≡ₚ ev_InstanceID <$> evidence.
Proof.
  unfold ValidateEvidence. intros H. apply reject_bind in H as [Hlen H].
  apply result_bind_ok in H as (_ & _ & H). apply result_bind_ok in H as (st & He & _).
  assert (∀ pre e post, evidence = pre ++ e :: post → evidence_good members e ∧ ev_InstanceID e ∉ ev_InstanceID <$> pre) as Hall.
  { assert (∀ l st st', for_each (check_evidence EvidenceDigest members) st l = Ok st' →
      ∀ pre e post, l = pre ++ e :: post → evidence_good members e ∧
        ev_InstanceID e ∉ ev_InstanceID <$> pre ∧ ev_InstanceID e ∉ st.1) as Hgen.
    { clear. induction l as [|a l IH]; intros st st' H pre e post Heq; [by destruct pre|]. cbn in H.
      destruct (check_evidence _ members st a) as [s1|] eqn:Ha; [|done].
      apply check_evidence_spec in Ha as [[Hg Hn] Hs]. destruct pre as [|b pre]; injection Heq as -> ->.
      - split_and!; [done|set_solver|done].
      - destruct (IH s1 st' H pre e post eq_refl) as (H1 & H2 & H3). cbn. rewrite Hs in H3. set_solver. }
    intros pre e post Heq. destruct (Hgen _ _ _ He pre e post Heq) as (? & ? & _). done. }
  assert (NoDup (ev_InstanceID <$> evidence)) as Hnd by (apply NoDup_seen; intros; by eapply Hall).
  assert (∀ e, e ∈ evidence → evidence_good members e) as Hg by (apply forall_split; intros; by eapply Hall).
  split_and!; try done. repeat bsimpl_step. apply Nat.eqb_eq in H0.
  symmetry. apply submseteq_length_Permutation; [|by rewrite !length_fmap, H0].
  apply NoDup_submseteq; [done|]. intros x (e & -> & Hin)%list_elem_of_fmap.
  destruct (Hg e Hin) as (_ & _ & _ & _ & m & Hm & Hid & _). apply list_elem_of_fmap. by exists m.
Qed.

(** The primary chosen to restart a destroyed cluster is a registered member
    that provably holds every member's committed history: evidence exists for
    every member, fenced, complete and without prepared transactions; for MySQL
    every GTID transaction executed anywhere was executed by the chosen member;
    for PostgreSQL each peer's WAL is covered by a matching verified proof, with
    nothing committed on a discarded branch.  Among equivalent members the
    smallest identifier is chosen, whatever the order of the evidence. *)
Theorem Select_authoritative members evidence proofs id :
  Select EvidenceDigest members evidence proofs = Ok id →
  (∀ m, m ∈ members → ∃ e, e ∈ evidence ∧ ev_InstanceID e = inst_ResourceID m ∧ evidence_good members e) ∧
  ∃ e, e ∈ evidence ∧ ev_InstanceID e = id ∧ evidence_good members e ∧
    (∀ o, o ∈ evidence → ev_InstanceID o ≠ id → holds_history proofs e o) ∧
    (∀ e', e' ∈ evidence → dominates proofs evidence e' → id_le id (ev_InstanceID e')).
Proof.
  unfold Select. intros H. apply result_bind_ok in H as ([] & Hv & H).
  apply evidence_spec in Hv as (_ & Hg & Hp). apply result_bind_ok in H as (cs & Hcs & H).
  pose proof (select_candidates _ _ _ _ _ Hcs) as Hin. clear Hcs. split.
  { intros m Hm. assert (inst_ResourceID m ∈ ev_InstanceID <$> evidence) as (e & He & Hin')%list_elem_of_fmap.
    { rewrite <- Hp. apply list_elem_of_fmap. by exists m. }
    exists e. split_and!; auto. }
  destruct (merge_sort id_le cs) as [|first rest] eqn:Hs; [done|]. injection H as ->.
  pose proof (merge_sort_Permutation id_le cs) as Hperm. rewrite Hs in Hperm.
  pose proof (Sorted_merge_sort id_le cs) as Hsort. rewrite Hs in Hsort.
  assert (∀ j, j ∈ cs → id_le id j) as Hmin.
  { intros j. rewrite <- Hperm, elem_of_cons. apply Sorted_StronglySorted in Hsort; [|apply _].
    apply StronglySorted_inv in Hsort as [_ Hall]. rewrite Forall_forall in Hall.
    intros [->|?]; [|by apply Hall]. by destruct (id_le_total id id). }
  assert (id ∈ cs) as Hid by (rewrite <- Hperm; set_solver).
  apply Hin in Hid as [?%elem_of_nil|(e & He & Heid & Hd)]; [done|]. exists e. split_and!; try done; [by auto| |].
  - intros o Ho Hne. apply contains_holds, Hd; [done|congruence].
  - intros e' He' Hd'. apply Hmin, Hin. right. by exists e'.
Qed.
End authoritative.

(** ** What a WAL proof has verified *)

Section wal_proofs.
Context {W : Type}.
Variables (ctx_done : W → bool)
  (VerifyWAL : RecoveryEvidence → RecoveryWALRequest → W → W * option RecoveryWALResult).

(** [tiled P a b]: the range from [a] to [b] is cut into consecutive pieces,
    each with a timeline on which [P] holds. *)
Inductive tiled (P : Z → Z → Z → Prop) : Z → Z → Prop :=
| tiled_nil a : tiled P a a
| tiled_snoc a b c timeline : tiled P a b → b < c → P timeline b c → tiled P a c.

(** Both members' agents returned the same digest of the piece. *)
Definition agreed (e o : RecoveryEvidence) (timeline a b : Z) : Prop :=
  ∃ w w1 w2 mine theirs, VerifyWAL e (wal_request e timeline a b) w = (w1, Some mine) ∧
    VerifyWAL o (wal_request o timeline a b) w1 = (w2, Some theirs) ∧ wal_Digest mine = wal_Digest theirs.
(** The peer's agent found no transaction in the piece, unless [transactions]. *)
Definition inspected (transactions : bool) (o : RecoveryEvidence) (timeline a b : Z) : Prop :=
  ∃ w w1 answer, VerifyWAL o (wal_request o timeline a b) w = (w1, Some answer) ∧
    (wal_Transactions answer = true → transactions = true).

Lemma tiled_weaken (P Q : Z → Z → Z → Prop) a b : (∀ t x y, P t x y → Q t x y) → tiled P a b → tiled Q a b.
Proof. intros HPQ H. induction H; econstructor; eauto. Qed.

Lemma common_branches_tiled e o timeline stop path start : ∀ position w w' final,
  tiled (agreed e o) start position →
  common_branches VerifyWAL e o timeline stop path position w = (w', Ok final) → tiled (agreed e o) start final.
Proof.
  induction path as [|branch path IH]; intros position w w' final Ht; cbn; [by intros [= _ <-]|].
  set (branchEnd := Z.min _ stop). destruct (Z.leb_spec branchEnd position); [by apply IH|].
  destruct (VerifyWAL e _ w) as [w1 [mine|]] eqn:H1; [|done].
  destruct (VerifyWAL o _ w1) as [w2 [theirs|]] eqn:H2; [|done].
  destruct (digest_ok mine theirs) eqn:Hd; [|done]. cbn [negb].
  assert (tiled (agreed e o) start branchEnd) as Ht'.
  { eapply tiled_snoc; [exact Ht|done|]. exists w, w1, w2, mine, theirs. split_and!; [exact H1|exact H2|].
    unfold digest_ok in Hd. repeat bsimpl_step. done. }
  destruct (_ =? timeline); [by intros [= _ <-]|by apply IH].
Qed.

Lemma discarded_branches_tiled o path start : ∀ position tx w w' final tx',
  tiled (inspected tx o) start position →
  discarded_branches VerifyWAL o path position tx w = (w', Ok (final, tx')) → tiled (inspected tx' o) start final.
Proof.
  induction path as [|branch path IH]; intros position tx w w' final tx' Ht; cbn; [by intros [= _ <- <-]|].
  set (branchEnd := LSN0 _). destruct (Z.leb_spec branchEnd position); [by apply IH|].
  destruct (VerifyWAL o _ w) as [w1 [ans|]] eqn:H1; [|done]. apply IH.
  eapply tiled_snoc; [|done|].
  - eapply tiled_weaken; [|exact Ht]. intros t x y (u & u1 & a & Hu & Ha). exists u, u1, a. split; [exact Hu|].
    intros H'%Ha. subst tx. done.
  - exists w, w1, ans. split; [exact H1|]. intros ->. apply orb_true_r.
Qed.

(** The proof [p] of the pair [e], [o] stands for verified ranges. *)
Definition proof_stands (e o : RecoveryEvidence) (p : RecoveryProof) : Prop :=
  (proof_CandidateID p, proof_OtherID p) = (ev_InstanceID e, ev_InstanceID o) ∧
  (proof_CandidateFingerprint p, proof_OtherFingerprint p) = (ev_Fingerprint e, ev_Fingerprint o) ∧
  ∃ common, CommonTimeline e o = Ok common ∧
    Z.min (LSN0 (ev_Redo e)) (LSN0 (ev_Redo o)) < common.2 ∧
    tiled (agreed e o) (Z.min (LSN0 (ev_Redo e)) (LSN0 (ev_Redo o))) common.2 ∧
    (proof_DiscardedWALVerified p = true →
       tiled (inspected (proof_DiscardedTransactions p) o) common.2 (LSN0 (ev_Position o))).

Lemma compare_pair_stands e o w w' p : compare_pair ctx_done VerifyWAL e o w = (w', Ok p) → proof_stands e o p.
Proof.
  unfold compare_pair. match goal with |- context [match ?r with Ok _ => _ | Err _ => _ end] => destruct r as [[[common start] path]|] eqn:Hr end;
    [|done].
  apply reject_bind in Hr as [_ Hr]. apply result_bind_ok in Hr as (c & Hc & Hr).
  apply result_bind_ok in Hr as (cs & Hcs & Hr). apply result_bind_ok in Hr as (os & Hos & Hr).
  apply reject_bind in Hr as [Hlt Hr]. apply result_bind_ok in Hr as (pa & _ & [= -> <- <-]).
  destruct common as [timeline stop]. cbn in Hlt. apply Z.leb_gt in Hlt.
  destruct (common_branches _ _ _ _ _ _ _ _) as [w1 [position|]] eqn:Hb; [|done].
  destruct (Z.eqb_spec position stop) as [->|]; [|done]. cbn [negb].
  apply (common_branches_tiled _ _ _ _ _ (Z.min cs os)) in Hb; [|apply tiled_nil].
  assert (LSN0 (ev_Redo e) = cs ∧ LSN0 (ev_Redo o) = os) as [Hcs0 Hos0] by by unfold LSN0; rewrite Hcs, Hos.
  unfold discarded_proof, proof_stands. rewrite Hcs0, Hos0, Hc. destruct (_ && _) eqn:Hd.
  - destruct (timelinePath o) as [pth|]; [|done].
    destruct (discarded_branches _ _ _ _ _ _) as [w2 [[pos tx]|]] eqn:Hdb; [|done]. intros [= _ <-]. cbn.
    apply (discarded_branches_tiled _ _ stop) in Hdb; [|apply tiled_nil].
    split_and!; try done. exists (timeline, stop). cbn. split_and!; try done. by intros <-%Z.eqb_eq.
  - intros [= _ <-]. cbn. split_and!; try done. exists (timeline, stop). done.
Qed.

Lemma compare_others_stands evidence e l acc : ∀ w w' ps, l ⊆ evidence → e ∈ evidence →
  (∀ p, p ∈ acc → ∃ x y, x ∈ evidence ∧ y ∈ evidence ∧ ev_InstanceID x ≠ ev_InstanceID y ∧ proof_stands x y p) →
  compare_others ctx_done VerifyWAL e l acc w = (w', Ok ps) →
  ∀ p, p ∈ ps → ∃ x y, x ∈ evidence ∧ y ∈ evidence ∧ ev_InstanceID x ≠ ev_InstanceID y ∧ proof_stands x y p.
Proof.
  revert acc. induction l as [|o l IH]; intros acc w w' ps Hl He Hacc; cbn; [by intros [= _ <-]|].
  assert (o ∈ evidence ∧ l ⊆ evidence) as [Ho Hl'] by set_solver.
  destruct (bool_decide_reflect (ev_InstanceID e = ev_InstanceID o)); [by apply IH|].
  destruct (compare_pair _ _ _ _ _) as [w1 [p|]] eqn:Hp; [|done]. apply compare_pair_stands in Hp.
  apply IH; [done..|]. intros q [Hq| ->%list_elem_of_singleton]%elem_of_app; [by apply Hacc|]. by exists e, o.
Qed.

Lemma compare_candidates_stands evidence l : ∀ acc w w' ps, l ⊆ evidence →
  (∀ p, p ∈ acc → ∃ x y, x ∈ evidence ∧ y ∈ evidence ∧ ev_InstanceID x ≠ ev_InstanceID y ∧ proof_stands x y p) →
  compare_candidates ctx_done VerifyWAL evidence l acc w = (w', Ok ps) →
  ∀ p, p ∈ ps → ∃ x y, x ∈ evidence ∧ y ∈ evidence ∧ ev_InstanceID x ≠ ev_InstanceID y ∧ proof_stands x y p.
Proof.
  induction l as [|e l IH]; intros acc w w' ps Hl Hacc; cbn; [by intros [= _ <-]|].
  assert (e ∈ evidence ∧ l ⊆ evidence) as [He Hl'] by set_solver.
  destruct (compare_others _ _ _ _ _ _) as [w1 [acc'|]] eqn:Ho; [|done].
  apply IH; [done|]. eapply compare_others_stands; [|exact He|exact Hacc|exact Ho]. done.
Qed.

(** A WAL proof is never assumed: every proof [CompareWAL] returns is about
    two different members, carries the fingerprints of their evidence, and rests
    on agents' answers that cover, without gap, the whole range from the older
    redo position to the end of the common timeline with equal digests; when it
    says the discarded branch was verified, the answers cover that branch to the
    peer's last position and report no transaction unless the proof says so. *)
Theorem CompareWAL_covers evidence w w' proofs p :
  CompareWAL ctx_done VerifyWAL evidence w = (w', Ok proofs) → p ∈ proofs →
  ∃ e o, e ∈ evidence ∧ o ∈ evidence ∧ ev_InstanceID e ≠ ev_InstanceID o ∧ proof_stands e o p.
Proof.
  intros H. eapply (compare_candidates_stands evidence evidence []); [done|by intros q ?%elem_of_nil|exact H].
Qed.
End wal_proofs.

(** ** Concrete instances *)

Definition ws_digest (e : RecoveryEvidence) : string := ev_NativeID e +:+ ev_GTIDExecuted e.
Definition ws_a : ResourceID := "aaaaaaaa-aaaa-4aaa-8aaa-aaaaaaaaaaaa".
Definition ws_b : ResourceID := "bbbbbbbb-bbbb-4bbb-8bbb-bbbbbbbbbbbb".
Definition ws_uuid : string := "3E11FA47-71CA-11E1-9E33-C80AA9429562".
Definition ws_member (id : ResourceID) : DatabaseInstance :=
  zero_DatabaseInstance <| inst_ResourceID := id |> <| inst_Engine := EngineMySQL |>
    <| inst_EngineIdentity := {[ "server_uuid" := id ]} |>.
Definition ws_evidence (id : ResourceID) (executed : string) : RecoveryEvidence :=
  zero_RecoveryEvidence <| ev_InstanceID := id |> <| ev_NativeID := id |> <| ev_Engine := EngineMySQL |>
    <| ev_ObservedAt := 5 |> <| ev_Fenced := true |> <| ev_Complete := true |>
    <| ev_GTIDExecuted := executed |> <| ev_Fingerprint := id +:+ executed |>.
Definition ws_evidences : list RecoveryEvidence :=
  [ws_evidence ws_a (ws_uuid +:+ ":1-100"); ws_evidence ws_b (ws_uuid +:+ ":1-60:61-101")].

Lemma Select_authoritative_witness :
  Select ws_digest [ws_member ws_a; ws_member ws_b] ws_evidences [] = Ok ws_b ∧
  ∃ e, e ∈ ws_evidences ∧ ev_InstanceID e = ws_b ∧
    ∀ o, o ∈ ws_evidences → ev_InstanceID o ≠ ws_b → holds_history [] e o.
Proof.
  assert (Select ws_digest [ws_member ws_a; ws_member ws_b] ws_evidences [] = Ok ws_b) as H by by vm_compute.
  split; [exact H|].
  destruct (Select_authoritative ws_digest [ws_member ws_a; ws_member ws_b] ws_evidences [] ws_b H)
    as (_ & e & He & Hid & _ & Hh & _).
  exists e. exact (conj He (conj Hid Hh)).
Defined.

Lemma LSN_roundtrip_witness : LSN (formatLSN 81985529216486895) = Ok 81985529216486895 ∧ formatLSN 81985529216486895 = "1234567/89ABCDEF".
Proof. split; [apply (LSN_roundtrip 81985529216486895); unfold max_uint64; lia|by vm_compute]. Defined.

(** Two PostgreSQL members that forked from timeline 1. *)
Definition ws_pg (id : ResourceID) (timeline : Z) (position : string) (history : list RecoveryTimeline) : RecoveryEvidence :=
  zero_RecoveryEvidence <| ev_InstanceID := id |> <| ev_Engine := EnginePostgreSQL |>
    <| ev_SystemIdentifier := "7654321" |> <| ev_Timeline := timeline |> <| ev_Position := position |>
    <| ev_Redo := "0/100" |> <| ev_History := history |> <| ev_Fingerprint := id |>.
Definition ws_pg_evidence : list RecoveryEvidence :=
  [ws_pg ws_a 2 "0/900" [mkRecoveryTimeline 1 "0/500"]; ws_pg ws_b 1 "0/600" []].
Definition ws_wal_answer : RecoveryWALResult :=
  mkWALResult "sha256:0123456789abcdef0123456789abcdef0123456789abcdef0123456789abcdef" false.
Definition ws_verify (e : RecoveryEvidence) (r : RecoveryWALRequest) (w : nat) : nat * option RecoveryWALResult :=
  (S w, Some ws_wal_answer).
Definition ws_run : nat * result select_error (list RecoveryProof) := CompareWAL (λ _, false) ws_verify ws_pg_evidence 0%nat.
Definition ws_proof : RecoveryProof := mkRecoveryProof ws_a ws_b ws_a ws_b true true false.

Lemma CompareWAL_covers_witness :
  ∃ e o, e ∈ ws_pg_evidence ∧ o ∈ ws_pg_evidence ∧ ev_InstanceID e ≠ ev_InstanceID o ∧ proof_stands ws_verify e o ws_proof.
Proof.
  apply (CompareWAL_covers (λ _, false) ws_verify ws_pg_evidence 0%nat ws_run.1
           (match ws_run.2 with Ok l => l | Err _ => [] end)).
  - vm_compute. reflexivity.
  - apply list_elem_of_In. vm_compute. left. reflexivity.
Defined.
