(* ===== verification/Disaster.v ===== *)
(** * internal/store/disaster.go: the disaster recovery task

    A recovery task of a cluster is planned, begun under an operation lock
    (which freezes the cluster and revokes its writer leases in one commit),
    advanced through its stages, committed against a verified topology and
    completed.  [plan_digest] and [Bounded] stand for the digest of a plan and
    for [redact.Bounded]; the theorems hold for any functions.  A task returned
    beside an error is left out.  [reflect.DeepEqual] on engine identities is
    equality of the maps (a nil map and an empty one are the same here). *)
From S2P Require Import Prelude GoStd Model Endpoint Lease Locks Gtid Repository Selection Operations Power.
From S2P Require Import HAEndpoints.

(** ** pkg/identity: native identities *)

Definition identity_value (identity : gmap string string) (key : string) : string :=
  ToLower (TrimSpace (mget identity key)).
Definition validPostgreSQLSystemIdentifier (value : string) : bool :=
  match ParseUint (TrimSpace value) 10 64 with Some parsed => 0 <? parsed | None => false end.
Definition InstanceKey (engine : Engine) (identity : gmap string string) : option string :=
  let value := identity_value identity in
  match engine with
  | EngineMySQL => if value "server_uuid" != "" then Some ("mysql:" +:+ value "server_uuid") else None
  | EnginePostgreSQL =>
      if ValidResourceID (value "resource_id") && validPostgreSQLSystemIdentifier (value "system_identifier")
      then Some ("postgresql:" +:+ value "resource_id") else None
  | EngineOracle =>
      if (value "dbid" != "") && (value "db_unique_name" != "") && (value "instance_name" != "")
      then Some ("oracle:" +:+ value "dbid" +:+ ":" +:+ value "db_unique_name" +:+ ":" +:+ value "instance_name")
      else None
  | EngineSQLServer =>
      if (value "group_id" != "") && (value "replica_id" != "")
      then Some ("sqlserver:" +:+ value "group_id" +:+ ":" +:+ value "replica_id") else None
  | EngineOther _ => None
  end.

(** ** Queries *)

(** The task left its executor: it can be planned over or it is over. *)
Definition finished (stage : RecoveryStage) : bool :=
  (stage == RecoverySucceeded) || (stage == RecoverySuperseded).

Definition put_task (task : RecoveryTask) : snapshot → snapshot :=
  λ s, s <| sn_RecoveryTasks ::= <[task_ResourceID task := task]> |>.

Definition members_of (s : snapshot) (clusterID : ResourceID) : list DatabaseInstance :=
  filter (λ i, inst_ClusterID i = clusterID) (sorted_values (sn_Instances s)).

Definition same_inventory (current member : DatabaseInstance) : bool :=
  (inst_ClusterID current == inst_ClusterID member) && (inst_Engine current == inst_Engine member) &&
  (inst_EngineIdentity current == inst_EngineIdentity member) && (inst_NodeID current == inst_NodeID member) &&
  (inst_Hostname current == inst_Hostname member) && (inst_IPAddress current == inst_IPAddress member) &&
  (inst_Port current =? inst_Port member).
Definition recoveryInventoryValid (s : snapshot) (task : RecoveryTask) : bool :=
  (default 0 (sn_InventoryGenerations s !! task_ClusterID task) =? task_InventoryGeneration task) &&
  Nat.eqb (length (members_of s (task_ClusterID task))) (length (task_Members task)) &&
  forallb (λ member, match sn_Instances s !! inst_ResourceID member with
                     | Some current => same_inventory current member
                     | None => false
                     end) (task_Members task).

Definition cluster_lock_live (s : snapshot) (clusterID : ResourceID) (now : Time) : bool :=
  existsb (λ lock, (lock_ClusterID lock == clusterID) && After (lock_ExpiresAt lock) now)
    (map_to_list (sn_OperationLocks s)).*2.

Definition recoveryPlanReplaceable (s : snapshot) (cluster : DatabaseCluster) (task : RecoveryTask) (now : Time) : bool :=
  negb (negb ((task_Stage task == RecoveryPlanned) || (task_Stage task == RecoveryBlocked)) ||
        negb (IsZero (task_AttemptStartedAt task)) || negb (IsZero (task_CommittedAt task)) ||
        (task_PrimaryID task != "") || negb (bool_decide (task_Evidence task = [])) ||
        negb (bool_decide (task_Proofs task = [])) ||
        match cluster_Recovery cluster with
        | Some recovery => rstate_TaskID recovery == task_ResourceID task
        | None => false
        end) &&
  negb (cluster_lock_live s (task_ClusterID task) now).

Definition RecoveryAuthorization (clusterID instanceID : ResourceID) (now : Time) (r : Repository)
  : option (RecoveryTask * Time) :=
  let s := repo_snapshot r in
  match sn_Clusters s !! clusterID with
  | None => None
  | Some cluster =>
      if negb (DisasterRecoveryActive cluster) then None
      else match cluster_Recovery cluster ≫= λ recovery, sn_RecoveryTasks s !! rstate_TaskID recovery with
      | None => None
      | Some task =>
          if negb (recoveryLeaseValid s task now) || negb (recoveryInventoryValid s task) then None
          else
            let granted := Some (task, default 0 (lock_ExpiresAt <$> sn_OperationLocks s !! task_LeaseID task)) in
            if task_PrimaryID task != instanceID then
              if (task_Stage task == RecoveryRebuilding) ||
                 ((task_Engine task == EngineMySQL) &&
                  ((task_Stage task == RecoveryFencing) || (task_Stage task == RecoveryInspecting)) &&
                  (task_PrimaryID task == ""))
              then if existsb (λ member, inst_ResourceID member == instanceID) (task_Members task)
                   then granted else None
              else None
            else match task_Stage task with
                 | RecoveryStarting | RecoveryRebuilding | RecoveryVerifying | RecoveryCommitted => granted
                 | _ => None
                 end
      end
  end.

(** ** Operations *)

Section disaster.
Variables (EvidenceDigest : RecoveryEvidence → string)
  (plan_digest : ResourceID → ResourceID → uint64 → list DatabaseInstance → string)
  (Bounded : string → Z → string).

Definition record_event (now : Time) (message : string) (task : RecoveryTask) : RecoveryTask :=
  task <| task_Message := message |>
       <| task_Events ::= λ l, l ++ [mkRecoveryEvent now (task_Stage task) "" message] |>.
Definition staged (now : Time) (stage : RecoveryStage) (message : string) (task : RecoveryTask) : RecoveryTask :=
  record_event now message
    (task <| task_Stage := stage |> <| task_MetadataRevision ::= λ n, u64 (n + 1) |> <| task_UpdatedAt := now |>).

Definition blocked_recovery (recovery : RecoveryState) : RecoveryState :=
  recovery <| rstate_LastRecoveryStatus := "blocked" |> <| rstate_ActualState := "unknown" |>
    <| rstate_IncidentActive := true |> <| rstate_IncidentRecovered := false |>.

(** One iteration of [BlockAbandonedRecoveries]; [s] is the current snapshot. *)
Definition block_step (s : snapshot) (now : Time) (st : snapshot * bool) (p : ResourceID * RecoveryTask) : snapshot * bool :=
  let '(next, changed) := st in
  let '(id, task) := p in
  if bool_decide (task_Stage task ∈ [RecoveryPlanned; RecoveryBlocked; RecoverySucceeded; RecoverySuperseded]) then st
  else if recoveryLeaseValid s task (Add now (- (15 * Second))) then st
  else if Sub now (task_UpdatedAt task) <? 15 * Second then st
  else
    let task := staged now RecoveryBlocked
      "recovery executor lease expired; member fencing remains required before retry" task in
    let next := next <| sn_RecoveryTasks ::= <[id := task]> |> in
    let cluster := default zero_DatabaseCluster (sn_Clusters next !! task_ClusterID task) in
    match cluster_Recovery cluster with
    | Some recovery =>
        if rstate_TaskID recovery == id then
          (next <| sn_Clusters ::= <[task_ClusterID task :=
             cluster <| cluster_RecoveryFreeze := true |> <| cluster_Recovery := Some (blocked_recovery recovery) |>
               <| cluster_MetadataRevision ::= λ n, u64 (n + 1) |> <| cluster_UpdatedAt := now |>]> |>, true)
        else (next, true)
    | None => (next, true)
    end.
Definition BlockAbandonedRecoveries (ctx_done : bool) (r : Repository) : Repository * result store_error unit :=
  let s := repo_snapshot r in
  if ctx_done then (r, Err ErrContext)
  else match foldl (block_step s (repo_now r)) (s, false) (map_to_list (sn_RecoveryTasks s)) with
  | (_, false) => (r, Ok tt)
  | (next, true) => commit next r
  end.

Definition RecordRecoveryStartFailure (ctx_done : bool) (id : ResourceID) (revision : uint64) (message : string)
    (r : Repository) : Repository * result store_error unit :=
  let s := repo_snapshot r in
  if ctx_done then (r, Err ErrContext)
  else match sn_RecoveryTasks s !! id with
  | None => (r, Ok tt)
  | Some task =>
      if (task_MetadataRevision task != revision) ||
         negb ((task_Stage task == RecoveryPlanned) || (task_Stage task == RecoveryBlocked)) then (r, Ok tt)
      else
        let task := staged (repo_now r) RecoveryBlocked (Bounded message 2048) task in
        commit (s <| sn_RecoveryTasks ::= <[id := task]> |>) r
  end.

(** The loop of [PlanRecovery] over the tasks: the first unfinished task that
    cannot be replaced is the answer. *)
Fixpoint plan_scan (s : snapshot) (cluster : DatabaseCluster) (clusterID : ResourceID) (now : Time)
    (tasks obsolete : list RecoveryTask) : RecoveryTask + list RecoveryTask :=
  match tasks with
  | [] => inr obsolete
  | task :: tasks =>
      if (task_ClusterID task != clusterID) || finished (task_Stage task)
      then plan_scan s cluster clusterID now tasks obsolete
      else if negb (recoveryInventoryValid s task) && recoveryPlanReplaceable s cluster task now
      then plan_scan s cluster clusterID now tasks (obsolete ++ [task])
      else inl task
  end.
Definition planned_task (fresh clusterID : ResourceID) (engine : Engine) (actor : string) (now : Time)
    (generation : uint64) (members : list DatabaseInstance) : RecoveryTask :=
  zero_RecoveryTask <| task_ResourceID := fresh |> <| task_MetadataRevision := 1 |> <| task_CreatedAt := now |>
    <| task_UpdatedAt := now |> <| task_ClusterID := clusterID |> <| task_Engine := engine |>
    <| task_RequestedBy := actor |> <| task_Stage := RecoveryPlanned |>
    <| task_InventoryGeneration := generation |> <| task_Members := members |>
    <| task_Message := "all members will be fenced before authoritative history selection" |>
    <| task_PlanDigest := plan_digest fresh clusterID generation members |>.
Definition superseded_message (id : ResourceID) : string :=
  "unstarted recovery plan superseded by " +:+ id +:+ " after immutable inventory changed; fresh confirmation required".
Definition supersede (now : Time) (fresh : ResourceID) (task : RecoveryTask) : RecoveryTask :=
  staged now RecoverySuperseded (superseded_message fresh) task.

Definition power_active (s : snapshot) (clusterID : ResourceID) : bool :=
  existsb (λ op, (pow_ClusterID op == clusterID) && negb (TerminalPowerState (pow_State op)))
    (map_to_list (sn_PowerOperations s)).*2.

Definition PlanRecovery (ctx_done : bool) (fresh clusterID : ResourceID) (actor : string) (r : Repository)
  : Repository * result store_error RecoveryTask :=
  let s := repo_snapshot r in
  if ctx_done then (r, Err ErrContext)
  else if TrimSpace actor == "" then (r, Err ErrValidation)
  else match sn_Clusters s !! clusterID with
  | None => (r, Err ErrNotFound)
  | Some cluster =>
      if negb ((cluster_Engine cluster == EngineMySQL) || (cluster_Engine cluster == EnginePostgreSQL))
      then (r, Err ErrValidation)
      else match plan_scan s cluster clusterID (repo_now r) (map_to_list (sn_RecoveryTasks s)).*2 [] with
      | inl task => (r, Ok task)
      | inr obsolete =>
          if power_active s clusterID then (r, Err ErrConflict)
          else
            let members := members_of s clusterID in
            if Nat.ltb (length members) 2 then (r, Err ErrValidation)
            else
              let task := planned_task fresh clusterID (cluster_Engine cluster) actor (repo_now r)
                            (default 0 (sn_InventoryGenerations s !! clusterID)) members in
              let next := foldl (λ s old, put_task (supersede (repo_now r) fresh old) s) s obsolete in
              answer task (commit (put_task task next) r)
      end
  end.

Definition ValidateRecoveryPlan (ctx_done : bool) (task : RecoveryTask) (r : Repository) : result store_error unit :=
  let s := repo_snapshot r in
  if ctx_done then Err ErrContext
  else match sn_RecoveryTasks s !! task_ResourceID task with
  | None => Err ErrConflict
  | Some current =>
      if (task_MetadataRevision current != task_MetadataRevision task) ||
         negb ((task_Stage current == RecoveryPlanned) || (task_Stage current == RecoveryBlocked)) then Err ErrConflict
      else if negb (recoveryInventoryValid s current) then Err ErrConflict else Ok tt
  end.

(** Another operation of the cluster is running or needs review. *)
Definition operation_unsettled (s : snapshot) (clusterID : ResourceID) : bool :=
  existsb (λ op, (opn_ClusterID (rec_Operation op) == clusterID) &&
                 ((rec_Status op == OperationRunning) || RequiresReview op))
    (map_to_list (sn_Operations s)).*2.
Definition other_lock_live (s : snapshot) (task : RecoveryTask) (leaseID : ResourceID) (now : Time) : bool :=
  existsb (λ lock, (lock_ClusterID lock == task_ClusterID task) && (lock_ResourceID lock != leaseID) &&
                   After (lock_ExpiresAt lock) now)
    (map_to_list (sn_OperationLocks s)).*2.

(** A new attempt forgets everything the previous executor collected. *)
Definition begun_task (now : Time) (task : RecoveryTask) : RecoveryTask :=
  staged now RecoveryFencing "recovery freeze acquired; every member must be fenced"
    (task <| task_AttemptStartedAt := now |> <| task_CommittedAt := zero_time |> <| task_VerifiedAt := zero_time |>
          <| task_PrimaryID := "" |> <| task_Evidence := [] |> <| task_Proofs := [] |>).
Definition begun_recovery (id : ResourceID) : RecoveryState :=
  mkRecoveryState 0 id "" "running" "recovering" true false "running" "unplanned".
Definition maintain_members (clusterID : ResourceID) (value : bool) (now : Time)
    (m : gmap ResourceID DatabaseInstance) : gmap ResourceID DatabaseInstance :=
  (λ i, if inst_ClusterID i == clusterID
        then i <| inst_Maintenance := value |> <| inst_MetadataRevision ::= λ n, u64 (n + 1) |> <| inst_UpdatedAt := now |>
        else i) <$> m.

Definition begin_checks (s : snapshot) (now : Time) (task : RecoveryTask) (leaseID : ResourceID) : result store_error unit :=
  _ ← require (recoveryLeaseValid s task now && recoveryInventoryValid s task) ErrConflict;
  _ ← reject (existsb ctask_Active (map_to_list (sn_ConfigurationTasks s)).*2) ErrConflict;
  _ ← reject (bool_decide (is_Some (sn_SoftwareUpdateGate s))) ErrConflict;
  _ ← reject (other_lock_live s task leaseID now) ErrConflict;
  _ ← reject (power_active s (task_ClusterID task)) ErrConflict;
  reject (operation_unsettled s (task_ClusterID task)) ErrConflict.

(** The snapshot [BeginRecovery] commits: the task, the freeze and the
    revocation of the cluster's writer leases at once. *)
Definition begun_snapshot (s : snapshot) (now : Time) (id : ResourceID) (task : RecoveryTask) : snapshot :=
  let cluster := default zero_DatabaseCluster (sn_Clusters s !! task_ClusterID task) in
  s <| sn_RecoveryTasks ::= <[id := begun_task now task]> |>
    <| sn_Clusters ::= <[task_ClusterID task :=
         cluster <| cluster_RecoveryFreeze := true |> <| cluster_MetadataRevision ::= λ n, u64 (n + 1) |>
           <| cluster_UpdatedAt := now |> <| cluster_Recovery := Some (begun_recovery id) |>]> |>
    <| sn_Instances ::= maintain_members (task_ClusterID task) true now |>
    <| sn_CoordinationLeases ::= filter (λ p, lease_ClusterID (lr_Lease p.2) ≠ task_ClusterID task) |>.

Definition BeginRecovery (ctx_done : bool) (id : ResourceID) (revision : uint64) (leaseID : ResourceID) (r : Repository)
  : Repository * result store_error RecoveryTask :=
  let s := repo_snapshot r in
  let now := repo_now r in
  if ctx_done then (r, Err ErrContext)
  else match sn_RecoveryTasks s !! id with
  | None => (r, Err ErrNotFound)
  | Some task =>
      if (task_MetadataRevision task != revision) || finished (task_Stage task) ||
         (negb ((task_Stage task == RecoveryPlanned) || (task_Stage task == RecoveryBlocked)) &&
          recoveryLeaseValid s task now) then (r, Err ErrConflict)
      else
        let task := task <| task_LeaseID := leaseID |> in
        match begin_checks s now task leaseID with
        | Err e => (r, Err e)
        | Ok _ => answer (begun_task now task) (commit (begun_snapshot s now id task) r)
        end
  end.

Definition open_stage (stage : RecoveryStage) : bool := negb (finished stage) && (stage != RecoveryPlanned).
Definition recoveryTransition (from to : RecoveryStage) : bool :=
  if to == RecoveryBlocked then open_stage from
  else if from == to then open_stage from
  else match from, to with
       | RecoveryFencing, RecoveryInspecting | RecoveryInspecting, RecoverySelecting
       | RecoverySelecting, RecoveryStarting | RecoveryStarting, RecoveryRebuilding
       | RecoveryRebuilding, RecoveryVerifying => true
       | _, _ => false
       end.

Definition stale_evidence (attempt now : Time) (e : RecoveryEvidence) : bool :=
  Before (ev_ObservedAt e) attempt || After (ev_ObservedAt e) now || (5 * Minute <? Sub now (ev_ObservedAt e)).

(** The selection [AdvanceRecovery] makes when the primary is to be started. *)
Definition select_primary (now : Time) (task current : RecoveryTask) : result store_error RecoveryTask :=
  _ ← reject (existsb (stale_evidence (task_AttemptStartedAt current) now) (task_Evidence task)) ErrValidation;
  match Select EvidenceDigest (task_Members current) (task_Evidence task) (task_Proofs task) with
  | Ok selected =>
      if selected == task_PrimaryID task
      then Ok (current <| task_PrimaryID := selected |> <| task_Evidence := task_Evidence task |>
                       <| task_Proofs := task_Proofs task |>)
      else Err ErrValidation
  | Err _ => Err ErrValidation
  end.
Definition advanced_task (now : Time) (event : RecoveryEvent) (task : RecoveryTask) : RecoveryTask :=
  let message := Bounded (event_Message event) 2048 in
  task <| task_Stage := event_Stage event |> <| task_Message := message |> <| task_UpdatedAt := now |>
    <| task_MetadataRevision ::= λ n, u64 (n + 1) |>
    <| task_Events ::= λ l, l ++ [mkRecoveryEvent now (event_Stage event) (event_InstanceID event) message] |>.
Definition advanced_cluster (task : RecoveryTask) (event : RecoveryEvent) (s : snapshot) : snapshot :=
  let cluster := default zero_DatabaseCluster (sn_Clusters s !! task_ClusterID task) in
  match cluster_Recovery cluster with
  | None => s
  | Some recovery =>
      let recovery := recovery <| rstate_CurrentPrimaryID := task_PrimaryID task |> in
      let recovery := if event_Stage event == RecoveryBlocked then blocked_recovery recovery else recovery in
      s <| sn_Clusters ::= <[task_ClusterID task := cluster <| cluster_Recovery := Some recovery |>]> |>
  end.

Definition AdvanceRecovery (ctx_done : bool) (task : RecoveryTask) (event : RecoveryEvent) (r : Repository)
  : Repository * result store_error RecoveryTask :=
  let s := repo_snapshot r in
  let now := repo_now r in
  if ctx_done then (r, Err ErrContext)
  else match sn_RecoveryTasks s !! task_ResourceID task with
  | None => (r, Err ErrNotFound)
  | Some current =>
      let checked :=
        _ ← require ((task_MetadataRevision current == task_MetadataRevision task) &&
                     recoveryTransition (task_Stage current) (event_Stage event) &&
                     (task_LeaseID current == task_LeaseID task) && recoveryLeaseValid s current now) ErrConflict;
        _ ← require (recoveryInventoryValid s current) ErrConflict;
        if event_Stage event == RecoveryStarting then select_primary now task current else Ok current in
      match checked with
      | Err e => (r, Err e)
      | Ok current =>
          let current := advanced_task now event current in
          answer current (commit (advanced_cluster current event (put_task current s)) r)
      end
  end.

(** *** The topology a recovery is committed with *)

Definition caught_up (task : RecoveryTask) (instance : DatabaseInstance) : bool :=
  let role := if task_Engine task == EnginePostgreSQL then RoleStandby else RoleReplica in
  let replication := inst_Replication instance in
  (inst_Role instance == role) && (repl_IOThread replication == ThreadRunning) &&
  (repl_SQLThread replication == ThreadRunning) && (repl_LagSeconds replication == Some 0).
Definition same_identity (member instance : DatabaseInstance) : bool :=
  (inst_EngineIdentity member == inst_EngineIdentity instance) && (inst_NodeID member == inst_NodeID instance) &&
  (inst_IPAddress member == inst_IPAddress instance) && (inst_Port member =? inst_Port instance).

(** One instance of the topology; the state holds the instances seen and the primary. *)
Definition verify_instance (task : RecoveryTask) (st : gset ResourceID * option DatabaseInstance)
    (instance : DatabaseInstance) : result store_error (gset ResourceID * option DatabaseInstance) :=
  let '(seen, primary) := st in
  let id := inst_ResourceID instance in
  let registered := filter (λ m, inst_ResourceID m = id) (task_Members task) in
  _ ← reject (bool_decide (id ∈ seen) || (health_State (inst_Health instance) != HealthHealthy)) ErrValidation;
  _ ← reject ((inst_ClusterID instance != task_ClusterID task) || (inst_Engine instance != task_Engine task)) ErrValidation;
  _ ← require (forallb (λ m, same_identity m instance) registered) ErrValidation;
  _ ← reject (bool_decide (registered = [])) ErrValidation;
  if id == task_PrimaryID task then
    _ ← require (inst_Role instance == RolePrimary) ErrValidation;
    Ok ({[id]} ∪ seen, Some instance)
  else
    _ ← require (caught_up task instance) ErrValidation;
    Ok ({[id]} ∪ seen, primary).

Definition verify_probe (task : RecoveryTask) (now : Time) (seen probed : gset ResourceID) (probe : ProbeStatus)
  : result store_error (gset ResourceID) :=
  let id := probe_InstanceID probe in
  _ ← reject (bool_decide (id ∉ seen) || bool_decide (id ∈ probed) || (probe_Outcome probe != ProbeOutcomeReachable) ||
              (health_State (probe_Health probe) != HealthHealthy) ||
              Before (probe_DiscoveryObservedAt probe) (task_UpdatedAt task) ||
              After (probe_DiscoveryObservedAt probe) now) ErrValidation;
  Ok ({[id]} ∪ probed).
Definition verify_link (task : RecoveryTask) (seen targets : gset ResourceID) (link : ReplicationLink)
  : result store_error (gset ResourceID) :=
  let id := link_TargetInstanceID link in
  _ ← reject ((link_ClusterID link != task_ClusterID task) || (link_SourceInstanceID link != task_PrimaryID task) ||
              (id == task_PrimaryID task) || bool_decide (id ∉ seen) || bool_decide (id ∈ targets) ||
              negb (link_Healthy link) || (link_LagSeconds link != Some 0)) ErrValidation;
  Ok ({[id]} ∪ targets).

Definition verifyRecoveryTopology (task : RecoveryTask) (topology : TopologySnapshot) (now : Time) : result store_error unit :=
  let members := length (task_Members task) in
  _ ← require (topo_ClusterID topology == task_ClusterID task) ErrValidation;
  _ ← require (Nat.eqb (length (topo_Instances topology)) members &&
               (Z.of_nat (length (topo_Links topology)) =? Z.of_nat members - 1)) ErrValidation;
  _ ← require (health_State (topo_Health topology) == HealthHealthy) ErrValidation;
  _ ← reject (Before (topo_ObservedAt topology) (task_UpdatedAt task) || After (topo_ObservedAt topology) now ||
              (30 * Second <? Sub now (topo_ObservedAt topology))) ErrValidation;
  instances ← for_each (verify_instance task) (∅, None) (topo_Instances topology);
  let seen := instances.1 in
  match instances.2 with
  | None => Err ErrValidation
  | Some primary =>
      _ ← reject (inst_ResourceID primary == "") ErrValidation;
      probed ← for_each (verify_probe task now seen) ∅ (topo_Probes topology);
      _ ← require (Nat.eqb (size probed) (size seen)) ErrValidation;
      match InstanceKey (inst_Engine primary) (inst_EngineIdentity primary) with
      | None => Err ErrValidation
      | Some key =>
          _ ← for_each (verify_link task seen) ∅ (topo_Links topology);
          require (forallb (λ i, (inst_ResourceID i == task_PrimaryID task) ||
                                 (InstanceKey (inst_Engine i) (repl_SourceIdentity (inst_Replication i)) == Some key))
                     (topo_Instances topology)) ErrValidation
      end
  end.

Definition commit_instance (now : Time) (st : gmap ResourceID DatabaseInstance * list DatabaseInstance)
    (instance : DatabaseInstance) : gmap ResourceID DatabaseInstance * list DatabaseInstance :=
  let revision := inst_MetadataRevision (default zero_DatabaseInstance (st.1 !! inst_ResourceID instance)) in
  let instance := instance <| inst_DesiredRole := inst_Role instance |> <| inst_Maintenance := true |>
    <| inst_MetadataRevision := u64 (revision + 1) |> <| inst_UpdatedAt := now |> in
  (<[inst_ResourceID instance := instance]> st.1, st.2 ++ [instance]).

(** The HA endpoints of the cluster are handed to the recovered primary. *)
Definition commit_endpoint (now : Time) (task : RecoveryTask)
    (st : gmap ResourceID HAEndpoint * gmap ResourceID (gmap ResourceID Endpoint)) (p : ResourceID * HAEndpoint)
  : result store_error (gmap ResourceID HAEndpoint * gmap ResourceID (gmap ResourceID Endpoint)) :=
  let '(id, endpoint) := p in
  if ha_ClusterID endpoint != task_ClusterID task then Ok st
  else match st.2 !! task_ClusterID task ≫= λ m, m !! ha_EndpointID endpoint with
  | None => Err ErrValidation
  | Some registered =>
      if ep_ClusterID registered != task_ClusterID task then Err ErrValidation
      else
        let endpoint := endpoint <| ha_OwnerID := task_PrimaryID task |> <| ha_Healthy := false |>
          <| ha_MetadataRevision ::= λ n, u64 (n + 1) |> <| ha_UpdatedAt := now |> in
        let registered := registered <| ep_InstanceID := task_PrimaryID task |>
          <| ep_MetadataRevision ::= λ n, u64 (n + 1) |> <| ep_UpdatedAt := now |> in
        Ok (<[id := endpoint]> st.1,
            <[task_ClusterID task := <[ha_EndpointID endpoint := registered]> (default ∅ (st.2 !! task_ClusterID task))]> st.2)
  end.

Definition committed_recovery (task : RecoveryTask) : RecoveryState :=
  mkRecoveryState 0 (task_ResourceID task) (task_PrimaryID task) "running" "running" false true "committed" "unplanned".
Definition committed_task (now : Time) (topology : TopologySnapshot) (task : RecoveryTask) : RecoveryTask :=
  staged now RecoveryCommitted
    "Recovery Commit persisted; business entry remains protected until activation verification"
    (task <| task_CommittedAt := now |> <| task_VerifiedAt := topo_ObservedAt topology |>).
Definition committed_snapshot (s : snapshot) (now : Time) (task : RecoveryTask) (topology : TopologySnapshot)
  : result store_error snapshot :=
  let '(instances, members) := foldl (commit_instance now) (sn_Instances s, []) (topo_Instances topology) in
  let topology := topology <| topo_Instances := members |> in
  let cluster := default zero_DatabaseCluster (sn_Clusters s !! task_ClusterID task) in
  endpoints ← for_each (commit_endpoint now task) (sn_HAEndpoints s, sn_Endpoints s) (map_to_list (sn_HAEndpoints s));
  Ok (s <| sn_Instances := instances |>
        <| sn_ReplicationLinks ::= <[task_ClusterID task := topo_Links topology]> |>
        <| sn_TopologySnapshots ::= <[task_ClusterID task := topology]> |>
        <| sn_ObservationWatermarks ::= <[task_ClusterID task := now]> |>
        <| sn_Clusters ::= <[task_ClusterID task :=
             cluster <| cluster_MetadataRevision ::= λ n, u64 (n + 1) |> <| cluster_UpdatedAt := now |>
               <| cluster_Health := topo_Health topology |> <| cluster_Recovery := Some (committed_recovery task) |>]> |>
        <| sn_HAEndpoints := endpoints.1 |> <| sn_Endpoints := endpoints.2 |>
        <| sn_RecoveryTasks ::= <[task_ResourceID task := committed_task now topology task]> |>).

Definition CommitRecovery (ctx_done : bool) (task : RecoveryTask) (topology : TopologySnapshot) (r : Repository)
  : Repository * result store_error RecoveryTask :=
  let s := repo_snapshot r in
  let now := repo_now r in
  if ctx_done then (r, Err ErrContext)
  else match sn_RecoveryTasks s !! task_ResourceID task with
  | None => (r, Err ErrConflict)
  | Some current =>
      let checked :=
        _ ← require ((task_MetadataRevision current == task_MetadataRevision task) &&
                     (task_Stage current == RecoveryVerifying) && recoveryLeaseValid s current now &&
                     recoveryInventoryValid s current) ErrConflict;
        _ ← verifyRecoveryTopology current topology now;
        committed_snapshot s now current topology in
      match checked with
      | Err e => (r, Err e)
      | Ok next => answer (committed_task now topology current) (commit next r)
      end
  end.

Definition completed_task (now : Time) (task : RecoveryTask) : RecoveryTask :=
  staged now RecoverySucceeded
    "all members, replication, writer and business entry verified; recovery protections released"
    (task <| task_CompletedAt := now |>).
Definition completed_snapshot (s : snapshot) (now : Time) (task : RecoveryTask) (recovery : RecoveryState) : snapshot :=
  let cluster := default zero_DatabaseCluster (sn_Clusters s !! task_ClusterID task) in
  s <| sn_Clusters ::= <[task_ClusterID task :=
         cluster <| cluster_RecoveryFreeze := false |> <| cluster_MetadataRevision ::= λ n, u64 (n + 1) |>
           <| cluster_UpdatedAt := now |>
           <| cluster_Recovery := Some (recovery <| rstate_LastRecoveryStatus := "succeeded" |>
                                                 <| rstate_RecoveredAt := now |>) |>]> |>
    <| sn_Instances ::= maintain_members (task_ClusterID task) false now |>
    <| sn_TopologySnapshots ::= alter (λ t, t <| topo_Instances ::= fmap (λ i, i <| inst_Maintenance := false |>) |>)
         (task_ClusterID task) |>
    <| sn_RecoveryTasks ::= <[task_ResourceID task := completed_task now task]> |>.

Definition CompleteRecovery (ctx_done : bool) (task : RecoveryTask) (r : Repository)
  : Repository * result store_error RecoveryTask :=
  let s := repo_snapshot r in
  let now := repo_now r in
  if ctx_done then (r, Err ErrContext)
  else match sn_RecoveryTasks s !! task_ResourceID task with
  | None => (r, Err ErrConflict)
  | Some current =>
      let checked :=
        _ ← require ((task_MetadataRevision current == task_MetadataRevision task) &&
                     (task_Stage current == RecoveryCommitted) && negb (IsZero (task_CommittedAt current)) &&
                     recoveryLeaseValid s current now && recoveryInventoryValid s current) ErrConflict;
        _ ← reject (IsZero (task_VerifiedAt current)) ErrConflict;
        _ ← verifyRecoveryTopology (current <| task_UpdatedAt := task_VerifiedAt current |>)
              (default zero_TopologySnapshot (sn_TopologySnapshots s !! task_ClusterID current)) now;
        match cluster_Recovery (default zero_DatabaseCluster (sn_Clusters s !! task_ClusterID current)) with
        | None => Err ErrPanic
        | Some recovery => Ok recovery
        end in
      match checked with
      | Err e => (r, Err e)
      | Ok recovery => answer (completed_task now current) (commit (completed_snapshot s now current recovery) r)
      end
  end.
End disaster.

(** ** Invariants of the recovery tasks *)

Section recovery_theory.
Variables (EvidenceDigest : RecoveryEvidence → string)
  (plan_digest : ResourceID → ResourceID → uint64 → list DatabaseInstance → string)
  (Bounded : string → Z → string).

(** A started attempt that is not blocked: the cluster belongs to it. *)
Definition active_stage (stage : RecoveryStage) : bool := open_stage stage && (stage != RecoveryBlocked).
(** The stages after a primary was selected. *)
Definition past_selection (stage : RecoveryStage) : bool :=
  match stage with
  | RecoveryStarting | RecoveryRebuilding | RecoveryVerifying | RecoveryCommitted | RecoverySucceeded => true
  | _ => false
  end.
Definition past_commit (stage : RecoveryStage) : bool :=
  match stage with RecoveryCommitted | RecoverySucceeded => true | _ => false end.

(** The stored evidence, all of this attempt, selects the stored primary. *)
Definition selected (t : RecoveryTask) : Prop :=
  Select EvidenceDigest (task_Members t) (task_Evidence t) (task_Proofs t) = Ok (task_PrimaryID t) ∧
  ∀ e, e ∈ task_Evidence t → task_AttemptStartedAt t ≤ ev_ObservedAt e.
(** A complete healthy topology led by the primary was seen at the commit. *)
Definition verified (t : RecoveryTask) : Prop :=
  ∃ topology updatedAt,
    verifyRecoveryTopology (t <| task_UpdatedAt := updatedAt |>) topology (task_CommittedAt t) = Ok tt.
Definition task_good (t : RecoveryTask) : Prop :=
  (past_selection (task_Stage t) = true → selected t) ∧ (past_commit (task_Stage t) = true → verified t).

(** The cluster is frozen by the recovery of task [id]. *)
Definition frozen_by (s : snapshot) (clusterID id : ResourceID) : Prop :=
  ∃ c rec, sn_Clusters s !! clusterID = Some c ∧ cluster_RecoveryFreeze c = true ∧ cluster_Recovery c = Some rec ∧
    rstate_TaskID rec = id ∧ rstate_LastRecoveryStatus rec ≠ "succeeded".

Record recovery_ok (s : snapshot) : Prop := mk_recovery_ok {
  rok_id : ∀ id t, sn_RecoveryTasks s !! id = Some t → task_ResourceID t = id;
  rok_one : ∀ i j a b, sn_RecoveryTasks s !! i = Some a → sn_RecoveryTasks s !! j = Some b →
    task_ClusterID a = task_ClusterID b → finished (task_Stage a) = false → finished (task_Stage b) = false → i = j;
  rok_good : ∀ id t, sn_RecoveryTasks s !! id = Some t → task_good t;
  rok_frozen : ∀ id t, sn_RecoveryTasks s !! id = Some t → active_stage (task_Stage t) = true →
    frozen_by s (task_ClusterID t) id
}.

(** One change of the tasks: by another component (which leaves the freeze of
    a recovery alone), of one unfinished task, or a new plan. *)
Inductive rec_change (s s' : snapshot) : Prop :=
| rc_other : sn_RecoveryTasks s' = sn_RecoveryTasks s →
    (∀ cid id, frozen_by s cid id → frozen_by s' cid id) → rec_change s s'
| rc_write id t t' : sn_RecoveryTasks s !! id = Some t → finished (task_Stage t) = false →
    (task_ResourceID t', task_ClusterID t') = (task_ResourceID t, task_ClusterID t) →
    task_good t' → (active_stage (task_Stage t') = true → frozen_by s' (task_ClusterID t) id) →
    sn_RecoveryTasks s' = <[id := t']> (sn_RecoveryTasks s) →
    (∀ cid, cid ≠ task_ClusterID t → sn_Clusters s' !! cid = sn_Clusters s !! cid) → rec_change s s'
| rc_create t : sn_RecoveryTasks s !! task_ResourceID t = None → task_Stage t = RecoveryPlanned →
    (∀ id u, sn_RecoveryTasks s !! id = Some u → task_ClusterID u = task_ClusterID t → finished (task_Stage u) = true) →
    sn_RecoveryTasks s' = <[task_ResourceID t := t]> (sn_RecoveryTasks s) → sn_Clusters s' = sn_Clusters s →
    rec_change s s'.

Lemma active_unfinished stage : active_stage stage = true → finished stage = false.
Proof. unfold active_stage, open_stage. intros H. repeat bsimpl_step. done. Qed.
Lemma frozen_same s s' cid id : sn_Clusters s' !! cid = sn_Clusters s !! cid → frozen_by s cid id → frozen_by s' cid id.
Proof. unfold frozen_by. by intros ->. Qed.

Lemma rec_change_ok s s' : recovery_ok s → rec_change s s' → recovery_ok s'.
Proof.
  intros [H1 H2 H3 H4] Hc. destruct Hc as [He Hf|id t t' Ht Hfin Hid Hg Ha He Hcl|t Hn Hst Hno He Hcl].
  - split; rewrite He; auto.
  - injection Hid as Hid Hcid. split; rewrite He.
    + intros i u. rewrite lookup_insert_Some. intros [[<- <-]|[_ Hu]]; [rewrite Hid|]; by apply H1.
    + intros i j a b. rewrite !lookup_insert_Some. intros [[<- <-]|[Hi Ha']] [[<- <-]|[Hj Hb]] Hc Hfa Hfb; try done.
      * rewrite Hcid in Hc. by eapply (H2 id j).
      * rewrite Hcid in Hc. by eapply (H2 i id).
      * by eapply H2.
    + intros i u. rewrite lookup_insert_Some. intros [[<- <-]|[_ Hu]]; [done|by eapply H3].
    + intros i u. rewrite lookup_insert_Some. intros [[<- <-]|[Hi Hu]] Hact; [rewrite Hcid; auto|].
      eapply frozen_same; [apply Hcl|by apply H4]. intros Heq. apply Hi.
      by apply (H2 id i t u Ht Hu (eq_sym Heq) Hfin), active_unfinished.
  - split; rewrite He.
    + intros i u. rewrite lookup_insert_Some. intros [[<- <-]|[_ Hu]]; [done|by apply H1].
    + assert (∀ j b, sn_RecoveryTasks s !! j = Some b → task_ClusterID b = task_ClusterID t →
        finished (task_Stage b) = false → False) as Hx by (intros j b Hb Hc Hf; rewrite (Hno j b Hb Hc) in Hf; done).
      intros i j a b. rewrite !lookup_insert_Some. intros [[<- <-]|[Hi Ha']] [[<- <-]|[Hj Hb]] Hc Hfa Hfb; try done.
      * by destruct (Hx j b Hb (eq_sym Hc)).
      * by destruct (Hx i a Ha' Hc).
      * by eapply H2.
    + intros i u. rewrite lookup_insert_Some. intros [[<- <-]|[_ Hu]]; [|by eapply H3].
      unfold task_good. by rewrite Hst.
    + intros i u. rewrite lookup_insert_Some. intros [[<- <-]|[Hi Hu]] Hact; [by rewrite Hst in Hact|].
      eapply frozen_same; [by rewrite Hcl|by apply H4].
Qed.
Lemma rec_changes_ok s s' : recovery_ok s → rtc rec_change s s' → recovery_ok s'.
Proof. intros Hok Hr. induction Hr; eauto using rec_change_ok. Qed.

(** A committed value changes the tasks as the value does. *)
Lemma commit_rec {A} (a : A) value r r' res :
  answer a (commit value r) = (r', res) → rtc rec_change (repo_snapshot r) value →
  rtc rec_change (repo_snapshot r) (repo_snapshot r').
Proof.
  destruct (commit value r) as [r1 res1] eqn:Hc. intros [= <- _] Hv. cbn.
  apply commit_spec in Hc as [_ Hc].
  destruct res1; [|destruct Hc as [Hc|Hc]]; destruct Hc as [-> _]; try done;
    (etrans; [exact Hv|]); apply rtc_once, rc_other; done.
Qed.

Lemma commit_one {A} (a : A) value r r' res :
  answer a (commit value r) = (r', res) → rec_change (repo_snapshot r) value →
  rtc rec_change (repo_snapshot r) (repo_snapshot r').
Proof. intros Hc Hv. eapply commit_rec; [exact Hc|by apply rtc_once]. Qed.

Lemma good_early t : past_selection (task_Stage t) = false → past_commit (task_Stage t) = false → task_good t.
Proof. unfold task_good. by intros -> ->. Qed.

Lemma begin_change ctx id revision leaseID r r' res : recovery_ok (repo_snapshot r) →
  BeginRecovery ctx id revision leaseID r = (r', res) → rtc rec_change (repo_snapshot r) (repo_snapshot r').
Proof.
  intros Hok. unfold BeginRecovery. destruct ctx; [by intros [= <- _]|].
  destruct (sn_RecoveryTasks _ !! id) as [t|] eqn:Ht; [|by intros [= <- _]].
  destruct (_ || _) eqn:Hg; [by intros [= <- _]|]. repeat bsimpl_step.
  destruct (begin_checks _ _ _ _); [|by intros [= <- _]]. intros Hc. eapply commit_one; [exact Hc|].
  eapply (rc_write _ _ id t (begun_task (repo_now r) (t <| task_LeaseID := leaseID |>)));
    [exact Ht|done|reflexivity|apply good_early; reflexivity| |reflexivity|].
  - intros _. eexists _, _. cbn. rewrite lookup_insert_eq. done.
  - intros cid Hcid. cbn. by rewrite lookup_insert_ne.
Qed.

Lemma start_failure_change ctx id revision message r r' res :
  RecordRecoveryStartFailure Bounded ctx id revision message r = (r', res) →
  rtc rec_change (repo_snapshot r) (repo_snapshot r').
Proof.
  unfold RecordRecoveryStartFailure. destruct ctx; [by intros [= <- _]|].
  destruct (sn_RecoveryTasks _ !! id) as [t|] eqn:Ht; [|by intros [= <- _]].
  destruct (_ || _) eqn:Hg; [by intros [= <- _]|]. repeat bsimpl_step. intros Hc.
  eapply (commit_one tt); [unfold answer; rewrite Hc; reflexivity|].
  eapply (rc_write _ _ id t (staged (repo_now r) RecoveryBlocked (Bounded message 2048) t));
    [exact Ht| |reflexivity|apply good_early; reflexivity|intros Hx; discriminate Hx|reflexivity|done].
  match goal with H : _ ∨ _ |- _ => destruct H as [H|H] end; repeat bsimpl_step;
    match goal with H : task_Stage t = _ |- _ => by rewrite H end.
Qed.

(** The stage of a task that may advance to [to]. *)
Lemma transition_facts from to : recoveryTransition from to = true →
  finished from = false ∧ finished to = false ∧ (active_stage to = true → active_stage from = true) ∧
  (past_selection to = true → to = RecoveryStarting ∨ past_selection from = true) ∧
  (past_commit to = true → past_commit from = true ∧ past_selection from = true).
Proof.
  unfold recoveryTransition.
  destruct (bool_decide_reflect (to = RecoveryBlocked)) as [->|_].
  { unfold open_stage. intros [Hf%negb_true_iff _]%andb_true_iff. split_and!; try done; intros H; discriminate H. }
  destruct (bool_decide_reflect (from = to)) as [->|_].
  { unfold open_stage. intros [Hf%negb_true_iff _]%andb_true_iff. split_and!; try done; [auto|]. by destruct to. }
  destruct from, to; try (intros H; discriminate H); intros _; (split; [reflexivity|]); (split; [reflexivity|]);
    (split; [reflexivity|]); (split; [auto|intros H; discriminate H]).
Qed.

Lemma good_same t t' : 
  (task_Members t', task_Evidence t', task_Proofs t', task_PrimaryID t', task_AttemptStartedAt t') =
  (task_Members t, task_Evidence t, task_Proofs t, task_PrimaryID t, task_AttemptStartedAt t) →
  selected t → selected t'.
Proof. unfold selected. by intros [= -> -> -> -> ->]. Qed.
Lemma verified_same t t' :
  (task_Members t', task_ClusterID t', task_Engine t', task_PrimaryID t', task_CommittedAt t') =
  (task_Members t, task_ClusterID t, task_Engine t, task_PrimaryID t, task_CommittedAt t) →
  verified t → verified t'.
Proof.
  intros [= H1 H2 H3 H4 H5] (topology & u & Hv). exists topology, u. rewrite H5, <- Hv.
  unfold verifyRecoveryTopology, verify_instance, verify_probe, verify_link, caught_up. cbn.
  by rewrite H1, H2, H3, H4.
Qed.

Lemma select_primary_spec now task current t : select_primary EvidenceDigest now task current = Ok t →
  selected t ∧ (task_ResourceID t, task_ClusterID t, task_Stage t) =
    (task_ResourceID current, task_ClusterID current, task_Stage current).
Proof.
  unfold select_primary. intros [Hst H]%reject_bind.
  destruct (Select _ _ _ _) as [p|] eqn:Hs; [|done].
  destruct (bool_decide_reflect (p = task_PrimaryID task)) as [->|]; [|done]. injection H as <-. split; [|done].
  split; [exact Hs|]. intros e He. cbn in *. apply not_true_iff_false in Hst.
  destruct (Z.le_gt_cases (task_AttemptStartedAt current) (ev_ObservedAt e)) as [?|Hlt]; [done|].
  exfalso. apply Hst, existsb_exists. exists e. split; [by apply list_elem_of_In|].
  unfold stale_evidence, Before. by rewrite (proj2 (Z.ltb_lt _ _) Hlt).
Qed.

Lemma advance_frozen t event s cid id : frozen_by s cid id → event_Stage event ≠ RecoveryBlocked →
  frozen_by (advanced_cluster t event s) cid id.
Proof.
  intros (c & rec & Hc & Hf & Hr & Hid & Hst) Hne. unfold advanced_cluster.
  destruct (decide (task_ClusterID t = cid)) as [<-|Hcid].
  - rewrite Hc. change (default zero_DatabaseCluster (Some c)) with c. rewrite Hr, bool_decide_false by done.
    eexists _, _. cbn. rewrite lookup_insert_eq. split_and!; [reflexivity|exact Hf|reflexivity|exact Hid|exact Hst].
  - case_match; [|by exists c, rec]. exists c, rec. cbn. by rewrite lookup_insert_ne.
Qed.
Lemma advance_other t event s cid : cid ≠ task_ClusterID t →
  sn_Clusters (advanced_cluster t event s) !! cid = sn_Clusters s !! cid.
Proof. intros Hne. unfold advanced_cluster. case_match; [|done]. cbn. by rewrite lookup_insert_ne. Qed.
Lemma advance_tasks t event s : sn_RecoveryTasks (advanced_cluster t event s) = sn_RecoveryTasks s.
Proof. unfold advanced_cluster. by case_match. Qed.

Lemma advance_change ctx task event r r' res : recovery_ok (repo_snapshot r) →
  AdvanceRecovery EvidenceDigest Bounded ctx task event r = (r', res) →
  rtc rec_change (repo_snapshot r) (repo_snapshot r').
Proof.
  intros Hok. unfold AdvanceRecovery. destruct ctx; [by intros [= <- _]|].
  destruct (sn_RecoveryTasks _ !! task_ResourceID task) as [t|] eqn:Ht; [|by intros [= <- _]].
  match goal with |- context [match ?c with Ok _ => _ | Err _ => _ end] => destruct c as [t1|] eqn:Hch end;
    [|by intros [= <- _]].
  apply require_bind in Hch as [Hg Hch]. apply require_bind in Hch as [_ Hch]. repeat bsimpl_step.
  match goal with H : recoveryTransition _ _ = true |- _ => apply transition_facts in H as (Ht1 & Ht2 & Ht3 & Ht4 & Ht5) end.
  intros Hc. eapply commit_one; [exact Hc|]. clear Hc.
  pose proof (rok_id _ Hok _ _ Ht) as Hid. destruct (rok_good _ Hok _ _ Ht) as [Hsel Hver].
  assert ((task_ResourceID t1, task_ClusterID t1) = (task_ResourceID t, task_ClusterID t) ∧
    (past_selection (event_Stage event) = true → selected t1) ∧
    (past_commit (event_Stage event) = true → verified t1)) as (Hids & Hs1 & Hv1).
  { destruct (bool_decide_reflect (event_Stage event = RecoveryStarting)) as [He|He].
    - apply select_primary_spec in Hch as [Hs [= Hr Hcl _]]. rewrite He. split; [congruence|]. split; [done|intros Hx; discriminate Hx].
    - injection Hch as <-. split; [done|]. split; [intros [?|?]%Ht4; auto; congruence|intros [? _]%Ht5; auto]. }
  injection Hids as Hr1 Hc1.
  eapply (rc_write _ _ (task_ResourceID task) t (advanced_task Bounded (repo_now r) event t1)); [exact Ht|exact Ht1|cbn; congruence| | | |].
  - split; intros Hx; [apply (good_same t1), Hs1|apply (verified_same t1), Hv1]; done.
  - intros Hact. apply advance_frozen; [|intros He; unfold active_stage in Hact; cbn in Hact; rewrite He in Hact; done].
    eapply frozen_same; [reflexivity|]. rewrite <- Hid. rewrite Hid. apply (rok_frozen _ Hok _ _ Ht). by apply Ht3.
  - rewrite advance_tasks. cbn. by rewrite Hr1, Hid.
  - intros cid Hcid. rewrite advance_other; [done|]. cbn. congruence.
Qed.

Lemma commit_change ctx task topology r r' res : recovery_ok (repo_snapshot r) →
  CommitRecovery ctx task topology r = (r', res) → rtc rec_change (repo_snapshot r) (repo_snapshot r').
Proof.
  intros Hok. unfold CommitRecovery. destruct ctx; [by intros [= <- _]|].
  destruct (sn_RecoveryTasks _ !! task_ResourceID task) as [t|] eqn:Ht; [|by intros [= <- _]].
  match goal with |- context [match ?c with Ok _ => _ | Err _ => _ end] => destruct c as [next|] eqn:Hch end;
    [|by intros [= <- _]].
  apply require_bind in Hch as [Hg Hch]. apply result_bind_ok in Hch as ([] & Hv & Hch). repeat bsimpl_step.
  match goal with H : task_Stage t = _ |- _ => rename H into Hst end.
  intros Hc. eapply commit_one; [exact Hc|]. clear Hc.
  pose proof (rok_id _ Hok _ _ Ht) as Hid. destruct (rok_good _ Hok _ _ Ht) as [Hsel _].
  destruct (rok_frozen _ Hok _ _ Ht) as (c & rec & Hcl & Hf & _); [by rewrite Hst|].
  unfold committed_snapshot in Hch. destruct (foldl _ _ _) as [insts ms].
  apply result_bind_ok in Hch as (es & _ & [= <-]).
  eapply (rc_write _ _ (task_ResourceID task) t (committed_task (repo_now r) topology t)); [exact Ht|by rewrite Hst|reflexivity| | | |].
  - split; intros _; [apply (good_same t); [reflexivity|]; apply Hsel; by rewrite Hst|].
    exists topology, (task_UpdatedAt t). exact Hv.
  - intros _. eexists _, (committed_recovery t). cbn. rewrite Hcl, lookup_insert_eq.
    split_and!; [reflexivity|exact Hf|reflexivity|exact Hid|done].
  - cbn. by rewrite Hid.
  - intros cid Hcid. cbn. by rewrite lookup_insert_ne.
Qed.

Lemma complete_change ctx task r r' res : recovery_ok (repo_snapshot r) →
  CompleteRecovery ctx task r = (r', res) → rtc rec_change (repo_snapshot r) (repo_snapshot r').
Proof.
  intros Hok. unfold CompleteRecovery. destruct ctx; [by intros [= <- _]|].
  destruct (sn_RecoveryTasks _ !! task_ResourceID task) as [t|] eqn:Ht; [|by intros [= <- _]].
  match goal with |- context [match ?c with Ok _ => _ | Err _ => _ end] => destruct c as [rec|] eqn:Hch end;
    [|by intros [= <- _]].
  apply require_bind in Hch as [Hg _]. repeat bsimpl_step.
  match goal with H : task_Stage t = _ |- _ => rename H into Hst end.
  intros Hc. eapply commit_one; [exact Hc|]. clear Hc.
  pose proof (rok_id _ Hok _ _ Ht) as Hid. destruct (rok_good _ Hok _ _ Ht) as [Hsel Hver]. rewrite Hst in Hsel, Hver.
  eapply (rc_write _ _ (task_ResourceID task) t (completed_task (repo_now r) t)); [exact Ht|by rewrite Hst|reflexivity| |intros Hx; discriminate Hx| |].
  - split; intros _; [apply (good_same t)|apply (verified_same t)]; auto.
  - cbn. by rewrite Hid.
  - intros cid Hcid. cbn. by rewrite lookup_insert_ne.
Qed.

Lemma block_step_change s now next b id t : sn_RecoveryTasks next !! id = Some t →
  rtc rec_change next (block_step s now (next, b) (id, t)).1 ∧
  ∀ j, j ≠ id → sn_RecoveryTasks (block_step s now (next, b) (id, t)).1 !! j = sn_RecoveryTasks next !! j.
Proof.
  intros Ht. unfold block_step. destruct (bool_decide_reflect (task_Stage t ∈ [RecoveryPlanned; RecoveryBlocked; RecoverySucceeded; RecoverySuperseded])) as [|Hst];
    [by split|].
  destruct (recoveryLeaseValid _ _ _); [by split|]. destruct (_ <? _); [by split|].
  set (t' := staged now RecoveryBlocked _ t).
  assert (finished (task_Stage t) = false) as Hf by (unfold finished; destruct (task_Stage t); try done; exfalso; apply Hst; set_solver).
  assert (task_good t') as Hg by by apply good_early.
  cbn [sn_Clusters]. set (c := default zero_DatabaseCluster _).
  assert (∀ s', sn_RecoveryTasks s' = <[id := t']> (sn_RecoveryTasks next) →
    (∀ cid, cid ≠ task_ClusterID t → sn_Clusters s' !! cid = sn_Clusters next !! cid) →
    rtc rec_change next s' ∧ ∀ j, j ≠ id → sn_RecoveryTasks s' !! j = sn_RecoveryTasks next !! j) as Hgo.
  { intros s' He Hc. split; [|intros j Hj; by rewrite He, lookup_insert_ne].
    apply rtc_once. eapply (rc_write _ _ id t t'); [exact Ht|exact Hf|reflexivity|exact Hg|intros Hx; discriminate Hx|exact He|exact Hc]. }
  destruct (cluster_Recovery c) as [rec|]; [|by apply Hgo].
  destruct (bool_decide (rstate_TaskID rec = id)); apply Hgo; try done.
  intros cid Hcid. cbn. by rewrite lookup_insert_ne.
Qed.

Lemma block_change ctx r r' res :
  BlockAbandonedRecoveries ctx r = (r', res) → rtc rec_change (repo_snapshot r) (repo_snapshot r').
Proof.
  unfold BlockAbandonedRecoveries. destruct ctx; [by intros [= <- _]|]. set (s := repo_snapshot r).
  assert (∀ l next b, NoDup l.*1 → (∀ id t, (id, t) ∈ l → sn_RecoveryTasks next !! id = Some t) →
    rtc rec_change s next → rtc rec_change s (foldl (block_step s (repo_now r)) (next, b) l).1) as Hloop.
  { induction l as [|[id t] l IH]; intros next b Hnd Hl Hr; [done|]. cbn [foldl].
    apply NoDup_cons in Hnd as [Hid Hnd]. assert (sn_RecoveryTasks next !! id = Some t) as Ht by (apply Hl; set_solver).
    destruct (block_step_change s (repo_now r) next b id t Ht) as [H1 H2].
    destruct (block_step s (repo_now r) (next, b) (id, t)) as [next' b']. apply IH; [done| |by etrans].
    intros j u Hj. rewrite H2; [apply Hl; set_solver|]. intros ->. apply Hid, list_elem_of_fmap. by exists (id, u). }
  specialize (Hloop (map_to_list (sn_RecoveryTasks s)) s false (NoDup_fst_map_to_list _)
    (λ id t, proj1 (elem_of_map_to_list _ id t)) (rtc_refl _ _)).
  destruct (foldl _ _ _) as [next []]; [|by intros [= <- _]]. intros Hc.
  eapply (commit_rec tt); [unfold answer; rewrite Hc; reflexivity|exact Hloop].
Qed.

Lemma plan_scan_spec s cluster cid now tasks acc l : plan_scan s cluster cid now tasks acc = inr l →
  ∃ l', l = acc ++ l' ∧ l' `sublist_of` tasks ∧
    (∀ t, t ∈ l' → task_ClusterID t = cid ∧ finished (task_Stage t) = false) ∧
    ∀ t, t ∈ tasks → task_ClusterID t = cid → finished (task_Stage t) = false → t ∈ l'.
Proof.
  revert acc. induction tasks as [|t tasks IH]; intros acc; cbn.
  { intros [= <-]. exists []. rewrite app_nil_r. split_and!; try done; by intros t ?%elem_of_nil. }
  destruct (_ || _) eqn:Hskip.
  - intros (l' & -> & Hs & H1 & H2)%IH. exists l'. split_and!; try done; [by apply sublist_cons|].
    intros u [->|Hu]%elem_of_cons Hc Hf; [|by apply H2]. apply orb_true_iff in Hskip as [Hx|Hx]; [|congruence].
    by rewrite bool_decide_true in Hx.
  - destruct (_ && _); [|done]. intros (l' & -> & Hs & H1 & H2)%IH. exists (t :: l').
    apply orb_false_iff in Hskip as [Hx%negb_false_iff%bool_decide_eq_true_1 Hf].
    split_and!; [by rewrite <- app_assoc|by apply sublist_skip| |]; intros u; rewrite !elem_of_cons.
    + intros [->|Hu]; [done|by apply H1].
    + intros [->|Hu] ? ?; [by left|right; by apply H2].
Qed.

(** The loop that supersedes the obsolete plans. *)
Lemma supersede_changes now fresh l : ∀ s, NoDup (task_ResourceID <$> l) →
  (∀ t, t ∈ l → sn_RecoveryTasks s !! task_ResourceID t = Some t ∧ finished (task_Stage t) = false) →
  let s' := foldl (λ s old, put_task (supersede now fresh old) s) s l in
  rtc rec_change s s' ∧ sn_Clusters s' = sn_Clusters s ∧
  (∀ id, sn_RecoveryTasks s !! id = None → sn_RecoveryTasks s' !! id = None) ∧
  ∀ id u, sn_RecoveryTasks s' !! id = Some u →
    finished (task_Stage u) = true ∨ sn_RecoveryTasks s !! id = Some u ∧ id ∉ task_ResourceID <$> l.
Proof.
  induction l as [|t l IH]; intros s Hnd Hl; cbn; [split_and!; try done; intros id u Hu; right; split; [done|by intros ?%elem_of_nil]|].
  apply NoDup_cons in Hnd as [Hid Hnd]. destruct (Hl t) as [Ht Hf]; [set_solver|].
  destruct (IH (put_task (supersede now fresh t) s) Hnd) as (H1 & H2 & H0 & H3).
  { intros u Hu. destruct (Hl u) as [Hu1 Hu2]; [set_solver|]. split; [|done]. cbn. rewrite lookup_insert_ne; [done|].
    intros Heq. apply Hid. rewrite Heq. apply list_elem_of_fmap. by exists u. }
  split_and!.
  - eapply rtc_l; [|exact H1].
    eapply (rc_write _ _ (task_ResourceID t) t (supersede now fresh t)); [exact Ht|exact Hf|reflexivity| |intros Hx; discriminate Hx|reflexivity|done].
    by apply good_early.
  - exact H2.
  - intros id Hn. apply H0. cbn. rewrite lookup_insert_ne; [done|]. intros Heq. congruence.
  - intros id u Hu. destruct (H3 id u Hu) as [?|[Hu' Hn]]; [by left|]. cbn in Hu'.
    apply lookup_insert_Some in Hu' as [[<- <-]|[Hne Hu']]; [by left|]. right. split; [done|]. set_solver.
Qed.

Lemma plan_change ctx fresh cid actor r r' res : recovery_ok (repo_snapshot r) →
  sn_RecoveryTasks (repo_snapshot r) !! fresh = None →
  PlanRecovery plan_digest ctx fresh cid actor r = (r', res) → rtc rec_change (repo_snapshot r) (repo_snapshot r').
Proof.
  intros Hok Hfresh. unfold PlanRecovery. destruct ctx; [by intros [= <- _]|]. destruct (bool_decide _); [by intros [= <- _]|].
  destruct (sn_Clusters _ !! cid) as [c|]; [|by intros [= <- _]]. destruct (negb _); [by intros [= <- _]|].
  destruct (plan_scan _ _ _ _ _ _) as [t|l] eqn:Hscan; [by intros [= <- _]|].
  destruct (power_active _ _); [by intros [= <- _]|]. destruct (Nat.ltb _ _); [by intros [= <- _]|].
  set (t := planned_task _ _ _ _ _ _ _ _). intros Hc. eapply commit_rec; [exact Hc|]. clear Hc.
  apply plan_scan_spec in Hscan as (l' & -> & Hsub & Hl1 & Hl2). cbn [app].
  assert (∀ t, t ∈ (map_to_list (sn_RecoveryTasks (repo_snapshot r))).*2 ↔
    sn_RecoveryTasks (repo_snapshot r) !! task_ResourceID t = Some t) as Hin.
  { intros u. rewrite list_elem_of_fmap. split.
    - intros ([i v] & -> & Hv%elem_of_map_to_list). cbn. by rewrite (rok_id _ Hok _ _ Hv).
    - intros Hu. exists (task_ResourceID u, u). by rewrite elem_of_map_to_list. }
  assert (NoDup (task_ResourceID <$> l')) as Hnd.
  { eapply sublist_NoDup; [|by apply fmap_sublist]. rewrite <- list_fmap_compose.
    rewrite (list_fmap_ext _ fst); [apply NoDup_fst_map_to_list|].
    intros i [k v] Hx%list_elem_of_lookup_2%elem_of_map_to_list. by apply (rok_id _ Hok). }
  destruct (supersede_changes (repo_now r) fresh l' (repo_snapshot r) Hnd) as (H1 & H2 & H0 & H3).
  { intros u Hu. split; [|by apply Hl1]. apply Hin. by eapply elem_of_sublist. }
  eapply rtc_r; [exact H1|]. apply (rc_create _ _ t); [by apply H0|reflexivity| |reflexivity|reflexivity].
  intros id u Hu Hc. destruct (H3 id u Hu) as [?|[Hu' Hn]]; [done|]. apply not_false_iff_true. intros Hf. apply Hn.
  pose proof (rok_id _ Hok _ _ Hu') as Hid. rewrite <- Hid. apply list_elem_of_fmap. exists u. split; [done|].
  apply Hl2; [|exact Hc|exact Hf]. apply Hin. by rewrite Hid.
Qed.

(** The steps of the store, seen from the recovery tasks.  Other components do
    not write tasks and leave the freeze of a running recovery alone
    ([SetRecoveryFreeze] refuses to lift it); retiring a cluster whose executor
    was abandoned ends the protection and is not a step. *)
Inductive rec_step (r r' : Repository) : Prop :=
| rstep_plan ctx fresh cid actor res : sn_RecoveryTasks (repo_snapshot r) !! fresh = None →
    PlanRecovery plan_digest ctx fresh cid actor r = (r', res) → rec_step r r'
| rstep_failure ctx id revision message res :
    RecordRecoveryStartFailure Bounded ctx id revision message r = (r', res) → rec_step r r'
| rstep_begin ctx id revision leaseID res : BeginRecovery ctx id revision leaseID r = (r', res) → rec_step r r'
| rstep_advance ctx task event res :
    AdvanceRecovery EvidenceDigest Bounded ctx task event r = (r', res) → rec_step r r'
| rstep_commit ctx task topology res : CommitRecovery ctx task topology r = (r', res) → rec_step r r'
| rstep_complete ctx task res : CompleteRecovery ctx task r = (r', res) → rec_step r r'
| rstep_block ctx res : BlockAbandonedRecoveries ctx r = (r', res) → rec_step r r'
| rstep_other value res : sn_RecoveryTasks value = sn_RecoveryTasks (repo_snapshot r) →
    (∀ cid id, frozen_by (repo_snapshot r) cid id → frozen_by value cid id) →
    commit value r = (r', res) → rec_step r r'
| rstep_environment now outcomes : r' = r <| repo_now := now |> <| repo_commits := outcomes |> → rec_step r r'.

Lemma rec_step_ok r r' : recovery_ok (repo_snapshot r) → rec_step r r' → recovery_ok (repo_snapshot r').
Proof.
  intros Hok Hs. eapply rec_changes_ok; [exact Hok|].
  destruct Hs as [ctx fresh cid actor res Hf H|? ? ? ? ? H|? ? ? ? ? H|? ? ? ? H|? ? ? ? H|? ? ? H|? ? H|value res Ht Hf H|now cs ->].
  - by eapply plan_change.
  - by eapply start_failure_change.
  - by eapply begin_change.
  - by eapply advance_change.
  - by eapply commit_change.
  - by eapply complete_change.
  - by eapply block_change.
  - eapply (commit_one tt value r r' res); [unfold answer; rewrite H; by destruct res as [[]|]|]. by apply rc_other.
  - done.
Qed.
Lemma rec_steps_ok r r' : recovery_ok (repo_snapshot r) → rtc rec_step r r' → recovery_ok (repo_snapshot r').
Proof. intros Hok Hr. induction Hr; eauto using rec_step_ok. Qed.
Lemma empty_recovery_ok s : sn_RecoveryTasks s = ∅ → recovery_ok s.
Proof. intros He. split; rewrite He; intros *; by rewrite lookup_empty. Qed.

(** C18: Nobody but the proven primary may act as the writer of a destroyed
    cluster: whenever, in a run from a store without recovery tasks,
    [RecoveryAuthorization] permits an instance anything, the cluster is frozen
    by that very task under a live operation lock; and if the instance is the
    task's primary, the evidence stored in the task, all collected in the
    current attempt, selects exactly this instance, and after the commit a
    complete healthy topology led by it had been verified. *)
Theorem recovery_permit_proven r0 r clusterID instanceID now task expiresAt :
  sn_RecoveryTasks (repo_snapshot r0) = ∅ → rtc rec_step r0 r →
  RecoveryAuthorization clusterID instanceID now r = Some (task, expiresAt) →
  now < expiresAt ∧ frozen_by (repo_snapshot r) clusterID (task_ResourceID task) ∧
  (task_PrimaryID task = instanceID → instanceID ≠ "" →
     Select EvidenceDigest (task_Members task) (task_Evidence task) (task_Proofs task) = Ok instanceID ∧
     (∀ e, e ∈ task_Evidence task → task_AttemptStartedAt task ≤ ev_ObservedAt e) ∧
     (task_Stage task = RecoveryCommitted → verified task)) ∧
  (task_PrimaryID task ≠ instanceID → past_commit (task_Stage task) = false ∧
     ∃ member, member ∈ task_Members task ∧ inst_ResourceID member = instanceID).
Proof.
  intros H0 Hr Ha. pose proof (rec_steps_ok r0 r (empty_recovery_ok _ H0) Hr) as Hok.
  unfold RecoveryAuthorization in Ha. destruct (sn_Clusters _ !! clusterID) as [c|] eqn:Hc; [|done].
  destruct (DisasterRecoveryActive c) eqn:Hd; [|done]. cbn [negb] in Ha. unfold DisasterRecoveryActive in Hd.
  destruct (cluster_Recovery c) as [rec|] eqn:Hrec; [|by rewrite andb_false_r in Hd]. cbn [mbind option_bind] in Ha.
  destruct (sn_RecoveryTasks _ !! rstate_TaskID rec) as [t|] eqn:Ht; [|done].
  destruct (_ || _) eqn:Hv in Ha; [done|]. repeat bsimpl_step.
  pose proof (rok_id _ Hok _ _ Ht) as Hid. destruct (rok_good _ Hok _ _ Ht) as [Hsel Hver].
  match goal with H : String.eqb _ _ = false |- _ => apply String.eqb_neq in H end.
  match goal with H : recoveryLeaseValid _ _ _ = true |- _ => rename H into Hl end. unfold recoveryLeaseValid in Hl.
  destruct (sn_OperationLocks _ !! task_LeaseID t) as [lock|]; [|done]. cbn [fmap option_fmap option_map default] in Ha.
  assert (now < lock_ExpiresAt lock) as Hexp by (unfold After in Hl; repeat bsimpl_step; done).
  assert (frozen_by (repo_snapshot r) clusterID (task_ResourceID t)) as Hfr by (exists c, rec; split_and!; congruence).
  destruct (bool_decide_reflect (task_PrimaryID t = instanceID)) as [Hp|Hp]; cbn [negb] in Ha.
  - assert (Some (t, lock_ExpiresAt lock) = Some (task, expiresAt) ∧ past_selection (task_Stage t) = true ∧
      (task_Stage t = RecoveryCommitted → past_commit (task_Stage t) = true)) as ([= <- <-] & Hst & Hcm)
      by (destruct (task_Stage t); done).
    destruct (Hsel Hst) as [Hs Hev]. split_and!; try done. intros _ _. split_and!; [congruence|done|auto].
  - destruct (_ || _) eqn:Hg in Ha; [|done]. destruct (existsb _ _) eqn:Hm in Ha; [|done].
    injection Ha as <- <-. split_and!; try done. intros _. split.
    + destruct (task_Stage t); try done; by rewrite ?andb_false_r in Hg.
    + apply existsb_exists in Hm as (m & Hin & Hm). exists m. apply list_elem_of_In in Hin.
      by apply bool_decide_eq_true_1 in Hm.
Qed.

End recovery_theory.

(** ** Concrete instances *)

Definition wd_task : ResourceID := "dddddddd-dddd-4ddd-8ddd-ddddddddddd1".
Definition wd_lock : ResourceID := "eeeeeeee-eeee-4eee-8eee-eeeeeeeeeee1".
Definition wd_member (id : ResourceID) : DatabaseInstance := (ws_member id) <| inst_ClusterID := w_cluster |>.
Definition wd_digest (id cluster : ResourceID) (generation : uint64) (members : list DatabaseInstance) : string := id.
Definition wd_bounded (message : string) (limit : Z) : string := message.
Definition wd_r0 : Repository := mkRepository
  (emptySnapshot
     <| sn_Clusters := {[ w_cluster := zero_DatabaseCluster <| cluster_ResourceID := w_cluster |>
                                         <| cluster_Engine := EngineMySQL |> ]} |>
     <| sn_Instances := {[ ws_a := wd_member ws_a; ws_b := wd_member ws_b ]} |>
     <| sn_OperationLocks := {[ wd_lock := mkLock wd_lock w_cluster wd_task (w_now + Minute) w_now w_now ]} |>
     <| sn_CoordinationLeases := {[ w_fresh := mkLeaseRecord
          (mkLease w_fresh w_cluster w_endpoint w_endpoint ws_a "" (w_now + Minute) true) w_now w_now ]} |>)
  0 w_now [].
Definition wd_evidence : list RecoveryEvidence := (λ e, e <| ev_ObservedAt := w_now |>) <$> ws_evidences.
Definition wd_r1 : Repository := (PlanRecovery wd_digest false wd_task w_cluster "operator" wd_r0).1.
Definition wd_r2 : Repository := (BeginRecovery false wd_task 1 wd_lock wd_r1).1.
Definition wd_presented (revision : uint64) (primary : ResourceID) (evidence : list RecoveryEvidence) : RecoveryTask :=
  zero_RecoveryTask <| task_ResourceID := wd_task |> <| task_MetadataRevision := revision |>
    <| task_LeaseID := wd_lock |> <| task_PrimaryID := primary |> <| task_Evidence := evidence |>.
Definition wd_advance (task : RecoveryTask) (stage : RecoveryStage) (r : Repository) : Repository :=
  (AdvanceRecovery ws_digest wd_bounded false task (mkRecoveryEvent 0 stage "" "advance") r).1.
Definition wd_r3 : Repository := wd_advance (wd_presented 2 "" []) RecoveryInspecting wd_r2.
Definition wd_r4 : Repository := wd_advance (wd_presented 3 "" []) RecoverySelecting wd_r3.
Definition wd_r5 : Repository := wd_advance (wd_presented 4 ws_b wd_evidence) RecoveryStarting wd_r4.

Lemma wd_begin : rtc (rec_step ws_digest wd_digest wd_bounded) wd_r0 wd_r1.
Proof.
  apply rtc_once. exact (rstep_plan ws_digest wd_digest wd_bounded wd_r0 wd_r1 false wd_task w_cluster "operator" _
    eq_refl (surjective_pairing _)).
Qed.
Lemma wd_run : rtc (rec_step ws_digest wd_digest wd_bounded) wd_r0 wd_r5.
Proof.
  etrans; [exact wd_begin|].
  eapply rtc_l; [exact (rstep_begin ws_digest wd_digest wd_bounded wd_r1 wd_r2 false wd_task 1 wd_lock _ (surjective_pairing _))|].
  eapply rtc_l; [exact (rstep_advance ws_digest wd_digest wd_bounded wd_r2 wd_r3 false _ _ _ (surjective_pairing _))|].
  eapply rtc_l; [exact (rstep_advance ws_digest wd_digest wd_bounded wd_r3 wd_r4 false _ _ _ (surjective_pairing _))|].
  apply rtc_once. exact (rstep_advance ws_digest wd_digest wd_bounded wd_r4 wd_r5 false _ _ _ (surjective_pairing _)).
Qed.

Definition wd_permit : RecoveryTask * Time :=
  default (zero_RecoveryTask, 0) (RecoveryAuthorization w_cluster ws_b w_now wd_r5).
Lemma recovery_permit_proven_witness :
  RecoveryAuthorization w_cluster ws_b w_now wd_r5 = Some (wd_permit.1, wd_permit.2) ∧ w_now < wd_permit.2 ∧
  Select ws_digest (task_Members wd_permit.1) (task_Evidence wd_permit.1) (task_Proofs wd_permit.1) = Ok ws_b.
Proof.
  assert (RecoveryAuthorization w_cluster ws_b w_now wd_r5 = Some (wd_permit.1, wd_permit.2)) as H by by vm_compute.
  destruct (recovery_permit_proven ws_digest wd_digest wd_bounded wd_r0 wd_r5 w_cluster ws_b w_now wd_permit.1 wd_permit.2
    eq_refl wd_run H) as (Hlt & _ & Hp & _).
  assert (task_PrimaryID wd_permit.1 = ws_b) as Hb by (vm_compute; reflexivity).
  assert (ws_b ≠ "") as Hne by (intros Hx; discriminate Hx).
  exact (conj H (conj Hlt (proj1 (Hp Hb Hne)))).
Defined.

Definition wd_begun : RecoveryTask :=
  match (BeginRecovery false wd_task 1 wd_lock wd_r1).2 with Ok t => t | Err _ => zero_RecoveryTask end.
