(* ===== verification/AgentReconcile.v ===== *)
(** * internal/api/agent_reconcile.go: what an agent is told

    The controller's answer to an agent, with internal/coordination/
    self_isolation.go that decides it.  The decoded request, the quorum check,
    the leader's identity and the two readings of the leadership epoch are
    arguments of the handler.  The store reads between [BeginDecision] and its
    release are modelled at one store state.  Reasons are kept: the agent
    rejects a response without one. *)
From S2P Require Import Prelude GoStd Model Endpoint Lease Locks Gtid Repository Inventory Operations.
From S2P Require Import Selection Power AgentProtocol FailureWindow HAEndpoints Bootstrap Disaster.

Definition zero_Lease : Lease := mkLease "" "" "" "" "" "" 0 false.

(** ** coordination/self_isolation.go *)

Inductive SelfIsolationAction : Type :=
| SelfIsolationKeepVIP
| SelfIsolationHoldTransitionSource
| SelfIsolationBootstrapPrimary
| SelfIsolationReleaseAndReadOnly.
#[export] Instance SelfIsolationAction_eq_dec : EqDecision SelfIsolationAction.
Proof. solve_decision. Defined.

Record SelfIsolationEvidence : Type := mkEvidence {
  se_LocalInstanceID : ResourceID; se_CurrentPrimaryID : ResourceID; se_CanonicalOwnerID : ResourceID;
  se_EndpointOwnerID : ResourceID; se_Lease : Lease; se_TransitionTarget : bool;
  se_TransitionSource : bool; se_StableTarget : bool; se_BootstrapTarget : bool; se_Now : Time
}.

Definition isolate (reason : string) : SelfIsolationAction * string := (SelfIsolationReleaseAndReadOnly, reason).
Definition EvaluateSelfIsolation (evidence : SelfIsolationEvidence) : SelfIsolationAction * string :=
  let lease := se_Lease evidence in
  let local := se_LocalInstanceID evidence in
  let unowned := (se_CanonicalOwnerID evidence != local) || (se_EndpointOwnerID evidence != local) in
  if negb (ValidResourceID local) then isolate "local instance identity is invalid"
  else if negb (lease_Active lease) || negb (ValidResourceID (lease_ResourceID lease)) ||
          negb (After (lease_ExpiresAt lease) (se_Now evidence))
  then isolate "no active majority lease authorizes local VIP ownership"
  else if se_TransitionSource evidence then
    if (lease_OperationID lease == lease_HAEndpointID lease) || (lease_PreviousOwnerID lease != local)
    then isolate "active transition lease does not authorize the local source"
    else (SelfIsolationHoldTransitionSource, "active controlled transition lease authorizes the source")
  else if lease_OwnerID lease != local
  then isolate "no active majority lease authorizes local VIP ownership"
  else if se_TransitionTarget evidence
  then (SelfIsolationKeepVIP, "active controlled transition lease authorizes the target")
  else if se_BootstrapTarget evidence then
    if se_CurrentPrimaryID evidence != ""
    then isolate "reboot bootstrap is blocked while a current primary exists"
    else if unowned then isolate "canonical VIP ownership metadata does not select the rebooted primary"
    else (SelfIsolationBootstrapPrimary, "majority lease authorizes the verified rebooted primary")
  else if unowned then isolate "canonical VIP ownership metadata does not select the local primary"
  else if se_StableTarget evidence && ValidResourceID (lease_HAEndpointID lease) &&
          (lease_OperationID lease == lease_HAEndpointID lease)
  then (SelfIsolationKeepVIP, "active stable majority lease and canonical endpoint ownership are valid")
  else if se_CurrentPrimaryID evidence != local then isolate "local instance is not the current primary"
  else (SelfIsolationKeepVIP, "active majority lease and current-primary ownership are valid").

(** ** What the handler reads *)

(** The loops carry the zero value of what they look for until they find it. *)
Fixpoint primary_scan (primaryID : ResourceID) (instances : list DatabaseInstance) : ResourceID :=
  match instances with
  | [] => primaryID
  | instance :: instances =>
      if inst_Role instance != RolePrimary then primary_scan primaryID instances
      else if primaryID != "" then "" else primary_scan (inst_ResourceID instance) instances
  end.
Definition topologyPrimaryID (snapshot : TopologySnapshot) : ResourceID := primary_scan "" (topo_Instances snapshot).

Fixpoint vip_scan (r : Repository) (selected : HAEndpoint * Endpoint) (resources : list HAEndpoint)
  : option (HAEndpoint * Endpoint) :=
  match resources with
  | [] => if ha_ResourceID selected.1 != "" then Some selected else None
  | resource :: resources =>
      match EndpointByID (ha_EndpointID resource) r with
      | None => vip_scan r selected resources
      | Some candidate =>
          if (ha_Kind resource != EndpointVIP) || (ep_Kind candidate != EndpointVIP) || negb (ep_Active candidate)
          then vip_scan r selected resources
          else if ha_ResourceID selected.1 != "" then None
          else vip_scan r (resource, candidate) resources
      end
  end.
Definition activeVIP (clusterID : ResourceID) (r : Repository) : option (HAEndpoint * Endpoint) :=
  vip_scan r (zero_HAEndpoint, zero_Endpoint) (HAEndpoints clusterID r).

Definition ownership_lease (clusterID endpointID : ResourceID) (now : Time) (record : LeaseRecord) : bool :=
  let lease := lr_Lease record in
  (lease_ClusterID lease == clusterID) && (lease_HAEndpointID lease == endpointID) &&
  lease_Active lease && After (lease_ExpiresAt lease) now.
Fixpoint lease_scan (clusterID endpointID : ResourceID) (now : Time) (selected : LeaseRecord)
    (records : list LeaseRecord) : option LeaseRecord :=
  match records with
  | [] => if lr_id selected != "" then Some selected else None
  | record :: records =>
      if negb (ownership_lease clusterID endpointID now record)
      then lease_scan clusterID endpointID now selected records
      else if lr_id selected != "" then None
      else lease_scan clusterID endpointID now record records
  end.
Definition activeOwnershipLease (clusterID endpointID : ResourceID) (now : Time) (r : Repository) : option LeaseRecord :=
  lease_scan clusterID endpointID now (mkLeaseRecord zero_Lease 0 0) (Repository.CoordinationLeases r).

(** The operation is running its mutation. *)
Definition mutating (operation : OperationRecord) : bool :=
  (rec_Status operation == OperationRunning) &&
  ((rec_Stage operation == StageExecute) || (rec_Stage operation == StageVerify)).

(** An automatic failover that promoted its target but was not verified. *)
Definition promoted_unverified (instanceID : ResourceID) (lease : Lease) (operation : OperationRecord) : bool :=
  let plan := rec_Plan operation in
  (rec_TargetID operation == instanceID) && (rec_Status operation == OperationIndeterminate) &&
  (rec_Stage operation == StageVerify) && (rec_FailureClass operation == "promoted_unverified") &&
  (opn_Kind (rec_Operation operation) == OperationFailover) &&
  (opn_RequestedBy (rec_Operation operation) == "clusterguard-automatic-recovery") &&
  (plan_OperationID plan == rec_ResourceID operation) &&
  (plan_ClusterID plan == opn_ClusterID (rec_Operation operation)) &&
  (plan_TargetID plan == rec_TargetID operation) && ValidResourceID (plan_SourceID plan) &&
  (lease_PreviousOwnerID lease == plan_SourceID plan) && (lease_OwnerID lease == rec_TargetID operation).

Definition transitionAuthorizes (instanceID : ResourceID) (lease : Lease) (r : Repository) : bool :=
  match OperationByID (lease_OperationID lease) r with
  | Some operation =>
      ((rec_TargetID operation == instanceID) && mutating operation) ||
      promoted_unverified instanceID lease operation
  | None => false
  end ||
  (negb ((lease_OperationID lease != lease_HAEndpointID lease) || (lease_OwnerID lease != instanceID)) &&
   existsb (λ candidate, (rec_TargetID candidate == instanceID) && mutating candidate &&
      ((opn_Kind (rec_Operation candidate) == OperationSwitchover) ||
       (opn_Kind (rec_Operation candidate) == OperationFailover)))
     (OperationsOf (lease_ClusterID lease) r)).

Definition transitionSourceAuthorizes (instanceID : ResourceID) (lease : Lease) (r : Repository) : bool :=
  if (lease_OperationID lease == lease_HAEndpointID lease) || (lease_PreviousOwnerID lease != instanceID) then false
  else match OperationByID (lease_OperationID lease) r with
  | None => false
  | Some operation =>
      (rec_TargetID operation == lease_OwnerID lease) && mutating operation &&
      (opn_Kind (rec_Operation operation) == OperationSwitchover) &&
      (negb (ValidResourceID (plan_SourceID (rec_Plan operation))) ||
       (plan_SourceID (rec_Plan operation) == instanceID))
  end.

Definition validBootstrapLeaseRecord (record : LeaseRecord) (now : Time) : bool :=
  if IsZero (lr_UpdatedAt record) || After (lr_UpdatedAt record) now then false
  else
    let lifetime := Sub (lease_ExpiresAt (lr_Lease record)) (lr_UpdatedAt record) in
    (0 <? lifetime) && (lifetime <=? Minute).

(** ** The decision *)

Definition bootstrap_target (instanceID : ResourceID) (now : Time) (snapshot : TopologySnapshot) : bool :=
  match RebootBootstrapCandidate snapshot instanceID now (15 * Second) with
  | Ok candidate => inst_ResourceID candidate == instanceID
  | Err _ => false
  end.

Definition reconcile_evidence (clusterID instanceID : ResourceID) (now : Time) (r : Repository)
  : SelfIsolationEvidence :=
  let snapshot := TopologyOf clusterID r in
  let primaryID := match snapshot with Some topology => topologyPrimaryID topology | None => "" end in
  match activeVIP clusterID r with
  | None => mkEvidence instanceID primaryID "" "" zero_Lease false false false false now
  | Some (resource, vipEndpoint) =>
      let canonical := ha_OwnerID resource in
      let owner := ep_InstanceID vipEndpoint in
      match activeOwnershipLease clusterID (ha_ResourceID resource) now r with
      | None => mkEvidence instanceID primaryID canonical owner zero_Lease false false false false now
      | Some leaseRecord =>
          let lease := lr_Lease leaseRecord in
          let target := transitionAuthorizes instanceID lease r in
          let valid := validBootstrapLeaseRecord leaseRecord now in
          mkEvidence instanceID primaryID canonical owner lease target
            (transitionSourceAuthorizes instanceID lease r)
            ((lease_OperationID lease == lease_HAEndpointID lease) && (lease_OwnerID lease == instanceID) && valid)
            match snapshot with
            | Some topology =>
                negb target && (primaryID == "") && (canonical == instanceID) && (owner == instanceID) && valid &&
                bootstrap_target instanceID now topology
            | None => false
            end now
      end
  end.

Definition min_time (t u : Time) : Time := if After t u then u else t.

(** The answer when no disaster recovery is active. *)
Definition normal_response (evidence : SelfIsolationEvidence) (response : ReconcileResponse) : ReconcileResponse :=
  let now := se_Now evidence in
  let '(action, reason) := EvaluateSelfIsolation evidence in
  let response := response <| rr_Reason := reason |> in
  match action with
  | SelfIsolationReleaseAndReadOnly => response <| rr_Action := ReconcileSelfIsolate |>
  | _ =>
      let chosen :=
        match action with
        | SelfIsolationHoldTransitionSource => ReconcileTransitionSource
        | SelfIsolationBootstrapPrimary => ReconcileBootstrapPrimary
        | _ => if se_TransitionTarget evidence then ReconcileTransitionTarget else ReconcileKeepVIP
        end in
      response <| rr_Action := chosen |> <| rr_LeaseID := lease_ResourceID (se_Lease evidence) |>
        <| rr_ValidUntil := min_time (lease_ExpiresAt (se_Lease evidence)) (Add now (10 * Second)) |>
  end.

(** The permit of a member of a cluster under disaster recovery. *)
Definition recovery_activation (evidence : SelfIsolationEvidence) (task : RecoveryTask) : bool :=
  let lease := se_Lease evidence in
  (task_Stage task == RecoveryCommitted) && (se_CanonicalOwnerID evidence == task_PrimaryID task) &&
  (se_EndpointOwnerID evidence == task_PrimaryID task) && (lease_OwnerID lease == task_PrimaryID task) &&
  (lease_OperationID lease == lease_HAEndpointID lease) && lease_Active lease &&
  After (lease_ExpiresAt lease) (se_Now evidence).
Definition answer_with (action : ReconcileAction) (reason : string) (response : ReconcileResponse) : ReconcileResponse :=
  response <| rr_Action := action |> <| rr_Reason := reason |>.
Definition limit_until (t : Time) (response : ReconcileResponse) : ReconcileResponse :=
  if Before t (rr_ValidUntil response) then response <| rr_ValidUntil := t |> else response.
Definition recovery_permit (evidence : SelfIsolationEvidence) (task : RecoveryTask) (expiresAt : Time)
    (response : ReconcileResponse) : ReconcileResponse :=
  let response := answer_with ReconcileRecoveryPrimary
    "recovery-only primary permit requires a verified local business-access guard; VIP remains prohibited"
    (response <| rr_RecoveryTaskID := task_ResourceID task |> <| rr_LeaseID := task_LeaseID task |>) in
  let response :=
    if task_PrimaryID task != se_LocalInstanceID evidence
    then answer_with ReconcileRecoveryReplica
      "recovery replica reconstruction requires a verified local offline-mode guard; VIP remains prohibited" response
    else response in
  let response :=
    if (task_Stage task == RecoveryFencing) || (task_Stage task == RecoveryInspecting)
    then answer_with ReconcileRecoveryPrepare
      "recovery preparation is isolated by offline mode and does not authorize a primary or VIP" response
    else response in
  let response := limit_until expiresAt response in
  if recovery_activation evidence task
  then limit_until (lease_ExpiresAt (se_Lease evidence)) (answer_with ReconcileRecoveryActivate
         "Recovery Commit and majority writer lease authorize guarded activation" response)
  else response.

Definition reconcile_response (payload : ReconcileRequest) (now : Time) (controllerID : ResourceID) (r : Repository)
  : ReconcileResponse :=
  let clusterID := rq_ClusterID payload in
  let instanceID := rq_InstanceID payload in
  let evidence := reconcile_evidence clusterID instanceID now r in
  let blank := mkReconcileResponse "" clusterID instanceID (ReconcileActionOther "") "" ""
                 (Add now (10 * Second)) controllerID "" in
  let response := normal_response evidence blank in
  match Cluster clusterID r with
  | Some cluster =>
      if DisasterRecoveryActive cluster then
        let response := response <| rr_Action := ReconcileSelfIsolate |> <| rr_LeaseID := "" |>
          <| rr_Reason := "disaster recovery freeze prohibits normal writer and VIP authorization" |>
          <| rr_ValidUntil := Add now (10 * Second) |> in
        match RecoveryAuthorization clusterID instanceID now r with
        | Some (task, expiresAt) => recovery_permit evidence task expiresAt response
        | None => response
        end
      else response
  | None => response
  end.

(** ** The handler *)

Inductive route_error : Type :=
| ErrRouteUnconfigured | ErrRouteUnauthorized | ErrRouteQuorum | ErrRouteLeader | ErrRouteSign | ErrRouteEpoch.

Section route.
Variables (mac_request : string → unsignedReconcileRequest → string)
  (mac_response : string → unsignedReconcileResponse → string).

(** [authority] is what the configured authority says: whether the controller
    leads with a quorum, who leads, and the leadership epoch (0 when unknown)
    before the decision and after it; [None] is an unconfigured authority. *)
Record Authority : Type := mkAuthority {
  au_Quorum : bool; au_Leader : option ResourceID; au_Epoch : uint64; au_EpochAfter : uint64
}.
Definition agentReconcileRoute (secret : string) (authority : option Authority) (payload : ReconcileRequest)
    (now : Time) (r : Repository) (authz : AgentAuthorizationTracker)
  : AgentAuthorizationTracker * result route_error ReconcileResponse :=
  match authority with
  | None => (authz, Err ErrRouteUnconfigured)
  | Some authority =>
      if secret == "" then (authz, Err ErrRouteUnconfigured)
      else match VerifyReconcileRequest mac_request payload secret now with
      | Err _ => (authz, Err ErrRouteUnauthorized)
      | Ok _ =>
          if negb (au_Quorum authority) then (authz, Err ErrRouteQuorum)
          else match au_Leader authority with
          | None => (authz, Err ErrRouteLeader)
          | Some controllerID =>
              match SignReconcileResponse mac_response (reconcile_response payload now controllerID r) secret with
              | Err _ => (authz, Err ErrRouteSign)
              | Ok response =>
                  if bool_decide (is_Some authz) && (0 <? au_Epoch authority) then
                    if au_EpochAfter authority != au_Epoch authority then (authz, Err ErrRouteEpoch)
                    else (RecordAuthorization response (au_Epoch authority) authz, Ok response)
                  else (authz, Ok response)
              end
          end
      end
  end.
End route.

(** ** At most one writer is authorized *)

(** The agent may own the VIP or become writable behind it. *)
Definition writer_action (action : ReconcileAction) : bool :=
  (action == ReconcileKeepVIP) || (action == ReconcileTransitionTarget) ||
  (action == ReconcileBootstrapPrimary) || (action == ReconcileRecoveryActivate).

(** A live lease of the store on the only active VIP of the cluster. *)
Definition writer_lease (clusterID : ResourceID) (now : Time) (r : Repository) (lease : Lease) : Prop :=
  (∃ vip endpoint, activeVIP clusterID r = Some (vip, endpoint) ∧ lease_HAEndpointID lease = ha_ResourceID vip) ∧
  (∃ record, record ∈ Repository.CoordinationLeases r ∧ lr_Lease record = lease) ∧
  lease_ClusterID lease = clusterID ∧ lease_Active lease = true ∧ now < lease_ExpiresAt lease.

Definition current_lease (clusterID : ResourceID) (now : Time) (r : Repository) : Lease :=
  match activeVIP clusterID r with
  | Some (resource, _) =>
      match activeOwnershipLease clusterID (ha_ResourceID resource) now r with
      | Some record => lr_Lease record
      | None => zero_Lease
      end
  | None => zero_Lease
  end.

Lemma evidence_lease clusterID instanceID now r :
  se_Lease (reconcile_evidence clusterID instanceID now r) = current_lease clusterID now r.
Proof. unfold reconcile_evidence, current_lease. by repeat case_match. Qed.
Lemma evidence_now clusterID instanceID now r : se_Now (reconcile_evidence clusterID instanceID now r) = now.
Proof. unfold reconcile_evidence. by repeat case_match. Qed.
Lemma evidence_local clusterID instanceID now r :
  se_LocalInstanceID (reconcile_evidence clusterID instanceID now r) = instanceID.
Proof. unfold reconcile_evidence. by repeat case_match. Qed.
Lemma evidence_source clusterID instanceID now r :
  se_TransitionSource (reconcile_evidence clusterID instanceID now r) = true →
  transitionSourceAuthorizes instanceID (current_lease clusterID now r) r = true.
Proof. unfold reconcile_evidence, current_lease. by repeat case_match. Qed.

Lemma lease_scan_some clusterID endpointID now selected records record :
  lease_scan clusterID endpointID now selected records = Some record →
  lr_id record ≠ "" ∧ (record = selected ∨ record ∈ records ∧ ownership_lease clusterID endpointID now record = true).
Proof.
  revert selected. induction records as [|x l IH]; intros selected; cbn.
  { destruct (bool_decide_reflect (lr_id selected = "")); cbn; [done|]. intros [= <-]. by split; [|left]. }
  destruct (ownership_lease _ _ _ x) eqn:Hx; cbn; [|intros H; apply IH in H; set_solver].
  destruct (_ != _); [done|]. intros H. apply IH in H as [Hid [->|[? ?]]]; (split; [done|]); right; set_solver.
Qed.

Lemma current_lease_live clusterID now r :
  now < lease_ExpiresAt (current_lease clusterID now r) → lease_Active (current_lease clusterID now r) = true →
  writer_lease clusterID now r (current_lease clusterID now r).
Proof.
  unfold current_lease. destruct (activeVIP clusterID r) as [[vip endpoint]|] eqn:Hv; [|done].
  destruct (activeOwnershipLease _ _ _ _) as [record|] eqn:Hl; [|done]. intros Hexp Hact.
  apply lease_scan_some in Hl as [Hid [->|[Hin Ho]]]; [done|].
  unfold ownership_lease in Ho. bsimpl. split_and!; eauto.
Qed.

Lemma isolation_sound evidence action reason :
  EvaluateSelfIsolation evidence = (action, reason) → action ≠ SelfIsolationReleaseAndReadOnly →
  lease_Active (se_Lease evidence) = true ∧ se_Now evidence < lease_ExpiresAt (se_Lease evidence) ∧
  ValidResourceID (lease_ResourceID (se_Lease evidence)) = true ∧
  ValidResourceID (se_LocalInstanceID evidence) = true ∧
  (action = SelfIsolationHoldTransitionSource → se_TransitionSource evidence = true) ∧
  (action ≠ SelfIsolationHoldTransitionSource → lease_OwnerID (se_Lease evidence) = se_LocalInstanceID evidence).
Proof.
  unfold EvaluateSelfIsolation, isolate. intros H Ha. repeat case_match; simplify_eq; bsimpl; split_and!; try done;
    unfold After in *; bsimpl; done.
Qed.

(** The permit ends with the lease, and within ten seconds. *)
Definition bounded_by (lease : Lease) (now : Time) (response : ReconcileResponse) : Prop :=
  rr_ValidUntil response ≤ lease_ExpiresAt lease ∧ rr_ValidUntil response ≤ now + 10 * Second.

Lemma min_time_le t u : min_time t u ≤ t ∧ min_time t u ≤ u.
Proof. unfold min_time, After. case_if; lia. Qed.

Lemma normal_response_sound evidence blank (response := normal_response evidence blank) :
  (rr_Action response = ReconcileSelfIsolate ∨
   writer_action (rr_Action response) = true ∧ rr_Action response ≠ ReconcileRecoveryActivate ∧
     lease_OwnerID (se_Lease evidence) = se_LocalInstanceID evidence ∨
   rr_Action response = ReconcileTransitionSource ∧ se_TransitionSource evidence = true) ∧
  (rr_Action response ≠ ReconcileSelfIsolate →
     lease_Active (se_Lease evidence) = true ∧ se_Now evidence < lease_ExpiresAt (se_Lease evidence) ∧
     bounded_by (se_Lease evidence) (se_Now evidence) response).
Proof.
  subst response. unfold normal_response. destruct (EvaluateSelfIsolation evidence) as [action reason] eqn:He.
  pose proof (isolation_sound _ _ _ He) as Hs.
  pose proof (min_time_le (lease_ExpiresAt (se_Lease evidence)) (Add (se_Now evidence) (10 * Second))) as [Hm1 Hm2].
  destruct action; cbn; unfold bounded_by; cbn.
  - destruct Hs as (? & ? & ? & ? & _ & Ho); [done|]. specialize (Ho ltac:(done)). split; [|done].
    right; left. by destruct (se_TransitionTarget evidence).
  - destruct Hs as (? & ? & ? & ? & Ho & _); [done|]. split; [|done]. right; right. split; [done|by apply Ho].
  - destruct Hs as (? & ? & ? & ? & _ & Ho); [done|]. specialize (Ho ltac:(done)). split; [|done]. by right; left.
  - split; [by left|done].
Qed.

Lemma limit_until_action t response : rr_Action (limit_until t response) = rr_Action response.
Proof. unfold limit_until. by case_match. Qed.
Lemma limit_until_le t response :
  rr_ValidUntil (limit_until t response) ≤ t ∧ rr_ValidUntil (limit_until t response) ≤ rr_ValidUntil response.
Proof. unfold limit_until, Before. case_if; lia. Qed.

Lemma permit_activates evidence task expiresAt response (answer := recovery_permit evidence task expiresAt response) :
  rr_ValidUntil response ≤ se_Now evidence + 10 * Second →
  (writer_action (rr_Action answer) = true → rr_Action answer = ReconcileRecoveryActivate) ∧
  rr_Action answer ≠ ReconcileTransitionSource ∧
  (rr_Action answer = ReconcileRecoveryActivate → recovery_activation evidence task = true ∧
     bounded_by (se_Lease evidence) (se_Now evidence) answer).
Proof.
  intros Hv. subst answer. unfold recovery_permit. cbv zeta.
  destruct (recovery_activation _ _).
  - rewrite limit_until_action. split_and!; [done..|]. intros _. split; [done|].
    match goal with |- bounded_by _ _ (limit_until ?t (answer_with ?a ?m (limit_until ?u ?x))) =>
      pose proof (limit_until_le t (answer_with a m (limit_until u x))) as [H1 H2];
      pose proof (limit_until_le u x) as [_ H3] end.
    split; [exact H1|]. etrans; [exact H2|]. etrans; [exact H3|].
    destruct (_ || _), (_ != _); exact Hv.
  - rewrite limit_until_action. destruct (_ || _), (_ != _); by split_and!.
Qed.

Lemma RecoveryAuthorization_committed clusterID instanceID now r task expiresAt :
  RecoveryAuthorization clusterID instanceID now r = Some (task, expiresAt) →
  task_Stage task = RecoveryCommitted → task_PrimaryID task = instanceID.
Proof.
  unfold RecoveryAuthorization. intros H Hs.
  destruct (sn_Clusters _ !! clusterID) as [cluster|]; [|done]. destruct (negb _) in H; [done|].
  destruct (cluster_Recovery cluster ≫= _) as [t|]; [|done]. destruct (negb _ || _) in H; [done|].
  destruct (bool_decide_reflect (task_PrimaryID t = instanceID)) as [Hi|Hi]; cbn [negb] in H.
  - destruct (task_Stage t); try done; by injection H as <- _.
  - destruct (_ || _) eqn:Hg in H; [|done]. destruct (existsb _ _) in H; [|done]. injection H as <- _.
    rewrite Hs in Hg. cbn in Hg. by rewrite !andb_false_r in Hg.
Qed.

Lemma reconcile_response_sound payload now controllerID r
    (response := reconcile_response payload now controllerID r) (lease := current_lease (rq_ClusterID payload) now r) :
  (writer_action (rr_Action response) = true →
     lease_OwnerID lease = rq_InstanceID payload ∧ lease_Active lease = true ∧ now < lease_ExpiresAt lease ∧
     bounded_by lease now response) ∧
  (rr_Action response = ReconcileTransitionSource →
     transitionSourceAuthorizes (rq_InstanceID payload) lease r = true ∧ lease_Active lease = true ∧
     now < lease_ExpiresAt lease ∧ bounded_by lease now response) ∧
  (∀ cluster, Cluster (rq_ClusterID payload) r = Some cluster → DisasterRecoveryActive cluster = true →
     rr_Action response ≠ ReconcileTransitionSource ∧
     (writer_action (rr_Action response) = true → rr_Action response = ReconcileRecoveryActivate ∧
        ∃ task expiresAt, RecoveryAuthorization (rq_ClusterID payload) (rq_InstanceID payload) now r = Some (task, expiresAt) ∧
          task_Stage task = RecoveryCommitted ∧ task_PrimaryID task = rq_InstanceID payload)).
Proof.
  subst response lease. unfold reconcile_response.
  set (evidence := reconcile_evidence _ _ now r). set (blank := mkReconcileResponse _ _ _ _ _ _ _ _ _).
  pose proof (normal_response_sound evidence blank) as Hn.
  pose proof (evidence_lease (rq_ClusterID payload) (rq_InstanceID payload) now r) as Hl.
  pose proof (evidence_now (rq_ClusterID payload) (rq_InstanceID payload) now r) as Ht.
  pose proof (evidence_local (rq_ClusterID payload) (rq_InstanceID payload) now r) as Hi.
  pose proof (evidence_source (rq_ClusterID payload) (rq_InstanceID payload) now r) as Hs.
  fold evidence in Hl, Ht, Hi, Hs. rewrite <- Hl in *. clearbody evidence.
  rewrite Ht, Hi in Hn. destruct Hn as [Hn Hlive]. set (normal := normal_response evidence blank) in *.
  set (live := lease_Active (se_Lease evidence) = true ∧ now < lease_ExpiresAt (se_Lease evidence) ∧
    bounded_by (se_Lease evidence) now normal) in Hlive.
  assert ((writer_action (rr_Action normal) = true → lease_OwnerID (se_Lease evidence) = rq_InstanceID payload ∧ live) ∧
    (rr_Action normal = ReconcileTransitionSource →
       transitionSourceAuthorizes (rq_InstanceID payload) (se_Lease evidence) r = true ∧ live)) as HN.
  { split; intros Hw; (assert (rr_Action normal ≠ ReconcileSelfIsolate) as Hni by (intros Hx; by rewrite Hx in Hw));
      destruct Hn as [?|[(Hx & _ & ?)|[Hx ?]]]; try done; rewrite Hw in Hx || rewrite Hx in Hw; try done; auto. }
  destruct (Cluster (rq_ClusterID payload) r) as [c|]; [destruct (DisasterRecoveryActive c) eqn:Hd|].
  - destruct (RecoveryAuthorization _ _ _ _) as [[task expiresAt]|] eqn:Ha; [|split_and!; try done].
    match goal with |- context [recovery_permit evidence task expiresAt ?b] =>
      pose proof (permit_activates evidence task expiresAt b) as Hp end.
    destruct Hp as (Hw & Hns & Hact); [rewrite Ht; reflexivity|].
    set (answer := recovery_permit _ _ _ _) in *. split_and!; [|done|].
    + intros Hwa. destruct (Hact (Hw Hwa)) as [Hr Hb]. rewrite Ht in Hb. unfold recovery_activation in Hr.
      unfold After in Hr. rewrite Ht in Hr. repeat bsimpl_step.
      pose proof (RecoveryAuthorization_committed _ _ _ _ _ _ Ha) as Hpi. split_and!; try done; try congruence.
      all: rewrite <- Hpi by done; done.
    + intros c' [= <-] _. split; [done|]. intros Hwa. split; [auto|]. exists task, expiresAt.
      destruct (Hact (Hw Hwa)) as [Hr _]. unfold recovery_activation in Hr. bsimpl. split_and!; try done.
      by eapply RecoveryAuthorization_committed.
  - destruct HN. split_and!; [done|done|congruence].
  - destruct HN. by split_and!.
Qed.

(** C27: At most one writer is authorized: whatever the store holds, a response
    that lets an instance own the VIP, take it over or become writable behind it
    (keep_vip, transition_target, bootstrap_primary, recovery_activate) rests on
    a live lease of the store for the cluster's only active VIP that names this
    instance as owner, and ends with that lease and within ten seconds; so of
    two such responses for one cluster at one instant both are for the same
    instance.  A source may hold only under a live transition lease of a running
    switchover to the lease's owner.  While a disaster recovery freezes the
    cluster only the primary of a committed recovery may be activated. *)
Theorem agent_single_writer payload now controllerID r (response := reconcile_response payload now controllerID r) :
  (writer_action (rr_Action response) = true → ∃ lease,
     writer_lease (rq_ClusterID payload) now r lease ∧ lease_OwnerID lease = rq_InstanceID payload ∧
     bounded_by lease now response) ∧
  (∀ payload' controllerID', rq_ClusterID payload' = rq_ClusterID payload →
     writer_action (rr_Action response) = true →
     writer_action (rr_Action (reconcile_response payload' now controllerID' r)) = true →
     rq_InstanceID payload' = rq_InstanceID payload) ∧
  (rr_Action response = ReconcileTransitionSource → ∃ lease operation,
     writer_lease (rq_ClusterID payload) now r lease ∧ bounded_by lease now response ∧
     lease_PreviousOwnerID lease = rq_InstanceID payload ∧
     OperationByID (lease_OperationID lease) r = Some operation ∧ rec_TargetID operation = lease_OwnerID lease ∧
     rec_Status operation = OperationRunning ∧ opn_Kind (rec_Operation operation) = OperationSwitchover) ∧
  (∀ cluster, Cluster (rq_ClusterID payload) r = Some cluster → DisasterRecoveryActive cluster = true →
     rr_Action response ≠ ReconcileTransitionSource ∧
     (writer_action (rr_Action response) = true → rr_Action response = ReconcileRecoveryActivate ∧
        ∃ task expiresAt, RecoveryAuthorization (rq_ClusterID payload) (rq_InstanceID payload) now r = Some (task, expiresAt) ∧
          task_Stage task = RecoveryCommitted ∧ task_PrimaryID task = rq_InstanceID payload)).
Proof.
  subst response. destruct (reconcile_response_sound payload now controllerID r) as (Hw & Hs & Hf).
  split_and!; [| | |exact Hf].
  - intros Ha. destruct (Hw Ha) as (Ho & Hact & Hexp & Hb). eauto using current_lease_live.
  - intros payload' c' Hc Ha Ha'. destruct (Hw Ha) as (Ho & _).
    destruct (reconcile_response_sound payload' now c' r) as (Hw' & _). destruct (Hw' Ha') as (Ho' & _).
    rewrite Hc in Ho'. congruence.
  - intros Ha. destruct (Hs Ha) as (Ht & Hact & Hexp & Hb). unfold transitionSourceAuthorizes in Ht.
    destruct (_ || _) eqn:Hg in Ht; [done|]. destruct (OperationByID _ _) as [operation|] eqn:Hop; [|done].
    unfold mutating in Ht. repeat bsimpl_step. exists (current_lease (rq_ClusterID payload) now r), operation.
    split_and!; try done. by apply current_lease_live.
Qed.

(** ** From the controller to the agent *)

Lemma isolation_reason evidence : TrimSpace (EvaluateSelfIsolation evidence).2 ≠ "".
Proof. unfold EvaluateSelfIsolation, isolate. by repeat case_match. Qed.

Section signed.
Variables (mac_request : string → unsignedReconcileRequest → string)
  (mac_response : string → unsignedReconcileResponse → string).
(** No two responses have the same MAC, and a MAC in hexadecimal has no spaces
    to trim. *)
Hypothesis mac_injective : ∀ secret a b, mac_response secret a = mac_response secret b → a = b.
Hypothesis mac_trimmed : ∀ secret a, TrimSpace (mac_response secret a) = mac_response secret a.

Lemma unsigned_trim response sig :
  unsigned_response (response <| rr_Reason := TrimSpace (rr_Reason response) |> <| rr_Signature := sig |>) =
  unsigned_response response ∧
  unsigned_response (response <| rr_Reason := TrimSpace (rr_Reason response) |>) = unsigned_response response.
Proof.
  destruct response as [a b c d e f g h i].
  split; exact (f_equal (λ x, mkUnsignedResponse a b c d x f g h) (TrimSpace_idemp e)).
Qed.
Lemma SignReconcileResponse_ok response secret signed :
  SignReconcileResponse mac_response response secret = Ok signed ↔
  TrimSpace secret ≠ "" ∧
  signed = response <| rr_Reason := TrimSpace (rr_Reason response) |>
                    <| rr_Signature := mac_response secret (unsigned_response response) |>.
Proof.
  unfold SignReconcileResponse, reconcileMAC. cbn zeta.
  rewrite (proj2 (unsigned_trim response "")).
  destruct (bool_decide_reflect (TrimSpace secret = "")); cbn; split; [done|by intros [? _]|by intros [= <-]|by intros [_ ->]].
Qed.
Lemma signed_unsigned response secret signed :
  SignReconcileResponse mac_response response secret = Ok signed →
  unsigned_response signed = unsigned_response response ∧
  rr_Signature signed = mac_response secret (unsigned_response response).
Proof.
  intros [_ ->]%SignReconcileResponse_ok. split; [exact (proj1 (unsigned_trim _ _))|reflexivity].
Qed.

Lemma route_signs secret authority payload now r authz authz' response :
  agentReconcileRoute mac_request mac_response secret authority payload now r authz = (authz', Ok response) →
  ∃ controllerID, VerifyReconcileRequest mac_request payload secret now = Ok tt ∧
    SignReconcileResponse mac_response (reconcile_response payload now controllerID r) secret = Ok response ∧
    ∃ a, authority = Some a ∧ au_Quorum a = true ∧ au_Leader a = Some controllerID ∧
    (au_Epoch a ≠ 0 → 0 ≤ au_Epoch a → authz' = RecordAuthorization response (au_Epoch a) authz).
Proof.
  unfold agentReconcileRoute. destruct authority as [a|]; [|done]. destruct (_ == _); [done|].
  destruct (VerifyReconcileRequest _ _ _ _) as [[]|] eqn:Hv; [|done].
  destruct (au_Quorum a) eqn:Hq; cbn [negb]; [|done].
  destruct (au_Leader a) as [c|] eqn:Hl; [|done]. destruct (SignReconcileResponse _ _ _) as [resp|] eqn:Hs; [|done].
  destruct authz as [records|]; cbn [bool_decide andb].
  - destruct (0 <? au_Epoch a) eqn:He; rewrite ?andb_true_r, ?andb_false_r.
    + rewrite bool_decide_true by eauto. cbn [andb]. destruct (_ != _); [done|]. intros [= <- <-].
      exists c. split_and!; [done|done|]. exists a. by split_and!.
    + intros [= <- <-]. exists c. split_and!; [done|done|]. exists a. split_and!; [done..|]. apply Z.ltb_ge in He. lia.
  - rewrite bool_decide_false by (by intros [? ?]). cbn [andb]. intros [= <- <-]. exists c. split_and!; [done|done|].
    exists a. by split_and!.
Qed.

Definition scope (r : ReconcileResponse) : ResourceID * ResourceID * ResourceID :=
  (rr_ClusterID r, rr_InstanceID r, rr_ControllerID r).
Lemma response_scope payload now controllerID r :
  scope (reconcile_response payload now controllerID r) = (rq_ClusterID payload, rq_InstanceID payload, controllerID).
Proof.
  assert (∀ evidence response, scope (normal_response evidence response) = scope response) as Hn.
  { intros evidence response. unfold normal_response. by destruct (EvaluateSelfIsolation evidence) as [[] ?]. }
  assert (∀ evidence task t response, scope (recovery_permit evidence task t response) = scope response) as Hp.
  { intros evidence task t response. unfold recovery_permit.
    assert (∀ u x, scope (limit_until u x) = scope x) as Hl by (intros; unfold limit_until; by case_match).
    destruct (recovery_activation _ _); [rewrite Hl; change (scope (answer_with ?a ?m ?x)) with (scope x)|];
      rewrite Hl; destruct (_ || _), (_ != _); reflexivity. }
  unfold reconcile_response. destruct (Cluster _ _) as [c|]; [destruct (DisasterRecoveryActive c)|]; rewrite ?Hn; try done.
  destruct (RecoveryAuthorization _ _ _ _) as [[task t]|]; [rewrite Hp|].
  all: match goal with |- scope (set_field _ (set_field _ (set_field _ (set_field _ ?x)))) = _ =>
    transitivity (scope x); [reflexivity|by rewrite Hn] end.
Qed.

(** An agent that accepts a response acts within a live lease: if the
    controller issued [response] and the agent verifies a message that carries
    its signature, then every signed field is the controller's, the message is
    for the request's cluster and instance, and if its action makes the instance
    a writer then the store held a live lease of the cluster's active VIP owned
    by that instance, which has not expired when the agent accepts, less than
    ten seconds after the decision. *)
Theorem agent_acts_within_lease secret authority payload now r authz authz' response received request now' u :
  agentReconcileRoute mac_request mac_response secret authority payload now r authz = (authz', Ok response) →
  TrimSpace (rr_Signature received) = rr_Signature response →
  VerifyReconcileResponse mac_response received request secret now' = Ok u →
  unsigned_response received = unsigned_response response ∧
  rq_ClusterID request = rq_ClusterID payload ∧ rq_InstanceID request = rq_InstanceID payload ∧
  (writer_action (rr_Action received) = true → ∃ lease,
     writer_lease (rq_ClusterID request) now r lease ∧ lease_OwnerID lease = rq_InstanceID request ∧
     now' < lease_ExpiresAt lease ∧ now' < now + 10 * Second).
Proof.
  intros (c & _ & Hs & _)%route_signs Hsig ((Hc & Hi & _) & _ & [Hnow _] & _ & Hmac)%VerifyReconcileResponse_ok.
  apply signed_unsigned in Hs as [Hu Hsg]. rewrite Hsig, Hsg in Hmac. apply mac_injective in Hmac.
  pose proof (response_scope payload now c r) as Hsc. unfold scope in Hsc.
  set (answer := reconcile_response payload now c r) in *. injection Hsc as Hsc1 Hsc2 _.
  injection Hmac as H1 H2 H3 H4 H5 H6 H7 H8.
  split; [rewrite Hu; unfold unsigned_response; congruence|]. split; [congruence|]. split; [congruence|].
  intros Hw. rewrite H4 in Hw. destruct (reconcile_response_sound payload now c r) as [Hsound _].
  destruct (Hsound Hw) as (Ho & Ha & Hexp & Hb1 & Hb2). fold answer in Hb1, Hb2.
  exists (current_lease (rq_ClusterID payload) now r). rewrite <- Hc, <- Hi, H2, H3, Hsc1, Hsc2.
  split; [by apply current_lease_live|]. split; [done|]. lia.
Qed.

Lemma normal_shape evidence blank (response := normal_response evidence blank) :
  rr_RecoveryTaskID response = rr_RecoveryTaskID blank ∧ TrimSpace (rr_Reason response) ≠ "" ∧
  (rr_Action response = ReconcileSelfIsolate ∧ rr_ValidUntil response = rr_ValidUntil blank ∨
   ownership_action (rr_Action response) = true ∧ ValidResourceID (rr_LeaseID response) = true ∧
   rr_ValidUntil response ≤ se_Now evidence + 10 * Second).
Proof.
  subst response. unfold normal_response. pose proof (isolation_reason evidence) as Hr.
  destruct (EvaluateSelfIsolation evidence) as [action reason] eqn:He. cbn [snd] in Hr.
  pose proof (isolation_sound _ _ _ He) as Hs.
  destruct (decide (action = SelfIsolationReleaseAndReadOnly)) as [->|Hne]; [split; [done|]; split; [exact Hr|by left]|].
  destruct (Hs Hne) as (_ & _ & Hv & _). split; [by destruct action|]. split; [destruct action; exact Hr|]. right.
  pose proof (min_time_le (lease_ExpiresAt (se_Lease evidence)) (Add (se_Now evidence) (10 * Second))) as [_ Hm].
  split; [destruct action; try done; cbn; by destruct (se_TransitionTarget evidence)|].
  split; [destruct action; [exact Hv..|done]|]. destruct action; [exact Hm..|done].
Qed.

Lemma permit_recovery evidence task t response :
  recovery_action (rr_Action (recovery_permit evidence task t response)) = true.
Proof.
  unfold recovery_permit. destruct (recovery_activation _ _); [by rewrite limit_until_action|].
  rewrite limit_until_action. by destruct (_ || _), (_ != _).
Qed.
Lemma answer_shape payload now controllerID r (answer := reconcile_response payload now controllerID r) :
  recovery_action (rr_Action answer) = false →
  rr_RecoveryTaskID answer = "" ∧ TrimSpace (rr_Reason answer) ≠ "" ∧
  (ownership_action (rr_Action answer) = true ∧ ValidResourceID (rr_LeaseID answer) = true ∨
   rr_Action answer = ReconcileSelfIsolate) ∧ rr_ValidUntil answer ≤ now + 10 * Second.
Proof.
  subst answer. unfold reconcile_response. set (evidence := reconcile_evidence _ _ now r).
  set (blank := mkReconcileResponse _ _ _ _ _ _ _ _ _).
  destruct (normal_shape evidence blank) as (Ht & Hreas & Ha).
  rewrite (evidence_now _ _ _ _ : se_Now evidence = now) in Ha. set (normal := normal_response evidence blank) in *.
  assert (rr_RecoveryTaskID normal = "" ∧ TrimSpace (rr_Reason normal) ≠ "" ∧
      (ownership_action (rr_Action normal) = true ∧ ValidResourceID (rr_LeaseID normal) = true ∨
       rr_Action normal = ReconcileSelfIsolate) ∧ rr_ValidUntil normal ≤ now + 10 * Second) as Hn.
  { split; [exact Ht|]. split; [exact Hreas|]. destruct Ha as [[? Hx]|(? & ? & ?)]; [|split; auto].
    split; [by right|]. by rewrite Hx. }
  destruct (Cluster _ _) as [c|]; [destruct (DisasterRecoveryActive c)|]; try (intros _; exact Hn).
  destruct (RecoveryAuthorization _ _ _ _) as [[task t]|]; [by rewrite permit_recovery|]. intros _.
  split; [exact Ht|]. split; [done|]. split; [by right|reflexivity].
Qed.

(** What a controller issues an agent accepts: the answer of the handler to
    a signed request is accepted by the agent that sent it, under the shared
    secret, from the decision until the permit ends, unless it is a permit of a
    disaster recovery. *)
Theorem reconcile_answer_accepted secret authority payload now r authz authz' response now' :
  agentReconcileRoute mac_request mac_response secret authority payload now r authz = (authz', Ok response) →
  ValidResourceID (rr_ControllerID response) = true → recovery_action (rr_Action response) = false →
  now ≤ now' < rr_ValidUntil response →
  VerifyReconcileResponse mac_response response payload secret now' = Ok tt.
Proof.
  intros (c & _ & Hs & _)%route_signs Hv Hr Hnow. apply VerifyReconcileResponse_ok.
  destruct (signed_unsigned _ _ _ Hs) as [Hu Hsg]. apply SignReconcileResponse_ok in Hs as [Hsec Hresp].
  pose proof (response_scope payload now c r) as Hsc. unfold scope in Hsc.
  injection Hsc as Hsc1 Hsc2 _. rewrite Hr, Hu, Hsg, mac_trimmed.
  pose proof (answer_shape payload now c r) as Ha. set (answer := reconcile_response payload now c r) in *.
  subst response. destruct (Ha Hr) as (Ht & Hreas & Hact & Hm). change (rr_ValidUntil _) with (rr_ValidUntil answer) in Hnow.
  split; [|split; [exact (conj Ht Hact)|split; [|exact (conj Hsec eq_refl)]]].
  - split; [exact Hsc1|]. split; [exact Hsc2|]. split; [exact Hv|]. change (TrimSpace (TrimSpace (rr_Reason answer)) ≠ "").
    by rewrite TrimSpace_idemp.
  - change (now' < rr_ValidUntil answer ≤ now' + Minute). unfold Minute, Second in *. lia.
Qed.
End signed.

(** ** Concrete instances *)

(** A concrete MAC for the witnesses: the bits of the message, injectively. *)
Fixpoint bit_string (p : positive) : string :=
  match p with
  | xH => "1"
  | xO p => String "0" (bit_string p)
  | xI p => String "1" (bit_string p)
  end.
Definition is_bit (c : ascii) : bool := Ascii.eqb c "0" || Ascii.eqb c "1".
Definition action_key (action : ReconcileAction) : nat * string :=
  match action with
  | ReconcileKeepVIP => (0, "") | ReconcileTransitionTarget => (1, "") | ReconcileTransitionSource => (2, "")
  | ReconcileBootstrapPrimary => (3, "") | ReconcileSelfIsolate => (4, "") | ReconcileRecoveryPrimary => (5, "")
  | ReconcileRecoveryActivate => (6, "") | ReconcileRecoveryReplica => (7, "") | ReconcileRecoveryPrepare => (8, "")
  | ReconcileActionOther raw => (9, raw)
  end%nat.
Definition wa_mac_response (secret : string) (v : unsignedReconcileResponse) : string :=
  bit_string (encode [encode (urr_RecoveryTaskID v); encode (urr_ClusterID v); encode (urr_InstanceID v);
    encode (action_key (urr_Action v)); encode (urr_Reason v); encode (urr_LeaseID v); encode (urr_ValidUntil v);
    encode (urr_ControllerID v)]).
Definition wa_mac_request (secret : string) (v : unsignedReconcileRequest) : string :=
  bit_string (encode [encode (urq_ClusterID v); encode (urq_InstanceID v); encode (urq_RequestedAt v); encode (urq_Nonce v)]).

Lemma bit_string_inj p q : bit_string p = bit_string q → p = q.
Proof.
  assert (∀ p, bit_string p ≠ "") as Hne by (by intros []).
  revert q. induction p as [p IH|p IH|]; intros [q|q|]; cbn; intros H; simplify_eq;
    try (f_equal; by apply IH); try done; exfalso; by eapply Hne.
Qed.
Lemma wa_mac_injective secret a b : wa_mac_response secret a = wa_mac_response secret b → a = b.
Proof.
  intros H. apply bit_string_inj, encode_inj in H. injection H as H1 H2 H3 H4 H5 H6 H7 H8.
  apply encode_inj in H1, H2, H3, H4, H5, H6, H7, H8. destruct a as [? ? ? x ? ? ? ?], b as [? ? ? y ? ? ? ?].
  cbn in *. subst. assert (x = y) as -> by (by destruct x, y; simplify_eq/=). done.
Qed.
Lemma bits_trimmed s : string_forall is_bit s = true → TrimSpace s = s.
Proof.
  intros Hs. apply digits_trimmed. induction s as [|c s IH]; [done|]. cbn in *. apply andb_prop in Hs as [Hc Hs]. rewrite (IH Hs), andb_true_r.
  unfold is_bit in Hc. apply orb_true_iff in Hc as [Hc|Hc]; by apply Ascii.eqb_eq in Hc as ->.
Qed.
Lemma wa_mac_trimmed secret a : TrimSpace (wa_mac_response secret a) = wa_mac_response secret a.
Proof. apply bits_trimmed. unfold wa_mac_response. induction (encode _); cbn; done. Qed.

(** The cluster of [HAEndpoints]' witness, whose owner holds the stable lease. *)
Definition wa_request : LeaseRequest := mkLeaseRequest w_cluster w_endpoint w_endpoint w_next "" (20 * Second) false.
Definition wa_store : Repository := (Lease.Acquire true w_now w_operation wa_request wh_r2).1.
Definition wa_payload : ReconcileRequest :=
  match SignReconcileRequest wa_mac_request (mkReconcileRequest w_cluster w_next w_now "0123456789abcdef" "") "secret" with
  | Ok request => request
  | Err _ => mkReconcileRequest "" "" 0 "" ""
  end.
Definition wa_authority : option Authority := Some (mkAuthority true (Some w_owner) 3 3).
Definition wa_route := agentReconcileRoute wa_mac_request wa_mac_response "secret" wa_authority wa_payload w_now wa_store (Some ∅).
Definition wa_response : ReconcileResponse :=
  match wa_route.2 with Ok response => response | Err _ => mkReconcileResponse "" "" "" ReconcileSelfIsolate "" "" 0 "" "" end.
Lemma wa_routed : agentReconcileRoute wa_mac_request wa_mac_response "secret" wa_authority wa_payload w_now wa_store (Some ∅) =
  (wa_route.1, Ok wa_response).
Proof. assert (wa_route.2 = Ok wa_response) as H by (vm_compute; reflexivity). exact (pair_fst wa_route _ H). Qed.

Lemma agent_single_writer_witness :
  writer_action (rr_Action (reconcile_response wa_payload w_now w_owner wa_store)) = true ∧
  ∃ lease, writer_lease w_cluster w_now wa_store lease ∧ lease_OwnerID lease = w_next ∧
    bounded_by lease w_now (reconcile_response wa_payload w_now w_owner wa_store).
Proof.
  assert (writer_action (rr_Action (reconcile_response wa_payload w_now w_owner wa_store)) = true) as H
    by (vm_compute; reflexivity).
  split; [exact H|]. exact (proj1 (agent_single_writer wa_payload w_now w_owner wa_store) H).
Defined.

Lemma wa_accepted : VerifyReconcileResponse wa_mac_response wa_response wa_payload "secret" (w_now + 5 * Second) = Ok tt.
Proof. vm_compute. reflexivity. Qed.
Lemma agent_acts_within_lease_witness :
  ∃ lease, writer_lease w_cluster w_now wa_store lease ∧ lease_OwnerID lease = w_next ∧
    w_now + 5 * Second < lease_ExpiresAt lease.
Proof.
  assert (writer_action (rr_Action wa_response) = true) as Hw by (vm_compute; reflexivity).
  assert (TrimSpace (rr_Signature wa_response) = rr_Signature wa_response) as Ht by (vm_compute; reflexivity).
  destruct (agent_acts_within_lease wa_mac_request wa_mac_response wa_mac_injective "secret" wa_authority wa_payload
    w_now wa_store (Some ∅) wa_route.1 wa_response wa_response wa_payload _ _ wa_routed Ht wa_accepted) as (_ & _ & _ & H).
  destruct (H Hw) as (lease & Hl & Ho & He & _). exists lease. exact (conj Hl (conj Ho He)).
Defined.

Lemma reconcile_answer_accepted_witness :
  rr_Action wa_response = ReconcileKeepVIP ∧
  VerifyReconcileResponse wa_mac_response wa_response wa_payload "secret" (w_now + 9 * Second) = Ok tt.
Proof.
  split; [vm_compute; reflexivity|].
  apply (reconcile_answer_accepted wa_mac_request wa_mac_response wa_mac_trimmed "secret" wa_authority wa_payload
    w_now wa_store (Some ∅) wa_route.1 wa_response _ wa_routed); try (vm_compute; reflexivity).
  assert (rr_ValidUntil wa_response = w_now + 10 * Second) as -> by (vm_compute; reflexivity).
  unfold w_now, Second. lia.
Defined.
