(* ===== verification/Reconciler.v ===== *)
(** * internal/agent/reconciler.go: the agent acts on a decision

    Every few seconds the agent asks for a decision and makes its host agree
    with it.  The host is reached through the controllers' interfaces, here the
    record [Controllers] of operations on an abstract host [H], with the laws
    [ControllerLaws] that say what the interfaces promise about the VIP and the
    writer behind it; a host whose failures the operations draw from a script
    is an instance.  [Decision] is the request to the controllers: its outcome
    is an argument.  [errors.Join] of a list is the list; it is nil when empty. *)
From S2P Require Import Prelude GoStd Model AgentProtocol.

(** The fields of [agent.ClusterPolicy] the reconciler reads. *)
Record ClusterPolicy : Type := mkPolicy {
  pol_ClusterID : ResourceID; pol_InstanceID : ResourceID; pol_Engine : Engine
}.
Record MySQLIsolationStatus : Type := mkIsolationStatus {
  mi_DatabaseReachable : bool; mi_ServiceRunning : bool; mi_ReadOnly : bool;
  mi_SuperReadOnly : bool; mi_RestartReadOnly : bool; mi_PersistedReadOnly : bool
}.
Record ReconcileResult : Type := mkReconcileResult {
  res_ClusterID : ResourceID; res_InstanceID : ResourceID; res_Action : ReconcileAction; res_Message : string
}.

(** ** The controllers *)

(** A call changes the host and fails or answers. *)
Definition call (H E A : Type) : Type := H → H * result E A.

Record PostgreSQLController (H E : Type) : Type := mkPostgreSQL {
  (** whether the service runs and is in recovery; the flags may be known
      beside an error *)
  pg_Status : H → H * (bool * bool * option E);
  pg_Stop : call H E unit;
  (** the optional interfaces a controller may implement *)
  pg_StandbyIntent : option (call H E bool);
  pg_RecoveryGuardVerify : option (ResourceID → call H E unit);
  pg_RecoveryGuardRelease : option (ResourceID → call H E unit)
}.
Record Controllers (H E : Type) : Type := mkControllers {
  vip_Status : call H E bool; vip_Acquire : call H E unit; vip_Release : call H E unit;
  role_PersistReadOnly : bool → call H E unit; role_Status : call H E (bool * bool);
  role_IsolationStatus : option (call H E MySQLIsolationStatus);
  role_RecoveryReplicaVerify : option (ResourceID → call H E unit);
  postgresql : option (PostgreSQLController H E)
}.
Arguments pg_Status {H E}. Arguments pg_Stop {H E}. Arguments pg_StandbyIntent {H E}.
Arguments pg_RecoveryGuardVerify {H E}. Arguments pg_RecoveryGuardRelease {H E}.
Arguments vip_Status {H E}. Arguments vip_Acquire {H E}. Arguments vip_Release {H E}.
Arguments role_PersistReadOnly {H E}. Arguments role_Status {H E}. Arguments role_IsolationStatus {H E}.
Arguments role_RecoveryReplicaVerify {H E}. Arguments postgresql {H E}.

Inductive agent_error (E : Type) : Type :=
| ErrHost (e : E)              (* a controller's own error *)
| ErrSelfIsolated
| ErrPolicyIdentity | ErrNotAuthorized | ErrNotWritable | ErrRecoveryScope | ErrGuardUnavailable
| ErrWriterActive | ErrPostgreSQLUnconfigured | ErrNotConverged | ErrNotReadOnly | ErrVIPMissing
| ErrUnsupportedAction | ErrContextDone.
Arguments ErrHost {E}. Arguments ErrSelfIsolated {E}. Arguments ErrPolicyIdentity {E}.
Arguments ErrNotAuthorized {E}. Arguments ErrNotWritable {E}. Arguments ErrRecoveryScope {E}.
Arguments ErrGuardUnavailable {E}. Arguments ErrWriterActive {E}. Arguments ErrPostgreSQLUnconfigured {E}.
Arguments ErrNotConverged {E}. Arguments ErrNotReadOnly {E}. Arguments ErrVIPMissing {E}.
Arguments ErrUnsupportedAction {E}. Arguments ErrContextDone {E}.

Section reconciler.
Context {H E : Type} (c : Controllers H E) (policy : ClusterPolicy).

Definition outcome : Type := H * (ReconcileResult * list (agent_error E)).
Definition reported (action : ReconcileAction) (message : string) : ReconcileResult :=
  mkReconcileResult (pol_ClusterID policy) (pol_InstanceID policy) action message.
Definition failed {A} (r : result E A) : list (agent_error E) :=
  match r with Ok _ => [] | Err e => [ErrHost e] end.
Definition failed_opt (e : option E) : list (agent_error E) := match e with Some e => [ErrHost e] | None => [] end.

(** ** Self-isolation *)

(** Stopping PostgreSQL, and looking whether it stopped. *)
Definition stop_writer (pg : PostgreSQLController H E) (h : H) : H * list (agent_error E) :=
  let '(h, stopped) := pg_Stop pg h in
  let '(h, (running, _, verifyErr)) := pg_Status pg h in
  (h, failed stopped ++ match verifyErr with
                        | Some e => [ErrHost e]
                        | None => if running then [ErrWriterActive] else []
                        end).
Definition convergePostgreSQL (pg : PostgreSQLController H E) (releaseErr : list (agent_error E)) (h : H) : outcome :=
  let '(h, (running, inRecovery, statusErr)) := pg_Status pg h in
  match statusErr with
  | Some e =>
      let '(h, intent) :=
        if running then match pg_StandbyIntent pg with Some inspect => inspect h | None => (h, Ok false) end
        else (h, Ok false) in
      match intent with
      | Ok true =>
          (h, (reported ReconcileSelfIsolate
                 "VIP released; PostgreSQL standby startup remains isolated without a writer endpoint",
               releaseErr ++ [ErrHost e]))
      | _ =>
          let '(h, stopErr) := stop_writer pg h in
          (h, (reported ReconcileSelfIsolate
                 "VIP released; unknown PostgreSQL role forced the local service to stop",
               releaseErr ++ [ErrHost e] ++ failed intent ++ stopErr))
      end
  | None =>
      if running && inRecovery
      then (h, (reported ReconcileSelfIsolate "VIP released; PostgreSQL streaming standby remains active", releaseErr))
      else if negb running
      then (h, (reported ReconcileSelfIsolate "VIP released; PostgreSQL is not currently eligible for ownership", releaseErr))
      else
        let '(h, stopErr) := stop_writer pg h in
        (h, (reported ReconcileSelfIsolate
               "VIP released and PostgreSQL writer stopped after majority authorization loss", releaseErr ++ stopErr))
  end.
Definition convergeSelfIsolation (h : H) : outcome :=
  let '(h, released) := vip_Release c h in
  if pol_Engine policy == EnginePostgreSQL then
    match postgresql c with
    | None => (h, (reported ReconcileSelfIsolate "VIP released; PostgreSQL controller is unavailable",
                   failed released ++ [ErrPostgreSQLUnconfigured]))
    | Some pg => convergePostgreSQL pg (failed released) h
    end
  else
    let '(h, roleErr) := role_PersistReadOnly c true h in
    (h, (reported ReconcileSelfIsolate "VIP released and MySQL persisted read-only", failed released ++ failed roleErr)).

Definition selfIsolate (cause : list (agent_error E)) (h : H) : outcome :=
  let '(h, (result, isolationErr)) := convergeSelfIsolation h in
  (h, (result, ErrSelfIsolated :: cause ++ isolationErr)).

(** A failed call isolates the host. *)
Definition or_isolate {A} (p : H * result E A) (k : A → H → outcome) : outcome :=
  let '(h, r) := p in match r with Ok a => k a h | Err e => selfIsolate [ErrHost e] h end.
Definition finish (action : ReconcileAction) (message : string) (h : H) : outcome :=
  (h, (reported action message, [])).
(** The VIP is released when the host has it, and acquired when it has not. *)
Definition release_owned (ownsVIP : bool) (h : H) (k : H → outcome) : outcome :=
  if ownsVIP then or_isolate (vip_Release c h) (λ _ h, k h) else k h.
Definition acquire_missing (ownsVIP : bool) (h : H) (k : H → outcome) : outcome :=
  if ownsVIP then k h else or_isolate (vip_Acquire c h) (λ _ h, k h).

(** ** Converging a MySQL writer *)

Definition writableRestartStateConverged (status : MySQLIsolationStatus) : bool :=
  negb (mi_PersistedReadOnly status) && mi_DatabaseReachable status && negb (mi_ReadOnly status) &&
  negb (mi_SuperReadOnly status).
Definition convergeWritableRestartState (h : H) : H * list (agent_error E) :=
  match role_IsolationStatus c with
  | None => (h, [])
  | Some inspect =>
      let '(h, status) := inspect h in
      match status with
      | Err e => (h, [ErrHost e])
      | Ok status =>
          if writableRestartStateConverged status then (h, [])
          else
            let '(h, committed) := role_PersistReadOnly c false h in
            match committed with
            | Err e => (h, [ErrHost e])
            | Ok _ =>
                let '(h, status) := inspect h in
                match status with
                | Err e => (h, [ErrHost e])
                | Ok status => (h, if writableRestartStateConverged status then [] else [ErrNotConverged])
                end
            end
      end
  end.
Definition converge_writable (h : H) (k : H → outcome) : outcome :=
  let '(h, errs) := convergeWritableRestartState h in
  match errs with [] => k h | _ => selfIsolate errs h end.
(** The database must be proven writable before anything else is done. *)
Definition require_writable (extra : list (agent_error E)) (h : H) (k : H → outcome) : outcome :=
  let '(h, role) := role_Status c h in
  match role with
  | Err e => selfIsolate (ErrHost e :: extra) h
  | Ok (readOnly, superReadOnly) => if readOnly || superReadOnly then selfIsolate [ErrNotWritable] h else k h
  end.

(** ** Recovery permits *)

Definition recovery_replica (decision : ReconcileResponse) (h : H) : outcome :=
  if pol_Engine policy == EnginePostgreSQL then convergeSelfIsolation h
  else or_isolate (vip_Release c h) (λ _ h,
    match role_RecoveryReplicaVerify c with
    | Some verify =>
        if pol_Engine policy != EngineMySQL then selfIsolate [ErrGuardUnavailable] h
        else or_isolate (verify (rr_RecoveryTaskID decision) h) (λ _ h,
          finish (rr_Action decision) "offline-mode guard isolates replica reconstruction from business access" h)
    | None => selfIsolate [ErrGuardUnavailable] h
    end).
Definition fenced_restart (state : MySQLIsolationStatus) : bool :=
  mi_RestartReadOnly state &&
  negb (mi_DatabaseReachable state && (negb (mi_ReadOnly state) || negb (mi_SuperReadOnly state))).
Definition recovery_primary (decision : ReconcileResponse) (h : H) : outcome :=
  let done_ := finish (rr_Action decision) "recovery-only authorization keeps business access fenced and VIP absent" in
  or_isolate (vip_Release c h) (λ _ h,
    if pol_Engine policy == EnginePostgreSQL then
      match postgresql c ≫= pg_RecoveryGuardVerify with
      | Some verify => or_isolate (verify (rr_RecoveryTaskID decision) h) (λ _ h, done_ h)
      | None => selfIsolate [ErrGuardUnavailable] h
      end
    else or_isolate (role_PersistReadOnly c true h) (λ _ h,
      match role_IsolationStatus c with
      | None => selfIsolate [ErrGuardUnavailable] h
      | Some inspect =>
          let '(h, state) := inspect h in
          match state with
          | Ok state => if fenced_restart state then done_ h else selfIsolate [ErrNotConverged] h
          | Err e => selfIsolate [ErrHost e; ErrNotConverged] h
          end
      end)).

(** ** The actions on PostgreSQL *)

Definition pg_observe (pg : PostgreSQLController H E) : call H E (bool * bool) :=
  λ h, let '(h, (running, inRecovery, e)) := pg_Status pg h in
       (h, match e with Some e => Err e | None => Ok (running, inRecovery) end).
Definition reconcilePostgreSQL (action : ReconcileAction) (h : H) : outcome :=
  match postgresql c with
  | None => selfIsolate [ErrPostgreSQLUnconfigured] h
  | Some pg =>
      match action with
      | ReconcileTransitionSource =>
          or_isolate (pg_observe pg h) (λ _ h, or_isolate (vip_Status c h) (λ _ h,
            finish action "majority lease holds the PostgreSQL source for controlled transition" h))
      | ReconcileTransitionTarget =>
          or_isolate (pg_observe pg h) (λ state h,
            let '(running, inRecovery) := state in
            if negb running then selfIsolate [ErrNotWritable] h
            else or_isolate (vip_Status c h) (λ ownsVIP h,
              release_owned (inRecovery && ownsVIP) h (λ h,
                finish action
                  (if inRecovery
                   then "majority lease holds the PostgreSQL standby without VIP for controlled promotion"
                   else "majority lease preserves the promoted PostgreSQL target while the controller transfers the VIP")
                  h)))
      | ReconcileBootstrapPrimary | ReconcileKeepVIP =>
          or_isolate (pg_observe pg h) (λ state h,
            let '(running, inRecovery) := state in
            if negb running || inRecovery then selfIsolate [ErrNotWritable] h
            else or_isolate (vip_Status c h) (λ ownsVIP h,
              acquire_missing ownsVIP h
                (finish action "active majority lease authorizes the running PostgreSQL primary and VIP")))
      | _ => selfIsolate [ErrUnsupportedAction] h
      end
  end.

Definition recovery_activate (decision : ReconcileResponse) (h : H) : outcome :=
  if pol_Engine policy == EnginePostgreSQL then
    match postgresql c ≫= pg_RecoveryGuardRelease with
    | Some release => or_isolate (release (rr_RecoveryTaskID decision) h) (λ _ h, reconcilePostgreSQL ReconcileKeepVIP h)
    | None => selfIsolate [ErrGuardUnavailable] h
    end
  else converge_writable h (λ h, require_writable [ErrNotWritable] h (λ h,
    acquire_missing false h
      (finish (rr_Action decision) "Recovery Commit and majority lease activated the verified MySQL writer"))).
Definition reconcileRecovery (decision : ReconcileResponse) (h : H) : outcome :=
  if negb (ValidResourceID (rr_LeaseID decision)) || negb (ValidResourceID (rr_RecoveryTaskID decision))
  then selfIsolate [ErrRecoveryScope] h
  else match rr_Action decision with
  | ReconcileRecoveryReplica | ReconcileRecoveryPrepare => recovery_replica decision h
  | ReconcileRecoveryPrimary => recovery_primary decision h
  | _ => recovery_activate decision h
  end.

(** ** The actions on MySQL *)

Definition reconcileTransitionSource (h : H) : outcome :=
  or_isolate (role_Status c h) (λ _ h, or_isolate (vip_Status c h) (λ _ h,
    finish ReconcileTransitionSource "majority lease holds the source for the controlled transition" h)).
Definition reconcileTransitionTarget (h : H) : outcome :=
  let done_ := finish ReconcileTransitionTarget in
  or_isolate (role_Status c h) (λ role h, let '(readOnly, superReadOnly) := role in
    or_isolate (vip_Status c h) (λ ownsVIP h,
      if readOnly || superReadOnly then
        release_owned ownsVIP h (λ h,
          if bool_decide (readOnly ≠ superReadOnly)
          then done_ "majority lease preserves the bounded read-only transition while the controller completes promotion" h
          else done_ "majority lease holds the read-only target for controlled promotion" h)
      else done_ "majority lease preserves the promoted target while the controller transfers the VIP" h)).
Definition bootstrapPrimary (h : H) : outcome :=
  or_isolate (role_Status c h) (λ role h, let '(readOnly, superReadOnly) := role in
    if negb readOnly && negb superReadOnly then
      or_isolate (vip_Status c h) (λ ownsVIP h,
        if ownsVIP then finish ReconcileKeepVIP "majority lease bootstrap is already converged" h
        else selfIsolate [ErrVIPMissing] h)
    else if negb readOnly || negb superReadOnly then selfIsolate [ErrNotReadOnly] h
    else or_isolate (vip_Status c h) (λ ownsVIP h,
      release_owned ownsVIP h (λ h,
        or_isolate (role_PersistReadOnly c false h) (λ _ h,
          require_writable [] h (λ h,
            or_isolate (vip_Acquire c h) (λ _ h,
              or_isolate (vip_Status c h) (λ ownsVIP h,
                if ownsVIP
                then finish ReconcileBootstrapPrimary "majority lease restored the rebooted primary and its VIP" h
                else selfIsolate [ErrVIPMissing] h))))))).
Definition keepVIP (h : H) : outcome :=
  converge_writable h (λ h, require_writable [] h (λ h,
    or_isolate (vip_Status c h) (λ ownsVIP h,
      acquire_missing ownsVIP h (finish ReconcileKeepVIP "active majority lease authorizes local VIP ownership")))).

(** ** One policy *)

Definition act_on (decided : result E ReconcileResponse) (h : H) : outcome :=
  match decided with
  | Err e => selfIsolate [ErrHost e] h
  | Ok decision =>
      if (rr_ClusterID decision != pol_ClusterID policy) || (rr_InstanceID decision != pol_InstanceID policy)
      then selfIsolate [ErrNotAuthorized] h
      else if rr_Action decision == ReconcileSelfIsolate then convergeSelfIsolation h
      else if recovery_action (rr_Action decision) then reconcileRecovery decision h
      else if negb (ValidResourceID (rr_LeaseID decision)) || negb (ownership_action (rr_Action decision))
      then selfIsolate [ErrNotAuthorized] h
      else if pol_Engine policy == EnginePostgreSQL then reconcilePostgreSQL (rr_Action decision) h
      else match rr_Action decision with
      | ReconcileTransitionSource => reconcileTransitionSource h
      | ReconcileTransitionTarget => reconcileTransitionTarget h
      | ReconcileBootstrapPrimary => bootstrapPrimary h
      | _ => keepVIP h
      end
  end.
(** The result is empty when the policy is not one. *)
Definition reconcile (decided : result E ReconcileResponse) (h : H) : H * (option ReconcileResult * list (agent_error E)) :=
  if negb (ValidResourceID (pol_ClusterID policy)) || negb (ValidResourceID (pol_InstanceID policy))
  then (h, (None, [ErrPolicyIdentity]))
  else let '(h, (result, errs)) := act_on decided h in (h, (Some result, errs)).
End reconciler.

(** ** All policies, by cluster *)

Definition policy_le (a b : ResourceID * ClusterPolicy) : Prop := id_le a.1 b.1.
#[export] Instance policy_le_dec : RelDecision policy_le.
Proof. intros a b. unfold policy_le. apply _. Defined.

Section all.
Context {H E : Type} (c : Controllers H E).
(** [decide] is the client's answer for a policy, [live] what [ctx.Err] says
    before each policy. *)
Variable decide : ClusterPolicy → result E ReconcileResponse.

Fixpoint reconcile_each (live : nat → bool) (n : nat) (policies : list (ResourceID * ClusterPolicy)) (h : H)
  : H * (list ReconcileResult * list (option ResourceID * list (agent_error E))) :=
  match policies with
  | [] => (h, ([], []))
  | (clusterID, policy) :: policies =>
      if negb (live n) then (h, ([], [(None, [ErrContextDone])]))
      else
        let '(h, (result, errs)) := reconcile c policy (decide policy) h in
        let '(h, (results, failures)) := reconcile_each live (S n) policies h in
        (h, (match result with Some r => r :: results | None => results end,
             match errs with [] => failures | _ => (Some clusterID, errs) :: failures end))
  end.
Definition ReconcileAll (live : nat → bool) (policies : gmap ResourceID ClusterPolicy) (h : H) :=
  reconcile_each live 0 (merge_sort policy_le (map_to_list policies)) h.
End all.

(** ** What the controllers promise *)

(** [owns] and [writer] are the facts of the host: it has the VIP, its database
    accepts writes.  A call that fails may have done its work or not. *)
Class ControllerLaws {H E} (c : Controllers H E) (owns writer : H → bool) : Prop := {
  law_vip_Status : ∀ h h' r, vip_Status c h = (h', r) →
    owns h' = owns h ∧ writer h' = writer h ∧ (∀ b, r = Ok b → b = owns h);
  law_vip_Acquire : ∀ h h' r, vip_Acquire c h = (h', r) →
    writer h' = writer h ∧ (∀ u, r = Ok u → owns h' = true);
  law_vip_Release : ∀ h h' r, vip_Release c h = (h', r) →
    writer h' = writer h ∧ (owns h' = true → owns h = true) ∧ (∀ u, r = Ok u → owns h' = false);
  law_PersistReadOnly : ∀ b h h' r, role_PersistReadOnly c b h = (h', r) →
    owns h' = owns h ∧ (∀ u, b = true → r = Ok u → writer h' = false);
  law_role_Status : ∀ h h' r, role_Status c h = (h', r) →
    owns h' = owns h ∧ writer h' = writer h ∧
    (∀ readOnly superReadOnly, r = Ok (readOnly, superReadOnly) → writer h = negb (readOnly || superReadOnly));
  law_IsolationStatus : ∀ inspect h h' r, role_IsolationStatus c = Some inspect → inspect h = (h', r) →
    owns h' = owns h ∧ writer h' = writer h;
  law_ReplicaVerify : ∀ verify task h h' r, role_RecoveryReplicaVerify c = Some verify → verify task h = (h', r) →
    owns h' = owns h;
  law_pg_Status : ∀ pg h h' running inRecovery e, postgresql c = Some pg →
    pg_Status pg h = (h', (running, inRecovery, e)) →
    owns h' = owns h ∧ writer h' = writer h ∧ (e = None → writer h = running && negb inRecovery);
  law_pg_Stop : ∀ pg h h' r, postgresql c = Some pg → pg_Stop pg h = (h', r) → owns h' = owns h;
  law_pg_StandbyIntent : ∀ pg inspect h h' r, postgresql c = Some pg → pg_StandbyIntent pg = Some inspect →
    inspect h = (h', r) → owns h' = owns h ∧ writer h' = writer h;
  law_pg_Guard : ∀ pg guard task h h' r, postgresql c = Some pg →
    pg_RecoveryGuardVerify pg = Some guard ∨ pg_RecoveryGuardRelease pg = Some guard →
    guard task h = (h', r) → owns h' = owns h
}.

(** ** Reasoning about outcomes *)

Section proofs.
Context {H E : Type} (c : Controllers H E) (policy : ClusterPolicy) (owns writer : H → bool)
  {laws : ControllerLaws c owns writer}.
Notation outcome := (@outcome H E).
Implicit Types (h : H) (o : outcome).

(** Without an error the outcome satisfies [Q]. *)
Definition succeeds (Q : ReconcileResult → H → Prop) o : Prop := o.2.2 = [] → Q o.2.1 o.1.
(** With an error the host went through self-isolation, whose own errors end
    the list. *)
Definition fails_closed o : Prop :=
  o.2.2 = [] ∨ ∃ h0 cause isolationErr, convergeSelfIsolation c policy h0 = (o.1, (o.2.1, isolationErr)) ∧
    (o.2.2 = isolationErr ∨ o.2.2 = ErrSelfIsolated :: cause ++ isolationErr).
(** The host did not gain the VIP. *)
Definition keeps_out h o : Prop := owns o.1 = true → owns h = true.

Lemma stop_writer_spec pg h h' errs : postgresql c = Some pg → stop_writer pg h = (h', errs) →
  owns h' = owns h ∧ (errs = [] → writer h' = false).
Proof.
  intros Hpg. unfold stop_writer. destruct (pg_Stop pg h) as [h1 r1] eqn:H1.
  destruct (pg_Status pg h1) as [h2 [[running inRecovery] e]] eqn:H2. intros [= <- <-].
  apply (law_pg_Stop _ _ _ _ Hpg) in H1. apply (law_pg_Status _ _ _ _ _ _ Hpg) in H2 as (Ho & Hw & Hr).
  split; [congruence|]. intros [Hn1 Hn2]%app_nil. destruct e; [done|]. rewrite Hw, Hr by done. by destruct running.
Qed.

Lemma converge_spec h o : convergeSelfIsolation c policy h = o →
  keeps_out h o ∧ res_Action o.2.1 = ReconcileSelfIsolate ∧
  (o.2.2 = [] → owns o.1 = false ∧ writer o.1 = false).
Proof.
  unfold convergeSelfIsolation, keeps_out. destruct (vip_Release c h) as [h1 r1] eqn:H1.
  apply law_vip_Release in H1 as (_ & Hm & Hr). destruct (bool_decide_reflect (pol_Engine policy = EnginePostgreSQL)) as [Hpe|Hpe].
  - destruct (postgresql c) as [pg|] eqn:Hpg; [|intros <-; cbn; split_and!; [done|done|by destruct r1]].
    unfold convergePostgreSQL. destruct (pg_Status pg h1) as [h2 [[running inRecovery] e]] eqn:H2.
    apply (law_pg_Status _ _ _ _ _ _ Hpg) in H2 as (Ho & Hw & Hq). destruct e as [e0|].
    + destruct (if running then _ else _) as [h3 intent] eqn:H3.
      assert (owns h3 = owns h2) as Ho3.
      { destruct running; [|by injection H3 as <- _]. destruct (pg_StandbyIntent pg) as [inspect|] eqn:Hi;
          [|by injection H3 as <- _]. by apply (law_pg_StandbyIntent _ _ _ _ _ Hpg Hi) in H3 as [? _]. }
      destruct intent as [[|]|]; [intros <-; cbn; split_and!; [intros Hx; apply Hm; congruence|done|by destruct r1]|..];
        destruct (stop_writer pg h3) as [h4 errs] eqn:H4; apply (stop_writer_spec _ _ _ _ Hpg) in H4 as [Ho4 _];
        intros <-; cbn; (split_and!; [intros Hx; apply Hm; congruence|done|by destruct r1]).
    + specialize (Hq eq_refl). destruct (running && inRecovery) eqn:Hri; [|destruct running]; cbn [negb].
      * intros <-; cbn. split_and!; [intros Hx; apply Hm; congruence|done|]. intros Hn. rewrite Hw, Hq. destruct r1; [|done].
        apply andb_true_iff in Hri as [-> ->]. rewrite Ho. by rewrite (Hr _ eq_refl).
      * destruct (stop_writer pg h2) as [h4 errs] eqn:H4. apply (stop_writer_spec _ _ _ _ Hpg) in H4 as [Ho4 Hw4].
        intros <-; cbn. split_and!; [intros Hx; apply Hm; congruence|done|]. intros [Hn1 Hn2]%app_nil. destruct r1; [|done].
        split; [rewrite Ho4, Ho; by eapply Hr|auto].
      * intros <-; cbn. split_and!; [intros Hx; apply Hm; congruence|done|]. intros Hn. destruct r1; [|done]. rewrite Ho, Hw, Hq.
        split; [by eapply Hr|done].
  - destruct (role_PersistReadOnly c true h1) as [h2 r2] eqn:H2. apply law_PersistReadOnly in H2 as [Ho Hw].
    intros <-; cbn. split_and!; [intros Hx; apply Hm; congruence|done|]. intros [Hn1 Hn2]%app_nil. destruct r1; [|done]. destruct r2; [|done].
    split; [rewrite Ho; by eapply Hr|by eapply Hw].
Qed.

(** One judgement for all three: [allow] says whether the VIP may be gained,
    [h0] is the host at the start. *)
Definition within (allow : bool) h0 h : Prop := allow = false → owns h = true → owns h0 = true.
Definition meets (allow : bool) h0 (Q : ReconcileResult → H → Prop) o : Prop :=
  fails_closed o ∧ within allow h0 o.1 ∧ succeeds Q o.

Section rules.
Variables (allow : bool) (h0 : H) (Q : ReconcileResult → H → Prop).
Notation meets := (meets allow h0 Q).
Notation within := (within allow h0).

Lemma meets_converge h : within h → (∀ h', owns h' = false → writer h' = false → ∀ r, res_Action r = ReconcileSelfIsolate → Q r h') →
  meets (convergeSelfIsolation c policy h).
Proof.
  intros Hw HQ. destruct (convergeSelfIsolation c policy h) as [h' [r errs]] eqn:Hc.
  destruct (converge_spec h _ Hc) as (Hk & Ha & Hs). unfold keeps_out in Hk. split_and!.
  - right. exists h, [], errs. split; [done|by left].
  - intros Hal Ho. by apply Hw, Hk.
  - intros He. cbn in *. destruct (Hs He). by apply HQ.
Qed.
Lemma meets_selfIsolate cause h : within h → meets (selfIsolate c policy cause h).
Proof.
  intros Hw. unfold selfIsolate. destruct (convergeSelfIsolation c policy h) as [h' [r errs]] eqn:Hc.
  destruct (converge_spec h _ Hc) as (Hk & Ha & Hs). split_and!; [|intros Hal Ho; by apply Hw, Hk|done].
  right. exists h, cause, errs. split; [done|by right].
Qed.
Lemma meets_finish action message h : within h → Q (reported policy action message) h → meets (finish policy action message h).
Proof. intros Hw HQ. split_and!; [by left|done|by intros _]. Qed.
Lemma meets_or {A} (p : H * result E A) k :
  within p.1 → (∀ a, p.2 = Ok a → meets (k a p.1)) → meets (or_isolate c policy p k).
Proof. destruct p as [h [a|e]]; intros Hw Hk; [by apply Hk|by apply meets_selfIsolate]. Qed.

Lemma within_owns h h' : within h → owns h' = owns h → within h'.
Proof. unfold within. by intros ? ->. Qed.
Lemma within_out h : owns h = false → within h.
Proof. unfold within. intros -> _. done. Qed.
Lemma within_allow h : allow = true → within h.
Proof. by intros ->. Qed.

Lemma meets_vip_Status h k : within h →
  (∀ h', owns h' = owns h → writer h' = writer h → within h' → meets (k (owns h) h')) →
  meets (or_isolate c policy (vip_Status c h) k).
Proof.
  intros Hw Hk. destruct (vip_Status c h) as [h' r] eqn:Hv. apply law_vip_Status in Hv as (Ho & Hwr & Hb).
  pose proof (within_owns _ _ Hw Ho). apply meets_or; [done|]. cbn. intros a Ha. rewrite (Hb a Ha). by apply Hk.
Qed.
Lemma meets_vip_Acquire h k : allow = true →
  (∀ h' u, owns h' = true → writer h' = writer h → meets (k u h')) → meets (or_isolate c policy (vip_Acquire c h) k).
Proof.
  intros Hal Hk. destruct (vip_Acquire c h) as [h' r] eqn:Hv. apply law_vip_Acquire in Hv as (Hwr & Hb).
  apply meets_or; [by apply within_allow|]. cbn. eauto.
Qed.
Lemma meets_vip_Release h k : within h →
  (∀ h' u, owns h' = false → writer h' = writer h → within h' → meets (k u h')) →
  meets (or_isolate c policy (vip_Release c h) k).
Proof.
  intros Hw Hk. destruct (vip_Release c h) as [h' r] eqn:Hv. apply law_vip_Release in Hv as (Hwr & Hm & Hb).
  apply meets_or; cbn; [by intros Hal Ho; apply Hw, Hm|]. intros u Hu. apply Hk; [by eapply Hb|done|]. apply within_out. by eapply Hb.
Qed.
Lemma meets_PersistReadOnly b h k : within h →
  (∀ h' u, owns h' = owns h → (b = true → writer h' = false) → within h' → meets (k u h')) →
  meets (or_isolate c policy (role_PersistReadOnly c b h) k).
Proof.
  intros Hw Hk. destruct (role_PersistReadOnly c b h) as [h' r] eqn:Hv. apply law_PersistReadOnly in Hv as (Ho & Hb).
  pose proof (within_owns _ _ Hw Ho). apply meets_or; [done|]. cbn. intros u Hu. apply Hk; [done| |done]. intros Hbt. by eapply Hb.
Qed.
Lemma meets_role_Status h k : within h →
  (∀ h' readOnly superReadOnly, owns h' = owns h → writer h' = negb (readOnly || superReadOnly) → within h' →
     meets (k (readOnly, superReadOnly) h')) →
  meets (or_isolate c policy (role_Status c h) k).
Proof.
  intros Hw Hk. destruct (role_Status c h) as [h' r] eqn:Hv. apply law_role_Status in Hv as (Ho & Hwr & Hb).
  pose proof (within_owns _ _ Hw Ho). apply meets_or; [done|]. cbn. intros [readOnly superReadOnly] Ha.
  apply Hk; [done| |done]. rewrite Hwr. by apply Hb.
Qed.
Lemma meets_require_writable extra h k : within h →
  (∀ h', owns h' = owns h → writer h' = true → within h' → meets (k h')) →
  meets (require_writable c policy extra h k).
Proof.
  intros Hw Hk. unfold require_writable. destruct (role_Status c h) as [h' r] eqn:Hv.
  apply law_role_Status in Hv as (Ho & Hwr & Hb). pose proof (within_owns _ _ Hw Ho).
  destruct r as [[readOnly superReadOnly]|]; [|by apply meets_selfIsolate].
  specialize (Hb _ _ eq_refl). destruct (readOnly || superReadOnly); [by apply meets_selfIsolate|].
  apply Hk; [done| |done]. by rewrite Hwr, Hb.
Qed.
Lemma meets_pg_observe pg h k : postgresql c = Some pg → within h →
  (∀ h' running inRecovery, owns h' = owns h → writer h' = running && negb inRecovery → within h' →
     meets (k (running, inRecovery) h')) →
  meets (or_isolate c policy (pg_observe pg h) k).
Proof.
  intros Hpg Hw Hk. unfold pg_observe. destruct (pg_Status pg h) as [h' [[running inRecovery] e]] eqn:Hv.
  apply (law_pg_Status _ _ _ _ _ _ Hpg) in Hv as (Ho & Hwr & Hb). pose proof (within_owns _ _ Hw Ho).
  apply meets_or; [done|]. cbn. intros a Ha. destruct e; [done|]. injection Ha as <-. apply Hk; [done| |done].
  rewrite Hwr. by apply Hb.
Qed.
Lemma meets_converge_writable h k : within h →
  (∀ h', owns h' = owns h → within h' → meets (k h')) → meets (converge_writable c policy h k).
Proof.
  intros Hw Hk. unfold converge_writable. destruct (convergeWritableRestartState c h) as [h' errs] eqn:Hc.
  assert (owns h' = owns h) as Ho.
  { revert Hc. unfold convergeWritableRestartState. destruct (role_IsolationStatus c) as [inspect|] eqn:Hi; [|by intros [= <- _]].
    destruct (inspect h) as [h1 [st|e]] eqn:H1; apply (law_IsolationStatus _ _ _ _ Hi) in H1 as [Ho1 _]; [|by intros [= <- _]].
    destruct (writableRestartStateConverged st); [by intros [= <- _]|].
    destruct (role_PersistReadOnly c false h1) as [h2 [u|e]] eqn:H2; apply law_PersistReadOnly in H2 as [Ho2 _];
      [|intros [= <- _]; congruence].
    destruct (inspect h2) as [h3 [st3|e]] eqn:H3; apply (law_IsolationStatus _ _ _ _ Hi) in H3 as [Ho3 _];
      intros [= <- _]; congruence. }
  pose proof (within_owns _ _ Hw Ho). destruct errs; [by apply Hk|by apply meets_selfIsolate].
Qed.
End rules.

Ltac agent_rule :=
  match goal with
  | |- meets _ _ _ (or_isolate _ _ (vip_Status _ _) _) => apply meets_vip_Status
  | |- meets _ _ _ (or_isolate _ _ (vip_Acquire _ _) _) => apply meets_vip_Acquire
  | |- meets _ _ _ (or_isolate _ _ (vip_Release _ _) _) => apply meets_vip_Release
  | |- meets _ _ _ (or_isolate _ _ (role_PersistReadOnly _ _ _) _) => apply meets_PersistReadOnly
  | |- meets _ _ _ (or_isolate _ _ (role_Status _ _) _) => apply meets_role_Status
  | |- meets _ _ _ (or_isolate _ _ (pg_observe _ _) _) => eapply meets_pg_observe; [eassumption|..]
  | |- meets _ _ _ (require_writable _ _ _ _ _) => apply meets_require_writable
  | |- meets _ _ _ (converge_writable _ _ _ _) => apply meets_converge_writable
  | |- meets _ _ _ (selfIsolate _ _ _ _) => apply meets_selfIsolate
  | |- meets _ _ _ (finish _ _ _ _) => apply meets_finish
  | |- meets _ _ _ (if _ then _ else _) => case_match
  | |- within _ _ _ => first [assumption | apply within_allow; assumption]
  end; intros.
Ltac agent := repeat agent_rule; try done.

(** What the host looks like after an action the agent reports. *)
Definition settled (r : ReconcileResult) h : Prop :=
  match res_Action r with
  | ReconcileKeepVIP | ReconcileBootstrapPrimary | ReconcileRecoveryActivate => owns h = true ∧ writer h = true
  | ReconcileTransitionTarget => owns h = true → writer h = true
  | ReconcileTransitionSource => True
  | ReconcileSelfIsolate => owns h = false ∧ writer h = false
  | ReconcileRecoveryPrimary => owns h = false ∧ (pol_Engine policy ≠ EnginePostgreSQL → writer h = false)
  | ReconcileRecoveryReplica | ReconcileRecoveryPrepare => owns h = false
  | ReconcileActionOther _ => False
  end.
(** The decisions under which the VIP may be acquired. *)
Definition may_acquire (action : ReconcileAction) : bool :=
  (action == ReconcileKeepVIP) || (action == ReconcileBootstrapPrimary) || (action == ReconcileRecoveryActivate).

Section actions.
Variables (allow : bool) (h0 : H).
Notation meets := (meets allow h0 settled).
Notation within := (within allow h0).

Lemma meets_isolation h : within h → meets (convergeSelfIsolation c policy h).
Proof. intros Hw. apply meets_converge; [done|]. intros h' Ho Hwr r Hr. unfold settled. by rewrite Hr. Qed.

Lemma meets_acquire_missing b h action message : b = owns h → allow = true → writer h = true →
  may_acquire action = true → meets (acquire_missing c policy b h (finish policy action message)).
Proof.
  intros -> Hal Hwr Ha. unfold acquire_missing.
  assert (∀ h', owns h' = true → writer h' = true → settled (reported policy action message) h') as Hs.
  { intros h' Ho Hw'. unfold settled. cbn. by destruct action. }
  destruct (owns h) eqn:Ho; [apply meets_finish; [by apply within_allow|by apply Hs]|].
  apply meets_vip_Acquire; [done|]. intros h' u Ho' Hw'.
  apply meets_finish; [by apply within_allow|apply Hs; congruence].
Qed.

Lemma meets_keepVIP h : within h → allow = true → meets (keepVIP c policy h).
Proof. intros Hw Hal. unfold keepVIP. agent. apply meets_acquire_missing; congruence || done. Qed.
Lemma meets_source h : within h → meets (reconcileTransitionSource c policy h).
Proof. intros Hw. unfold reconcileTransitionSource. by agent. Qed.
Lemma meets_target h : within h → meets (reconcileTransitionTarget c policy h).
Proof.
  intros Hw. unfold reconcileTransitionTarget, release_owned. cbn zeta. agent; unfold settled; cbn in *; intros; congruence.
Qed.
Lemma meets_bootstrap h : within h → allow = true → meets (bootstrapPrimary c policy h).
Proof.
  intros Hw Hal. unfold bootstrapPrimary, release_owned.
  apply meets_role_Status; [done|]. intros h1 readOnly superReadOnly Ho1 Hw1 Hin1.
  destruct readOnly, superReadOnly; cbn [negb andb orb] in *; agent; unfold settled; cbn; split; congruence.
Qed.
Lemma meets_postgresql action h : within h →
  (action = ReconcileKeepVIP ∨ action = ReconcileBootstrapPrimary → allow = true) →
  meets (reconcilePostgreSQL c policy action h).
Proof.
  intros Hw Hal. unfold reconcilePostgreSQL. destruct (postgresql c) as [pg|] eqn:Hpg; [|by agent].
  destruct action; try by agent.
  all: eapply meets_pg_observe; [exact Hpg|done|]; intros h1 running inRecovery Ho1 Hw1 Hin1.
  all: destruct running, inRecovery; cbn [negb andb orb release_owned] in *; unfold release_owned; agent.
  all: try (apply meets_acquire_missing; [congruence|auto|congruence|done]).
  all: unfold settled; cbn; intros; congruence.
Qed.

Lemma meets_replica decision h : within h →
  rr_Action decision = ReconcileRecoveryReplica ∨ rr_Action decision = ReconcileRecoveryPrepare →
  meets (recovery_replica c policy decision h).
Proof.
  intros Hw Ha. unfold recovery_replica. case_match; [by apply meets_isolation|].
  apply meets_vip_Release; [done|]. intros h1 u Ho1 _ Hin1.
  destruct (role_RecoveryReplicaVerify c) as [verify|] eqn:Hv; [|by agent]. case_match; [by agent|].
  destruct (verify _ h1) as [h2 r2] eqn:H2. apply (law_ReplicaVerify _ _ _ _ _ Hv) in H2.
  pose proof (within_owns _ _ _ _ Hin1 H2). apply meets_or; [done|]. cbn. intros _ _. apply meets_finish; [done|].
  unfold settled. cbn. destruct Ha as [->| ->]; congruence.
Qed.
Lemma meets_primary decision h : within h → rr_Action decision = ReconcileRecoveryPrimary →
  meets (recovery_primary c policy decision h).
Proof.
  intros Hw Ha. unfold recovery_primary. cbn zeta. apply meets_vip_Release; [done|]. intros h1 u Ho1 _ Hin1.
  destruct (bool_decide_reflect (pol_Engine policy = EnginePostgreSQL)) as [Hpe|Hpe].
  - destruct (postgresql c) as [pg|] eqn:Hpg; cbn [mbind option_bind]; [|by agent].
    destruct (pg_RecoveryGuardVerify pg) as [verify|] eqn:Hv; [|by agent].
    destruct (verify _ h1) as [h2 r2] eqn:H2. apply (law_pg_Guard _ _ _ _ _ _ Hpg (or_introl Hv)) in H2.
    pose proof (within_owns _ _ _ _ Hin1 H2). apply meets_or; [done|]. cbn. intros _ _. apply meets_finish; [done|].
    unfold settled. cbn. rewrite Ha. split; [congruence|done].
  - apply meets_PersistReadOnly; [done|]. intros h2 u2 Ho2 Hw2 Hin2. specialize (Hw2 eq_refl).
    destruct (role_IsolationStatus c) as [inspect|] eqn:Hi; [|by agent].
    destruct (inspect h2) as [h3 r3] eqn:H3. apply (law_IsolationStatus _ _ _ _ Hi) in H3 as [Ho3 Hw3].
    pose proof (within_owns _ _ _ _ Hin2 Ho3). destruct r3; [case_match|]; agent.
    unfold settled. cbn. rewrite Ha. split; [congruence|intros _; congruence].
Qed.
Lemma meets_activate decision h : within h → allow = true → rr_Action decision = ReconcileRecoveryActivate →
  meets (recovery_activate c policy decision h).
Proof.
  intros Hw Hal Ha. unfold recovery_activate. case_match.
  - destruct (postgresql c) as [pg|] eqn:Hpg; cbn [mbind option_bind]; [|by agent].
    destruct (pg_RecoveryGuardRelease pg) as [release|] eqn:Hr; [|by agent].
    destruct (release _ h) as [h2 r2] eqn:H2. apply (law_pg_Guard _ _ _ _ _ _ Hpg (or_intror Hr)) in H2.
    pose proof (within_owns _ _ _ _ Hw H2). apply meets_or; [done|]. cbn. intros _ _. by apply meets_postgresql.
  - agent. unfold acquire_missing. agent. unfold settled. cbn. rewrite Ha. split; congruence.
Qed.
End actions.

(** The decision lets the agent acquire the VIP. *)
Definition permitted (decided : result E ReconcileResponse) : bool :=
  match decided with
  | Ok decision =>
      (rr_ClusterID decision == pol_ClusterID policy) && (rr_InstanceID decision == pol_InstanceID policy) &&
      ValidResourceID (rr_LeaseID decision) && may_acquire (rr_Action decision)
  | Err _ => false
  end.

Lemma within_refl allow h : within allow h h.
Proof. by intros _ ?. Qed.
Lemma meets_recovery allow decision h : within allow h h → recovery_action (rr_Action decision) = true →
  (ValidResourceID (rr_LeaseID decision) = true → rr_Action decision = ReconcileRecoveryActivate → allow = true) →
  meets allow h settled (reconcileRecovery c policy decision h).
Proof.
  intros Hw Hr Hal. unfold reconcileRecovery.
  destruct (ValidResourceID (rr_LeaseID decision)); cbn [negb orb]; [|by apply meets_selfIsolate].
  case_match; [by apply meets_selfIsolate|].
  destruct (rr_Action decision) eqn:Ha; try done;
    [by apply meets_primary|apply meets_activate; auto|apply meets_replica; auto..].
Qed.

Lemma reconcile_meets decided h :
  match reconcile c policy decided h with
  | (h', (None, errs)) => h' = h ∧ errs = [ErrPolicyIdentity]
  | (h', (Some r, errs)) => meets (permitted decided) h settled (h', (r, errs))
  end.
Proof.
  unfold reconcile. destruct (_ || _) in |- *; [done|].
  enough (meets (permitted decided) h settled (act_on c policy decided h)) as Hm
    by (by destruct (act_on c policy decided h) as [h' [r errs]]).
  pose proof (within_refl (permitted decided) h) as Hw. unfold act_on.
  destruct decided as [decision|e]; [|by apply meets_selfIsolate].
  assert (∀ cause, meets (permitted (Ok decision)) h settled (selfIsolate c policy cause h)) as Hi
    by (intros; by apply meets_selfIsolate).
  unfold permitted in *. destruct (bool_decide_reflect (rr_ClusterID decision = pol_ClusterID policy)); cbn [negb orb andb] in *; [|done].
  destruct (bool_decide_reflect (rr_InstanceID decision = pol_InstanceID policy)); cbn [negb orb andb] in *; [|done].
  destruct (bool_decide_reflect (rr_Action decision = ReconcileSelfIsolate)) as [|Hns]; [by apply meets_isolation|].
  destruct (recovery_action (rr_Action decision)) eqn:Hr.
  { apply meets_recovery; [done|done|]. intros -> Ha. by rewrite Ha. }
  destruct (ValidResourceID (rr_LeaseID decision)); cbn [negb orb andb] in *; [|done].
  destruct (ownership_action (rr_Action decision)) eqn:Ho; cbn [negb]; [|done].
  case_match; [apply meets_postgresql; [done|]; by intros [->| ->]|].
  destruct (rr_Action decision) eqn:Ha; try done;
    [by apply meets_keepVIP|by apply meets_target|by apply meets_source|by apply meets_bootstrap].
Qed.

(** C29: The agent makes the host agree with the decision: when [reconcile]
    reports no error, the controllers had answered for this cluster and
    instance, and the host is what the reported action says: on keep_vip,
    bootstrap and activation it has the VIP and a writable database, on a
    transition target the VIP only in front of a writable database, on the
    other recovery permits no VIP, and on self-isolation neither.  And whatever
    happens, failures included, the host gains the VIP only under a decision
    for this very instance that carries a lease and allows it. *)
Theorem agent_converges decided h h' result errs :
  reconcile c policy decided h = (h', (result, errs)) →
  (errs = [] → ∃ decision r, decided = Ok decision ∧ result = Some r ∧
     rr_ClusterID decision = pol_ClusterID policy ∧ rr_InstanceID decision = pol_InstanceID policy ∧ settled r h') ∧
  (owns h = false → owns h' = true → permitted decided = true).
Proof.
  intros Hrun. pose proof (reconcile_meets decided h) as Hm. rewrite Hrun in Hm. destruct result as [r|].
  - destruct Hm as (_ & Hw & Hs). split.
    + intros ->. assert (∃ decision, decided = Ok decision ∧ rr_ClusterID decision = pol_ClusterID policy ∧
        rr_InstanceID decision = pol_InstanceID policy) as (d & -> & ? & ?); [|exists d, r; split_and!; try done; by apply Hs].
      revert Hrun. unfold reconcile. destruct (_ || _); [done|]. destruct (act_on c policy decided h) as [h1 [r1 errs]] eqn:Ha.
      intros [= -> -> ->]. unfold act_on in Ha.
      assert (∀ cause, selfIsolate c policy cause h ≠ (h', (r, []))) as Hne
        by (intros cause; unfold selfIsolate; by destruct (convergeSelfIsolation c policy h) as [? [? ?]]).
      destruct decided as [d|e]; [|by apply Hne in Ha].
      destruct (bool_decide_reflect (rr_ClusterID d = pol_ClusterID policy)), (bool_decide_reflect (rr_InstanceID d = pol_InstanceID policy));
        cbn [negb orb] in Ha; eauto; by apply Hne in Ha.
    + intros Ho Ho'. destruct (permitted decided); [done|]. specialize (Hw eq_refl Ho'). congruence.
  - destruct Hm as [-> ->]. split; [done|congruence].
Qed.

(** The agent fails closed: when anything fails, the host has last been
    through the self-isolation of this policy, which releases the VIP and
    makes the database read-only (or stops PostgreSQL), and every failure of
    those steps is among the reported errors: if the self-isolation itself
    reports none, the host has neither the VIP nor a writable database. *)
Theorem agent_fails_closed decided h h' r errs :
  reconcile c policy decided h = (h', (Some r, errs)) → errs ≠ [] →
  ∃ h0 cause isolationErr, convergeSelfIsolation c policy h0 = (h', (r, isolationErr)) ∧
    (errs = isolationErr ∨ errs = ErrSelfIsolated :: cause ++ isolationErr) ∧
    res_Action r = ReconcileSelfIsolate ∧ (isolationErr = [] → owns h' = false ∧ writer h' = false).
Proof.
  intros Hrun Hne. pose proof (reconcile_meets decided h) as Hm. rewrite Hrun in Hm.
  destruct Hm as ([|(h0 & cause & ie & Hc & He)] & _); [done|]. exists h0, cause, ie.
  destruct (converge_spec h0 _ Hc) as (_ & Ha & Hs). by split_and!.
Qed.
End proofs.

(** ** A concrete host *)

(** A MySQL host whose calls fail when the script says so; a failed acquisition
    may have added the VIP. *)
Record wn_host : Type := mkHost { wn_owns : bool; wn_readOnly : bool; wn_script : list bool }.
Definition wn_pop (h : wn_host) : wn_host := mkHost (wn_owns h) (wn_readOnly h) (tail (wn_script h)).
Definition wn_call {A} (f : wn_host → wn_host * A) : call wn_host unit A := λ h,
  if hd false (wn_script h) then (wn_pop h, Err tt) else let '(h', a) := f (wn_pop h) in (h', Ok a).
Definition wn_status (h : wn_host) : MySQLIsolationStatus :=
  mkIsolationStatus true true (wn_readOnly h) (wn_readOnly h) true (wn_readOnly h).
Definition wn_controllers : Controllers wn_host unit := mkControllers wn_host unit
  (wn_call (λ h, (h, wn_owns h)))
  (λ h, (mkHost true (wn_readOnly h) (tail (wn_script h)), if hd false (wn_script h) then Err tt else Ok tt))
  (wn_call (λ h, (mkHost false (wn_readOnly h) (wn_script h), tt)))
  (λ b, wn_call (λ h, (mkHost (wn_owns h) b (wn_script h), tt)))
  (wn_call (λ h, (h, (wn_readOnly h, wn_readOnly h))))
  (Some (wn_call (λ h, (h, wn_status h)))) None None.
#[export] Instance wn_laws : ControllerLaws wn_controllers wn_owns (λ h, negb (wn_readOnly h)).
Proof.
  split; try done; cbn; unfold wn_call; intros; repeat case_match; simplify_eq/=; split_and!; intros; simplify_eq/=; try done.
  all: try (by match goal with h : wn_host |- _ => destruct (wn_readOnly h) end).
  all: repeat case_match; simplify_eq/=; done.
Qed.

Definition wn_policy : ClusterPolicy :=
  mkPolicy "11111111-1111-4111-8111-111111111111" "33333333-3333-4333-8333-333333333333" EngineMySQL.
Definition wn_decision : result unit ReconcileResponse := Ok
  (mkReconcileResponse "" (pol_ClusterID wn_policy) (pol_InstanceID wn_policy) ReconcileKeepVIP "lease"
     "66666666-6666-4666-8666-666666666666" 0 "" "").
(** A fenced writer becomes the owner; a failure in between isolates it. *)
Definition wn_run (script : list bool) := reconcile wn_controllers wn_policy wn_decision (mkHost false true script).

Lemma agent_converges_witness :
  wn_run [] = (mkHost true false [], (Some (mkReconcileResult (pol_ClusterID wn_policy) (pol_InstanceID wn_policy)
    ReconcileKeepVIP "active majority lease authorizes local VIP ownership"), [])) ∧
  permitted wn_policy wn_decision = true.
Proof.
  split; [reflexivity|].
  exact (proj2 (agent_converges wn_controllers wn_policy wn_owns (λ h, negb (wn_readOnly h)) wn_decision
    (mkHost false true []) (mkHost true false []) _ _ eq_refl) eq_refl eq_refl).
Defined.
Definition wn_failing : list bool := [false; false; false; false; false; true].
Definition wn_isolated : ReconcileResult := mkReconcileResult (pol_ClusterID wn_policy) (pol_InstanceID wn_policy)
  ReconcileSelfIsolate "VIP released and MySQL persisted read-only".
Lemma agent_fails_closed_witness :
  wn_run wn_failing = (mkHost false true [], (Some wn_isolated, [ErrSelfIsolated; ErrHost tt])) ∧
  ∃ h0 cause isolationErr, convergeSelfIsolation wn_controllers wn_policy h0 =
    (mkHost false true [], (wn_isolated, isolationErr)) ∧
    ([ErrSelfIsolated; ErrHost tt] = isolationErr ∨ [ErrSelfIsolated; ErrHost tt] = ErrSelfIsolated :: cause ++ isolationErr).
Proof.
  assert (wn_run wn_failing = (mkHost false true [], (Some wn_isolated, [ErrSelfIsolated; ErrHost tt]))) as H by reflexivity.
  split; [exact H|].
  destruct (agent_fails_closed wn_controllers wn_policy wn_owns (λ h, negb (wn_readOnly h)) wn_decision
    (mkHost false true wn_failing) (mkHost false true []) wn_isolated _ H) as (h0 & cause & ie & Hc & He & _);
    [discriminate|]. exact (ex_intro _ h0 (ex_intro _ cause (ex_intro _ ie (conj Hc He)))).
Defined.
