(* ===== verification/Candidates.v ===== *)
(** * Choosing the MySQL failover candidate

    [adapters/mysql/candidates.go]: every instance is assessed against the
    failed or current primary, the assessments are sorted and the eligible
    ones ranked.  [internal/recovery/mysql_selector.go]: the automatic failover
    asks for the assessments of a topology in which the source has failed and
    no other primary is observed, and takes the one of rank 1.

    The theorems: the ranking is total, independent of the order of the
    inventory and puts no better candidate behind a worse one; what selection
    guarantees of the instance it names, down to the transactions it has
    executed. *)
From S2P Require Import Prelude GoStd Model Gtid.
From stdpp Require Import pretty.
#[local] Open Scope Z_scope.

(** [adapter.CandidateRequest]. *)
Record CandidateRequest : Type := mkCandidateRequest {
  creq_Cluster : DatabaseCluster; creq_Primary : DatabaseInstance; creq_Instances : list DatabaseInstance;
  creq_Links : list ReplicationLink; creq_Probes : list ProbeStatus; creq_ObservedAt : Time;
  creq_Policy : CandidatePolicy
}.

Definition dataLossRiskNone : string := "none".
Definition dataLossRiskUnknown : string := "unknown".

Record candidateEvaluation : Type := mkEvaluation {
  ce_assessment : CandidateAssessment; ce_hasWarnings : bool; ce_missingTransactions : uint64;
  ce_lagSeconds : Z; ce_exactVersion : bool
}.
#[export] Instance eta_candidateEvaluation : Settable candidateEvaluation := λ e,
  mkEvaluation (ce_assessment e) (ce_hasWarnings e) (ce_missingTransactions e) (ce_lagSeconds e) (ce_exactVersion e).

(** ** Probes and metadata *)

(** A probe of the current observation. *)
Definition current_probe (observedAt : Time) (probe : ProbeStatus) : bool := Equal (probe_DiscoveryObservedAt probe) observedAt.
Definition healthy_probe (probe : ProbeStatus) : bool := health_State (probe_Health probe) == HealthHealthy.

Definition hasIncompleteProbeCoverage (probes : list ProbeStatus) (observedAt : Time) : bool :=
  match probes with
  | [] => true
  | _ => existsb (λ probe, negb (healthy_probe probe) || IsZero observedAt || negb (current_probe observedAt probe)) probes
  end.

(** The loop of both functions below: some probe is bound to the instance, and each that is passes [ok]. *)
Definition bound_probe (ok : ProbeStatus → bool) (probes : list ProbeStatus) (instanceID : ResourceID) : bool :=
  let bound := List.filter (λ probe, probe_InstanceID probe == instanceID) probes in
  match bound with [] => false | _ => forallb ok bound end.
Definition hasHealthyBoundProbe (probes : list ProbeStatus) (instanceID : ResourceID) (observedAt : Time) : bool :=
  negb (IsZero observedAt) &&
  bound_probe (λ probe, healthy_probe probe && current_probe observedAt probe) probes instanceID.
Definition hasReachableBoundProbe (probes : list ProbeStatus) (instanceID : ResourceID) (observedAt : Time) : bool :=
  negb (IsZero observedAt) &&
  bound_probe (λ probe, current_probe observedAt probe &&
    (healthy_probe probe || (health_State (probe_Health probe) == HealthDegraded))) probes instanceID.

(** Whether the instance is known to be read-only: [None] when either setting is unknown. *)
Definition candidateReadOnly (metadata : gmap string string) : option bool :=
  readOnly ← ParseBool (TrimSpace (mget metadata "read_only"));
  superReadOnly ← ParseBool (TrimSpace (mget metadata "super_read_only"));
  Some (readOnly || superReadOnly).

Definition mysqlReleaseFamily (version : string) : option string :=
  match Split "." version with
  | major :: minor :: _ =>
      major ← ParseUint major 10 64;
      minor ← ParseUint minor 10 64;
      Some (pretty major +:+ "." +:+ pretty minor)
  | _ => None
  end.

Definition server_uuid (identity : EngineIdentity) : string := ToLower (TrimSpace (mget identity "server_uuid")).
Definition gtid_mode_on (metadata : gmap string string) : bool := EqualFold (TrimSpace (mget metadata "gtid_mode")) "ON".

(** ** One candidate *)

Definition checked_as (name : string) (ok : bool) (pass fail : string) : Check :=
  if ok then mkCheck name CheckPass pass else mkCheck name CheckFail fail.

(** [addCheck]. *)
Definition addCheck (evaluation : candidateEvaluation) (check : Check) : candidateEvaluation :=
  let evaluation := evaluation <| ce_assessment ::= λ a, a <| assess_Checks ::= λ l, l ++ [check] |> |> in
  let evaluation := if check_Status check == CheckFail
    then evaluation <| ce_assessment ::= λ a, a <| assess_Eligible := false |> |> else evaluation in
  if check_Status check == CheckWarn then evaluation <| ce_hasWarnings := true |> else evaluation.

Section candidate.
Variables (request : CandidateRequest) (instance : DatabaseInstance) (incompleteCoverage : bool).
Let replication := inst_Replication instance.
Let primary := creq_Primary request.
Let policy := creq_Policy request.

Definition primaryFailed : bool :=
  (health_State (inst_Health primary) == HealthUnhealthy) || (health_State (inst_Health primary) == HealthUnknown).
Definition healthyBoundProbe : bool :=
  hasHealthyBoundProbe (creq_Probes request) (inst_ResourceID instance) (creq_ObservedAt request).
Definition sourceReconnect : bool :=
  policy_AllowSourceDisconnected policy && primaryFailed &&
  hasReachableBoundProbe (creq_Probes request) (inst_ResourceID instance) (creq_ObservedAt request) &&
  (repl_IOThread replication == ThreadConnecting) && (repl_SQLThread replication == ThreadRunning) &&
  (TrimSpace (repl_LastSQLError replication) == "").
Definition primaryServerUUID : string := server_uuid (inst_EngineIdentity primary).

Definition membership_check : Check :=
  checked_as "inventory_membership"
    (ValidResourceID (inst_ResourceID instance) && (inst_ClusterID instance == cluster_ResourceID (creq_Cluster request)) &&
     (inst_Engine instance == EngineMySQL) && (cluster_Engine (creq_Cluster request) == EngineMySQL) &&
     (healthyBoundProbe || sourceReconnect))
    "candidate belongs to the selected MySQL cluster inventory"
    "candidate lacks healthy bound probe evidence for the selected MySQL cluster inventory".
Definition role_check : Check :=
  checked_as "candidate_role" (inst_Role instance == RoleReplica) "candidate is a replica" "candidate is not a replica".
Definition reachability_check : Check :=
  if healthyBoundProbe then mkCheck "reachability" CheckPass "current bound probe confirms candidate reachability"
  else if sourceReconnect then
    mkCheck "reachability" CheckWarn "current bound probe confirms the candidate is reachable while its failed source reconnects"
  else mkCheck "reachability" CheckFail "current bound probe does not confirm candidate reachability".
Definition promotion_check : Check :=
  if inst_PromotionEligible instance then
    mkCheck "promotion_eligibility" CheckPass "candidate is marked promotion eligible"
  else if sourceReconnect then
    mkCheck "promotion_eligibility" CheckWarn "failover eligibility is derived from current source-loss evidence"
  else mkCheck "promotion_eligibility" CheckFail "candidate is not marked promotion eligible".
Definition read_only_check : Check :=
  checked_as "replica_read_only" (candidateReadOnly (inst_EngineMetadata instance) == Some true)
    "candidate is read-only" "candidate must have current read-only evidence".
Definition maintenance_check : Check :=
  checked_as "maintenance" (negb (inst_Maintenance instance)) "candidate is not in maintenance" "candidate is in maintenance".
Definition threads_check : Check :=
  if (repl_IOThread replication == ThreadRunning) && (repl_SQLThread replication == ThreadRunning) then
    mkCheck "replication_threads" CheckPass "replication IO and SQL threads are running"
  else if sourceReconnect then
    mkCheck "replication_threads" CheckWarn "SQL apply is running while the IO thread reconnects to the failed primary"
  else mkCheck "replication_threads" CheckFail "replication IO and SQL threads must both be running".
Definition sql_error_check : Check :=
  checked_as "replication_sql_error" (TrimSpace (repl_LastSQLError replication) == "")
    "replication SQL channel has no current error" "replication SQL channel has an unresolved error".
Definition source_check : Check :=
  checked_as "replication_source"
    ((primaryServerUUID != "") && (server_uuid (repl_SourceIdentity replication) == primaryServerUUID))
    "candidate replicates from the current primary" "candidate replication source does not match the current primary".

(** The replication lag: its check and the lag the candidates are ordered by. *)
Definition lag_check : Check * Z :=
  match repl_LagSeconds replication with
  | Some lag =>
      if lag <? 0 then (mkCheck "replication_lag" CheckFail "candidate replication lag is unknown or invalid", 0)
      else if policy_MaximumLagSeconds policy <? lag then
        (mkCheck "replication_lag" CheckFail ("candidate lag " +:+ pretty lag +:+ "s exceeds policy maximum " +:+
           pretty (policy_MaximumLagSeconds policy) +:+ "s"), lag)
      else if 0 <? lag then
        (mkCheck "replication_lag" CheckWarn ("candidate is " +:+ pretty lag +:+ "s behind the current primary"), lag)
      else (mkCheck "replication_lag" CheckPass "candidate has zero observed replication lag", lag)
  | None =>
      (if sourceReconnect then
         mkCheck "replication_lag" CheckWarn "replication lag is unavailable after source loss; GTID position determines data-loss risk"
       else mkCheck "replication_lag" CheckFail "candidate replication lag is unknown or invalid", 0)
  end.
Definition gtid_mode_check : Check :=
  checked_as "gtid_mode"
    (negb (policy_RequireGTID policy) || (gtid_mode_on (inst_EngineMetadata primary) && gtid_mode_on (inst_EngineMetadata instance)))
    "GTID mode satisfies candidate policy" "GTID mode is required on the primary and candidate".

(** The histories: the check, the data-loss risk and the missing transactions. *)
Definition gtid_fail (message : string) : Check := mkCheck "gtid_consistency" CheckFail message.
Definition limits_exceeded : string := "primary or candidate GTID transaction count exceeds supported limits".
Definition gtid_check : Check * string * uint64 :=
  match ParseGTIDSet (mget (inst_EngineMetadata primary) "gtid_executed"), ParseGTIDSet (repl_ExecutedPosition replication) with
  | Ok primaryGTID, Ok candidateGTID =>
      match CompareGTIDSets primaryGTID candidateGTID with
      | Err _ => (gtid_fail limits_exceeded, dataLossRiskUnknown, 0)
      | Ok comparison =>
          let missing := MissingTransactions comparison in
          let risk := if 0 <? missing then pretty missing +:+ " missing transactions"
            else if ErrantTransactions comparison =? 0 then dataLossRiskNone else dataLossRiskUnknown in
          if 0 <? ErrantTransactions comparison then
            match LikelyTemporalSamplingSkew primaryGTID candidateGTID primaryServerUUID
                    (health_ObservedAt (inst_Health primary)) (health_ObservedAt (inst_Health instance)) with
            | Err _ => (gtid_fail limits_exceeded, risk, missing)
            | Ok true =>
                (mkCheck "gtid_consistency" CheckWarn
                   "candidate has source-owned GTIDs from a later sample; live validation is required before execution",
                 "live GTID validation required", missing)
            | Ok false => (gtid_fail ("candidate has " +:+ pretty (ErrantTransactions comparison) +:+ " errant transactions"), risk, missing)
            end
          else if 0 <? missing then
            (mkCheck "gtid_consistency" CheckWarn ("candidate is missing " +:+ pretty missing +:+ " transactions"), risk, missing)
          else (mkCheck "gtid_consistency" CheckPass "candidate has no missing or errant transactions", risk, missing)
      end
  | _, _ => (gtid_fail "primary or candidate GTID position is invalid", dataLossRiskUnknown, 0)
  end.

Definition version_check : Check * bool :=
  let primaryVersion := TrimSpace (mget (inst_EngineMetadata primary) "version") in
  let candidateVersion := TrimSpace (mget (inst_EngineMetadata instance) "version") in
  match mysqlReleaseFamily primaryVersion, mysqlReleaseFamily candidateVersion with
  | Some primaryFamily, Some candidateFamily =>
      if primaryFamily == candidateFamily then
        (mkCheck "version_compatibility" CheckPass ("candidate is in MySQL release family " +:+ candidateFamily),
         primaryVersion == candidateVersion)
      else (mkCheck "version_compatibility" CheckFail "candidate MySQL release family is incompatible with the current primary", false)
  | _, _ => (mkCheck "version_compatibility" CheckFail "candidate MySQL release family is incompatible with the current primary", false)
  end.
Definition coverage_check : Check :=
  if incompleteCoverage then mkCheck "probe_coverage" CheckWarn "one or more explicit inventory probes are incomplete"
  else mkCheck "probe_coverage" CheckPass "explicit probe observations are complete".

Definition candidate_checks : list Check :=
  [membership_check; role_check; reachability_check; promotion_check; read_only_check; maintenance_check; threads_check;
   sql_error_check; source_check; lag_check.1; gtid_mode_check; gtid_check.1.1; version_check.1; coverage_check].
Definition evaluateCandidate : candidateEvaluation :=
  let start := mkEvaluation (mkCandidateAssessment (inst_ResourceID instance) true 0 "low" gtid_check.1.2 []) false
                 gtid_check.2 lag_check.2 version_check.2 in
  let evaluation := foldl addCheck start candidate_checks in
  if negb (assess_Eligible (ce_assessment evaluation)) then
    evaluation <| ce_assessment ::= λ a, a <| assess_RiskLevel := "blocked" |> |>
  else if ce_hasWarnings evaluation then
    evaluation <| ce_assessment ::= λ a, a <| assess_RiskLevel := "warning" |> |>
  else evaluation.
End candidate.

(** ** The order of the candidates *)

(** The function [sort.Slice] is given: [left] goes before [right]. *)
Definition evaluation_less (left_ right_ : candidateEvaluation) : bool :=
  let l := ce_assessment left_ in let r := ce_assessment right_ in
  if negb (eqb (assess_Eligible l) (assess_Eligible r)) then assess_Eligible l
  else if negb (assess_Eligible l) then String.ltb (assess_InstanceID l) (assess_InstanceID r)
  else if negb (eqb (ce_hasWarnings left_) (ce_hasWarnings right_)) then negb (ce_hasWarnings left_)
  else if negb (ce_missingTransactions left_ =? ce_missingTransactions right_) then
    ce_missingTransactions left_ <? ce_missingTransactions right_
  else if negb (ce_lagSeconds left_ =? ce_lagSeconds right_) then ce_lagSeconds left_ <? ce_lagSeconds right_
  else if negb (eqb (ce_exactVersion left_) (ce_exactVersion right_)) then ce_exactVersion left_
  else String.ltb (assess_InstanceID l) (assess_InstanceID r).
(** [right_] need not go before [left_]. *)
Definition evaluation_le (left_ right_ : candidateEvaluation) : Prop := evaluation_less right_ left_ = false.
#[export] Instance evaluation_le_dec : RelDecision evaluation_le.
Proof. intros a b. unfold evaluation_le. apply _. Defined.

(** The loop that ranks the eligible evaluations in order. *)
Fixpoint rank_from (nextRank : Z) (evaluations : list candidateEvaluation) : list CandidateAssessment :=
  match evaluations with
  | [] => []
  | evaluation :: evaluations =>
      let assessment := ce_assessment evaluation in
      if assess_Eligible assessment
      then assessment <| assess_Rank := nextRank |> :: rank_from (nextRank + 1) evaluations
      else assessment :: rank_from nextRank evaluations
  end.

Definition evaluations_of (request : CandidateRequest) : list candidateEvaluation :=
  let incompleteCoverage := hasIncompleteProbeCoverage (creq_Probes request) (creq_ObservedAt request) in
  (λ instance, evaluateCandidate request instance incompleteCoverage) <$> creq_Instances request.
Definition evaluateCandidates (request : CandidateRequest) : list CandidateAssessment :=
  rank_from 1 (merge_sort evaluation_le (evaluations_of request)).

(** ** The selector of an automatic failover *)

Inductive selector_error (E : Type) : Type :=
| ErrSelectorEngine | ErrSelectorScope | ErrEmptySnapshot | ErrNoSource | ErrInstanceScope | ErrOtherPrimary
| ErrSourceOutside | ErrSourceNotFailed | ErrNoEligible | ErrEvaluator (e : E).
Arguments ErrSelectorEngine {E}. Arguments ErrSelectorScope {E}. Arguments ErrEmptySnapshot {E}. Arguments ErrNoSource {E}.
Arguments ErrInstanceScope {E}. Arguments ErrOtherPrimary {E}. Arguments ErrSourceOutside {E}.
Arguments ErrSourceNotFailed {E}. Arguments ErrNoEligible {E}. Arguments ErrEvaluator {E}.

(** [recovery.CandidateEvaluator]. *)
Definition CandidateEvaluator (E : Type) : Type := CandidateRequest → result E (list CandidateAssessment).
Record DatabaseCandidateSelector (E : Type) : Type := mkSelector {
  sel_evaluator : CandidateEvaluator E; sel_engine : Engine; sel_policy : CandidatePolicy
}.
Arguments mkSelector {E}. Arguments sel_evaluator {E}. Arguments sel_engine {E}. Arguments sel_policy {E}.
Definition NewMySQLCandidateSelector {E} (evaluator : CandidateEvaluator E) : DatabaseCandidateSelector E :=
  mkSelector evaluator EngineMySQL (mkCandidatePolicy 30 true true).
Definition NewPostgreSQLCandidateSelector {E} (evaluator : CandidateEvaluator E) : DatabaseCandidateSelector E :=
  mkSelector evaluator EnginePostgreSQL (mkCandidatePolicy 0 false true).

Section select.
Context {E : Type}.
Variables (selector : DatabaseCandidateSelector E) (cluster : DatabaseCluster) (snapshot : TopologySnapshot) (sourceID : ResourceID).

(** The loop over the snapshot: the primary found so far and the candidates. *)
Definition select_step (acc : DatabaseInstance * list DatabaseInstance) (instance : DatabaseInstance)
  : result (selector_error E) (DatabaseInstance * list DatabaseInstance) :=
  _ ← reject (negb (ValidResourceID (inst_ResourceID instance)) || (inst_ClusterID instance != cluster_ResourceID cluster) ||
              (inst_Engine instance != cluster_Engine cluster)) ErrInstanceScope;
  if inst_ResourceID instance == sourceID then Ok (instance, acc.2)
  else
    _ ← reject (inst_Role instance == RolePrimary) ErrOtherPrimary;
    Ok (acc.1, acc.2 ++ [instance]).

Definition candidate_request (primary : DatabaseInstance) (candidates : list DatabaseInstance) : CandidateRequest :=
  mkCandidateRequest cluster primary candidates (topo_Links snapshot) (topo_Probes snapshot) (topo_ObservedAt snapshot)
    (sel_policy selector).
Definition best (assessment : CandidateAssessment) : Prop := assess_Eligible assessment = true ∧ assess_Rank assessment = 1.

Definition Select : result (selector_error E) ResourceID :=
  _ ← reject (cluster_Engine cluster != sel_engine selector) ErrSelectorEngine;
  _ ← reject (negb (ValidResourceID (cluster_ResourceID cluster)) || (topo_ClusterID snapshot != cluster_ResourceID cluster))
        ErrSelectorScope;
  _ ← reject (Nat.eqb (length (topo_Instances snapshot)) 0) ErrEmptySnapshot;
  _ ← require (ValidResourceID sourceID) ErrNoSource;
  found ← for_each select_step (zero_DatabaseInstance, []) (topo_Instances snapshot);
  let '(primary, candidates) := found in
  _ ← require (ValidResourceID (inst_ResourceID primary)) ErrSourceOutside;
  _ ← require ((health_State (inst_Health primary) == HealthUnhealthy) ||
               (health_State (inst_Health primary) == HealthUnknown)) ErrSourceNotFailed;
  match sel_evaluator selector (candidate_request primary candidates) with
  | Err e => Err (ErrEvaluator e)
  | Ok assessments =>
      match list_find best assessments with
      | Some (_, assessment) => Ok (assess_InstanceID assessment)
      | None => Err ErrNoEligible
      end
  end.
End select.

(** ** Assessing *)

Lemma addCheck_spec e c :
  let e' := addCheck e c in
  assess_InstanceID (ce_assessment e') = assess_InstanceID (ce_assessment e) ∧
  assess_Rank (ce_assessment e') = assess_Rank (ce_assessment e) ∧
  ce_missingTransactions e' = ce_missingTransactions e ∧ ce_lagSeconds e' = ce_lagSeconds e ∧
  assess_Checks (ce_assessment e') = assess_Checks (ce_assessment e) ++ [c] ∧
  (assess_Eligible (ce_assessment e') = true ↔ assess_Eligible (ce_assessment e) = true ∧ check_Status c ≠ CheckFail) ∧
  (ce_hasWarnings e' = true ↔ ce_hasWarnings e = true ∨ check_Status c = CheckWarn).
Proof.
  unfold addCheck. cbn zeta. repeat case_bool_decide; cbn; (split_and!; [done..| |]); intuition congruence.
Qed.
Lemma addChecks_spec l e :
  let e' := foldl addCheck e l in
  assess_InstanceID (ce_assessment e') = assess_InstanceID (ce_assessment e) ∧
  assess_Rank (ce_assessment e') = assess_Rank (ce_assessment e) ∧
  ce_missingTransactions e' = ce_missingTransactions e ∧ ce_lagSeconds e' = ce_lagSeconds e ∧
  assess_Checks (ce_assessment e') = assess_Checks (ce_assessment e) ++ l ∧
  (assess_Eligible (ce_assessment e') = true ↔
     assess_Eligible (ce_assessment e) = true ∧ ∀ c, c ∈ l → check_Status c ≠ CheckFail) ∧
  (ce_hasWarnings e' = true ↔ ce_hasWarnings e = true ∨ ∃ c, c ∈ l ∧ check_Status c = CheckWarn).
Proof.
  revert e. induction l as [|c l IH]; intros e; cbn.
  { rewrite app_nil_r. split_and!; try done; set_solver. }
  destruct (addCheck_spec e c) as (H1 & H2 & H3 & H4 & H5 & H6 & H7).
  destruct (IH (addCheck e c)) as (I1 & I2 & I3 & I4 & I5 & I6 & I7).
  rewrite I1, I2, I3, I4, I5, I6, I7, H1, H2, H3, H4, H5, H6, H7, <- app_assoc.
  split_and!; try done; set_solver.
Qed.

Section assessed.
Variables (request : CandidateRequest) (instance : DatabaseInstance) (incomplete : bool).
Let e := evaluateCandidate request instance incomplete.
Let checks := candidate_checks request instance incomplete.

Lemma evaluateCandidate_spec :
  assess_InstanceID (ce_assessment e) = inst_ResourceID instance ∧ assess_Rank (ce_assessment e) = 0 ∧
  ce_missingTransactions e = (gtid_check request instance).2 ∧ ce_lagSeconds e = (lag_check request instance).2 ∧
  assess_Checks (ce_assessment e) = checks ∧
  (assess_Eligible (ce_assessment e) = true ↔ ∀ c, c ∈ checks → check_Status c ≠ CheckFail) ∧
  (ce_hasWarnings e = true ↔ ∃ c, c ∈ checks ∧ check_Status c = CheckWarn).
Proof.
  subst e checks. unfold evaluateCandidate. generalize (candidate_checks request instance incomplete) as l.
  generalize (gtid_check request instance) (lag_check request instance) (version_check request instance).
  intros [[g risk] missing] [lc lag] [vc exact] l. cbn [fst snd].
  destruct (addChecks_spec l (mkEvaluation (mkCandidateAssessment (inst_ResourceID instance) true 0 "low" risk []) false missing lag exact))
    as (H1 & H2 & H3 & H4 & H5 & H6 & H7).
  cbn zeta in *. revert H1 H2 H3 H4 H5 H6 H7. generalize (foldl addCheck
    (mkEvaluation (mkCandidateAssessment (inst_ResourceID instance) true 0 "low" risk []) false missing lag exact) l).
  intros [[id el rk rl dl cs] w m lg ex]; cbn. intros -> -> -> -> -> H6 H7.
  destruct el, w; cbn; (split_and!; try done); clear -H6 H7; naive_solver.
Qed.
End assessed.

(** ** The order is total *)

(** Comparing by [f] first and by [R] among equals. *)
Definition lex {A} (f : A → Z) (R : relation A) (a b : A) : Prop := f a < f b ∨ (f a = f b ∧ R a b).
#[export] Instance lex_trans {A} (f : A → Z) R : Transitive R → Transitive (lex f R).
Proof. intros HR a b c [?|[? ?]] [?|[? ?]]; unfold lex; [left; lia..|]. right. split; [lia|by etrans]. Qed.
#[export] Instance lex_total {A} (f : A → Z) R : Total R → Total (lex f R).
Proof.
  intros HR a b. unfold lex. destruct (Z.lt_trichotomy (f a) (f b)) as [?|[?|?]]; [auto| |auto].
  destruct (HR a b); auto.
Qed.

Definition bz (b : bool) : Z := if b then 0 else 1.
Definition by_id : relation candidateEvaluation := λ a b,
  id_le (assess_InstanceID (ce_assessment a)) (assess_InstanceID (ce_assessment b)).
(** The keys the eligible evaluations are compared by, the others all alike. *)
Definition among_eligible (f : candidateEvaluation → Z) (e : candidateEvaluation) : Z :=
  if assess_Eligible (ce_assessment e) then f e else 0.
Definition key_order : relation candidateEvaluation :=
  lex (λ e, bz (assess_Eligible (ce_assessment e)))
  (lex (among_eligible (λ e, 1 - bz (ce_hasWarnings e)))
  (lex (among_eligible ce_missingTransactions)
  (lex (among_eligible ce_lagSeconds)
  (lex (among_eligible (λ e, bz (ce_exactVersion e))) by_id)))).

Lemma ltb_id a b : String.ltb b a = false ↔ id_le a b.
Proof.
  unfold id_le, String.ltb, String.leb. rewrite (String.compare_antisym b a). destruct (String.compare a b); cbn; intuition done.
Qed.
Lemma evaluation_le_key a b : evaluation_le a b ↔ key_order a b.
Proof.
  destruct a as [[ida ea ? ? ? ?] wa ma la xa], b as [[idb eb ? ? ? ?] wb mb lb xb].
  unfold evaluation_le, key_order, lex, evaluation_less, among_eligible, by_id, bz; cbn.
  rewrite <- (ltb_id ida idb). set (lt := String.ltb idb ida).
  destruct ea, eb, wa, wb, xa, xb; cbn; try (destruct lt; lia);
    destruct (Z.eqb_spec mb ma), (Z.ltb_spec mb ma), (Z.eqb_spec lb la), (Z.ltb_spec lb la), lt; cbn; lia.
Qed.
#[export] Instance by_id_trans : Transitive by_id.
Proof. intros a b c. unfold by_id. apply id_le_trans. Qed.
#[export] Instance by_id_total : Total by_id.
Proof. intros a b. unfold by_id. apply id_le_total. Qed.
#[export] Instance evaluation_le_trans : Transitive evaluation_le.
Proof. intros a b c. rewrite !evaluation_le_key. unfold key_order. apply lex_trans, _. Qed.
#[export] Instance evaluation_le_total : Total evaluation_le.
Proof. intros a b. rewrite !evaluation_le_key. unfold key_order. apply lex_total, _. Qed.
(** Only evaluations of the same instance are level. *)
Lemma evaluation_le_antisymm a b : evaluation_le a b → evaluation_le b a →
  assess_InstanceID (ce_assessment a) = assess_InstanceID (ce_assessment b).
Proof.
  rewrite !evaluation_le_key. unfold key_order, lex, by_id. intros H1 H2.
  apply (anti_symm id_le); intuition lia.
Qed.

(** ** Ranking *)

Lemma rank_from_lookup l k i a : StronglySorted evaluation_le l → rank_from k l !! i = Some a →
  ∃ e, l !! i = Some e ∧
    a = (ce_assessment e) <| assess_Rank ::= λ r, if assess_Eligible (ce_assessment e) then k + Z.of_nat i else r |>.
Proof.
  revert k i. induction l as [|e l IH]; intros k i Hs H; cbn in H; [done|].
  apply StronglySorted_inv in Hs as [Hs Hall]. rewrite Forall_forall in Hall.
  destruct (assess_Eligible (ce_assessment e)) eqn:He; destruct i as [|i]; cbn in H.
  - injection H as <-. exists e. split; [done|]. rewrite He. destruct (ce_assessment e); cbn. by rewrite Z.add_0_r.
  - apply IH in H as (e' & Hl & ->); [|done]. exists e'. split; [done|]. replace (k + 1 + Z.of_nat i) with (k + Z.of_nat (S i)) by lia. done.
  - injection H as <-. exists e. split; [done|]. rewrite He. by destruct (ce_assessment e).
  - apply IH in H as (e' & Hl & ->); [|done]. exists e'. split; [done|].
    specialize (Hall e' (list_elem_of_lookup_2 _ _ _ Hl)). apply evaluation_le_key in Hall. unfold key_order, lex, bz in Hall.
    rewrite He in Hall. destruct (assess_Eligible (ce_assessment e')); [lia|done].
Qed.
Lemma rank_from_ids k l : assess_InstanceID <$> rank_from k l = (λ e, assess_InstanceID (ce_assessment e)) <$> l.
Proof. revert k. induction l as [|e l IH]; intros k; cbn; [done|]. case_match; cbn; by rewrite IH. Qed.

(** What an assessment says, without its rank. *)
Lemma evaluateCandidates_lookup request i a : evaluateCandidates request !! i = Some a →
  ∃ instance, instance ∈ creq_Instances request ∧
    let e := evaluateCandidate request instance (hasIncompleteProbeCoverage (creq_Probes request) (creq_ObservedAt request)) in
    merge_sort evaluation_le (evaluations_of request) !! i = Some e ∧
    assess_InstanceID a = inst_ResourceID instance ∧
    assess_Eligible a = assess_Eligible (ce_assessment e) ∧
    assess_Rank a = if assess_Eligible a then Z.of_nat i + 1 else 0.
Proof.
  intros H. apply rank_from_lookup in H as (e & He & ->); [|apply StronglySorted_merge_sort; apply _].
  pose proof (list_elem_of_lookup_2 _ _ _ He) as Hin. rewrite merge_sort_Permutation in Hin.
  apply list_elem_of_fmap in Hin as (instance & -> & Hin). exists instance. split; [done|]. cbn zeta. split; [done|].
  destruct (evaluateCandidate_spec request instance (hasIncompleteProbeCoverage (creq_Probes request) (creq_ObservedAt request)))
    as (Hid & Hrank & _).
  revert Hid Hrank. destruct (ce_assessment _) as [id el rk rl dl cs]; cbn. intros -> ->. destruct el; (split_and!; [done..|]); lia.
Qed.

(** the assessments of a request name each of its instances once, and their
    ranks are their positions: the eligible candidates come first and are
    ranked 1, 2, ... without a gap, every other instance has rank 0. *)
Theorem evaluateCandidates_ranked request :
  assess_InstanceID <$> evaluateCandidates request ≡ₚ inst_ResourceID <$> creq_Instances request ∧
  ∀ i a, evaluateCandidates request !! i = Some a → assess_Rank a = if assess_Eligible a then Z.of_nat i + 1 else 0.
Proof.
  split; [|intros i a (instance & _ & _ & _ & _ & H)%evaluateCandidates_lookup; exact H].
  unfold evaluateCandidates. rewrite rank_from_ids, merge_sort_Permutation. unfold evaluations_of. rewrite <- list_fmap_compose.
  apply Permutation_refl', list_fmap_ext. intros i instance _. cbn. by destruct (evaluateCandidate_spec request instance
    (hasIncompleteProbeCoverage (creq_Probes request) (creq_ObservedAt request))) as [-> _].
Qed.

(** the order in which the inventory lists the instances does not matter:
    with distinct instance identifiers, requests that differ only in that
    order have the same assessments, ranks and messages included, whichever
    sorting algorithm is used. *)
Theorem evaluateCandidates_any_order request instances sorted :
  NoDup (inst_ResourceID <$> creq_Instances request) → instances ≡ₚ creq_Instances request →
  let request' := mkCandidateRequest (creq_Cluster request) (creq_Primary request) instances (creq_Links request)
                    (creq_Probes request) (creq_ObservedAt request) (creq_Policy request) in
  sorted ≡ₚ evaluations_of request' → StronglySorted evaluation_le sorted →
  rank_from 1 sorted = evaluateCandidates request.
Proof.
  intros Hnd Hp request' Hsp Hs. unfold evaluateCandidates. f_equal.
  apply (StronglySorted_unique_strong evaluation_le); [|done|apply StronglySorted_merge_sort; apply _|].
  - assert (evaluations_of request' ≡ₚ evaluations_of request) as He.
    { unfold evaluations_of. cbn. by rewrite Hp. }
    intros a b Ha Hb Hab Hba. rewrite Hsp, He in Ha. rewrite merge_sort_Permutation in Hb.
    pose proof (evaluation_le_antisymm a b Hab Hba) as Hid.
    apply list_elem_of_fmap in Ha as (x & -> & Hx), Hb as (y & -> & Hy). f_equal.
    rewrite !(proj1 (evaluateCandidate_spec _ _ _)) in Hid.
    apply list_elem_of_lookup in Hx as [i Hi], Hy as [j Hj].
    enough (i = j) as -> by congruence. eapply (NoDup_lookup _ i j (inst_ResourceID x)); [exact Hnd|..].
    + rewrite list_lookup_fmap, Hi. done.
    + rewrite list_lookup_fmap, Hj. cbn. by rewrite Hid.
  - rewrite Hsp, merge_sort_Permutation. unfold evaluations_of. cbn. by rewrite Hp.
Qed.

(** ** What selection guarantees *)

(** The histories of the primary, as last observed, and of the candidate. *)
Definition histories (primary instance : DatabaseInstance) (p c : GTIDSet) : Prop :=
  ParseGTIDSet (mget (inst_EngineMetadata primary) "gtid_executed") = Ok p ∧
  ParseGTIDSet (repl_ExecutedPosition (inst_Replication instance)) = Ok c.
(** The candidate executed nothing but transactions of the primary: those observed there, or,
    when it has them all, later ones that [uuid] issued. *)
Definition no_divergence (uuid : string) (p c : GTIDSet) : Prop :=
  (∀ t, gtid_in c t → gtid_in p t) ∨
  ((∀ t, gtid_in p t → gtid_in c t) ∧ ∀ t, gtid_in c t → ¬ gtid_in p t → gtidSourceUUID t.1 = uuid).
(** The candidate misses [n] of the primary's transactions. *)
Definition misses (p c : GTIDSet) (n : Z) : Prop := card (λ t, gtid_in p t ∧ ¬ gtid_in c t) n.

Lemma histories_canonical primary instance p c : histories primary instance p c → gcanonical p ∧ gcanonical c.
Proof. intros [[Hp _]%ParseGTIDSet_raw [Hc _]%ParseGTIDSet_raw]. by split. Qed.

Lemma gtid_check_spec request instance :
  check_Status (gtid_check request instance).1.1 ≠ CheckFail →
  ∃ p c, histories (creq_Primary request) instance p c ∧
    no_divergence (ToLower (TrimSpace (primaryServerUUID request))) p c ∧ misses p c (gtid_check request instance).2.
Proof.
  unfold gtid_check. destruct (ParseGTIDSet (mget _ _)) as [p|] eqn:Hp; [|by intros []].
  destruct (ParseGTIDSet (repl_ExecutedPosition _)) as [c|] eqn:Hc; [|by intros []].
  assert (histories (creq_Primary request) instance p c) as Hh by done.
  destruct (histories_canonical _ _ _ _ Hh) as [Gp Gc].
  destruct (CompareGTIDSets_spec p c Gp Gc) as [[_ ->]|[_ ->]]; [|by intros []]. cbn [MissingTransactions ErrantTransactions].
  pose proof (card_gtid_diff p c Gp Gc) as Hm. pose proof (diff_le_size c p Gc Gp) as [Hnn _].
  intros H. exists p, c. split; [done|]. destruct (Z.ltb_spec 0 (diff_size c p)) as [He|He].
  - destruct (LikelyTemporalSamplingSkew _ _ _ _ _) as [[]|] eqn:Hl; [|by destruct H..].
    apply LikelyTemporalSamplingSkew_correct in Hl as (_ & Hsub & _ & _ & Hown); [|done..].
    split; [by right|exact Hm].
  - split; [|by case_match]. left. by apply diff_size_zero; [..|lia].
Qed.

Definition checks_hold (request : CandidateRequest) (instance : DatabaseInstance) (incomplete : bool) : Prop :=
  ∀ c, c ∈ candidate_checks request instance incomplete → check_Status c ≠ CheckFail.
Lemma eligible_iff request instance incomplete :
  assess_Eligible (ce_assessment (evaluateCandidate request instance incomplete)) = true ↔ checks_hold request instance incomplete.
Proof. by destruct (evaluateCandidate_spec request instance incomplete) as (_ & _ & _ & _ & _ & H & _). Qed.
Lemma missing_of request instance incomplete :
  ce_missingTransactions (evaluateCandidate request instance incomplete) = (gtid_check request instance).2.
Proof. by destruct (evaluateCandidate_spec request instance incomplete) as (_ & _ & H & _). Qed.
Lemma checked_as_ok name ok pass fail : check_Status (checked_as name ok pass fail) ≠ CheckFail → ok = true.
Proof. by destruct ok. Qed.
Lemma checks_hold_spec request instance incomplete : checks_hold request instance incomplete →
  inst_Role instance = RoleReplica ∧ inst_Maintenance instance = false ∧
  candidateReadOnly (inst_EngineMetadata instance) = Some true ∧
  primaryServerUUID request ≠ "" ∧ server_uuid (repl_SourceIdentity (inst_Replication instance)) = primaryServerUUID request ∧
  check_Status (gtid_check request instance).1.1 ≠ CheckFail.
Proof.
  intros H. assert (∀ i c, candidate_checks request instance incomplete !! i = Some c → check_Status c ≠ CheckFail) as Hi
    by (intros i c Hc; eapply H, list_elem_of_lookup_2, Hc).
  pose proof (checked_as_ok _ _ _ _ (Hi 1%nat _ eq_refl)) as H1.
  pose proof (checked_as_ok _ _ _ _ (Hi 4%nat _ eq_refl)) as H2.
  pose proof (checked_as_ok _ _ _ _ (Hi 5%nat _ eq_refl)) as H3.
  pose proof (checked_as_ok _ _ _ _ (Hi 8%nat _ eq_refl)) as H4.
  pose proof (Hi 11%nat _ eq_refl) as H5.
  clear H Hi. repeat bsimpl_step. split_and!; done.
Qed.

Lemma select_loop_spec {E} cluster sourceID l primary candidates :
  for_each (E:=selector_error E) (select_step cluster sourceID) (zero_DatabaseInstance, []) l = Ok (primary, candidates) →
  (primary = zero_DatabaseInstance ∨ (primary ∈ l ∧ inst_ResourceID primary = sourceID)) ∧
  ∀ x, (x ∈ candidates ↔ x ∈ l ∧ inst_ResourceID x ≠ sourceID) ∧ (x ∈ candidates → inst_Role x ≠ RolePrimary).
Proof.
  intros Hrun. apply (for_each_inv (λ pre acc,
    (acc.1 = zero_DatabaseInstance ∨ (acc.1 ∈ pre ∧ inst_ResourceID acc.1 = sourceID)) ∧
    ∀ x, (x ∈ acc.2 ↔ x ∈ pre ∧ inst_ResourceID x ≠ sourceID) ∧ (x ∈ acc.2 → inst_Role x ≠ RolePrimary))) in Hrun; [exact Hrun| |].
  - split; [by left|]. intros x. set_solver.
  - intros pre a post [pr cs] s2 _ [H1 H2] H. unfold select_step in H. cbn [fst snd] in *. apply reject_bind in H as [_ H].
    case_bool_decide as Hid.
    + injection H as <-. cbn. split; [right; set_solver|]. intros x. specialize (H2 x). set_solver.
    + apply reject_bind in H as [Hr H]. injection H as <-. cbn. apply bool_decide_eq_false in Hr.
      split; [set_solver|]. intros x. specialize (H2 x). set_solver.
Qed.

(** What the instance that is ranked first among [instances] is like. *)
Lemma rank_one_spec request i a :
  evaluateCandidates request !! i = Some a → best a →
  ∃ instance, instance ∈ creq_Instances request ∧ assess_InstanceID a = inst_ResourceID instance ∧
    let incomplete := hasIncompleteProbeCoverage (creq_Probes request) (creq_ObservedAt request) in
    checks_hold request instance incomplete ∧
    ∀ other, other ∈ creq_Instances request → checks_hold request other incomplete →
      evaluation_le (evaluateCandidate request instance incomplete) (evaluateCandidate request other incomplete).
Proof.
  intros H [Hel Hrank]. apply evaluateCandidates_lookup in H as (instance & Hin & Hi & Hid & Hel' & Hr).
  rewrite Hel in Hr, Hel'. assert (i = 0%nat) as -> by lia. exists instance. split; [done|]. split; [done|]. cbn zeta.
  symmetry in Hel'. apply eligible_iff in Hel'. split; [exact Hel'|]. intros other Ho _.
  pose proof (StronglySorted_merge_sort evaluation_le (evaluations_of request)) as Hs.
  assert (evaluateCandidate request other (hasIncompleteProbeCoverage (creq_Probes request) (creq_ObservedAt request))
    ∈ merge_sort evaluation_le (evaluations_of request)) as Hm.
  { rewrite merge_sort_Permutation. unfold evaluations_of. apply list_elem_of_fmap. by exists other. }
  destruct (merge_sort evaluation_le (evaluations_of request)) as [|e l]; [done|]. injection Hi as ->.
  apply StronglySorted_inv in Hs as [_ Hall]. rewrite Forall_forall in Hall.
  apply elem_of_cons in Hm as [->|Hm]; [|by apply Hall].
  destruct (total evaluation_le (evaluateCandidate request instance (hasIncompleteProbeCoverage (creq_Probes request) (creq_ObservedAt request)))
    (evaluateCandidate request instance (hasIncompleteProbeCoverage (creq_Probes request) (creq_ObservedAt request)))); done.
Qed.
Lemma le_missing a b : evaluation_le a b → assess_Eligible (ce_assessment a) = true → assess_Eligible (ce_assessment b) = true →
  (ce_hasWarnings a = true → ce_hasWarnings b = true) ∧
  (ce_hasWarnings a = ce_hasWarnings b → ce_missingTransactions a ≤ ce_missingTransactions b).
Proof.
  rewrite evaluation_le_key. unfold key_order, lex, among_eligible, bz. intros H Ha Hb. rewrite Ha, Hb in H.
  destruct (ce_hasWarnings a), (ce_hasWarnings b); cbn in H; split; intros ?; try done; try lia.
Qed.

(** Of two acceptable candidates the better one misses no more transactions. *)
Lemma better_misses request incomplete target other p c c' n n' :
  evaluation_le (evaluateCandidate request target incomplete) (evaluateCandidate request other incomplete) →
  checks_hold request target incomplete → checks_hold request other incomplete →
  histories (creq_Primary request) target p c → misses p c n →
  histories (creq_Primary request) other p c' → misses p c' n' →
  ce_hasWarnings (evaluateCandidate request target incomplete) = ce_hasWarnings (evaluateCandidate request other incomplete) →
  n ≤ n'.
Proof.
  intros Hle Ht Ho [Hp Hc] Hn [_ Hc'] Hn' Hw.
  apply le_missing in Hle as [_ Hle]; [|by apply eligible_iff..]. specialize (Hle Hw). rewrite !missing_of in Hle.
  destruct (checks_hold_spec _ _ _ Ht) as (_ & _ & _ & _ & _ & G).
  destruct (checks_hold_spec _ _ _ Ho) as (_ & _ & _ & _ & _ & G').
  destruct (gtid_check_spec _ _ G) as (p1 & c1 & [Hp1 Hc1] & _ & H1), (gtid_check_spec _ _ G') as (p2 & c2 & [Hp2 Hc2] & _ & H2).
  assert (p1 = p ∧ c1 = c ∧ p2 = p ∧ c2 = c') as (-> & -> & -> & ->) by (split_and!; congruence).
  by rewrite (card_unique _ _ _ Hn H1), (card_unique _ _ _ Hn' H2).
Qed.

(** The automatic MySQL failover's selector, and what it finds of an instance. *)
Definition mysql_selector : DatabaseCandidateSelector Empty_set :=
  NewMySQLCandidateSelector (λ request, Ok (evaluateCandidates request)).
Definition assessed (cluster : DatabaseCluster) (snapshot : TopologySnapshot) (primary instance : DatabaseInstance) : candidateEvaluation :=
  evaluateCandidate (candidate_request mysql_selector cluster snapshot primary []) instance
    (hasIncompleteProbeCoverage (topo_Probes snapshot) (topo_ObservedAt snapshot)).
(** The failed source and the target that replaces it. *)
Record failover_pair (snapshot : TopologySnapshot) (primary target : DatabaseInstance) : Prop := {
  fp_primary : primary ∈ topo_Instances snapshot;
  fp_failed : health_State (inst_Health primary) = HealthUnhealthy ∨ health_State (inst_Health primary) = HealthUnknown;
  fp_only : ∀ other, other ∈ topo_Instances snapshot → inst_ResourceID other ≠ inst_ResourceID primary → inst_Role other ≠ RolePrimary;
  fp_target : target ∈ topo_Instances snapshot;
  fp_other : inst_ResourceID target ≠ inst_ResourceID primary;
  fp_replica : inst_Role target = RoleReplica ∧ inst_Maintenance target = false;
  fp_read_only : candidateReadOnly (inst_EngineMetadata target) = Some true;
  fp_source : server_uuid (repl_SourceIdentity (inst_Replication target)) = server_uuid (inst_EngineIdentity primary)
}.

(** C23: the target an automatic MySQL failover selects.  The source has failed
    and no other instance of the topology is observed as primary; the target
    is a read-only replica of the source outside maintenance; every
    transaction it has executed is one the source was observed with or, when it
    misses none of those, a later one of the source itself; and no other
    acceptable candidate misses fewer of the source's transactions, unless
    warnings were raised against it and none against the target. *)
Theorem Select_safe cluster snapshot sourceID id :
  Select mysql_selector cluster snapshot sourceID = Ok id →
  ∃ primary target, failover_pair snapshot primary target ∧ inst_ResourceID primary = sourceID ∧ inst_ResourceID target = id ∧
    ∃ p c n, histories primary target p c ∧ no_divergence (ToLower (TrimSpace (server_uuid (inst_EngineIdentity primary)))) p c ∧
      misses p c n ∧
      ∀ other, other ∈ topo_Instances snapshot → inst_ResourceID other ≠ sourceID →
        let a := assessed cluster snapshot primary target in let b := assessed cluster snapshot primary other in
        assess_Eligible (ce_assessment b) = true →
        (ce_hasWarnings a = true → ce_hasWarnings b = true) ∧
        (ce_hasWarnings a = ce_hasWarnings b → ∀ c' n', histories primary other p c' → misses p c' n' → n ≤ n').
Proof.
  unfold Select. intros H. do 3 apply reject_bind in H as [_ H].
  apply require_bind in H as [_ H]. apply result_bind_ok in H as ([primary candidates] & Hloop & H).
  apply require_bind in H as [Hvalid H]. apply require_bind in H as [Hfailed H]. cbn [sel_evaluator mysql_selector NewMySQLCandidateSelector] in H.
  apply select_loop_spec in Hloop as [[->|[Hp Hsrc]] Hc]; [by vm_compute in Hvalid|].
  destruct (list_find best _) as [[i a]|] eqn:Hf; [|done]. injection H as <-.
  apply list_find_Some in Hf as (Hi & Hbest & _). apply rank_one_spec in Hi as (target & Ht & -> & Hok & Hle); [|done].
  cbn [creq_Instances candidate_request] in Ht, Hle. destruct (proj1 (proj1 (Hc target)) Ht) as [Hin Hne].
  destruct (checks_hold_spec _ _ _ Hok) as (H1 & H2 & H3 & _ & H5 & H6).
  destruct (gtid_check_spec _ _ H6) as (p & c & Hh & Hd & Hm).
  exists primary, target. split; [|split; [done|split; [done|]]].
  { split; try done; [|intros other Ho Hno|congruence]; [|apply (proj2 (Hc other)), Hc; split; [done|congruence]].
    apply orb_true_iff in Hfailed as [?|?]; [left|right]; by eapply bool_decide_eq_true_1. }
  exists p, c, (gtid_check (candidate_request mysql_selector cluster snapshot primary candidates) target).2. split_and!; [done..|].
  intros other Ho Hno. cbn zeta. intros Hel. apply eligible_iff in Hel as Hel'. pose proof (proj2 (eligible_iff _ _ _) Hok) as Hela.
  pose proof (Hle other (proj2 (proj1 (Hc other)) (conj Ho Hno)) Hel') as Hab.
  split; [by apply (le_missing _ _ Hab)|]. intros Hw c' n' Hh' Hn'.
  by apply (better_misses _ _ _ _ p c c' _ _ Hab).
Qed.

(** ** Concrete instances *)

Definition wc_id (n : string) : ResourceID := "00000000-0000-4000-8000-00000000000" +:+ n.
Definition wc_cluster : DatabaseCluster := zero_DatabaseCluster <| cluster_ResourceID := wc_id "0" |> <| cluster_Engine := EngineMySQL |>.
Definition wc_instance (n : string) (role : InstanceRole) (state : HealthState) (metadata : list (string * string)) : DatabaseInstance :=
  zero_DatabaseInstance <| inst_ResourceID := wc_id n |> <| inst_ClusterID := wc_id "0" |> <| inst_Engine := EngineMySQL |>
    <| inst_Role := role |> <| inst_Health := zero_Health <| health_State := state |> |>
    <| inst_EngineIdentity := {["server_uuid" := sampleUUID]} |>
    <| inst_EngineMetadata := list_to_map ([("gtid_mode", "ON"); ("version", "8.0.36"); ("read_only", "true"); ("super_read_only", "true")] ++ metadata) |>.
Definition wc_primary : DatabaseInstance :=
  wc_instance "1" (InstanceRoleOther "") HealthUnhealthy [("gtid_executed", sampleUUID +:+ ":1-9")].
Definition wc_replica (n executed : string) : DatabaseInstance :=
  (wc_instance n RoleReplica HealthHealthy []) <| inst_Replication := zero_ReplicationStatus
    <| repl_IOThread := ThreadConnecting |> <| repl_SQLThread := ThreadRunning |>
    <| repl_SourceIdentity := {["server_uuid" := sampleUUID]} |> <| repl_ExecutedPosition := sampleUUID +:+ executed |> |>.
Definition wc_probe (n : string) : ProbeStatus := zero_ProbeStatus <| probe_InstanceID := wc_id n |>
  <| probe_DiscoveryObservedAt := 1000 |> <| probe_Health := zero_Health <| health_State := HealthHealthy |> |>.
Definition wc_snapshot : TopologySnapshot := zero_TopologySnapshot <| topo_ClusterID := wc_id "0" |>
  <| topo_Instances := [wc_primary; wc_replica "2" ":1-7"; wc_replica "3" ":1-8"] |>
  <| topo_Probes := [wc_probe "2"; wc_probe "3"] |> <| topo_ObservedAt := 1000 |>.
Definition wc_request : CandidateRequest :=
  candidate_request mysql_selector wc_cluster wc_snapshot wc_primary [wc_replica "2" ":1-7"; wc_replica "3" ":1-8"].

Example wc_selected : Select mysql_selector wc_cluster wc_snapshot (wc_id "1") = Ok (wc_id "3").
Proof. vm_compute. reflexivity. Qed.
Lemma evaluateCandidates_ranked_witness :
  evaluateCandidates wc_request !! 0%nat ≠ None ∧
  ∀ a, evaluateCandidates wc_request !! 0%nat = Some a → assess_Rank a = if assess_Eligible a then 1 else 0.
Proof.
  split; [by vm_compute|]. intros a Ha. exact (proj2 (evaluateCandidates_ranked wc_request) 0%nat a Ha).
Defined.
Lemma evaluateCandidates_any_order_witness :
  let request' := mkCandidateRequest wc_cluster wc_primary [wc_replica "3" ":1-8"; wc_replica "2" ":1-7"] [] (creq_Probes wc_request)
                    1000 (creq_Policy wc_request) in
  rank_from 1 (merge_sort evaluation_le (evaluations_of request')) = evaluateCandidates wc_request.
Proof.
  apply (evaluateCandidates_any_order wc_request [wc_replica "3" ":1-8"; wc_replica "2" ":1-7"]).
  - apply (bool_decide_unpack _). vm_compute. exact I.
  - constructor.
  - apply merge_sort_Permutation.
  - apply StronglySorted_merge_sort; apply _.
Defined.
Lemma Select_safe_witness :
  Select mysql_selector wc_cluster wc_snapshot (wc_id "1") = Ok (wc_id "3") ∧
  ∃ primary target, failover_pair wc_snapshot primary target ∧ inst_ResourceID primary = wc_id "1" ∧ inst_ResourceID target = wc_id "3".
Proof.
  split; [exact wc_selected|].
  destruct (Select_safe wc_cluster wc_snapshot (wc_id "1") (wc_id "3") wc_selected) as (primary & target & H1 & H2 & H3 & _).
  exact (ex_intro _ primary (ex_intro _ target (conj H1 (conj H2 H3)))).
Defined.
