(* ===== verification/Program.v ===== *)
(** * Programs that call an environment

    A procedure whose work is a sequence of calls to databases, endpoint
    providers and stores is a tree of type [prog]: a leaf returns, a node makes
    a call and continues with whatever the environment answers.  Nothing is
    assumed of the answers, so [runs] relates a program to every trace of calls
    and answers it can have.

    A property of the traces is a monitor: a state, updated by each event, and
    the calls the state allows.  [wp] computes what must hold for a program to
    respect a monitor and to end in a state that satisfies a postcondition;
    [wp_sound] carries it over to the traces. *)
From S2P Require Import Prelude GoStd.

(** The calls of a program, and the type of the answer to each. *)
Class Signature : Type := { action : Type; answer : action → Type }.

Section prog.
Context {Sg : Signature}.

Inductive prog (A : Type) : Type :=
| Ret (a : A)
| Call (c : action) (k : answer c → prog A).
#[global] Arguments Ret {A} a.
#[global] Arguments Call {A} c k.

Fixpoint pbind {A B} (p : prog A) (f : A → prog B) : prog B :=
  match p with
  | Ret a => f a
  | Call c k => Call c (λ x, pbind (k x) f)
  end.
#[export] Instance prog_ret : MRet prog := @Ret.
#[export] Instance prog_bind : MBind prog := λ A B f p, pbind p f.
Definition call (c : action) : prog (answer c) := Call c Ret.

(** A program that may fail: the error of a step ends the sequence. *)
Definition ebind {E A B} (p : prog (result E A)) (f : A → prog (result E B)) : prog (result E B) :=
  pbind p (λ r, match r with Ok a => f a | Err e => Ret (Err e) end).
(** [if err := p; err != nil { return f(err) }]. *)
Definition on_error {E F A} (p : prog (result E A)) (f : E → prog (result F A)) : prog (result F A) :=
  pbind p (λ r, match r with Ok a => Ret (Ok a) | Err e => f e end).
(** A loop over a slice whose body may fail. *)
Fixpoint each {E A} (f : A → prog (result E unit)) (l : list A) : prog (result E unit) :=
  match l with
  | [] => Ret (Ok tt)
  | a :: l => ebind (f a) (λ _, each f l)
  end.
(** A guard. *)
Definition ensure {E} (b : bool) (e : E) : prog (result E unit) := Ret (require b e).

(** ** Traces *)

Definition event : Type := sigT answer.
Inductive runs {A} : prog A → list event → A → Prop :=
| runs_ret a : runs (Ret a) [] a
| runs_call c k x t a : runs (k x) t a → runs (Call c k) (existT c x :: t) a.

Lemma runs_inv {A} (p : prog A) t a : runs p t a →
  match p with
  | Ret b => t = [] ∧ a = b
  | Call c k => ∃ x t', t = existT c x :: t' ∧ runs (k x) t' a
  end.
Proof. intros []; [done|eauto]. Qed.
Lemma runs_bind {A B} (p : prog A) (f : A → prog B) t b : runs (pbind p f) t b →
  ∃ t1 t2 a, t = t1 ++ t2 ∧ runs p t1 a ∧ runs (f a) t2 b.
Proof.
  revert t. induction p as [a|c k IH]; intros t Hr; [exists [], t, a; split_and!; [done|constructor|exact Hr]|].
  apply runs_inv in Hr as (x & t' & -> & Hr). destruct (IH x t' Hr) as (t1 & t2 & a & -> & Ht1 & Ht2).
  exists (existT c x :: t1), t2, a. split_and!; [done|by constructor|done].
Qed.

Lemma runs_ebind {E A B} (p : prog (result E A)) (f : A → prog (result E B)) t r : runs (ebind p f) t r →
  (∃ t1 t2 a, t = t1 ++ t2 ∧ runs p t1 (Ok a) ∧ runs (f a) t2 r) ∨ ∃ e, r = Err e ∧ runs p t (Err e).
Proof.
  intros (t1 & t2 & [a|e] & -> & H1 & H2)%runs_bind; [left; by eauto 8|right]. apply runs_inv in H2 as [-> ->].
  exists e. by rewrite app_nil_r.
Qed.
Lemma runs_on_error {E F A} (p : prog (result E A)) (f : E → prog (result F A)) t r : runs (on_error p f) t r →
  (∃ a, r = Ok a ∧ runs p t (Ok a)) ∨ ∃ t1 t2 e, t = t1 ++ t2 ∧ runs p t1 (Err e) ∧ runs (f e) t2 r.
Proof.
  intros (t1 & t2 & [a|e] & -> & H1 & H2)%runs_bind; [left|right; by eauto 8]. apply runs_inv in H2 as [-> ->].
  exists a. by rewrite app_nil_r.
Qed.
Lemma runs_called c t x : runs (call c) t x → t = [existT c x].
Proof. intros (y & t' & -> & [-> ->]%runs_inv)%runs_inv. done. Qed.

(** A program that only fails. *)
Definition failing {E A} (p : prog (result E A)) : Prop := ∀ t r, runs p t r → is_ok r = false.
Lemma failing_ok {E A} (p : prog (result E A)) t a : failing p → ¬ runs p t (Ok a).
Proof. intros Hp Hr. by apply Hp in Hr. Qed.
Lemma failing_ret {E A} (e : E) : failing (Ret (Err e) : prog (result E A)).
Proof. by intros t r [_ ->]%runs_inv. Qed.
Lemma failing_bind {E A B} (p : prog B) (f : B → prog (result E A)) : (∀ b, failing (f b)) → failing (pbind p f).
Proof. intros Hf t r (t1 & t2 & b & -> & _ & Hr)%runs_bind. by apply Hf in Hr. Qed.
(** What a successful run of a sequence is made of. *)
Lemma runs_ebind_ok {E A B} (p : prog (result E A)) (f : A → prog (result E B)) t b : runs (ebind p f) t (Ok b) →
  ∃ t1 t2 a, t = t1 ++ t2 ∧ runs p t1 (Ok a) ∧ runs (f a) t2 (Ok b).
Proof. intros [?|(e & [=] & _)]%runs_ebind. done. Qed.
Lemma runs_or_else_ok {E F A} (p : prog (result E A)) (f : E → prog (result F A)) t a :
  (∀ e, failing (f e)) → runs (on_error p f) t (Ok a) → runs p t (Ok a).
Proof. intros Hf [(b & [= ->] & Hr)|(t1 & t2 & e & _ & _ & Hr)]%runs_on_error; [exact Hr|by apply failing_ok in Hr]. Qed.

(** *** What precedes a call *)

(** Whenever [p] makes a call of [E], [R] holds of what it has done before. *)
Definition only_after (E : action → Prop) (R : list event → Prop) {A} (p : prog A) : Prop :=
  ∀ t a pre e post, runs p t a → t = pre ++ e :: post → E (projT1 e) → R pre.
Section only_after.
Context (E : action → Prop).
Lemma only_after_ret {A} R (a : A) : only_after E R (Ret a).
Proof. intros t b pre e post [-> _]%runs_inv Ht. by destruct pre. Qed.
Lemma only_after_call R c : (E c → R []) → only_after E R (call c).
Proof. intros Hc t x [|e' pre] e post Hr%runs_called; subst; [|by destruct pre]. intros [= <- _]. exact Hc. Qed.
Lemma only_after_bind {A B} R (p : prog A) (f : A → prog B) :
  only_after E R p → (∀ t a, runs p t a → only_after E (λ pre, R (t ++ pre)) (f a)) → only_after E R (pbind p f).
Proof.
  intros Hp Hf t b pre e post (t1 & t2 & a & -> & H1 & H2)%runs_bind Ht He.
  apply app_eq_inv in Ht as [(k & -> & Hk)|(k & -> & Hk)].
  - destruct k as [|e' k]; cbn in Hk.
    + rewrite app_nil_r in *. rewrite <- (app_nil_r pre). by eapply (Hf _ _ H1 _ _ [] e post).
    + injection Hk as <- ->. by eapply Hp.
  - by eapply (Hf _ _ H1 _ _ k e post).
Qed.
Lemma only_after_ebind {X A B} R (p : prog (result X A)) (f : A → prog (result X B)) :
  only_after E R p → (∀ t a, runs p t (Ok a) → only_after E (λ pre, R (t ++ pre)) (f a)) → only_after E R (ebind p f).
Proof. intros Hp Hf. apply only_after_bind; [exact Hp|]. intros t [a|e] Hr; [by apply Hf|apply only_after_ret]. Qed.
End only_after.

(** Events that occur in this order. *)
Fixpoint in_order (Ps : list (event → Prop)) (t : list event) : Prop :=
  match Ps with
  | [] => True
  | P :: Ps => ∃ u e v, t = u ++ e :: v ∧ P e ∧ in_order Ps v
  end.
Lemma in_order_after Ps u t : in_order Ps t → in_order Ps (u ++ t).
Proof. destruct Ps as [|P Ps]; [done|]. intros (u' & e & v & -> & ?). exists (u ++ u'), e, v. by rewrite <- app_assoc. Qed.
Lemma in_order_app Ps Qs t u : in_order Ps t → in_order Qs u → in_order (Ps ++ Qs) (t ++ u).
Proof.
  revert t. induction Ps as [|P Ps IH]; intros t; cbn; [intros _; apply in_order_after|].
  intros (u' & e & v & -> & He & Hv) Hu. exists u', e, (v ++ u). rewrite <- app_assoc. split_and!; [done|done|by apply IH].
Qed.
Lemma in_order_before Ps t u : in_order Ps t → in_order Ps (t ++ u).
Proof. intros Ht. rewrite <- (app_nil_r Ps). by apply in_order_app. Qed.
Lemma in_order_one (P : event → Prop) e t : e ∈ t → P e → in_order [P] t.
Proof. intros (u & v & ->)%list_elem_of_split HP. by exists u, e, v. Qed.

(** Running against a given environment. *)
Section handler.
Context {W : Type} (handle : ∀ c : action, W → W * answer c).
Fixpoint trace {A} (p : prog A) (w : W) : list event * A :=
  match p with
  | Ret a => ([], a)
  | Call c k => let '(w, x) := handle c w in let '(t, a) := trace (k x) w in (existT c x :: t, a)
  end.
Lemma trace_runs {A} (p : prog A) w : runs p (trace p w).1 (trace p w).2.
Proof.
  revert w. induction p as [a|c k IH]; intros w; cbn; [constructor|].
  destruct (handle c w) as [w' x]. specialize (IH x w'). destruct (trace (k x) w'). by constructor.
Qed.
End handler.

(** ** Monitors *)

Section monitor.
Context {M : Type} (observe : M → event → M) (allowed : M → action → Prop).

Definition watch (m : M) (t : list event) : M := foldl observe m t.
(** Every call of the trace is allowed where it is made. *)
Definition respects (m : M) (t : list event) : Prop :=
  ∀ pre e post, t = pre ++ e :: post → allowed (watch m pre) (projT1 e).

Fixpoint wp {A} (p : prog A) (Q : A → M → Prop) (m : M) : Prop :=
  match p with
  | Ret a => Q a m
  | Call c k => allowed m c ∧ ∀ x, wp (k x) Q (observe m (existT c x))
  end.

Lemma wp_sound {A} (p : prog A) Q m t a : wp p Q m → runs p t a → respects m t ∧ Q a (watch m t).
Proof.
  intros Hwp Hr. revert m Hwp. induction Hr as [a|c k x t a Hr IH]; intros m; cbn.
  { intros HQ. split; [|done]. by intros [|]. }
  intros [Hal Hwp]. destruct (IH _ (Hwp x)) as [IHr IHq]. split; [|exact IHq].
  intros [|e pre] e' post [= <- Ht]; [exact Hal|]. by apply (IHr pre e' post).
Qed.
Lemma wp_mono {A} (p : prog A) (Q Q' : A → M → Prop) m : (∀ a m, Q a m → Q' a m) → wp p Q m → wp p Q' m.
Proof. intros HQ. revert m. induction p as [a|c k IH]; intros m; cbn; [apply HQ|]. naive_solver. Qed.
Lemma wp_bind {A B} (p : prog A) (f : A → prog B) Q m : wp p (λ a, wp (f a) Q) m → wp (pbind p f) Q m.
Proof. revert m. induction p as [a|c k IH]; intros m; cbn; [done|]. naive_solver. Qed.
Lemma wp_call c Q m : allowed m c → (∀ x, Q x (observe m (existT c x))) → wp (call c) Q m.
Proof. by split. Qed.

Lemma wp_next {A} c (k : answer c → prog A) Q m :
  allowed m c → (∀ x m', m' = observe m (existT c x) → wp (k x) Q m') → wp (pbind (call c) k) Q m.
Proof. intros Ha Hk. split; [exact Ha|]. intros x. by apply Hk. Qed.

(** The postcondition of a program that may fail. *)
Definition post {E A} (Q : A → M → Prop) (R : E → M → Prop) (r : result E A) (m : M) : Prop :=
  match r with Ok a => Q a m | Err e => R e m end.
Lemma wp_ebind {E A B} (p : prog (result E A)) (f : A → prog (result E B)) Q R m :
  wp p (post (λ a, wp (f a) (post Q R)) R) m → wp (ebind p f) (post Q R) m.
Proof. intros H. apply wp_bind. eapply wp_mono; [|exact H]. by intros [a|e] m' Hm. Qed.
Lemma wp_on_error {E F A} (p : prog (result E A)) (f : E → prog (result F A)) Q R m :
  wp p (post Q (λ e, wp (f e) (post Q R))) m → wp (on_error p f) (post Q R) m.
Proof. intros H. apply wp_bind. eapply wp_mono; [|exact H]. by intros [a|e] m' Hm. Qed.
Lemma wp_ensure {E} b (e : E) (Q : unit → M → Prop) R m :
  (b = true → Q tt m) → (b = false → R e m) → wp (ensure b e) (post Q R) m.
Proof. intros HQ HR. unfold ensure, require. destruct b; cbn; [by apply HQ|by apply HR]. Qed.
(** A loop keeps what its body keeps. *)
Lemma wp_each {E A} (f : A → prog (result E unit)) l (I : M → Prop) R m :
  I m → (∀ a m, a ∈ l → I m → wp (f a) (post (λ _, I) R) m) → wp (each f l) (post (λ _, I) R) m.
Proof.
  revert m. induction l as [|a l IH]; intros m Hm Hf; [exact Hm|]. apply wp_ebind.
  eapply wp_mono; [|apply (Hf a m); [set_solver|done]]. intros [[]|e] m' Hm'; [|exact Hm'].
  apply IH; [exact Hm'|]. intros b m'' Hb. apply Hf. set_solver.
Qed.

(** A program all of whose calls keep [I]. *)
Fixpoint all_calls {A} (P : action → Prop) (p : prog A) : Prop :=
  match p with Ret _ => True | Call c k => P c ∧ ∀ x, all_calls P (k x) end.
Lemma all_calls_bind {A B} P (p : prog A) (f : A → prog B) :
  all_calls P p → (∀ a, all_calls P (f a)) → all_calls P (pbind p f).
Proof. intros Hp Hf. induction p as [a|c k IH]; cbn in *; [apply Hf|]. naive_solver. Qed.
Lemma all_calls_mono {A} (P P' : action → Prop) (p : prog A) : (∀ c, P c → P' c) → all_calls P p → all_calls P' p.
Proof. intros HP. induction p as [a|c k IH]; cbn; [done|]. naive_solver. Qed.
Lemma all_calls_runs {A} (P : action → Prop) (p : prog A) t a : all_calls P p → runs p t a → ∀ e, e ∈ t → P (projT1 e).
Proof.
  intros Hp Hr. induction Hr as [a|c k x t a Hr IH]; [by intros e He%elem_of_nil|]. destruct Hp as [Hc Hk].
  intros e [->|He]%elem_of_cons; [exact Hc|by apply (IH (Hk x))].
Qed.
Lemma only_after_never {A} (E : action → Prop) (P : action → Prop) R (p : prog A) :
  (∀ c, P c → ¬ E c) → all_calls P p → only_after E R p.
Proof.
  intros HP Hp t a pre e post Hr -> He. exfalso. eapply HP, He. eapply (all_calls_runs _ _ _ _ Hp Hr). set_solver.
Qed.
Lemma all_calls_call P c : P c → all_calls P (call c).
Proof. by split. Qed.
Lemma all_calls_ebind {E A B} P (p : prog (result E A)) (f : A → prog (result E B)) :
  all_calls P p → (∀ a, all_calls P (f a)) → all_calls P (ebind p f).
Proof. intros Hp Hf. apply all_calls_bind; [done|]. intros [a|e]; [apply Hf|exact I]. Qed.
Lemma all_calls_returned {E A B} P (r : result E A) (f : A → prog (result E B)) :
  (∀ a, r = Ok a → all_calls P (f a)) → all_calls P (ebind (Ret r) f).
Proof. destruct r as [a|e]; intros Hf; [by apply (Hf a)|exact I]. Qed.
Lemma all_calls_on_error {E F A} P (p : prog (result E A)) (f : E → prog (result F A)) :
  all_calls P p → (∀ e, all_calls P (f e)) → all_calls P (on_error p f).
Proof. intros Hp Hf. apply all_calls_bind; [done|]. intros [a|e]; [exact I|apply Hf]. Qed.
Lemma all_calls_each {E A} P (f : A → prog (result E unit)) l : (∀ a, all_calls P (f a)) → all_calls P (each f l).
Proof. intros Hf. induction l as [|a l IH]; [exact I|]. apply all_calls_ebind; [apply Hf|]. intros _. exact IH. Qed.
Lemma wp_all_calls {A} (P : action → Prop) (I : M → Prop) (p : prog A) m :
  all_calls P p → (∀ c m, P c → I m → allowed m c ∧ ∀ x, I (observe m (existT c x))) → I m → wp p (λ _, I) m.
Proof.
  intros Hp HI. revert m Hp. induction p as [a|c k IH]; intros m Hp Hm; cbn in *; [exact Hm|].
  destruct Hp as [Hc Hk]. destruct (HI c m Hc Hm) as [Ha Ho]. split; [exact Ha|]. intros x. by apply IH.
Qed.
End monitor.

(** ** Programs beside other steps

    The calls change a state that others change too: before each call, and at
    the end, any number of their steps may have run.  The trace keeps the state
    each call was made in. *)
Section system.
Context {S : Type} (step : S → S → Prop) (answers : ∀ c : action, S → answer c → S → Prop).
Abbreviation history := (list (S * event)) (only parsing).

Inductive sruns {A} : prog A → S → history → S → A → Prop :=
| sruns_ret a s s' : rtc step s s' → sruns (Ret a) s [] s' a
| sruns_call c k s s1 x s2 t s' a :
    rtc step s s1 → answers c s1 x s2 → sruns (k x) s2 t s' a → sruns (Call c k) s ((s1, existT c x) :: t) s' a.

Lemma sruns_inv {A} (p : prog A) s t s' a : sruns p s t s' a →
  match p with
  | Ret b => t = [] ∧ a = b ∧ rtc step s s'
  | Call c k => ∃ s1 x s2 t', t = (s1, existT c x) :: t' ∧ rtc step s s1 ∧ answers c s1 x s2 ∧ sruns (k x) s2 t' s' a
  end.
Proof. intros []; [done|by eauto 10]. Qed.
Lemma sruns_bind {A B} (p : prog A) (f : A → prog B) s t s' b : sruns (pbind p f) s t s' b →
  ∃ t1 t2 s1 a, t = t1 ++ t2 ∧ sruns p s t1 s1 a ∧ sruns (f a) s1 t2 s' b.
Proof.
  revert s t. induction p as [a|c k IH]; intros s t Hr.
  { exists [], t, s, a. split_and!; [done|constructor; apply rtc_refl|exact Hr]. }
  apply sruns_inv in Hr as (s1 & x & s2 & t' & -> & Hs & Hx & Hr). destruct (IH x _ _ Hr) as (t1 & t2 & s3 & a & -> & H1 & H2).
  exists ((s1, existT c x) :: t1), t2, s3, a. split_and!; [done|by econstructor|exact H2].
Qed.
Lemma sruns_ebind_ok {E A B} (p : prog (result E A)) (f : A → prog (result E B)) s t s' b : sruns (ebind p f) s t s' (Ok b) →
  ∃ t1 t2 s1 a, t = t1 ++ t2 ∧ sruns p s t1 s1 (Ok a) ∧ sruns (f a) s1 t2 s' (Ok b).
Proof.
  intros (t1 & t2 & s1 & [a|e] & -> & H1 & H2)%sruns_bind; [by eauto 10|].
  apply sruns_inv in H2. destruct H2 as (_ & H2 & _). discriminate H2.
Qed.
(** The trace alone. *)
Lemma sruns_runs {A} (p : prog A) s t s' a : sruns p s t s' a → runs p t.*2 a.
Proof. induction 1; cbn; by constructor. Qed.
Lemma sruns_or_else_ok {E F A} (p : prog (result E A)) (f : E → prog (result F A)) s t s' a :
  (∀ e, failing (f e)) → sruns (on_error p f) s t s' (Ok a) → ∃ s1, sruns p s t s1 (Ok a) ∧ rtc step s1 s'.
Proof.
  intros Hf (t1 & t2 & s1 & [b|e] & -> & H1 & H2)%sruns_bind.
  - apply sruns_inv in H2 as (-> & [= ->] & Hs). exists s1. by rewrite app_nil_r.
  - apply sruns_runs in H2. by apply failing_ok in H2.
Qed.
Lemma sruns_called c s t s' x : sruns (call c) s t s' x →
  ∃ s1 s2, t = [(s1, existT c x)] ∧ rtc step s s1 ∧ answers c s1 x s2 ∧ rtc step s2 s'.
Proof. intros (s1 & y & s2 & t' & -> & Hs & Hx & (-> & -> & Hs')%sruns_inv)%sruns_inv. by exists s1, s2. Qed.
(** Running against a given environment. *)
Fixpoint strace (handle : ∀ c : action, S → S * answer c) {A} (p : prog A) (s : S) : history * S * A :=
  match p with
  | Ret a => ([], s, a)
  | Call c k =>
      let '(s2, x) := handle c s in
      let '(t, s', a) := strace handle (k x) s2 in ((s, existT c x) :: t, s', a)
  end.
Lemma strace_sruns handle {A} (p : prog A) s : (∀ c s, answers c s (handle c s).2 (handle c s).1) →
  sruns p s (strace handle p s).1.1 (strace handle p s).1.2 (strace handle p s).2.
Proof.
  intros Hh. revert s. induction p as [a|c k IH]; intros s; cbn; [constructor; apply rtc_refl|].
  specialize (Hh c s). destruct (handle c s) as [s2 x]. specialize (IH x s2). destruct (strace handle (k x) s2) as [[t s'] a].
  by econstructor; [apply rtc_refl|exact Hh|].
Qed.

(** Whatever [p] does from [s], after the history [u], its calls of [E] satisfy [G]. *)
Definition guarded (E : action → Prop) (G : history → S → event → Prop) {A} (u : history) (s : S) (p : prog A) : Prop :=
  ∀ t s' a pre s1 e post, sruns p s t s' a → t = pre ++ (s1, e) :: post → E (projT1 e) → G (u ++ pre) s1 e.
Lemma guarded_bind {A B} E G u s (p : prog A) (f : A → prog B) :
  guarded E G u s p → (∀ t s1 a, sruns p s t s1 a → guarded E G (u ++ t) s1 (f a)) → guarded E G u s (pbind p f).
Proof.
  intros Hp Hf t s' b pre s2 e post (t1 & t2 & s1 & a & -> & H1 & H2)%sruns_bind Ht He.
  apply app_eq_inv in Ht as [(k & -> & Hk)|(k & -> & Hk)].
  - destruct k as [|e' k]; cbn in Hk.
    + rewrite app_nil_r in *. rewrite <- (app_nil_r (u ++ pre)). by eapply (Hf _ _ _ H1 _ _ _ [] s2 e post).
    + injection Hk as <- ->. by eapply Hp.
  - rewrite app_assoc. by eapply (Hf _ _ _ H1 _ _ _ k s2 e post).
Qed.
Lemma guarded_mono {A} E (G G' : history → S → event → Prop) u s (p : prog A) :
  (∀ u s e, G u s e → G' u s e) → guarded E G u s p → guarded E G' u s p.
Proof. intros HG Hp t s' a pre s1 e post Hr Ht He. by eapply HG, Hp. Qed.
Lemma guarded_call E G u s c : (∀ s1 x, rtc step s s1 → E c → G u s1 (existT c x)) → guarded E G u s (call c).
Proof.
  intros H t s' x [|[s2 e'] pre] s1 e post (s3 & s4 & -> & Hs & _)%sruns_called; [|intros [= _ _ Ht]; by destruct pre].
  intros [= <- <- _] He. rewrite app_nil_r. by apply H.
Qed.
Lemma guarded_ret {A} E G u s (a : A) : guarded E G u s (Ret a).
Proof. intros t s' b pre s1 e post (-> & _ & _)%sruns_inv Ht. by destruct pre. Qed.
Lemma guarded_ebind {X A B} E G u s (p : prog (result X A)) (f : A → prog (result X B)) :
  guarded E G u s p → (∀ t s1 a, sruns p s t s1 (Ok a) → guarded E G (u ++ t) s1 (f a)) → guarded E G u s (ebind p f).
Proof. intros Hp Hf. apply guarded_bind; [exact Hp|]. intros t s1 [a|e] Hr; [by apply Hf|apply guarded_ret]. Qed.

(** [allowed] restricts the calls, by what happened so far and the state. *)
Variable allowed : history → S → action → Prop.
Fixpoint swp {A} (p : prog A) (Q : A → history → S → Prop) (t : history) (s : S) : Prop :=
  match p with
  | Ret a => ∀ s', rtc step s s' → Q a t s'
  | Call c k => ∀ s1, rtc step s s1 → allowed t s1 c ∧ ∀ x s2, answers c s1 x s2 → swp (k x) Q (t ++ [(s1, existT c x)]) s2
  end.

Lemma swp_sound {A} (p : prog A) Q t s t' s' a : swp p Q t s → sruns p s t' s' a →
  (∀ pre s1 e post, t' = pre ++ (s1, e) :: post → allowed (t ++ pre) s1 (projT1 e)) ∧ Q a (t ++ t') s'.
Proof.
  intros Hwp Hr. revert t Hwp. induction Hr as [a s s' Hs|c k s s1 x s2 t' s' a Hs Hx Hr IH]; intros t; cbn.
  { intros HQ. split; [by intros [|]|]. rewrite app_nil_r. by apply HQ. }
  intros Hwp. destruct (Hwp s1 Hs) as [Hal Hk]. destruct (IH _ (Hk x s2 Hx)) as [IHa IHq]. rewrite <- app_assoc in IHq.
  split; [|exact IHq]. intros [|[s3 e] pre] s4 e' post; intros [= <- <- Ht]; [by rewrite app_nil_r|].
  specialize (IHa _ _ _ _ Ht). by rewrite <- app_assoc in IHa.
Qed.
Lemma swp_mono {A} (p : prog A) (Q Q' : A → history → S → Prop) t s :
  (∀ a t s, Q a t s → Q' a t s) → swp p Q t s → swp p Q' t s.
Proof. intros HQ. revert t s. induction p as [a|c k IH]; intros t s; cbn; naive_solver. Qed.
(** Others may step before a program starts. *)
Lemma swp_step {A} (p : prog A) Q t s s' : rtc step s s' → swp p Q t s → swp p Q t s'.
Proof.
  intros Hs. destruct p as [a|c k]; cbn; intros Hwp.
  - intros s2 Hs2. apply Hwp. by etrans.
  - intros s1 Hs1. apply Hwp. by etrans.
Qed.
Lemma swp_bind {A B} (p : prog A) (f : A → prog B) Q t s : swp p (λ a, swp (f a) Q) t s → swp (pbind p f) Q t s.
Proof.
  revert t s. induction p as [a|c k IH]; intros t s; cbn; [intros H; by apply H|]. naive_solver.
Qed.
Lemma swp_call c Q t s :
  (∀ s1, rtc step s s1 → allowed t s1 c ∧
     ∀ x s2 s3, answers c s1 x s2 → rtc step s2 s3 → Q x (t ++ [(s1, existT c x)]) s3) → swp (call c) Q t s.
Proof. intros H s1 Hs1. destruct (H s1 Hs1) as [Ha Hk]. split; [exact Ha|]. intros x s2 Hx s3 Hs3. by eapply Hk. Qed.

Definition spost {E A} (Q : A → history → S → Prop) (R : E → history → S → Prop) (r : result E A) : history → S → Prop :=
  match r with Ok a => Q a | Err e => R e end.
Lemma swp_ebind {E A B} (p : prog (result E A)) (f : A → prog (result E B)) Q R t s :
  (∀ e t s s', rtc step s s' → R e t s → R e t s') →
  swp p (spost (λ a, swp (f a) (spost Q R)) R) t s → swp (ebind p f) (spost Q R) t s.
Proof.
  intros HR H. apply swp_bind. eapply swp_mono; [|exact H]. intros [a|e] t' s' Hm; [exact Hm|]. intros s2 Hs. by eapply HR.
Qed.
Lemma swp_on_error {E F A} (p : prog (result E A)) (f : E → prog (result F A)) Q R t s :
  (∀ a t s s', rtc step s s' → Q a t s → Q a t s') →
  swp p (spost Q (λ e, swp (f e) (spost Q R))) t s → swp (on_error p f) (spost Q R) t s.
Proof.
  intros HQ H. apply swp_bind. eapply swp_mono; [|exact H]. intros [a|e] t' s' Hm; [|exact Hm]. intros s2 Hs. by eapply HQ.
Qed.

(** A fact that others keep, and that the calls in [P] keep. *)
Record keeps (P : action → Prop) (F : history → S → Prop) : Prop := mk_keeps {
  keeps_step : ∀ t s s', step s s' → F t s → F t s';
  keeps_call : ∀ t s c x s', P c → answers c s x s' → F t s → F (t ++ [(s, existT c x)]) s'
}.
Lemma keeps_steps P F t s s' : keeps P F → rtc step s s' → F t s → F t s'.
Proof. intros HF Hs. induction Hs as [|s s1 s2 Hs _ IH]; [done|]. intros Ht. by eapply IH, HF. Qed.
Lemma keeps_and P F G : keeps P F → keeps P G → keeps P (λ t s, F t s ∧ G t s).
Proof. intros HF HG. split; intros *; destruct HF, HG; naive_solver. Qed.
Lemma keeps_mono P P' F : (∀ c, P' c → P c) → keeps P F → keeps P' F.
Proof. intros HP [H1 H2]. split; [exact H1|]. intros *. naive_solver. Qed.
(** The frame rule. *)
Lemma swp_frame {A} P F (p : prog A) Q t s :
  keeps P F → all_calls P p → F t s → swp p Q t s → swp p (λ a t s, Q a t s ∧ F t s) t s.
Proof.
  intros HF. revert t s. induction p as [a|c k IH]; intros t s Hc Ht; cbn in *.
  - intros HQ s' Hs. split; [by apply HQ|by eapply keeps_steps].
  - intros Hwp s1 Hs1. destruct (Hwp s1 Hs1) as [Ha Hk], Hc as [Hp Hc]. split; [exact Ha|]. intros x s2 Hx.
    apply IH; [apply Hc| |by apply Hk]. eapply (keeps_call _ _ HF); [exact Hp|exact Hx|]. by eapply keeps_steps.
Qed.
(** A program whose calls are all allowed. *)
Lemma swp_any {A} (P : action → Prop) (p : prog A) t s :
  (∀ c t s, P c → allowed t s c) → all_calls P p → swp p (λ _ _ _, True) t s.
Proof.
  intros HP. revert t s. induction p as [a|c k IH]; intros t s Hc; cbn in *; [done|].
  intros s1 _. split; [apply HP, Hc|]. intros x s2 _. apply IH, Hc.
Qed.
Lemma swp_keeps {A} P F (p : prog A) t s :
  (∀ c t s, P c → allowed t s c) → keeps P F → all_calls P p → F t s → swp p (λ _, F) t s.
Proof.
  intros HP HF Hc Ht. eapply swp_mono; [|by apply (swp_frame P F); [exact HF|exact Hc|exact Ht|apply (swp_any P)]].
  by intros a t' s' [_ ?].
Qed.
Lemma guarded_never {A} (E P : action → Prop) G u s (p : prog A) :
  (∀ c, P c → ¬ E c) → all_calls P p → guarded E G u s p.
Proof.
  intros HP Hp t s' a pre s1 e post Hr -> He. exfalso. eapply HP, He. apply sruns_runs in Hr.
  eapply (all_calls_runs _ _ _ _ Hp Hr). rewrite fmap_app. apply elem_of_app. right. apply list_elem_of_here.
Qed.
End system.
End prog.

(** [calls] decides which calls a program makes, from its text and the facts of the database [calls]. *)
Create HintDb calls.
Ltac calls_step :=
  match goal with
  | |- all_calls _ (Ret _) => exact I
  | |- all_calls _ (ensure _ _) => exact I
  | |- all_calls _ (call _) => apply all_calls_call
  | |- all_calls _ (ebind (Ret _) _) => apply all_calls_returned; intros ? ?
  | |- all_calls _ (ebind _ _) => apply all_calls_ebind; [|intros ?]
  | |- all_calls _ (on_error _ _) => apply all_calls_on_error; [|intros ?]
  | |- all_calls _ (pbind _ _) => apply all_calls_bind; [|intros ?]
  | |- all_calls _ (each _ _) => apply all_calls_each; intros ?
  | |- all_calls _ _ => solve [auto with calls nocore]
  | |- all_calls _ (match ?b with _ => _ end) => destruct b eqn:?
  end.
Ltac calls := repeat calls_step; try done.

Notation "x ←! p ; k" := (ebind p (λ x : _, k)) (at level 20, p at level 100, k at level 200, only parsing) : go_scope.
Notation "x ←? p ; k" := (pbind p (λ x : _, k)) (at level 20, p at level 100, k at level 200, only parsing) : go_scope.
Notation "p 'or_else' f" := (on_error p f) (at level 90, f at level 89, only parsing) : go_scope.
