(* ===== verification/MySQLAdapter.v ===== *)
(** * adapters/mysql: what the operations on a MySQL cluster are made of

    The calls the adapter makes (statements sent to an instance, the writer
    endpoint's provider, the failover safety provider, the operation's durable
    progress) are the actions of [mysql_signature]; everything they answer is
    the environment's.  The programs of [probe.go], [dialect.go],
    [reparent.go], [semisync.go], [replication_credentials.go],
    [operation_plan.go] and the helpers of [switchover.go] follow.

    An error is the text its function prefixes the cause with.  [time.Now] and
    the fresh identifiers of execution and verification records are left out:
    an execution is its status, its failure class and its message.  A nil
    runner cannot occur: [NewWithSafetyProviders] replaces it. *)
From S2P Require Import Prelude GoStd Model Gtid Interfaces Candidates Program.
From stdpp Require Import pretty.
#[local] Open Scope Z_scope.

(** ** The environment *)

(** A context: the request's, the one a transition authorization guards, and those derived from them. *)
Inductive Context : Type :=
| RequestContext
| AuthorizedContext
| WithTimeout (parent : Context) (timeout : Duration)
| WithoutCancel (parent : Context).
#[export] Instance Context_eq_dec : EqDecision Context.
Proof. solve_decision. Defined.
(** Whether the request's end or the loss of the lease cancels the context. *)
Fixpoint cancellable (ctx : Context) : bool :=
  match ctx with
  | RequestContext | AuthorizedContext => true
  | WithTimeout parent _ => cancellable parent
  | WithoutCancel _ => false
  end.

(** [adapter.Endpoint] and [adapter.Credentials]. *)
Record SQLEndpoint : Type := mkSQLEndpoint { se_Hostname : string; se_IPAddress : string; se_Port : Z }.
#[export] Instance SQLEndpoint_eq_dec : EqDecision SQLEndpoint.
Proof. solve_decision. Defined.
Record Credentials : Type := mkCredentials { cr_Username : string; cr_Password : string; cr_Database : string }.
Abbreviation Row := (gmap string string) (only parsing).

(** The error of a statement: the server's code (0 when there is none), or an answer that is not understood. *)
Inductive sql_error : Type := ErrQuery (code : Z) | ErrResponse.
(** [errors.Is(err, ErrStatementUnsupported)]. *)
Definition StatementUnsupported (e : sql_error) : bool := match e with ErrQuery code => code =? 1064 | ErrResponse => false end.

(** [adapter.ResolvedOperation] with its credentials and observation token. *)
Record MySQLOperation : Type := mkMySQLOperation {
  mo_resolved : ResolvedOperation; mo_ObservationToken : string; mo_Credentials : Credentials;
  mo_ReplicationCredentials : Credentials
}.
#[export] Instance eta_ResolvedOperation : Settable ResolvedOperation := λ r,
  mkResolved (ro_OperationID r) (ro_AutomaticFailureIncidentAt r) (ro_Cluster r) (ro_Snapshot r) (ro_Primary r) (ro_Target r)
    (ro_PlanDigest r) (ro_VerifiedIsolatedSourceID r).
#[export] Instance eta_MySQLOperation : Settable MySQLOperation := λ r,
  mkMySQLOperation (mo_resolved r) (mo_ObservationToken r) (mo_Credentials r) (mo_ReplicationCredentials r).
Definition mo_Cluster (r : MySQLOperation) : DatabaseCluster := ro_Cluster (mo_resolved r).
Definition mo_Snapshot (r : MySQLOperation) : TopologySnapshot := ro_Snapshot (mo_resolved r).
Definition mo_Primary (r : MySQLOperation) : DatabaseInstance := ro_Primary (mo_resolved r).
Definition mo_Target (r : MySQLOperation) : DatabaseInstance := ro_Target (mo_resolved r).

(** [adapter.TransitionAuthorization]: which of its fields are not nil. *)
Record TransitionHandle : Type := mkTransitionHandle { th_Context : bool; th_Cancel : bool; th_Finalize : bool }.

Inductive mysql_action : Type :=
| Query (ctx : Context) (endpoint : SQLEndpoint) (credentials : Credentials) (query : string)
| Exec (ctx : Context) (endpoint : SQLEndpoint) (credentials : Credentials) (statement : string)
| Executable (ctx : Context)
| EndpointPrecheck (ctx : Context) (resolved : MySQLOperation)
| FormerPrimaryPrecheck (ctx : Context) (resolved : MySQLOperation)
| AuthorizeTransition (ctx : Context) (resolved : MySQLOperation)
| AuthorizationErr
| FinalizeTransition (ctx : Context)
| CancelTransition
| Transfer (ctx : Context) (resolved : MySQLOperation)
| EndpointVerify (ctx : Context) (resolved : MySQLOperation)
| SafetyPrecheck (ctx : Context) (resolved : MySQLOperation)
| Fence (ctx : Context) (resolved : MySQLOperation)
| SafetyVerify (ctx : Context) (resolved : MySQLOperation)
| CompleteStep (ctx : Context) (step message : string)
| StepCompleted (ctx : Context) (step : string)
| SetMaintenance (ctx : Context) (clusterID instanceID : ResourceID) (enabled : bool)
| Maintenance (ctx : Context) (clusterID instanceID : ResourceID)
| ContextErr (ctx : Context)
| Wait (ctx : Context) (interval : Duration)      (* a tick of the timer, unless the context is done first *)
| Now.
Definition mysql_answer (c : mysql_action) : Type :=
  match c with
  | Query _ _ _ _ => result sql_error (list Row)
  | Exec _ _ _ _ => result sql_error unit
  | Executable _ | Wait _ _ => bool
  | EndpointPrecheck _ _ | SafetyPrecheck _ _ => list Check
  | FormerPrimaryPrecheck _ _ => option (list Check)   (* [None]: the provider does not have the method *)
  | AuthorizeTransition _ _ => result string TransitionHandle
  | AuthorizationErr | FinalizeTransition _ | Transfer _ _ | Fence _ _ | CompleteStep _ _ _ | SetMaintenance _ _ _ _
  | ContextErr _ => result string unit
  | CancelTransition => unit
  | EndpointVerify _ _ | SafetyVerify _ _ => Check
  | StepCompleted _ _ | Maintenance _ _ _ => result string bool
  | Now => Time
  end.
#[export] Instance mysql_signature : Signature := {| action := mysql_action; answer := mysql_answer |}.
Definition perform (c : mysql_action) : prog (mysql_answer c) := call (Sg:=mysql_signature) c.
(** Returning an error. *)
Definition fail {E A} (e : E) : prog (result E A) := Ret (Err e).
Definition proceed {E} : prog (result E unit) := Ret (Ok tt).
Definition returning {E A} (r : result E A) : prog (result E A) := Ret r.

(** [adapter.OperationRequest]; [Progress] may be nil, and may not be able to read back. *)
Inductive OperationProgress : Type := NoProgress | ProgressRecorder | ProgressReader.
Record OperationRequest : Type := mkOperationRequest {
  or_Operation : Operation; or_TargetID : ResourceID; or_Parameters : gmap string string;
  or_Resolved : option MySQLOperation; or_Plan : option OperationPlan; or_Progress : OperationProgress
}.

(** [mysql.Adapter]: its configuration. *)
Record Adapter : Type := mkAdapter {
  ad_executor : bool; ad_semiSyncRequired : bool; ad_maximumReplicationLagSeconds : Z;
  ad_verificationAttempts : nat; ad_verificationInterval : Duration
}.
Definition defaultMaximumReplicationLagSeconds : Z := 10.
(** [NewWithSafetyProviders]; the runner may not be able to execute statements. *)
Definition NewWithSafetyProviders (executor : bool) : Adapter :=
  mkAdapter executor false defaultMaximumReplicationLagSeconds 15 Second.
Definition RequireSemiSync (required : bool) (a : Adapter) : Adapter :=
  mkAdapter (ad_executor a) required (ad_maximumReplicationLagSeconds a) (ad_verificationAttempts a) (ad_verificationInterval a).
Definition replicationLagMaximum (a : Adapter) : Z :=
  if ad_maximumReplicationLagSeconds a <? 0 then 0 else ad_maximumReplicationLagSeconds a.

Definition instanceEndpoint (instance : DatabaseInstance) : SQLEndpoint :=
  mkSQLEndpoint (inst_Hostname instance) (inst_IPAddress instance) (inst_Port instance).

(** ** Statements *)

Definition identityQuery : string := "SELECT @@server_uuid AS server_uuid, @@hostname AS hostname, @@port AS port, @@server_id AS server_id, @@version AS version, @@read_only AS read_only, @@super_read_only AS super_read_only, @@gtid_mode AS gtid_mode, @@GLOBAL.gtid_executed AS gtid_executed, @@GLOBAL.gtid_purged AS gtid_purged, @@log_bin AS log_bin, @@binlog_format AS binlog_format".
Definition replicaStatusQuery : string := "SHOW REPLICA STATUS".
Definition slaveStatusQuery : string := "SHOW SLAVE STATUS".
Definition gtidPositionQuery : string := "SELECT @@GLOBAL.gtid_executed AS gtid_executed".
Definition setSuperReadOnlyOn : string := "SET GLOBAL super_read_only = ON".
Definition setReadOnlyOn : string := "SET GLOBAL read_only = ON".
Definition setReadOnlyOff : string := "SET GLOBAL read_only = OFF".
Definition replicationCredentialProbeQuery : string := "SELECT 1 AS credential_ready".

Record mysqlDialect : Type := mkDialect {
  di_StopReplication : string; di_ResetReplication : string; di_StartReplication : string;
  di_PublicKeySourceOption : string; di_ModernSource : bool
}.
Fixpoint digit_prefix (s : string) : string :=
  match s with
  | String c s => if is_digit c then String c (digit_prefix s) else EmptyString
  | EmptyString => EmptyString
  end.
Definition numericVersionComponent (value : string) : option Z :=
  if digit_prefix value == "" then None else Atoi (digit_prefix value).

Definition dialectForVersion (version : string) : option mysqlDialect :=
  match Split "." (TrimSpace version) with
  | major :: minor :: rest =>
      major ← numericVersionComponent major;
      minor ← numericVersionComponent minor;
      let legacy := mkDialect "STOP SLAVE" "RESET SLAVE ALL" "START SLAVE" in
      let modern := mkDialect "STOP REPLICA" "RESET REPLICA ALL" "START REPLICA" "GET_SOURCE_PUBLIC_KEY=1" true in
      if (major <? 5) || ((major =? 5) && (minor <? 7)) then None
      else if major =? 5 then Some (legacy "" false)
      else if (major =? 8) && (minor =? 0) then
        match rest with
        | [] => None
        | patch :: _ =>
            patch ← numericVersionComponent patch;
            Some (if patch <? 22 then legacy "GET_MASTER_PUBLIC_KEY=1" false else modern)
        end
      else Some modern
  | _ => None
  end.

(** ** Probing an instance *)

Record identityProbe : Type := mkIdentity {
  ip_serverUUID : string; ip_hostname : string; ip_port : Z; ip_serverID : string; ip_version : string; ip_readOnly : bool;
  ip_superReadOnly : bool; ip_gtidMode : string; ip_gtidExecuted : string; ip_gtidPurged : string; ip_logBin : string;
  ip_binlogFormat : string
}.
Fixpoint first (row : Row) (names : list string) : string :=
  match names with
  | [] => ""
  | name :: names => let value := TrimSpace (mget row name) in if value == "" then first row names else value
  end.
Definition parseMySQLBoolean (value : string) : option bool :=
  let value := ToUpper (TrimSpace value) in
  if bool_decide (value ∈ ["1"; "ON"; "YES"; "TRUE"]) then Some true
  else if bool_decide (value ∈ ["0"; "OFF"; "NO"; "FALSE"]) then Some false
  else None.
Definition parseIdentity (row : Row) : option identityProbe :=
  port ← Atoi (first row ["port"]);
  guard (0 < port);;
  _ ← ParseUint (first row ["server_id"]) 10 64;
  readOnly ← parseMySQLBoolean (first row ["read_only"]);
  superReadOnly ← parseMySQLBoolean (first row ["super_read_only"]);
  let serverUUID := ToLower (first row ["server_uuid"]) in
  guard (serverUUID ≠ "");;
  Some (mkIdentity serverUUID (first row ["hostname"]) port (first row ["server_id"]) (first row ["version"]) readOnly superReadOnly
          (first row ["gtid_mode"]) (first row ["gtid_executed"]) (first row ["gtid_purged"]) (first row ["log_bin"])
          (first row ["binlog_format"])).
(** The answer to [identityQuery]. *)
Definition identity_of (r : result sql_error (list Row)) : result sql_error identityProbe :=
  match r with
  | Ok [row] => match parseIdentity row with Some identity => Ok identity | None => Err ErrResponse end
  | Ok _ => Err ErrResponse
  | Err e => Err e
  end.
Definition probeIdentity (ctx : Context) (endpoint : SQLEndpoint) (credentials : Credentials)
  : prog (result sql_error identityProbe) :=
  r ←? perform (Query ctx endpoint credentials identityQuery); Ret (identity_of r).

Definition parseThreadState (value : string) : ThreadState :=
  if value == "" then ThreadUnknown
  else if EqualFold value "Yes" then ThreadRunning
  else if EqualFold value "Connecting" then ThreadConnecting
  else ThreadStopped.
Definition parseReplication (row : Row) : option ReplicationStatus :=
  let sourceUUID := first row ["Source_UUID"; "Master_UUID"] in
  let lag := first row ["Seconds_Behind_Source"; "Seconds_Behind_Master"] in
  lagSeconds ← (if (lag == "") || EqualFold lag "NULL" then Some None else seconds ← Atoi lag; Some (Some seconds));
  Some (mkReplicationStatus (if sourceUUID == "" then ∅ else {["server_uuid" := ToLower sourceUUID]})
          (parseThreadState (first row ["Replica_IO_Running"; "Slave_IO_Running"]))
          (parseThreadState (first row ["Replica_SQL_Running"; "Slave_SQL_Running"]))
          lagSeconds (first row ["Retrieved_Gtid_Set"]) (first row ["Executed_Gtid_Set"])
          (first row ["Last_IO_Error"]) (first row ["Last_SQL_Error"]) (first row ["Last_SQL_Error"; "Last_IO_Error"; "Last_Error"])).
(** The status of the only channel, and whether there is one. *)
Definition replication_of (rows : list Row) : result sql_error (ReplicationStatus * bool) :=
  match rows with
  | [] => Ok (zero_ReplicationStatus <| repl_IOThread := ThreadUnknown |> <| repl_SQLThread := ThreadUnknown |>, false)
  | [row] => match parseReplication row with Some status => Ok (status, true) | None => Err ErrResponse end
  | _ => Err ErrResponse
  end.
Definition probeReplication (ctx : Context) (endpoint : SQLEndpoint) (credentials : Credentials)
  : prog (result sql_error (ReplicationStatus * bool)) :=
  rows ←! perform (Query ctx endpoint credentials replicaStatusQuery) or_else (λ e,
            if StatementUnsupported e then perform (Query ctx endpoint credentials slaveStatusQuery) else fail e);
  Ret (replication_of rows).

(** ** Semi-synchronous replication *)

Definition semiSyncVariablesQuery : string := "SHOW GLOBAL VARIABLES LIKE 'rpl_semi_sync%'".
Definition semiSyncStatusQuery : string := "SHOW GLOBAL STATUS LIKE 'Rpl_semi_sync%'".
Definition disableSemiSyncSource : string := "SET GLOBAL rpl_semi_sync_source_enabled = OFF".
Definition enableSemiSyncSource : string := "SET GLOBAL rpl_semi_sync_source_enabled = ON".
Definition disableSemiSyncMaster : string := "SET GLOBAL rpl_semi_sync_master_enabled = OFF".
Definition enableSemiSyncMaster : string := "SET GLOBAL rpl_semi_sync_master_enabled = ON".

Record semiSyncProbe : Type := mkSemiSync {
  ss_available : bool; ss_sourceEnabled : bool; ss_sourceStatus : bool; ss_sourceClients : Z; ss_replicaEnabled : bool;
  ss_replicaStatus : bool; ss_waitForReplicaCount : Z; ss_sourceTimeoutMS : Z; ss_waitNoReplica : bool; ss_waitPoint : string
}.
Definition zero_semiSyncProbe : semiSyncProbe := mkSemiSync false false false 0 false false 0 0 false "".

Definition semiSyncValues (rows : list Row) : gmap string string :=
  foldl (λ values row,
    let name := ToLower (TrimSpace (first row ["Variable_name"; "VARIABLE_NAME"])) in
    if name == "" then values else <[name := TrimSpace (first row ["Value"; "VARIABLE_VALUE"])]> values) ∅ rows.
Fixpoint semiSyncValue (values : gmap string string) (names : list string) : string :=
  match names with
  | [] => ""
  | name :: names => match values !! ToLower name with Some value => TrimSpace value | None => semiSyncValue values names end
  end.
Definition semiSyncBoolean (values : gmap string string) (names : list string) : option bool :=
  let value := semiSyncValue values names in if value == "" then Some false else parseMySQLBoolean value.
Definition semiSyncInteger (values : gmap string string) (names : list string) : option Z :=
  let value := semiSyncValue values names in
  if value == "" then Some 0 else parsed ← Atoi value; if parsed <? 0 then None else Some parsed.
Definition parseSemiSync (variableRows statusRows : list Row) : option semiSyncProbe :=
  let variables := semiSyncValues variableRows in
  let status := semiSyncValues statusRows in
  sourceEnabled ← semiSyncBoolean variables ["rpl_semi_sync_source_enabled"; "rpl_semi_sync_master_enabled"];
  replicaEnabled ← semiSyncBoolean variables ["rpl_semi_sync_replica_enabled"; "rpl_semi_sync_slave_enabled"];
  sourceStatus ← semiSyncBoolean status ["rpl_semi_sync_source_status"; "rpl_semi_sync_master_status"];
  replicaStatus ← semiSyncBoolean status ["rpl_semi_sync_replica_status"; "rpl_semi_sync_slave_status"];
  waitNoReplica ← semiSyncBoolean variables ["rpl_semi_sync_source_wait_no_replica"; "rpl_semi_sync_master_wait_no_slave"];
  sourceClients ← semiSyncInteger status ["rpl_semi_sync_source_clients"; "rpl_semi_sync_master_clients"];
  waitForReplicaCount ← semiSyncInteger variables ["rpl_semi_sync_source_wait_for_replica_count"; "rpl_semi_sync_master_wait_for_slave_count"];
  sourceTimeoutMS ← semiSyncInteger variables ["rpl_semi_sync_source_timeout"; "rpl_semi_sync_master_timeout"];
  Some (mkSemiSync (negb (bool_decide (variables = ∅)) || negb (bool_decide (status = ∅))) sourceEnabled sourceStatus sourceClients
          replicaEnabled replicaStatus waitForReplicaCount sourceTimeoutMS waitNoReplica
          (ToUpper (semiSyncValue variables ["rpl_semi_sync_source_wait_point"; "rpl_semi_sync_master_wait_point"]))).

(** The methods of [semiSyncProbe]. *)
Definition sourceConfigured (probe : semiSyncProbe) : bool :=
  ss_available probe && ss_sourceEnabled probe && (1 <=? ss_waitForReplicaCount probe) && (ss_waitPoint probe == "AFTER_SYNC").
Definition sourceReady (probe : semiSyncProbe) : bool :=
  sourceConfigured probe && ss_sourceStatus probe && (ss_waitForReplicaCount probe <=? ss_sourceClients probe).
Definition replicaReady (probe : semiSyncProbe) : bool :=
  sourceConfigured probe && ss_replicaEnabled probe && ss_replicaStatus probe.
Definition FormatBool (b : bool) : string := if b then "true" else "false".
Definition semiSync_metadata (probe : semiSyncProbe) : gmap string string :=
  list_to_map [("semi_sync_available", FormatBool (ss_available probe));
    ("semi_sync_source_enabled", FormatBool (ss_sourceEnabled probe));
    ("semi_sync_source_status", FormatBool (ss_sourceStatus probe));
    ("semi_sync_source_clients", pretty (ss_sourceClients probe));
    ("semi_sync_replica_enabled", FormatBool (ss_replicaEnabled probe));
    ("semi_sync_replica_status", FormatBool (ss_replicaStatus probe));
    ("semi_sync_wait_for_replica_count", pretty (ss_waitForReplicaCount probe));
    ("semi_sync_source_timeout_ms", pretty (ss_sourceTimeoutMS probe));
    ("semi_sync_wait_no_replica", FormatBool (ss_waitNoReplica probe));
    ("semi_sync_wait_point", ss_waitPoint probe)].
Definition boolMetadata (metadata : gmap string string) (name : string) : option bool := metadata !! name ≫= parseMySQLBoolean.
Definition intMetadata (metadata : gmap string string) (name : string) : option Z :=
  value ← metadata !! name; parsed ← Atoi (TrimSpace value); if parsed <? 0 then None else Some parsed.
Definition semiSyncFromMetadata (metadata : gmap string string) : option semiSyncProbe :=
  available ← boolMetadata metadata "semi_sync_available";
  sourceEnabled ← boolMetadata metadata "semi_sync_source_enabled";
  sourceStatus ← boolMetadata metadata "semi_sync_source_status";
  replicaEnabled ← boolMetadata metadata "semi_sync_replica_enabled";
  replicaStatus ← boolMetadata metadata "semi_sync_replica_status";
  waitNoReplica ← boolMetadata metadata "semi_sync_wait_no_replica";
  sourceClients ← intMetadata metadata "semi_sync_source_clients";
  waitForReplicaCount ← intMetadata metadata "semi_sync_wait_for_replica_count";
  sourceTimeoutMS ← intMetadata metadata "semi_sync_source_timeout_ms";
  let waitPoint := ToUpper (TrimSpace (mget metadata "semi_sync_wait_point")) in
  if waitPoint == "" then None
  else Some (mkSemiSync available sourceEnabled sourceStatus sourceClients replicaEnabled replicaStatus waitForReplicaCount
               sourceTimeoutMS waitNoReplica waitPoint).

Definition semiSyncSwitchoverCheck (primary target : DatabaseInstance) : Check :=
  match semiSyncFromMetadata (inst_EngineMetadata primary), semiSyncFromMetadata (inst_EngineMetadata target) with
  | Some primaryProbe, Some targetProbe =>
      if negb (sourceReady primaryProbe) then
        mkCheck "semi_sync_durability" CheckFail "current primary has no active semi-sync replica acknowledgement"
      else if negb (replicaReady targetProbe) then
        mkCheck "semi_sync_durability" CheckFail "selected target is not an active semi-sync replica with promotion-ready source configuration"
      else mkCheck "semi_sync_durability" CheckPass "semi-sync acknowledgement and target promotion configuration are ready"
  | _, _ => mkCheck "semi_sync_durability" CheckFail "current semi-sync evidence is incomplete"
  end.
Definition semiSyncFailoverCheck (target : DatabaseInstance) : Check :=
  checked_as "semi_sync_durability"
    (match semiSyncFromMetadata (inst_EngineMetadata target) with Some probe => replicaReady probe | None => false end)
    "selected failover target has current active semi-sync replica evidence"
    "selected failover target lacks current active semi-sync replica evidence".

Definition probeSemiSync (ctx : Context) (endpoint : SQLEndpoint) (credentials : Credentials)
  : prog (result sql_error semiSyncProbe) :=
  variables ←! perform (Query ctx endpoint credentials semiSyncVariablesQuery);
  status ←! perform (Query ctx endpoint credentials semiSyncStatusQuery);
  Ret (match parseSemiSync variables status with Some probe => Ok probe | None => Err ErrResponse end).
Definition verifySemiSyncPrimary (ctx : Context) (endpoint : SQLEndpoint) (credentials : Credentials) : prog Check :=
  probe ←? probeSemiSync ctx endpoint credentials;
  Ret (match probe with
       | Err _ => mkCheck "semi_sync_new_primary" CheckFail "new primary semi-sync state is unknown"
       | Ok probe =>
           checked_as "semi_sync_new_primary" (sourceReady probe) "new primary has active semi-sync replica acknowledgement"
             "new primary has no active semi-sync replica acknowledgement"
       end).

(** The loop that waits for the reactivated source: [attempts] probes, a quarter of a second apart. *)
Fixpoint semiSync_wait (attempts : nat) (ctx : Context) (endpoint : SQLEndpoint) (credentials : Credentials)
  : prog (result string unit) :=
  match attempts with
  | O => fail "promoted semi-sync source is not ready after reactivation"
  | S attempts =>
      probe ←? probeSemiSync ctx endpoint credentials;
      if (match probe with Ok probe => sourceReady probe | Err _ => false end) then proceed
      else match attempts with
      | O => fail "promoted semi-sync source is not ready after reactivation"
      | S _ =>
          tick ←? perform (Wait ctx (250 * Millisecond));
          if tick : bool then semiSync_wait attempts ctx endpoint credentials else fail "context done"
      end
  end.
Definition activateSemiSyncSource (ctx : Context) (endpoint : SQLEndpoint) (credentials : Credentials) (version : string)
  : prog (result string unit) :=
  probe ←! (probeSemiSync ctx endpoint credentials or_else (λ _, fail "probe MySQL semi-sync"));
  if sourceReady probe then proceed
  else if negb (sourceConfigured probe) then fail "promoted MySQL instance lacks complete semi-sync source configuration"
  else match dialectForVersion version with
  | None => fail "invalid MySQL version"
  | Some dialect =>
      let '(disable, enable) := if di_ModernSource dialect then (disableSemiSyncSource, enableSemiSyncSource)
                                else (disableSemiSyncMaster, enableSemiSyncMaster) in
      _ ←! (perform (Exec ctx endpoint credentials disable) or_else
              (λ _, fail "disable promoted semi-sync source before reactivation"));
      _ ←! (perform (Exec ctx endpoint credentials enable) or_else (λ _, fail "reactivate promoted semi-sync source"));
      semiSync_wait 40 ctx endpoint credentials
  end.

(** ** Replication credentials and GTID positions *)

Definition verifyTargetReplicationCredentials (ctx : Context) (target : SQLEndpoint) (credentials : Credentials)
  : prog (result string unit) :=
  _ ←! ensure (negb (TrimSpace (cr_Username credentials) == "") && negb (cr_Password credentials == ""))
         "target replication credentials are incomplete";
  rows ←! (perform (Query ctx target credentials replicationCredentialProbeQuery) or_else
             (λ _, fail "target replication credentials are not usable"));
  ensure (match rows with [row] => TrimSpace (mget row "credential_ready") == "1" | _ => false end)
    "target replication credential probe returned invalid evidence".

(** [strings.ReplaceAll(value, `'`, `''`)]. *)
Definition quote : ascii := "'".
Fixpoint double_quotes (value : string) : string :=
  match value with
  | EmptyString => EmptyString
  | String c value => if Ascii.eqb c quote then String quote (String quote (double_quotes value)) else String c (double_quotes value)
  end.
Definition mysqlStringLiteral (value : string) : string := String quote (double_quotes value +:+ String quote EmptyString).
Fixpoint contains_byte (b : ascii) (s : string) : bool :=
  match s with EmptyString => false | String c s => Ascii.eqb c b || contains_byte b s end.
Definition mysqlLiteralStatement (statement : string) (values : list string) : string :=
  if existsb (contains_byte "\") values then "SET SESSION sql_mode='NO_BACKSLASH_ESCAPES'; " +:+ statement else statement.

Definition wait_query (position : string) : string :=
  "SELECT WAIT_FOR_EXECUTED_GTID_SET(" +:+ mysqlStringLiteral position +:+ ", 30) AS wait_result".
(** The answer to [wait_query]: the position has been executed. *)
Definition wait_succeeded (r : result sql_error (list Row)) : bool :=
  match r with Ok [row] => TrimSpace (mget row "wait_result") == "0" | _ => false end.
Definition waitForExecutedGTIDSet (ctx : Context) (endpoint : SQLEndpoint) (credentials : Credentials) (position : string)
  : prog (result string unit) :=
  let position := TrimSpace position in
  _ ←! ensure (is_ok (ParseGTIDSet position)) "GTID position is invalid";
  r ←? perform (Query ctx endpoint credentials (wait_query position));
  ensure (wait_succeeded r) "GTID position was not executed within 30 seconds".
Definition queryExecutedGTIDSet (ctx : Context) (endpoint : SQLEndpoint) (credentials : Credentials)
  : prog (result string GTIDSet) :=
  rows ←! (perform (Query ctx endpoint credentials gtidPositionQuery) or_else (λ _, fail "query GTID position"));
  Ret (match rows with
       | [row] =>
           match row !! "gtid_executed" with
           | Some position => match ParseGTIDSet position with Ok set => Ok set | Err _ => Err "parse GTID position" end
           | None => Err "GTID position query omitted gtid_executed"
           end
       | _ => Err "GTID position query returned several rows"
       end).

(** ** Reparenting a follower *)

Definition followerReplicationStartTimeout : Duration := 30 * Second.
Definition followerReplicationPollInterval : Duration := 250 * Millisecond.
Definition followerReplicationStableSamples : nat := 3.
Definition replicationSourceConnectRetry : Z := 5.
Definition replicationSourceRetryCount : Z := 86400.

Definition buildChangeSourceStatement (version : string) (target : DatabaseInstance) (credentials : Credentials)
  : result string string :=
  match dialectForVersion version with
  | None => Err "invalid MySQL version"
  | Some dialect =>
      let ip := TrimSpace (inst_IPAddress target) in
      let host := if ip == "" then TrimSpace (inst_Hostname target) else ip in
      let options prefix :=
        prefix +:+ "_HOST=" +:+ mysqlStringLiteral host +:+ ", " +:+
        prefix +:+ "_PORT=" +:+ pretty (inst_Port target) +:+ ", " +:+
        prefix +:+ "_USER=" +:+ mysqlStringLiteral (cr_Username credentials) +:+ ", " +:+
        prefix +:+ "_PASSWORD=" +:+ mysqlStringLiteral (cr_Password credentials) +:+ ", " +:+
        prefix +:+ "_AUTO_POSITION=1, " +:+
        prefix +:+ "_CONNECT_RETRY=" +:+ pretty replicationSourceConnectRetry +:+ ", " +:+
        prefix +:+ "_RETRY_COUNT=" +:+ pretty replicationSourceRetryCount in
      let values := [host; cr_Username credentials; cr_Password credentials] in
      if (host == "") || (inst_Port target <=? 0) || (65535 <? inst_Port target) ||
         (TrimSpace (cr_Username credentials) == "") || (cr_Password credentials == "")
      then Err "replication source endpoint and credentials are required"
      else if di_ModernSource dialect then
        Ok (mysqlLiteralStatement ("CHANGE REPLICATION SOURCE TO " +:+ options "SOURCE" +:+ ", " +:+ di_PublicKeySourceOption dialect) values)
      else
        Ok (mysqlLiteralStatement ("CHANGE MASTER TO " +:+ options "MASTER" +:+
              (if di_PublicKeySourceOption dialect == "" then "" else ", " +:+ di_PublicKeySourceOption dialect)) values)
  end.

(** The replica follows the source of that UUID, both threads run and the lag is within the maximum. *)
Definition follows (targetUUID : string) (maximumLag : Z) (r : result sql_error (ReplicationStatus * bool)) : bool :=
  match r with
  | Ok (status, true) =>
      (server_uuid (repl_SourceIdentity status) == targetUUID) && (repl_IOThread status == ThreadRunning) &&
      (repl_SQLThread status == ThreadRunning) &&
      match repl_LagSeconds status with Some lag => (0 <=? lag) && (lag <=? maximumLag) | None => false end
  | _ => false
  end.
(** The number of ticks before the deadline of the wait; the loop ends at a tick the context wins, and after these at the latest. *)
Definition followerReplicationPolls : nat := Z.to_nat (followerReplicationStartTimeout / followerReplicationPollInterval).
Fixpoint follower_wait (polls stableSamples : nat) (ctx : Context) (endpoint : SQLEndpoint) (credentials : Credentials)
    (targetUUID : string) (maximumLag : Z) : prog (result string unit) :=
  status ←? probeReplication ctx endpoint credentials;
  let stableSamples := if follows targetUUID maximumLag status then S stableSamples else O in
  if Nat.leb followerReplicationStableSamples stableSamples then proceed
  else
    tick ←? perform (Wait ctx followerReplicationPollInterval);
    match polls with
    | S polls =>
        if tick : bool then follower_wait polls stableSamples ctx endpoint credentials targetUUID maximumLag
        else fail "replication health did not converge"
    | O => fail "replication health did not converge"
    end.
Definition waitForFollowerReplicationHealthy (ctx : Context) (endpoint : SQLEndpoint) (credentials : Credentials)
    (targetUUID : string) (maximumLag : Z) : prog (result string unit) :=
  follower_wait followerReplicationPolls 0 (WithTimeout ctx followerReplicationStartTimeout) endpoint credentials targetUUID maximumLag.

Section reparent.
Variable a : Adapter.

Definition reparentFollower (ctx : Context) (follower target : DatabaseInstance) (administrative replication : Credentials)
  : prog (result string unit) :=
  let endpoint := instanceEndpoint follower in
  let version := mget (inst_EngineMetadata follower) "version" in
  _ ←! (perform (Exec ctx endpoint administrative setSuperReadOnlyOn) or_else (λ _, fail "fence follower"));
  _ ←! (perform (Exec ctx endpoint administrative setReadOnlyOn) or_else (λ _, fail "confirm follower read-only"));
  probed ←! (probeReplication ctx endpoint administrative or_else (λ _, fail "probe follower replication"));
  match dialectForVersion version with
  | None => fail "invalid MySQL version"
  | Some dialect =>
      _ ←! (if probed.2 : bool then
              _ ←! (perform (Exec ctx endpoint administrative (di_StopReplication dialect)) or_else
                      (λ _, fail "stop follower replication"));
              perform (Exec ctx endpoint administrative (di_ResetReplication dialect)) or_else
                (λ _, fail "reset follower replication")
            else proceed);
      statement ←! returning (buildChangeSourceStatement version target replication);
      _ ←! (perform (Exec ctx endpoint administrative statement) or_else (λ _, fail "configure follower source"));
      _ ←! (perform (Exec ctx endpoint administrative (di_StartReplication dialect)) or_else
              (λ _, fail "start follower replication"));
      let targetUUID := server_uuid (inst_EngineIdentity target) in
      let maximumLag := replicationLagMaximum a in
      _ ←! (waitForFollowerReplicationHealthy ctx endpoint administrative targetUUID maximumLag or_else
              (λ _, fail "verify follower replication configuration"));
      rows ←? perform (Query ctx (instanceEndpoint target) administrative gtidPositionQuery);
      match rows with
      | Ok [row] =>
          let targetGTID := TrimSpace (mget row "gtid_executed") in
          _ ←! (if targetGTID == "" then proceed
                else waitForExecutedGTIDSet ctx endpoint administrative targetGTID or_else
                       (λ _, fail "wait for follower GTID catch-up"));
          waitForFollowerReplicationHealthy ctx endpoint administrative targetUUID maximumLag or_else
            (λ _, fail "follower did not remain healthy after GTID catch-up")
      | _ => fail "capture target GTID for follower catch-up"
      end
  end.

(** The checks of a follower's writer state; whether it is writable; whether it could be observed. *)
Definition verifyFollowerWriterState (ctx : Context) (follower : DatabaseInstance) (credentials : Credentials)
  : prog (list Check * bool * bool) :=
  let suffix := inst_ResourceID follower in
  identity ←? probeIdentity ctx (instanceEndpoint follower) credentials;
  Ret match identity with
      | Err _ => ([mkCheck ("follower_reachable_" +:+ suffix) CheckFail "follower reachability is unknown"], false, false)
      | Ok identity =>
          ([checked_as ("follower_identity_" +:+ suffix) (ip_serverUUID identity == server_uuid (inst_EngineIdentity follower))
              "follower identity matches the immutable resource" "follower identity changed";
            checked_as ("follower_read_only_" +:+ suffix) (ip_readOnly identity && ip_superReadOnly identity)
              "follower is fully read-only" "follower is not fully read-only"],
           negb (ip_readOnly identity) && negb (ip_superReadOnly identity), true)
      end.
Definition verifyFollowerReplication (ctx : Context) (follower target : DatabaseInstance) (credentials : Credentials) : prog Check :=
  let name := "follower_replication_" +:+ inst_ResourceID follower in
  let maximumLag := replicationLagMaximum a in
  status ←? probeReplication ctx (instanceEndpoint follower) credentials;
  Ret match status with
      | Ok (s, _) =>
          checked_as name (follows (server_uuid (inst_EngineIdentity target)) maximumLag status)
            ("follower replication is healthy on the selected target with " +:+ pretty (default 0 (repl_LagSeconds s)) +:+
             "s lag within the " +:+ pretty maximumLag +:+ "s verification maximum")
            ("follower replication source, threads, or lag does not satisfy the " +:+ pretty maximumLag +:+ "s verification maximum")
      | Err _ => mkCheck name CheckFail
          ("follower replication source, threads, or lag does not satisfy the " +:+ pretty maximumLag +:+ "s verification maximum")
      end.
Definition verifyFollower (ctx : Context) (follower target : DatabaseInstance) (credentials : Credentials)
  : prog (list Check * bool) :=
  state ←? verifyFollowerWriterState ctx follower credentials;
  let '(checks, writable, observed) := state : list Check * bool * bool in
  if observed then
    check ←? verifyFollowerReplication ctx follower target credentials;
    Ret (checks ++ [check], writable)
  else Ret (checks, writable).
End reparent.

(** ** Fencing *)

Definition fenced_identity (identity : identityProbe) : bool := ip_readOnly identity && ip_superReadOnly identity.
Definition writable_identity (identity : identityProbe) : bool := negb (ip_readOnly identity) && negb (ip_superReadOnly identity).
Definition queryFencedState (ctx : Context) (endpoint : SQLEndpoint) (credentials : Credentials) : prog (result sql_error bool) :=
  identity ←! probeIdentity ctx endpoint credentials; Ret (Ok (fenced_identity identity)).
Definition queryWritableState (ctx : Context) (endpoint : SQLEndpoint) (credentials : Credentials) : prog (result sql_error bool) :=
  identity ←! probeIdentity ctx endpoint credentials; Ret (Ok (writable_identity identity)).
(** Under a context that neither the request nor the lease can cancel. *)
Definition fenceInstance (ctx : Context) (endpoint : SQLEndpoint) (credentials : Credentials) : prog (result sql_error unit) :=
  let recoveryContext := WithTimeout (WithoutCancel ctx) (10 * Second) in
  fenced ←? queryFencedState recoveryContext endpoint credentials;
  match fenced with
  | Ok true => proceed
  | _ =>
      _ ←! perform (Exec recoveryContext endpoint credentials setSuperReadOnlyOn);
      perform (Exec recoveryContext endpoint credentials setReadOnlyOn)
  end.

(** ** Outcomes and durable progress *)

(** [executionFailure]: the status of the execution, the failure class, and what failed. *)
Record execution_failure : Type := mkFailure { xf_status : OperationStatus; xf_class : string; xf_cause : string }.
(** An execution that goes on to verification, with its message, or a failure. *)
Definition outcome : Type := result execution_failure string.
Definition executionFailure {A} (status : OperationStatus) (class cause : string) : prog (result execution_failure A) :=
  fail (mkFailure status class cause).
Definition newExecution (message : string) : prog outcome := Ret (Ok message).

Definition completeOperationStep (ctx : Context) (request : OperationRequest) (step message : string) : prog (result string unit) :=
  match or_Progress request with NoProgress => proceed | _ => perform (CompleteStep ctx step message) end.
Definition operationStepCompleted (ctx : Context) (request : OperationRequest) (step : string) : prog (result string bool) :=
  match or_Progress request with ProgressReader => perform (StepCompleted ctx step) | _ => Ret (Ok false) end.
Fixpoint all_steps_completed (ctx : Context) (request : OperationRequest) (steps : list PlanStep) : prog (result string bool) :=
  match steps with
  | [] => Ret (Ok true)
  | step :: steps =>
      if step_Mutating step then
        completed ←! operationStepCompleted ctx request (step_Name step);
        if completed : bool then all_steps_completed ctx request steps else Ret (Ok false)
      else all_steps_completed ctx request steps
  end.
Definition allMutationStepsCompleted (ctx : Context) (request : OperationRequest) : prog (result string bool) :=
  match or_Plan request, or_Progress request with
  | None, _ | _, NoProgress => Ret (Ok false)
  | Some plan, _ => all_steps_completed ctx request (plan_Steps plan)
  end.

Definition authorizeEndpointTransition (ctx : Context) (request : OperationRequest) (resolved : MySQLOperation)
  : prog (result string unit) :=
  authorization ←! perform (AuthorizeTransition ctx resolved);
  if negb (th_Context authorization) || negb (th_Cancel authorization) || negb (th_Finalize authorization)
  then fail "endpoint provider returned an incomplete transition authorization"
  else
    _ ←! (perform AuthorizationErr or_else (λ _,
            _ ←? perform CancelTransition; fail "target transition authorization is inactive"));
    completeOperationStep (WithoutCancel ctx) request "authorize_target_transition" "target transition lease is active" or_else (λ e,
      _ ←? perform CancelTransition; fail e).
(** [defer authorization.Cancel()] around the rest of the function. *)
Definition deferring_cancel {A} (rest : prog A) : prog A := a ←? rest; _ ←? perform CancelTransition; Ret a.
