(* ===== verification/MySQLPlans.v ===== *)
(** * adapters/mysql: checks and plans

    The verdicts over lists of checks and the integrity of an operation plan
    ([operation_plan.go], [switchover.go]), for switchover, failover and
    rejoin.  The SHA-256 of the JSON encoding of a plan is the parameter
    [PlanSHA256], and the RFC 3339 form of an instant [FormatTime]. *)
From S2P Require Import Prelude GoStd Model Interfaces Candidates Program MySQLAdapter.

(** ** Verdicts *)

Definition planHasBlockingChecks (checks : list Check) : bool :=
  match checks with
  | [] => true
  | _ => existsb (λ check, (TrimSpace (check_Name check) == "") || (check_Status check != CheckPass)) checks
  end.
(** The planned switchover tolerates warnings. *)
Definition switchoverPlanHasBlockingChecks (checks : list Check) : bool :=
  match checks with
  | [] => true
  | _ => existsb (λ check, (TrimSpace (check_Name check) == "") ||
           negb (bool_decide (check_Status check ∈ [CheckPass; CheckWarn]))) checks
  end.
Definition failedCheckNamed (checks : list Check) (name : string) : bool :=
  existsb (λ check, (check_Name check == name) && (check_Status check == CheckFail)) checks.
Definition passedCheckNamed (checks : list Check) (name : string) : bool :=
  existsb (λ check, (check_Name check == name) && (check_Status check == CheckPass)) checks.
Definition endpointOwnerVerified (check : Check) : bool :=
  (check_Name check == "writer_endpoint_owner") && (check_Status check == CheckPass).
Definition sanitizeEndpointCheck (check : Check) (expectedName : string) : Check :=
  let name := TrimSpace (check_Name check) in
  if name == "" then mkCheck expectedName CheckFail "writer endpoint provider returned unnamed evidence"
  else if name != expectedName then mkCheck expectedName CheckFail "writer endpoint provider returned unexpected evidence"
  else mkCheck name (check_Status check)
         match check_Status check with
         | CheckPass => "writer endpoint evidence passed"
         | CheckFail => "writer endpoint evidence failed"
         | _ => "writer endpoint evidence is incomplete"
         end.

(** The instances of the snapshot but one, in the order of their identifiers. *)
Definition instance_le (x y : DatabaseInstance) : Prop := id_le (inst_ResourceID x) (inst_ResourceID y).
#[export] Instance instance_le_dec : RelDecision instance_le.
Proof. intros x y. unfold instance_le. apply _. Defined.

(** ** Plans *)

Section plans.
Variables (PlanSHA256 : OperationPlan → string) (FormatTime : Time → string).

Definition operationPlanDigest (plan : OperationPlan) : string :=
  "sha256:" +:+ PlanSHA256 (plan <| plan_ResourceID := "" |> <| plan_MetadataRevision := 0 |> <| plan_CreatedAt := zero_time |>
    <| plan_UpdatedAt := zero_time |> <| plan_Digest := "" |>).
Definition resolvedObservationToken (resolved : MySQLOperation) : string :=
  let token := TrimSpace (mo_ObservationToken resolved) in
  if token == "" then cluster_ResourceID (mo_Cluster resolved) +:+ "@" +:+ FormatTime (topo_ObservedAt (mo_Snapshot resolved))
  else token.
Definition planResourceRevisions (resolved : MySQLOperation) : gmap ResourceID uint64 :=
  foldl (λ revisions instance, <[inst_ResourceID instance := inst_MetadataRevision instance]> revisions)
    {[cluster_ResourceID (mo_Cluster resolved) := cluster_MetadataRevision (mo_Cluster resolved)]}
    (topo_Instances (mo_Snapshot resolved)).
Definition revision_of (plan : OperationPlan) (id : ResourceID) : uint64 := default 0 (plan_ResourceRevisions plan !! id).

(** The loop over the instances of [validateMySQLPlan]. *)
Definition instance_revision_ok (strictRevisions : bool) (resolved : MySQLOperation) (plan : OperationPlan)
    (instance : DatabaseInstance) : bool :=
  let revision := revision_of plan (inst_ResourceID instance) in
  negb (revision =? 0) &&
  negb (strictRevisions && (mo_ObservationToken resolved == "") && negb (revision =? inst_MetadataRevision instance)).
Definition validateMySQLPlan (request : OperationRequest) (kind : OperationKind) (strictRevisions : bool) : result string unit :=
  match or_Resolved request, or_Plan request with
  | Some resolved, Some plan =>
      _ ← reject (opn_Kind (or_Operation request) != kind) "operation plan is incomplete";
      _ ← require ((plan_OperationID plan == opn_ResourceID (or_Operation request)) &&
                   (plan_ClusterID plan == cluster_ResourceID (mo_Cluster resolved)) &&
                   (plan_SourceID plan == inst_ResourceID (mo_Primary resolved)) &&
                   (plan_TargetID plan == inst_ResourceID (mo_Target resolved)) && (plan_TargetID plan == or_TargetID request))
            "operation plan resources changed";
      _ ← require ((plan_Stage plan == StagePlan) && (plan_Digest plan != "") && (plan_ObservationToken plan != ""))
            "operation plan integrity fields are missing";
      _ ← require (plan_ObservationToken plan == resolvedObservationToken resolved) "operation plan observation token changed";
      _ ← require (operationPlanDigest plan == plan_Digest plan) "operation plan digest changed";
      _ ← reject (planHasBlockingChecks (plan_Checks plan)) "operation plan contains blocking checks";
      _ ← reject (revision_of plan (cluster_ResourceID (mo_Cluster resolved)) =? 0) "operation plan cluster revision is missing";
      _ ← require (forallb (instance_revision_ok strictRevisions resolved plan) (topo_Instances (mo_Snapshot resolved)))
            "operation plan instance revision changed";
      reject (strictRevisions && (mo_ObservationToken resolved == "") &&
              negb (revision_of plan (cluster_ResourceID (mo_Cluster resolved)) =? cluster_MetadataRevision (mo_Cluster resolved)))
        "operation plan cluster revision changed"
  | _, _ => Err "operation plan is incomplete"
  end.

(** A resource is the one the plan was made for. *)
Definition planned_revision_ok (resolved : MySQLOperation) (plan : OperationPlan) (id : ResourceID) (revision : uint64) : bool :=
  negb (revision =? 0) && negb (revision_of plan id =? 0) &&
  negb ((mo_ObservationToken resolved == "") && negb (revision_of plan id =? revision)).
Definition plan_scope_ok (request : OperationRequest) (resolved : MySQLOperation) (plan : OperationPlan) : bool :=
  (plan_OperationID plan == opn_ResourceID (or_Operation request)) && (plan_ClusterID plan == opn_ClusterID (or_Operation request)) &&
  (plan_SourceID plan == inst_ResourceID (mo_Primary resolved)) && (plan_TargetID plan == or_TargetID request) &&
  (plan_TargetID plan == inst_ResourceID (mo_Target resolved)).
Definition plan_digest_ok (plan : OperationPlan) : bool :=
  (plan_Digest plan != "") && (operationPlanDigest plan == plan_Digest plan).
Definition validateExecutionPlan (request : OperationRequest) : result string unit :=
  match or_Plan request, or_Resolved request with
  | None, _ => Err "an immutable operation plan is required"
  | _, None => Err "resolved MySQL operation context is required"
  | Some plan, Some resolved =>
      _ ← require (plan_digest_ok plan) "operation plan digest changed";
      _ ← require (plan_scope_ok request resolved plan) "operation plan resource scope changed";
      _ ← require (plan_ObservationToken plan == resolvedObservationToken resolved) "operation plan observation token changed";
      _ ← require (planned_revision_ok resolved plan (cluster_ResourceID (mo_Cluster resolved))
                     (cluster_MetadataRevision (mo_Cluster resolved))) "operation plan resource revision changed";
      _ ← require (forallb (λ instance, planned_revision_ok resolved plan (inst_ResourceID instance) (inst_MetadataRevision instance))
                     (topo_Instances (mo_Snapshot resolved))) "operation plan follower resource revision changed";
      reject (switchoverPlanHasBlockingChecks (plan_Checks plan)) "operation plan contains blocking checks"
  end.
Definition validateVerificationPlan (request : OperationRequest) : result string unit :=
  match or_Plan request, or_Resolved request with
  | Some plan, Some resolved =>
      _ ← require (plan_digest_ok plan) "operation plan digest changed";
      _ ← require (plan_scope_ok request resolved plan) "operation plan resource scope changed";
      _ ← reject (TrimSpace (plan_ObservationToken plan) == "") "operation plan observation token is missing";
      _ ← require (forallb (λ id, negb (revision_of plan id =? 0))
                     (cluster_ResourceID (mo_Cluster resolved) :: (inst_ResourceID <$> topo_Instances (mo_Snapshot resolved))))
            "operation plan resource revisions are incomplete";
      reject (switchoverPlanHasBlockingChecks (plan_Checks plan)) "operation plan contains blocking checks"
  | _, _ => Err "an immutable operation plan and resolved context are required"
  end.
End plans.
