(* ===== verification/SimulatedMySQL.v ===== *)
(** * A simulated pair of MySQL servers

    A concrete environment for the adapter's programs: a primary and its
    replica, the writer endpoint's provider, the safety provider and the
    operation's progress, as one handler of all calls.  [broken] tells which
    calls fail.  The witnesses of the theorems on the MySQL operations run the
    programs against it. *)
From S2P Require Import Prelude GoStd Model Interfaces Candidates Program MySQLAdapter MySQLPlans.
#[local] Open Scope Z_scope.

(** A server: read-only and super read-only or neither, and the identity of the server that it follows, if any. *)
Record Server : Type := mkServer { sv_fenced : bool; sv_source : string }.
#[export] Instance eta_Server : Settable Server := λ v, mkServer (sv_fenced v) (sv_source v).
Record Simulated : Type := mkSimulated {
  sim_servers : gmap string Server;   (* by host *)
  sim_owner : bool                    (* the endpoint is the target's *)
}.
#[export] Instance eta_Simulated : Settable Simulated := λ w, mkSimulated (sim_servers w) (sim_owner w).

(** The primary is db1; db2 and db3 follow it. *)
Definition sim_uuid (host : string) : string :=
  if host == "db1" then "00000000-0000-4000-8000-00000000000a"
  else if host == "db2" then "00000000-0000-4000-8000-00000000000b" else "00000000-0000-4000-8000-00000000000c".
Definition sim_start : Simulated :=
  mkSimulated (list_to_map [("db1", mkServer false ""); ("db2", mkServer true (sim_uuid "db1")); ("db3", mkServer true (sim_uuid "db1"))]) false.
Definition sim_history : string := "00000000-0000-4000-8000-00000000000a:1-9".
Definition sim_id (n : string) : ResourceID := "00000000-0000-4000-8000-00000000000" +:+ n.
Definition sim_instance (n host : string) (role : InstanceRole) (health : HealthState) : DatabaseInstance :=
  let replica := FormatBool (role == RoleReplica) in
  zero_DatabaseInstance <| inst_ResourceID := sim_id n |> <| inst_ClusterID := sim_id "0" |> <| inst_Engine := EngineMySQL |>
    <| inst_Hostname := host |> <| inst_Port := 3306 |> <| inst_Role := role |> <| inst_MetadataRevision := 1 |>
    <| inst_PromotionEligible := true |>
    <| inst_Health := zero_Health <| health_State := health |> |> <| inst_EngineIdentity := {["server_uuid" := sim_uuid host]} |>
    <| inst_EngineMetadata := list_to_map [("gtid_mode", "ON"); ("version", "8.0.36"); ("log_bin", "ON"); ("gtid_executed", sim_history);
         ("read_only", replica); ("super_read_only", replica)] |>
    <| inst_Replication := if role == RoleReplica then zero_ReplicationStatus
         <| repl_IOThread := ThreadRunning |> <| repl_SQLThread := ThreadRunning |> <| repl_LagSeconds := Some 0 |>
         <| repl_SourceIdentity := {["server_uuid" := sim_uuid "db1"]} |> <| repl_ExecutedPosition := sim_history |>
       else zero_ReplicationStatus |>.
Definition sim_primary (health : HealthState) : DatabaseInstance := sim_instance "1" "db1" RolePrimary health.
Definition sim_replica (n host : string) : DatabaseInstance := sim_instance n host RoleReplica HealthHealthy.
Definition sim_probe (n : string) : ProbeStatus := zero_ProbeStatus <| probe_InstanceID := sim_id n |>
  <| probe_DiscoveryObservedAt := 1000 |> <| probe_Health := zero_Health <| health_State := HealthHealthy |> |>.
Definition sim_snapshot (health : HealthState) : TopologySnapshot := zero_TopologySnapshot <| topo_ClusterID := sim_id "0" |>
  <| topo_Instances := [sim_primary health; sim_replica "2" "db2"; sim_replica "3" "db3"] |>
  <| topo_Probes := [sim_probe "1"; sim_probe "2"; sim_probe "3"] |> <| topo_ObservedAt := 1000 |>.
Definition sim_credentials : Credentials := mkCredentials "admin" "secret" "".
Definition sim_cluster : DatabaseCluster :=
  zero_DatabaseCluster <| cluster_ResourceID := sim_id "0" |> <| cluster_Engine := EngineMySQL |> <| cluster_MetadataRevision := 1 |>.
(** The operation on a cluster whose primary has that health. *)
Definition sim_resolved (health : HealthState) : MySQLOperation :=
  mkMySQLOperation (mkResolved (sim_id "9") zero_time sim_cluster (sim_snapshot health) (sim_primary health) (sim_replica "2" "db2") "" "")
    "token" sim_credentials sim_credentials.
Definition sim_source : SQLEndpoint := mkSQLEndpoint "db1" "" 3306.
Definition sim_target : SQLEndpoint := mkSQLEndpoint "db2" "" 3306.

(** The answers. *)
Definition on_off (b : bool) : string := if b then "1" else "0".
Definition sim_server (w : Simulated) (host : string) : Server := default (mkServer true "") (sim_servers w !! host).
Definition sim_identity (w : Simulated) (host : string) : gmap string string :=
  let fenced := on_off (sv_fenced (sim_server w host)) in
  list_to_map [("server_uuid", sim_uuid host); ("port", "3306"); ("server_id", "1"); ("version", "8.0.36"); ("read_only", fenced);
    ("super_read_only", fenced); ("gtid_mode", "ON"); ("gtid_executed", sim_history); ("log_bin", "ON")].
Definition sim_replication (w : Simulated) (host : string) : list (gmap string string) :=
  let source := sv_source (sim_server w host) in
  if source == "" then []
  else [list_to_map [("Source_UUID", source); ("Replica_IO_Running", "Yes"); ("Replica_SQL_Running", "Yes");
          ("Seconds_Behind_Source", "0"); ("Executed_Gtid_Set", sim_history)]].
Definition sim_query (w : Simulated) (host query : string) : list (gmap string string) :=
  if query == identityQuery then [sim_identity w host]
  else if query == replicaStatusQuery then sim_replication w host
  else if query == gtidPositionQuery then [{["gtid_executed" := sim_history]}]
  else if query == replicationCredentialProbeQuery then [{["credential_ready" := "1"]}]
  else if HasPrefix query "SELECT WAIT_FOR_EXECUTED_GTID_SET" then [{["wait_result" := "0"]}]
  else [].
(** A replica is always attached to db2, and db2 to db1. *)
Definition sim_statement (host statement : string) (v : Server) : Server :=
  if statement == setSuperReadOnlyOn then v <| sv_fenced := true |>
  else if statement == setReadOnlyOff then v <| sv_fenced := false |>
  else if HasPrefix statement "RESET" then v <| sv_source := "" |>
  else if HasPrefix statement "CHANGE" then v <| sv_source := sim_uuid (if host == "db2" then "db1" else "db2") |>
  else v.
Definition sim_ok (b : bool) : result string unit := if b then Err "broken" else Ok tt.
Definition sim_check (name : string) (pass : bool) : Check := mkCheck name (if pass then CheckPass else CheckFail) "".

Section handler.
Variable broken : mysql_action → bool.
Definition sim_effect (c : mysql_action) (w : Simulated) : Simulated :=
  if broken c then w
  else match c with
       | Exec _ endpoint _ statement =>
           w <| sim_servers ::= alter (sim_statement (se_Hostname endpoint) statement) (se_Hostname endpoint) |>
       | Transfer _ _ => w <| sim_owner := true |>
       | _ => w
       end.
Definition sim_handle (c : mysql_action) (w : Simulated) : Simulated * mysql_answer c :=
  (sim_effect c w,
   match c return mysql_answer c with
   | Query _ endpoint _ query =>
       if broken c then Err ErrResponse else Ok (sim_query w (se_Hostname endpoint) query)
   | Exec _ _ _ _ => if broken c then Err ErrResponse else Ok tt
   | Executable _ | Wait _ _ => negb (broken c)
   | EndpointPrecheck _ _ => [sim_check "writer_endpoint_provider" true]
   | SafetyPrecheck _ _ => [sim_check "failover_safety_provider" true]
   | FormerPrimaryPrecheck _ _ => Some [sim_check "former_primary_endpoint" true]
   | AuthorizeTransition _ _ => if broken c then Err "broken" else Ok (mkTransitionHandle true true true)
   | AuthorizationErr | FinalizeTransition _ | Transfer _ _ | Fence _ _ | CompleteStep _ _ _ | SetMaintenance _ _ _ _
   | ContextErr _ => sim_ok (broken c)
   | CancelTransition => tt
   | EndpointVerify _ _ => sim_check "writer_endpoint_owner" (sim_owner w)
   | SafetyVerify _ _ => sim_check "old_primary_fenced" (negb (broken c))
   | StepCompleted _ _ | Maintenance _ _ _ => Ok false
   | Now => 1000
   end).
(** The trace of a program, and what it returns. *)
Definition simulate {A} (p : prog A) : list event * A := trace (Sg:=mysql_signature) (λ c w, sim_handle c w) p sim_start.
Lemma simulate_runs {A} (p : prog A) : runs p (simulate p).1 (simulate p).2.
Proof. apply trace_runs. Qed.
End handler.
Definition nothing_broken (c : mysql_action) : bool := false.

(** A plan that the adapter's checks accept, for a digest that does not tell plans apart. *)
Definition sim_digest (plan : OperationPlan) : string := "1".
Definition sim_format (t : Time) : string := "".
Definition sim_plan (steps : list PlanStep) : OperationPlan :=
  zero_OperationPlan <| plan_OperationID := sim_id "9" |> <| plan_ClusterID := sim_id "0" |> <| plan_SourceID := sim_id "1" |>
    <| plan_TargetID := sim_id "2" |> <| plan_Stage := StagePlan |> <| plan_Digest := "sha256:1" |> <| plan_ObservationToken := "token" |>
    <| plan_ResourceRevisions := list_to_map [(sim_id "0", 1); (sim_id "1", 1); (sim_id "2", 1); (sim_id "3", 1)] |>
    <| plan_Checks := [mkCheck "ready" CheckPass ""] |> <| plan_Steps := steps |>.
Definition sim_request (kind : OperationKind) (resolved : MySQLOperation) (steps : list PlanStep) : OperationRequest :=
  mkOperationRequest (zero_Operation <| opn_ResourceID := sim_id "9" |> <| opn_ClusterID := sim_id "0" |> <| opn_Kind := kind |>
      <| opn_Engine := EngineMySQL |>)
    (sim_id "2") ∅ (Some resolved) (Some (sim_plan steps)) ProgressReader.
Definition sim_adapter : Adapter := NewWithSafetyProviders true.
