(* ===== verification/Promotion.v ===== *)
(** * What an observer of a promotion knows

    The monitor that the theorems on switchover and failover are about: it
    watches the calls of an operation that promotes the instance at [T] in
    place of the one at [S], and keeps the evidence that has been collected
    about the source, and whether the target may have been left writable. *)
From S2P Require Import Prelude GoStd Model Gtid Interfaces Candidates Program MySQLAdapter MySQLPlans.

Record Evidence : Type := mkEvidence {
  ev_authorized : bool;          (* the transition lease was granted *)
  ev_super : bool;               (* the source accepted [super_read_only = ON] *)
  ev_seen : bool;                (* the source answered that it is fully read-only *)
  ev_fenced : bool;              (* the source is fenced, by this operation *)
  ev_captured : option string;   (* the position of the fenced source *)
  ev_ready : bool;               (* the target has executed that position *)
  ev_isolated : bool;            (* the safety provider confirmed that the old primary is fenced *)
  ev_mutated : bool;             (* a statement that changes an instance may have had an effect *)
  ev_enabled : bool;             (* the target may be writable because this operation said so *)
  ev_tsuper : bool;              (* since then, the target accepted [super_read_only = ON] *)
  ev_tried : bool;               (* since then, fencing the target has been tried *)
  ev_owner : bool;               (* the endpoint provider last confirmed the target as owner *)
  ev_finalized : bool;           (* the stable lease of the target was granted *)
  ev_unrecorded : bool           (* progress could not be recorded *)
}.
#[export] Instance eta_Evidence : Settable Evidence := λ r,
  mkEvidence (ev_authorized r) (ev_super r) (ev_seen r) (ev_fenced r) (ev_captured r) (ev_ready r) (ev_isolated r) (ev_mutated r)
    (ev_enabled r) (ev_tsuper r) (ev_tried r) (ev_owner r) (ev_finalized r) (ev_unrecorded r).
Definition no_evidence : Evidence :=
  mkEvidence false false false false None false false false false false false false false false.

(** The column of the only row that carries the position. *)
Definition position_of (r : result sql_error (list Row)) : option string :=
  match r with Ok [row] => TrimSpace <$> row !! "gtid_executed" | _ => None end.
Definition fenced_answer (r : result sql_error (list Row)) : bool :=
  match identity_of r with Ok identity => fenced_identity identity | Err _ => false end.

Section evidence.
Variables (S T : SQLEndpoint).

(** A statement at the source. *)
Definition at_source (endpoint : SQLEndpoint) (statement : string) (ok : bool) (m : Evidence) : Evidence :=
  if endpoint == S then
    if statement == setSuperReadOnlyOn then m <| ev_super ::= orb ok |>
    else if statement == setReadOnlyOn then m <| ev_fenced ::= orb (ok && ev_super m) |>
    else m
  else m.
(** A statement at the target. *)
Definition at_target (endpoint : SQLEndpoint) (statement : string) (ok : bool) (m : Evidence) : Evidence :=
  if endpoint == T then
    if statement == setReadOnlyOff then m <| ev_enabled := true |> <| ev_tsuper := false |> <| ev_tried := false |>
    else if statement == setSuperReadOnlyOn then m <| ev_tsuper ::= orb ok |> <| ev_tried := true |>
    else if statement == setReadOnlyOn then m <| ev_enabled ::= andb (negb (ok && ev_tsuper m)) |>
    else m
  else m.
(** Only a rejected attempt to fence the source leaves everything as it was. *)
Definition rejected_fence (endpoint : SQLEndpoint) (statement : string) (ok : bool) : bool :=
  (endpoint == S) && (statement == setSuperReadOnlyOn) && negb ok.
Definition on_statement (endpoint : SQLEndpoint) (statement : string) (ok : bool) (m : Evidence) : Evidence :=
  (at_target endpoint statement ok (at_source endpoint statement ok m))
    <| ev_mutated ::= orb (negb (rejected_fence endpoint statement ok)) |>.

Definition on_query (endpoint : SQLEndpoint) (query : string) (r : result sql_error (list Row)) (m : Evidence) : Evidence :=
  let m := if (endpoint == S) && (query == identityQuery) then m <| ev_seen := fenced_answer r |> else m in
  let m := if (endpoint == T) && (query == identityQuery) && fenced_answer r then m <| ev_enabled := false |> else m in
  let m := if (endpoint == T) && (match ev_captured m with Some position => query == wait_query position | None => false end) &&
              wait_succeeded r then m <| ev_ready := true |> else m in
  if (endpoint == S) && (query == gtidPositionQuery) && ev_fenced m then m <| ev_captured := position_of r |> else m.

Definition observe_call (m : Evidence) (c : mysql_action) : mysql_answer c → Evidence :=
  match c with
  | Query _ endpoint _ query => λ r, on_query endpoint query r m
  | Exec _ endpoint _ statement => λ r, on_statement endpoint statement (is_ok r) m
  | AuthorizeTransition _ _ => λ r, m <| ev_authorized ::= orb (is_ok r) |>
  | FinalizeTransition _ => λ r, m <| ev_finalized ::= orb (is_ok r) |>
  | EndpointVerify _ _ => λ check, m <| ev_owner := endpointOwnerVerified (sanitizeEndpointCheck check "writer_endpoint_owner") |>
  | SafetyVerify _ _ => λ check, m <| ev_isolated ::= orb ((check_Name check == "old_primary_fenced") && (check_Status check == CheckPass)) |>
  | CompleteStep _ _ _ => λ r, m <| ev_unrecorded ::= orb (negb (is_ok r)) |>
  | StepCompleted _ step => λ r,
      if (step == "fence_source") && ev_seen m
      then m <| ev_fenced ::= orb (match r with Ok completed => completed | Err _ => false end) |> else m
  | _ => λ _, m
  end.
Definition observe (m : Evidence) (e : event) : Evidence := observe_call m (projT1 e) (projT2 e).

(** The statement that makes an instance writable. *)
Definition enables (c : mysql_action) : Prop :=
  match c with Exec _ _ _ statement => statement = setReadOnlyOff | _ => False end.
Definition executes (c : mysql_action) : Prop := match c with Exec _ _ _ _ => True | _ => False end.

(** What calls that enable nothing preserve. *)
Record calm (m m' : Evidence) : Prop := {
  calm_authorized : ev_authorized m = true → ev_authorized m' = true;
  calm_fenced : ev_fenced m = true → ev_fenced m' = true;
  calm_isolated : ev_isolated m = true → ev_isolated m' = true;
  calm_ready : ev_ready m = true → ev_ready m' = true;
  calm_unrecorded : ev_unrecorded m = true → ev_unrecorded m' = true;
  calm_finalized : ev_finalized m = true → ev_finalized m' = true;
  calm_mutated : ev_mutated m = true → ev_mutated m' = true;
  calm_enabled : ev_enabled m' = true → ev_enabled m = true ∧ (ev_tried m = true → ev_tried m' = true)
}.
#[export] Instance calm_preorder : PreOrder calm.
Proof. split; [by split|]. intros x y z [] []. split; naive_solver. Qed.
Definition quiet (m m' : Evidence) : Prop := calm m m' ∧ ev_mutated m' = ev_mutated m.
#[export] Instance quiet_preorder : PreOrder quiet.
Proof. split; [by split|]. intros x y z [H1 H2] [H3 H4]. split; [by etrans|congruence]. Qed.

Lemma quiet_if (b : bool) m m' : quiet m m' → quiet m (if b then m' else m).
Proof. by destruct b. Qed.
(** An update of fields that [calm] does not mention, or that it allows. *)
Ltac quiet_update := split; [split|]; cbn; first [tauto | naive_solver].
Lemma on_query_quiet endpoint query r m : quiet m (on_query endpoint query r m).
Proof.
  unfold on_query. cbn zeta.
  match goal with |- context [if (endpoint == S) && (query == identityQuery) then ?a else m] =>
    etrans; [apply (quiet_if ((endpoint == S) && (query == identityQuery)) m a); quiet_update|generalize (if (endpoint == S) && (query == identityQuery) then a else m)] end.
  intros m1. match goal with |- context [if ?b && fenced_answer r then ?a else m1] =>
    etrans; [apply (quiet_if (b && fenced_answer r) m1 a); quiet_update|generalize (if b && fenced_answer r then a else m1)] end.
  intros m2. match goal with |- context [if ?b && wait_succeeded r then ?a else m2] =>
    etrans; [apply (quiet_if (b && wait_succeeded r) m2 a); quiet_update|generalize (if b && wait_succeeded r then a else m2)] end.
  intros m3. apply quiet_if. quiet_update.
Qed.
Lemma orb_keeps b b' : b' = true → b || b' = true.
Proof. intros ->. apply orb_true_r. Qed.
Lemma at_source_calm endpoint statement ok m : calm m (at_source endpoint statement ok m).
Proof. unfold at_source. repeat case_match; split; cbn; auto using orb_keeps. Qed.
Lemma at_target_calm endpoint statement ok m : statement ≠ setReadOnlyOff → calm m (at_target endpoint statement ok m).
Proof.
  intros Hne. unfold at_target. rewrite (bool_decide_eq_false_2 (statement = setReadOnlyOff)) by done.
  repeat case_match; split; cbn; auto. intros [_ ?]%andb_prop; auto.
Qed.
Lemma on_statement_calm endpoint statement ok m : statement ≠ setReadOnlyOff → calm m (on_statement endpoint statement ok m).
Proof.
  intros Hne. etrans; [apply (at_source_calm endpoint statement ok)|]. etrans; [by apply (at_target_calm endpoint statement ok)|].
  unfold on_statement. generalize (at_target endpoint statement ok (at_source endpoint statement ok m)). intros m'.
  split; cbn; auto using orb_keeps.
Qed.
Lemma observe_quiet m c x : ¬ executes c → quiet m (observe m (existT c x)).
Proof.
  intros Hne. destruct c; try (by destruct Hne); unfold observe; cbn [projT1 projT2 observe_call]; try apply on_query_quiet;
    try case_match; (split; [split|]; cbn; auto using orb_keeps).
Qed.
Lemma observe_calm m c x : ¬ enables c → calm m (observe m (existT c x)).
Proof.
  intros Hne. destruct c; try (by apply observe_quiet; intros []). by apply on_statement_calm.
Qed.
End evidence.

(** ** What the parts of an operation may do *)

(** Programs that execute no statement, and programs that make no instance writable. *)
Definition silent (c : mysql_action) : Prop := ¬ executes c.
Definition tame (c : mysql_action) : Prop := ¬ enables c.
Notation observes := (all_calls silent).
Notation harmless := (all_calls tame).
Lemma observes_harmless {A} (p : prog A) : observes p → harmless p.
Proof. apply all_calls_mono. unfold silent, tame. intros [] H; cbn in *; tauto. Qed.

Ltac side_calls := unfold perform, fail, proceed, returning, executionFailure, newExecution in *; calls; try solve [unfold silent, tame; cbn; tauto | unfold tame; discriminate].
Lemma observes_identity ctx e cr : observes (probeIdentity ctx e cr).
Proof. unfold probeIdentity. side_calls. Qed.
Lemma observes_replication ctx e cr : observes (probeReplication ctx e cr).
Proof. unfold probeReplication. side_calls. Qed.
#[export] Hint Resolve observes_identity observes_replication : calls.
Lemma observes_semisync ctx e cr : observes (probeSemiSync ctx e cr).
Proof. unfold probeSemiSync. side_calls. Qed.
Lemma observes_credentials ctx e cr : observes (verifyTargetReplicationCredentials ctx e cr).
Proof. unfold verifyTargetReplicationCredentials. side_calls. Qed.
Lemma observes_wait ctx e cr position : observes (waitForExecutedGTIDSet ctx e cr position).
Proof. unfold waitForExecutedGTIDSet. side_calls. Qed.
Lemma observes_executed ctx e cr : observes (queryExecutedGTIDSet ctx e cr).
Proof. unfold queryExecutedGTIDSet. side_calls. Qed.
Lemma observes_step_completed ctx request step : observes (operationStepCompleted ctx request step).
Proof. unfold operationStepCompleted. side_calls. Qed.
Lemma observes_complete ctx request step message : observes (completeOperationStep ctx request step message).
Proof. unfold completeOperationStep. side_calls. Qed.
#[export] Hint Resolve observes_semisync observes_credentials observes_wait observes_executed observes_step_completed observes_complete : calls.
Lemma observes_fenced ctx e cr : observes (queryFencedState ctx e cr).
Proof. unfold queryFencedState. side_calls. Qed.
Lemma observes_writable ctx e cr : observes (queryWritableState ctx e cr).
Proof. unfold queryWritableState. side_calls. Qed.
Lemma observes_steps ctx request steps : observes (all_steps_completed ctx request steps).
Proof. induction steps as [|step steps IH]; cbn [all_steps_completed]; side_calls; exact IH. Qed.
#[export] Hint Resolve observes_steps : calls.
Lemma observes_all_steps ctx request : observes (allMutationStepsCompleted ctx request).
Proof. unfold allMutationStepsCompleted. side_calls. Qed.
Lemma observes_follower_wait polls n ctx e cr uuid lag : observes (follower_wait polls n ctx e cr uuid lag).
Proof. revert n. induction polls as [|polls IH]; intros n; cbn [follower_wait]; side_calls; apply IH. Qed.
Lemma observes_follower_healthy ctx e cr uuid lag : observes (waitForFollowerReplicationHealthy ctx e cr uuid lag).
Proof. apply observes_follower_wait. Qed.
Lemma observes_follower a ctx follower target cr : observes (verifyFollower a ctx follower target cr).
Proof. unfold verifyFollower, verifyFollowerWriterState, verifyFollowerReplication. side_calls. Qed.
Lemma observes_verify_semisync ctx e cr : observes (verifySemiSyncPrimary ctx e cr).
Proof. unfold verifySemiSyncPrimary. side_calls. Qed.
#[export] Hint Resolve observes_fenced observes_writable observes_all_steps observes_follower_healthy observes_follower observes_verify_semisync : calls.

(** ** Statements that enable nothing *)

(** The statements of a dialect, and those that attach a replica. *)
Lemma dialect_tame version dialect : dialectForVersion version = Some dialect →
  di_StopReplication dialect ≠ setReadOnlyOff ∧ di_ResetReplication dialect ≠ setReadOnlyOff ∧
  di_StartReplication dialect ≠ setReadOnlyOff.
Proof.
  unfold dialectForVersion. intros H.
  repeat first [discriminate H | apply bind_Some in H as (? & _ & H) | case_match]; simplify_eq; split_and!; discriminate.
Qed.
Lemma change_source_tame version target cr statement :
  buildChangeSourceStatement version target cr = Ok statement → statement ≠ setReadOnlyOff.
Proof.
  unfold buildChangeSourceStatement, mysqlLiteralStatement. intros H. repeat (case_match; try discriminate H); simplify_eq; discriminate.
Qed.
Lemma tame_statement ctx e cr statement : statement ≠ setReadOnlyOff → tame (Exec ctx e cr statement).
Proof. by intros H. Qed.

Ltac harmless_calls :=
  side_calls; try (apply tame_statement; first [discriminate | by eapply dialect_tame | by eapply change_source_tame]);
  try (by apply observes_harmless; auto with calls nocore).
#[export] Hint Extern 5 (all_calls tame _) => apply observes_harmless; auto with calls nocore; fail : calls.

Lemma harmless_reparent a ctx follower target administrative replication :
  harmless (reparentFollower a ctx follower target administrative replication).
Proof. unfold reparentFollower. harmless_calls. Qed.
Lemma harmless_semisync_wait attempts ctx e cr : harmless (semiSync_wait attempts ctx e cr).
Proof. induction attempts as [|attempts IH]; cbn [semiSync_wait]; harmless_calls; apply IH. Qed.
#[export] Hint Resolve harmless_reparent harmless_semisync_wait : calls.
Lemma harmless_semisync ctx e cr version : harmless (activateSemiSyncSource ctx e cr version).
Proof.
  unfold activateSemiSyncSource. destruct (dialectForVersion version) as [dialect|]; [destruct (di_ModernSource dialect)|]; harmless_calls.
Qed.
Lemma harmless_fence ctx e cr : harmless (fenceInstance ctx e cr).
Proof. unfold fenceInstance. harmless_calls. Qed.
#[export] Hint Resolve harmless_semisync harmless_fence : calls.

(** ** Rules *)

(** What the failure class says of the servers, and that a promotion that is given up is undone:
    the target was fenced again, or that was tried, unless the lease is final. *)
Definition class_sound (f : execution_failure) (m : Evidence) : Prop :=
  (xf_class f = "pre_commit" ∨ xf_class f = "fenced" → ev_enabled m = false) ∧
  (ev_enabled m = true → ev_tried m = true ∨ ev_finalized m = true).

Section rules.
Variables (S T : SQLEndpoint) (allowed : Evidence → mysql_action → Prop).
Hypothesis tame_allowed : ∀ m c, tame c → allowed m c.
Notation wp := (wp (observe S T) allowed).

Lemma wp_observes {A} (p : prog A) m : observes p → wp p (λ _ m', quiet m m') m.
Proof.
  intros Hp. apply (wp_all_calls (Sg:=mysql_signature) _ _ silent); [exact Hp| |reflexivity]. intros c m' Hc Hm. split.
  - apply tame_allowed. intros He. apply Hc. by destruct c.
  - intros x. etrans; [exact Hm|]. by apply observe_quiet.
Qed.
Lemma wp_harmless {A} (p : prog A) m : harmless p → wp p (λ _ m', calm m m') m.
Proof.
  intros Hp. apply (wp_all_calls (Sg:=mysql_signature) _ _ tame); [exact Hp| |reflexivity]. intros c m' Hc Hm.
  split; [by apply tame_allowed|]. intros x. etrans; [exact Hm|]. by apply observe_calm.
Qed.
(** Sequencing after a program that observes, or that is harmless. *)
Lemma wp_after_observes {E A B} (p : prog (result E A)) (f : A → prog (result E B)) Q R m : observes p →
  (∀ a m', quiet m m' → wp (f a) (post Q R) m') → (∀ e m', quiet m m' → R e m') → wp (ebind p f) (post Q R) m.
Proof.
  intros Hp Hf HR. apply wp_ebind. eapply wp_mono; [|by apply wp_observes]. intros [a|e] m' Hm; cbn; [by apply Hf|by apply HR].
Qed.
Lemma wp_error_observes {E F A} (p : prog (result E A)) (f : E → prog (result F A)) Q R m : observes p →
  (∀ a m', quiet m m' → Q a m') → (∀ e m', quiet m m' → wp (f e) (post Q R) m') → wp (on_error p f) (post Q R) m.
Proof.
  intros Hp HQ Hf. apply wp_on_error. eapply wp_mono; [|by apply wp_observes]. intros [a|e] m' Hm; cbn; [by apply HQ|by apply Hf].
Qed.
Lemma wp_error_harmless {E F A} (p : prog (result E A)) (f : E → prog (result F A)) Q R m : harmless p →
  (∀ a m', calm m m' → Q a m') → (∀ e m', calm m m' → wp (f e) (post Q R) m') → wp (on_error p f) (post Q R) m.
Proof.
  intros Hp HQ Hf. apply wp_on_error. eapply wp_mono; [|by apply wp_harmless]. intros [a|e] m' Hm; cbn; [by apply HQ|by apply Hf].
Qed.

(** The statements and the answer that fencing the target consists of. *)
Lemma fence_super ok m : let m1 := on_statement S T T setSuperReadOnlyOn ok m in ev_tried m1 = true ∧ (ok = true → ev_tsuper m1 = true).
Proof.
  unfold on_statement, at_target. rewrite (bool_decide_eq_true_2 (T = T)) by done. cbn. split; [done|]. intros ->. done.
Qed.
Lemma fence_read_only ok m : let m1 := on_statement S T T setReadOnlyOn ok m in
  ev_tried m1 = ev_tried m ∧ (ok = true → ev_tsuper m = true → ev_enabled m1 = false).
Proof.
  unfold on_statement, at_target, at_source. rewrite (bool_decide_eq_true_2 (T = T)) by done.
  destruct m, (bool_decide (T = S)), ok; (split; [done|]); intros Hok Hs; try discriminate Hok; cbn in Hs; subst; done.
Qed.
(** The answer of a fenced source, and the statements that fence it. *)
Lemma source_seen r m : fenced_answer r = true → ev_seen (on_query S T S identityQuery r m) = true.
Proof.
  intros Ha. unfold on_query. rewrite Ha, (bool_decide_eq_true_2 (S = S)), (bool_decide_eq_true_2 (identityQuery = identityQuery)) by done.
  cbn zeta. cbn [andb]. destruct m. repeat (case_match; cbn); done.
Qed.
Lemma source_super ok m : let m1 := on_statement S T S setSuperReadOnlyOn ok m in
  (ok = true → ev_super m1 = true) ∧ (ok = false → ev_mutated m1 = ev_mutated m).
Proof.
  unfold on_statement, at_target, at_source, rejected_fence. rewrite (bool_decide_eq_true_2 (S = S)) by done.
  destruct m, (bool_decide (S = T)), ok; split; done.
Qed.
Lemma source_read_only ok m : ok = true → ev_super m = true → ev_fenced (on_statement S T S setReadOnlyOn ok m) = true.
Proof.
  unfold on_statement, at_target, at_source. rewrite (bool_decide_eq_true_2 (S = S)) by done. intros -> Hs.
  destruct m, (bool_decide (S = T)); cbn in *; by subst.
Qed.
(** The position of the fenced source, and the target's answer that it has executed it. *)
Lemma source_captured r m : ev_fenced m = true → ev_captured (on_query S T S gtidPositionQuery r m) = position_of r.
Proof.
  intros Hf. unfold on_query. rewrite (bool_decide_eq_true_2 (S = S)), (bool_decide_eq_true_2 (gtidPositionQuery = gtidPositionQuery)),
    (bool_decide_eq_false_2 (gtidPositionQuery = identityQuery)) by done. rewrite !andb_false_r. cbn zeta. cbn [andb].
  destruct m as [? ? ? ? cap ? ? ? ? ? ? ? ?]. cbn in Hf. subst. cbn [ev_captured]. repeat (case_match; cbn); done.
Qed.
Lemma target_ready r position m : ev_captured m = Some position → wait_succeeded r = true →
  ev_ready (on_query S T T (wait_query position) r m) = true.
Proof.
  intros Hc Hw. unfold on_query.
  rewrite (bool_decide_eq_true_2 (T = T)), (bool_decide_eq_false_2 (wait_query position = identityQuery)),
    (bool_decide_eq_false_2 (wait_query position = gtidPositionQuery)) by (done || discriminate). rewrite !andb_false_r. cbn zeta. cbn [andb].
  rewrite Hc, Hw, (bool_decide_eq_true_2 (wait_query position = wait_query position)) by done. done.
Qed.
(** Enabling the target takes no evidence about the source away. *)
Lemma enable_keeps ctx cr x m : ev_authorized m = true ∧ ev_fenced m = true ∧ ev_ready m = true →
  let m1 := observe S T m (existT (Exec ctx T cr setReadOnlyOff) x) in
  ev_authorized m1 = true ∧ ev_fenced m1 = true ∧ ev_ready m1 = true.
Proof.
  unfold observe. cbn [projT1 projT2 observe_call]. unfold on_statement, at_target, at_source.
  rewrite (bool_decide_eq_true_2 (T = T)) by done. by destruct m, (bool_decide (T = S)).
Qed.
Lemma fence_answer r m : fenced_answer r = true → ev_enabled (on_query S T T identityQuery r m) = false.
Proof.
  intros Ha. unfold on_query. rewrite Ha, (bool_decide_eq_true_2 (T = T)), (bool_decide_eq_true_2 (identityQuery = identityQuery)) by done.
  cbn zeta. cbn [andb]. by repeat (case_match; cbn).
Qed.

(** Fencing the target: it was tried, and a success means that it is fenced. *)
Definition fence_post (m : Evidence) (r : result sql_error unit) (m' : Evidence) : Prop :=
  calm m m' ∧ (ev_enabled m' = true → ev_tried m' = true) ∧ (is_ok r = true → ev_enabled m' = false).
Lemma wp_fence_statements ctx cr m :
  wp (ebind (perform (Exec ctx T cr setSuperReadOnlyOn)) (λ _, perform (Exec ctx T cr setReadOnlyOn))) (fence_post m) m.
Proof.
  split; [by apply tame_allowed|]. intros x.
  pose proof (observe_calm S T m (Exec ctx T cr setSuperReadOnlyOn) x ltac:(discriminate)) as Hc.
  destruct (fence_super (is_ok x) m) as [Ht Hs].
  change (observe S T m _) with (on_statement S T T setSuperReadOnlyOn (is_ok x) m) in *. revert Hc Ht Hs.
  generalize (on_statement S T T setSuperReadOnlyOn (is_ok x) m). intros m1 Hc Ht Hs.
  destruct x as [[]|e]; cbn; [|split_and!; done]. split; [by apply tame_allowed|]. intros y.
  destruct (fence_read_only (is_ok y) m1) as [Ht2 He].
  pose proof (observe_calm S T m1 (Exec ctx T cr setReadOnlyOn) y ltac:(discriminate)) as Hc2.
  split; [by etrans|]. split; [intros _; change (ev_tried (on_statement S T T setReadOnlyOn (is_ok y) m1) = true); by rewrite Ht2|].
  intros Hy. by apply He, Hs.
Qed.
Lemma fence_post_calm m m1 r m' : calm m m1 → fence_post m1 r m' → fence_post m r m'.
Proof. intros Hc (? & ? & ?). split; [by etrans|done]. Qed.
Lemma wp_fence ctx cr m : wp (fenceInstance ctx T cr) (fence_post m) m.
Proof.
  unfold fenceInstance, queryFencedState, probeIdentity. split; [apply tame_allowed; by intros []|]. intros r.
  set (rc := WithTimeout (WithoutCancel ctx) (10 * Second)).
  pose proof (proj1 (observe_quiet S T m (Query rc T cr identityQuery) r (λ x, x))) as Hc.
  pose proof (fence_answer r m) as Hf. unfold fenced_answer in Hf.
  change (observe S T m _) with (on_query S T T identityQuery r m) in *. revert Hc Hf.
  generalize (on_query S T T identityQuery r m). intros m1 Hc Hf. cbn [pbind].
  destruct (identity_of r) as [identity|e]; cbn [pbind]; [destruct (fenced_identity identity)|].
  { specialize (Hf eq_refl). cbn. unfold fence_post. rewrite Hf. by split_and!. }
  all: eapply wp_mono; [intros ? ?; by apply fence_post_calm|apply wp_fence_statements].
Qed.
(** Recording progress changes no evidence; a failure to record is noted. *)
Lemma wp_complete ctx request step message m :
  wp (completeOperationStep ctx request step message) (post (λ _ m', m' = m) (λ _ m', quiet m m' ∧ ev_unrecorded m' = true)) m.
Proof.
  assert (wp (perform (CompleteStep ctx step message)) (post (λ _ m', m' = m) (λ _ m', quiet m m' ∧ ev_unrecorded m' = true)) m) as Hc.
  { split; [apply tame_allowed; by intros []|]. intros [[]|e]; cbn; [by destruct m|].
    split; [by apply (observe_quiet S T m (CompleteStep ctx step message) (Err e)); intros []|done]. }
  unfold completeOperationStep. by destruct (or_Progress request).
Qed.
Lemma wp_complete_or {F} ctx request step message (f : string → prog (result F unit)) (Q : unit → Evidence → Prop) R m :
  Q tt m → (∀ e m', quiet m m' → ev_unrecorded m' = true → wp (f e) (post Q R) m') →
  wp (completeOperationStep ctx request step message or_else f) (post Q R) m.
Proof.
  intros HQ Hf. apply wp_on_error. eapply wp_mono; [|apply wp_complete]. intros [[]|e] m'; cbn; [by intros ->|]. intros [Hq Hu]. by apply Hf.
Qed.
Lemma wp_authorize ctx request resolved m :
  wp (authorizeEndpointTransition ctx request resolved)
    (post (λ _ m', ev_authorized m' = true ∧ quiet m m') (λ _ m', quiet m m')) m.
Proof.
  apply wp_next; [apply tame_allowed; by intros []|]. intros x m1 Hm1.
  assert (quiet m m1) as Hq by (rewrite Hm1; by apply observe_quiet; intros []).
  destruct x as [h|e]; [|exact Hq]. assert (ev_authorized m1 = true) as Ha by by rewrite Hm1.
  clear Hm1. case_match; [exact Hq|]. split; [apply tame_allowed; by intros []|]. intros [[]|e]; cbn [wp post pbind].
  - apply wp_bind. eapply wp_mono; [|apply wp_complete]. intros [[]|e] m'; cbn [post]; [intros ->; by split|].
    intros [Hq2 _]. split; [apply tame_allowed; by intros []|]. intros x. cbn. by etrans.
  - split; [apply tame_allowed; by intros []|]. by intros x.
Qed.
End rules.

(** ** What the evidence says about the trace *)

Definition occurs (P : event → Prop) (t : list event) : Prop := ∃ e, e ∈ t ∧ P e.
Definition then_occurs (P Q : event → Prop) (t : list event) : Prop :=
  ∃ t1 e t2, t = t1 ++ e :: t2 ∧ P e ∧ occurs Q t2.

Section meaning.
Variables (S T : SQLEndpoint).
(** The instance accepted the statement; it answered the query. *)
Definition accepted (endpoint : SQLEndpoint) (statement : string) (e : event) : Prop :=
  ∃ ctx cr, e = existT (Exec ctx endpoint cr statement) (Ok tt).
Definition answered (endpoint : SQLEndpoint) (query : string) (P : result sql_error (list Row) → Prop) (e : event) : Prop :=
  ∃ ctx cr r, e = existT (Query ctx endpoint cr query) r ∧ P r.
Definition granted (e : event) : Prop := ∃ ctx resolved h, e = existT (AuthorizeTransition ctx resolved) (Ok h).
Definition step_known (step : string) (e : event) : Prop := ∃ ctx, e = existT (StepCompleted ctx step) (Ok true).

(** The source accepted both statements of the fence, or answered that it is fenced by an operation
    whose recorded progress says that it did so. *)
Definition source_fenced (t : list event) : Prop :=
  then_occurs (accepted S setSuperReadOnlyOn) (accepted S setReadOnlyOn) t ∨
  then_occurs (answered S identityQuery (λ r, fenced_answer r = true)) (step_known "fence_source") t.
(** The target executed the position that the fenced source answered. *)
Definition caught_up (t : list event) : Prop :=
  ∃ t1 e t2 position, t = t1 ++ e :: t2 ∧ source_fenced t1 ∧
    answered S gtidPositionQuery (λ r, position_of r = Some position) e ∧
    occurs (answered T (wait_query position) (λ r, wait_succeeded r = true)) t2.

Lemma occurs_more P t e : occurs P t ∨ P e → occurs P (t ++ [e]).
Proof. unfold occurs. set_solver. Qed.
Lemma then_occurs_more P Q t e : then_occurs P Q t ∨ (occurs P t ∧ Q e) → then_occurs P Q (t ++ [e]).
Proof.
  intros [(t1 & x & t2 & -> & HP & HQ)|[(x & (t1 & t2 & ->)%list_elem_of_split & HP) HQ]];
    exists t1, x, (t2 ++ [e]); (split; [by rewrite <- app_assoc|]; split; [done|]); apply occurs_more; auto.
Qed.
Lemma source_fenced_more t e : source_fenced t → source_fenced (t ++ [e]).
Proof. intros [?|?]; [left|right]; apply then_occurs_more; auto. Qed.

(** The invariant of the monitor. *)
Record meant (t : list event) (m : Evidence) : Prop := {
  meant_authorized : ev_authorized m = true → occurs granted t;
  meant_super : ev_super m = true → occurs (accepted S setSuperReadOnlyOn) t;
  meant_seen : ev_seen m = true → occurs (answered S identityQuery (λ r, fenced_answer r = true)) t;
  meant_fenced : ev_fenced m = true → source_fenced t;
  meant_captured position : ev_captured m = Some position → ∃ t1 e t2, t = t1 ++ e :: t2 ∧ source_fenced t1 ∧
    answered S gtidPositionQuery (λ r, position_of r = Some position) e;
  meant_ready : ev_ready m = true → caught_up t
}.
Lemma meant_more t e m : meant t m → meant (t ++ [e]) m.
Proof.
  intros [H1 H2 H3 H4 H5 H6]. split.
  - intros ?. apply occurs_more; auto.
  - intros ?. apply occurs_more; auto.
  - intros ?. apply occurs_more; auto.
  - intros ?. apply source_fenced_more; auto.
  - intros p Hp. destruct (H5 p Hp) as (t1 & x & t2 & -> & Hf & Ha). exists t1, x, (t2 ++ [e]). by rewrite <- app_assoc.
  - intros Hr. destruct (H6 Hr) as (t1 & x & t2 & p & -> & Hf & Ha & Ho). exists t1, x, (t2 ++ [e]), p.
    rewrite <- app_assoc. split_and!; [done..|]. apply occurs_more; auto.
Qed.
Lemma meant_statement t ctx endpoint cr statement x m : meant t m →
  meant (t ++ [existT (Exec ctx endpoint cr statement) x]) (observe S T m (existT (Exec ctx endpoint cr statement) x)).
Proof.
  intros Hm. pose proof (meant_more t (existT (Exec ctx endpoint cr statement) x) m Hm) as Hm'.
  assert (meant (t ++ [existT (Exec ctx endpoint cr statement) x]) (at_source S endpoint statement (is_ok x) m)) as Hs.
  { unfold at_source. case_bool_decide as He; [|done]. subst endpoint. repeat case_bool_decide; subst; [| |done].
    - destruct Hm' as [? H2 ? ? ? ?]. split; try done. cbn. intros [Hok| ]%orb_prop; [|auto].
      apply occurs_more. right. exists ctx, cr. by destruct x as [[]|].
    - destruct Hm' as [? ? ? H4 ? ?]. split; try done. cbn. intros [[Hok Hsup]%andb_prop| ]%orb_prop; [|auto].
      left. apply then_occurs_more. right. split; [by apply (meant_super _ _ Hm)|]. exists ctx, cr. by destruct x as [[]|]. }
  unfold observe. cbn [projT1 projT2 observe_call]. unfold on_statement.
  revert Hs. generalize (at_source S endpoint statement (is_ok x) m). intros m1 Hs.
  assert (meant (t ++ [existT (Exec ctx endpoint cr statement) x]) (at_target T endpoint statement (is_ok x) m1)) as Ht.
  { unfold at_target. repeat case_bool_decide; try done; destruct Hs; by split. }
  destruct Ht. by split.
Qed.
Lemma meant_query t ctx endpoint cr query r m : meant t m →
  meant (t ++ [existT (Query ctx endpoint cr query) r]) (observe S T m (existT (Query ctx endpoint cr query) r)).
Proof.
  intros Hm. pose proof (meant_more t (existT (Query ctx endpoint cr query) r) m Hm) as Hm'.
  unfold observe. cbn [projT1 projT2 observe_call]. unfold on_query.
  set (m1 := if (endpoint == S) && (query == identityQuery) then m <| ev_seen := fenced_answer r |> else m).
  assert (meant (t ++ [existT (Query ctx endpoint cr query) r]) m1 ∧ ev_captured m1 = ev_captured m ∧ ev_fenced m1 = ev_fenced m) as (H1 & Hc1 & Hf1).
  { subst m1. destruct (_ && _) eqn:Hb; [|done]. apply andb_prop in Hb as [He Hq]. bsimpl_step. bsimpl_step. subst.
    split; [|done]. destruct Hm'. split; try done. cbn. intros Ha. apply occurs_more. right. by exists ctx, cr, r. }
  clearbody m1. set (m2 := if (endpoint == T) && (query == identityQuery) && fenced_answer r then m1 <| ev_enabled := false |> else m1).
  assert (meant (t ++ [existT (Query ctx endpoint cr query) r]) m2 ∧ ev_captured m2 = ev_captured m ∧ ev_fenced m2 = ev_fenced m) as (H2 & Hc2 & Hf2).
  { subst m2. destruct (_ && _); [|done]. split; [|done]. destruct H1. by split. }
  clearbody m2. rewrite Hc2. clear m1 H1 Hc1 Hf1. cbn zeta.
  assert (∀ m3, meant (t ++ [existT (Query ctx endpoint cr query) r]) m3 → ev_fenced m3 = ev_fenced m →
    meant (t ++ [existT (Query ctx endpoint cr query) r])
      (if (endpoint == S) && (query == gtidPositionQuery) && ev_fenced m3 then m3 <| ev_captured := position_of r |> else m3)) as H3.
  { intros m3 H3 Hf3. destruct (_ && _) eqn:Hb; [|done]. repeat bsimpl_step. subst. destruct H3. split; try done. cbn. intros p Hp.
    exists t, (existT (Query ctx S cr gtidPositionQuery) r), []. split; [done|]. split; [apply (meant_fenced _ _ Hm); congruence|]. by exists ctx, cr, r. }
  destruct (_ && wait_succeeded r) eqn:Hb; [|by apply H3]. apply H3; [|done]. repeat bsimpl_step.
  destruct (ev_captured m) as [position|] eqn:Hcap; [|done]. repeat bsimpl_step. subst.
  destruct H2. split; try done. cbn. intros _. destruct (meant_captured _ _ Hm position Hcap) as (t1 & x & t2 & -> & Hsf & Ha).
  exists t1, x, (t2 ++ [existT (Query ctx T cr (wait_query position)) r]), position. rewrite <- app_assoc. split_and!; [done..|].
  apply occurs_more. right. by exists ctx, cr, r.
Qed.
Lemma watch_snoc t e m : watch (observe S T) m (t ++ [e]) = observe S T (watch (observe S T) m t) e.
Proof. unfold watch. by rewrite foldl_app. Qed.
Lemma watch_meant t : meant t (watch (observe S T) no_evidence t).
Proof.
  induction t as [|[c x] t IH] using rev_ind; [by split|]. rewrite watch_snoc. revert IH. generalize (watch (observe S T) no_evidence t). intros m Hm.
  destruct c; try (by apply meant_more); try (by apply meant_query); try (by apply meant_statement);
    pose proof (λ e, meant_more t e m Hm) as Hm'; unfold observe; cbn [projT1 projT2 observe_call].
  - specialize (Hm' (existT (AuthorizeTransition ctx resolved) x)). destruct Hm'. split; try done. cbn.
    intros [Hok|]%orb_prop; [|auto]. apply occurs_more. right. destruct x as [h|]; [by exists ctx, resolved, h|done].
  - specialize (Hm' (existT (FinalizeTransition ctx) x)). destruct Hm'. by split.
  - specialize (Hm' (existT (EndpointVerify ctx resolved) x)). destruct Hm'. by split.
  - specialize (Hm' (existT (SafetyVerify ctx resolved) x)). destruct Hm'. by split.
  - specialize (Hm' (existT (CompleteStep ctx step message) x)). destruct Hm'. by split.
  - specialize (Hm' (existT (StepCompleted ctx step) x)). destruct (_ && _) eqn:Hb; [|done]. repeat bsimpl_step. subst.
    destruct Hm'. split; try done. cbn. intros [Hok|]%orb_prop; [|auto]. right. apply then_occurs_more. right.
    split; [by apply (meant_seen _ _ Hm)|]. exists ctx. destruct x as [[]|]; done.
Qed.

(** The target was told to accept writes; it was told not to. *)
Definition enabling (e : event) : Prop := ∃ ctx cr x, e = existT (Exec ctx T cr setReadOnlyOff) x.
Definition is_enabling (e : event) : bool := match projT1 e with Exec _ _ _ statement => statement == setReadOnlyOff | _ => false end.
Lemma enabling_split t : existsb is_enabling t = true → ∃ before ctx endpoint cr x after,
  t = before ++ existT (Exec ctx endpoint cr setReadOnlyOff) x :: after.
Proof.
  intros (e & Hin & He)%existsb_exists. apply list_elem_of_In, list_elem_of_split in Hin as (before & after & ->).
  destruct e as [[] x]; try discriminate He. apply bool_decide_eq_true_1 in He as ->. by eexists before, _, _, _, x, after.
Qed.
Definition fence_tried (e : event) : Prop := ∃ ctx cr x, e = existT (Exec ctx T cr setSuperReadOnlyOn) x.
Definition lease_stable (e : event) : Prop := ∃ ctx, e = existT (FinalizeTransition ctx) (Ok tt).
Definition refenced (t : list event) : Prop :=
  then_occurs (accepted T setSuperReadOnlyOn) (accepted T setReadOnlyOn) t ∨
  occurs (answered T identityQuery (λ r, fenced_answer r = true)) t.
(** After each enabling statement the target was fenced again, unless the monitor has it enabled. *)
Definition meant_target (t : list event) (m : Evidence) : Prop :=
  ∀ t1 e t2, t = t1 ++ e :: t2 → enabling e → refenced t2 ∨
    (ev_enabled m = true ∧ (ev_tsuper m = true → occurs (accepted T setSuperReadOnlyOn) t2) ∧
     (ev_tried m = true → occurs fence_tried t2)).
Lemma refenced_more t e : refenced t → refenced (t ++ [e]).
Proof. intros [?|?]; [left; apply then_occurs_more; auto|right; apply occurs_more; auto]. Qed.
(** One event that is not an enabling statement. *)
Lemma meant_target_more t e m m' : meant_target t m → ¬ enabling e →
  (ev_enabled m = true → ev_enabled m' = false →
     answered T identityQuery (λ r, fenced_answer r = true) e ∨ (ev_tsuper m = true ∧ accepted T setReadOnlyOn e)) →
  (ev_tsuper m' = true → ev_tsuper m = true ∨ accepted T setSuperReadOnlyOn e) →
  (ev_tried m' = true → ev_tried m = true ∨ fence_tried e) → meant_target (t ++ [e]) m'.
Proof.
  intros Hm Hne Hen Hsup Htr t1 x t2 Heq Hx. destruct t2 as [|y t2 _] using rev_ind.
  { apply app_inj_tail in Heq as [_ ->]. done. }
  rewrite app_comm_cons, app_assoc in Heq. apply app_inj_tail in Heq as [-> <-].
  destruct (Hm t1 x t2 eq_refl Hx) as [Hr|(He & Hs & Ht)]; [left; by apply refenced_more|].
  destruct (ev_enabled m') eqn:He'.
  - right. split; [done|]. split; intros Hq; apply occurs_more; [destruct (Hsup Hq)|destruct (Htr Hq)]; auto.
  - left. destruct (Hen He eq_refl) as [Ha|[Hq Ha]]; [right; by apply occurs_more; right|left; apply then_occurs_more; auto].
Qed.
Lemma meant_target_same t e m m' : meant_target t m → ¬ enabling e → ev_enabled m' = ev_enabled m → ev_tsuper m' = ev_tsuper m →
  ev_tried m' = ev_tried m → meant_target (t ++ [e]) m'.
Proof. intros Hm Hne He Hs Ht. apply (meant_target_more t e m); [done|done|congruence|rewrite Hs; auto|rewrite Ht; auto]. Qed.
Lemma at_source_target endpoint statement ok m : let m' := at_source S endpoint statement ok m in
  ev_enabled m' = ev_enabled m ∧ ev_tsuper m' = ev_tsuper m ∧ ev_tried m' = ev_tried m.
Proof. unfold at_source. by repeat case_match. Qed.
Lemma on_query_target endpoint query r m : let m' := on_query S T endpoint query r m in
  ev_tsuper m' = ev_tsuper m ∧ ev_tried m' = ev_tried m ∧
  (ev_enabled m = true → ev_enabled m' = false → endpoint = T ∧ query = identityQuery ∧ fenced_answer r = true).
Proof.
  unfold on_query. cbn zeta.
  assert (∀ (b : bool) (f : Evidence → Evidence) m', (∀ m, ev_tsuper (f m) = ev_tsuper m ∧ ev_tried (f m) = ev_tried m ∧ ev_enabled (f m) = ev_enabled m) →
    let m2 := if b then f m' else m' in ev_tsuper m2 = ev_tsuper m' ∧ ev_tried m2 = ev_tried m' ∧ ev_enabled m2 = ev_enabled m') as Hif.
  { intros [|] f m' Hf; [apply Hf|done]. }
  destruct (Hif ((endpoint == S) && (query == identityQuery)) (λ m, m <| ev_seen := fenced_answer r |>) m ltac:(done)) as (<- & <- & <-).
  generalize (if (endpoint == S) && (query == identityQuery) then m <| ev_seen := fenced_answer r |> else m). clear m. intros m.
  set (m1 := if _ && fenced_answer r then _ else m).
  match goal with |- context [if ?b && wait_succeeded r then _ else _] =>
    destruct (Hif (b && wait_succeeded r) (λ m, m <| ev_ready := true |>) m1 ltac:(done)) as (H1 & H2 & H3);
    generalize dependent (if b && wait_succeeded r then m1 <| ev_ready := true |> else m1) end.
  intros m2 H1 H2 H3.
  destruct (Hif ((endpoint == S) && (query == gtidPositionQuery) && ev_fenced m2) (λ m, m <| ev_captured := position_of r |>) m2 ltac:(done)) as (-> & -> & ->).
  rewrite H1, H2, H3. subst m1. destruct (_ && fenced_answer r) eqn:Hb; [|split_and!; [done..|congruence]].
  repeat bsimpl_step. by split_and!.
Qed.
Lemma query_meant_target t ctx endpoint cr query r m : meant_target t m →
  meant_target (t ++ [existT (Query ctx endpoint cr query) r]) (on_query S T endpoint query r m).
Proof.
  intros Hm. destruct (on_query_target endpoint query r m) as (Hs & Ht & He). apply (meant_target_more t _ m); [done|..].
  - by intros (? & ? & ? & [=]).
  - intros H1 H2. destruct (He H1 H2) as (-> & -> & Hf). left. by exists ctx, cr, r.
  - rewrite Hs. auto.
  - rewrite Ht. auto.
Qed.
Lemma statement_meant_target t ctx endpoint cr statement x m : meant_target t m →
  meant_target (t ++ [existT (Exec ctx endpoint cr statement) x]) (on_statement S T endpoint statement (is_ok x) m).
Proof.
  intros Hm. unfold on_statement. destruct (at_source_target endpoint statement (is_ok x) m) as (H1 & H2 & H3). revert H1 H2 H3.
  generalize (at_source S endpoint statement (is_ok x) m). intros m0 H1 H2 H3.
  assert (meant_target t m0) as Hm0 by (unfold meant_target in *; by rewrite H1, H2, H3). clear m H1 H2 H3 Hm.
  assert (∀ m', meant_target (t ++ [existT (Exec ctx endpoint cr statement) x]) m' →
    meant_target (t ++ [existT (Exec ctx endpoint cr statement) x]) (m' <| ev_mutated ::= orb (negb (rejected_fence S endpoint statement (is_ok x))) |>)) as Hmut.
  { unfold meant_target. by destruct m'. }
  apply Hmut. unfold at_target.
  assert (endpoint ≠ T ∨ statement ≠ setReadOnlyOff → ¬ enabling (existT (Exec ctx endpoint cr statement) x)) as Hne.
  { intros Hd (? & ? & ? & [= -> -> -> ->]). naive_solver. }
  case_bool_decide as He; [subst endpoint|by apply (meant_target_same t _ m0); auto].
  case_bool_decide as Ho; [subst statement|].
  { intros t1 e t2 _ _. right. by split_and!. }
  case_bool_decide as Hs; [subst statement|].
  { apply (meant_target_more t _ m0); [done|by auto|cbn; congruence|..].
    - cbn. intros [Hok|]%orb_prop; [|auto]. right. exists ctx, cr. by destruct x as [[]|].
    - intros _. right. by exists ctx, cr, x. }
  case_bool_decide as Hr; [subst statement|by apply (meant_target_same t _ m0); auto].
  apply (meant_target_more t _ m0); [done|by auto|cbn|cbn; auto|cbn; auto].
  intros ->. rewrite andb_true_r. intros [Hok Hq]%negb_false_iff%andb_prop. right. split; [done|]. exists ctx, cr. by destruct x as [[]|].
Qed.
Lemma watch_meant_target t : meant_target t (watch (observe S T) no_evidence t).
Proof.
  induction t as [|[c x] t IH] using rev_ind; [by intros [|]|]. rewrite watch_snoc. revert IH. generalize (watch (observe S T) no_evidence t). intros m Hm.
  destruct c; try (by apply query_meant_target); try (by apply statement_meant_target);
    (apply (meant_target_same t _ m); [done|by intros (? & ? & ? & [=])|..]); unfold observe; cbn; by try case_match.
Qed.

(** Nothing was executed but rejected attempts to fence the source. *)
Definition unchanged (t : list event) : Prop :=
  ∀ e, e ∈ t → executes (projT1 e) → ∃ ctx cr error, e = existT (Exec ctx S cr setSuperReadOnlyOn) (Err error).
Lemma watch_unchanged t : ev_mutated (watch (observe S T) no_evidence t) = false → unchanged t.
Proof.
  induction t as [|[c x] t IH] using rev_ind; [by intros _ e He%elem_of_nil|]. rewrite watch_snoc. revert IH. generalize (watch (observe S T) no_evidence t). intros m IH Hm e [He|He%list_elem_of_singleton]%elem_of_app Hx.
  - apply IH; [|done|done]. destruct c; try (by rewrite <- (proj2 (observe_quiet S T m _ x (λ H, H)))).
    revert Hm. unfold observe. cbn. intros [_ Hm]%orb_false_elim. revert Hm. unfold at_target, at_source. by repeat case_match.
  - subst e. destruct c; try done. cbn in Hm. apply orb_false_elim in Hm as [Hr%negb_false_iff _]. unfold rejected_fence in Hr.
    repeat bsimpl_step. subst. exists ctx, credentials. destruct x as [[]|e]; [done|]. by exists e.
Qed.
(** The provider's last word on the owner of the endpoint. *)
Definition last_owner (t : list event) : Prop := ∃ t1 ctx resolved check t2,
  t = t1 ++ existT (EndpointVerify ctx resolved) check :: t2 ∧ endpointOwnerVerified (sanitizeEndpointCheck check "writer_endpoint_owner") = true ∧
  ∀ e, e ∈ t2 → ∀ ctx' resolved', projT1 e ≠ EndpointVerify ctx' resolved'.
Lemma observe_finalized m c x : ev_finalized (observe S T m (existT c x)) = true →
  ev_finalized m = true ∨ lease_stable (existT c x).
Proof.
  destruct c; auto.
  - unfold observe. cbn. unfold on_query. repeat case_match; auto.
  - unfold observe. cbn. unfold at_target, at_source. repeat case_match; auto.
  - unfold observe. cbn. intros [Hok|]%orb_prop; [|auto]. right. exists ctx. by destruct x as [[]|].
  - unfold observe. cbn. case_match; auto.
Qed.
(** The safety provider confirmed that the old primary is fenced; progress could not be recorded. *)
Definition isolation_answered (e : event) : Prop := ∃ ctx resolved check, e = existT (SafetyVerify ctx resolved) check ∧
  check_Name check = "old_primary_fenced" ∧ check_Status check = CheckPass.
Definition unrecorded (e : event) : Prop := ∃ ctx step message error, e = existT (CompleteStep ctx step message) (Err error).
Lemma observe_isolated m c x : ev_isolated (observe S T m (existT c x)) = true → ev_isolated m = true ∨ isolation_answered (existT c x).
Proof.
  destruct c; auto; unfold observe; cbn.
  - unfold on_query. repeat case_match; auto.
  - unfold at_target, at_source. repeat case_match; auto.
  - intros [Hok|]%orb_prop; [|auto]. right. exists ctx, resolved, x. repeat bsimpl_step. auto.
  - case_match; auto.
Qed.
Lemma observe_unrecorded m c x : ev_unrecorded (observe S T m (existT c x)) = true → ev_unrecorded m = true ∨ unrecorded (existT c x).
Proof.
  destruct c; auto; unfold observe; cbn.
  - unfold on_query. repeat case_match; auto.
  - unfold at_target, at_source. repeat case_match; auto.
  - intros [Hok|]%orb_prop; [|auto]. right. destruct x as [[]|error]; [done|]. by exists ctx, step, message, error.
  - case_match; auto.
Qed.
Lemma observe_owner m c x : ev_owner (observe S T m (existT c x)) = true →
  (ev_owner m = true ∧ ∀ ctx resolved, c ≠ EndpointVerify ctx resolved) ∨
  ∃ ctx resolved check, existT c x = existT (EndpointVerify ctx resolved) check ∧
    endpointOwnerVerified (sanitizeEndpointCheck check "writer_endpoint_owner") = true.
Proof.
  destruct c; try (by left); unfold observe; cbn.
  - unfold on_query. intros H. left. split; [revert H; repeat case_match; auto|done].
  - unfold at_target, at_source. intros H. left. split; [revert H; repeat case_match; auto|done].
  - right. by exists ctx, resolved, x.
  - intros H. left. split; [revert H; case_match; auto|done].
Qed.
Lemma watch_finalized t : ev_finalized (watch (observe S T) no_evidence t) = true → occurs lease_stable t.
Proof.
  induction t as [|[c x] t IH] using rev_ind; [done|]. rewrite watch_snoc. intros [H|H]%observe_finalized; apply occurs_more; auto.
Qed.
Lemma watch_isolated t : ev_isolated (watch (observe S T) no_evidence t) = true → occurs isolation_answered t.
Proof.
  induction t as [|[c x] t IH] using rev_ind; [done|]. rewrite watch_snoc. intros [H|H]%observe_isolated; apply occurs_more; auto.
Qed.
Lemma watch_unrecorded t : ev_unrecorded (watch (observe S T) no_evidence t) = true → occurs unrecorded t.
Proof.
  induction t as [|[c x] t IH] using rev_ind; [done|]. rewrite watch_snoc. intros [H|H]%observe_unrecorded; apply occurs_more; auto.
Qed.
Lemma watch_owner t : ev_owner (watch (observe S T) no_evidence t) = true → last_owner t.
Proof.
  induction t as [|[c x] t IH] using rev_ind; [done|]. rewrite watch_snoc. intros [[H Hne]|(ctx & resolved & check & -> & H)]%observe_owner.
  - destruct (IH H) as (t1 & ctx & resolved & check & t2 & -> & Hv & Ht2). exists t1, ctx, resolved, check, (t2 ++ [existT c x]).
    split; [by rewrite <- app_assoc|]. split; [done|]. intros e [He|He%list_elem_of_singleton]%elem_of_app; [auto|]. subst e. intros ??. apply Hne.
  - exists t, ctx, resolved, check, []. split; [done|]. split; [done|]. by intros e He%elem_of_nil.
Qed.
End meaning.
