(* ===== verification/History.v ===== *)
(** * What an execution has seen and recorded

    A monitor whose state is the trace so far: facts about the past need no
    evidence of their own.  [records p steps] says that a program that succeeds
    has recorded the steps, or was told that they are recorded; it follows the
    structure of the program. *)
From S2P Require Import Prelude GoStd Model Interfaces Candidates Program MySQLAdapter MySQLPlans Promotion.

Definition remember (t : list event) (e : event) : list event := t ++ [e].
Lemma watch_remember t t' : watch remember t t' = t ++ t'.
Proof.
  revert t. induction t' as [|e t' IH]; intros t; cbn; [by rewrite app_nil_r|]. change (foldl remember) with (watch remember).
  rewrite IH. unfold remember. by rewrite <- app_assoc.
Qed.
Lemma occurs_app P t t' : occurs P t → occurs P (t ++ t').
Proof. intros (e & He & HP). exists e. split; [apply elem_of_app; by left|done]. Qed.
Lemma occurs_prefix P t t' : t `prefix_of` t' → occurs P t → occurs P t'.
Proof. intros [k ->]. apply occurs_app. Qed.

Section rules.
Context (allowed : list event → mysql_action → Prop).
Notation wp := (wp remember allowed).
(** The trace only grows. *)
Lemma wp_grows {A} (p : prog A) t : all_calls (λ c, ∀ t, allowed t c) p → wp p (λ _ t', t `prefix_of` t') t.
Proof.
  intros Hp. apply (wp_all_calls (Sg:=mysql_signature) _ _ (λ c, ∀ t, allowed t c)); [exact Hp| |reflexivity]. intros c t' Hc Ht. split; [apply Hc|].
  intros x. etrans; [exact Ht|]. by eexists.
Qed.
Lemma wp_both {A} (p : prog A) Q Q' t : wp p Q t → wp p Q' t → wp p (λ a t', Q a t' ∧ Q' a t') t.
Proof. revert t. induction p as [a|c k IH]; intros t; cbn; [done|]. intros [Ha H] [_ H']. split; [exact Ha|]. intros x. by apply IH. Qed.
(** A program that only fails. *)
Definition never_ok {E A} (p : prog (result E A)) : Prop := ∀ t, wp p (λ r _, is_ok r = false) t.
End rules.

(** The instance answered what its replication is, to either form of the query. *)
Definition replication_answered (endpoint : SQLEndpoint) (probed : ReplicationStatus * bool) (t : list event) : Prop :=
  occurs (λ e, ∃ query, (query = replicaStatusQuery ∨ query = slaveStatusQuery) ∧
    answered endpoint query (λ r, ∃ rows, r = Ok rows ∧ replication_of rows = Ok probed) e) t.
Section looking.
Context (allowed : list event → mysql_action → Prop) (Hsilent : ∀ t c, silent c → allowed t c).
Notation wp := (wp remember allowed).
Lemma wp_looks {A} (p : prog A) t : observes p → wp p (λ _ t', t `prefix_of` t') t.
Proof. intros Hp. apply wp_grows. eapply all_calls_mono; [|exact Hp]. intros c Hc t'. by apply Hsilent. Qed.
Lemma wp_identity ctx endpoint cr t :
  wp (probeIdentity ctx endpoint cr) (post (λ identity t', t `prefix_of` t' ∧
    occurs (answered endpoint identityQuery (λ r, identity_of r = Ok identity)) t') (λ _ _, True)) t.
Proof.
  split; [apply Hsilent; by intros []|]. intros r. cbn. destruct (identity_of r) as [identity|e] eqn:Hid; [|done]. split; [by eexists|].
  apply occurs_more. right. by exists ctx, cr, r.
Qed.
Lemma wp_replication ctx endpoint cr t :
  wp (probeReplication ctx endpoint cr)
    (post (λ probed t', t `prefix_of` t' ∧ replication_answered endpoint probed t') (λ _ _, True)) t.
Proof.
  unfold probeReplication. apply wp_bind, wp_bind. split; [apply Hsilent; by intros []|]. intros r. cbn [Program.wp].
  assert (∀ query r t1, (query = replicaStatusQuery ∨ query = slaveStatusQuery) → t `prefix_of` t1 →
    wp (match r with Ok rows => Ret (replication_of rows) | Err e => Ret (Err e) end)
      (post (λ probed t', t `prefix_of` t' ∧ replication_answered endpoint probed t') (λ _ _, True))
      (remember t1 (existT (Query ctx endpoint cr query) r))) as Hend.
  { intros query r' t1 Hq Ht. destruct r' as [rows|e]; [|exact I]. cbn [Program.wp]. destruct (replication_of rows) as [probed|e] eqn:Hrep; [|exact I].
    split; [etrans; [exact Ht|by eexists]|]. apply occurs_more. right. exists query. split; [exact Hq|]. exists ctx, cr, (Ok rows). eauto. }
  destruct r as [rows|e]; [by apply (Hend replicaStatusQuery (Ok rows)); [left|]|].
  destruct (StatementUnsupported e); [|exact I]. split; [apply Hsilent; by intros []|]. intros r.
  specialize (Hend slaveStatusQuery r (remember t (existT (Query ctx endpoint cr replicaStatusQuery) (Err e)))).
  destruct r as [rows'|e']; cbn; [apply Hend; [by right|by eexists]|exact I].
Qed.
End looking.

(** Anything may be called. *)
Definition any (t : list event) (c : mysql_action) : Prop := True.
Lemma any_call {A} (p : prog A) : all_calls (λ c, ∀ t, any t c) p.
Proof. induction p as [a|c k IH]; [exact I|]. by split. Qed.

Notation run := (wp remember any).
Lemma run_grows {A} (p : prog A) t : run p (λ _ t', t `prefix_of` t') t.
Proof. apply wp_grows, any_call. Qed.

(** ** Programs that fail *)

Definition fails {E A} (p : prog (result E A)) : Prop := ∀ t, run p (λ r _, is_ok r = false) t.
Lemma fails_ret {E A} (e : E) : fails (Ret (Err e) : prog (result E A)).
Proof. by intros t. Qed.
Lemma fails_bind {E A B} (p : prog B) (f : B → prog (result E A)) : (∀ b, fails (f b)) → fails (pbind p f).
Proof. intros Hf t. apply wp_bind. eapply wp_mono; [|apply (run_grows p)]. intros b t' _. apply Hf. Qed.

(** ** Recorded steps *)

Lemma run_fails {E A} (p : prog (result E A)) Q t : fails p → run p (post Q (λ _ _, True)) t.
Proof. intros Hf. eapply wp_mono; [|apply Hf]. by intros [a|e]. Qed.

Section records.
Variable request : OperationRequest.
Definition step_recorded (step : string) (e : event) : Prop := ∃ ctx message, e = existT (CompleteStep ctx step message) (Ok tt).
(** The progress says that the step is complete; there may be no progress to record in. *)
Definition recorded (step : string) (t : list event) : Prop :=
  or_Progress request = NoProgress ∨ occurs (step_recorded step) t ∨ occurs (step_known step) t.
Definition all_recorded (steps : list string) (t : list event) : Prop := Forall (λ step, recorded step t) steps.
Lemma recorded_prefix step t t' : t `prefix_of` t' → recorded step t → recorded step t'.
Proof. intros Hp [?|[?|?]]; [by left|right; left|right; right]; by eapply occurs_prefix. Qed.
Lemma all_recorded_prefix steps t t' : t `prefix_of` t' → all_recorded steps t → all_recorded steps t'.
Proof. intros Hp Hs. eapply Forall_impl; [exact Hs|]. intros step. by apply recorded_prefix. Qed.

Definition records {E A} (p : prog (result E A)) (steps : list string) : Prop :=
  ∀ t, run p (post (λ _ t', all_recorded steps t') (λ _ _, True)) t.
Lemma records_nothing {E A} (p : prog (result E A)) : records p [].
Proof. intros t. eapply wp_mono; [|apply run_grows]. intros [a|e] t' _; [constructor|done]. Qed.
Lemma records_fails {E A} (p : prog (result E A)) steps : fails p → records p steps.
Proof. intros Hf t. by apply run_fails. Qed.
(** A sequence, the recorded steps of its first part first. *)
Lemma records_ebind {E A B} (p : prog (result E A)) (f : A → prog (result E B)) steps steps' :
  records p steps → (∀ a, records (f a) steps') → records (ebind p f) (steps ++ steps').
Proof.
  intros Hp Hf t. apply wp_ebind. eapply wp_mono; [|apply Hp]. intros [a|e] t' Ht'; [|done]. cbn [post].
  eapply wp_mono; [|apply wp_both; [apply (Hf a t')|apply run_grows]]. intros [b|e] t'' [H1 H2]; [|done].
  apply Forall_app. split; [by eapply all_recorded_prefix|exact H1].
Qed.
Lemma records_bind {E A B} (p : prog A) (f : A → prog (result E B)) steps : (∀ a, records (f a) steps) → records (pbind p f) steps.
Proof. intros Hf t. apply wp_bind. eapply wp_mono; [|apply run_grows]. intros a t' _. apply Hf. Qed.
Lemma records_then {E A B} (p : prog (result E A)) (f : A → prog (result E B)) steps : (∀ a, records (f a) steps) → records (ebind p f) steps.
Proof. intros Hf. apply (records_ebind p f [] steps); [apply records_nothing|exact Hf]. Qed.
Lemma records_then_nothing {E A B} (p : prog (result E A)) (f : A → prog (result E B)) steps : records p steps → records (ebind p f) steps.
Proof. intros Hp. rewrite <- (app_nil_r steps). apply records_ebind; [exact Hp|]. intros a. apply records_nothing. Qed.
Lemma records_or {E F A} (p : prog (result E A)) (f : E → prog (result F A)) steps :
  records p steps → (∀ e, fails (f e)) → records (on_error p f) steps.
Proof.
  intros Hp Hf t. apply wp_on_error. eapply wp_mono; [|apply Hp]. intros [a|e] t' Ht'; [exact Ht'|]. by apply run_fails.
Qed.
Lemma records_each {E A} (f : A → prog (result E unit)) (name : A → string) l :
  (∀ a, records (f a) [name a]) → records (each f l) (name <$> l).
Proof.
  intros Hf. induction l as [|a l IH]; [apply records_nothing|].
  change (records (ebind (f a) (λ _, each f l)) ([name a] ++ (name <$> l))). apply records_ebind; [apply Hf|]. intros _. exact IH.
Qed.
(** A later part keeps what is recorded already. *)
Lemma records_given {E A} (p : prog (result E A)) (steps : list string) t : all_recorded steps t →
  run p (post (λ _ t', all_recorded steps t') (λ _ _, True)) t.
Proof. intros Hs. eapply wp_mono; [|apply run_grows]. intros [a|e] t' Ht; [by eapply all_recorded_prefix|done]. Qed.

Lemma records_complete ctx step message : records (completeOperationStep ctx request step message) [step].
Proof.
  intros t. unfold completeOperationStep. destruct (or_Progress request) eqn:Hp.
  { constructor; [by left|constructor]. }
  all: split; [exact I|]; intros [[]|e]; [|done]; constructor; [|constructor]; right; left; apply occurs_more; right; by eexists _, _.
Qed.
Lemma run_completed ctx step t :
  run (operationStepCompleted ctx request step) (post (λ completed t', completed = true → recorded step t') (λ _ _, True)) t.
Proof.
  unfold operationStepCompleted. destruct (or_Progress request) eqn:Hp; [done|done|]. split; [exact I|]. intros [[]|e]; [|done|done].
  intros _. right. right. apply occurs_more. right. by exists ctx.
Qed.
(** [if completed, skip, else do it and record it]. *)
Lemma records_unless {E F} ctx step (f : string → prog (result E bool)) (k : bool → prog (result E F)) :
  (∀ e, fails (f e)) → records (k false) [step] → records (ebind (on_error (operationStepCompleted ctx request step) f) k) [step].
Proof.
  intros Hf Hp t. apply wp_ebind, wp_on_error. eapply wp_mono; [|apply run_completed].
  intros [[]|e] t' Ht'; cbn [post]; [|apply Hp|by apply run_fails].
  eapply wp_mono; [|apply run_grows]. intros [b|e] t'' Hk; [|done]. constructor; [eapply recorded_prefix; [exact Hk|by apply Ht']|constructor].
Qed.
(** The steps of a plan that changes something. *)
Definition mutating_names (steps : list PlanStep) : list string := step_Name <$> List.filter step_Mutating steps.
Lemma run_all_steps ctx steps t :
  run (all_steps_completed ctx request steps) (post (λ completed t', completed = true → all_recorded (mutating_names steps) t') (λ _ _, True)) t.
Proof.
  revert t. induction steps as [|step steps IH]; intros t; [constructor|]. cbn [all_steps_completed]. unfold mutating_names. cbn [List.filter].
  destruct (step_Mutating step); [|apply IH]. apply wp_ebind. eapply wp_mono; [|apply run_completed].
  intros [[]|e] t' Ht'; cbn [post]; [|done|done]. eapply wp_mono; [|apply wp_both; [apply IH|apply run_grows]].
  intros [[]|e] t'' [H1 H2]; [|done|done]. intros _. constructor; [by eapply recorded_prefix, Ht'|by apply H1].
Qed.
Lemma run_all_mutations ctx t :
  run (allMutationStepsCompleted ctx request) (post (λ completed t', completed = true →
    ∃ plan, or_Plan request = Some plan ∧ all_recorded (mutating_names (plan_Steps plan)) t') (λ _ _, True)) t.
Proof.
  unfold allMutationStepsCompleted. destruct (or_Plan request) as [plan|], (or_Progress request); try done;
    (eapply wp_mono; [|apply run_all_steps]); intros [[]|e] t' Ht'; try done; intros _; exists plan; auto.
Qed.
Lemma records_authorize ctx resolved : records (authorizeEndpointTransition ctx request resolved) ["authorize_target_transition"].
Proof.
  apply records_then. intros h. case_match; [apply records_fails, fails_ret|]. apply records_then. intros _.
  apply records_or; [apply records_complete|]. intros e. apply fails_bind. intros _. apply fails_ret.
Qed.
End records.

(** The steps that a successful execution of a trace has recorded. *)
Lemma records_sound {E A} request (p : prog (result E A)) steps t a :
  records request p steps → runs p t (Ok a) → all_recorded request steps t.
Proof.
  intros Hp Hr. destruct (wp_sound _ _ _ _ _ _ _ (Hp []) Hr) as [_ H]. by rewrite watch_remember in H.
Qed.
