(* ===== verification/Switchover.v ===== *)
(** * adapters/mysql/switchover.go: the planned switchover

    The healthy source is fenced, its final GTID position is waited for on the
    target, the target is detached and made writable, the other instances
    follow it, and the writer endpoint moves.  [switchoverExecute] is the
    whole function, cut at its phases; an operation that was interrupted is
    resumed from the progress it recorded.

    The theorems hold for every sequence of answers: when the target may be
    made writable, what the class of a failure says about the servers, and what
    a success has established. *)
From S2P Require Import Prelude GoStd Model Gtid Interfaces Candidates Program MySQLAdapter MySQLPlans.
From stdpp Require Import pretty.
#[local] Open Scope Z_scope.

Definition fail_check (name message : string) : Check := mkCheck name CheckFail message.
Definition same_family (v w : string) : bool :=
  match mysqlReleaseFamily v, mysqlReleaseFamily w with Some f, Some g => f == g | _, _ => false end.
Definition both_running (status : ReplicationStatus) : bool :=
  (repl_IOThread status == ThreadRunning) && (repl_SQLThread status == ThreadRunning).
Definition no_errant (primary candidate : GTIDSet) : bool :=
  match CompareGTIDSets primary candidate with Ok comparison => ErrantTransactions comparison =? 0 | Err _ => false end.

Section switchover.
Variables (PlanSHA256 : OperationPlan → string) (FormatTime : Time → string) (a : Adapter).

(** ** The checks of a plan *)

Section follower_readiness.
Variables (primary follower : DatabaseInstance).
Let replication := inst_Replication follower.
Let metadata := inst_EngineMetadata follower.
(** The gates before the histories are compared, with the message of each. *)
Definition follower_gates : list (bool * string) :=
  [((inst_Role follower == RoleReplica) && (health_State (inst_Health follower) == HealthHealthy) && negb (inst_Maintenance follower),
    "follower must be a healthy replica outside maintenance");
   (candidateReadOnly metadata == Some true, "follower must have current read-only evidence");
   (both_running replication, "follower replication threads must both be running");
   ((server_uuid (inst_EngineIdentity primary) != "") &&
    (server_uuid (repl_SourceIdentity replication) == server_uuid (inst_EngineIdentity primary)),
    "follower must directly follow the current primary");
   (match repl_LagSeconds replication with Some lag => 0 <=? lag | None => false end,
    "follower replication lag must be known and non-negative");
   (default 0 (repl_LagSeconds replication) <=? replicationLagMaximum a,
    "follower replication lag " +:+ pretty (default 0 (repl_LagSeconds replication)) +:+ "s exceeds the " +:+
    pretty (replicationLagMaximum a) +:+ "s switchover maximum");
   (gtid_mode_on metadata, "follower GTID mode must be ON");
   (boolMetadata metadata "log_bin" == Some true, "follower binary logging must be enabled")].
Definition first_failing (gates : list (bool * string)) : option string :=
  match List.filter (λ g, negb (fst g)) gates with [] => None | (_, message) :: _ => Some message end.
Definition followerReadinessCheck : Check :=
  let name := "follower_readiness_" +:+ inst_ResourceID follower in
  let not_identical := fail_check name "follower GTID history is not identical to the current primary" in
  match first_failing follower_gates with
  | Some message => fail_check name message
  | None =>
      match ParseGTIDSet (mget (inst_EngineMetadata primary) "gtid_executed"), ParseGTIDSet (repl_ExecutedPosition replication) with
      | Ok primarySet, Ok followerSet =>
          match CompareGTIDSets primarySet followerSet with
          | Err _ => not_identical
          | Ok comparison =>
              if negb (ErrantTransactions comparison =? 0) then
                match LikelyTemporalSamplingSkew primarySet followerSet (server_uuid (inst_EngineIdentity primary))
                        (health_ObservedAt (inst_Health primary)) (health_ObservedAt (inst_Health follower)) with
                | Ok true => mkCheck name CheckWarn
                    "follower has source-owned GTIDs from a later sample; live validation is required before execution"
                | _ => not_identical
                end
              else if negb (MissingTransactions comparison =? 0) then
                mkCheck name CheckWarn ("follower is missing " +:+ pretty (MissingTransactions comparison) +:+
                  " transactions and will catch up after reparenting")
              else if negb (same_family (mget (inst_EngineMetadata primary) "version") (mget metadata "version")) then
                fail_check name "follower MySQL release family is incompatible"
              else if 0 <? default 0 (repl_LagSeconds replication) then
                mkCheck name CheckWarn ("follower is " +:+ pretty (default 0 (repl_LagSeconds replication)) +:+
                  "s behind and must catch up after source fencing")
              else mkCheck name CheckPass "follower is safe to reparent after promotion"
          end
      | _, _ => fail_check name "follower GTID position is invalid"
      end
  end.
End follower_readiness.

Section precheck.
Variables (request : OperationRequest) (resolved : MySQLOperation).
Let cluster := mo_Cluster resolved.
Let primary := mo_Primary resolved.
Let target := mo_Target resolved.
Let snapshot := mo_Snapshot resolved.
Definition switchover_lag_check : Check :=
  let maximumLag := replicationLagMaximum a in
  match repl_LagSeconds (inst_Replication target) with
  | Some lag =>
      if lag <? 0 then fail_check "replication_lag" "selected target must have known non-negative replication lag"
      else if maximumLag <? lag then
        fail_check "replication_lag" ("selected target lag " +:+ pretty lag +:+ "s exceeds the " +:+ pretty maximumLag +:+ "s switchover maximum")
      else if 0 <? lag then
        mkCheck "replication_lag" CheckWarn ("selected target is " +:+ pretty lag +:+ "s behind and must catch up after source fencing")
      else mkCheck "replication_lag" CheckPass "selected target has zero observed replication lag"
  | None => fail_check "replication_lag" "selected target must have known non-negative replication lag"
  end.
Definition switchover_gtid_check : Check :=
  let name := "gtid_consistency" in
  let limits := fail_check name "source or target GTID position exceeds supported limits" in
  match ParseGTIDSet (mget (inst_EngineMetadata primary) "gtid_executed"), ParseGTIDSet (repl_ExecutedPosition (inst_Replication target)) with
  | Ok primarySet, Ok targetSet =>
      match CompareGTIDSets primarySet targetSet with
      | Err _ => limits
      | Ok comparison =>
          if negb (ErrantTransactions comparison =? 0) then
            match LikelyTemporalSamplingSkew primarySet targetSet (server_uuid (inst_EngineIdentity primary))
                    (health_ObservedAt (inst_Health primary)) (health_ObservedAt (inst_Health target)) with
            | Err _ => limits
            | Ok true => mkCheck name CheckWarn
                "target has source-owned GTIDs from a later sample; live validation is required before execution"
            | Ok false => fail_check name ("target has " +:+ pretty (MissingTransactions comparison) +:+ " missing and " +:+
                pretty (ErrantTransactions comparison) +:+ " errant transactions")
            end
          else if negb (MissingTransactions comparison =? 0) then
            mkCheck name CheckWarn ("target is missing " +:+ pretty (MissingTransactions comparison) +:+
              " transactions that will be caught up after source fencing")
          else mkCheck name CheckPass "source and target GTID histories are identical"
      end
  | _, _ => fail_check name "source or target GTID position is invalid"
  end.
(** The checks on the resolved operation itself. *)
Definition switchover_checks : list Check :=
  let primaryUUID := server_uuid (inst_EngineIdentity primary) in
  let on instance name := boolMetadata (inst_EngineMetadata instance) name in
  [checked_as "inventory_membership"
     ((opn_Engine (or_Operation request) == EngineMySQL) && (cluster_Engine cluster == EngineMySQL) &&
      (opn_ClusterID (or_Operation request) == cluster_ResourceID cluster) && (topo_ClusterID snapshot == cluster_ResourceID cluster) &&
      (inst_ClusterID primary == cluster_ResourceID cluster) && (inst_ClusterID target == cluster_ResourceID cluster) &&
      (or_TargetID request == inst_ResourceID target) && ValidResourceID (inst_ResourceID primary) && ValidResourceID (inst_ResourceID target))
     "source and target are UUID-scoped members of the selected MySQL cluster"
     "source or target is outside the selected MySQL cluster inventory";
   checked_as "primary_health" ((inst_Role primary == RolePrimary) && (health_State (inst_Health primary) == HealthHealthy))
     "current primary is healthy" "current primary must be healthy and have the primary role";
   checked_as "primary_writable" ((on primary "read_only" == Some false) && (on primary "super_read_only" == Some false))
     "current primary is writable" "current primary must have current writable-state evidence";
   checked_as "target_role" (inst_Role target == RoleReplica) "selected target is a replica" "selected target must be a replica";
   checked_as "target_health" (health_State (inst_Health target) == HealthHealthy) "selected target is healthy" "selected target must be healthy";
   checked_as "target_promotion" (inst_PromotionEligible target) "selected target is promotion eligible"
     "selected target is not promotion eligible";
   checked_as "target_read_only" (candidateReadOnly (inst_EngineMetadata target) == Some true) "selected target is read-only"
     "selected target must have current read-only evidence";
   checked_as "target_maintenance" (negb (inst_Maintenance target)) "selected target is not in maintenance" "selected target is in maintenance"]
  ++ (if ad_semiSyncRequired a then [semiSyncSwitchoverCheck primary target] else []) ++
  [checked_as "replication_threads" (both_running (inst_Replication target)) "replication IO and SQL threads are running"
     "replication IO and SQL threads must both be running";
   checked_as "replication_source"
     ((primaryUUID != "") && (server_uuid (repl_SourceIdentity (inst_Replication target)) == primaryUUID))
     "selected target directly follows the current primary" "selected target must directly follow the current primary";
   switchover_lag_check;
   checked_as "gtid_mode" (gtid_mode_on (inst_EngineMetadata primary) && gtid_mode_on (inst_EngineMetadata target))
     "GTID mode is ON for source and target" "GTID mode must be ON for source and target";
   checked_as "binary_logging" ((on primary "log_bin" == Some true) && (on target "log_bin" == Some true))
     "binary logging is enabled for source and target" "binary logging must be enabled for source and target";
   switchover_gtid_check;
   checked_as "version_compatibility" (same_family (mget (inst_EngineMetadata primary) "version") (mget (inst_EngineMetadata target) "version"))
     "source and target use the same MySQL release family" "source and target MySQL release families are incompatible";
   checked_as "probe_coverage"
     (negb (IsZero (topo_ObservedAt snapshot)) && Nat.leb (length (topo_Instances snapshot)) (length (topo_Probes snapshot)) &&
      forallb (λ instance, hasHealthyBoundProbe (topo_Probes snapshot) (inst_ResourceID instance) (topo_ObservedAt snapshot))
        (topo_Instances snapshot))
     "all explicit inventory probes are current and healthy" "all explicit inventory probes must be current and healthy";
   checked_as "topology_scope" (Nat.leb 2 (length (topo_Instances snapshot)))
     "all non-target inventory members will be reparented to the selected target"
     "planned switchover requires a primary and at least one replica"]
  ++ (followerReadinessCheck primary <$>
        List.filter (λ instance, (inst_ResourceID instance != inst_ResourceID primary) && (inst_ResourceID instance != inst_ResourceID target))
          (topo_Instances snapshot)).
Definition switchoverPrecheck_resolved (ctx : Context) : prog (result string (list Check)) :=
  providerChecks ←? perform (EndpointPrecheck ctx resolved);
  let checks := switchover_checks ++ ((λ check, sanitizeEndpointCheck check "writer_endpoint_provider") <$> (providerChecks : list Check)) in
  executable ←? perform (Executable ctx);
  Ret (Ok (if negb executable then
             if failedCheckNamed checks "writer_endpoint_provider" then checks
             else checks ++ [fail_check "writer_endpoint_provider" "writer endpoint provider does not support execution"]
           else if negb (passedCheckNamed checks "writer_endpoint_provider") && negb (failedCheckNamed checks "writer_endpoint_provider")
           then checks ++ [fail_check "writer_endpoint_provider" "writer endpoint provider did not return explicit ready evidence"]
           else checks)).
End precheck.
Definition switchoverPrecheck (ctx : Context) (request : OperationRequest) : prog (result string (list Check)) :=
  if opn_Kind (or_Operation request) != OperationSwitchover then fail "unsupported"
  else match or_Resolved request with
  | None => fail "resolved MySQL operation context is required"
  | Some resolved => switchoverPrecheck_resolved request resolved ctx
  end.

(** The instances that follow the target after the switchover, the source among them. *)
Definition switchover_followers (resolved : MySQLOperation) : list DatabaseInstance :=
  merge_sort instance_le (List.filter (λ instance, inst_ResourceID instance != inst_ResourceID (mo_Target resolved))
    (topo_Instances (mo_Snapshot resolved))).
Definition reparent_step (follower : DatabaseInstance) : string := "reparent_follower_" +:+ inst_ResourceID follower.

(** Plan steps are numbered by their position. *)
Definition numbered (steps : list (Z → PlanStep)) : list PlanStep := imap (λ i step, step (Z.of_nat i + 1)) steps.
Definition switchover_steps (resolved : MySQLOperation) : list PlanStep :=
  let source := inst_ResourceID (mo_Primary resolved) in
  let target := inst_ResourceID (mo_Target resolved) in
  let step name owner id mutating post i := mkPlanStep i name owner id mutating post in
  numbered
  ([step "revalidate_topology" "platform" (cluster_ResourceID (mo_Cluster resolved)) false "observation and resource revisions are unchanged";
    step "validate_writer_endpoint" "endpoint" target false "endpoint provider is executable";
    step "authorize_target_transition" "endpoint" target true "source and target have an active transition lease";
    step "fence_source" "mysql" source true "source is read-only";
    step "capture_source_gtid" "mysql" source false "source GTID position is captured after fencing";
    step "wait_target_gtid" "mysql" target false "target executed the fenced source GTID position";
    step "stop_target_replication" "mysql" target true "target replication is stopped";
    step "promote_target" "mysql" target true "target is writable"]
   ++ ((λ follower, step (reparent_step follower) "mysql" (inst_ResourceID follower) true
                      "follower is read-only and replicates from the selected target") <$> switchover_followers resolved)
   ++ (if ad_semiSyncRequired a then [step "activate_semisync_source" "mysql" target true
         "promoted source has an active semi-sync replica acknowledgement"] else [])
   ++ [step "transfer_writer_endpoint" "endpoint" target true "writer endpoint has one target owner";
       step "retain_source_read_only" "mysql" source true "former primary remains read-only";
       step "verify_roles_and_endpoint" "platform" target false "one writable primary, healthy followers, and one endpoint owner are proven"]).
Definition switchoverPlan (ctx : Context) (request : OperationRequest) : prog (result string OperationPlan) :=
  _ ←! ensure (ValidResourceID (opn_ResourceID (or_Operation request))) "operation ID is required before planning";
  checks ←! switchoverPrecheck ctx request;
  match or_Resolved request with
  | None => fail "resolved MySQL operation context is required"
  | Some resolved =>
      let plan := zero_OperationPlan <| plan_OperationID := opn_ResourceID (or_Operation request) |>
        <| plan_ClusterID := cluster_ResourceID (mo_Cluster resolved) |> <| plan_SourceID := inst_ResourceID (mo_Primary resolved) |>
        <| plan_TargetID := inst_ResourceID (mo_Target resolved) |> <| plan_Stage := StagePlan |>
        <| plan_ObservationToken := resolvedObservationToken FormatTime resolved |>
        <| plan_ResourceRevisions := planResourceRevisions resolved |> <| plan_Checks := checks |>
        <| plan_Steps := switchover_steps resolved |> <| plan_Mutating := true |>
        <| plan_Summary := if switchoverPlanHasBlockingChecks checks then "guarded MySQL planned switchover is blocked"
                           else "guarded MySQL planned switchover is ready" |> in
      Ret (Ok (plan <| plan_Digest := operationPlanDigest PlanSHA256 plan |>))
  end.

(** ** Live checks *)

Section execution.
Variables (request : OperationRequest) (resolved : MySQLOperation).
Let credentials := mo_Credentials resolved.
Let source := instanceEndpoint (mo_Primary resolved).
Let target := instanceEndpoint (mo_Target resolved).
Let sourceUUID := server_uuid (inst_EngineIdentity (mo_Primary resolved)).
Let targetUUID := server_uuid (inst_EngineIdentity (mo_Target resolved)).

Definition probe_live (ctx : Context) (endpoint : SQLEndpoint) (what : string) : prog (result string identityProbe) :=
  probeIdentity ctx endpoint credentials or_else (λ _, fail what).
Definition replication_live (ctx : Context) (endpoint : SQLEndpoint) (what : string) : prog (result string (ReplicationStatus * bool)) :=
  probeReplication ctx endpoint credentials or_else (λ _, fail what).
Definition lag_known (status : ReplicationStatus) : bool :=
  match repl_LagSeconds status with Some lag => 0 <=? lag | None => false end.
Definition gtid_on (identity : identityProbe) : bool := EqualFold (ip_gtidMode identity) "ON".
Definition log_bin_on (identity : identityProbe) : bool := parseMySQLBoolean (ip_logBin identity) == Some true.

(** The tests on both identities that the first and the resumed execution share. *)
Definition live_settings (sourceIdentity targetIdentity : identityProbe) : prog (result string unit) :=
  _ ←! ensure (gtid_on sourceIdentity && gtid_on targetIdentity) "live source and target must keep GTID mode ON";
  _ ←! ensure (log_bin_on sourceIdentity && log_bin_on targetIdentity) "live source and target must keep binary logging enabled";
  _ ←! ensure (same_family (ip_version sourceIdentity) (ip_version targetIdentity))
         "live source and target MySQL release families are incompatible";
  ensure (bool_decide (is_Some (dialectForVersion (ip_version targetIdentity)))) "invalid MySQL version".
Definition live_identities (ctx : Context) : prog (result string (identityProbe * identityProbe)) :=
  sourceIdentity ←! probe_live ctx source "probe live source identity";
  targetIdentity ←! probe_live ctx target "probe live target identity";
  _ ←! verifyTargetReplicationCredentials ctx target (mo_ReplicationCredentials resolved);
  _ ←! ensure ((ip_serverUUID sourceIdentity == sourceUUID) && (ip_serverUUID targetIdentity == targetUUID))
         "live MySQL identity no longer matches the immutable operation resources";
  Ret (Ok (sourceIdentity, targetIdentity)).
(** A replica that follows the source, compared with a fresh sample of the source. *)
Definition live_follower (ctx : Context) (sourceIdentity : identityProbe) (follower : DatabaseInstance) : prog (result string unit) :=
  let endpoint := instanceEndpoint follower in
  identity ←! probe_live ctx endpoint "probe live follower identity";
  _ ←! ensure (ip_serverUUID identity == server_uuid (inst_EngineIdentity follower))
         "live follower identity no longer matches the immutable operation resource";
  _ ←! ensure (fenced_identity identity) "live follower is not fully read-only";
  _ ←! ensure (gtid_on identity) "live follower must keep GTID mode ON";
  _ ←! ensure (log_bin_on identity) "live follower must keep binary logging enabled";
  _ ←! ensure (same_family (ip_version identity) (ip_version sourceIdentity)) "live follower MySQL release family is incompatible";
  probed ←! replication_live ctx endpoint "probe live follower replication";
  _ ←! ensure (probed.2 && both_running probed.1) "live follower replication threads are not both running";
  _ ←! ensure (server_uuid (repl_SourceIdentity probed.1) == ip_serverUUID sourceIdentity)
         "live follower no longer follows the selected source";
  _ ←! ensure (lag_known probed.1) "live follower replication lag must be known and non-negative";
  match ParseGTIDSet (repl_ExecutedPosition probed.1) with
  | Err _ => fail "live follower GTID position is invalid"
  | Ok followerSet =>
      sourceSet ←! (queryExecutedGTIDSet ctx source credentials or_else (λ _, fail "refresh live source GTID after follower sample"));
      ensure (no_errant sourceSet followerSet) "live source and follower GTID histories are not identical"
  end.
Definition other_followers : list DatabaseInstance :=
  List.filter (λ instance, (inst_ResourceID instance != inst_ResourceID (mo_Primary resolved)) &&
                           (inst_ResourceID instance != inst_ResourceID (mo_Target resolved)))
    (topo_Instances (mo_Snapshot resolved)).
Definition liveSwitchoverPrecheck (ctx : Context) : prog (result string unit) :=
  identities ←! live_identities ctx;
  let '(sourceIdentity, targetIdentity) := identities : identityProbe * identityProbe in
  _ ←! ensure (writable_identity sourceIdentity) "live source is no longer writable before fencing";
  _ ←! ensure (negb (writable_identity targetIdentity)) "live target is writable before promotion";
  _ ←! live_settings sourceIdentity targetIdentity;
  probed ←! replication_live ctx source "probe live source replication";
  _ ←! ensure (negb probed.2) "live source unexpectedly has a replication source";
  probed ←! replication_live ctx target "probe live target replication";
  _ ←! ensure (probed.2 && both_running probed.1) "live target replication threads are not both running";
  _ ←! ensure (server_uuid (repl_SourceIdentity probed.1) == ip_serverUUID sourceIdentity) "live target no longer follows the selected source";
  _ ←! ensure (lag_known probed.1) "live target replication lag must be known and non-negative";
  match ParseGTIDSet (repl_ExecutedPosition probed.1) with
  | Err _ => fail "live source or target GTID position is invalid"
  | Ok targetSet =>
      sourceSet ←! (queryExecutedGTIDSet ctx source credentials or_else (λ _, fail "refresh live source GTID after target sample"));
      _ ←! ensure (no_errant sourceSet targetSet) "live source and target GTID histories are not identical";
      each (live_follower ctx sourceIdentity) other_followers
  end.

(** The state a resumed operation may find the former primary in. *)
Definition resume_source (ctx : Context) (targetIdentity : identityProbe) (sourceReparented : bool) : prog (result string unit) :=
  probed ←! replication_live ctx source "probe live source replication";
  if probed.2 : bool then
    _ ←! ensure sourceReparented "live source has a replication source without durable reparent progress";
    _ ←! ensure (both_running probed.1) "live former-primary replication threads are not both running";
    _ ←! ensure (server_uuid (repl_SourceIdentity probed.1) == ip_serverUUID targetIdentity)
           "live former primary does not follow the selected target";
    ensure (repl_LagSeconds probed.1 == Some 0) "live former-primary replication lag must be known and zero"
  else ensure (negb sourceReparented) "durably reparented former primary no longer has a replication source".
(** And the target: detached or not, according to the promotion it recorded. *)
Definition resume_target (ctx : Context) (sourceIdentity targetIdentity : identityProbe) (promoted : bool) : prog (result string unit) :=
  probed ←! replication_live ctx target "probe live target replication";
  if fenced_identity targetIdentity then
    if probed.2 : bool then
      _ ←! ensure (negb promoted) "durably promoted target unexpectedly has a replication source";
      _ ←! ensure (both_running probed.1) "live target replication threads are not both running";
      _ ←! ensure (server_uuid (repl_SourceIdentity probed.1) == ip_serverUUID sourceIdentity)
             "live target no longer follows the selected source";
      ensure (repl_LagSeconds probed.1 == Some 0) "live target replication lag must be known and zero"
    else ensure promoted "live target is detached without durable promotion progress"
  else if writable_identity targetIdentity then
    _ ←! ensure promoted "live target is writable without durable promotion progress";
    ensure (negb probed.2) "promoted target still has a replication source"
  else fail "live target has a partial read-only state during operation recovery".
Definition liveSwitchoverResumePrecheck (ctx : Context) : prog (result string unit) :=
  identities ←! live_identities ctx;
  let '(sourceIdentity, targetIdentity) := identities : identityProbe * identityProbe in
  _ ←! ensure (fenced_identity sourceIdentity) "live source is not fully fenced during operation recovery";
  _ ←! live_settings sourceIdentity targetIdentity;
  promoted ←! (operationStepCompleted ctx request "promote_target" or_else (λ _, fail "read target promotion progress"));
  sourceReparented ←! (operationStepCompleted ctx request (reparent_step (mo_Primary resolved)) or_else
                         (λ _, fail "read former-primary reparent progress"));
  _ ←! resume_source ctx targetIdentity sourceReparented;
  _ ←! resume_target ctx sourceIdentity targetIdentity promoted;
  match ParseGTIDSet (ip_gtidExecuted sourceIdentity), ParseGTIDSet (ip_gtidExecuted targetIdentity) with
  | Ok sourceSet, Ok targetSet =>
      ensure (match CompareGTIDSets sourceSet targetSet with
              | Ok comparison => (MissingTransactions comparison =? 0) &&
                  negb (fenced_identity targetIdentity && negb (ErrantTransactions comparison =? 0))
              | Err _ => false
              end) "live source and target GTID histories are unsafe for operation recovery"
  | _, _ => fail "live source or target GTID position is invalid"
  end.

(** ** Verification *)

Definition switchover_verify_source (ctx : Context) : prog (list Check) :=
  identity ←? probeIdentity ctx source credentials;
  Ret match identity with
      | Err _ => [fail_check "source_reachable" "former primary reachability is unknown"]
      | Ok identity =>
          [checked_as "source_identity" (ip_serverUUID identity == sourceUUID)
             "former primary identity matches the immutable source resource" "former primary identity does not match the immutable source resource";
           checked_as "source_read_only" (fenced_identity identity) "former primary is read-only" "former primary is not fully read-only"]
      end.
(** The checks of the target, and whether it is writable. *)
Definition switchover_verify_target (ctx : Context) : prog (list Check * bool) :=
  identity ←? probeIdentity ctx target credentials;
  replication ←? probeReplication ctx target credentials;
  Ret (match identity with
       | Err _ => [fail_check "target_reachable" "target reachability is unknown"]
       | Ok identity =>
           [checked_as "target_identity" (ip_serverUUID identity == targetUUID)
              "target identity matches the immutable target resource" "target identity does not match the immutable target resource";
            checked_as "target_writable" (writable_identity identity) "selected target is writable" "selected target is not writable"]
       end ++
       [match replication with
        | Err _ => fail_check "target_replication_detached" "target replication state is unknown"
        | Ok (_, configured) =>
            checked_as "target_replication_detached" (negb configured) "selected target is no longer configured as a replica"
              "selected target is still configured as a replica"
        end],
       match identity with Ok identity => writable_identity identity | Err _ => false end).
(** The loop over the followers: their checks, and how many of them are writable. *)
Fixpoint verify_followers (ctx : Context) (followers : list DatabaseInstance) : prog (list Check * Z) :=
  match followers with
  | [] => Ret ([], 0)
  | follower :: followers =>
      verified ←? verifyFollower a ctx follower (mo_Target resolved) credentials;
      rest ←? verify_followers ctx followers;
      let '(checks, writable) := verified : list Check * bool in
      let '(others, count) := rest : list Check * Z in
      Ret (checks ++ others, if writable then count + 1 else count)
  end.
Definition verification_of (passed : bool) (checks : list Check) : Verification :=
  zero_Verification <| ver_OperationID := opn_ResourceID (or_Operation request) |> <| ver_Passed := passed |> <| ver_Checks := checks |>.
Definition switchoverVerifyOnce (ctx : Context) : prog (result string Verification) :=
  if opn_Kind (or_Operation request) != OperationSwitchover then fail "unsupported"
  else match validateVerificationPlan PlanSHA256 request with
  | Err message => Ret (Ok (verification_of false [fail_check "plan_integrity" message]))
  | Ok _ =>
      sourceChecks ←? switchover_verify_source ctx;
      verifiedTarget ←? switchover_verify_target ctx;
      semiSync ←? (if ad_semiSyncRequired a then
                     check ←? verifySemiSyncPrimary ctx target credentials; Ret [check]
                   else Ret []);
      followers ←? verify_followers ctx (List.filter (λ instance, inst_ResourceID instance != inst_ResourceID (mo_Target resolved))
                                          (topo_Instances (mo_Snapshot resolved)));
      let '(targetChecks, targetWritable) := verifiedTarget : list Check * bool in
      let '(followerChecks, writableFollowers) := followers : list Check * Z in
      let writableCount := if targetWritable : bool then writableFollowers + 1 else writableFollowers in
      endpoint ←? perform (EndpointVerify ctx resolved);
      let checks := (sourceChecks : list Check) ++ targetChecks ++ (semiSync : list Check) ++ followerChecks ++
        [checked_as "writable_primary_uniqueness" (writableCount =? 1) "exactly one controlled instance is writable"
           (pretty writableCount +:+ " controlled instances are writable");
         sanitizeEndpointCheck endpoint "writer_endpoint_owner"] in
      Ret (Ok (verification_of (negb (planHasBlockingChecks checks) && passedCheckNamed checks "writer_endpoint_owner") checks))
  end.

(** Only the convergence of the followers is still missing. *)
Fixpoint convergence_pending (pending : bool) (checks : list Check) : bool :=
  match checks with
  | [] => pending
  | check :: checks =>
      if check_Status check == CheckPass then convergence_pending pending checks
      else if (check_Status check == CheckFail) &&
              (HasPrefix (check_Name check) "follower_replication_" || (check_Name check == "semi_sync_new_primary"))
      then convergence_pending true checks
      else false
  end.
Definition followerReplicationConvergencePending (checks : list Check) : bool := convergence_pending false checks.
(** The verification and the error of the last attempt; the attempts after this one are [retries]. *)
Fixpoint verify_attempts (retries : nat) (ctx : Context) : prog (Verification * option string) :=
  r ←? switchoverVerifyOnce ctx;
  match r with
  | Err e => Ret (verification_of false [], Some e)
  | Ok verification =>
      match retries with
      | S retries =>
          if ver_Passed verification || negb (followerReplicationConvergencePending (ver_Checks verification)) then Ret (verification, None)
          else if ad_verificationInterval a <=? 0 then verify_attempts retries ctx
          else
            tick ←? perform (Wait ctx (ad_verificationInterval a));
            if tick : bool then verify_attempts retries ctx else Ret (verification, Some "context done")
      | O => Ret (verification, None)
      end
  end.
Definition switchoverVerify (ctx : Context) : prog (Verification * option string) :=
  verify_attempts (pred (ad_verificationAttempts a)) ctx.
End execution.

(** ** Execution *)

Section execute.
Variables (request : OperationRequest) (resolved : MySQLOperation).
Let credentials := mo_Credentials resolved.
Let source := instanceEndpoint (mo_Primary resolved).
Let target := instanceEndpoint (mo_Target resolved).

(** [restoreCandidateBeforePromotion] and [failBeforeCandidatePromotion]. *)
Definition restoreCandidateBeforePromotion (ctx : Context) : prog (result string unit) :=
  let recoveryContext := WithTimeout (WithoutCancel ctx) (30 * Second) in
  promoted ←! (operationStepCompleted recoveryContext request "promote_target" or_else
                 (λ _, fail "read target promotion progress before candidate restoration"));
  if promoted : bool then fail "candidate has durable promotion progress and cannot be restored as a replica"
  else reparentFollower a recoveryContext (mo_Target resolved) (mo_Primary resolved) credentials (mo_ReplicationCredentials resolved)
         or_else (λ _, fail "restore candidate replication to fenced source").
Definition failBeforeCandidatePromotion {A} (ctx : Context) (cause : string) : prog (result execution_failure A) :=
  restored ←? restoreCandidateBeforePromotion ctx;
  match restored with
  | Err _ => executionFailure OperationIndeterminate "fenced_unknown" cause
  | Ok _ => executionFailure OperationBlocked "fenced" cause
  end.
(** [_ = fenceInstance(target)] before a failure whose result is not known. *)
Definition fence_unverified {A} (ctx : Context) (cause : string) : prog (result execution_failure A) :=
  _ ←? fenceInstance ctx target credentials;
  executionFailure OperationIndeterminate "promoted_unverified" cause.
(** A failed promotion: the target is fenced again, or its state is not known. *)
Definition fence_promotion {A} (ctx : Context) (cause : string) : prog (result execution_failure A) :=
  fenced ←? fenceInstance ctx target credentials;
  match fenced with
  | Err _ => executionFailure OperationIndeterminate "promoted_unverified" cause
  | Ok _ => executionFailure OperationBlocked "fenced" cause
  end.

Definition switchover_fence_source (ctx : Context) : prog (result execution_failure unit) :=
  _ ←! (perform (Exec ctx source credentials setSuperReadOnlyOn) or_else (λ _,
          probed ←? queryFencedState (WithTimeout (WithoutCancel RequestContext) (5 * Second)) source credentials;
          match probed with
          | Err _ => executionFailure OperationIndeterminate "fenced_unknown" "source fencing result is unknown after error"
          | Ok true => executionFailure OperationBlocked "fenced" "source was fenced but the fencing command returned an error"
          | Ok false => executionFailure OperationFailed "pre_commit" "fence source"
          end));
  perform (Exec ctx source credentials setReadOnlyOn) or_else (λ _,
    executionFailure OperationBlocked "fenced" "confirm source read-only state").

(** The position of the fenced source; the answer must carry the column. *)
Definition gtid_position_of (r : result sql_error (list Row)) : option string :=
  match r with Ok [row] => TrimSpace <$> row !! "gtid_executed" | _ => None end.
Definition switchover_catch_up (ctx : Context) : prog (result execution_failure unit) :=
  rows ←? perform (Query ctx source credentials gtidPositionQuery);
  match gtid_position_of rows with
  | None => executionFailure OperationBlocked "fenced" "capture fenced source GTID"
  | Some position =>
      _ ←! ensure (is_ok (ParseGTIDSet position)) (mkFailure OperationBlocked "fenced" "validate fenced source GTID");
      _ ←! (completeOperationStep ctx request "capture_source_gtid" "fenced source GTID position captured" or_else
              (λ _, executionFailure OperationBlocked "fenced" "persist source GTID progress"));
      _ ←! (waitForExecutedGTIDSet ctx target credentials position or_else
              (λ _, executionFailure OperationBlocked "fenced" "target did not execute the fenced source GTID"));
      completeOperationStep ctx request "wait_target_gtid" "target executed the fenced source GTID position" or_else
        (λ _, executionFailure OperationBlocked "fenced" "persist target catch-up progress")
  end.
Definition switchover_detach (ctx : Context) : prog (result execution_failure unit) :=
  probed ←! (probeReplication ctx target credentials or_else
               (λ _, executionFailure OperationBlocked "fenced" "probe target replication before promotion"));
  _ ←! (if probed.2 : bool then
          match dialectForVersion (mget (inst_EngineMetadata (mo_Target resolved)) "version") with
          | None => executionFailure OperationBlocked "fenced" "invalid MySQL version"
          | Some dialect =>
              _ ←! (perform (Exec ctx target credentials (di_StopReplication dialect)) or_else
                      (λ _, failBeforeCandidatePromotion ctx "stop target replication"));
              perform (Exec ctx target credentials (di_ResetReplication dialect)) or_else
                (λ _, failBeforeCandidatePromotion ctx "reset target replication")
          end
        else proceed);
  completeOperationStep ctx request "stop_target_replication" "target replication is stopped and detached" or_else
    (λ _, failBeforeCandidatePromotion ctx "persist target replication progress").
Definition switchover_promote (ctx : Context) : prog (result execution_failure unit) :=
  writable ←! (queryWritableState ctx target credentials or_else
                 (λ _, failBeforeCandidatePromotion ctx "probe target writable state"));
  _ ←! (if writable : bool then proceed
        else perform (Exec ctx target credentials setReadOnlyOff) or_else (λ _, fence_promotion ctx "prepare target promotion"));
  writable ←? queryWritableState ctx target credentials;
  match writable with
  | Ok true =>
      completeOperationStep ctx request "promote_target" "selected target is writable" or_else
        (λ _, fence_unverified ctx "persist target promotion progress")
  | _ => fence_promotion ctx "target writable postcondition failed"
  end.
Definition switchover_reparent (ctx : Context) (follower : DatabaseInstance) : prog (result execution_failure unit) :=
  completed ←! (operationStepCompleted ctx request (reparent_step follower) or_else
                  (λ _, fence_unverified ctx "read follower reparent progress"));
  if completed : bool then proceed
  else
    _ ←! (reparentFollower a ctx follower (mo_Target resolved) credentials (mo_ReplicationCredentials resolved) or_else
            (λ _, fence_unverified ctx "reparent follower"));
    completeOperationStep ctx request (reparent_step follower) "follower is read-only and follows the selected target" or_else
      (λ _, fence_unverified ctx "persist follower reparent progress").
Definition switchover_semisync (ctx : Context) : prog (result execution_failure unit) :=
  if ad_semiSyncRequired a then
    stepCompleted ←! (operationStepCompleted ctx request "activate_semisync_source" or_else
                        (λ _, fence_unverified ctx "read semi-sync activation progress"));
    _ ←! (activateSemiSyncSource ctx target credentials (mget (inst_EngineMetadata (mo_Target resolved)) "version") or_else
            (λ _, fence_unverified ctx "activate promoted semi-sync source"));
    if stepCompleted : bool then proceed
    else completeOperationStep ctx request "activate_semisync_source" "promoted source has an active semi-sync replica acknowledgement"
           or_else (λ _, fence_unverified ctx "persist semi-sync activation progress")
  else proceed.
Definition switchover_endpoint (ctx : Context) : prog (result execution_failure unit) :=
  evidence ←? perform (EndpointVerify ctx resolved);
  let evidence := sanitizeEndpointCheck evidence "writer_endpoint_owner" in
  _ ←! (if endpointOwnerVerified evidence then proceed
        else if (check_Name evidence != "writer_endpoint_owner") || (check_Status evidence != CheckFail)
        then fence_unverified ctx "writer endpoint ownership is unknown before transfer"
        else
          _ ←! (perform (Transfer ctx resolved) or_else (λ _, fence_unverified ctx "writer endpoint transfer is unverified"));
          evidence ←? perform (EndpointVerify ctx resolved);
          if endpointOwnerVerified (sanitizeEndpointCheck evidence "writer_endpoint_owner") then proceed
          else fence_unverified ctx "writer endpoint transfer postcondition is unverified");
  _ ←! (perform (FinalizeTransition ctx) or_else (λ _, fence_unverified ctx "stabilize writer endpoint lease"));
  _ ←! (completeOperationStep ctx request "transfer_writer_endpoint" "writer endpoint transferred to selected target" or_else
          (λ _, executionFailure OperationIndeterminate "promoted_unverified" "persist writer endpoint progress"));
  completeOperationStep ctx request "retain_source_read_only" "former primary remains read-only" or_else
    (λ _, executionFailure OperationIndeterminate "promoted_unverified" "persist former-primary state progress").

(** The function after the authorization, under its context. *)
Definition switchover_transition (sourceFenced : bool) (ctx : Context) : prog outcome :=
  _ ←! (if sourceFenced then proceed else switchover_fence_source ctx);
  _ ←! (completeOperationStep (WithoutCancel ctx) request "fence_source" "source is read-only and fenced" or_else
          (λ _, executionFailure OperationBlocked "fenced" "persist source fencing progress"));
  _ ←! switchover_catch_up ctx;
  _ ←! switchover_detach ctx;
  _ ←! switchover_promote ctx;
  _ ←! each (switchover_reparent ctx) (switchover_followers resolved);
  _ ←! switchover_semisync ctx;
  _ ←! switchover_endpoint ctx;
  newExecution "MySQL role transition and writer endpoint transfer completed; verification is required".

(** Whether the source is fenced already, by this operation, and the live checks of either case. *)
Definition switchover_entry (ctx : Context) : prog (result execution_failure bool) :=
  sourceFenced ←! (queryFencedState ctx source credentials or_else
                     (λ _, executionFailure OperationFailed "pre_commit" "probe source fencing state"));
  _ ←! (if sourceFenced : bool then
          ownedFence ←! (operationStepCompleted ctx request "fence_source" or_else
                           (λ _, executionFailure OperationBlocked "pre_commit" "read source fencing progress"));
          _ ←! ensure ownedFence (mkFailure OperationBlocked "pre_commit" "source is fenced without durable ownership by this operation");
          liveSwitchoverResumePrecheck request resolved ctx or_else (λ e, executionFailure OperationBlocked "fenced" e)
        else liveSwitchoverPrecheck resolved ctx or_else (λ e, executionFailure OperationFailed "pre_commit" e));
  Ret (Ok sourceFenced).
Definition switchover_verify_again (ctx : Context) : prog outcome :=
  verified ←? switchoverVerify request resolved ctx;
  let '(verification, verifyErr) := verified : Verification * option string in
  if bool_decide (verifyErr = None) && ver_Passed verification
  then newExecution "MySQL switchover was already completed and remains verified"
  else executionFailure OperationIndeterminate "promoted_unverified" "completed operation postconditions are not satisfied".
Definition switchover_run (ctx : Context) : prog outcome :=
  completed ←! (allMutationStepsCompleted ctx request or_else
                  (λ _, executionFailure OperationIndeterminate "promoted_unverified" "read completed operation progress"));
  if completed : bool then switchover_verify_again ctx
  else
    sourceFenced ←! switchover_entry ctx;
    _ ←! (authorizeEndpointTransition (WithTimeout (WithoutCancel ctx) (2 * Minute)) request resolved or_else (λ _,
            if sourceFenced : bool then executionFailure OperationBlocked "fenced" "authorize target transition"
            else executionFailure OperationFailed "pre_commit" "authorize target transition"));
    deferring_cancel (switchover_transition sourceFenced AuthorizedContext).
End execute.

Definition switchoverExecute (request : OperationRequest) : prog outcome :=
  if (opn_Kind (or_Operation request) != OperationSwitchover) || negb (ad_executor a)
  then executionFailure OperationUnsupported "pre_commit" "unsupported"
  else
    executable ←? perform (Executable RequestContext);
    if negb (executable : bool) then executionFailure OperationUnsupported "pre_commit" "unsupported"
    else match validateExecutionPlan PlanSHA256 FormatTime request, or_Resolved request with
    | Err e, _ => executionFailure OperationFailed "pre_commit" e
    | _, None => executionFailure OperationFailed "pre_commit" "resolved MySQL operation context is required"
    | Ok _, Some resolved =>
        _ ←! (perform (ContextErr RequestContext) or_else (λ e, executionFailure OperationFailed "pre_commit" e));
        switchover_run request resolved RequestContext
    end.
End switchover.
