(* ===== verification/Failover.v ===== *)
(** * adapters/mysql/failover.go: failing over to a replica

    The primary has failed: the safety provider isolates it, the selected
    replica is detached and made writable, the other reachable replicas follow
    it, and the writer endpoint moves to it: before the followers, or after
    them when semi-synchronous replication is required.  [failoverExecute] is
    the whole function, cut at its phases.

    A snapshot without instances cannot occur here (the primary is one of
    them); the code would panic on its candidates' capacity. *)
From S2P Require Import Prelude GoStd Model Gtid Interfaces Candidates Program MySQLAdapter MySQLPlans Switchover.
From stdpp Require Import pretty.
#[local] Open Scope Z_scope.

(** [UnsupportedFailoverSafetyProvider]. *)
Definition unsupported_safety_checks : list Check :=
  [fail_check "stable_primary_failure" "stable primary-failure observation is not configured";
   fail_check "controller_quorum" "controller quorum is not configured";
   fail_check "old_primary_fenced" "old-primary fencing is not configured"].
Definition unsupported_safety_verify : Check := fail_check "old_primary_fenced" "old-primary fencing is not configured".

Definition isolation_confirmed (check : Check) : bool :=
  (check_Name check == "old_primary_fenced") && (check_Status check == CheckPass).

(** What the replica answered of its replication now is safe: it applies what it has, it followed the failed primary, and
    its history is part of the primary's, or continues it with transactions of the primary's own. *)
Definition safeLiveFailoverReplication (primary : DatabaseInstance) (identity : identityProbe) (replication : ReplicationStatus) : bool :=
  let primaryUUID := server_uuid (inst_EngineIdentity primary) in
  if (repl_SQLThread replication != ThreadRunning) ||
     ((repl_IOThread replication != ThreadRunning) && (repl_IOThread replication != ThreadConnecting)) ||
     (TrimSpace (repl_LastSQLError replication) != "") then false
  else if (primaryUUID == "") || (server_uuid (repl_SourceIdentity replication) != primaryUUID) ||
          negb (EqualFold (TrimSpace (ip_gtidMode identity)) "ON") then false
  else match ParseGTIDSet (mget (inst_EngineMetadata primary) "gtid_executed"), ParseGTIDSet (repl_ExecutedPosition replication) with
       | Ok primaryGTID, Ok candidateGTID =>
           match CompareGTIDSets primaryGTID candidateGTID with
           | Err _ => false
           | Ok comparison =>
               if ErrantTransactions comparison =? 0 then true
               else match HasOnlyAdditionsFromSource primaryGTID candidateGTID primaryUUID with Ok b => b | Err _ => false end
           end
       | _, _ => false
       end.

Section failover.
Variables (PlanSHA256 : OperationPlan → string) (FormatTime : Time → string) (a : Adapter).

(** ** Candidates *)

Definition failoverCandidateAssessments (resolved : MySQLOperation) : list CandidateAssessment :=
  let snapshot := mo_Snapshot resolved in
  evaluateCandidates (mkCandidateRequest (mo_Cluster resolved) (mo_Primary resolved)
    (List.filter (λ instance, inst_ResourceID instance != inst_ResourceID (mo_Primary resolved)) (topo_Instances snapshot))
    (topo_Links snapshot) (topo_Probes snapshot) (topo_ObservedAt snapshot) (mkCandidatePolicy 30 true true)).
Definition selectedFailoverCandidate (resolved : MySQLOperation) : option CandidateAssessment :=
  List.find (λ assessment, assess_InstanceID assessment == inst_ResourceID (mo_Target resolved)) (failoverCandidateAssessments resolved).
(** The map of the last assessment of each instance. *)
Definition failover_eligible (resolved : MySQLOperation) : gmap ResourceID bool :=
  foldl (λ eligible assessment, <[assess_InstanceID assessment := assess_Eligible assessment]> eligible) ∅
    (failoverCandidateAssessments resolved).
Definition eligibleFailoverFollowers (resolved : MySQLOperation) : list DatabaseInstance :=
  let eligible := failover_eligible resolved in
  merge_sort instance_le (List.filter (λ instance,
    (inst_ResourceID instance != inst_ResourceID (mo_Primary resolved)) && (inst_ResourceID instance != inst_ResourceID (mo_Target resolved)) &&
    default false (eligible !! inst_ResourceID instance)) (topo_Instances (mo_Snapshot resolved))).

(** ** Checks and plan *)

Definition failoverPrecheck (ctx : Context) (request : OperationRequest) : prog (result string (list Check)) :=
  if opn_Kind (or_Operation request) != OperationFailover then fail "unsupported"
  else match or_Resolved request with
  | None => fail "unsupported"
  | Some resolved =>
      let failed := health_State (inst_Health (mo_Primary resolved)) in
      let assessment := selectedFailoverCandidate resolved in
      let holds P := match assessment with Some assessment => P assessment | None => false end in
      let risk := match assessment with Some assessment => assess_DataLossRisk assessment | None => "" end in
      safety ←? perform (SafetyPrecheck ctx resolved);
      executable ←? perform (Executable ctx);
      Ret (Ok ([checked_as "primary_failure_state" ((failed == HealthUnhealthy) || (failed == HealthUnknown))
                  "current primary is in a failed state" "failure switchover requires a failed or unreachable primary";
                checked_as "recommended_candidate" (holds (λ assessment, assess_Eligible assessment && (assess_Rank assessment =? 1)))
                  "selected target is the lowest-risk eligible candidate" "selected target is not the lowest-risk eligible candidate";
                checked_as "data_loss_risk_known" (holds (λ assessment, assess_DataLossRisk assessment != dataLossRiskUnknown))
                  ("candidate data-loss risk is known: " +:+ risk) "candidate data-loss risk is unknown"]
               ++ (if ad_semiSyncRequired a then [semiSyncFailoverCheck (mo_Target resolved)] else [])
               ++ (safety : list Check)
               ++ [checked_as "writer_endpoint_provider" executable "writer endpoint provider is executable"
                     "writer endpoint provider is not executable"]))
  end.

Definition failover_reparent_step (follower : DatabaseInstance) : string := "reparent_failover_follower_" +:+ inst_ResourceID follower.
Definition failover_steps (resolved : MySQLOperation) : list PlanStep :=
  let source := inst_ResourceID (mo_Primary resolved) in
  let target := inst_ResourceID (mo_Target resolved) in
  let step name owner id mutating post i := mkPlanStep i name owner id mutating post in
  let transfer := step "transfer_failover_endpoint" "endpoint" target true "writer endpoint has one new-primary owner" in
  numbered
  ([step "revalidate_failure_evidence" "platform" source false "stable failure, quorum, and fencing evidence remain valid";
    step "fence_old_primary" "safety" source true "old primary cannot serve writes or own the VIP";
    step "authorize_target_transition" "endpoint" target true "target has an active transition lease";
    step "promote_failover_target" "mysql" target true "selected target is detached and writable"]
   ++ (if ad_semiSyncRequired a then [] else [transfer])
   ++ ((λ follower, step (failover_reparent_step follower) "mysql" (inst_ResourceID follower) true
                      "reachable follower follows the new primary") <$> eligibleFailoverFollowers resolved)
   ++ (if ad_semiSyncRequired a then
         [step "activate_failover_semisync_source" "mysql" target true "promoted source has an active semi-sync replica acknowledgement"; transfer]
       else [])
   ++ [step "verify_failover" "platform" target false "one writer, one endpoint owner, and old-primary isolation are verified"]).
Definition failoverPlan (ctx : Context) (request : OperationRequest) : prog (result string OperationPlan) :=
  checks ←! failoverPrecheck ctx request;
  match or_Resolved request with
  | None => fail "unsupported"
  | Some resolved =>
      let plan := zero_OperationPlan <| plan_OperationID := opn_ResourceID (or_Operation request) |>
        <| plan_ClusterID := cluster_ResourceID (mo_Cluster resolved) |> <| plan_SourceID := inst_ResourceID (mo_Primary resolved) |>
        <| plan_TargetID := inst_ResourceID (mo_Target resolved) |> <| plan_Stage := StagePlan |>
        <| plan_ObservationToken := resolvedObservationToken FormatTime resolved |>
        <| plan_ResourceRevisions := planResourceRevisions resolved |> <| plan_Checks := checks |>
        <| plan_Steps := failover_steps resolved |> <| plan_Mutating := true |>
        <| plan_Summary := if planHasBlockingChecks checks then "guarded MySQL failover is blocked"
                           else "guarded MySQL failover is ready" |> in
      Ret (Ok (plan <| plan_Digest := operationPlanDigest PlanSHA256 plan |>))
  end.

(** ** Verification *)

(** The loop over the other instances: their checks, how many are writable, and whether all were observed. *)
Fixpoint failover_verify_followers (ctx : Context) (resolved : MySQLOperation) (eligible : list DatabaseInstance)
    (instances : list DatabaseInstance) : prog (list Check * Z * bool) :=
  match instances with
  | [] => Ret ([], 0, true)
  | follower :: instances =>
      if (inst_ResourceID follower == inst_ResourceID (mo_Primary resolved)) || (inst_ResourceID follower == inst_ResourceID (mo_Target resolved))
      then failover_verify_followers ctx resolved eligible instances
      else
        state ←? verifyFollowerWriterState ctx follower (mo_Credentials resolved);
        let '(checks, writable, observed) := state : list Check * bool * bool in
        replication ←? (if existsb (λ instance, inst_ResourceID instance == inst_ResourceID follower) eligible && observed
                        then check ←? verifyFollowerReplication a ctx follower (mo_Target resolved) (mo_Credentials resolved); Ret [check]
                        else Ret []);
        rest ←? failover_verify_followers ctx resolved eligible instances;
        let '(others, count, complete) := rest : list Check * Z * bool in
        Ret (checks ++ replication ++ others, if writable then count + 1 else count, observed && complete)
  end.
Definition isolated_source (resolved : MySQLOperation) : MySQLOperation :=
  resolved <| mo_resolved ::= λ r, r <| ro_VerifiedIsolatedSourceID := inst_ResourceID (ro_Primary r) |> |>.
Definition failoverVerify (ctx : Context) (request : OperationRequest) : prog Verification :=
  match validateMySQLPlan PlanSHA256 FormatTime request OperationFailover false, or_Resolved request with
  | Err message, _ => Ret (verification_of request false [fail_check "plan_integrity" message])
  | _, None => Ret (verification_of request false [])
  | Ok _, Some resolved =>
      let targetUUID := server_uuid (inst_EngineIdentity (mo_Target resolved)) in
      identity ←? probeIdentity ctx (instanceEndpoint (mo_Target resolved)) (mo_Credentials resolved);
      let writable := match identity with Ok identity => writable_identity identity | Err _ => false end in
      let same := match identity with Ok identity => ip_serverUUID identity == targetUUID | Err _ => false end in
      semiSync ←? (if ad_semiSyncRequired a then
                     check ←? verifySemiSyncPrimary ctx (instanceEndpoint (mo_Target resolved)) (mo_Credentials resolved); Ret [check]
                   else Ret []);
      followers ←? failover_verify_followers ctx resolved (eligibleFailoverFollowers resolved) (topo_Instances (mo_Snapshot resolved));
      let '(followerChecks, writableFollowers, observed) := followers : list Check * Z * bool in
      let writerStateComplete := is_ok identity && observed in
      let writableCount := if writable then writableFollowers + 1 else writableFollowers in
      isolation ←? perform (SafetyVerify ctx resolved);
      let resolved := if isolation_confirmed isolation then isolated_source resolved else resolved in
      endpoint ←? perform (EndpointVerify ctx resolved);
      let checks :=
        [checked_as "new_primary_writable" (same && writable) "selected target identity is verified and writable"
           "selected target writable state is unverified"]
        ++ (semiSync : list Check) ++ followerChecks ++
        [if writerStateComplete && (writableCount =? 1)
         then mkCheck "writable_primary_uniqueness" CheckPass "exactly one non-isolated controlled instance is writable"
         else if negb writerStateComplete
         then fail_check "writable_primary_uniqueness" "writable state could not be verified across all non-isolated controlled instances"
         else fail_check "writable_primary_uniqueness" (pretty writableCount +:+ " non-isolated controlled instances are writable");
         (isolation : Check); sanitizeEndpointCheck endpoint "writer_endpoint_owner"] in
      Ret (verification_of request (negb (planHasBlockingChecks checks) && passedCheckNamed checks "writable_primary_uniqueness" &&
                                    passedCheckNamed checks "writer_endpoint_owner") checks)
  end.

(** ** Execution *)

Section execution.
Variables (request : OperationRequest) (resolved : MySQLOperation).
Let credentials := mo_Credentials resolved.
Let target := instanceEndpoint (mo_Target resolved).

(** The old primary is isolated, by this execution or an earlier one, and the safety provider confirms it. *)
Definition failover_isolate (ctx : Context) : prog (result execution_failure unit) :=
  _ ←! (verifyTargetReplicationCredentials ctx target (mo_ReplicationCredentials resolved) or_else
          (λ e, executionFailure OperationFailed "pre_commit" e));
  fenced ←! (operationStepCompleted ctx request "fence_old_primary" or_else
               (λ _, executionFailure OperationBlocked "pre_commit" "read old-primary fencing progress"));
  _ ←! (if fenced : bool then proceed
        else perform (Fence ctx resolved) or_else (λ _, executionFailure OperationBlocked "pre_commit" "fence old primary"));
  check ←? perform (SafetyVerify ctx (isolated_source resolved));
  _ ←! ensure (isolation_confirmed check) (mkFailure OperationBlocked "pre_commit" "old-primary isolation could not be verified");
  if fenced : bool then proceed
  else completeOperationStep (WithoutCancel ctx) request "fence_old_primary" "old primary is isolated" or_else
         (λ e, executionFailure OperationBlocked "pre_commit" e).

(** What the target answers before the transition is authorized: its identity, its dialect, and its replication. *)
Record failover_target : Type := mkFailoverTarget {
  ft_identity : identityProbe; ft_dialect : mysqlDialect; ft_replication : ReplicationStatus; ft_configured : bool
}.
Definition failover_inspect (ctx : Context) : prog (result execution_failure failover_target) :=
  let unsafe := mkFailure OperationBlocked "pre_commit" "failover target live identity or read-only state is unsafe" in
  identity ←! (probeIdentity ctx target credentials or_else (λ _, fail unsafe));
  _ ←! ensure (ip_serverUUID identity == server_uuid (inst_EngineIdentity (mo_Target resolved))) unsafe;
  _ ←! ensure (fenced_identity identity || writable_identity identity)
         (mkFailure OperationBlocked "fenced" "failover target has a partial read-only state");
  match dialectForVersion (ip_version identity) with
  | None => executionFailure OperationBlocked "pre_commit" "invalid MySQL version"
  | Some dialect =>
      probed ←! (probeReplication ctx target credentials or_else
                   (λ _, executionFailure OperationBlocked "pre_commit" "failover target replication state is unavailable"));
      Ret (Ok (mkFailoverTarget identity dialect probed.1 probed.2))
  end.

(** The target is detached from the failed primary, unless it was promoted before. *)
Definition failover_detach (ctx : Context) (promoted : bool) (found : failover_target) : prog (result execution_failure unit) :=
  if promoted then
    ensure (negb (ft_configured found))
      (mkFailure OperationBlocked "fenced" "durably promoted failover target unexpectedly has a replication source")
  else
    _ ←! ensure (fenced_identity (ft_identity found) && ft_configured found)
           (mkFailure OperationBlocked "pre_commit" "failover target replication state is unavailable");
    _ ←! ensure (safeLiveFailoverReplication (mo_Primary resolved) (ft_identity found) (ft_replication found))
           (mkFailure OperationBlocked "pre_commit" "failover target live replication state is unsafe");
    _ ←! (perform (Exec ctx target credentials (di_StopReplication (ft_dialect found))) or_else
            (λ _, executionFailure OperationBlocked "pre_commit" "stop target replication"));
    perform (Exec ctx target credentials (di_ResetReplication (ft_dialect found))) or_else
      (λ _, executionFailure OperationBlocked "pre_commit" "reset target replication").

Definition failover_promote (ctx : Context) : prog (result execution_failure unit) :=
  targetWritable ←! (queryWritableState ctx target credentials or_else
                       (λ _, executionFailure OperationBlocked "fenced" "recheck failover target writable state"));
  _ ←! (if targetWritable : bool then proceed
        else perform (Exec ctx target credentials setReadOnlyOff) or_else (λ _, fence_promotion resolved ctx "promote failover target"));
  targetWritable ←? queryWritableState ctx target credentials;
  match targetWritable with
  | Ok true =>
      completeOperationStep (WithoutCancel ctx) request "promote_failover_target" "selected failover target is writable" or_else
        (λ _, fence_unverified resolved ctx "persist failover promotion progress")
  | _ => fence_promotion resolved ctx "failover target writable postcondition failed"
  end.

(** [fenceTargetIfEndpointUnpublished], before a failure whose result is not known. *)
Definition fence_unpublished {A} (published : bool) (ctx : Context) (cause : string) : prog (result execution_failure A) :=
  if published then executionFailure OperationIndeterminate "promoted_unverified" cause else fence_unverified resolved ctx cause.
(** [transferEndpoint]: the endpoint is published once the target's lease is stable. *)
Definition failover_transfer (ctx : Context) : prog (result execution_failure unit) :=
  let isolated := isolated_source resolved in
  _ ←! (perform (Transfer ctx isolated) or_else (λ _, fence_unverified resolved ctx "transfer failover endpoint"));
  check ←? perform (EndpointVerify ctx isolated);
  _ ←! (if endpointOwnerVerified check then proceed
        else fence_unverified resolved ctx "failover endpoint ownership is unverified");
  _ ←! (perform (FinalizeTransition ctx) or_else (λ _, fence_unverified resolved ctx "stabilize failover endpoint lease"));
  completeOperationStep (WithoutCancel ctx) request "transfer_failover_endpoint" "writer endpoint follows the new primary" or_else
    (λ e, executionFailure OperationIndeterminate "promoted_unverified" e).

(** Failing to record that a follower was reparented fails the operation as it is. *)
Definition failover_reparent (published : bool) (ctx : Context) (follower : DatabaseInstance) : prog (result execution_failure unit) :=
  completed ←! (operationStepCompleted ctx request (failover_reparent_step follower) or_else
                  (λ _, fence_unpublished published ctx "read failover follower progress"));
  if completed : bool then proceed
  else
    _ ←! (reparentFollower a ctx follower (mo_Target resolved) credentials (mo_ReplicationCredentials resolved) or_else
            (λ _, fence_unpublished published ctx "reparent reachable follower"));
    completeOperationStep (WithoutCancel ctx) request (failover_reparent_step follower) "reachable follower follows the new primary" or_else
      (λ e, executionFailure OperationIndeterminate "promoted_unverified" e).
Definition failover_semisync (ctx : Context) (version : string) : prog (result execution_failure unit) :=
  stepCompleted ←! (operationStepCompleted ctx request "activate_failover_semisync_source" or_else
                      (λ _, fence_unverified resolved ctx "read failover semi-sync activation progress"));
  _ ←! (activateSemiSyncSource ctx target credentials version or_else
          (λ _, fence_unverified resolved ctx "activate promoted failover semi-sync source"));
  if stepCompleted : bool then proceed
  else completeOperationStep (WithoutCancel ctx) request "activate_failover_semisync_source"
         "promoted source has an active semi-sync replica acknowledgement" or_else
         (λ _, fence_unverified resolved ctx "persist failover semi-sync activation progress").

(** The followers and the endpoint, in the order that the durability policy asks for. *)
Definition failover_publish (ctx : Context) (version : string) : prog (result execution_failure unit) :=
  let followers := eligibleFailoverFollowers (isolated_source resolved) in
  if ad_semiSyncRequired a then
    _ ←! each (failover_reparent false ctx) followers;
    _ ←! failover_semisync ctx version;
    failover_transfer ctx
  else
    _ ←! failover_transfer ctx;
    each (failover_reparent true ctx) followers.

(** The function after the authorization, under its context. *)
Definition failover_transition (promoted : bool) (found : failover_target) (ctx : Context) : prog outcome :=
  _ ←! failover_detach ctx promoted found;
  _ ←! failover_promote ctx;
  _ ←! failover_publish ctx (ip_version (ft_identity found));
  newExecution "MySQL failover completed; verification is required".

Definition failover_verify_again (ctx : Context) : prog outcome :=
  verification ←? failoverVerify ctx request;
  if ver_Passed verification then newExecution "MySQL failover was already completed and remains verified"
  else executionFailure OperationIndeterminate "promoted_unverified" "completed failover postconditions are not satisfied".
Definition failover_run (ctx : Context) : prog outcome :=
  completed ←! (allMutationStepsCompleted ctx request or_else
                  (λ _, executionFailure OperationIndeterminate "promoted_unverified" "read failover progress"));
  if completed : bool then failover_verify_again ctx
  else
    _ ←! failover_isolate ctx;
    promoted ←! (operationStepCompleted ctx request "promote_failover_target" or_else
                   (λ _, executionFailure OperationBlocked "fenced" "read failover target promotion progress"));
    found ←! failover_inspect ctx;
    _ ←! (authorizeEndpointTransition ctx request (isolated_source resolved) or_else
            (λ _, executionFailure OperationBlocked "fenced" "authorize failover target transition"));
    deferring_cancel (failover_transition promoted found AuthorizedContext).
End execution.

Definition failoverExecute (request : OperationRequest) : prog outcome :=
  if negb (ad_executor a) then executionFailure OperationUnsupported "pre_commit" "unsupported"
  else
    executable ←? perform (Executable RequestContext);
    if negb (executable : bool) then executionFailure OperationUnsupported "pre_commit" "unsupported"
    else match validateMySQLPlan PlanSHA256 FormatTime request OperationFailover true, or_Resolved request with
    | Err e, _ => executionFailure OperationFailed "pre_commit" e
    | _, None => executionFailure OperationFailed "pre_commit" "operation plan is incomplete"
    | Ok _, Some resolved => failover_run request resolved RequestContext
    end.
End failover.
