(* ===== verification/MySQLOperations.v ===== *)
(** * adapters/mysql: discovery, rejoin, repair, and the dispatch of operations

    What one probe of an instance is published as ([probe.go]'s [discover] and
    [mysql.go]'s [Topology]); a former primary that is attached to the current
    one ([rejoin.go]); the low-risk repairs ([repair.go]); and the methods of
    [Adapter] that choose by the kind of the operation ([mysql.go]). *)
From S2P Require Import Prelude GoStd Model Gtid Interfaces Candidates Program MySQLAdapter MySQLPlans Promotion History Switchover Failover.
From stdpp Require Import pretty.
#[local] Open Scope Z_scope.

(** ** Discovery *)

Definition thread_text (state : ThreadState) : string :=
  match state with
  | ThreadUnknown => "unknown" | ThreadRunning => "running" | ThreadConnecting => "connecting" | ThreadStopped => "stopped"
  | ThreadStateOther raw => raw
  end.

Section discover.
Variables (endpoint : SQLEndpoint) (clusterID : ResourceID) (semiSyncRequired : bool).
Variables (identity : identityProbe) (semiSync : result sql_error semiSyncProbe) (replication : ReplicationStatus) (configured : bool).
Let probe : semiSyncProbe := match semiSync with Ok probe => probe | Err _ => zero_semiSyncProbe end.
Definition replica_read_only : bool := ip_readOnly identity || ip_superReadOnly identity.
Definition discovered_role : InstanceRole :=
  if configured then RoleReplica else if writable_identity identity then RolePrimary else RoleUnknown.
Definition replication_health : HealthState * string :=
  if configured then
    if both_running replication then
      if replica_read_only then (HealthHealthy, "MySQL replica is reachable, read-only, and replication threads are running")
      else (HealthDegraded, "MySQL replica is writable while replication is configured")
    else (HealthDegraded, "MySQL replica is reachable but replication threads are not running")
  else if writable_identity identity then (HealthHealthy, "MySQL primary is reachable and writable")
  else (HealthDegraded, "MySQL instance is read-only with no replication source").
(** The health after the durability policy, whether the instance may be promoted, and whether only an acknowledgement is missing. *)
Definition discovered_health : (HealthState * string) * bool * bool :=
  let promotable := configured && replica_read_only && (fst replication_health == HealthHealthy) in
  if semiSyncRequired then
    match semiSync with
    | Err _ => (HealthDegraded, "MySQL semi-sync durability evidence is unavailable", false, false)
    | Ok probe =>
        if (discovered_role == RolePrimary) && negb (sourceReady probe) then
          (HealthDegraded, "MySQL primary has no active semi-sync replica acknowledgement", promotable, sourceConfigured probe)
        else if (discovered_role == RoleReplica) && negb (replicaReady probe) then
          (HealthDegraded, "MySQL replica is not actively acknowledging semi-sync transactions", false, false)
        else (replication_health, promotable, false)
    end
  else (replication_health, promotable, false).
Definition discovered_metadata : gmap string string :=
  let ackMissing := snd discovered_health in
  let metadata : gmap string string := list_to_map [("server_id", ip_serverID identity); ("version", ip_version identity); ("gtid_mode", ip_gtidMode identity);
    ("gtid_executed", ip_gtidExecuted identity); ("gtid_purged", ip_gtidPurged identity); ("log_bin", ip_logBin identity);
    ("binlog_format", ip_binlogFormat identity); ("read_only", FormatBool (ip_readOnly identity));
    ("super_read_only", FormatBool (ip_superReadOnly identity))] in
  let metadata := <["semi_sync_required" := FormatBool semiSyncRequired]> (semiSync_metadata probe ∪ metadata) in
  let metadata := if ackMissing then <["semi_sync_ack_missing" := "true"]> metadata else metadata in
  if is_ok semiSync then metadata else <["semi_sync_probe_error" := "true"]> metadata.
(** The instance that the probe is published as; instants and latencies are left zero. *)
Definition discovered_instance : DatabaseInstance :=
  let '(health, promotable, _) := discovered_health in
  zero_DatabaseInstance <| inst_ClusterID := clusterID |> <| inst_Engine := EngineMySQL |>
    <| inst_EngineIdentity := {["server_uuid" := ip_serverUUID identity]} |>
    <| inst_DisplayName := if ip_hostname identity == "" then se_Hostname endpoint else ip_hostname identity |>
    <| inst_Hostname := ip_hostname identity |> <| inst_IPAddress := se_IPAddress endpoint |> <| inst_Port := ip_port identity |>
    <| inst_Role := discovered_role |>
    <| inst_Health := zero_Health <| health_State := fst health |> <| health_Summary := snd health |>
         <| health_Replication := thread_text (repl_SQLThread replication) |> |>
    <| inst_Replication := replication |> <| inst_PromotionEligible := promotable |> <| inst_EngineMetadata := discovered_metadata |>.
End discover.
Definition discover (ctx : Context) (clusterID : ResourceID) (endpoint : SQLEndpoint) (credentials : Credentials) (semiSyncRequired : bool)
  : prog (result sql_error DatabaseInstance) :=
  identity ←! probeIdentity ctx endpoint credentials;
  semiSync ←? probeSemiSync ctx endpoint credentials;
  probed ←! probeReplication ctx endpoint credentials;
  Ret (Ok (discovered_instance endpoint clusterID semiSyncRequired identity semiSync probed.1 probed.2)).

(** [model.NativeReplicationLink]. *)
Record TopologyLink : Type := mkTopologyLink {
  tl_SourceIdentity : EngineIdentity; tl_TargetIdentity : EngineIdentity; tl_Healthy : bool; tl_LagSeconds : option Z
}.
Definition Topology (instance : DatabaseInstance) : list TopologyLink :=
  let replication := inst_Replication instance in
  if bool_decide (repl_SourceIdentity replication = ∅) then []
  else [mkTopologyLink (repl_SourceIdentity replication) (inst_EngineIdentity instance)
          ((health_State (inst_Health instance) == HealthHealthy) && both_running replication) (repl_LagSeconds replication)].

(** ** Rejoining a former primary *)

Definition rejoinEndpointSafe (checks : list Check) : bool :=
  existsb (λ check, bool_decide (check_Name check ∈ ["writer_endpoint_provider"; "former_primary_endpoint_absent"; "former_primary_vip_absent"]) &&
                    (check_Status check == CheckPass)) checks.
Definition rejoinEndpointChecks (ctx : Context) (resolved : MySQLOperation) : prog (list Check) :=
  former ←? perform (FormerPrimaryPrecheck ctx resolved);
  match (former : option (list Check)) with
  | Some [] => Ret [fail_check "former_primary_endpoint_absent" "former-primary writer endpoint safety provider returned no evidence"]
  | Some checks => Ret checks
  | None =>
      providerChecks ←? perform (EndpointPrecheck ctx resolved);
      let reason := match List.find (λ check, (check_Status check == CheckFail) && (TrimSpace (check_Message check) != "")) providerChecks with
                    | Some check => check_Message check
                    | None => "writer endpoint ownership is incomplete or includes the former primary"
                    end in
      Ret [checked_as "former_primary_endpoint_absent" (rejoinEndpointSafe providerChecks)
             "writer endpoint is owned only by the current primary" reason]
  end.
Definition rejoinEndpointFailure (checks : list Check) : option string :=
  match List.find (λ check, check_Status check == CheckFail) checks with
  | Some check =>
      let message := TrimSpace (check_Message check) in
      Some ("writer endpoint ownership is unsafe for former-primary rejoin: " +:+ if message == "" then check_Name check else message)
  | None => None
  end.
Definition assessFormerPrimaryGTID (currentExecuted currentPurged formerExecuted : string) : result gtid_error GTIDRecoveryAssessment :=
  currentSet ← ParseGTIDSet currentExecuted;
  purgedSet ← ParseGTIDSet currentPurged;
  formerSet ← ParseGTIDSet formerExecuted;
  AssessGTIDRecovery currentSet purgedSet formerSet.

Section operations.
Variables (PlanSHA256 : OperationPlan → string) (FormatTime : Time → string) (a : Adapter).

Definition rejoin_checks (resolved : MySQLOperation) : list Check :=
  let primary := mo_Primary resolved in let target := mo_Target resolved in
  let metadata := inst_EngineMetadata in
  let assessment := assessFormerPrimaryGTID (mget (metadata primary) "gtid_executed") (mget (metadata primary) "gtid_purged")
                      (mget (metadata target) "gtid_executed") in
  let assessed P := match assessment with Ok assessment => P assessment | Err _ => false end in
  let reachable := health_State (inst_Health target) in
  [checked_as "inventory_membership"
     ((inst_ClusterID primary == cluster_ResourceID (mo_Cluster resolved)) && (inst_ClusterID target == cluster_ResourceID (mo_Cluster resolved)) &&
      (inst_ResourceID primary != inst_ResourceID target))
     "current and former primary are inventory resources" "current and former primary must be distinct resources in the selected cluster";
   checked_as "current_primary_writable"
     ((inst_Role primary == RolePrimary) && (health_State (inst_Health primary) == HealthHealthy) &&
      (candidateReadOnly (metadata primary) == Some false))
     "current primary is healthy and writable" "current primary must be healthy and writable";
   checked_as "former_primary_read_only"
     (((reachable == HealthHealthy) || (reachable == HealthDegraded)) && (boolMetadata (metadata target) "read_only" == Some true) &&
      (boolMetadata (metadata target) "super_read_only" == Some true))
     "former primary is reachable and fully read-only" "former primary must be reachable and fully read-only";
   checked_as "mysql_identity"
     ((TrimSpace (mget (inst_EngineIdentity primary) "server_uuid") != "") && (TrimSpace (mget (inst_EngineIdentity target) "server_uuid") != ""))
     "native MySQL identities are present" "native MySQL identities are required";
   checked_as "former_primary_gtid_subset" (assessed (λ assessment, ra_ErrantTransactions assessment =? 0))
     "former primary GTID history is a subset of the current primary" "former primary has invalid or errant GTID history";
   checked_as "required_binlog_available" (assessed (λ assessment, ra_PurgedMissingTransactions assessment =? 0))
     "all transactions needed by the former primary remain available"
     "transactions required by the former primary have been purged from current primary binlogs";
   checked_as "rebuild_required" (assessed ra_FastRejoinSafe) "fast rejoin is safe; rebuild is not required"
     "fast rejoin is blocked; rebuild the former primary from a current source";
   checked_as "version_compatibility" (same_family (mget (metadata primary) "version") (mget (metadata target) "version"))
     "current and former primary release families are compatible" "current and former primary release families are incompatible"].
Definition rejoinPrecheck (ctx : Context) (request : OperationRequest) : prog (result string (list Check)) :=
  if opn_Kind (or_Operation request) != OperationFormerPrimaryRejoin then fail "unsupported"
  else match or_Resolved request with
  | None => fail "unsupported"
  | Some resolved => checks ←? rejoinEndpointChecks ctx resolved; Ret (Ok (rejoin_checks resolved ++ checks))
  end.

(** A plan for the resolved operation, with its digest. *)
Definition operation_plan (request : OperationRequest) (resolved : MySQLOperation) (checks : list Check) (steps : list PlanStep)
    (mutating : bool) (ready blocked : string) : OperationPlan :=
  let plan := zero_OperationPlan <| plan_OperationID := opn_ResourceID (or_Operation request) |>
    <| plan_ClusterID := cluster_ResourceID (mo_Cluster resolved) |> <| plan_SourceID := inst_ResourceID (mo_Primary resolved) |>
    <| plan_TargetID := inst_ResourceID (mo_Target resolved) |> <| plan_Stage := StagePlan |>
    <| plan_ObservationToken := resolvedObservationToken FormatTime resolved |>
    <| plan_ResourceRevisions := planResourceRevisions resolved |> <| plan_Checks := checks |>
    <| plan_Steps := steps |> <| plan_Mutating := mutating |>
    <| plan_Summary := if planHasBlockingChecks checks then blocked else ready |> in
  plan <| plan_Digest := operationPlanDigest PlanSHA256 plan |>.
Definition rejoinPlan (ctx : Context) (request : OperationRequest) : prog (result string OperationPlan) :=
  checks ←! rejoinPrecheck ctx request;
  match or_Resolved request with
  | None => fail "unsupported"
  | Some resolved =>
      let target := inst_ResourceID (mo_Target resolved) in
      Ret (Ok (operation_plan request resolved checks
        [mkPlanStep 1 "revalidate_former_primary" "mysql" target false "identity, GTID, VIP, and read-only state remain safe";
         mkPlanStep 2 "attach_former_primary" "mysql" target true "former primary follows the current primary";
         mkPlanStep 3 "verify_former_primary" "platform" target false "former primary is a healthy read-only replica without VIP ownership"]
        true "former primary is ready for fast GTID rejoin" "former-primary fast rejoin is blocked; review rebuild guidance"))
  end.
(** The live identities of both, their histories, and the endpoint. *)
Definition rejoinLivePrecheck (ctx : Context) (resolved : MySQLOperation) : prog (result string unit) :=
  let recorded instance := ToLower (mget (inst_EngineIdentity instance) "server_uuid") in
  primary ←! (probeIdentity ctx (instanceEndpoint (mo_Primary resolved)) (mo_Credentials resolved) or_else (λ _, fail "probe current primary"));
  former ←! (probeIdentity ctx (instanceEndpoint (mo_Target resolved)) (mo_Credentials resolved) or_else (λ _, fail "probe former primary"));
  _ ←! ensure ((ip_serverUUID primary == recorded (mo_Primary resolved)) && (ip_serverUUID former == recorded (mo_Target resolved)))
         "live MySQL identity changed";
  _ ←! ensure (writable_identity primary && fenced_identity former) "current or former primary read-only state is unsafe";
  _ ←! ensure (match assessFormerPrimaryGTID (ip_gtidExecuted primary) (ip_gtidPurged primary) (ip_gtidExecuted former) with
               | Ok assessment => ra_FastRejoinSafe assessment | Err _ => false end) "former primary GTID history requires rebuild";
  checks ←? rejoinEndpointChecks ctx resolved;
  match rejoinEndpointFailure checks with Some e => fail e | None => proceed end.
Definition rejoinVerify (ctx : Context) (request : OperationRequest) : prog Verification :=
  match validateMySQLPlan PlanSHA256 FormatTime request OperationFormerPrimaryRejoin false, or_Resolved request with
  | Err message, _ => Ret (verification_of request false [fail_check "plan_integrity" message])
  | _, None => Ret (verification_of request false [])
  | Ok _, Some resolved =>
      verified ←? verifyFollower a ctx (mo_Target resolved) (mo_Primary resolved) (mo_Credentials resolved);
      endpointChecks ←? rejoinEndpointChecks ctx resolved;
      let '(checks, writable) := verified : list Check * bool in
      let checks := checks ++ (if writable then [fail_check "former_primary_writable" "former primary is writable"] else []) ++
                    (endpointChecks : list Check) in
      Ret (verification_of request (negb (planHasBlockingChecks checks)) checks)
  end.
Definition rejoin_run (ctx : Context) (request : OperationRequest) (resolved : MySQLOperation) : prog outcome :=
  completed ←! (allMutationStepsCompleted ctx request or_else
                  (λ _, executionFailure OperationIndeterminate "fenced" "read former-primary progress"));
  if completed : bool then
    verification ←? rejoinVerify ctx request;
    if ver_Passed verification then newExecution "former primary was already attached and remains verified"
    else executionFailure OperationIndeterminate "fenced" "former-primary rejoin postconditions are not satisfied"
  else
    _ ←! (rejoinLivePrecheck ctx resolved or_else (λ e, executionFailure OperationFailed "pre_commit" e));
    _ ←! (reparentFollower a ctx (mo_Target resolved) (mo_Primary resolved) (mo_Credentials resolved) (mo_ReplicationCredentials resolved)
            or_else (λ _, executionFailure OperationBlocked "fenced" "attach former primary"));
    _ ←! (completeOperationStep (WithoutCancel ctx) request "attach_former_primary" "former primary follows the current primary" or_else
            (λ e, executionFailure OperationIndeterminate "fenced" e));
    newExecution "former primary was attached; verification is required".
Definition rejoinExecute (request : OperationRequest) : prog outcome :=
  if negb (ad_executor a) then executionFailure OperationUnsupported "pre_commit" "unsupported"
  else
    executable ←? perform (Executable RequestContext);
    if negb (executable : bool) then executionFailure OperationUnsupported "pre_commit" "unsupported"
    else match validateMySQLPlan PlanSHA256 FormatTime request OperationFormerPrimaryRejoin true, or_Resolved request with
    | Err e, _ => executionFailure OperationFailed "pre_commit" e
    | _, None => executionFailure OperationFailed "pre_commit" "operation plan is incomplete"
    | Ok _, Some resolved => rejoin_run RequestContext request resolved
    end.

(** ** Low-risk repairs *)

(** [repairAction]; the actions of [repairAllowlist], any other one not among them. *)
Inductive repair_action : Type :=
| repairRefresh | repairCollectReplicationStatus | repairStartIOThread | repairStartSQLThread | repairBeginMaintenance | repairEndMaintenance.
#[export] Instance repair_action_eq_dec : EqDecision repair_action.
Proof. solve_decision. Defined.
Definition repair_actions : list (string * repair_action) :=
  [("refresh", repairRefresh); ("collect_replication_status", repairCollectReplicationStatus); ("start_io_thread", repairStartIOThread);
   ("start_sql_thread", repairStartSQLThread); ("begin_maintenance", repairBeginMaintenance); ("end_maintenance", repairEndMaintenance)].
Definition repair_name (request : OperationRequest) : string := ToLower (TrimSpace (mget (or_Parameters request) "action")).
Definition repairAction (request : OperationRequest) : option repair_action :=
  snd <$> List.find (λ entry, fst entry == repair_name request) repair_actions.
Definition starts_thread (action : option repair_action) : bool := bool_decide (action ∈ [Some repairStartIOThread; Some repairStartSQLThread]).
Definition sets_maintenance (action : option repair_action) : bool :=
  bool_decide (action ∈ [Some repairBeginMaintenance; Some repairEndMaintenance]).
Definition collects (action : option repair_action) : bool :=
  bool_decide (action ∈ [Some repairRefresh; Some repairCollectReplicationStatus]).
Definition repairPrecheck (request : OperationRequest) : result string (list Check) :=
  if opn_Kind (or_Operation request) != OperationReplicationRepair then Err "unsupported"
  else match or_Resolved request with
  | None => Err "unsupported"
  | Some resolved =>
      let action := repairAction request in
      let target := mo_Target resolved in
      Ok ([checked_as "repair_action_allowlist" (bool_decide (is_Some action)) "repair action is in the low-risk allowlist"
             "repair action is not in the low-risk allowlist";
           checked_as "repair_target_identity"
             ((inst_ClusterID target == cluster_ResourceID (mo_Cluster resolved)) &&
              (TrimSpace (mget (inst_EngineIdentity target) "server_uuid") != ""))
             "repair target is an immutable inventory resource" "repair target must be an inventory resource with native identity"]
          ++ (if starts_thread action then
                [checked_as "repair_replication_configured"
                   (TrimSpace (mget (repl_SourceIdentity (inst_Replication target)) "server_uuid") != "")
                   "replication is configured on the selected target" "replication must be configured before starting a thread"]
              else []))
  end.
Definition repairPlan (request : OperationRequest) : result string OperationPlan :=
  checks ← repairPrecheck request;
  match or_Resolved request with
  | None => Err "unsupported"
  | Some resolved =>
      let mutating := starts_thread (repairAction request) || sets_maintenance (repairAction request) in
      Ok (operation_plan request resolved checks
        [mkPlanStep 1 ("repair_" +:+ repair_name request) "mysql" (inst_ResourceID (mo_Target resolved)) mutating
           "requested low-risk repair postcondition is verified"]
        mutating "low-risk replication repair is ready" "replication repair is blocked")
  end.
(** The thread that the action starts, when it is not running. *)
Definition repair_statement (action : option repair_action) (dialect : mysqlDialect) (status : ReplicationStatus) : option string :=
  match action with
  | Some repairStartIOThread =>
      if repl_IOThread status == ThreadRunning then None else Some (di_StartReplication dialect +:+ " IO_THREAD")
  | Some repairStartSQLThread =>
      if repl_SQLThread status == ThreadRunning then None else Some (di_StartReplication dialect +:+ " SQL_THREAD")
  | _ => None
  end.
Definition repair_run (ctx : Context) (request : OperationRequest) (resolved : MySQLOperation) : prog outcome :=
  let action := repairAction request in
  let endpoint := instanceEndpoint (mo_Target resolved) in
  let credentials := mo_Credentials resolved in
  _ ←! (probeIdentity ctx endpoint credentials or_else (λ _, executionFailure OperationFailed "pre_commit" "probe repair target"));
  probed ←! (probeReplication ctx endpoint credentials or_else (λ _, executionFailure OperationFailed "pre_commit" "probe replication"));
  if collects action then newExecution "replication status was collected; verification is required"
  else if sets_maintenance action then
    _ ←! (perform (SetMaintenance ctx (cluster_ResourceID (mo_Cluster resolved)) (inst_ResourceID (mo_Target resolved))
                     (bool_decide (action = Some repairBeginMaintenance))) or_else
            (λ _, executionFailure OperationFailed "pre_commit" "update maintenance state"));
    newExecution "maintenance state was updated; verification is required"
  else if negb (ad_executor a) || negb (probed.2 : bool) then executionFailure OperationUnsupported "pre_commit" "unsupported"
  else match dialectForVersion (mget (inst_EngineMetadata (mo_Target resolved)) "version") with
  | None => executionFailure OperationFailed "pre_commit" "invalid MySQL version"
  | Some dialect =>
      _ ←! match repair_statement action dialect probed.1 with
           | None => proceed
           | Some statement => perform (Exec ctx endpoint credentials statement) or_else
               (λ _, executionFailure OperationFailed "pre_commit" "execute low-risk replication repair")
           end;
      newExecution "replication thread repair completed; verification is required"
  end.
Definition repairExecute (request : OperationRequest) : prog outcome :=
  match validateMySQLPlan PlanSHA256 FormatTime request OperationReplicationRepair true, or_Resolved request with
  | Err e, _ => executionFailure OperationFailed "pre_commit" e
  | _, None => executionFailure OperationFailed "pre_commit" "operation plan is incomplete"
  | Ok _, Some resolved => repair_run RequestContext request resolved
  end.
Definition repairVerify (ctx : Context) (request : OperationRequest) : prog Verification :=
  match validateMySQLPlan PlanSHA256 FormatTime request OperationReplicationRepair false, or_Resolved request with
  | Err message, _ => Ret (verification_of request false [fail_check "plan_integrity" message])
  | _, None => Ret (verification_of request false [])
  | Ok _, Some resolved =>
      let action := repairAction request in
      let verdict name passed message := verification_of request passed [mkCheck name (if passed then CheckPass else CheckFail) message] in
      status ←? probeReplication ctx (instanceEndpoint (mo_Target resolved)) (mo_Credentials resolved);
      if collects action then
        Ret (verdict "replication_status_collected" (is_ok status) "replication status collection was verified")
      else if sets_maintenance action then
        state ←? perform (Maintenance ctx (cluster_ResourceID (mo_Cluster resolved)) (inst_ResourceID (mo_Target resolved)));
        let passed := match state : result string bool with
                      | Ok state => eqb state (bool_decide (action = Some repairBeginMaintenance)) | Err _ => false end in
        Ret (verdict "maintenance_state" passed "requested maintenance state was verified")
      else
        let passed := match status with
                      | Ok (status, configured) =>
                          configured &&
                          match action with
                          | Some repairStartIOThread => repl_IOThread status == ThreadRunning
                          | Some repairStartSQLThread => repl_SQLThread status == ThreadRunning
                          | _ => true
                          end
                      | Err _ => false
                      end in
        Ret (verdict "repair_postcondition" passed "requested replication thread state was verified")
  end.

(** ** The methods of the adapter *)

Definition Precheck (ctx : Context) (request : OperationRequest) : prog (result string (list Check)) :=
  match opn_Kind (or_Operation request) with
  | OperationSwitchover => switchoverPrecheck a ctx request
  | OperationFormerPrimaryRejoin => rejoinPrecheck ctx request
  | OperationReplicationRepair => Ret (repairPrecheck request)
  | OperationFailover => failoverPrecheck a ctx request
  | _ => fail "unsupported"
  end.
Definition BuildPlan (ctx : Context) (request : OperationRequest) : prog (result string OperationPlan) :=
  match opn_Kind (or_Operation request) with
  | OperationSwitchover => switchoverPlan PlanSHA256 FormatTime a ctx request
  | OperationFormerPrimaryRejoin => rejoinPlan ctx request
  | OperationReplicationRepair => Ret (repairPlan request)
  | OperationFailover => failoverPlan PlanSHA256 FormatTime a ctx request
  | _ => fail "unsupported"
  end.
(** The zero execution and [ErrUnsupported], for another kind. *)
Definition Execute (request : OperationRequest) : prog (option outcome) :=
  match opn_Kind (or_Operation request) with
  | OperationSwitchover => r ←? switchoverExecute PlanSHA256 FormatTime a request; Ret (Some r)
  | OperationFormerPrimaryRejoin => r ←? rejoinExecute request; Ret (Some r)
  | OperationReplicationRepair => r ←? repairExecute request; Ret (Some r)
  | OperationFailover => r ←? failoverExecute PlanSHA256 FormatTime a request; Ret (Some r)
  | _ => Ret None
  end.
Definition Verify (ctx : Context) (request : OperationRequest) : prog (option (Verification * option string)) :=
  match opn_Kind (or_Operation request) with
  | OperationSwitchover =>
      match or_Resolved request with
      | Some resolved => r ←? switchoverVerify PlanSHA256 a request resolved ctx; Ret (Some r)
      | None => Ret (Some (verification_of request false [], Some "unsupported"))
      end
  | OperationFormerPrimaryRejoin => r ←? rejoinVerify ctx request; Ret (Some (r, None))
  | OperationReplicationRepair => r ←? repairVerify ctx request; Ret (Some (r, None))
  | OperationFailover => r ←? failoverVerify PlanSHA256 FormatTime a ctx request; Ret (Some (r, None))
  | _ => Ret None
  end.
End operations.
