(* ===== verification/SwitchoverSafety.v ===== *)
(** * The planned switchover is safe

    [Switchover]'s programs against the monitor of [Promotion]: every phase
    keeps what the next one needs.  Whatever the servers and providers answer,
    the target is made writable only when the source is fenced and has nothing
    the target lacks, and a failure says truly what it left behind. *)
From S2P Require Import Prelude GoStd Model Gtid Interfaces Candidates Program MySQLAdapter MySQLPlans SimulatedMySQL Promotion Switchover.

(** Only the target is made writable, and only when the lease of the transition is held, the source
    is fenced by this operation and the target has executed the source's last position. *)
Definition promotion_allowed (T : SQLEndpoint) (m : Evidence) (c : mysql_action) : Prop :=
  match c with
  | Exec _ endpoint _ statement => statement = setReadOnlyOff →
      endpoint = T ∧ ev_authorized m = true ∧ ev_fenced m = true ∧ ev_ready m = true
  | _ => True
  end.
Lemma promotion_tame T m c : tame c → promotion_allowed T m c.
Proof. by destruct c. Qed.

(** What a failure says: its class is true, and before the commit nothing was changed. *)
Definition failure_sound (f : execution_failure) (m : Evidence) : Prop :=
  class_sound f m ∧ (xf_class f = "pre_commit" → ev_mutated m = false).
Definition promoted (m : Evidence) : Prop := ev_authorized m = true ∧ ev_fenced m = true ∧ ev_ready m = true.
Definition untouched (m : Evidence) : Prop := ev_mutated m = false ∧ ev_enabled m = false.

Lemma promoted_calm m m' : calm m m' → promoted m → promoted m'.
Proof. intros [] (? & ? & ?). unfold promoted. naive_solver. Qed.
Lemma disabled_calm m m' : calm m m' → ev_enabled m = false → ev_enabled m' = false.
Proof. intros [] He. destruct (ev_enabled m'); naive_solver. Qed.
Lemma untouched_quiet m m' : quiet m m' → untouched m → untouched m'.
Proof. intros [Hc Hm] [? ?]. split; [congruence|by eapply disabled_calm]. Qed.
(** Failures while the target is not enabled, and while nothing has changed. *)
Lemma failure_disabled f m : ev_enabled m = false → xf_class f ≠ "pre_commit" → failure_sound f m.
Proof. intros He Hc. split; [split; [done|by rewrite He]|done]. Qed.
Lemma failure_untouched f m : untouched m → failure_sound f m.
Proof. intros [Hm He]. split; [split; [done|by rewrite He]|done]. Qed.

(** The live checks and the verification execute nothing. *)
Lemma observes_live_follower resolved ctx identity follower : observes (live_follower resolved ctx identity follower).
Proof. unfold live_follower, probe_live, replication_live. side_calls. Qed.
Lemma observes_live_identities resolved ctx : observes (live_identities resolved ctx).
Proof. unfold live_identities, probe_live. side_calls. Qed.
Lemma observes_live_settings x y : observes (live_settings x y).
Proof. unfold live_settings. side_calls. Qed.
#[export] Hint Resolve observes_live_follower observes_live_identities observes_live_settings : calls.
Lemma observes_live_precheck resolved ctx : observes (liveSwitchoverPrecheck resolved ctx).
Proof. unfold liveSwitchoverPrecheck, replication_live. side_calls. Qed.
Lemma observes_resume_precheck request resolved ctx : observes (liveSwitchoverResumePrecheck request resolved ctx).
Proof. unfold liveSwitchoverResumePrecheck, resume_source, resume_target, replication_live. side_calls. Qed.
Lemma observes_verify_followers a resolved ctx followers : observes (verify_followers a resolved ctx followers).
Proof. induction followers as [|follower followers IH]; cbn [verify_followers]; side_calls. Qed.
#[export] Hint Resolve observes_live_precheck observes_resume_precheck observes_verify_followers : calls.
Lemma observes_verify_once PlanSHA256 a request resolved ctx : observes (switchoverVerifyOnce PlanSHA256 a request resolved ctx).
Proof. unfold switchoverVerifyOnce, switchover_verify_source, switchover_verify_target. side_calls. Qed.
#[export] Hint Resolve observes_verify_once : calls.
Lemma observes_verify_attempts PlanSHA256 a request resolved retries ctx : observes (verify_attempts PlanSHA256 a request resolved retries ctx).
Proof. induction retries as [|retries IH]; cbn [verify_attempts]; side_calls. Qed.
#[export] Hint Resolve observes_verify_attempts : calls.

Lemma fence_sound f m : class_sound f m → xf_class f ≠ "pre_commit" → failure_sound f m.
Proof. intros Hc Hn. by split. Qed.

(** ** Giving a promotion up *)

Section surrender.
Variables (resolved : MySQLOperation) (S : SQLEndpoint) (allowed : Evidence → mysql_action → Prop).
Let T := instanceEndpoint (mo_Target resolved).
Hypothesis tame_allowed : ∀ m c, tame c → allowed m c.
Notation wp := (wp (observe S T) allowed).
Lemma wp_fence_unverified {A} ctx cause (Q : A → Evidence → Prop) (R : execution_failure → Evidence → Prop) m :
  (∀ f m', class_sound f m' → xf_class f ≠ "pre_commit" → R f m') → wp (fence_unverified resolved ctx cause) (post Q R) m.
Proof.
  intros HR. apply wp_bind. eapply wp_mono; [|by apply (wp_fence S T)]. intros r m' (_ & Ht & _).
  apply HR; [|done]. split; [by intros [?|?]|by left; apply Ht].
Qed.
Lemma wp_fence_promotion {A} ctx cause (Q : A → Evidence → Prop) (R : execution_failure → Evidence → Prop) m :
  (∀ f m', class_sound f m' → xf_class f ≠ "pre_commit" → R f m') → wp (fence_promotion resolved ctx cause) (post Q R) m.
Proof.
  intros HR. apply wp_bind. eapply wp_mono; [|by apply (wp_fence S T)]. intros [u|e] m' (_ & Ht & He); (apply HR; [|done]); split.
  - intros _. by apply He.
  - rewrite (He eq_refl). done.
  - by intros [?|?].
  - by left; apply Ht.
Qed.
End surrender.

Section safety.
Variables (PlanSHA256 : OperationPlan → string) (FormatTime : Time → string) (a : Adapter).
Variables (request : OperationRequest) (resolved : MySQLOperation).
Let S := instanceEndpoint (mo_Primary resolved).
Let T := instanceEndpoint (mo_Target resolved).
Notation wp := (wp (observe S T) (promotion_allowed T)).
Notation after_observes := (wp_after_observes S T (promotion_allowed T) (promotion_tame T)).
Notation error_observes := (wp_error_observes S T (promotion_allowed T) (promotion_tame T)).
Notation error_harmless := (wp_error_harmless S T (promotion_allowed T) (promotion_tame T)).
Notation complete_or := (wp_complete_or S T (promotion_allowed T) (promotion_tame T)).
Ltac surrender := first [apply (wp_fence_unverified resolved S _ (promotion_tame T)) | apply (wp_fence_promotion resolved S _ (promotion_tame T))];
  exact fence_sound.

(** ** Failing *)

Lemma harmless_restore ctx : harmless (restoreCandidateBeforePromotion a request resolved ctx).
Proof. unfold restoreCandidateBeforePromotion. harmless_calls. Qed.
Lemma wp_fail_before {A} ctx cause (Q : A → Evidence → Prop) m : ev_enabled m = false →
  wp (failBeforeCandidatePromotion a request resolved ctx cause) (post Q failure_sound) m.
Proof.
  intros He. apply wp_bind. eapply wp_mono; [|by apply (wp_harmless S T _ (promotion_tame T)), harmless_restore].
  intros [u|e] m' Hc; apply failure_disabled; try done; by eapply disabled_calm.
Qed.

(** ** The phases *)

Lemma wp_source_fenced ctx m : untouched m →
  wp (switchover_fence_source resolved ctx)
    (post (λ _ m', calm m m' ∧ ev_fenced m' = true ∧ ev_enabled m' = false) failure_sound) m.
Proof.
  intros Hu. apply wp_ebind, wp_on_error. split; [by apply promotion_tame|]. intros x.
  pose proof (observe_calm S T m (Exec ctx S (mo_Credentials resolved) setSuperReadOnlyOn) x ltac:(discriminate)) as Hc.
  destruct (source_super S T (is_ok x) m) as [Hs Hm].
  change (observe S T m _) with (on_statement S T S setSuperReadOnlyOn (is_ok x) m) in *. revert Hc Hs Hm.
  generalize (on_statement S T S setSuperReadOnlyOn (is_ok x) m). intros m1 Hc Hs Hm.
  pose proof (disabled_calm _ _ Hc (proj2 Hu)) as He.
  destruct x as [[]|e]; cbn [wp post].
  - apply wp_on_error. split; [by apply promotion_tame|]. intros y.
    pose proof (observe_calm S T m1 (Exec ctx S (mo_Credentials resolved) setReadOnlyOn) y ltac:(discriminate)) as Hc2.
    pose proof (source_read_only S T (is_ok y) m1) as Hf.
    change (observe S T m1 _) with (on_statement S T S setReadOnlyOn (is_ok y) m1) in *. revert Hc2 Hf.
    generalize (on_statement S T S setReadOnlyOn (is_ok y) m1). intros m2 Hc2 Hf.
    destruct y as [[]|e]; cbn; [|by apply failure_disabled; [eapply disabled_calm|]].
    split_and!; [by etrans|by apply Hf; [|apply Hs]|by eapply disabled_calm].
  - assert (untouched m1) as Hu1 by (split; [rewrite Hm; [apply Hu|done]|done]).
    apply wp_bind. eapply wp_mono; [|by apply (wp_observes S T _ (promotion_tame T)), observes_fenced].
    intros [[]|e'] m' Hq; pose proof (untouched_quiet _ _ Hq Hu1) as Hu'; cbn; by apply failure_untouched.
Qed.

Lemma failure_later f m m' : quiet m m' → ev_enabled m = false → xf_class f ≠ "pre_commit" → failure_sound f m'.
Proof. intros [Hc _] He. apply failure_disabled. by eapply disabled_calm. Qed.

Lemma wp_catch_up ctx m : ev_fenced m = true → ev_enabled m = false →
  wp (switchover_catch_up request resolved ctx)
    (post (λ _ m', calm m m' ∧ ev_ready m' = true ∧ ev_enabled m' = false) failure_sound) m.
Proof.
  intros Hf He. split; [exact I|]. intros r.
  pose proof (observe_calm S T m (Query ctx S (mo_Credentials resolved) gtidPositionQuery) r (λ x, x)) as Hc.
  pose proof (source_captured S T r m Hf) as Hcap.
  change (observe S T m _) with (on_query S T S gtidPositionQuery r m) in *. revert Hc Hcap.
  generalize (on_query S T S gtidPositionQuery r m). intros m1 Hc Hcap. pose proof (disabled_calm _ _ Hc He) as He1.
  cbn [pbind]. change (gtid_position_of r) with (position_of r). destruct (position_of r) as [position|] eqn:Hp; [|by apply failure_disabled].
  apply wp_ebind, wp_ensure; [intros _|intros _; by apply failure_disabled].
  apply wp_ebind, complete_or; [|intros e m' Hq _; by eapply failure_later].
  apply wp_ebind, wp_on_error. unfold waitForExecutedGTIDSet.
  apply wp_ebind, wp_ensure; [intros _|intros _; by apply failure_disabled].
  assert (TrimSpace position = position) as ->.
  { unfold position_of in Hp. destruct r as [[|row [|]]|]; try discriminate Hp. apply fmap_Some in Hp as (raw & _ & ->). apply TrimSpace_idemp. }
  apply wp_bind. split; [exact I|]. intros w. cbn [wp].
  pose proof (observe_calm S T m1 (Query ctx T (mo_Credentials resolved) (wait_query position)) w (λ x, x)) as Hc2.
  pose proof (target_ready S T w position m1 Hcap) as Hr.
  change (observe S T m1 _) with (on_query S T T (wait_query position) w m1) in *. revert Hc2 Hr.
  generalize (on_query S T T (wait_query position) w m1). intros m2 Hc2 Hr. pose proof (disabled_calm _ _ Hc2 He1) as He2.
  apply wp_ensure; [intros Hw|intros _; by apply failure_disabled].
  apply complete_or; [|intros e m' Hq _; by eapply failure_later]. split_and!; [by etrans|by apply Hr|done].
Qed.

Lemma wp_detach ctx m : ev_enabled m = false →
  wp (switchover_detach a request resolved ctx) (post (λ _ m', calm m m' ∧ ev_enabled m' = false) failure_sound) m.
Proof.
  intros He. apply wp_ebind, error_observes; [auto with calls| |].
  2: { intros e m' [Hc _]. apply failure_disabled; [by eapply disabled_calm|done]. }
  intros [status configured] m1 [Hc1 _]. pose proof (disabled_calm _ _ Hc1 He) as He1. apply wp_ebind.
  assert (∀ m2 (p : prog (result execution_failure unit)), calm m m2 ∧ ev_enabled m2 = false →
    wp (completeOperationStep ctx request "stop_target_replication" "target replication is stopped and detached" or_else
      (λ _, failBeforeCandidatePromotion a request resolved ctx "persist target replication progress"))
      (post (λ _ m', calm m m' ∧ ev_enabled m' = false) failure_sound) m2) as Hend.
  { intros m2 _ [Hc2 He2]. apply complete_or; [done|]. intros e m' [Hq _] _. apply wp_fail_before. by eapply disabled_calm. }
  destruct configured; cbn [snd]; [|apply (Hend m1 (Ret (Ok tt))); done].
  destruct (dialectForVersion _) as [dialect|] eqn:Hd; [|by apply failure_disabled].
  destruct (dialect_tame _ _ Hd) as (Hst & Hre & _).
  apply wp_ebind, error_harmless; [by split| |].
  2: { intros e m2 Hc. apply wp_fail_before. by eapply disabled_calm. }
  intros _ m2 Hc2. apply error_harmless; [by split| |].
  - intros _ m3 Hc3. apply (Hend m3 (Ret (Ok tt))). split; [by etrans; [etrans|]|]. by do 2 (eapply disabled_calm; [done|]).
  - intros e m3 Hc3. apply wp_fail_before. by do 2 (eapply disabled_calm; [done|]).
Qed.

Lemma wp_promote ctx m : promoted m → ev_enabled m = false →
  wp (switchover_promote a request resolved ctx) (post (λ _ m', promoted m') failure_sound) m.
Proof.
  intros Hp He. apply wp_ebind, error_observes; [auto with calls| |].
  2: { intros e m' [Hc _]. apply wp_fail_before. by eapply disabled_calm. }
  intros writable m1 [Hc1 _]. pose proof (promoted_calm _ _ Hc1 Hp) as Hp1.
  assert (∀ m2, promoted m2 → wp (writable ←? queryWritableState ctx T (mo_Credentials resolved);
    match writable with
    | Ok true => completeOperationStep ctx request "promote_target" "selected target is writable" or_else
                   (λ _, fence_unverified resolved ctx "persist target promotion progress")
    | _ => fence_promotion resolved ctx "target writable postcondition failed"
    end) (post (λ _ m', promoted m') failure_sound) m2) as Hend.
  { intros m2 Hp2. apply wp_bind. eapply wp_mono; [|by apply (wp_observes S T _ (promotion_tame T)), observes_writable].
    intros w m3 [Hc3 _]. pose proof (promoted_calm _ _ Hc3 Hp2). destruct w as [[]|e]; try surrender.
    apply complete_or; [done|]. intros e ? _ _. surrender. }
  apply wp_ebind. destruct writable; [by apply Hend|].
  apply wp_on_error. split; [intros _; split; [done|exact Hp1]|]. intros x.
  assert (promoted (observe S T m1 (existT (Exec ctx T (mo_Credentials resolved) setReadOnlyOff) x))) as Hp2.
  { by apply (enable_keeps S T). }
  destruct x as [[]|e]; cbn [wp post]; [by apply Hend|surrender].
Qed.

(** After the promotion: the evidence stays, and a failure fences the target. *)
Lemma wp_reparent ctx follower m : promoted m →
  wp (switchover_reparent a request resolved ctx follower) (post (λ _ m', promoted m') failure_sound) m.
Proof.
  intros Hp. apply wp_ebind, error_observes; [auto with calls| |intros; surrender].
  intros completed m1 [Hc1 _]. pose proof (promoted_calm _ _ Hc1 Hp) as Hp1. destruct completed; [exact Hp1|].
  apply wp_ebind, error_harmless; [auto with calls| |intros; surrender].
  intros _ m2 Hc2. apply complete_or; [by eapply promoted_calm|]. intros e ? _ _. surrender.
Qed.
Lemma wp_semisync ctx m : promoted m →
  wp (switchover_semisync a request resolved ctx) (post (λ _ m', promoted m') failure_sound) m.
Proof.
  intros Hp. unfold switchover_semisync. destruct (ad_semiSyncRequired a); [|exact Hp].
  apply wp_ebind, error_observes; [auto with calls| |intros; surrender].
  intros completed m1 [Hc1 _]. pose proof (promoted_calm _ _ Hc1 Hp) as Hp1.
  apply wp_ebind, error_harmless; [auto with calls| |intros; surrender].
  intros _ m2 Hc2. pose proof (promoted_calm _ _ Hc2 Hp1) as Hp2. destruct completed; [exact Hp2|].
  apply complete_or; [done|]. intros e ? _ _. surrender.
Qed.

(** The target owns the endpoint, by the provider's last word, and its lease is stable. *)
Definition committed (m : Evidence) : Prop := promoted m ∧ ev_owner m = true ∧ ev_finalized m = true.
Lemma wp_verify_owner ctx m : promoted m →
  wp (perform (EndpointVerify ctx resolved)) (λ check m', promoted m' ∧
    ev_owner m' = endpointOwnerVerified (sanitizeEndpointCheck check "writer_endpoint_owner")) m.
Proof. intros Hp. split; [exact I|]. intros x. by destruct m. Qed.
Lemma wp_recorded ctx m : committed m →
  wp (_ ←! (completeOperationStep ctx request "transfer_writer_endpoint" "writer endpoint transferred to selected target" or_else
              (λ _, executionFailure OperationIndeterminate "promoted_unverified" "persist writer endpoint progress"));
      completeOperationStep ctx request "retain_source_read_only" "former primary remains read-only" or_else
        (λ _, executionFailure OperationIndeterminate "promoted_unverified" "persist former-primary state progress"))
    (post (λ _, committed) failure_sound) m.
Proof.
  intros Hm. assert (∀ cause m', quiet m m' → failure_sound (mkFailure OperationIndeterminate "promoted_unverified" cause) m') as Hf.
  { intros cause m' [Hc _]. apply fence_sound; [split; [by intros [?|?]|]|done]. intros _. right. apply (calm_finalized _ _ Hc), Hm. }
  apply wp_ebind, complete_or; [|intros e m' Hq _; by apply Hf]. apply complete_or; [exact Hm|intros e m' Hq _; by apply Hf].
Qed.
Lemma wp_finish ctx m : promoted m → ev_owner m = true →
  wp (_ ←! (perform (FinalizeTransition ctx) or_else (λ _, fence_unverified resolved ctx "stabilize writer endpoint lease"));
      _ ←! (completeOperationStep ctx request "transfer_writer_endpoint" "writer endpoint transferred to selected target" or_else
              (λ _, executionFailure OperationIndeterminate "promoted_unverified" "persist writer endpoint progress"));
      completeOperationStep ctx request "retain_source_read_only" "former primary remains read-only" or_else
        (λ _, executionFailure OperationIndeterminate "promoted_unverified" "persist former-primary state progress"))
    (post (λ _, committed) failure_sound) m.
Proof.
  intros Hp Ho. apply wp_ebind, wp_on_error. split; [exact I|]. intros x.
  destruct x as [[]|e]; cbn [wp post]; [|surrender].
  apply wp_recorded. destruct m; split; [exact Hp|split; [exact Ho|reflexivity]].
Qed.
Lemma wp_endpoint ctx m : promoted m →
  wp (switchover_endpoint request resolved ctx) (post (λ _, committed) failure_sound) m.
Proof.
  intros Hp. apply wp_bind. eapply wp_mono; [|by apply wp_verify_owner]. intros check m1 [Hp1 Ho1]. cbn beta.
  apply wp_ebind. destruct (endpointOwnerVerified _) eqn:Hv; [by apply wp_finish|].
  case_match; [surrender|]. apply wp_ebind, wp_on_error. split; [exact I|]. intros x.
  destruct x as [[]|e]; cbn [wp post]; [|surrender].
  apply wp_bind. eapply wp_mono; [|by apply wp_verify_owner]. intros check2 m2 [Hp2 Ho2]. cbn beta.
  destruct (endpointOwnerVerified (sanitizeEndpointCheck check2 _)) eqn:Hv2; [by apply wp_finish|surrender].
Qed.

Lemma promoted_start m m' : ev_authorized m = true → ev_fenced m = true → calm m m' → ev_ready m' = true → promoted m'.
Proof. intros Ha Hf [] Hr. split_and!; auto. Qed.
Lemma wp_transition sourceFenced ctx m : ev_authorized m = true → untouched m → (sourceFenced = true → ev_fenced m = true) →
  wp (switchover_transition a request resolved sourceFenced ctx) (post (λ _, committed) failure_sound) m.
Proof.
  intros Ha Hu Hs. apply wp_ebind.
  eapply wp_mono; [|eapply (λ Hp, Hp : wp _ (post (λ _ m', calm m m' ∧ ev_fenced m' = true ∧ ev_enabled m' = false) failure_sound) m)].
  2: { destruct sourceFenced; [split_and!; [done|by apply Hs|apply Hu]|by apply wp_source_fenced]. }
  intros [[]|f] m1 Hm1; [|exact Hm1]. destruct Hm1 as (Hc1 & Hf1 & He1). pose proof (calm_authorized _ _ Hc1 Ha) as Ha1.
  apply wp_ebind, complete_or; [|intros e m' Hq _; by eapply failure_later].
  apply wp_ebind. eapply wp_mono; [|by apply wp_catch_up]. intros [[]|f] m2 Hm2; [|exact Hm2]. destruct Hm2 as (Hc2 & Hr2 & He2).
  pose proof (promoted_start _ _ Ha1 Hf1 Hc2 Hr2) as Hp2.
  apply wp_ebind. eapply wp_mono; [|by apply wp_detach]. intros [[]|f] m3 Hm3; [|exact Hm3]. destruct Hm3 as [Hc3 He3].
  apply wp_ebind. eapply wp_mono; [|apply wp_promote; [by eapply promoted_calm|done]]. intros [[]|f] m4 Hm4; [|exact Hm4].
  apply wp_ebind. eapply wp_mono; [|apply (wp_each _ _ _ _ promoted failure_sound); [exact Hm4|intros follower m' _; apply wp_reparent]].
  intros [[]|f] m5 Hm5; [|exact Hm5].
  apply wp_ebind. eapply wp_mono; [|by apply wp_semisync]. intros [[]|f] m6 Hm6; [|exact Hm6].
  apply wp_ebind. eapply wp_mono; [|by apply wp_endpoint]. intros [[]|f] m7 Hm7; exact Hm7.
Qed.

(** ** The whole function *)

(** Recorded progress makes the fence of a source that is seen fenced this operation's. *)
Lemma wp_owned ctx m : untouched m → ev_seen m = true →
  wp (operationStepCompleted ctx request "fence_source") (λ r m', untouched m' ∧ (r = Ok true → ev_fenced m' = true)) m.
Proof.
  intros Hu Hs. unfold operationStepCompleted. destruct (or_Progress request); try (by split). split; [exact I|]. intros x.
  unfold observe. cbn. rewrite Hs. cbn. split; [exact Hu|by intros ->].
Qed.
Lemma wp_source_state ctx m : untouched m →
  wp (queryFencedState ctx S (mo_Credentials resolved)) (λ r m', untouched m' ∧ (r = Ok true → ev_seen m' = true)) m.
Proof.
  intros Hu. unfold queryFencedState, probeIdentity. split; [exact I|]. intros r.
  pose proof (untouched_quiet _ _ (observe_quiet S T m (Query ctx S (mo_Credentials resolved) identityQuery) r (λ x, x)) Hu) as Hu1.
  pose proof (source_seen S T r m) as Hs. unfold fenced_answer in Hs. cbn [pbind].
  destruct (identity_of r) as [identity|e]; (split; [exact Hu1|]); [|done]. intros [= Hf]. by apply Hs.
Qed.
Lemma wp_entry ctx m : untouched m →
  wp (switchover_entry request resolved ctx)
    (post (λ sourceFenced m', untouched m' ∧ (sourceFenced = true → ev_fenced m' = true)) failure_sound) m.
Proof.
  intros Hu. apply wp_ebind, wp_on_error. eapply wp_mono; [|by apply wp_source_state].
  intros [sourceFenced|e] m1 [Hu1 Hs1]; [|by apply failure_untouched]. apply wp_ebind. destruct sourceFenced.
  - specialize (Hs1 eq_refl). apply wp_ebind, wp_on_error. eapply wp_mono; [|by apply wp_owned].
    intros [owned|e] m2 [Hu2 Hf2]; [|by apply failure_untouched].
    apply wp_ebind, wp_ensure; [intros ->|intros _; by apply failure_untouched]. specialize (Hf2 eq_refl).
    apply error_observes; [auto with calls| |intros e m3 Hq; apply failure_untouched; by eapply untouched_quiet].
    intros _ m3 Hq. split; [by eapply untouched_quiet|]. intros _. by apply (calm_fenced _ _ (proj1 Hq)).
  - apply error_observes; [auto with calls| |intros e' m3 Hq; apply failure_untouched; by eapply untouched_quiet].
    intros _ m3 Hq. split; [by eapply untouched_quiet|done].
Qed.
Definition outcome_sound (r : outcome) (m : Evidence) : Prop :=
  post (λ _ m, committed m ∨ ev_mutated m = false) failure_sound r m.
Lemma wp_switchover_run ctx m : untouched m → wp (switchover_run PlanSHA256 a request resolved ctx) outcome_sound m.
Proof.
  intros Hu. apply wp_ebind, error_observes; [auto with calls| |intros e m' Hq; apply failure_untouched; by eapply untouched_quiet].
  intros completed m1 Hq. pose proof (untouched_quiet _ _ Hq Hu) as Hu1. destruct completed.
  { apply wp_bind. eapply wp_mono; [|apply (wp_observes S T _ (promotion_tame T)), observes_verify_attempts].
    intros [verification e] m2 Hq2. pose proof (untouched_quiet _ _ Hq2 Hu1) as Hu2. cbn beta iota zeta.
    destruct (bool_decide _ && _); [right; apply Hu2|by apply failure_untouched]. }
  apply wp_ebind. eapply wp_mono; [|by apply wp_entry]. intros [sourceFenced|f] m2 Hm2; [|exact Hm2]. destruct Hm2 as [Hu2 Hf2].
  apply wp_ebind, wp_on_error. eapply wp_mono; [|apply (wp_authorize S T _ (promotion_tame T))]. intros [[]|e] m3 Hm3.
  2: { pose proof (untouched_quiet _ _ Hm3 Hu2). destruct sourceFenced; by apply failure_untouched. }
  destruct Hm3 as [Ha3 Hq3]. apply wp_bind. eapply wp_mono; [|apply wp_transition; [exact Ha3|by eapply untouched_quiet|]].
  - intros [msg|f] m4 Hm4; (split; [exact I|]); intros []; [left; exact Hm4|exact Hm4].
  - intros Hs. by apply (calm_fenced _ _ (proj1 Hq3)), Hf2.
Qed.
Lemma wp_execute : or_Resolved request = Some resolved →
  wp (switchoverExecute PlanSHA256 FormatTime a request) outcome_sound no_evidence.
Proof.
  intros Hr. unfold switchoverExecute. case_match; [by apply failure_untouched|]. split; [exact I|]. intros executable.
  change (observe S T no_evidence _) with no_evidence. cbn [pbind]. destruct executable; cbn [negb]; [|by apply failure_untouched].
  rewrite Hr. destruct (validateExecutionPlan _ _ request) as [[]|e]; [|by apply failure_untouched].
  split; [exact I|]. intros x. change (observe S T no_evidence _) with no_evidence.
  destruct x as [[]|e]; cbn [pbind]; [by apply wp_switchover_run|by apply failure_untouched].
Qed.
End safety.

(** ** What every execution does *)

(** A planned switchover makes an instance writable only when it is safe.
    Whatever the servers and the providers answer, each statement of an
    execution that turns [read_only] off is sent to the target, and before it
    the transition lease was granted, the source was fenced (it accepted both
    statements of the fence, or it answered that it is fenced and this
    operation's durable progress says who fenced it), the fenced source then
    answered its last GTID position, and the target executed that position. *)
Lemma switchover_promotes_fenced PlanSHA256 FormatTime a request resolved t out before ctx endpoint cr x after :
  or_Resolved request = Some resolved → runs (switchoverExecute PlanSHA256 FormatTime a request) t out →
  t = before ++ existT (Exec ctx endpoint cr setReadOnlyOff) x :: after →
  let S := instanceEndpoint (mo_Primary resolved) in let T := instanceEndpoint (mo_Target resolved) in
  endpoint = T ∧ occurs granted before ∧ source_fenced S before ∧ caught_up S T before.
Proof.
  intros Hr Hrun Ht. cbn zeta. destruct (wp_sound _ _ _ _ _ _ _ (wp_execute PlanSHA256 FormatTime a request resolved Hr) Hrun) as [Hal _].
  destruct (Hal _ _ _ Ht eq_refl) as (He & Ha & Hf & Hc). split; [exact He|].
  destruct (watch_meant (instanceEndpoint (mo_Primary resolved)) (instanceEndpoint (mo_Target resolved)) before). auto.
Qed.

(** the failure class of a planned switchover is true, for every execution.
    [pre_commit] means that no instance was changed: at most the source
    rejected the first statement of the fence.  [pre_commit] and [fenced] mean
    that whenever the target was told to accept writes it was fenced again
    afterwards.  And after any failure a target that was told to accept writes
    was fenced again, or that was tried, or the target's lease is stable. *)
Theorem switchover_failure_class PlanSHA256 FormatTime a request resolved t f :
  or_Resolved request = Some resolved → runs (switchoverExecute PlanSHA256 FormatTime a request) t (Err f) →
  let S := instanceEndpoint (mo_Primary resolved) in let T := instanceEndpoint (mo_Target resolved) in
  (xf_class f = "pre_commit" → unchanged S t) ∧
  ∀ t1 e t2, t = t1 ++ e :: t2 → enabling T e →
    (xf_class f = "pre_commit" ∨ xf_class f = "fenced" → refenced T t2) ∧
    (refenced T t2 ∨ occurs (fence_tried T) t2 ∨ occurs lease_stable t).
Proof.
  intros Hr Hrun. cbn zeta. set (S := instanceEndpoint (mo_Primary resolved)). set (T := instanceEndpoint (mo_Target resolved)).
  destruct (wp_sound _ _ _ _ _ _ _ (wp_execute PlanSHA256 FormatTime a request resolved Hr) Hrun) as [_ [[Hd He] Hm]].
  split; [intros Hc; exact (watch_unchanged S T t (Hm Hc))|]. intros t1 e t2 Heq Hen.
  destruct (watch_meant_target S T t t1 e t2 Heq Hen) as [Hre|(Hon & _ & Htr)]; [by auto|]. split.
  - intros Hc. discriminate (eq_trans (eq_sym Hon) (Hd Hc)).
  - right. destruct (He Hon) as [Ht|Hf]; [left; exact (Htr Ht)|right; exact (watch_finalized S T t Hf)].
Qed.


(** ** Concrete executions *)

Definition wsw_resolved : MySQLOperation := sim_resolved HealthHealthy.
Definition wsw_request : OperationRequest := sim_request OperationSwitchover wsw_resolved (switchover_steps sim_adapter wsw_resolved).
Definition wsw_program : prog outcome := switchoverExecute sim_digest sim_format sim_adapter wsw_request.
Definition unfinalized (c : mysql_action) : bool := match c with FinalizeTransition _ => true | _ => false end.
Lemma switchover_failure_class_witness :
  ∃ f, (simulate unfinalized wsw_program).2 = Err f ∧ xf_class f = "promoted_unverified" ∧
  ∀ t1 e t2, (simulate unfinalized wsw_program).1 = t1 ++ e :: t2 → enabling sim_target e →
    refenced sim_target t2 ∨ occurs (fence_tried sim_target) t2 ∨
    occurs lease_stable (simulate unfinalized wsw_program).1.
Proof.
  exists (mkFailure OperationIndeterminate "promoted_unverified" "stabilize writer endpoint lease").
  assert (Hf : (simulate unfinalized wsw_program).2 =
    Err (mkFailure OperationIndeterminate "promoted_unverified" "stabilize writer endpoint lease")) by (vm_compute; reflexivity).
  pose proof (simulate_runs unfinalized wsw_program) as Hrun. rewrite Hf in Hrun.
  split; [exact Hf|]. split; [reflexivity|]. intros t1 e t2 Heq Hen.
  exact (proj2 (proj2 (switchover_failure_class sim_digest sim_format sim_adapter wsw_request wsw_resolved _ _ eq_refl Hrun) t1 e t2 Heq Hen)).
Defined.
