(* ===== verification/FailoverSafety.v ===== *)
(** * Failing over is safe

    [Failover]'s programs against the monitor of [Promotion]: the replica is
    made writable only when the old primary is isolated and the transition is
    authorized, and a failure says truly what it left behind. *)
From S2P Require Import Prelude GoStd Model Gtid Interfaces Candidates Program MySQLAdapter MySQLPlans SimulatedMySQL Promotion History Switchover SwitchoverSafety Failover.

(** Only the target is made writable, and only when the lease of the transition is held and the safety provider has
    confirmed that the old primary is isolated. *)
Definition settled (m : Evidence) : Prop := ev_authorized m = true ∧ ev_isolated m = true.
Definition failover_allowed (T : SQLEndpoint) (m : Evidence) (c : mysql_action) : Prop :=
  match c with
  | Exec _ endpoint _ statement => statement = setReadOnlyOff → endpoint = T ∧ settled m
  | _ => True
  end.
Lemma failover_tame T m c : tame c → failover_allowed T m c.
Proof. by destruct c. Qed.
Lemma settled_calm m m' : calm m m' → settled m → settled m'.
Proof. intros [] [? ?]. split; auto. Qed.
Lemma observes_failover_followers a ctx resolved eligible instances :
  observes (failover_verify_followers a ctx resolved eligible instances).
Proof. induction instances as [|follower instances IH]; cbn [failover_verify_followers]; [side_calls|].
  unfold verifyFollowerWriterState, verifyFollowerReplication. side_calls; exact IH.
Qed.
#[export] Hint Resolve observes_failover_followers : calls.
Lemma observes_failover_verify PlanSHA256 FormatTime a ctx request : observes (failoverVerify PlanSHA256 FormatTime a ctx request).
Proof. unfold failoverVerify. side_calls. Qed.
#[export] Hint Resolve observes_failover_verify : calls.

(** A promotion that failed is undone, or that was tried, unless the lease is stable, or a follower's progress
    could not be recorded before the endpoint was published. *)
Definition failover_failure (a : Adapter) (f : execution_failure) (m : Evidence) : Prop :=
  (xf_class f = "pre_commit" ∨ xf_class f = "fenced" → ev_enabled m = false) ∧
  (ev_enabled m = true → ev_tried m = true ∨ ev_finalized m = true ∨ (ad_semiSyncRequired a = true ∧ ev_unrecorded m = true)).
Lemma failover_class a f m : class_sound f m → failover_failure a f m.
Proof. intros [H1 H2]. split; [exact H1|]. intros [?|?]%H2; auto. Qed.
Lemma failover_gives_up a f m : class_sound f m → xf_class f ≠ "pre_commit" → failover_failure a f m.
Proof. intros H _. by apply failover_class. Qed.
Lemma failover_disabled a f m : ev_enabled m = false → failover_failure a f m.
Proof. intros H. split; [done|]. by rewrite H. Qed.

Section safety.
Variables (PlanSHA256 : OperationPlan → string) (FormatTime : Time → string) (a : Adapter).
Variables (request : OperationRequest) (resolved : MySQLOperation).
Let S := instanceEndpoint (mo_Primary resolved).
Let T := instanceEndpoint (mo_Target resolved).
Notation wp := (wp (observe S T) (failover_allowed T)).
Notation failed := (failover_failure a).
Notation error_observes := (wp_error_observes S T (failover_allowed T) (failover_tame T)).
Notation error_harmless := (wp_error_harmless S T (failover_allowed T) (failover_tame T)).
Notation complete_or := (wp_complete_or S T (failover_allowed T) (failover_tame T)).
Ltac surrender := first [apply (wp_fence_unverified resolved S _ (failover_tame T)) | apply (wp_fence_promotion resolved S _ (failover_tame T))];
  exact (failover_gives_up a).
(** The target has not been made writable, and stays so. *)
Definition kept (m m' : Evidence) : Prop := calm m m' ∧ ev_enabled m' = false.
Lemma kept_calm m m1 m2 : kept m m1 → calm m1 m2 → kept m m2.
Proof. intros [H1 H2] H3. split; [by etrans|by eapply disabled_calm]. Qed.
Lemma disabled_later f m m' : calm m m' → ev_enabled m = false → failed f m'.
Proof. intros Hc He. apply failover_disabled. by eapply disabled_calm. Qed.

Lemma wp_isolate ctx m : ev_enabled m = false →
  wp (failover_isolate request resolved ctx) (post (λ _ m', kept m m' ∧ ev_isolated m' = true) failed) m.
Proof.
  intros He. apply wp_ebind, error_observes; [auto with calls| |intros e m1 [Hc _]; by eapply disabled_later].
  intros _ m1 [Hc1 _]. pose proof (disabled_calm _ _ Hc1 He) as He1.
  apply wp_ebind, error_observes; [auto with calls| |intros e m2 [Hc _]; by eapply disabled_later].
  intros fenced m2 [Hc2 _]. assert (kept m m2) as Hk2 by (split; [by etrans|by eapply disabled_calm]).
  apply wp_ebind. eapply wp_mono; [|eapply (λ Hp, Hp : wp _ (post (λ _ m', kept m m') failed) m2)].
  2: { destruct fenced; [exact Hk2|]. apply error_observes; [side_calls| |intros e m3 [Hc _]; eapply disabled_later; [exact Hc|apply Hk2]].
       intros _ m3 [Hc3 _]. by eapply kept_calm. }
  intros [[]|f] m3 Hk3; [|exact Hk3]. apply wp_next; [exact I|]. intros check m4 Hm4.
  assert (kept m m4 ∧ (isolation_confirmed check = true → ev_isolated m4 = true)) as [Hk4 Hi4].
  { split; [eapply kept_calm; [exact Hk3|]; rewrite Hm4; by apply observe_quiet; intros []|].
    intros Hi. rewrite Hm4. unfold observe. cbn. unfold isolation_confirmed in Hi. by rewrite Hi. }
  clear Hm4. apply wp_ebind, wp_ensure; [intros Hi|intros _; apply failover_disabled, Hk4].
  destruct fenced; [split; [exact Hk4|by apply Hi4]|]. apply complete_or; [split; [exact Hk4|by apply Hi4]|].
  intros e m5 [Hc5 _] _. eapply disabled_later; [exact Hc5|apply Hk4].
Qed.
Lemma observes_inspect ctx : observes (failover_inspect resolved ctx).
Proof. unfold failover_inspect. side_calls. Qed.
(** The dialect comes from the version that the target answered. *)
Lemma wp_inspect ctx m : ev_enabled m = false →
  wp (failover_inspect resolved ctx)
    (post (λ found m', kept m m' ∧ dialectForVersion (ip_version (ft_identity found)) = Some (ft_dialect found)) failed) m.
Proof.
  intros He. apply wp_ebind, error_observes; [auto with calls| |intros e m1 [Hc _]; by eapply disabled_later].
  intros identity m1 [Hc1 _]. pose proof (disabled_calm _ _ Hc1 He) as He1.
  apply wp_ebind, wp_ensure; [intros _|intros _; by apply failover_disabled].
  apply wp_ebind, wp_ensure; [intros _|intros _; by apply failover_disabled].
  destruct (dialectForVersion (ip_version identity)) as [dialect|] eqn:Hd; [|by apply failover_disabled].
  apply wp_ebind, error_observes; [auto with calls| |intros e m2 [Hc _]; by eapply disabled_later].
  intros probed m2 [Hc2 _]. split; [split; [by etrans|by eapply disabled_calm]|exact Hd].
Qed.
Lemma wp_failover_detach ctx done found m : ev_enabled m = false → dialectForVersion (ip_version (ft_identity found)) = Some (ft_dialect found) →
  wp (failover_detach resolved ctx done found) (post (λ _ m', kept m m') failed) m.
Proof.
  intros He Hd. destruct (dialect_tame _ _ Hd) as (Hst & Hre & _). assert (kept m m) as Hk by done. destruct done.
  { apply wp_ensure; [done|intros _; by apply failover_disabled]. }
  apply wp_ebind, wp_ensure; [intros _|intros _; by apply failover_disabled].
  apply wp_ebind, wp_ensure; [intros _|intros _; by apply failover_disabled].
  apply wp_ebind, error_harmless; [by split| |intros e m1 Hc; by eapply disabled_later].
  intros _ m1 Hc1. pose proof (kept_calm _ _ _ Hk Hc1) as Hk1.
  apply error_harmless; [by split| |intros e m2 Hc; eapply disabled_later; [exact Hc|apply Hk1]].
  intros _ m2 Hc2. by eapply kept_calm.
Qed.

Lemma wp_failover_promote ctx m : settled m → ev_enabled m = false →
  wp (failover_promote request resolved ctx) (post (λ _ m', settled m') failed) m.
Proof.
  intros Hp He. apply wp_ebind, error_observes; [auto with calls| |intros e m1 [Hc _]; by eapply disabled_later].
  intros writable m1 [Hc1 _]. pose proof (settled_calm _ _ Hc1 Hp) as Hp1.
  assert (∀ m2, settled m2 → wp (writable ←? queryWritableState ctx T (mo_Credentials resolved);
    match writable with
    | Ok true => completeOperationStep (WithoutCancel ctx) request "promote_failover_target" "selected failover target is writable" or_else
                   (λ _, fence_unverified resolved ctx "persist failover promotion progress")
    | _ => fence_promotion resolved ctx "failover target writable postcondition failed"
    end) (post (λ _ m', settled m') failed) m2) as Hend.
  { intros m2 Hp2. apply wp_bind. eapply wp_mono; [|by apply (wp_observes S T _ (failover_tame T)), observes_writable].
    intros w m3 [Hc3 _]. pose proof (settled_calm _ _ Hc3 Hp2). destruct w as [[]|e]; try surrender.
    apply complete_or; [assumption|]. intros e ? _ _. surrender. }
  apply wp_ebind. destruct writable; [by apply Hend|].
  apply wp_on_error. split; [intros _; split; [reflexivity|exact Hp1]|]. intros x.
  assert (settled (observe S T m1 (existT (Exec ctx T (mo_Credentials resolved) setReadOnlyOff) x))) as Hp2.
  { destruct Hp1. unfold settled, observe. cbn [projT1 projT2 observe_call]. unfold on_statement, at_target, at_source.
    rewrite (bool_decide_eq_true_2 (T = T)) by done. by destruct m1, (bool_decide (T = S)). }
  destruct x as [[]|e]; cbn [wp post]; [by apply Hend|surrender].
Qed.

(** ** Publishing the endpoint *)

Lemma owner_sanitized check : endpointOwnerVerified check = true →
  endpointOwnerVerified (sanitizeEndpointCheck check "writer_endpoint_owner") = true.
Proof.
  unfold endpointOwnerVerified, sanitizeEndpointCheck. intros [Hn Hs]%andb_prop. repeat bsimpl_step. rewrite Hn, Hs. reflexivity.
Qed.
Definition published (m : Evidence) : Prop := settled m ∧ ev_finalized m = true.
Lemma published_calm m m' : calm m m' → published m → published m'.
Proof. intros Hc [Hs Hf]. split; [by eapply settled_calm|by apply (calm_finalized _ _ Hc)]. Qed.
Lemma failed_published f m : published m → xf_class f = "promoted_unverified" → failed f m.
Proof. intros [_ Hf] Hc. split; [rewrite Hc; by intros [?|?]|auto]. Qed.

Lemma wp_transfer ctx m : settled m → wp (failover_transfer request resolved ctx) (post (λ _ m', published m') failed) m.
Proof.
  intros Hs. apply wp_ebind, error_observes; [side_calls| |intros; surrender]. intros _ m1 [Hc1 _].
  apply wp_next; [exact I|]. intros check m2 Hm2. apply wp_ebind.
  assert (settled m2) as Hs2 by (rewrite Hm2; pose proof (settled_calm _ _ Hc1 Hs) as Hs1; by destruct Hs1, m1). clear Hm2.
  destruct (endpointOwnerVerified check); [|surrender]. apply wp_ebind, wp_on_error. split; [exact I|]. intros x.
  match goal with |- _ ?m' => remember m' as m3 eqn:Hm3 end.
  destruct x as [[]|e]; cbn [wp post]; [|surrender]. assert (published m3) as Hp by (rewrite Hm3; by destruct Hs2, m2). clear Hm3.
  apply complete_or; [exact Hp|]. intros e m4 [Hc4 _] _. apply failed_published; [by eapply published_calm|reflexivity].
Qed.
(** A follower, before the endpoint is published or after. *)
Lemma wp_failover_reparent done ctx follower m (P : Evidence → Prop) :
  (∀ m m', calm m m' → P m → P m') → (∀ m, P m → if done : bool then published m else ad_semiSyncRequired a = true) → P m →
  wp (failover_reparent a request resolved done ctx follower) (post (λ _ m', P m') failed) m.
Proof.
  intros Hcalm Hdone HP.
  assert (∀ A (Q : A → Evidence → Prop) cause m', P m' → wp (fence_unpublished resolved done ctx cause) (post Q failed) m') as Hup.
  { intros A Q cause m' HP'. unfold fence_unpublished. destruct done; [|surrender]. by apply failed_published; [apply Hdone|]. }
  apply wp_ebind, error_observes; [auto with calls| |intros e m1 [Hc _]; apply Hup; by eapply Hcalm].
  intros completed m1 [Hc1 _]. pose proof (Hcalm _ _ Hc1 HP) as HP1. destruct completed; [exact HP1|].
  apply wp_ebind, error_harmless; [auto with calls| |intros e m2 Hc2; apply Hup; by eapply Hcalm].
  intros _ m2 Hc2. pose proof (Hcalm _ _ Hc2 HP1) as HP2. apply complete_or; [exact HP2|]. intros e m3 [Hc3 _] Hu.
  pose proof (Hdone _ (Hcalm _ _ Hc3 HP2)) as Hd. destruct done; [by apply failed_published|].
  split; [by intros [?|?]|]. by right; right.
Qed.
Lemma wp_failover_semisync ctx version m : settled m →
  wp (failover_semisync request resolved ctx version) (post (λ _ m', settled m') failed) m.
Proof.
  intros Hp. apply wp_ebind, error_observes; [auto with calls| |intros; surrender].
  intros completed m1 [Hc1 _]. pose proof (settled_calm _ _ Hc1 Hp) as Hp1.
  apply wp_ebind, error_harmless; [auto with calls| |intros; surrender].
  intros _ m2 Hc2. pose proof (settled_calm _ _ Hc2 Hp1) as Hp2. destruct completed; [exact Hp2|].
  apply complete_or; [exact Hp2|]. intros e ? _ _. surrender.
Qed.
Lemma wp_publish ctx version m : settled m → wp (failover_publish a request resolved ctx version) (post (λ _ m', published m') failed) m.
Proof.
  intros Hs. unfold failover_publish. destruct (ad_semiSyncRequired a) eqn:Hsemi.
  - apply wp_ebind. eapply wp_mono; [|apply (wp_each _ _ _ _ settled failed); [exact Hs|]].
    2: { intros follower m' _ Hs'. by apply wp_failover_reparent; [exact settled_calm| |]. }
    intros [[]|f] m1 Hm1; [|exact Hm1]. apply wp_ebind. eapply wp_mono; [|by apply wp_failover_semisync].
    intros [[]|f] m2 Hm2; [|exact Hm2]. by apply wp_transfer.
  - apply wp_ebind. eapply wp_mono; [|by apply wp_transfer]. intros [[]|f] m1 Hm1; [|exact Hm1].
    apply (wp_each _ _ _ _ published failed); [exact Hm1|]. intros follower m' _ Hs'. by apply wp_failover_reparent; [exact published_calm| |].
Qed.

(** ** The whole function *)

Definition failover_outcome (r : outcome) (m : Evidence) : Prop := post (λ _ m, published m ∨ ev_mutated m = false) failed r m.
Lemma wp_failover_run ctx : wp (failover_run PlanSHA256 FormatTime a request resolved ctx) failover_outcome no_evidence.
Proof.
  apply wp_ebind, error_observes; [auto with calls| |intros e m [Hc _]; by eapply disabled_later].
  intros completed m Hq. pose proof (disabled_calm _ _ (proj1 Hq) eq_refl) as He. destruct completed.
  { apply wp_bind. eapply wp_mono; [|apply (wp_observes S T _ (failover_tame T)), observes_failover_verify].
    intros verification m1 Hq1. pose proof (disabled_calm _ _ (proj1 Hq1) He). destruct (ver_Passed verification); [|by apply failover_disabled].
    right. by rewrite (proj2 Hq1), (proj2 Hq). }
  apply wp_ebind. eapply wp_mono; [|by apply wp_isolate]. intros [[]|f] m1 Hm1; [|exact Hm1]. destruct Hm1 as [[Hc1 He1] Hi1].
  apply wp_ebind, error_observes; [auto with calls| |intros e m2 [Hc _]; by eapply disabled_later].
  intros promoted m2 [Hc2 _]. pose proof (disabled_calm _ _ Hc2 He1) as He2.
  apply wp_ebind. eapply wp_mono; [|by apply wp_inspect]. intros [found|f] m3 Hm3; [|exact Hm3]. destruct Hm3 as [[Hc3 He3] Hd].
  apply wp_ebind, wp_on_error. eapply wp_mono; [|apply (wp_authorize S T _ (failover_tame T))]. intros [[]|e] m4 Hm4.
  2: { destruct Hm4 as [Hc4 _]. by eapply disabled_later. }
  destruct Hm4 as [Ha4 [Hc4 _]].
  assert (settled m4 ∧ ev_enabled m4 = false) as [Hs4 He4].
  { split; [split; [exact Ha4|]|by eapply disabled_calm]. apply (calm_isolated _ _ Hc4), (calm_isolated _ _ Hc3), (calm_isolated _ _ Hc2), Hi1. }
  apply wp_bind. eapply wp_mono; [|apply (wp_ebind _ _ _ _ (λ _ m, published m) failed)].
  { intros [msg|f] m5 Hm5; (split; [exact I|]); intros []; [left; exact Hm5|exact Hm5]. }
  eapply wp_mono; [|by apply wp_failover_detach]. intros [[]|f] m5 Hm5; [|exact Hm5]. destruct Hm5 as [Hc5 He5].
  apply wp_ebind. eapply wp_mono; [|apply wp_failover_promote; [by eapply settled_calm|exact He5]]. intros [[]|f] m6 Hm6; [|exact Hm6].
  apply wp_ebind. eapply wp_mono; [|by apply wp_publish]. intros [[]|f] m7 Hm7; exact Hm7.
Qed.
Lemma wp_failover_execute : or_Resolved request = Some resolved →
  wp (failoverExecute PlanSHA256 FormatTime a request) failover_outcome no_evidence.
Proof.
  intros Hr. unfold failoverExecute. destruct (ad_executor a); cbn [negb]; [|by apply failover_disabled]. split; [exact I|]. intros executable.
  change (observe S T no_evidence _) with no_evidence. cbn [pbind]. destruct executable; cbn [negb]; [|by apply failover_disabled].
  rewrite Hr. destruct (validateMySQLPlan _ _ request _ _) as [[]|e]; [apply wp_failover_run|by apply failover_disabled].
Qed.
End safety.

(** ** What the target answered before it was made writable *)

(** Every transaction the replica has executed is the failed primary's: one it was observed with, or one that it issued. *)
Definition continues (primary : DatabaseInstance) (executed : string) : Prop :=
  ∃ p c, ParseGTIDSet (mget (inst_EngineMetadata primary) "gtid_executed") = Ok p ∧ ParseGTIDSet executed = Ok c ∧
    ∀ t, gtid_in c t → gtid_in p t ∨ gtidSourceUUID t.1 = ToLower (TrimSpace (server_uuid (inst_EngineIdentity primary))).
Lemma safe_live_spec primary identity replication : safeLiveFailoverReplication primary identity replication = true →
  repl_SQLThread replication = ThreadRunning ∧ server_uuid (repl_SourceIdentity replication) = server_uuid (inst_EngineIdentity primary) ∧
  continues primary (repl_ExecutedPosition replication).
Proof.
  unfold safeLiveFailoverReplication. cbn zeta.
  match goal with |- context [if ?b then false else _] => destruct b eqn:H1; [done|] end.
  match goal with |- context [if ?b then false else _] => destruct b eqn:H2; [done|] end.
  apply orb_false_elim in H1 as [[H1 _]%orb_false_elim _], H2 as [[_ H2]%orb_false_elim _]. repeat bsimpl_step.
  destruct (ParseGTIDSet (mget _ _)) as [p|] eqn:Hp; [|done]. destruct (ParseGTIDSet (repl_ExecutedPosition _)) as [c|] eqn:Hc; [|done].
  intros Hr. split; [done|]. split; [done|]. exists p, c. split; [exact Hp|]. split; [exact Hc|].
  apply ParseGTIDSet_raw in Hp as [Gp _]. apply ParseGTIDSet_raw in Hc as [Gc _].
  destruct (CompareGTIDSets_spec p c Gp Gc) as [[_ Hq]|[_ Hq]]; rewrite Hq in Hr; [|done]. cbn [ErrantTransactions] in Hr.
  destruct (Z.eqb_spec (diff_size c p) 0) as [Hz|_].
  - intros t Ht. left. revert t Ht. by apply diff_size_zero.
  - destruct (HasOnlyAdditions_spec p c (server_uuid (inst_EngineIdentity primary)) Gp Gc) as (b & Hb & Hiff). rewrite Hb in Hr.
    apply Hiff in Hr as [_ Hadd]. intros t Ht. destruct (decide (gtid_in p t)) as [|Hn]; [by left|right; by apply Hadd].
Qed.

(** The target answered that it is the planned instance, fully read-only, and that its replication is safe. *)
Definition target_checked (resolved : MySQLOperation) (t : list event) : Prop :=
  let T := instanceEndpoint (mo_Target resolved) in
  ∃ identity replication,
    occurs (answered T identityQuery (λ r, identity_of r = Ok identity)) t ∧
    replication_answered T (replication, true) t ∧
    ip_serverUUID identity = server_uuid (inst_EngineIdentity (mo_Target resolved)) ∧ fenced_identity identity = true ∧
    repl_SQLThread replication = ThreadRunning ∧
    server_uuid (repl_SourceIdentity replication) = server_uuid (inst_EngineIdentity (mo_Primary resolved)) ∧
    continues (mo_Primary resolved) (repl_ExecutedPosition replication).
Definition promotable (resolved : MySQLOperation) (t : list event) : Prop :=
  target_checked resolved t ∨ occurs (step_known "promote_failover_target") t.
Definition checked_first (resolved : MySQLOperation) (t : list event) (c : mysql_action) : Prop := enables c → promotable resolved t.
Lemma promotable_prefix resolved t t' : t `prefix_of` t' → promotable resolved t → promotable resolved t'.
Proof.
  intros Hp [(identity & replication & H1 & H2 & H3)|H]; [left|right; by eapply occurs_prefix].
  exists identity, replication. split; [by eapply occurs_prefix|]. split; [by eapply occurs_prefix|exact H3].
Qed.

Section history.
Variables (PlanSHA256 : OperationPlan → string) (FormatTime : Time → string) (a : Adapter).
Variables (request : OperationRequest) (resolved : MySQLOperation).
Let T := instanceEndpoint (mo_Target resolved).
Notation wp := (wp remember (checked_first resolved)).
Lemma wp_tame {A} (p : prog A) t : harmless p → wp p (λ _ t', t `prefix_of` t') t.
Proof. intros Hp. apply wp_grows. eapply all_calls_mono; [|exact Hp]. intros c Hc t' He. by destruct (Hc He). Qed.
(** Everything is allowed once the target has been checked. *)
Lemma wp_promotable {A} (p : prog A) t : promotable resolved t → wp p (λ _ t', promotable resolved t') t.
Proof.
  apply (wp_all_calls (Sg:=mysql_signature) _ _ (λ _, True) (promotable resolved)).
  - induction p as [b|c k IH]; [exact I|]. split; [exact I|]. exact IH.
  - intros c t' _ Ht'. split; [by intros _|]. intros x. eapply promotable_prefix; [|exact Ht']. by eexists.
Qed.
Lemma wp_post_promotable {E A} (p : prog (result E A)) t : promotable resolved t → wp p (post (λ _ t', promotable resolved t') (λ _ _, True)) t.
Proof. intros Hp. eapply wp_mono; [|by apply wp_promotable]. by intros [b|e]. Qed.
Lemma wp_after_tame {E F A B} (p : prog (result E A)) (f : E → prog (result F A)) (g : A → prog (result F B)) t :
  harmless p → (∀ e, harmless (f e)) → (∀ b t', t `prefix_of` t' → wp (g b) (post (λ _ _, True) (λ _ _, True)) t') →
  wp (ebind (on_error p f) g) (post (λ _ _, True) (λ _ _, True)) t.
Proof.
  intros Hp Hf Hg. apply wp_ebind. eapply wp_mono; [|apply wp_tame; apply all_calls_on_error; [exact Hp|exact Hf]].
  intros [b|e] t' Ht; [by apply Hg|exact I].
Qed.

Lemma wp_deferring (p : prog outcome) t : wp p (post (λ _ _, True) (λ _ _, True)) t → wp (deferring_cancel p) (post (λ _ _, True) (λ _ _, True)) t.
Proof. intros Hp. apply wp_bind. eapply wp_mono; [|exact Hp]. intros r t' _. split; [intros []|]. intros []. by destruct r. Qed.
Lemma checked_silent t c : silent c → checked_first resolved t c.
Proof. intros Hc He. destruct Hc. by destruct c. Qed.
Definition target_seen (t : list event) (found : failover_target) : Prop :=
  occurs (answered T identityQuery (λ r, identity_of r = Ok (ft_identity found))) t ∧
  replication_answered T (ft_replication found, ft_configured found) t ∧
  ip_serverUUID (ft_identity found) = server_uuid (inst_EngineIdentity (mo_Target resolved)).
Lemma wp_seen ctx t : wp (failover_inspect resolved ctx) (post (λ found t', target_seen t' found) (λ _ _, True)) t.
Proof.
  unfold failover_inspect. apply wp_ebind, wp_on_error. unfold probeIdentity. split; [intros []|]. intros r. cbn [pbind].
  destruct (identity_of r) as [identity|e] eqn:Hid; cbn [wp post]; [|done].
  set (t1 := remember t _). assert (occurs (answered T identityQuery (λ r, identity_of r = Ok identity)) t1) as Hseen.
  { apply occurs_more. right. by exists ctx, (mo_Credentials resolved), r. }
  clearbody t1. apply wp_ebind, wp_ensure; [intros Hu|done]. apply wp_ebind, wp_ensure; [intros _|done].
  destruct (dialectForVersion (ip_version identity)) as [dialect|]; [|done].
  apply wp_ebind, wp_on_error. eapply wp_mono; [|apply wp_replication; exact checked_silent]. intros [[replication configured]|e] t2; cbn; [|done].
  intros [Hp Hrep]. split; [by eapply occurs_prefix|]. split; [exact Hrep|]. by repeat bsimpl_step.
Qed.
Lemma wp_known ctx t :
  wp (operationStepCompleted ctx request "promote_failover_target")
    (post (λ done t', done = true → occurs (step_known "promote_failover_target") t') (λ _ _, True)) t.
Proof.
  unfold operationStepCompleted. destruct (or_Progress request); [done|done|]. split; [intros []|]. intros [[]|e]; [|done|done].
  intros _. apply occurs_more. right. by exists ctx.
Qed.
Lemma harmless_isolate ctx : harmless (failover_isolate request resolved ctx).
Proof. unfold failover_isolate. harmless_calls. Qed.
Lemma harmless_authorize ctx r : harmless (authorizeEndpointTransition ctx request r).
Proof. unfold authorizeEndpointTransition. harmless_calls. Qed.
Lemma wp_checked_detach ctx done found t : target_seen t found → (done = true → occurs (step_known "promote_failover_target") t) →
  wp (failover_detach resolved ctx done found) (post (λ _ t', promotable resolved t') (λ _ _, True)) t.
Proof.
  intros (H1 & H2 & H3) Hd. destruct done; [apply wp_post_promotable; right; by apply Hd|]. unfold failover_detach.
  apply wp_ebind, wp_ensure; [intros [Hf Hc]%andb_prop|done]. apply wp_ebind, wp_ensure; [intros Hs|done].
  apply wp_post_promotable. apply safe_live_spec in Hs as (Hs1 & Hs2 & Hs3). rewrite Hc in H2.
  left. exists (ft_identity found), (ft_replication found). by split_and!.
Qed.
Lemma wp_checked_run ctx t : wp (failover_run PlanSHA256 FormatTime a request resolved ctx) (post (λ _ _, True) (λ _ _, True)) t.
Proof.
  unfold failover_run. apply wp_after_tame; [auto with calls|intros e; exact I|]. intros completed t1 _. destruct completed.
  { eapply wp_mono; [|apply wp_tame]; [by intros []|]. unfold failover_verify_again. apply all_calls_bind; [apply observes_harmless; auto with calls|]. intros v. by case_match. }
  apply wp_ebind. eapply wp_mono; [|apply wp_tame, harmless_isolate]. intros [[]|f] t2 _; [|exact I]. cbn [post].
  apply wp_ebind, wp_on_error. eapply wp_mono; [|apply wp_known]. intros [done|e] t3 Hd; [|exact I]. cbn [post].
  apply wp_ebind. eapply wp_mono; [|apply wp_both; [apply (wp_seen ctx t3)|apply wp_tame, observes_harmless, observes_inspect]].
  intros [found|f] t4 [Hs Hp4]; [|exact I]. cbn [post] in *.
  assert (done = true → occurs (step_known "promote_failover_target") t4) as Hd4 by (intros Ht; eapply occurs_prefix; [exact Hp4|by apply Hd]).
  apply wp_after_tame; [apply harmless_authorize|intros e; exact I|]. intros _ t5 Hp5.
  assert (target_seen t5 found) as Hs5.
  { destruct Hs as (H1 & H2 & H3). split; [by eapply occurs_prefix|]. split; [by eapply occurs_prefix|exact H3]. }
  apply wp_deferring.
  apply wp_ebind. eapply wp_mono; [|apply wp_checked_detach; [exact Hs5|intros Ht; eapply occurs_prefix; [exact Hp5|by apply Hd4]]].
  intros [[]|f] t6 Hp; [|exact I]. cbn [post] in *. eapply wp_mono; [|by apply wp_promotable]. by intros [].
Qed.
Lemma wp_checked_execute t : or_Resolved request = Some resolved →
  wp (failoverExecute PlanSHA256 FormatTime a request) (post (λ _ _, True) (λ _ _, True)) t.
Proof.
  intros Hr. unfold failoverExecute. destruct (ad_executor a); cbn [negb]; [|exact I]. split; [intros []|]. intros executable.
  cbn [pbind]. destruct executable; cbn [negb]; [|exact I].
  rewrite Hr. destruct (validateMySQLPlan _ _ request _ _) as [[]|e]; [apply wp_checked_run|exact I].
Qed.
End history.

(** ** What every execution does *)

(** A failover makes an instance writable only when it is safe.  Each
    statement of an execution that turns [read_only] off is sent to the target,
    and before it the transition lease was granted, the safety provider
    confirmed that the old primary is fenced, and either the durable progress
    says that this operation has promoted the target before, or the target
    answered that it is the planned instance, fully read-only, a replica of the
    failed primary that applies without error, and that all it has executed are
    transactions of the failed primary. *)
Lemma failover_promotes_isolated PlanSHA256 FormatTime a request resolved t out before ctx endpoint cr x after :
  or_Resolved request = Some resolved → runs (failoverExecute PlanSHA256 FormatTime a request) t out →
  t = before ++ existT (Exec ctx endpoint cr setReadOnlyOff) x :: after →
  endpoint = instanceEndpoint (mo_Target resolved) ∧ occurs granted before ∧ occurs isolation_answered before ∧ promotable resolved before.
Proof.
  intros Hr Hrun Ht. set (S := instanceEndpoint (mo_Primary resolved)). set (T := instanceEndpoint (mo_Target resolved)).
  destruct (wp_sound _ _ _ _ _ _ _ (wp_failover_execute PlanSHA256 FormatTime a request resolved Hr) Hrun) as [Hal _].
  destruct (Hal _ _ _ Ht eq_refl) as (He & Ha & Hi).
  destruct (wp_sound _ _ _ _ _ _ _ (wp_checked_execute PlanSHA256 FormatTime a request resolved [] Hr) Hrun) as [Hch _].
  pose proof (Hch _ _ _ Ht eq_refl) as Hp. rewrite watch_remember in Hp.
  split; [exact He|]. split; [exact (meant_authorized _ _ _ _ (watch_meant S T before) Ha)|].
  split; [exact (watch_isolated S T before Hi)|exact Hp].
Qed.

(** C20: what the outcome of a failover says, for every execution.  Success:
    the transition lease was granted, the old primary is confirmed fenced and
    the target's lease is stable, or this execution changed nothing.  Failure:
    [pre_commit] and [fenced] mean that whenever the target was told to accept
    writes it was fenced again afterwards; and a target that was told to accept
    writes was fenced again, or that was tried, or its lease is stable, unless
    semi-synchronous replication is required and the operation's progress could
    not be recorded. *)
Theorem failover_outcome_true PlanSHA256 FormatTime a request resolved t out :
  or_Resolved request = Some resolved → runs (failoverExecute PlanSHA256 FormatTime a request) t out →
  let T := instanceEndpoint (mo_Target resolved) in
  match out with
  | Ok _ => (occurs granted t ∧ occurs isolation_answered t ∧ occurs lease_stable t) ∨ unchanged (instanceEndpoint (mo_Primary resolved)) t
  | Err f => ∀ t1 e t2, t = t1 ++ e :: t2 → enabling T e →
      (xf_class f = "pre_commit" ∨ xf_class f = "fenced" → refenced T t2) ∧
      (refenced T t2 ∨ occurs (fence_tried T) t2 ∨ occurs lease_stable t ∨ (ad_semiSyncRequired a = true ∧ occurs unrecorded t))
  end.
Proof.
  intros Hr Hrun. cbn zeta. set (S := instanceEndpoint (mo_Primary resolved)). set (T := instanceEndpoint (mo_Target resolved)).
  destruct (wp_sound _ _ _ _ _ _ _ (wp_failover_execute PlanSHA256 FormatTime a request resolved Hr) Hrun) as [_ H].
  destruct out as [message|f].
  - destruct H as [[[Ha Hi] Hf]|Hm]; [left|right; exact (watch_unchanged S T t Hm)].
    split; [exact (meant_authorized _ _ _ _ (watch_meant S T t) Ha)|]. split; [exact (watch_isolated S T t Hi)|exact (watch_finalized S T t Hf)].
  - destruct H as [Hd He]. intros t1 e t2 Heq Hen. destruct (watch_meant_target S T t t1 e t2 Heq Hen) as [Hre|(Hon & _ & Htr)]; [by auto|]. split.
    + intros Hc. discriminate (eq_trans (eq_sym Hon) (Hd Hc)).
    + right. destruct (He Hon) as [Ht|[Hf|[Hs Hu]]]; [left; exact (Htr Ht)|right; left; exact (watch_finalized S T t Hf)|right; right].
      split; [exact Hs|exact (watch_unrecorded S T t Hu)].
Qed.

(** ** Concrete executions *)

Definition wfo_resolved : MySQLOperation := sim_resolved HealthUnhealthy.
Definition wfo_request (a : Adapter) : OperationRequest := sim_request OperationFailover wfo_resolved (failover_steps a wfo_resolved).
Definition wfo_program (a : Adapter) : prog outcome := failoverExecute sim_digest sim_format a (wfo_request a).
(** The primary answers nothing; and the progress of a follower cannot be recorded either. *)
Definition primary_down (c : mysql_action) : bool := match c with Query _ endpoint _ _ => endpoint == sim_source | _ => false end.
Definition unrecorded_follower (c : mysql_action) : bool :=
  match c with CompleteStep _ step _ => HasPrefix step "reparent_failover_follower_" | _ => primary_down c end.
Definition wfo_durable : Adapter := RequireSemiSync true sim_adapter.

(** The trace from the first statement that makes an instance writable. *)
Fixpoint from_enabling (t : list event) : list event :=
  match t with [] => [] | e :: t => if is_enabling e then e :: t else from_enabling t end.
Lemma from_enabling_split t e t2 : from_enabling t = e :: t2 → ∃ t1, t = t1 ++ e :: t2 ∧ is_enabling e = true.
Proof.
  induction t as [|e' t IH]; [done|]. cbn. destruct (is_enabling e') eqn:He; [intros [= <- <-]; by exists []|].
  intros (t1 & -> & Hx)%IH. by exists (e' :: t1).
Qed.
(** An event that neither fences the target nor makes its lease stable. *)
Definition idle (e : event) : bool :=
  match e with
  | existT (Exec _ endpoint _ statement) _ => negb ((endpoint == sim_target) && (statement == setSuperReadOnlyOn))
  | existT (Query _ endpoint _ query) r => negb ((endpoint == sim_target) && (query == identityQuery) && fenced_answer r)
  | existT (FinalizeTransition _) r => negb (is_ok r)
  | _ => true
  end.
Lemma idle_never t : forallb idle t = true →
  ¬ refenced sim_target t ∧ ¬ occurs (fence_tried sim_target) t ∧ ¬ occurs lease_stable t.
Proof.
  intros Ht. assert (∀ e, e ∈ t → idle e = true) as Hi by (intros e He; eapply forallb_forall; [exact Ht|by apply list_elem_of_In]).
  assert (¬ occurs (fence_tried sim_target) t) as Hf.
  { intros (e & He & ctx & cr & x & ->). apply Hi in He. by cbn in He. }
  split; [|split; [exact Hf|intros (e & He & ctx & ->); apply Hi in He; by cbn in He]].
  intros [(t1 & e & t2 & -> & (ctx & cr & ->) & _)|(e & He & ctx & cr & r & -> & Hr)].
  - apply Hf. exists (existT (Exec ctx sim_target cr setSuperReadOnlyOn) (Ok tt)). split; [set_solver|]. by eexists _, _, _.
  - apply Hi in He. cbn in He. by rewrite Hr in He.
Qed.


Lemma failover_outcome_true_witness :
  (simulate primary_down (wfo_program sim_adapter)).2 = Ok "MySQL failover completed; verification is required" ∧
  ((occurs granted (simulate primary_down (wfo_program sim_adapter)).1 ∧ occurs isolation_answered (simulate primary_down (wfo_program sim_adapter)).1 ∧
    occurs lease_stable (simulate primary_down (wfo_program sim_adapter)).1) ∨
   unchanged sim_source (simulate primary_down (wfo_program sim_adapter)).1).
Proof.
  assert (Hf : (simulate primary_down (wfo_program sim_adapter)).2 = Ok "MySQL failover completed; verification is required")
    by (vm_compute; reflexivity).
  pose proof (simulate_runs primary_down (wfo_program sim_adapter)) as Hrun. rewrite Hf in Hrun.
  split; [exact Hf|]. exact (failover_outcome_true sim_digest sim_format sim_adapter (wfo_request sim_adapter) wfo_resolved _ _ eq_refl Hrun).
Defined.
