(* ===== verification/Resumption.v ===== *)
(** * An operation that succeeds has recorded its whole plan

    The steps that [switchoverExecute] and [failoverExecute] record are those
    that the plans announce as mutating, so that an execution that is repeated
    finds them complete and only verifies. *)
From S2P Require Import Prelude GoStd Model Interfaces Candidates Program MySQLAdapter MySQLPlans SimulatedMySQL Promotion History Switchover Failover SwitchoverSafety FailoverSafety.
#[local] Open Scope Z_scope.

Ltac failing := unfold executionFailure, fail; repeat (apply fails_bind; intros ?); repeat case_match; apply fails_ret.
Lemma fails_unverified {A} resolved ctx cause : fails (fence_unverified (A:=A) resolved ctx cause).
Proof. unfold fence_unverified. failing. Qed.
Lemma fails_promotion {A} resolved ctx cause : fails (fence_promotion (A:=A) resolved ctx cause).
Proof. unfold fence_promotion. failing. Qed.
Lemma fails_unpublished {A} resolved published ctx cause : fails (fence_unpublished (A:=A) resolved published ctx cause).
Proof. unfold fence_unpublished. destruct published; [failing|apply fails_unverified]. Qed.
Lemma fails_before {A} a request resolved ctx cause : fails (failBeforeCandidatePromotion (A:=A) a request resolved ctx cause).
Proof. unfold failBeforeCandidatePromotion. failing. Qed.
Lemma fails_execution {A} status class cause : fails (executionFailure (A:=A) status class cause).
Proof. apply fails_ret. Qed.
Create HintDb records.
#[export] Hint Resolve fails_unverified fails_promotion fails_unpublished fails_before fails_execution records_complete records_nothing records_authorize : records.
(** A step that is recorded at the end of a phase, by a program that fails when it cannot. *)
Ltac recording := first [solve [eauto with records nocore] | apply records_or; [recording|intros ?; recording]
  | apply records_fails; solve [eauto with records nocore]].

Lemma records_deferring request {E A} (p : prog (result E A)) steps : records request p steps → records request (deferring_cancel p) steps.
Proof.
  intros Hp t. apply wp_bind. eapply wp_mono; [|apply Hp]. intros [a|e] t' Ht'; (split; [exact I|]); intros []; [|exact I]. cbn [wp post].
  eapply all_recorded_prefix; [|exact Ht']. by eexists.
Qed.

(** ** The names of a plan's mutating steps *)

Definition steady (step : Z → PlanStep) : Prop := ∀ i, step_Name (step i) = step_Name (step 0) ∧ step_Mutating (step i) = step_Mutating (step 0).
Lemma numbered_names steps : Forall steady steps → mutating_names (numbered steps) = mutating_names ((λ step, step 0) <$> steps).
Proof.
  intros Hs. unfold numbered. assert (∀ (g : nat → Z), mutating_names (imap (λ i step, step (g i)) steps) = mutating_names ((λ step, step 0) <$> steps)) as H.
  { induction Hs as [|step steps Hstep _ IH]; intros g; [done|]. unfold mutating_names in *. cbn [imap fmap list_fmap List.filter].
    destruct (Hstep (g O)) as [Hn Hm]. rewrite Hm. specialize (IH (g ∘ S)).
    unfold compose in *. destruct (step_Mutating (step 0)); cbn [fmap list_fmap]; [rewrite Hn; f_equal|]; exact IH. }
  apply (H (λ i, Z.of_nat i + 1)).
Qed.
Lemma mutating_names_app l l' : mutating_names (l ++ l') = mutating_names l ++ mutating_names l'.
Proof. unfold mutating_names. by rewrite List.filter_app, fmap_app. Qed.
(** The steps that change the followers, one each. *)
Lemma mutating_names_each {A} (step : A → PlanStep) (name : A → string) l : (∀ a, step_Name (step a) = name a ∧ step_Mutating (step a) = true) →
  mutating_names (step <$> l) = name <$> l.
Proof.
  intros Hs. induction l as [|a l IH]; [done|]. unfold mutating_names in *. cbn [fmap list_fmap List.filter]. destruct (Hs a) as [Hn ->].
  cbn [fmap list_fmap]. rewrite Hn. f_equal. exact IH.
Qed.

Section switchover.
Variables (PlanSHA256 : OperationPlan → string) (FormatTime : Time → string) (a : Adapter).
Variables (request : OperationRequest) (resolved : MySQLOperation).
Notation records := (records request).

Definition switchover_names : list string :=
  ["authorize_target_transition"; "fence_source"; "stop_target_replication"; "promote_target"] ++ (reparent_step <$> switchover_followers resolved) ++
  (if ad_semiSyncRequired a then ["activate_semisync_source"] else []) ++ ["transfer_writer_endpoint"; "retain_source_read_only"].
Lemma switchover_names_spec : mutating_names (switchover_steps a resolved) = switchover_names.
Proof.
  unfold switchover_steps. rewrite numbered_names.
  - rewrite !fmap_app, !mutating_names_app. unfold switchover_names. f_equal. f_equal; [|by destruct (ad_semiSyncRequired a)].
    rewrite <- list_fmap_compose. by apply mutating_names_each.
  - repeat (apply Forall_app; split); [by repeat constructor|by apply Forall_fmap, Forall_true|by destruct (ad_semiSyncRequired a); repeat constructor|by repeat constructor].
Qed.

Lemma records_detach ctx : records (switchover_detach a request resolved ctx) ["stop_target_replication"].
Proof. apply records_then. intros probed. apply records_then. intros _. recording. Qed.
Lemma records_promote ctx : records (switchover_promote a request resolved ctx) ["promote_target"].
Proof.
  apply records_then. intros writable. apply records_then. intros _. apply records_bind. intros [[]|e]; recording.
Qed.
Lemma records_reparent ctx follower : records (switchover_reparent a request resolved ctx follower) [reparent_step follower].
Proof. apply records_unless; [intros e; apply fails_unverified|]. apply records_then. intros _. recording. Qed.
Lemma records_semisync ctx :
  records (switchover_semisync a request resolved ctx) (if ad_semiSyncRequired a then ["activate_semisync_source"] else []).
Proof.
  unfold switchover_semisync. destruct (ad_semiSyncRequired a); [|apply records_nothing].
  apply records_unless; [intros e; apply fails_unverified|]. apply records_then. intros _. recording.
Qed.
Lemma records_endpoint ctx : records (switchover_endpoint request resolved ctx) ["transfer_writer_endpoint"; "retain_source_read_only"].
Proof.
  apply records_bind. intros evidence. apply records_then. intros _. apply records_then. intros _.
  apply (records_ebind request _ _ ["transfer_writer_endpoint"] ["retain_source_read_only"]); [recording|]. intros _. recording.
Qed.
Lemma records_transition fenced ctx : records (switchover_transition a request resolved fenced ctx) (drop 1 switchover_names).
Proof.
  unfold switchover_names. cbn [drop app]. apply records_then. intros _.
  apply (records_ebind request _ _ ["fence_source"] _); [recording|]. intros _. apply records_then. intros _.
  apply (records_ebind request _ _ ["stop_target_replication"] _); [apply records_detach|]. intros _.
  apply (records_ebind request _ _ ["promote_target"] _); [apply records_promote|]. intros _.
  apply records_ebind; [apply records_each; intros follower; apply records_reparent|]. intros _.
  apply records_ebind; [apply records_semisync|]. intros _.
  apply records_then_nothing, records_endpoint.
Qed.

(** The progress an execution has recorded when it succeeds: its plan's steps, those of the plan that it was given. *)
Definition plan_recorded (names : list string) (t : list event) : Prop :=
  all_recorded request names t ∨ ∃ plan, or_Plan request = Some plan ∧ all_recorded request (mutating_names (plan_Steps plan)) t.
(** Both operations begin by asking whether there is anything left to do. *)
Lemma run_unless_complete ctx (f : string → prog (result execution_failure bool)) (again rest : prog outcome) names t :
  (∀ e, fails (f e)) → records rest names →
  run (ebind (on_error (allMutationStepsCompleted ctx request) f) (λ completed, if completed : bool then again else rest))
    (post (λ _, plan_recorded names) (λ _ _, True)) t.
Proof.
  intros Hf Hrest. apply wp_ebind, wp_on_error. eapply wp_mono; [|apply run_all_mutations].
  intros [[]|e] t' Ht'; cbn [post]; [| |by apply run_fails].
  - eapply wp_mono; [|apply run_grows]. intros [m|e] t'' Hp; [|done]. destruct (Ht' eq_refl) as (plan & Hplan & Hr). right. exists plan.
    split; [exact Hplan|by eapply all_recorded_prefix].
  - eapply wp_mono; [|apply Hrest]. intros [m|e] t''; [by left|done].
Qed.
Lemma switchover_recorded_wp t : or_Resolved request = Some resolved →
  run (switchoverExecute PlanSHA256 FormatTime a request) (post (λ _, plan_recorded switchover_names) (λ _ _, True)) t.
Proof.
  intros Hr. unfold switchoverExecute. case_match; [done|]. split; [exact I|]. intros executable. cbn [pbind].
  destruct executable; cbn [negb]; [|done]. rewrite Hr. destruct (validateExecutionPlan _ _ request) as [[]|e]; [|done].
  split; [exact I|]. intros [[]|e]; [|done]. cbn [pbind]. apply run_unless_complete; [intros e; apply fails_execution|].
  apply records_then. intros fenced. unfold switchover_names at 1.
  apply (records_ebind request _ _ ["authorize_target_transition"] (drop 1 switchover_names)).
  - apply records_or; [apply records_authorize|]. intros e. destruct fenced; apply fails_execution.
  - intros _. apply records_deferring, records_transition.
Qed.
End switchover.

Section failover.
Variables (PlanSHA256 : OperationPlan → string) (FormatTime : Time → string) (a : Adapter).
Variables (request : OperationRequest) (resolved : MySQLOperation).
Notation records := (records request).

Definition failover_followers : list string := failover_reparent_step <$> eligibleFailoverFollowers resolved.
Definition failover_names : list string :=
  ["fence_old_primary"; "authorize_target_transition"; "promote_failover_target"] ++
  if ad_semiSyncRequired a then failover_followers ++ ["activate_failover_semisync_source"; "transfer_failover_endpoint"]
  else ["transfer_failover_endpoint"] ++ failover_followers.
Lemma failover_names_spec : mutating_names (failover_steps a resolved) = failover_names.
Proof.
  unfold failover_steps. rewrite numbered_names.
  - rewrite !fmap_app, !mutating_names_app, <- list_fmap_compose. unfold failover_names, failover_followers.
    rewrite (mutating_names_each _ failover_reparent_step) by done. destruct (ad_semiSyncRequired a); cbn; rewrite ?app_nil_r; done.
  - repeat (apply Forall_app; split); [by repeat constructor|by destruct (ad_semiSyncRequired a); repeat constructor|
      by apply Forall_fmap, Forall_true|by destruct (ad_semiSyncRequired a); repeat constructor|by repeat constructor].
Qed.

Lemma records_isolate ctx : records (failover_isolate request resolved ctx) ["fence_old_primary"].
Proof.
  apply records_then. intros _. apply records_unless; [intros e; apply fails_execution|].
  apply records_then. intros _. apply records_bind. intros check. apply records_then. intros _. recording.
Qed.
Lemma records_failover_promote ctx : records (failover_promote request resolved ctx) ["promote_failover_target"].
Proof. apply records_then. intros writable. apply records_then. intros _. apply records_bind. intros [[]|e]; recording. Qed.
Lemma records_transfer ctx : records (failover_transfer request resolved ctx) ["transfer_failover_endpoint"].
Proof. apply records_then. intros _. apply records_bind. intros check. do 2 (apply records_then; intros _). recording. Qed.
Lemma records_failover_reparent published ctx follower :
  records (failover_reparent a request resolved published ctx follower) [failover_reparent_step follower].
Proof. apply records_unless; [intros e; apply fails_unpublished|]. apply records_then. intros _. recording. Qed.
Lemma records_failover_semisync ctx version :
  records (failover_semisync request resolved ctx version) ["activate_failover_semisync_source"].
Proof. apply records_unless; [intros e; apply fails_unverified|]. apply records_then. intros _. recording. Qed.
Lemma records_publish ctx version : records (failover_publish a request resolved ctx version) (drop 3 failover_names).
Proof.
  unfold failover_publish, failover_names. cbn [drop app]. change (eligibleFailoverFollowers (isolated_source resolved)) with (eligibleFailoverFollowers resolved).
  destruct (ad_semiSyncRequired a).
  - apply records_ebind; [apply records_each; intros follower; apply records_failover_reparent|]. intros _.
    apply (records_ebind request _ _ ["activate_failover_semisync_source"] ["transfer_failover_endpoint"]);
      [apply records_failover_semisync|intros _; apply records_transfer].
  - apply (records_ebind request _ _ ["transfer_failover_endpoint"]); [apply records_transfer|]. intros _.
    apply records_each. intros follower. apply records_failover_reparent.
Qed.
Lemma failover_recorded_wp t : or_Resolved request = Some resolved →
  run (failoverExecute PlanSHA256 FormatTime a request) (post (λ _, plan_recorded request failover_names) (λ _ _, True)) t.
Proof.
  intros Hr. unfold failoverExecute. destruct (ad_executor a); cbn [negb]; [|done]. split; [exact I|]. intros executable. cbn [pbind].
  destruct executable; cbn [negb]; [|done]. rewrite Hr. destruct (validateMySQLPlan _ _ request _ _) as [[]|e]; [|done].
  apply run_unless_complete; [intros e; apply fails_execution|]. unfold failover_names.
  apply (records_ebind request _ _ ["fence_old_primary"]); [apply records_isolate|]. intros _. do 2 (apply records_then; intros ?).
  apply (records_ebind request _ _ ["authorize_target_transition"]).
  - apply records_or; [apply records_authorize|]. intros e. apply fails_execution.
  - intros _. apply records_deferring. apply records_then. intros _.
    apply (records_ebind request _ _ ["promote_failover_target"]); [apply records_failover_promote|]. intros _.
    apply records_then_nothing, records_publish.
Qed.
End failover.

(** ** What the plans and the executions have in common *)

(** C31: the planned switchover and the failover do what their plans announce.
    An execution of either that reports success has recorded every step that
    the plan of the operation announces as mutating (the follower of each
    reparenting step included, in whatever order they are made), or it was told
    that they are recorded; or there is no progress to record in.  Otherwise
    all mutating steps of the plan it was given were recorded before. *)
Theorem success_records_plan PlanSHA256 FormatTime a request resolved t message :
  or_Resolved request = Some resolved →
  (runs (switchoverExecute PlanSHA256 FormatTime a request) t (Ok message) →
   plan_recorded request (mutating_names (switchover_steps a resolved)) t) ∧
  (runs (failoverExecute PlanSHA256 FormatTime a request) t (Ok message) →
   plan_recorded request (mutating_names (failover_steps a resolved)) t).
Proof.
  intros Hr. rewrite switchover_names_spec, failover_names_spec. split; intros Hrun.
  - destruct (wp_sound _ _ _ _ _ _ _ (switchover_recorded_wp PlanSHA256 FormatTime a request resolved [] Hr) Hrun) as [_ H].
    by rewrite watch_remember in H.
  - destruct (wp_sound _ _ _ _ _ _ _ (failover_recorded_wp PlanSHA256 FormatTime a request resolved [] Hr) Hrun) as [_ H].
    by rewrite watch_remember in H.
Qed.

Lemma success_records_plan_witness :
  plan_recorded (wfo_request sim_adapter) (mutating_names (failover_steps sim_adapter wfo_resolved))
    (simulate primary_down (wfo_program sim_adapter)).1.
Proof.
  assert (Hf : (simulate primary_down (wfo_program sim_adapter)).2 = Ok "MySQL failover completed; verification is required")
    by (vm_compute; reflexivity).
  pose proof (simulate_runs primary_down (wfo_program sim_adapter)) as Hrun. rewrite Hf in Hrun.
  exact (proj2 (success_records_plan sim_digest sim_format sim_adapter (wfo_request sim_adapter) wfo_resolved _ _ eq_refl) Hrun).
Defined.
