(* ===== verification/MySQLSafety.v ===== *)
(** * What the MySQL operations may do to the instances

    A former primary is attached only when it is safe; a repair starts at most
    one replication thread; and whatever the kind of an operation, only a
    switchover or a failover makes an instance writable, and only its target. *)
From S2P Require Import Prelude GoStd Model Gtid Interfaces Candidates Program MySQLAdapter MySQLPlans SimulatedMySQL Promotion History Switchover Failover MySQLOperations SwitchoverSafety FailoverSafety.

(** Statements go to one instance only. *)
Definition only_at (endpoint : SQLEndpoint) (c : mysql_action) : Prop := match c with Exec _ e _ _ => e = endpoint | _ => True end.
Lemma observes_only {A} endpoint (p : prog A) : observes p → all_calls (only_at endpoint) p.
Proof. apply all_calls_mono. intros [] Hc; try done. by destruct Hc. Qed.
#[export] Hint Extern 5 (all_calls (only_at _) _) => apply observes_only; auto with calls nocore; fail : calls.
Lemma only_reparent a ctx follower target ad re : all_calls (only_at (instanceEndpoint follower)) (reparentFollower a ctx follower target ad re).
Proof. unfold reparentFollower. unfold perform, fail, proceed, returning. calls. Qed.

(** ** Attaching a former primary *)

(** The endpoint's provider answered nothing that speaks against the former primary. *)
Definition endpoint_safe (e : event) : Prop :=
  (∃ ctx resolved checks, e = existT (FormerPrimaryPrecheck ctx resolved) (Some checks) ∧ checks ≠ [] ∧
     ∀ check, check ∈ checks → check_Status check ≠ CheckFail) ∨
  (∃ ctx resolved checks, e = existT (EndpointPrecheck ctx resolved) checks ∧ rejoinEndpointSafe checks = true).
(** The current primary answered that it is writable and the former one that it is not, each with its recorded identity;
    the current one has executed all that the former one has, and has kept all that the former one lacks. *)
Definition attachable (resolved : MySQLOperation) (t : list event) : Prop :=
  ∃ primary former current purged executed,
    occurs (answered (instanceEndpoint (mo_Primary resolved)) identityQuery (λ r, identity_of r = Ok primary)) t ∧
    occurs (answered (instanceEndpoint (mo_Target resolved)) identityQuery (λ r, identity_of r = Ok former)) t ∧
    ip_serverUUID primary = ToLower (mget (inst_EngineIdentity (mo_Primary resolved)) "server_uuid") ∧
    ip_serverUUID former = ToLower (mget (inst_EngineIdentity (mo_Target resolved)) "server_uuid") ∧
    writable_identity primary = true ∧ fenced_identity former = true ∧
    ParseGTIDSet (ip_gtidExecuted primary) = Ok current ∧ ParseGTIDSet (ip_gtidPurged primary) = Ok purged ∧
    ParseGTIDSet (ip_gtidExecuted former) = Ok executed ∧
    (∀ g, gtid_in executed g → gtid_in current g) ∧ (∀ g, gtid_in purged g → gtid_in executed g) ∧
    occurs endpoint_safe t.
Lemma attachable_prefix resolved t t' : t `prefix_of` t' → attachable resolved t → attachable resolved t'.
Proof.
  intros Hp (primary & former & current & purged & executed & H1 & H2 & H3 & H4 & H5 & H6 & H7 & H8 & H9 & H10 & H11 & H12).
  exists primary, former, current, purged, executed. split_and!; try done; by eapply occurs_prefix.
Qed.
Lemma assess_former_spec executed purged former assessment :
  assessFormerPrimaryGTID executed purged former = Ok assessment → ra_FastRejoinSafe assessment = true →
  ∃ c p f, ParseGTIDSet executed = Ok c ∧ ParseGTIDSet purged = Ok p ∧ ParseGTIDSet former = Ok f ∧
    (∀ g, gtid_in f g → gtid_in c g) ∧ (∀ g, gtid_in p g → gtid_in f g).
Proof.
  unfold assessFormerPrimaryGTID. intros H Hs. apply result_bind_ok in H as (c & Hc & H). apply result_bind_ok in H as (p & Hp & H).
  apply result_bind_ok in H as (f & Hf & H). exists c, p, f. split; [exact Hc|]. split; [exact Hp|]. split; [exact Hf|].
  apply ParseGTIDSet_raw in Hc as [Gc _]. apply ParseGTIDSet_raw in Hp as [Gp _]. apply ParseGTIDSet_raw in Hf as [Gf _].
  pose proof (AssessGTIDRecovery_spec c p f Gc Gp Gf) as Ha. rewrite H in Ha. destruct Ha as (_ & Hiff & _). by apply Hiff.
Qed.

Definition attach_only (resolved : MySQLOperation) (t : list event) (c : mysql_action) : Prop :=
  match c with Exec _ endpoint _ _ => endpoint = instanceEndpoint (mo_Target resolved) ∧ attachable resolved t | _ => True end.
Section rejoin.
Variables (PlanSHA256 : OperationPlan → string) (FormatTime : Time → string) (a : Adapter).
Variables (request : OperationRequest) (resolved : MySQLOperation).
Notation wp := (wp remember (attach_only resolved)).
Notation anything := (post (λ _ _, True) (λ _ _, True)).
Lemma attach_silent t c : silent c → attach_only resolved t c.
Proof. destruct c; [done| |done..]. intros H. by destruct H. Qed.
Lemma rejoin_failure_none checks : rejoinEndpointFailure checks = None → ∀ check, check ∈ checks → check_Status check ≠ CheckFail.
Proof.
  unfold rejoinEndpointFailure. destruct (List.find _ checks) as [c|] eqn:Hf; [done|]. intros _ check Hc Hs.
  pose proof (find_none _ _ Hf check) as Hn. cbn in Hn. rewrite Hs in Hn. discriminate Hn. by apply list_elem_of_In.
Qed.
Lemma wp_endpoint_checks ctx t :
  wp (rejoinEndpointChecks ctx resolved) (λ checks t', t `prefix_of` t' ∧ (rejoinEndpointFailure checks = None → occurs endpoint_safe t')) t.
Proof.
  split; [exact I|]. intros [[|c checks]|]; cbn [pbind].
  - split; [by eexists|]. by vm_compute.
  - split; [by eexists|]. intros Hn. apply occurs_more. right. left. eexists _, _, _. split; [reflexivity|]. split; [done|].
    by apply rejoin_failure_none.
  - split; [exact I|]. intros checks. split; [unfold remember; eexists; by rewrite <- app_assoc|]. intros Hn. apply occurs_more. right. right.
    eexists _, _, _. split; [reflexivity|]. pose proof (rejoin_failure_none _ Hn _ (list_elem_of_here _ _)) as Hc.
    by apply checked_as_ok in Hc.
Qed.
Lemma wp_rejoin_live ctx t :
  wp (rejoinLivePrecheck ctx resolved) (post (λ _ t', attachable resolved t') (λ _ _, True)) t.
Proof.
  apply wp_ebind, wp_on_error. eapply wp_mono; [|apply wp_identity, attach_silent]. intros [primary|e] t1 H1; cbn [post]; [|done].
  destruct H1 as [_ H1]. apply wp_ebind, wp_on_error. eapply wp_mono; [|apply wp_identity, attach_silent].
  intros [former|e] t2 H2; cbn [post]; [|done]. destruct H2 as [Hp2 H2].
  apply wp_ebind, wp_ensure; [intros [Hu1 Hu2]%andb_prop|done]. apply wp_ebind, wp_ensure; [intros [Hw Hf]%andb_prop|done].
  destruct (assessFormerPrimaryGTID _ _ _) as [assessment|] eqn:Ha; [|exact I].
  apply wp_ebind, wp_ensure; [intros Hs|done]. apply wp_bind. eapply wp_mono; [|apply wp_endpoint_checks].
  intros checks t3 [Hp3 He]. cbn beta. destruct (rejoinEndpointFailure checks); [exact I|].
  destruct (assess_former_spec _ _ _ _ Ha Hs) as (c & p & f & Hc & Hpu & Hfo & Hin & Hkept).
  exists primary, former, c, p, f. repeat bsimpl_step. split_and!; try done; [|by eapply occurs_prefix|by apply He].
  eapply occurs_prefix; [|exact H1]. by etrans.
Qed.
(** Once the former primary may be attached, the statements that go to it are allowed. *)
Lemma wp_attach {A} (p : prog A) t : all_calls (only_at (instanceEndpoint (mo_Target resolved))) p → attachable resolved t →
  wp p (λ _ _, True) t.
Proof.
  intros Hp Ht. eapply wp_mono; [intros x y _; exact I|].
  apply (wp_all_calls (Sg:=mysql_signature) _ _ (only_at (instanceEndpoint (mo_Target resolved))) (attachable resolved)); [exact Hp| |exact Ht].
  intros c t' Hc Ht'. split; [destruct c; try done; by split|]. intros x. eapply attachable_prefix; [|exact Ht']. by eexists.
Qed.
Lemma observes_rejoin_verify ctx : observes (rejoinVerify PlanSHA256 FormatTime a ctx request).
Proof. unfold rejoinVerify, rejoinEndpointChecks. side_calls. Qed.
Lemma wp_rejoin_run ctx t : wp (rejoin_run PlanSHA256 FormatTime a ctx request resolved) anything t.
Proof.
  apply wp_ebind, wp_on_error. eapply wp_mono; [|apply (wp_looks _ attach_silent); auto with calls]. intros [completed|e] t1 _; cbn [post]; [|exact I].
  destruct completed.
  { apply wp_bind. eapply wp_mono; [|apply (wp_looks _ attach_silent), observes_rejoin_verify]. intros v t2 _. cbn beta. by destruct (ver_Passed v). }
  apply wp_ebind, wp_on_error. eapply wp_mono; [|apply wp_rejoin_live]. intros [[]|e] t2 H2; cbn [post]; [|exact I].
  apply wp_ebind, wp_on_error. eapply wp_mono; [|apply wp_attach; [apply only_reparent|exact H2]]. intros [[]|e] t3 _; cbn [post]; [|exact I].
  apply wp_ebind, wp_on_error. eapply wp_mono; [|apply (wp_looks _ attach_silent); auto with calls]. intros [[]|e] t4 _; exact I.
Qed.
End rejoin.
Lemma wp_rejoin PlanSHA256 FormatTime a request resolved t : or_Resolved request = Some resolved →
  wp remember (attach_only resolved) (rejoinExecute PlanSHA256 FormatTime a request) (post (λ _ _, True) (λ _ _, True)) t.
Proof.
  intros Hr. unfold rejoinExecute. destruct (ad_executor a); cbn [negb]; [|exact I]. split; [exact I|]. intros executable.
  cbn [pbind]. destruct executable; cbn [negb]; [|exact I].
  rewrite Hr. destruct (validateMySQLPlan _ _ request _ _) as [[]|e]; [apply wp_rejoin_run|exact I].
Qed.

(** ** Repairs *)

Definition statements (t : list event) : list event :=
  List.filter (λ e, match projT1 e with Exec _ _ _ _ => true | _ => false end) t.
Lemma statements_app t t' : statements (t ++ t') = statements t ++ statements t'.
Proof. apply List.filter_app. Qed.
Lemma run_observes {A} (p : prog A) t : observes p → run p (λ _ t', statements t' = statements t ∧ t `prefix_of` t') t.
Proof.
  intros Hp. apply wp_both; [|apply run_grows].
  apply (wp_all_calls (Sg:=mysql_signature) _ _ silent (λ t', statements t' = statements t)); [exact Hp| |reflexivity].
  intros c t' Hc Ht'. split; [exact I|]. intros x. unfold remember. rewrite statements_app, Ht'. destruct c; try apply app_nil_r. by destruct Hc.
Qed.
(** The only statement that a repair may execute starts a thread that the target answered is not running. *)
Definition repair_evidence (request : OperationRequest) (resolved : MySQLOperation) (t : list event) : Prop :=
  statements t = [] ∨ ∃ ctx cr (x : result sql_error unit) statement dialect status,
    statements t = [existT (Exec ctx (instanceEndpoint (mo_Target resolved)) cr statement) x] ∧
    dialectForVersion (mget (inst_EngineMetadata (mo_Target resolved)) "version") = Some dialect ∧
    replication_answered (instanceEndpoint (mo_Target resolved)) (status, true) t ∧
    ((repairAction request = Some repairStartIOThread ∧ repl_IOThread status ≠ ThreadRunning ∧
      statement = di_StartReplication dialect +:+ " IO_THREAD") ∨
     (repairAction request = Some repairStartSQLThread ∧ repl_SQLThread status ≠ ThreadRunning ∧
      statement = di_StartReplication dialect +:+ " SQL_THREAD")).
Lemma repair_statement_spec action dialect status statement : repair_statement action dialect status = Some statement →
  (action = Some repairStartIOThread ∧ repl_IOThread status ≠ ThreadRunning ∧ statement = di_StartReplication dialect +:+ " IO_THREAD") ∨
  (action = Some repairStartSQLThread ∧ repl_SQLThread status ≠ ThreadRunning ∧ statement = di_StartReplication dialect +:+ " SQL_THREAD").
Proof. destruct action as [[]|]; cbn; try done; case_bool_decide; try done; intros [= <-]; auto. Qed.
Lemma run_repair a ctx request resolved :
  run (repair_run a ctx request resolved) (λ _ t, repair_evidence request resolved t) [].
Proof.
  set (T := instanceEndpoint (mo_Target resolved)).
  apply wp_bind, wp_bind. eapply wp_mono; [|apply run_observes; auto with calls]. intros [identity|e] t1 [H1 _]; cbn beta; [|by left]. cbn [wp].
  apply wp_bind, wp_bind. eapply wp_mono; [|apply wp_both; [apply run_observes; auto with calls|apply (wp_replication any (λ _ _ _, I))]].
  intros [[status configured]|e] t2 [[H2 _] Hrep]; cbn beta; cbn [wp]; [|left; by rewrite H2]. destruct Hrep as [_ Hrep].
  assert (statements t2 = []) as Hnone by (by rewrite H2). clear H1 H2 t1.
  destruct (collects _); [by left|]. destruct (sets_maintenance _).
  { apply wp_bind, wp_bind. split; [exact I|]. intros [[]|e]; left; unfold remember; by rewrite statements_app, Hnone. }
  cbn [snd]. destruct (negb (ad_executor a) || negb configured) eqn:Hc; [by left|]. apply orb_false_elim in Hc as [_ Hc%negb_false_iff].
  destruct (dialectForVersion _) as [dialect|] eqn:Hd; [|by left]. cbn [fst].
  destruct (repair_statement _ dialect status) as [statement|] eqn:Hs; [|by left].
  apply wp_bind, wp_bind. split; [exact I|]. intros x.
  assert (repair_evidence request resolved (remember t2 (existT (Exec ctx T (mo_Credentials resolved) statement) x))) as Hev.
  { right. exists ctx, (mo_Credentials resolved), x, statement, dialect, status. unfold remember. rewrite statements_app, Hnone.
    split; [reflexivity|]. split; [exact Hd|]. split; [rewrite Hc in Hrep; eapply occurs_app, Hrep|by apply repair_statement_spec]. }
  destruct x as [[]|e]; exact Hev.
Qed.

(** ** What every execution does *)


(** a replication repair executes at most one statement: on the target, and
    it starts the thread that the action names, which the target answered is
    configured and not running. *)
Theorem repair_is_low_risk PlanSHA256 FormatTime a request resolved t out :
  or_Resolved request = Some resolved → runs (repairExecute PlanSHA256 FormatTime a request) t out →
  repair_evidence request resolved t.
Proof.
  intros Hr. unfold repairExecute. rewrite Hr. destruct (validateMySQLPlan _ _ request _ _) as [[]|e]; intros Hrun; [|inversion Hrun; by left].
  destruct (wp_sound _ _ _ _ _ _ _ (run_repair a RequestContext request resolved) Hrun) as [_ H]. by rewrite watch_remember in H.
Qed.

(** ** Every kind of operation *)

Lemma harmless_rejoin PlanSHA256 FormatTime a request : harmless (rejoinExecute PlanSHA256 FormatTime a request).
Proof. unfold rejoinExecute, rejoin_run, rejoinVerify, rejoinLivePrecheck, rejoinEndpointChecks. harmless_calls. Qed.
Lemma repair_statement_tame action dialect status statement version : dialectForVersion version = Some dialect →
  repair_statement action dialect status = Some statement → statement ≠ setReadOnlyOff.
Proof.
  intros Hd Hs ->. unfold dialectForVersion in Hd.
  repeat first [discriminate Hd | apply bind_Some in Hd as (? & _ & Hd) | case_match]; simplify_eq;
    by apply repair_statement_spec in Hs as [(_ & _ & [=])|(_ & _ & [=])].
Qed.
Lemma harmless_repair PlanSHA256 FormatTime a request : harmless (repairExecute PlanSHA256 FormatTime a request).
Proof.
  unfold repairExecute, repair_run. harmless_calls. all: apply tame_statement; by eapply repair_statement_tame.
Qed.
(** The execution of one kind is that of its function. *)
Lemma runs_some {A} (p : prog A) t out : runs (pbind p (λ r, Ret (Some r))) t out → ∃ r, runs p t r.
Proof. intros (t1 & t2 & r & -> & Hr & Hret)%runs_bind. apply runs_inv in Hret as [-> _]. exists r. by rewrite app_nil_r. Qed.
Lemma harmless_enables {A} (p : prog A) t r before ctx endpoint cr x after : harmless p → runs p t r →
  t ≠ before ++ existT (Exec ctx endpoint cr setReadOnlyOff) x :: after.
Proof.
  intros Hp Hr ->. refine (all_calls_runs tame p _ r Hp Hr (existT (Exec ctx endpoint cr setReadOnlyOff) x) _ eq_refl). set_solver.
Qed.

(** C1: the MySQL adapter makes an instance writable only when it is safe,
    whatever the operation and whatever the servers and the providers answer.
    Each statement of an execution that turns [read_only] off is sent to the
    operation's target, after the transition lease was granted.  The operation
    is a switchover, and before the statement the source was fenced (it
    accepted both statements of the fence, or it answered that it is fenced and
    the operation's durable progress says who fenced it), the fenced source
    then answered its last GTID position and the target executed that position;
    or it is a failover, the safety provider confirmed that the old primary is
    fenced, and either the progress says that this operation has promoted the
    target before, or the target answered that it is the planned instance,
    fully read-only, a replica of the failed primary that applies without
    error, and that all it has executed are transactions of the failed
    primary. *)
Theorem Execute_promotes_safely PlanSHA256 FormatTime a request resolved t out before ctx endpoint cr x after :
  or_Resolved request = Some resolved → runs (Execute PlanSHA256 FormatTime a request) t out →
  t = before ++ existT (Exec ctx endpoint cr setReadOnlyOff) x :: after →
  let S := instanceEndpoint (mo_Primary resolved) in let T := instanceEndpoint (mo_Target resolved) in
  endpoint = T ∧ occurs granted before ∧
  ((opn_Kind (or_Operation request) = OperationSwitchover ∧ source_fenced S before ∧ caught_up S T before) ∨
   (opn_Kind (or_Operation request) = OperationFailover ∧ occurs isolation_answered before ∧ promotable resolved before)).
Proof.
  intros Hr Hrun Ht. cbn zeta. unfold Execute in Hrun. destruct (opn_Kind (or_Operation request)) eqn:Hk;
    try (apply runs_inv in Hrun as [-> _]; by destruct before); apply runs_some in Hrun as [r Hrun].
  - destruct (switchover_promotes_fenced _ _ _ _ _ _ _ _ _ _ _ _ _ Hr Hrun Ht) as (He & Hg & Hf & Hc).
    split; [exact He|]. split; [exact Hg|]. left. by split_and!.
  - destruct (failover_promotes_isolated _ _ _ _ _ _ _ _ _ _ _ _ _ Hr Hrun Ht) as (He & Hg & Hf & Hc).
    split; [exact He|]. split; [exact Hg|]. right. by split_and!.
  - by destruct (harmless_enables _ _ _ before ctx endpoint cr x after (harmless_rejoin _ _ _ _) Hrun).
  - by destruct (harmless_enables _ _ _ before ctx endpoint cr x after (harmless_repair _ _ _ _) Hrun).
Qed.

(** ** Concrete executions *)

Definition wex_program : prog (option outcome) := Execute sim_digest sim_format sim_adapter wsw_request.
Lemma Execute_promotes_safely_witness :
  ∃ before, occurs granted before ∧
    ((opn_Kind (or_Operation wsw_request) = OperationSwitchover ∧ source_fenced sim_source before ∧ caught_up sim_source sim_target before) ∨
     (opn_Kind (or_Operation wsw_request) = OperationFailover ∧ occurs isolation_answered before ∧ promotable wsw_resolved before)).
Proof.
  destruct (enabling_split (simulate nothing_broken wex_program).1) as (before & ctx & endpoint & cr & x & after & Heq); [vm_compute; reflexivity|].
  exists before. exact (proj2 (Execute_promotes_safely sim_digest sim_format sim_adapter wsw_request wsw_resolved _ _ before ctx
    endpoint cr x after eq_refl (simulate_runs nothing_broken wex_program) Heq)).
Defined.
(** The former primary is db2, and db1 the current one. *)
Definition wrj_request : OperationRequest := sim_request OperationFormerPrimaryRejoin wsw_resolved
  [mkPlanStep 1 "attach_former_primary" "mysql" (sim_id "2") true ""].
Definition wrj_program : prog outcome := rejoinExecute sim_digest sim_format sim_adapter wrj_request.
Lemma statement_split t : statements t ≠ [] → ∃ before ctx endpoint cr statement x after,
  t = before ++ existT (Exec ctx endpoint cr statement) x :: after.
Proof.
  induction t as [|[c x] t IH]; [done|]. intros Hs. destruct c; try (destruct IH as (before & ? & ? & ? & ? & ? & after & ->); [exact Hs|];
    by eexists (_ :: before), _, _, _, _, _, after). by eexists [], _, _, _, _, _, t.
Qed.
Definition wrp_request : OperationRequest :=
  let request := sim_request OperationReplicationRepair wsw_resolved [mkPlanStep 1 "repair_start_io_thread" "mysql" (sim_id "2") true ""] in
  mkOperationRequest (or_Operation request) (or_TargetID request) {["action" := "start_io_thread"]} (or_Resolved request) (or_Plan request)
    (or_Progress request).
Notation wrp_program := (repairExecute sim_digest sim_format sim_adapter wrp_request).
Lemma repair_is_low_risk_witness :
  (simulate nothing_broken wrp_program).2 = Ok "replication thread repair completed; verification is required" ∧
  repair_evidence wrp_request wsw_resolved (simulate nothing_broken wrp_program).1.
Proof.
  split; [vm_compute; reflexivity|].
  exact (repair_is_low_risk sim_digest sim_format sim_adapter wrp_request wsw_resolved (simulate nothing_broken wrp_program).1
    (simulate nothing_broken wrp_program).2 eq_refl (simulate_runs nothing_broken wrp_program)).
Defined.
