(* ===== verification/MySQLText.v ===== *)
(** * What is written and read back as text

    The statements of [reparent.go] carry a host, a user and a password as
    string literals; the metadata that discovery publishes carries the
    semi-synchronous evidence that the prechecks read later; and the health
    that it publishes is what the servers answered.  A reference reader of
    literals, and round trips. *)
From S2P Require Import Prelude GoStd Model Gtid Interfaces Candidates Program MySQLAdapter MySQLPlans SimulatedMySQL Promotion History Switchover Failover MySQLOperations.
From stdpp Require Import pretty.
#[local] Open Scope Z_scope.

(** ** String literals *)

Definition backslash : ascii := "\".
(** The string literals of a statement, as a server reads them: a doubled quote stands for one, and a backslash
    escapes the next character unless the session says otherwise.  [current] is the literal being read. *)
Fixpoint literals (escapes : bool) (current : option string) (s : string) : list string :=
  match s with
  | EmptyString => []
  | String c s =>
      match current with
      | None => if Ascii.eqb c quote then literals escapes (Some "") s else literals escapes None s
      | Some v =>
          if Ascii.eqb c quote then
            match s with
            | String d s' => if Ascii.eqb d quote then literals escapes (Some (v +:+ String quote "")) s' else v :: literals escapes None s
            | EmptyString => [v]
            end
          else if escapes && Ascii.eqb c backslash then
            match s with String d s' => literals escapes (Some (v +:+ String d "")) s' | EmptyString => [] end
          else literals escapes (Some (v +:+ String c "")) s
      end
  end.
Definition starts_quoted (s : string) : bool := match s with String c _ => Ascii.eqb c quote | EmptyString => false end.
Lemma string_app_assoc (s t u : string) : (s +:+ t) +:+ u = s +:+ (t +:+ u).
Proof. induction s as [|c s IH]; [done|]. exact (f_equal (String c) IH). Qed.
Lemma string_app_nil (s : string) : s +:+ "" = s.
Proof. induction s as [|c s IH]; [done|]. exact (f_equal (String c) IH). Qed.
(** A literal that was written is read, whatever its characters are. *)
Lemma literals_inside escapes v value rest : (escapes = true → contains_byte backslash value = false) → starts_quoted rest = false →
  literals escapes (Some v) (double_quotes value +:+ String quote rest) = (v +:+ value) :: literals escapes None rest.
Proof.
  intros Hb Hr. revert v. induction value as [|c value IH]; intros v.
  - change (literals escapes (Some v) (String quote rest) = (v +:+ "") :: literals escapes None rest). rewrite string_app_nil.
    cbn [literals]. rewrite Ascii.eqb_refl. destruct rest as [|d rest]; [done|]. cbn [starts_quoted] in Hr. by rewrite Hr.
  - cbn [double_quotes contains_byte] in *. assert (escapes = true → contains_byte backslash value = false) as Hb' by (intros He; by apply orb_false_elim in Hb as [_ Hb]).
    specialize (IH Hb'). assert (v +:+ String c value = (v +:+ String c "") +:+ value) as -> by by rewrite string_app_assoc.
    destruct (Ascii.eqb c quote) eqn:Hq.
    + apply Ascii.eqb_eq in Hq as ->.
      change (literals escapes (Some v) (String quote (String quote (double_quotes value +:+ String quote rest))) =
        ((v +:+ String quote "") +:+ value) :: literals escapes None rest).
      cbn [literals]. rewrite !Ascii.eqb_refl. apply IH.
    + change (literals escapes (Some v) (String c (double_quotes value +:+ String quote rest)) =
        ((v +:+ String c "") +:+ value) :: literals escapes None rest).
      cbn [literals]. rewrite Hq. assert (escapes && Ascii.eqb c backslash = false) as ->; [|apply IH].
      destruct escapes; [|done]. by apply orb_false_elim in Hb as [Hb _].
Qed.
Lemma literals_written escapes value rest : (escapes = true → contains_byte backslash value = false) → starts_quoted rest = false →
  literals escapes None (mysqlStringLiteral value +:+ rest) = value :: literals escapes None rest.
Proof.
  intros Hb Hr. change (literals escapes None (String quote ((double_quotes value +:+ String quote "") +:+ rest)) = value :: literals escapes None rest).
  cbn [literals]. rewrite Ascii.eqb_refl, string_app_assoc. by apply (literals_inside escapes "" value rest).
Qed.
(** Text without quotes carries no literal. *)
Lemma literals_plain escapes text rest : contains_byte quote text = false → literals escapes None (text +:+ rest) = literals escapes None rest.
Proof.
  induction text as [|c text IH]; [done|]. intros [Hc Ht]%orb_false_elim.
  change (literals escapes None (String c (text +:+ rest)) = literals escapes None rest). cbn [literals]. rewrite Hc. by apply IH.
Qed.

(** ** Numbers *)

(** The digits of a number, in front of any text. *)
Lemma digits_induction (P : N → string → Prop) :
  (∀ s, P 0%N s) → (∀ x s, (0 < x)%N → P (x `div` 10)%N (String (pretty_N_char (x `mod` 10)) s) → P x s) → ∀ x s, P x s.
Proof.
  intros H0 HS x. induction (N.lt_wf_0 x) as [x _ IH]. intros s. destruct (decide (x = 0)%N) as [->|Hx]; [apply H0|].
  apply HS; [lia|]. apply IH. apply N.div_lt; lia.
Qed.
Lemma digit_cases x (P : ascii → Prop) : P "0"%char → P "1"%char → P "2"%char → P "3"%char → P "4"%char → P "5"%char → P "6"%char → P "7"%char →
  P "8"%char → P "9"%char → P (pretty_N_char x).
Proof. intros. unfold pretty_N_char. by repeat case_match. Qed.
Lemma digit_of_mod x : digit_value 10 (pretty_N_char (x `mod` 10)) = Some (Z.of_N (x `mod` 10)%N).
Proof.
  pose proof (N.mod_lt x 10 ltac:(lia)) as Hlt. revert Hlt. generalize (x `mod` 10)%N. intros y Hy.
  assert (y ∈ [0; 1; 2; 3; 4; 5; 6; 7; 8; 9]%N) as Hin.
  { destruct (decide (y ∈ [0; 1; 2; 3; 4; 5; 6; 7; 8; 9]%N)) as [|Hn]; [done|]. exfalso. apply Hn. rewrite !elem_of_cons. lia. }
  repeat (apply elem_of_cons in Hin as [->|Hin]; [done|]). by apply elem_of_nil in Hin.
Qed.
Lemma parse_digits_go x s : parse_digits 10 0 (pretty_N_go x s) = parse_digits 10 (Z.of_N x) s.
Proof.
  revert x s. apply digits_induction; [intros s; by rewrite pretty_N_go_0|]. intros x s Hx IH. rewrite pretty_N_go_step by done. rewrite IH.
  cbn [parse_digits]. rewrite digit_of_mod. f_equal. pose proof (N.div_mod x 10 ltac:(lia)). lia.
Qed.
Lemma digits_free b x : (∀ y, Ascii.eqb (pretty_N_char y) b = false) → ∀ s, contains_byte b (pretty_N_go x s) = contains_byte b s.
Proof.
  intros Hb. revert x. apply (digits_induction (λ x s, contains_byte b (pretty_N_go x s) = contains_byte b s)).
  - intros s. by rewrite pretty_N_go_0.
  - intros x s Hx IH. rewrite pretty_N_go_step by done. rewrite IH. cbn. by rewrite Hb.
Qed.
Lemma digits_start x s : (0 < x)%N → ∃ y t, pretty_N_go x s = String (pretty_N_char y) t.
Proof.
  revert x s. apply (digits_induction (λ x s, (0 < x)%N → ∃ y t, pretty_N_go x s = String (pretty_N_char y) t)); [intros s Hs; by apply N.lt_irrefl in Hs|].
  intros x s Hx IH _. rewrite pretty_N_go_step by done. destruct (decide (0 < x `div` 10)%N) as [Hd|Hd]; [by apply IH|].
  apply N.nlt_ge, N.le_0_r in Hd as ->. rewrite pretty_N_go_0. by eexists _, _.
Qed.
Lemma digit_not (c : ascii) y : is_digit c = false → Ascii.eqb (pretty_N_char y) c = false.
Proof. intros Hc. apply Ascii.eqb_neq. revert Hc. apply (digit_cases y (λ d, is_digit c = false → d ≠ c)); by intros Hc <-. Qed.
Lemma Atoi_pretty n : 0 ≤ n < 2 ^ 63 → Atoi (pretty n) = Some n.
Proof.
  intros Hn. destruct n as [|p|p]; [reflexivity| |lia].
  change (pretty (Z.pos p)) with (pretty_N_go (N.pos p) ""). pose proof (parse_digits_go (N.pos p) "") as Hp. cbn [parse_digits] in Hp.
  destruct (digits_start (N.pos p) "" ltac:(lia)) as (y & t & Ht). rewrite Ht in *. unfold Atoi. rewrite !digit_not by done. unfold ParseUint.
  rewrite Hp. cbn [mbind option_bind]. destruct (Z.ltb_spec (Z.of_N (N.pos p)) (2 ^ 64)); [|lia]. cbn [mbind option_bind].
  destruct (Z.ltb_spec (Z.of_N (N.pos p)) (2 ^ 63)); [done|lia].
Qed.
Lemma pretty_free b (n : Z) : is_digit b = false → b ≠ "-"%char → contains_byte b (pretty n) = false.
Proof.
  intros Hb Hm. assert (∀ p, contains_byte b (pretty_N_go (N.pos p) "") = false) as Hp.
  { intros p. rewrite digits_free; [done|]. intros y. by apply digit_not. }
  destruct n as [|p|p].
  - change (Ascii.eqb "0" b || false = false). rewrite orb_false_r. apply (digit_not b 0 Hb).
  - apply Hp.
  - change (Ascii.eqb "-" b || contains_byte b (pretty_N_go (N.pos p) "") = false). rewrite Hp, orb_false_r. by apply Ascii.eqb_neq.
Qed.

(** ** The statement that attaches a replica *)

Lemma contains_byte_app b s t : contains_byte b (s +:+ t) = contains_byte b s || contains_byte b t.
Proof. induction s as [|c s IH]; [done|]. change (Ascii.eqb c b || contains_byte b (s +:+ t) = Ascii.eqb c b || contains_byte b s || contains_byte b t). by rewrite IH, orb_assoc. Qed.
(** The options between the literals: plain text. *)
Definition source_options (prefix : string) (port : Z) (host user password more : string) : string :=
  prefix +:+ "_HOST=" +:+ mysqlStringLiteral host +:+ ", " +:+ prefix +:+ "_PORT=" +:+ pretty port +:+ ", " +:+
  prefix +:+ "_USER=" +:+ mysqlStringLiteral user +:+ ", " +:+ prefix +:+ "_PASSWORD=" +:+ mysqlStringLiteral password +:+ ", " +:+ more.
Lemma literals_options escapes prefix port host user password more : contains_byte quote prefix = false → contains_byte quote more = false →
  (escapes = true → existsb (contains_byte backslash) [host; user; password] = false) →
  literals escapes None (source_options prefix port host user password more) = [host; user; password].
Proof.
  intros Hp Hm Hb. assert (∀ v, v ∈ [host; user; password] → escapes = true → contains_byte backslash v = false) as Hv.
  { intros v Hv He. specialize (Hb He). rewrite <- not_true_iff_false in Hb |- *. intros Hc. apply Hb, existsb_exists. exists v.
    split; [by apply list_elem_of_In|exact Hc]. }
  unfold source_options. repeat first [rewrite literals_plain by (done || by apply pretty_free) | rewrite literals_written; [|apply Hv; set_solver|done]].
  f_equal. f_equal. f_equal. rewrite <- (string_app_nil more). by rewrite literals_plain.
Qed.
(** The values that the statement carries. *)
Definition source_values (target : DatabaseInstance) (credentials : Credentials) : list string :=
  let ip := TrimSpace (inst_IPAddress target) in
  [if ip == "" then TrimSpace (inst_Hostname target) else ip; cr_Username credentials; cr_Password credentials].

Lemma dialect_plain version dialect : dialectForVersion version = Some dialect → contains_byte quote (di_PublicKeySourceOption dialect) = false.
Proof.
  unfold dialectForVersion. intros H. repeat first [discriminate H | apply bind_Some in H as (? & _ & H) | case_match]; by simplify_eq.
Qed.
Lemma source_statement_spec version target credentials statement : buildChangeSourceStatement version target credentials = Ok statement →
  ∃ command prefix more, contains_byte quote command = false ∧ contains_byte quote prefix = false ∧
    statement = mysqlLiteralStatement (command +:+ source_options prefix (inst_Port target) (hd "" (source_values target credentials))
                  (cr_Username credentials) (cr_Password credentials) more) (source_values target credentials) ∧
    contains_byte quote more = false.
Proof.
  unfold buildChangeSourceStatement. destruct (dialectForVersion version) as [dialect|] eqn:Hd; [|done]. apply dialect_plain in Hd.
  cbn zeta beta. case_match; [done|]. destruct (di_ModernSource dialect); intros [= <-]; rewrite !string_app_assoc.
  - eexists "CHANGE REPLICATION SOURCE TO ", "SOURCE", _. split; [done|]. split; [done|]. split; [unfold source_options; reflexivity|].
    rewrite !contains_byte_app, !pretty_free, Hd by done. done.
  - eexists "CHANGE MASTER TO ", "MASTER", _. split; [done|]. split; [done|]. split; [unfold source_options; reflexivity|].
    rewrite !contains_byte_app, !pretty_free by done.
    destruct (di_PublicKeySourceOption dialect == ""); [reflexivity|]. rewrite contains_byte_app, Hd. reflexivity.
Qed.

(** C33: quoting is exact, so credentials and hosts cannot change the statement
    that attaches a replica.  Whatever characters the host, the user and the
    password consist of, a server that reads the statement reads exactly these
    three string literals, and nothing else is quoted; when one of them has a
    backslash the statement first makes the session read backslashes as they
    are, and otherwise it reads the same in every session. *)
Theorem change_source_literals version target credentials statement :
  buildChangeSourceStatement version target credentials = Ok statement →
  if existsb (contains_byte backslash) (source_values target credentials) then
    ∃ rest, statement = "SET SESSION sql_mode='NO_BACKSLASH_ESCAPES'; " +:+ rest ∧
      literals false None rest = source_values target credentials
  else ∀ escapes, literals escapes None statement = source_values target credentials.
Proof.
  intros (command & prefix & more & Hc & Hp & -> & Hm)%source_statement_spec. unfold mysqlLiteralStatement.
  assert (∀ escapes, (escapes = true → existsb (contains_byte backslash) (source_values target credentials) = false) →
    literals escapes None (command +:+ source_options prefix (inst_Port target) (hd "" (source_values target credentials))
      (cr_Username credentials) (cr_Password credentials) more) = source_values target credentials) as Hread.
  { intros escapes Hb. rewrite literals_plain by done. by apply literals_options. }
  change (contains_byte "\") with (contains_byte backslash). destruct (existsb _ _) eqn:Hb; [|intros escapes; by apply Hread].
  eexists. split; [reflexivity|]. by apply Hread.
Qed.

(** ** Evidence of durability *)

(** What discovery publishes of the semi-synchronous state, the prechecks read back. *)
Lemma parse_bool_text b : parseMySQLBoolean (FormatBool b) = Some b.
Proof. by destruct b. Qed.
Lemma boolMetadata_text (m : gmap string string) name b : m !! name = Some (FormatBool b) → boolMetadata m name = Some b.
Proof. intros H. unfold boolMetadata. rewrite H. apply parse_bool_text. Qed.
Lemma pretty_digits n : 0 ≤ n → string_forall is_digit (pretty n) = true.
Proof.
  intros Hn. destruct n as [|p|p]; [reflexivity| |lia]. change (pretty (Z.pos p)) with (pretty_N_go (N.pos p) "").
  assert (∀ x s, string_forall is_digit s = true → string_forall is_digit (pretty_N_go x s) = true) as H; [|by apply H].
  apply (digits_induction (λ x s, string_forall is_digit s = true → string_forall is_digit (pretty_N_go x s) = true)).
  - intros s. by rewrite pretty_N_go_0.
  - intros x s Hx IH Hs. rewrite pretty_N_go_step by done. apply IH. cbn [string_forall]. rewrite Hs, andb_true_r.
    by apply (digit_cases (x `mod` 10) (λ c, is_digit c = true)).
Qed.
Lemma intMetadata_text (m : gmap string string) name n : 0 ≤ n < 2 ^ 63 → m !! name = Some (pretty n) → intMetadata m name = Some n.
Proof.
  intros Hn H. unfold intMetadata. rewrite H. cbn [mbind option_bind]. rewrite digits_trimmed by (apply pretty_digits; lia).
  rewrite Atoi_pretty by done. cbn [mbind option_bind]. by destruct (Z.ltb_spec n 0); [lia|].
Qed.

(** The numbers of a probe are what [strconv.Atoi] can return. *)
Definition sized (probe : semiSyncProbe) : Prop :=
  0 ≤ ss_sourceClients probe < 2 ^ 63 ∧ 0 ≤ ss_waitForReplicaCount probe < 2 ^ 63 ∧ 0 ≤ ss_sourceTimeoutMS probe < 2 ^ 63.
Lemma Atoi_bound s n : Atoi s = Some n → n < 2 ^ 63.
Proof.
  unfold Atoi. destruct s as [|c s]; [done|]. destruct (Ascii.eqb c "-").
  - destruct (ParseUint s 10 64) as [v|] eqn:Hv; [|done]. cbn [mbind option_bind]. destruct (v <=? 2 ^ 63); [|done]. intros [= <-].
    apply ParseUint_bound in Hv; lia.
  - intros H. apply bind_Some in H as (v & _ & H). destruct (Z.ltb_spec v (2 ^ 63)); [|done]. by injection H as <-.
Qed.
Lemma semiSyncInteger_bound values names n : semiSyncInteger values names = Some n → 0 ≤ n < 2 ^ 63.
Proof.
  unfold semiSyncInteger. case_match; [by intros [= <-]|]. intros (parsed & Hp & Hn)%bind_Some. apply Atoi_bound in Hp.
  destruct (Z.ltb_spec parsed 0); [done|]. injection Hn as <-. lia.
Qed.
Lemma parseSemiSync_sized variables status probe : parseSemiSync variables status = Some probe → sized probe.
Proof.
  unfold parseSemiSync. intros H. do 5 apply bind_Some in H as (? & _ & H).
  apply bind_Some in H as (c & Hc & H). apply bind_Some in H as (w & Hw & H). apply bind_Some in H as (t & Ht & H). injection H as <-.
  split; [|split]; by eapply semiSyncInteger_bound.
Qed.

Section published.
Variables (required : bool) (identity : identityProbe) (probe : semiSyncProbe) (replication : ReplicationStatus) (configured : bool).
Let metadata := discovered_metadata required identity (Ok probe) replication configured.
Lemma metadata_published name value : semiSync_metadata probe !! name = Some value →
  name ≠ "semi_sync_ack_missing" → name ≠ "semi_sync_required" → metadata !! name = Some value.
Proof.
  intros H H1 H2. unfold metadata, discovered_metadata. cbn [is_ok].
  assert (<["semi_sync_required" := FormatBool required]> (semiSync_metadata probe ∪ list_to_map [("server_id", ip_serverID identity); ("version", ip_version identity); ("gtid_mode", ip_gtidMode identity);
    ("gtid_executed", ip_gtidExecuted identity); ("gtid_purged", ip_gtidPurged identity); ("log_bin", ip_logBin identity);
    ("binlog_format", ip_binlogFormat identity); ("read_only", FormatBool (ip_readOnly identity));
    ("super_read_only", FormatBool (ip_superReadOnly identity))] : gmap string string) !! name = Some value) as H3.
  { rewrite lookup_insert_ne by done. by apply lookup_union_Some_l. }
  case_match; [by rewrite lookup_insert_ne|done].
Qed.
End published.

(** the durability evidence survives publication.  What discovery publishes
    in an instance's metadata of a semi-synchronous probe is read back by the
    prechecks as exactly that probe, for all numbers that the servers can
    answer, so that a switchover's or a failover's durability check decides on
    what the servers said. *)
Theorem semi_sync_published required identity variables status probe replication configured :
  parseSemiSync variables status = Some probe → ss_waitPoint probe ∈ ["AFTER_SYNC"; "AFTER_COMMIT"] →
  semiSyncFromMetadata (discovered_metadata required identity (Ok probe) replication configured) = Some probe.
Proof.
  intros Hp Hw. apply parseSemiSync_sized in Hp as (Hc & Hr & Ht).
  set (m := discovered_metadata required identity (Ok probe) replication configured).
  assert (∀ name value, semiSync_metadata probe !! name = Some value → name ≠ "semi_sync_ack_missing" → name ≠ "semi_sync_required" →
    m !! name = Some value) as Hm by (intros name value; apply metadata_published).
  assert (∀ name b, semiSync_metadata probe !! name = Some (FormatBool b) → name ≠ "semi_sync_ack_missing" → name ≠ "semi_sync_required" →
    boolMetadata m name = Some b) as Hb by (intros; by apply boolMetadata_text, Hm).
  assert (∀ name n, 0 ≤ n < 2 ^ 63 → semiSync_metadata probe !! name = Some (pretty n) → name ≠ "semi_sync_ack_missing" →
    name ≠ "semi_sync_required" → intMetadata m name = Some n) as Hi by (intros; by apply intMetadata_text; [|apply Hm]).
  unfold semiSyncFromMetadata.
  rewrite (Hb "semi_sync_available" (ss_available probe)), (Hb "semi_sync_source_enabled" (ss_sourceEnabled probe)),
    (Hb "semi_sync_source_status" (ss_sourceStatus probe)), (Hb "semi_sync_replica_enabled" (ss_replicaEnabled probe)),
    (Hb "semi_sync_replica_status" (ss_replicaStatus probe)), (Hb "semi_sync_wait_no_replica" (ss_waitNoReplica probe)),
    (Hi "semi_sync_source_clients" (ss_sourceClients probe)), (Hi "semi_sync_wait_for_replica_count" (ss_waitForReplicaCount probe)),
    (Hi "semi_sync_source_timeout_ms" (ss_sourceTimeoutMS probe)) by (done || reflexivity). cbn [mbind option_bind].
  unfold mget. rewrite (Hm "semi_sync_wait_point" (ss_waitPoint probe)) by (done || reflexivity).
  clear m Hm Hb Hi. destruct probe as [? ? ? ? ? ? ? ? ? waitPoint]. cbn in *.
  apply elem_of_cons in Hw as [->|Hw]; [reflexivity|]. by apply list_elem_of_singleton in Hw as ->.
Qed.

(** ** Concrete instances *)

(** A password with quotes and a backslash. *)
Definition wct_credentials : Credentials := mkCredentials "repl" "a'; DROP '\" "".
Lemma change_source_literals_witness :
  existsb (contains_byte backslash) (source_values (sim_primary HealthHealthy) wct_credentials) = true ∧
  ∃ statement rest, buildChangeSourceStatement "8.0.36" (sim_primary HealthHealthy) wct_credentials = Ok statement ∧
    statement = "SET SESSION sql_mode='NO_BACKSLASH_ESCAPES'; " +:+ rest ∧ literals false None rest = ["db1"; "repl"; "a'; DROP '\"].
Proof.
  split; [vm_compute; reflexivity|].
  destruct (buildChangeSourceStatement "8.0.36" (sim_primary HealthHealthy) wct_credentials) as [statement|e] eqn:Hb;
    [|vm_compute in Hb; discriminate Hb].
  pose proof (change_source_literals "8.0.36" (sim_primary HealthHealthy) wct_credentials statement Hb) as H.
  assert (Hx : existsb (contains_byte backslash) (source_values (sim_primary HealthHealthy) wct_credentials) = true) by (vm_compute; reflexivity).
  rewrite Hx in H. destruct H as (rest & H1 & H2). exists statement, rest. split; [reflexivity|]. split; [exact H1|exact H2].
Defined.
Definition wct_rows : list (gmap string string) :=
  (λ entry : string * string, list_to_map [("Variable_name", fst entry); ("Value", snd entry)]) <$>
  [("rpl_semi_sync_source_enabled", "ON"); ("rpl_semi_sync_source_wait_for_replica_count", "1"); ("rpl_semi_sync_source_timeout", "10000");
   ("rpl_semi_sync_source_wait_point", "AFTER_SYNC")].
Definition wct_identity : identityProbe := mkIdentity (sim_uuid "db1") "db1" 3306 "1" "8.0.36" false false "ON" sim_history "" "ON" "ROW".
Lemma semi_sync_published_witness :
  ∃ probe, parseSemiSync wct_rows wct_rows = Some probe ∧
    semiSyncFromMetadata (discovered_metadata true wct_identity (Ok probe) zero_ReplicationStatus false) = Some probe.
Proof.
  destruct (parseSemiSync wct_rows wct_rows) as [probe|] eqn:Hp; [|vm_compute in Hp; discriminate Hp].
  exists probe. split; [reflexivity|].
  refine (semi_sync_published true wct_identity wct_rows wct_rows probe zero_ReplicationStatus false Hp _).
  assert (He : ss_waitPoint <$> parseSemiSync wct_rows wct_rows = Some "AFTER_SYNC") by (vm_compute; reflexivity).
  rewrite Hp in He. injection He as ->. apply list_elem_of_here.
Defined.
