(* ===== verification/Approval.v ===== *)
(** * internal/approval: one-time approval grants

    [service.go]: a grant is issued for the durable plan of one operation, its
    secret is handed out once as a token, and consuming the token moves that
    operation to its approval.  [encoding/base64]'s raw URL alphabet is
    written out; SHA-256 is a parameter, and so are the random secret, the
    fresh identifier and the clock readings of a call.

    [Consume] reads the store, then writes it: its two halves take the state
    each of them finds. *)
From S2P Require Import Prelude GoStd Model Endpoint Lease Locks Repository Operations.
#[local] Open Scope Z_scope.

(** ** base64.RawURLEncoding *)

Definition base64_alphabet : list ascii :=
  list_ascii_of_string "ABCDEFGHIJKLMNOPQRSTUVWXYZabcdefghijklmnopqrstuvwxyz0123456789-_".
Definition sextet_char (n : N) : ascii := nth (N.to_nat n) base64_alphabet "000"%char.
Definition sextet_value (c : ascii) : option N := (λ f, N.of_nat f.1) <$> list_find (c =.) base64_alphabet.
Fixpoint EncodeToString (s : string) : string :=
  match s with
  | EmptyString => EmptyString
  | String a EmptyString =>
      String (sextet_char (code a / 4)) (String (sextet_char (code a `mod` 4 * 16)) EmptyString)
  | String a (String b EmptyString) =>
      String (sextet_char (code a / 4)) (String (sextet_char (code a `mod` 4 * 16 + code b / 16))
        (String (sextet_char (code b `mod` 16 * 4)) EmptyString))
  | String a (String b (String c s)) =>
      String (sextet_char (code a / 4)) (String (sextet_char (code a `mod` 4 * 16 + code b / 16))
        (String (sextet_char (code b `mod` 16 * 4 + code c / 64)) (String (sextet_char (code c `mod` 64)) (EncodeToString s))))
  end.
(** Line breaks are skipped, and bits beyond the last byte are ignored. *)
Fixpoint sextets (s : string) : option (list N) :=
  match s with
  | EmptyString => Some []
  | String c s =>
      if (c == "010"%char) || (c == "013"%char) then sextets s
      else n ← sextet_value c; ns ← sextets s; Some (n :: ns)
  end.
Fixpoint decode_sextets (l : list N) : option string :=
  match l with
  | [] => Some EmptyString
  | [_] => None
  | [w; x] => Some (String (byte_of (w * 4 + x / 16)) EmptyString)
  | [w; x; y] => Some (String (byte_of (w * 4 + x / 16)) (String (byte_of (x `mod` 16 * 16 + y / 4)) EmptyString))
  | w :: x :: y :: z :: l =>
      s ← decode_sextets l;
      Some (String (byte_of (w * 4 + x / 16)) (String (byte_of (x `mod` 16 * 16 + y / 4)) (String (byte_of (y `mod` 4 * 64 + z)) s)))
  end.
Definition DecodeString (s : string) : option string := sextets s ≫= decode_sextets.

(** ** Tokens *)

Inductive approval_error : Type :=
| ErrRequired
| ErrInvalid
| ErrExpired
| ErrConsumed
| ErrMismatch
| ErrStalePlan
| ErrBlockingChecks (names : list string)
| ErrApprovalContext        (* the caller's context is done *)
| ErrNoIssuer
| ErrNoDurablePlan
| ErrGrantTTL
| ErrApprovalSecret         (* no random bytes *)
| ErrApprovalStore (e : store_error).
#[export] Instance approval_error_eq_dec : EqDecision approval_error.
Proof. solve_decision. Defined.

Definition approvalSecretBytes : nat := 32.
Definition defaultTTL : Duration := 5 * Minute.
Definition maximumTTL : Duration := 15 * Minute.
Definition tokenPrefix : string := "cgag_".

(** [strings.Cut] at a byte. *)
Fixpoint Cut (sep : ascii) (s : string) : option (string * string) :=
  match s with
  | EmptyString => None
  | String c s => if c == sep then Some (EmptyString, s) else '(l, r) ← Cut sep s; Some (String c l, r)
  end.
Definition ParseToken (token : string) : result approval_error (ResourceID * string) :=
  let token := TrimSpace token in
  _ ← reject (token == "") ErrRequired;
  _ ← require (HasPrefix token tokenPrefix) ErrInvalid;
  match Cut "." (TrimPrefix token tokenPrefix) with
  | None => Err ErrInvalid
  | Some (grantID, secretPart) =>
      _ ← require (ValidResourceID grantID && (secretPart != "")) ErrInvalid;
      match DecodeString secretPart with
      | Some secret => _ ← require (Nat.eqb (String.length secret) approvalSecretBytes) ErrInvalid; Ok (grantID, secret)
      | None => Err ErrInvalid
      end
  end.

Definition publicGrant (grant : ApprovalGrant) : ApprovalGrant := grant <| grant_TokenHash := "" |>.
Definition hasDurableOperationPlan (record : OperationRecord) : bool :=
  ValidResourceID (rec_ResourceID record) && ValidResourceID (opn_ClusterID (rec_Operation record)) &&
  ValidResourceID (rec_TargetID record) && Engine_Valid (opn_Engine (rec_Operation record)) &&
  (opn_Kind (rec_Operation record) != OperationKindOther "") && (TrimSpace (rec_Observation record) != "") &&
  (TrimSpace (plan_Digest (rec_Plan record)) != "") && (plan_OperationID (rec_Plan record) == rec_ResourceID record) &&
  (plan_TargetID (rec_Plan record) == rec_TargetID record).
(** The names of the failed checks, each once, in order. *)
Definition check_label (check : Check) : string :=
  let name := TrimSpace (check_Name check) in if name == "" then "unnamed_check" else name.
Definition blockingCheckNames (checkSets : list (list Check)) : list string :=
  merge_sort id_le (elements (list_to_set (check_label <$> filter (λ c, check_Status c = CheckFail) (concat checkSets)) : gset string)).

Section service.
Variable SHA256Hex : string → string.
Definition tokenHash (secret : string) : string := "sha256:" +:+ SHA256Hex secret.

(** ** Issuing *)

Record IssueRequest : Type := mkIssue { iss_Operation : OperationRecord; iss_IssuedBy : string; iss_TTL : Duration }.
Definition issued_grant (fresh : ResourceID) (now : Time) (secret : string) (issuedBy : string) (ttl : Duration)
    (record : OperationRecord) : ApprovalGrant :=
  zero_ApprovalGrant
    <| grant_ResourceID := fresh |> <| grant_MetadataRevision := 1 |> <| grant_CreatedAt := now |> <| grant_UpdatedAt := now |>
    <| grant_TokenHash := tokenHash secret |> <| grant_OperationID := rec_ResourceID record |>
    <| grant_ClusterID := opn_ClusterID (rec_Operation record) |> <| grant_Engine := opn_Engine (rec_Operation record) |>
    <| grant_OperationKind := opn_Kind (rec_Operation record) |> <| grant_TargetID := rec_TargetID record |>
    <| grant_PlanDigest := plan_Digest (rec_Plan record) |> <| grant_ObservationDigest := rec_Observation record |>
    <| grant_IssuedBy := issuedBy |> <| grant_IssuedAt := now |> <| grant_ExpiresAt := Add now ttl |>
    <| grant_Status := ApprovalGrantActive |>.
Definition issued_token (grantID : ResourceID) (secret : string) : string :=
  tokenPrefix +:+ grantID +:+ "." +:+ EncodeToString secret.
(** [random] is what reading the secret yields; the answer is the public grant and the token. *)
Definition Issue (ctx_done : bool) (fresh : ResourceID) (random : option string) (now : Time) (request : IssueRequest) (r : Repository)
  : Repository * result approval_error (ApprovalGrant * string) :=
  let record := iss_Operation request in
  let issuedBy := TrimSpace (iss_IssuedBy request) in
  let ttl := if iss_TTL request =? 0 then defaultTTL else iss_TTL request in
  let names := blockingCheckNames [rec_Precheck record; plan_Checks (rec_Plan record)] in
  let checked :=
    _ ← reject ctx_done ErrApprovalContext;
    _ ← reject (issuedBy == "") ErrNoIssuer;
    _ ← require (hasDurableOperationPlan record) ErrNoDurablePlan;
    _ ← require (names == []) (ErrBlockingChecks names);
    _ ← reject ((ttl <? 0) || (maximumTTL <? ttl)) ErrGrantTTL;
    match random with Some secret => Ok secret | None => Err ErrApprovalSecret end in
  match checked with
  | Err e => (r, Err e)
  | Ok secret =>
      let grant := issued_grant fresh now secret issuedBy ttl record in
      let '(r, stored) := PutApprovalGrant grant r in
      (r, match stored with Ok _ => Ok (publicGrant grant, issued_token fresh secret) | Err e => Err (ErrApprovalStore e) end)
  end.

(** ** Consuming *)

(** The grant a token opens, and the hash of its secret. *)
Definition loadToken (ctx_done : bool) (now : Time) (token : string) (r : Repository) : result approval_error (ApprovalGrant * string) :=
  _ ← reject ctx_done ErrApprovalContext;
  parsed ← ParseToken token;
  let '(grantID, secret) := parsed in
  let hash := tokenHash secret in
  match GrantByID grantID r with
  | None => Err ErrInvalid
  | Some grant =>
      _ ← require (grant_TokenHash grant == hash) ErrInvalid;
      match grant_Status grant with
      | ApprovalGrantConsumed => Err ErrConsumed
      | ApprovalGrantActive => _ ← require (Before now (grant_ExpiresAt grant)) ErrExpired; Ok (grant, hash)
      | ApprovalGrantExpired => Err ErrExpired
      | _ => Err ErrInvalid
      end
  end.
Definition grantMatchesIntent (grant : ApprovalGrant) (operation : Operation) (targetID : ResourceID) : bool :=
  (grant_ClusterID grant == opn_ClusterID operation) && (grant_Engine grant == opn_Engine operation) &&
  (grant_OperationKind grant == opn_Kind operation) && (grant_TargetID grant == targetID).
Definition AuthorizeIntent (ctx_done : bool) (now : Time) (token : string) (operation : Operation) (targetID : ResourceID) (r : Repository)
  : result approval_error ApprovalGrant :=
  loaded ← loadToken ctx_done now token r;
  _ ← require (grantMatchesIntent loaded.1 operation targetID) ErrMismatch;
  Ok (publicGrant loaded.1).

Variable Text : string → string.
(** The tests on the loaded grant, then the store's own, in one commit with the approval. *)
Definition consume_request (grant : ApprovalGrant) (hash : string) (now : Time) (record : OperationRecord) : ConsumeApprovalGrantRequest :=
  mkConsume (grant_ResourceID grant) hash (rec_ResourceID record) (rec_MetadataRevision record) now
    (zero_OperationTransition <| trans_Stage := StageApprove |> <| trans_Message := "one-time approval grant consumed" |>).
Definition grant_for (grant : ApprovalGrant) (record : OperationRecord) : result approval_error unit :=
  _ ← require (grantMatchesIntent grant (rec_Operation record) (rec_TargetID record) &&
               (grant_OperationID grant == rec_ResourceID record)) ErrMismatch;
  require ((grant_PlanDigest grant == plan_Digest (rec_Plan record)) && (grant_ObservationDigest grant == rec_Observation record))
    ErrStalePlan.
Definition consume_loaded (grant : ApprovalGrant) (hash : string) (now : Time) (record : OperationRecord) (r : Repository)
  : Repository * result approval_error (ResourceID * OperationRecord) :=
  match grant_for grant record with
  | Err e => (r, Err e)
  | Ok _ =>
      let '(r, consumed) := ConsumeApprovalGrant Text (consume_request grant hash now record) r in
      (r, match consumed with
          | Ok (grant, approved) => Ok (grant_ResourceID grant, approved)
          | Err ErrConflict =>
              match GrantByID (grant_ResourceID grant) r with
              | Some current => if grant_Status current == ApprovalGrantConsumed then Err ErrConsumed else Err (ErrApprovalStore ErrConflict)
              | None => Err (ErrApprovalStore ErrConflict)
              end
          | Err e => Err (ErrApprovalStore e)
          end)
  end.
(** [Consume], when nothing happens in between. *)
Definition Consume (ctx_done : bool) (loadedAt consumedAt : Time) (record : OperationRecord) (token : string) (r : Repository)
  : Repository * result approval_error (ResourceID * OperationRecord) :=
  match loadToken ctx_done loadedAt token r with
  | Err e => (r, Err e)
  | Ok (grant, hash) => consume_loaded grant hash consumedAt record r
  end.
End service.

Definition Grant (resourceID : ResourceID) (r : Repository) : option ApprovalGrant := publicGrant <$> GrantByID resourceID r.
