(* ===== verification/ApprovalSafety.v ===== *)
(** * internal/approval: what a token authorises

    A token read back is the grant and the secret it was made of; and a token
    authorises the plan it was issued for, once, before it expires. *)
From S2P Require Import Prelude GoStd Model Endpoint Lease Locks Repository Operations Approval.
#[local] Open Scope Z_scope.

(** ** base64 *)

#[local] Arguments sextet_char : simpl never.
#[local] Arguments sextet_value : simpl never.
Definition sextet_ok (n : N) : bool :=
  let c := sextet_char n in
  is_graphic c && (sextet_value c == Some n) && negb ((c == "010"%char) || (c == "013"%char)).
Lemma sextet_chars n : (n < 64)%N → sextet_ok n = true.
Proof.
  intros Hn. assert (forallb (λ k, sextet_ok (N.of_nat k)) (seq 0 64) = true) as H by (vm_compute; reflexivity).
  rewrite forallb_forall in H. rewrite <- (N2Nat.id n). apply H, in_seq. lia.
Qed.
Lemma sextets_char n s : (n < 64)%N → sextets (String (sextet_char n) s) = (λ l, n :: l) <$> sextets s.
Proof.
  intros Hn. apply sextet_chars in Hn. unfold sextet_ok in Hn. repeat bsimpl_step. cbn [sextets].
  rewrite !bool_decide_false by done. cbn [orb]. match goal with H : sextet_value _ = _ |- _ => rewrite H end. cbn.
  by destruct (sextets s).
Qed.
Lemma code_bound c : (code c < 256)%N.
Proof. apply N_ascii_bounded. Qed.
Lemma byte_code c n : n = code c → byte_of n = c.
Proof. intros ->. apply ascii_N_embedding. Qed.
#[local] Ltac Zify.zify_post_hook ::= Z.to_euclidean_division_equations.
Ltac sextet := match goal with
  | |- context [code ?a] => pose proof (code_bound a); generalize dependent (code a); intros; sextet
  | _ => lia
  end.
(** The last two lemmas of an encoding's induction: three bytes, or what is left. *)
Lemma string_threes (P : string → Prop) : P "" → (∀ a, P (String a "")) → (∀ a b, P (String a (String b ""))) →
  (∀ a b c s, P s → P (String a (String b (String c s)))) → ∀ s, P s.
Proof.
  intros H0 H1 H2 H3. fix IH 1. intros [|a [|b [|c s]]]; [exact H0|apply H1|apply H2|apply H3, IH].
Qed.
Lemma decode_encode s : DecodeString (EncodeToString s) = Some s.
Proof.
  unfold DecodeString. induction s as [|a|a b|a b c s IH] using string_threes; [done| | |].
  - cbn [EncodeToString]. rewrite !sextets_char by sextet. cbn. do 2 f_equal. apply byte_code. sextet.
  - cbn [EncodeToString]. rewrite !sextets_char by sextet. cbn. f_equal. rewrite (byte_code a), (byte_code b) by sextet. done.
  - cbn [EncodeToString]. rewrite !sextets_char by sextet. destruct (sextets (EncodeToString s)) as [l|]; [|done].
    cbn in *. rewrite IH. cbn. rewrite (byte_code a), (byte_code b), (byte_code c) by sextet. done.
Qed.
Lemma encode_graphic s : string_forall is_graphic (EncodeToString s) = true.
Proof.
  assert (∀ n s, (n < 64)%N → string_forall is_graphic (String (sextet_char n) s) = string_forall is_graphic s) as Hc.
  { intros n s' Hn%sextet_chars. unfold sextet_ok in Hn. repeat bsimpl_step. cbn. by match goal with H : is_graphic _ = true |- _ => rewrite H end. }
  induction s as [|a|a b|a b c s IH] using string_threes; cbn [EncodeToString]; rewrite ?Hc by sextet; done.
Qed.
Lemma encode_empty s : EncodeToString s = "" → s = "".
Proof. by destruct s as [|a [|b [|c s]]]. Qed.

(** ** Tokens *)

Lemma Cut_at sep l r : string_forall (λ c, negb (c == sep)) l = true → Cut sep (l +:+ String sep r) = Some (l, r).
Proof.
  induction l as [|c l IH]; cbn [string_forall].
  - intros _. change ("" +:+ String sep r) with (String sep r). cbn [Cut]. by rewrite bool_decide_true by done.
  - intros [Hc Hl]%andb_true_iff. change (String c l +:+ String sep r) with (String c (l +:+ String sep r)). cbn [Cut].
    apply negb_true_iff in Hc. rewrite Hc, (IH Hl). done.
Qed.
Lemma resource_id_chars id : ValidResourceID id = true → string_forall (λ c, is_hex c || Ascii.eqb c "-") id = true.
Proof.
  unfold ValidResourceID, string_foralli. intros [_ H]%andb_true_iff. revert H. generalize 0%nat.
  induction id as [|c id IH]; [done|]. intros i. cbn. intros [Hc Hid]%andb_true_iff. rewrite (IH _ Hid), andb_true_r.
  unfold uuid_char in Hc. destruct (dash_position i); rewrite Hc; [by rewrite orb_true_r|done].
Qed.
Lemma prefix_cut p s : cut_prefix p (p +:+ s) = Some s.
Proof. induction p as [|c p IH]; [done|]. change (String c p +:+ s) with (String c (p +:+ s)). cbn [cut_prefix]. by rewrite Ascii.eqb_refl. Qed.
(** Reading an issued approval token gives back the grant and the secret
    it was made of, for every grant identifier and every 32-byte secret: the
    base64 text, the separator and the trimming lose nothing. *)
Theorem token_roundtrip grantID secret :
  ValidResourceID grantID = true → String.length secret = approvalSecretBytes →
  ParseToken (issued_token grantID secret) = Ok (grantID, secret).
Proof.
  intros Hid Hlen. pose proof (resource_id_chars _ Hid) as Hchars. unfold ParseToken.
  assert (string_forall is_graphic (issued_token grantID secret) = true) as Hg.
  { assert (string_forall is_graphic grantID = true) as Hi
      by (eapply string_forall_impl, Hchars; intros c; by destruct c as [[] [] [] [] [] [] [] []]).
    unfold issued_token. rewrite !string_forall_app, encode_graphic, Hi. reflexivity. }
  rewrite (graphic_trimmed _ Hg). clear Hg. rewrite bool_decide_false by done.
  assert (EncodeToString secret ≠ "") as Hne by (intros He%encode_empty; by rewrite He in Hlen).
  unfold issued_token, HasPrefix, TrimPrefix. rewrite !prefix_cut. cbn [default reject require negb bool_decide].
  rewrite bool_decide_true by by eexists. cbn [mbind result_bind reject require].
  change ("." +:+ EncodeToString secret) with (String "." (EncodeToString secret)). unfold id. rewrite Cut_at.
  - rewrite Hid, bool_decide_false by done. cbn [negb andb require mbind result_bind]. by rewrite decode_encode, Hlen.
  - eapply string_forall_impl, Hchars. intros c. by destruct c as [[] [] [] [] [] [] [] []].
Qed.
Lemma token_roundtrip_witness :
  ValidResourceID wo_grant_id = true ∧
  ParseToken (issued_token wo_grant_id "0123456789abcdef0123456789abcdef") = Ok (wo_grant_id, "0123456789abcdef0123456789abcdef").
Proof. split; [reflexivity|]. exact (token_roundtrip wo_grant_id "0123456789abcdef0123456789abcdef" eq_refl eq_refl). Defined.

(** ** Grants over time *)

Section grants.
Variables (Text SHA256Hex : string → string).
Notation steps used := (rtc (operation_step Text used)).
Lemma issue_step used done fresh random now request r : fresh ∉ used →
  operation_step Text used r (Issue SHA256Hex done fresh random now request r).1.
Proof.
  intros Hf. unfold Issue. match goal with |- context [match ?x with Ok _ => _ | Err _ => _ end] => destruct x as [secret|e] end.
  - destruct (PutApprovalGrant _ r) as [r1 res] eqn:Hp. cbn. by eapply step_grant; [|exact Hp].
  - apply (step_environment _ _ _ _ (repo_now r) (repo_commits r)). by destruct r.
Qed.
(** A stored grant is what it was, or is consumed. *)
Lemma grant_kept used r r' id g : id ∈ used → store_operations_ok (repo_snapshot r) → steps used r r' →
  (∀ g', GrantByID id r = Some g' → g' = g) →
  ∀ g', GrantByID id r' = Some g' → g' = g ∨ grant_Status g' = ApprovalGrantConsumed.
Proof.
  intros Hin Hok Hr Hg. enough (store_operations_ok (repo_snapshot r') ∧
    ∀ g', GrantByID id r' = Some g' → g' = g ∨ grant_Status g' = ApprovalGrantConsumed) by tauto.
  pattern r'. eapply rtc_ind_r; [split; [exact Hok|intros g' Hg'; left; exact (Hg g' Hg')]| |exact Hr].
  clear r' Hr. intros r1 r2 _ Hst [Hok' IH].
  pose proof (step_effect _ _ _ _ Hok' Hst) as He. split; [by eapply effect_ok|].
  unfold GrantByID in *. destruct He as [->|(value & Hs & _ & Hc)]; [done|]. rewrite Hs.
  intros g' Hg'%(compacted_grant Text). apply Hc in Hg' as [?|[_ [?|(old & _ & _ & ?)]]]; [by apply IH|done|by right].
Qed.
(** What a successful second half of [Consume] did. *)
Lemma consume_loaded_ok grant hash now record r r' gid approved : store_operations_ok (repo_snapshot r) →
  consume_loaded Text grant hash now record r = (r', Ok (gid, approved)) →
  grant_for grant record = Ok tt ∧ gid = grant_ResourceID grant ∧
  ∃ g, GrantByID gid r = Some g ∧ grant_Status g = ApprovalGrantActive ∧
    (if IsZero now then repo_now r else now) < grant_ExpiresAt g ∧
    (∀ g', GrantByID gid r' = Some g' → g' = consumed_grant (if IsZero now then repo_now r else now) (rec_ResourceID record) g).
Proof.
  intros [Hok Hgok]. unfold consume_loaded. destruct (grant_for grant record) as [[]|e]; [|done].
  destruct (ConsumeApprovalGrant Text _ _) as [r1 [[g1 a]|e]] eqn:Hc; [|intros [= _ H]; exfalso; by repeat case_match].
  intros [= -> <- ->]. destruct (consume_spec _ _ _ _ _ _ Hc) as (g0 & o0 & Hg0 & Ho0 & _ & Ha & Hexp & _ & _ & _ & _ & -> & Hs). cbn in Hg0, Ho0.
  assert (grant_ResourceID g0 = grant_ResourceID grant) as Hid by by apply Hgok.
  assert (rec_ResourceID o0 = rec_ResourceID record) as Hio by by apply (ok_ids _ _ Hok _ o0).
  change (grant_ResourceID (consumed_grant _ _ g0)) with (grant_ResourceID g0) in *. rewrite Hid.
  split_and!; [done|done|]. exists g0. split_and!; [exact Hg0|exact Ha|exact Hexp|]. intros g'. unfold GrantByID. rewrite Hs.
  intros Hg'%(compacted_grant Text). cbn in Hg'. rewrite Hid, lookup_insert_eq in Hg'. injection Hg' as <-. by rewrite Hio.
Qed.
Lemma load_ok done now token r grant hash : loadToken SHA256Hex done now token r = Ok (grant, hash) →
  ∃ id secret, ParseToken token = Ok (id, secret) ∧ GrantByID id r = Some grant ∧ hash = tokenHash SHA256Hex secret ∧
    grant_TokenHash grant = hash ∧ grant_Status grant = ApprovalGrantActive ∧ now < grant_ExpiresAt grant.
Proof.
  unfold loadToken. intros H. repeat bsimpl_step. destruct (ParseToken token) as [[id secret]|] eqn:Hp; [|done].
  match goal with H : Ok _ = Ok ?x |- _ => injection H as <- end.
  destruct (GrantByID id r) as [g|] eqn:Hg; [|done]. repeat bsimpl_step. destruct (grant_Status g) eqn:Hs; try done.
  repeat bsimpl_step. injection H as <- <-. exists id, secret. split_and!; try done.
  match goal with H : Before _ _ = true |- _ => unfold Before in H; by apply Z.ltb_lt in H end.
Qed.
Lemma blocking_none sets c : blockingCheckNames sets = [] → c ∈ concat sets → check_Status c ≠ CheckFail.
Proof.
  unfold blockingCheckNames. intros Hn Hc Hf.
  assert (check_label c ∈ merge_sort id_le (elements (list_to_set (check_label <$> filter (λ c, check_Status c = CheckFail) (concat sets)) : gset string)))
    as Hin; [|by rewrite Hn in Hin; apply elem_of_nil in Hin].
  rewrite merge_sort_Permutation, elem_of_elements, elem_of_list_to_set. apply list_elem_of_fmap. exists c. split; [done|].
  by apply list_elem_of_filter.
Qed.
Lemma put_grant_ok grant r r' : PutApprovalGrant grant r = (r', Ok tt) →
  ∀ g, GrantByID (grant_ResourceID grant) r' = Some g → g = grant.
Proof.
  unfold PutApprovalGrant. destruct (validateApprovalGrant _); [|done]. case_bool_decide; [done|].
  intros Hp%commit_spec g. destruct Hp as [_ [Hs _]]. unfold GrantByID. rewrite Hs.
  intros Hg%(compacted_grant Text). cbn in Hg. rewrite lookup_insert_eq in Hg. by injection Hg.
Qed.
Lemma issue_ok fresh random now request r r' grant token : Issue SHA256Hex false fresh random now request r = (r', Ok (grant, token)) →
  ∃ secret ttl, random = Some secret ∧ token = issued_token fresh secret ∧ ttl ≤ maximumTTL ∧
    blockingCheckNames [rec_Precheck (iss_Operation request); plan_Checks (rec_Plan (iss_Operation request))] = [] ∧
    ∀ g, GrantByID fresh r' = Some g → g = issued_grant SHA256Hex fresh now secret (TrimSpace (iss_IssuedBy request)) ttl (iss_Operation request).
Proof.
  unfold Issue. set (ttl := if iss_TTL request =? 0 then _ else _).
  match goal with |- context [match ?x with Ok _ => _ | Err _ => _ end] => destruct x as [secret|e] eqn:Hx end; [|done].
  repeat bsimpl_step. destruct random as [secret'|]; [|done]. injection Hx as ->.
  destruct (PutApprovalGrant _ r) as [r1 [[]|e]] eqn:Hp; [|done]. intros [= -> _ <-]. exists secret, ttl. split_and!; [done..|assumption|].
  exact (put_grant_ok _ _ _ Hp).
Qed.
Lemma grant_for_ok grant record : grant_for grant record = Ok tt →
  grantMatchesIntent grant (rec_Operation record) (rec_TargetID record) = true ∧ grant_OperationID grant = rec_ResourceID record ∧
  grant_PlanDigest grant = plan_Digest (rec_Plan record) ∧ grant_ObservationDigest grant = rec_Observation record.
Proof. unfold grant_for. intros H. repeat bsimpl_step. split_and!; assumption. Qed.
Lemma issued_matches fresh now secret issuedBy ttl record :
  grantMatchesIntent (issued_grant SHA256Hex fresh now secret issuedBy ttl record) (rec_Operation record) (rec_TargetID record) = true.
Proof.
  unfold grantMatchesIntent. rewrite !andb_true_iff. split_and!; apply bool_decide_eq_true_2; reflexivity.
Qed.
Lemma issued_limit fresh now secret issuedBy ttl record : ttl ≤ maximumTTL →
  grant_ExpiresAt (issued_grant SHA256Hex fresh now secret issuedBy ttl record) ≤ now + 15 * Minute.
Proof. intros H. apply Z.add_le_mono_l. exact H. Qed.
Lemma issued_ok_step fresh random now request r r' res :
  store_operations_ok (repo_snapshot r) → Issue SHA256Hex false fresh random now request r = (r', res) → store_operations_ok (repo_snapshot r').
Proof.
  intros Hok Hi. replace r' with (Issue SHA256Hex false fresh random now request r).1 by by rewrite Hi.
  eapply (steps_ok Text ∅ r); [exact Hok|]. apply rtc_once, issue_step, not_elem_of_empty.
Qed.
Lemma consume_loaded_step used grant hash now record r : operation_step Text used r (consume_loaded Text grant hash now record r).1.
Proof.
  unfold consume_loaded. destruct (grant_for grant record).
  - destruct (ConsumeApprovalGrant Text _ _) as [r1 res] eqn:Hc. by eapply step_consume.
  - apply (step_environment _ _ _ _ (repo_now r) (repo_commits r)). by destruct r.
Qed.
(** A consumed grant authorises nothing more. *)
Lemma consumed_for_good used grant hash now record r r' gid approved r2 grant' hash' now' record' :
  gid ∈ used → store_operations_ok (repo_snapshot r) → consume_loaded Text grant hash now record r = (r', Ok (gid, approved)) →
  steps used r' r2 → grant_ResourceID grant' = gid → is_ok (consume_loaded Text grant' hash' now' record' r2).2 = false.
Proof.
  intros Hin Hok Hc Hst Hid. destruct (consume_loaded_ok _ _ _ _ _ _ _ _ Hok Hc) as (_ & _ & g & _ & _ & _ & Hg).
  assert (store_operations_ok (repo_snapshot r')) as Hok'.
  { replace r' with (consume_loaded Text grant hash now record r).1 by by rewrite Hc.
    eapply (steps_ok Text used r); [exact Hok|]. apply rtc_once, consume_loaded_step. }
  pose proof (steps_grant Text _ _ _ _ _ Hin Hok' Hst Hg ltac:(discriminate)) as Hg2.
  destruct (consume_loaded Text grant' hash' now' record' r2) as [r3 [[gid' approved']|e]] eqn:Hc'; [exfalso|done].
  destruct (consume_loaded_ok _ _ _ _ _ _ _ _ (steps_ok Text _ _ _ Hok' Hst) Hc') as (_ & -> & g' & Hg' & Ha & _).
  rewrite Hid in Hg'. apply Hg2 in Hg' as ->. done.
Qed.
End grants.


(** ** A token used *)

Definition wt_secret : string := "0123456789abcdef0123456789abcdef".
Definition wt_record : OperationRecord := default zero_OperationRecord (OperationByID wo_id wo_r3).
Definition wt_issued : Repository * result approval_error (ApprovalGrant * string) :=
  Issue wo_text false wo_grant_id (Some wt_secret) w_now (mkIssue wt_record "operator" 0) wo_r3.
Definition wt_grant : ApprovalGrant := default wo_grant (GrantByID wo_grant_id wt_issued.1).
Definition wt_token : string := issued_token wo_grant_id wt_secret.
Definition wt_consumed : Repository * result approval_error (ResourceID * OperationRecord) :=
  consume_loaded wo_text wt_grant (tokenHash wo_text wt_secret) (w_now + Minute) wt_record wt_issued.1.
Definition wt_approved : OperationRecord := match wt_consumed.2 with Ok (_, o) => o | Err _ => wt_record end.
Lemma wt_r3_ok : store_operations_ok (repo_snapshot wo_r3).
Proof.
  apply (steps_ok wo_text ∅ wo_r0); [exact empty_ok|]. eapply rtc_l; [exact wo_steps01|].
  eapply rtc_l; [exact (step_plan _ _ _ _ wo_plan_id wo_id 1 wo_plan _ (surjective_pairing _))|].
  apply rtc_once. exact (step_transition _ _ _ _ wo_id 2 wo_observed _ (surjective_pairing _)).
Qed.
Lemma wt_issue_ok : Issue wo_text false wo_grant_id (Some wt_secret) w_now (mkIssue wt_record "operator" 0) wo_r3 = (wt_issued.1, Ok (publicGrant wt_grant, wt_token)).
Proof. vm_compute. reflexivity. Qed.
Lemma wt_load_ok : loadToken wo_text false (w_now + 1) wt_token wt_issued.1 = Ok (wt_grant, tokenHash wo_text wt_secret).
Proof. vm_compute. reflexivity. Qed.
Lemma wt_consume_ok : consume_loaded wo_text wt_grant (tokenHash wo_text wt_secret) (w_now + Minute) wt_record wt_issued.1 = (wt_consumed.1, Ok (wo_grant_id, wt_approved)).
Proof. vm_compute. reflexivity. Qed.
