(* ===== verification/WorkflowBase.v ===== *)
(** * internal/workflow: the service and what it calls

    The workflow service drives an operation through its stages.  What it
    calls (the durable operation store, the journal, the discovery validator,
    the resolver, the database adapter, the safety guard, the operation locks
    and the approval service) are the actions of [workflow_signature]; the
    programs of [Workflow] are [prog]s over them.

    [workflow.go]'s errors, [durable.go]'s and [abandoned.go]'s pure helpers
    and the requests are here.  An error keeps its text, the failure class of
    the first error of its chain that has one, and whether the chain says that
    the store committed. *)
From S2P Require Import Prelude GoStd Model Endpoint Lease Locks Repository Operations Interfaces Candidates Program MySQLAdapter.
#[local] Open Scope Z_scope.

(** ** Errors *)

Record error : Type := mkError { err_Text : string; err_FailureClass : option string; err_Committed : bool }.
#[export] Instance eta_error : Settable error := λ e, mkError (err_Text e) (err_FailureClass e) (err_Committed e).
(** [errors.New], [fmt.Errorf("%w")], [errors.Join] of two errors that are not nil. *)
Definition newError (text : string) : error := mkError text None false.
Definition wrapError (prefix : string) (e : error) : error := e <| err_Text ::= λ text, prefix +:+ text |>.
Definition line_feed : string := String (ascii_of_nat 10) EmptyString.
Definition joinErrors (e e' : error) : error :=
  mkError (err_Text e +:+ line_feed +:+ err_Text e')
    (match err_FailureClass e with Some class => Some class | None => err_FailureClass e' end)
    (err_Committed e || err_Committed e').
(** [errors.Join] of errors that may be nil. *)
Definition joinMaybe (e e' : option error) : option error :=
  match e, e' with Some e, Some e' => Some (joinErrors e e') | Some e, None => Some e | None, e' => e' end.
Definition ErrUnsupported : error := newError "capability is unsupported".
Definition ErrOperationInProgress : error := newError "operation is already in progress".
Definition journalPersistenceError (e : error) : error := wrapError "workflow journal persistence failed: " e.
Definition operationFailureClass (e : error) : string := default "" (err_FailureClass e).
Definition isCommittedWarning (e : error) : bool := err_Committed e.
Definition preCommitAdapterExecutionError (e : error) : error := e <| err_FailureClass := Some "pre_commit" |>.

(** [normalizeAdapterExecutionError]: what the adapter blocked before a mutation is classified. *)
Definition normalizeAdapterExecutionError (execution : Execution) (err : option error) : option error :=
  if exec_Status execution != OperationBlocked then err
  else
    let e := match err with
             | Some e => e
             | None => newError (if exec_Message execution == "" then "adapter blocked execution before mutation"
                                 else exec_Message execution)
             end in
    Some (if operationFailureClass e != "" then e else preCommitAdapterExecutionError e).

(** ** Requests *)

Record OperationCredentials : Type := mkOperationCredentials { oc_Administrative : Credentials; oc_Replication : Credentials }.
(** The progress an adapter is handed: the durable record's, or the results of a continuation. *)
Inductive Progress : Type :=
| repositoryProgress (operationID : ResourceID)
| automaticResumeProgress (results : gmap string string).
(** [adapter.OperationRequest]. *)
Record Request : Type := mkRequest {
  rq_Operation : Operation; rq_TargetID : ResourceID; rq_SourceID : ResourceID; rq_AutomaticFailureIncidentAt : Time;
  rq_IdempotencyKey : string; rq_Parameters : gmap string string; rq_Credentials : Credentials;
  rq_ReplicationCredentials : Credentials; rq_Resolved : option MySQLOperation; rq_Plan : option OperationPlan;
  rq_Progress : option Progress
}.
#[export] Instance eta_Request : Settable Request := λ r,
  mkRequest (rq_Operation r) (rq_TargetID r) (rq_SourceID r) (rq_AutomaticFailureIncidentAt r) (rq_IdempotencyKey r)
    (rq_Parameters r) (rq_Credentials r) (rq_ReplicationCredentials r) (rq_Resolved r) (rq_Plan r) (rq_Progress r).
(** The fields the MySQL adapter reads. *)
Definition mysql_request (request : Request) : OperationRequest :=
  mkOperationRequest (rq_Operation request) (rq_TargetID request) (rq_Parameters request) (rq_Resolved request) (rq_Plan request)
    (match rq_Progress request with None => NoProgress | Some _ => ProgressReader end).

(** [adapter.MetadataRequest]. *)
Record MetadataRequest : Type := mkMetadataRequest { mr_ClusterID : ResourceID; mr_Instance : DatabaseInstance }.

Inductive Capability : Type :=
| CapabilityDiscover | CapabilityTopology | CapabilityHealth | CapabilityPrecheck | CapabilityPlan | CapabilityExecute
| CapabilityVerify | CapabilityNodeSync | CapabilityMetadataReconcile | CapabilityMetrics | CapabilityCandidates.
#[export] Instance Capability_eq_dec : EqDecision Capability.
Proof. solve_decision. Defined.
Definition capability_name (c : Capability) : string :=
  match c with
  | CapabilityDiscover => "discover" | CapabilityTopology => "topology" | CapabilityHealth => "health"
  | CapabilityPrecheck => "precheck" | CapabilityPlan => "plan" | CapabilityExecute => "execute" | CapabilityVerify => "verify"
  | CapabilityNodeSync => "node_sync" | CapabilityMetadataReconcile => "metadata_reconcile" | CapabilityMetrics => "metrics"
  | CapabilityCandidates => "candidates"
  end.
Record CapabilityState : Type := mkCapabilityState { cs_Available : bool; cs_Mutating : bool; cs_Reason : string }.
(** [Capabilities.Features], in any order; [Supports]. *)
Abbreviation Capabilities := (list (Capability * CapabilityState)) (only parsing).
Definition Supports (features : Capabilities) (capability : Capability) : bool :=
  match list_find (λ f, fst f = capability) features with Some (_, (_, state)) => cs_Available state | None => false end.

(** [ObservationToken], and the label that stands for it in a record. *)
Record ObservationToken : Type := mkObservationToken {
  ot_ClusterID : ResourceID; ot_ObservedAt : Time; ot_Digest : string; ot_Snapshot : TopologySnapshot
}.
Definition observationLabel (FormatTime : Time → string) (token : ObservationToken) : string :=
  ot_ClusterID token +:+ "@" +:+ (if ot_Digest token != "" then ot_Digest token else FormatTime (ot_ObservedAt token)).

(** ** The environment *)

(** A context: the caller's, the one the operation lock guards, and one detached from its cancellation. *)
Inductive WorkflowContext : Type := CallerContext | LeaseContext | DetachedContext (timeout : Duration).

(** What [CreateOperation] returns: a record, possibly beside the error of its commit. *)
Inductive create_answer : Type :=
| Created (record : OperationRecord) (reused : bool)
| CreateWarned (record : OperationRecord) (e : error)
| CreateFailed (e : error).

Inductive workflow_action : Type :=
| ReadClock
| NewResourceID
| StoreCreate (record : OperationRecord)
| StorePutPlan (id : ResourceID) (revision : uint64) (plan : OperationPlan)
| StoreTransition (id : ResourceID) (revision : uint64) (transition : OperationTransition)
| StoreRead (id : ResourceID)
| StoreReadKey (key : string)
| StoreList (clusterID : ResourceID)
| StoreFinalize (id : ResourceID) (revision : uint64) (transition : OperationTransition) (audits : list AuditEvent) (reports : list Report)
| StoreFinalizeAbandoned (id : ResourceID) (revision : uint64) (observedAt staleBefore : Time) (transition : OperationTransition)
    (audits : list AuditEvent) (reports : list Report)
| RecordAudit (event : AuditEvent)
| RecordReport (report : Report)
| CaptureObservation (ctx : WorkflowContext) (operation : Operation)
| RevalidateObservation (ctx : WorkflowContext) (operation : Operation) (token : ObservationToken)
| ResolveOperation (ctx : WorkflowContext) (request : Request) (captured : option ObservationToken)
| AdapterCapabilities (candidate : Engine) (ctx : WorkflowContext)
| AdapterPrecheck (candidate : Engine) (ctx : WorkflowContext) (request : Request)
| AdapterBuildPlan (candidate : Engine) (ctx : WorkflowContext) (request : Request)
| AdapterExecute (candidate : Engine) (ctx : WorkflowContext) (request : Request)
| AdapterVerify (candidate : Engine) (ctx : WorkflowContext) (request : Request)
| EvaluateSafety (ctx : WorkflowContext) (operation : Operation)
| AcquireLock (ctx : WorkflowContext) (operation : Operation)
| ReleaseLock
| LeaseCause                                        (* [context.Cause] of the lease's context *)
| ConsumeApproval (ctx : WorkflowContext) (record : OperationRecord) (token : string)
| ValidateApproval (ctx : WorkflowContext) (operation : Operation) (token : string)
| MetadataPrecheck (candidate : Engine) (ctx : WorkflowContext) (request : MetadataRequest)
| ReconcileMetadata (candidate : Engine) (ctx : WorkflowContext) (request : MetadataRequest)
| CommitMetadata                                    (* the caller's [commit] *)
| ClaimOperation (id : ResourceID)
| ReleaseOperation (id : ResourceID)
| ContextError (ctx : WorkflowContext)              (* [ctx.Err()] *)
| WaitRetry (ctx : WorkflowContext) (interval : Duration).
Definition workflow_answer (c : workflow_action) : Type :=
  match c with
  | ReadClock => Time
  | NewResourceID => ResourceID
  | StoreCreate _ => create_answer
  | StorePutPlan _ _ _ | StoreTransition _ _ _ | StoreFinalize _ _ _ _ _ => result error OperationRecord
  | StoreRead _ | StoreReadKey _ => option OperationRecord
  | StoreList _ => list OperationRecord
  | StoreFinalizeAbandoned _ _ _ _ _ _ _ => result error (OperationRecord * bool)
  | RecordAudit _ | RecordReport _ | RevalidateObservation _ _ _ | EvaluateSafety _ _ | AcquireLock _ _
  | ValidateApproval _ _ _ | ReconcileMetadata _ _ _ => result error unit
  | CaptureObservation _ _ => result error ObservationToken
  | ResolveOperation _ _ _ => result error Request
  | AdapterCapabilities _ _ => Capabilities
  | AdapterPrecheck _ _ _ | MetadataPrecheck _ _ _ => result error (list Check)
  | AdapterBuildPlan _ _ _ => result error OperationPlan
  | AdapterExecute _ _ _ => Execution * option error
  | AdapterVerify _ _ _ => Verification * option error
  | ReleaseLock | ReleaseOperation _ => unit
  | LeaseCause | ContextError _ | CommitMetadata => option error
  | ConsumeApproval _ _ _ => result error (ResourceID * OperationRecord)
  | ClaimOperation _ | WaitRetry _ _ => bool
  end.
#[export] Instance workflow_signature : Signature := {| action := workflow_action; answer := workflow_answer |}.
Abbreviation workflow := (prog (Sg:=workflow_signature)) (only parsing).
Definition perform (c : workflow_action) : workflow (workflow_answer c) := call (Sg:=workflow_signature) c.
Definition fail {E A} (e : E) : workflow (result E A) := Ret (Err e).
Definition proceed {E} : workflow (result E unit) := Ret (Ok tt).

(** ** The service *)

(** [Service]: which of its parts are configured; the registry lists the engines that have an adapter.  The approval service of
    [sv_administrative] validates administrative approvals too. *)
Record Service : Type := mkService {
  sv_registry : option (list Engine); sv_operations : bool; sv_resolver : bool; sv_discovery : bool; sv_safety : bool;
  sv_locks : bool; sv_approval : bool; sv_administrative : bool; sv_journal : bool; sv_atomicFinalizer : bool; sv_abandonedFinalizer : bool
}.
Definition WildcardEngine : Engine := EngineOther "*".
(** [Registry.Get]: the engine's adapter, else the one that serves every engine. *)
Definition registry_Get (registry : list Engine) (engine : Engine) : option Engine :=
  if bool_decide (engine ∈ registry) then Some engine
  else if bool_decide (WildcardEngine ∈ registry) then Some WildcardEngine else None.
Definition resolveAdapter (registry : list Engine) (operation : Operation) : option Engine :=
  if opn_Kind operation == OperationPowerShutdown then registry_Get registry WildcardEngine
  else registry_Get registry (opn_Engine operation).

Record executionAuthorization : Type := mkAuthorization { ea_approvalToken : string; ea_automatic : bool; ea_incidentID : string }.
Definition AutomaticRecoveryActor : string := "clusterguard-automatic-recovery".

(** ** Pure helpers *)

Definition durableStageOrder (stage : WorkflowStage) : Z :=
  match list_find (stage =.)
          [StageDiscover; StagePrecheck; StagePlan; StageSafetyGuard; StageLock; StageApprove; StageExecute; StageVerify;
           StageAudit; StageReport] with
  | Some (index, _) => Z.of_nat index + 1
  | None => 0
  end.
Definition durableTerminalStatus (status : OperationStatus) : bool :=
  match status with
  | OperationBlocked | OperationSucceeded | OperationFailed | OperationIndeterminate | OperationUnsupported => true
  | _ => false
  end.
Definition hasBlockingCheck (checks : list Check) : bool := existsb (λ c, check_Status c == CheckFail) checks.
Definition verificationTimeout (engine : Engine) : Duration := if engine == EngineOracle then 240 * Second else 30 * Second.
Definition verificationOutcomeMessage (verification : Verification) (err : option error) : string :=
  match err with
  | Some e => "post-commit verification failed: " +:+ err_Text e
  | None => if Successful verification then "post-commit verification passed" else "post-commit verification found failed checks"
  end.
Definition markIndeterminate (execution : Execution) : Execution :=
  execution <| exec_Status := OperationIndeterminate |>
            <| exec_Message := "operation committed but workflow journal persistence failed" |>.
Definition markDurabilityIndeterminate (execution : Execution) : Execution :=
  execution <| exec_Status := OperationIndeterminate |>
            <| exec_Message := "operation committed but persistence durability could not be confirmed" |>.

(** An execution and the error it is returned with. *)
Definition outcome : Type := Execution * option error.
Definition journalFailure (execution : Execution) (e : error) : outcome :=
  (execution <| exec_Status := OperationFailed |> <| exec_Message := "workflow journal persistence failed" |>,
   Some (journalPersistenceError e)).
Definition journalIndeterminate (execution : Execution) (e : error) : outcome :=
  (markIndeterminate execution, Some (journalPersistenceError e)).
(** What a finished operation answers when it is requested again. *)
(** The earlier error of the two. *)
Definition firstJournalError (current candidate : option error) : option error := from_option Some candidate current.
Definition failure {A} (r : result error A) : option error := match r with Ok _ => None | Err e => Some e end.
Definition markLockLeaseIndeterminate (execution : Execution) : Execution :=
  execution <| exec_Status := OperationIndeterminate |>
    <| exec_Message := "metadata commit returned after the operation lock lease was lost; committed state requires verification" |>.
Definition status_text (status : OperationStatus) : string :=
  match status with
  | OperationPlanned => "planned" | OperationRunning => "running" | OperationBlocked => "blocked"
  | OperationSucceeded => "succeeded" | OperationFailed => "failed" | OperationIndeterminate => "indeterminate"
  | OperationUnsupported => "unsupported" | OperationStatusOther raw => raw
  end.
Definition verified_record (record : OperationRecord) : bool :=
  Successful (rec_Verification record) && (ver_OperationID (rec_Verification record) == rec_ResourceID record).
Definition terminalRecordResult (record : OperationRecord) : outcome :=
  let execution :=
    if exec_OperationID (rec_Execution record) == "" then
      (rec_Execution record) <| exec_OperationID := rec_ResourceID record |> <| exec_Status := rec_Status record |>
                             <| exec_Message := rec_Message record |>
    else rec_Execution record in
  match rec_Status record with
  | OperationSucceeded =>
      if verified_record record then (execution, None)
      else
        let message := "persisted verification is incomplete or inconsistent; operation requires review" in
        (execution <| exec_Status := OperationIndeterminate |> <| exec_Message := message |>, Some (newError message))
  | OperationUnsupported => (execution, Some ErrUnsupported)
  | status =>
      (execution, Some (newError (if rec_Message record == "" then "operation ended with status " +:+ status_text status
                                  else rec_Message record)))
  end.

(** What is known of an operation whose executor stopped: the status, the failure class and the message it is closed with,
    and whether it may have changed a database. *)
Definition abandonedOperationOutcome (record : OperationRecord) : option (OperationStatus * string * string * bool) :=
  let stageOrder := durableStageOrder (rec_Stage record) in
  if stageOrder =? 0 then None
  else if stageOrder <? durableStageOrder StageExecute then
    Some (OperationFailed, "abandoned_pre_commit",
          "operation executor stopped before adapter execution; no database mutation was started", false)
  else if verified_record record then
    Some (OperationSucceeded, "", "persisted verification proves the abandoned operation completed successfully", true)
  else if rec_FailureClass record == "promoted_unverified" then
    Some (OperationIndeterminate, rec_FailureClass record,
          "automatic failover promotion remains unverified after its executor stopped", true)
  else Some (OperationIndeterminate, "abandoned_post_commit",
             "operation executor stopped after adapter execution began; verify database and endpoint state", true).
