(* ===== verification/Workflow.v ===== *)
(** * internal/workflow: driving an operation through its stages

    [durable.go]'s [executeDurable], cut at its stages, with the ways an
    operation is finished; [prepare.go]'s read-only preparation and manual
    verification; [automatic_resume.go]'s continuation of an unverified
    failover; [abandoned.go]'s recovery of operations without an executor;
    [progress.go]'s step commits.

    A phase answers [Err o] where the Go function returns [o] early.  Deferred
    calls are written where they run: after the phases, the last one deferred
    first. *)
From S2P Require Import Prelude GoStd Model Endpoint Lease Locks Repository Operations Interfaces Candidates Program MySQLAdapter WorkflowBase.
#[local] Open Scope Z_scope.

Definition kind_text (kind : OperationKind) : string :=
  match kind with
  | OperationSwitchover => "switchover" | OperationFailover => "failover" | OperationNodeSync => "node_sync"
  | OperationMetadataReconciliation => "metadata_reconciliation" | OperationFormerPrimaryRejoin => "former_primary_rejoin"
  | OperationReplicationRepair => "replication_repair" | OperationPowerShutdown => "power_shutdown" | OperationKindOther raw => raw
  end.
Definition stage_text (stage : WorkflowStage) : string :=
  match stage with
  | StageDiscover => "discover" | StagePrecheck => "precheck" | StagePlan => "plan" | StageSafetyGuard => "safety_guard"
  | StageLock => "lock" | StageApprove => "approve" | StageExecute => "execute" | StageVerify => "verify" | StageAudit => "audit"
  | StageReport => "report" | WorkflowStageOther raw => raw
  end.
(** The stage of the record, when it is further on. *)
Definition later_stage (record : OperationRecord) (stage : WorkflowStage) : WorkflowStage :=
  if durableStageOrder stage <? durableStageOrder (rec_Stage record) then rec_Stage record else stage.
(** Setting fields of an execution. *)
Definition marked (status : OperationStatus) (message : string) (execution : Execution) : Execution :=
  execution <| exec_Status := status |> <| exec_Message := message |>.

Section service.
Variables (FormatTime : Time → string) (service : Service).

(** ** Records of what happened *)

Definition newDurableExecution (operationID : ResourceID) (status : OperationStatus) (message : string) : workflow Execution :=
  timestamp ←? perform ReadClock;
  fresh ←? perform NewResourceID;
  Ret (mkExecution fresh 1 timestamp timestamp operationID status timestamp timestamp message).
Definition auditEvent (operation : Operation) (stage : WorkflowStage) (message : string) : workflow AuditEvent :=
  now ←? perform ReadClock;
  fresh ←? perform NewResourceID;
  Ret (mkAuditEvent fresh 1 now now (opn_ResourceID operation) stage (opn_RequestedBy operation) message).
Definition terminalReport (operation : Operation) (execution : Execution) : workflow Report :=
  now ←? perform ReadClock;
  fresh ←? perform NewResourceID;
  Ret (mkReport fresh 1 now now (opn_ResourceID operation) (kind_text (opn_Kind operation) +:+ " report") (exec_Status execution)
         (exec_Message execution)).
Definition audit (operation : Operation) (stage : WorkflowStage) (message : string) : workflow (result error unit) :=
  if negb (sv_journal service) then fail (newError "workflow journal is not configured")
  else
    event ←? auditEvent operation stage message;
    perform (RecordAudit event) or_else
      (λ e, fail (wrapError ("persist " +:+ stage_text stage +:+ " audit event: ") e)).
(** The conservative report is made durable before the final one replaces it. *)
Definition report (operation : Operation) (execution : Execution) (operationCommitted : bool) : workflow (result error unit) :=
  if negb (sv_journal service) then fail (newError "workflow journal is not configured")
  else
    let fallback := if operationCommitted then markIndeterminate execution
                    else marked OperationFailed "workflow journal persistence failed" execution in
    recorded ←? terminalReport operation fallback;
    _ ←! (perform (RecordReport recorded) or_else (λ e, fail (wrapError "persist fallback operation report: " e)));
    perform (RecordReport (recorded <| report_Status := exec_Status execution |> <| report_Summary := exec_Message execution |>))
      or_else (λ e, if isCommittedWarning e then proceed else fail (wrapError "persist terminal operation report: " e)).

Definition lockLeaseFailure : workflow (option error) :=
  cause ←? perform LeaseCause;
  Ret (match cause with
       | Some e => if bool_decide (err_FailureClass e = Some "lock_lease_lost") then Some e else None
       | None => None
       end).

(** ** The durable record *)

Definition durableRecord (id : ResourceID) : workflow (result error OperationRecord) :=
  record ←? perform (StoreRead id);
  Ret (match record with Some record => Ok record | None => Err (newError "durable operation record disappeared") end).
(** The record is written at its current revision, never at an earlier stage; a commit that only warns is read back. *)
Definition advanceDurable (id : ResourceID) (stage : WorkflowStage) (transition : OperationTransition)
  : workflow (result error OperationRecord) :=
  record ←! durableRecord id;
  let transition := transition <| trans_Stage := later_stage record stage |>
    <| trans_Status := if trans_Status transition == no_status then OperationRunning else trans_Status transition |> in
  perform (StoreTransition (rec_ResourceID record) (rec_MetadataRevision record) transition) or_else
    (λ e, if isCommittedWarning e then durableRecord id else fail e).
Definition putDurablePlan (record : OperationRecord) (plan : OperationPlan) : workflow (OperationRecord * option error) :=
  if plan_Digest (rec_Plan record) != "" then
    Ret (record, if plan_Digest (rec_Plan record) != plan_Digest plan
                 then Some (newError "persisted operation plan differs from current topology") else None)
  else
    written ←? perform (StorePutPlan (rec_ResourceID record) (rec_MetadataRevision record) plan);
    match written with
    | Ok updated => Ret (updated, None)
    | Err e =>
        if isCommittedWarning e then
          read ←? durableRecord (rec_ResourceID record);
          Ret (match read with Ok record => (record, None) | Err e => (zero_OperationRecord, Some e) end)
        else Ret (record, Some e)
    end.

(** ** Finishing an operation *)

Section finish.
Variables (id : ResourceID) (operation : Operation) (operationCommitted : bool).

(** The stage and the execution as they are recorded. *)
Definition finish_execution (execution : Execution) (cause : option error) : Execution :=
  let execution := if exec_OperationID execution == "" then execution <| exec_OperationID := id |> else execution in
  let execution := if exec_Status execution == no_status then execution <| exec_Status := OperationFailed |> else execution in
  match cause with
  | Some e => if exec_Message execution == "" then execution <| exec_Message := err_Text e |> else execution
  | None => execution
  end.
(** The transition, the audit events and the report become durable together. *)
Definition finish_atomic (record : OperationRecord) (stage : WorkflowStage) (execution : Execution) (failureClass : string)
    (cause : option error) (finalAudits : list AuditEvent) : workflow outcome :=
  event ←? auditEvent operation stage (exec_Message execution);
  closing ←? (if stage != StageReport then
                event ←? auditEvent operation StageReport "terminal operation report generated"; Ret [event]
              else Ret []);
  recorded ←? terminalReport operation execution;
  finalized ←? perform (StoreFinalize id (rec_MetadataRevision record)
    (zero_OperationTransition <| trans_Stage := stage |> <| trans_Status := exec_Status execution |>
       <| trans_Execution := Some execution |> <| trans_FailureClass := failureClass |> <| trans_Message := exec_Message execution |>)
    (finalAudits ++ event :: closing) [recorded]);
  Ret (match finalized with
       | Ok _ => (execution, cause)
       | Err e =>
           let e := wrapError "atomically persist terminal operation timeline: " e in
           if operationCommitted then (markDurabilityIndeterminate execution, Some (journalPersistenceError e))
           else journalFailure execution e
       end).
(** Without that store, the journal comes first, and its failure decides the outcome. *)
Definition finish_journal (stage : WorkflowStage) (execution : Execution) (failureClass : string) (cause : option error)
  : workflow outcome :=
  let conservative execution := if operationCommitted then markIndeterminate execution
                                else marked OperationFailed "workflow journal persistence failed" execution in
  first ←? audit operation stage (exec_Message execution);
  closing ←? (if stage != StageReport then audit operation StageReport "terminal operation report generated" else Ret (Ok tt));
  let journalErr := firstJournalError (failure first) (failure closing) in
  reported ←? report operation (if bool_decide (is_Some journalErr) then conservative execution else execution) operationCommitted;
  let journalErr := firstJournalError journalErr (failure reported) in
  let '(execution, failureClass, cause) :=
    match journalErr with
    | Some e => (conservative execution, (if failureClass == "" then "journal" else failureClass), Some (journalPersistenceError e))
    | None => (execution, failureClass, cause)
    end in
  read ←? durableRecord id;
  match read with
  | Err e => Ret (execution, Some e)
  | Ok record =>
      written ←? perform (StoreTransition id (rec_MetadataRevision record)
        (zero_OperationTransition <| trans_Stage := stage |> <| trans_Status := exec_Status execution |>
           <| trans_Execution := Some execution |> <| trans_FailureClass := failureClass |>
           <| trans_Message := exec_Message execution |>));
      Ret (match written with
           | Ok _ => (execution, cause)
           | Err e =>
               if isCommittedWarning e then (execution, cause)
               else if operationCommitted then
                 (markDurabilityIndeterminate execution,
                  Some (journalPersistenceError (wrapError "persist terminal operation state: " e)))
               else journalFailure execution e
           end)
  end.

Definition finishDurable (stage : WorkflowStage) (execution : Execution) (failureClass : string) (cause : option error)
  : workflow outcome :=
  read ←? durableRecord id;
  match read with
  | Err e => Ret (execution, Some e)
  | Ok record =>
      let stage := later_stage record stage in
      let execution := finish_execution execution cause in
      if sv_atomicFinalizer service then finish_atomic record stage execution failureClass cause []
      else finish_journal stage execution failureClass cause
  end.
End finish.

(** [finishDurableWithAudits] with audit events of its own. *)
Definition finishDurableWithAudits (id : ResourceID) (operation : Operation) (stage : WorkflowStage) (execution : Execution)
    (failureClass : string) (cause : option error) (operationCommitted : bool) (finalAudits : list AuditEvent) : workflow outcome :=
  read ←? durableRecord id;
  match read with
  | Err e => Ret (execution, Some e)
  | Ok record =>
      let stage := later_stage record stage in
      let execution := finish_execution id execution cause in
      if sv_atomicFinalizer service then finish_atomic id operation operationCommitted record stage execution failureClass cause finalAudits
      else if bool_decide (finalAudits = []) then finish_journal id operation operationCommitted stage execution failureClass cause
      else
        let atomicErr := newError "atomic operation finalizer is not configured" in
        if operationCommitted then
          finishDurable id operation true StageVerify
            (marked OperationIndeterminate "operation committed and verified, but atomic terminal persistence is unavailable" execution)
            "journal" (Some (journalPersistenceError atomicErr))
        else Ret (journalFailure execution atomicErr)
  end.

Definition finishDurableJournalFailure (id : ResourceID) (operation : Operation) (stage : WorkflowStage) (journalErr : error)
    (operationCommitted : bool) : workflow outcome :=
  execution ←? (if operationCommitted
                then newDurableExecution id OperationIndeterminate "workflow journal persistence failed after adapter execution began"
                else newDurableExecution id OperationFailed "workflow journal persistence failed before adapter execution");
  finished ←? finishDurable id operation operationCommitted stage execution "journal" None;
  let '(execution, finalizeErr) := (finished : outcome) in
  Ret (execution, Some (journalPersistenceError
         (match finalizeErr with Some e => joinErrors journalErr e | None => journalErr end))).

(** An executor that returns while its record is still running closes it; the failure class says whether it had begun. *)
Definition interrupted (failureClass message : string) : string * string :=
  if failureClass == "abandoned_pre_commit" then
    ("interrupted_pre_commit", "workflow executor returned before adapter execution; no database mutation was started")
  else if failureClass == "abandoned_post_commit" then
    ("interrupted_post_commit", "workflow executor returned after adapter execution began; verify database and endpoint state")
  else (failureClass, message).
Definition finalizeRunningOperationOnExit (id : ResourceID) (operation : Operation) : workflow unit :=
  if negb (sv_atomicFinalizer service) then Ret tt
  else
    found ←? perform (StoreRead id);
    match found with
    | Some record =>
        if rec_Status record != OperationRunning then Ret tt
        else match abandonedOperationOutcome record with
        | None => Ret tt
        | Some (status, failureClass, message, committed) =>
            let '(failureClass, message) := interrupted failureClass message in
            execution ←? newDurableExecution id status message;
            let execution := if IsZero (exec_StartedAt (rec_Execution record)) then execution
                             else execution <| exec_StartedAt := exec_StartedAt (rec_Execution record) |> in
            _ ←? finishDurable id operation committed (if status == OperationSucceeded then StageReport else rec_Stage record)
                   execution failureClass None;
            Ret tt
        end
    | None => Ret tt
    end.

(** ** Executing an operation *)

(** [return f(...)] in the middle of the function. *)
Definition returns {A} (p : workflow outcome) : workflow (result outcome A) := o ←? p; Ret (Err o).
Definition join_outcome (p : workflow (result outcome outcome)) : workflow outcome :=
  r ←? p; Ret (match r with Ok o => o | Err o => o end).
(** [if err != nil { return model.Execution{}, err }]. *)
Definition giving_up {A} (e : error) : workflow (result outcome A) := Ret (Err (zero_Execution, Some e)).

Section execute.
Variables (id : ResourceID) (operation : Operation) (candidate : Engine) (authorization : executionAuthorization).

(** A finished execution that was not committed: a new execution record with [message], and the error. *)
Definition finish_new {A} (stage : WorkflowStage) (status : OperationStatus) (message failureClass : string) (cause : error)
  : workflow (result outcome A) :=
  returns (execution ←? newDurableExecution (opn_ResourceID operation) status message;
           finishDurable id operation false stage execution failureClass (Some cause)).
Definition finish_error {A} (stage : WorkflowStage) (status : OperationStatus) (failureClass : string) (e : error)
  : workflow (result outcome A) := finish_new stage status (err_Text e) failureClass e.
Definition finish_message {A} (stage : WorkflowStage) (status : OperationStatus) (failureClass message : string)
  : workflow (result outcome A) := finish_new stage status message failureClass (newError message).
(** The record moves on, and the journal says so. *)
Definition advance (stage : WorkflowStage) (transition : OperationTransition) : workflow (result outcome OperationRecord) :=
  advanceDurable id stage transition or_else giving_up.
Definition journaled (stage : WorkflowStage) (message : string) : workflow (result outcome unit) :=
  audit operation stage message or_else (λ e, returns (finishDurableJournalFailure id operation stage e false)).
Definition saying (message : string) : OperationTransition := zero_OperationTransition <| trans_Message := message |>.

(** The adapter must be able to do every stage. *)
Fixpoint require_capabilities (features : Capabilities) (required : list Capability) : workflow (result outcome unit) :=
  match required with
  | [] => Ret (Ok tt)
  | capability :: required =>
      if Supports features capability then require_capabilities features required
      else finish_new StagePrecheck OperationUnsupported
             ("operation " +:+ capability_name capability +:+ " is unsupported by this adapter") "unsupported" ErrUnsupported
  end.

(** Discovery: the observation the operation is bound to. *)
Definition observe_topology (record : OperationRecord) : workflow (result outcome (ObservationToken * OperationRecord)) :=
  observation ←! (perform (CaptureObservation CallerContext operation) or_else finish_error StageDiscover OperationBlocked "pre_commit");
  let label := observationLabel FormatTime observation in
  _ ←! (if (rec_Observation record != "") && (rec_Observation record != label) then
          finish_message (rec_Stage record) OperationBlocked "stale_plan" "topology observation changed since the operation was created"
        else proceed);
  record ←! advance StageDiscover ((saying "topology observation validated") <| trans_Observation := label |>);
  _ ←! journaled StageDiscover ("topology observation " +:+ label +:+ " validated");
  Ret (Ok (observation, record)).
Definition with_token (label : string) (request : Request) : Request :=
  request <| rq_Resolved ::= fmap (λ r, r <| mo_ObservationToken := label |>) |>.
(** The resources of the request as they were observed. *)
Definition resolve_observed (ctx : WorkflowContext) (stage : WorkflowStage) (failureClass : string) (observation : ObservationToken)
    (request : Request) : workflow (result outcome Request) :=
  request ←! (perform (ResolveOperation ctx request (Some observation)) or_else finish_error stage OperationBlocked failureClass);
  Ret (Ok (with_token (observationLabel FormatTime observation) request)).
Definition precheck_operation (request : Request) : workflow (result outcome OperationRecord) :=
  checks ←! (perform (AdapterPrecheck candidate CallerContext request) or_else finish_error StagePrecheck OperationFailed "pre_commit");
  record ←! advance StagePrecheck ((saying "adapter precheck completed") <| trans_Precheck := Some checks |>);
  _ ←! journaled StagePrecheck "adapter precheck completed";
  if hasBlockingCheck checks then finish_message StagePrecheck OperationBlocked "pre_commit" "precheck contains blocking checks"
  else Ret (Ok record).
(** The plan is written once; a plan that is already there must be of this observation. *)
Definition plan_operation (label : string) (request : Request) (record : OperationRecord) : workflow (result outcome OperationRecord) :=
  planned ←! (if plan_Digest (rec_Plan record) == "" then
                plan ←! (perform (AdapterBuildPlan candidate CallerContext request) or_else
                           finish_error StagePlan OperationFailed "pre_commit");
                written ←? putDurablePlan record plan;
                let '(record, err) := (written : OperationRecord * option error) in
                match err with
                | None => Ret (Ok (record, "immutable adapter operation plan persisted"))
                | Some e =>
                    returns (execution ←? newDurableExecution (opn_ResourceID operation) OperationBlocked (err_Text e);
                             finishDurable (rec_ResourceID record) operation false StagePlan execution "stale_plan" (Some e))
                end
              else if plan_ObservationToken (rec_Plan record) != label then
                finish_message StagePlan OperationBlocked "stale_plan" "persisted operation plan observation changed"
              else Ret (Ok (record, "immutable adapter operation plan reused")));
  _ ←! journaled StagePlan planned.2;
  Ret (Ok planned.1).
Definition guard_operation : workflow (result outcome OperationRecord) :=
  _ ←! (perform (EvaluateSafety CallerContext operation) or_else finish_error StageSafetyGuard OperationBlocked "pre_commit");
  record ←! advance StageSafetyGuard (saying "safety guard passed");
  _ ←! journaled StageSafetyGuard "safety guard passed";
  Ret (Ok record).
(** Under the lock: the observation is still the current one, and the resources are resolved again. *)
Definition revalidate_locked (observation : ObservationToken) (request : Request) : workflow (result outcome (Request * OperationRecord)) :=
  record ←! advance StageLock (saying "operation lock acquired");
  _ ←! journaled StageLock "operation lock acquired";
  _ ←! (perform (RevalidateObservation LeaseContext operation observation) or_else finish_error StageLock OperationBlocked "stale_plan");
  request ←! resolve_observed LeaseContext StageLock "stale_plan" observation request;
  Ret (Ok (request, record)).
(** A one-time grant is consumed, unless the recovery is automatic. *)
Definition approve_operation (record : OperationRecord) : workflow (result outcome OperationRecord) :=
  approved ←! (if ea_automatic authorization then
                 let message := "automatic recovery authorized for incident " +:+ ea_incidentID authorization in
                 record ←! advance StageApprove (saying message);
                 Ret (Ok (record, message))
               else
                 consumed ←! (perform (ConsumeApproval LeaseContext record (ea_approvalToken authorization)) or_else
                                finish_error StageApprove OperationBlocked "pre_commit");
                 let '(grantID, record) := (consumed : ResourceID * OperationRecord) in
                 Ret (Ok (record, "one-time approval grant " +:+ grantID +:+ " consumed")));
  _ ←! journaled StageApprove approved.2;
  Ret (Ok approved.1).
(** The request as the adapter executes it. *)
Definition execution_request (record : OperationRecord) (request : Request) : Request :=
  request <| rq_Plan := Some (rec_Plan record) |> <| rq_Progress := Some (repositoryProgress (rec_ResourceID record)) |>
          <| rq_Resolved ::= fmap (λ r, r <| mo_resolved ::= λ o, o <| ro_PlanDigest := plan_Digest (rec_Plan record) |> |>) |>.

(** [verifyOperation] and [detachedVerification]. *)
Definition verifyOperation (ctx : WorkflowContext) (request : Request) : workflow (Verification * option error) :=
  answer ←? perform (AdapterVerify candidate ctx request);
  let '(verification, err) := (answer : Verification * option error) in
  let operationID := opn_ResourceID (rq_Operation request) in
  let err := if (ver_OperationID verification != "") && (ver_OperationID verification != operationID)
             then joinMaybe err (Some (newError "verification belongs to a different operation")) else err in
  let passed := bool_decide (err = None) && Successful verification in
  Ret (verification <| ver_Passed := passed |>
         <| ver_OperationID := if ver_OperationID verification == "" then operationID else ver_OperationID verification |>, err).
Definition detachedVerification (request : Request) : workflow (Verification * option error) :=
  verifyOperation (DetachedContext (verificationTimeout (opn_Engine (rq_Operation request)))) request.

(** The adapter failed.  A failure class other than [pre_commit] says that it may have changed a database. *)
Definition finish_failed (request : Request) (execution : Execution) (executeErr : error) : workflow outcome :=
  let execution := if exec_Status execution == no_status then execution <| exec_Status := OperationFailed |> else execution in
  let failureClass := operationFailureClass executeErr in
  if (failureClass == "") || (failureClass == "pre_commit") then
    finishDurable id operation false StageExecute execution failureClass (Some executeErr)
  else
    answer ←? detachedVerification request;
    let '(verification, verifyErr) := (answer : Verification * option error) in
    let message := verificationOutcomeMessage verification verifyErr in
    advanced ←? advanceDurable id StageVerify
      ((saying message) <| trans_Verification := Some verification |> <| trans_FailureClass := failureClass |>);
    match advanced with
    | Err e =>
        let cause := wrapError "persist post-commit verification evidence: "
                       (e <| err_Text := err_Text e +:+ " (execution error: " +:+ err_Text executeErr +:+ ")" |>) in
        finishDurable id operation true StageVerify (markDurabilityIndeterminate execution) failureClass (Some cause)
    | Ok _ =>
        lease ←? lockLeaseFailure;
        match lease with
        | Some leaseErr =>
            finishDurable id operation true StageVerify
              (marked OperationIndeterminate ("operation lock lease was lost during verification; " +:+ message) execution)
              "lock_lease_lost" (joinMaybe (Some (joinErrors executeErr leaseErr)) verifyErr)
        | None =>
            let cause := match verifyErr with
                         | Some e => executeErr <| err_Text ::= λ text, text +:+ "; verification error: " +:+ err_Text e |>
                         | None => if Successful verification then executeErr
                                   else executeErr <| err_Text ::= λ text, text +:+ "; post-commit verification failed" |>
                         end in
            finishDurable id operation true StageVerify
              (marked OperationIndeterminate (err_Text executeErr +:+ "; " +:+ message) execution) failureClass (Some cause)
        end
    end.
(** The adapter succeeded: it is verified, and only then the operation is finished as a success. *)
Definition finish_completed (request : Request) (execution : Execution) : workflow outcome :=
  advanced ←? advanceDurable id StageExecute ((saying "adapter execution completed") <| trans_Execution := Some execution |>);
  journalErr ←? (match advanced with
                 | Err e => Ret (Some e)
                 | Ok _ => audited ←? audit operation StageExecute "adapter execution completed"; Ret (failure audited)
                 end);
  answer ←? detachedVerification request;
  let '(verification, verifyErr) := (answer : Verification * option error) in
  let message := verificationOutcomeMessage verification verifyErr in
  advanced ←? advanceDurable id StageVerify ((saying message) <| trans_Verification := Some verification |>);
  let journalErr := firstJournalError journalErr (failure advanced) in
  lease ←? lockLeaseFailure;
  match lease with
  | Some leaseErr =>
      let unproven := match verifyErr with
                      | Some e => Some e
                      | None => if Successful verification then None else Some (newError message)
                      end in
      finishDurable id operation true StageVerify
        (marked OperationIndeterminate ("operation lock lease was lost during verification; " +:+ message) execution)
        "lock_lease_lost" (joinMaybe (joinMaybe (Some leaseErr) unproven) (journalPersistenceError <$> journalErr))
  | None =>
      if bool_decide (is_Some verifyErr) || negb (Successful verification) then
        let verifyErr := default (newError message) verifyErr in
        let cause := match journalErr with
                     | Some e => journalPersistenceError (wrapError (err_Text verifyErr +:+ "; ") e)
                     | None => verifyErr
                     end in
        finishDurable id operation true StageVerify (marked OperationIndeterminate message execution) "verification" (Some cause)
      else match journalErr with
      | Some e =>
          finishDurable id operation true StageVerify
            (marked OperationIndeterminate "operation committed and verified, but workflow journal persistence failed" execution)
            "journal" (Some (journalPersistenceError e))
      | None =>
          verified ←? auditEvent operation StageVerify "verification passed";
          recorded ←? auditEvent operation StageAudit "operation audit recorded";
          finishDurableWithAudits id operation StageReport
            (marked OperationSucceeded "operation completed and verified" execution) "" None true [verified; recorded]
      end
  end.
(** The execution itself, once its start is durable. *)
Definition run_adapter (request : Request) : workflow outcome :=
  answer ←? perform (AdapterExecute candidate LeaseContext request);
  let '(execution, executeErr) := (answer : Execution * option error) in
  let execution := execution <| exec_OperationID := opn_ResourceID operation |> in
  lease ←? lockLeaseFailure;
  let '(execution, executeErr) :=
    match (lease : option error) with
    | Some leaseErr =>
        (marked OperationIndeterminate ("operation lock lease was lost during execution: " +:+ err_Text leaseErr) execution,
         joinMaybe executeErr (Some leaseErr))
    | None => (execution, executeErr)
    end in
  match normalizeAdapterExecutionError execution executeErr with
  | Some e => finish_failed request execution e
  | None => finish_completed request execution
  end.

(** The stages under the operation lock. *)
Definition execute_locked (observation : ObservationToken) (request : Request) : workflow (result outcome outcome) :=
  revalidated ←! revalidate_locked observation request;
  let '(request, record) := (revalidated : Request * OperationRecord) in
  record ←! approve_operation record;
  let request := execution_request record request in
  lease ←? lockLeaseFailure;
  match lease with
  | Some leaseErr => finish_error StageLock OperationBlocked "lock_lease_lost" leaseErr
  | None =>
      _ ←! advance StageExecute (saying "adapter execution started");
      o ←? run_adapter request; Ret (Ok o)
  end.
(** The stages before it. *)
Definition execute_stages (request : Request) (record : OperationRecord) : workflow (result outcome outcome) :=
  features ←? perform (AdapterCapabilities candidate CallerContext);
  _ ←! require_capabilities features [CapabilityPrecheck; CapabilityPlan; CapabilityExecute; CapabilityVerify];
  _ ←! (if sv_discovery service then proceed
        else finish_message StageDiscover OperationBlocked "pre_commit" "discovery validation is not configured");
  _ ←! (if sv_safety service && sv_locks service && (ea_automatic authorization || sv_approval service) then proceed
        else giving_up (newError "workflow gates are not configured"));
  observed ←! observe_topology record;
  let '(observation, record) := (observed : ObservationToken * OperationRecord) in
  request ←! resolve_observed CallerContext StageDiscover "pre_commit" observation request;
  record ←! precheck_operation request;
  record ←! plan_operation (observationLabel FormatTime observation) request record;
  _ ←! guard_operation;
  _ ←! (perform (AcquireLock CallerContext operation) or_else finish_error StageLock OperationBlocked "pre_commit");
  o ←? execute_locked observation request;
  _ ←? perform ReleaseLock;
  Ret o.
End execute.

(** [CreateOperation], with the record read back when its commit only warned. *)
Definition create_record (request : Request) : workflow (result outcome (OperationRecord * bool)) :=
  created ←? perform (StoreCreate (zero_OperationRecord <| rec_Operation := rq_Operation request |>
                                     <| rec_TargetID := rq_TargetID request |> <| rec_IdempotencyKey := rq_IdempotencyKey request |>));
  match created with
  | Created record reused => Ret (Ok (record, reused))
  | CreateFailed e => giving_up e
  | CreateWarned record e =>
      if negb (isCommittedWarning e) then giving_up e
      else
        read ←? perform (StoreRead (rec_ResourceID record));
        match read with
        | Some persisted => Ret (Ok (persisted, false))
        | None => giving_up e
        end
  end.
(** The request of a record. *)
Definition record_operation (record : OperationRecord) : Operation :=
  (rec_Operation record) <| opn_ResourceID := rec_ResourceID record |>.
Definition record_request (record : OperationRecord) (request : Request) : Request :=
  request <| rq_Operation := record_operation record |> <| rq_TargetID := rec_TargetID record |>.

(** What runs while the operation is claimed. *)
Definition execute_claimed (registry : list Engine) (request : Request) (record : OperationRecord)
    (authorization : executionAuthorization) : workflow outcome :=
  let id := rec_ResourceID record in
  let operation := record_operation record in
  match resolveAdapter registry operation with
  | None => join_outcome (finish_new id operation StagePrecheck OperationUnsupported
                            "no adapter is registered for the requested engine" "unsupported" ErrUnsupported)
  | Some candidate => join_outcome (execute_stages id operation candidate authorization request record)
  end.
Definition executeDurable (request : Request) (authorization : executionAuthorization) : workflow outcome :=
  match sv_registry service with
  | None => Ret (zero_Execution, Some (newError "adapter registry is not configured"))
  | Some registry =>
      join_outcome
       (created ←! create_record request;
        let '(record, reused) := (created : OperationRecord * bool) in
        let request := record_request record request in
        if reused && durableTerminalStatus (rec_Status record) then Ret (Err (terminalRecordResult record))
        else
          claimed ←? perform (ClaimOperation (rec_ResourceID record));
          if negb (claimed : bool) then
            _ ←? audit (record_operation record) (rec_Stage record) "duplicate idempotent request joined an active operation";
            Ret (Err (marked OperationRunning (err_Text ErrOperationInProgress)
                        ((rec_Execution record) <| exec_OperationID := rec_ResourceID record |>), Some ErrOperationInProgress))
          else
            o ←? execute_claimed registry request record authorization;
            _ ←? finalizeRunningOperationOnExit (rec_ResourceID record) (record_operation record);
            _ ←? perform (ReleaseOperation (rec_ResourceID record));
            Ret (Ok o))
  end.

(** ** Preparation and manual verification *)

(** What [prepare] returns: the record, the checks, the plan, and the error. *)
Definition prepared : Type := OperationRecord * list Check * OperationPlan * option error.
Definition nothing_prepared (e : error) : prepared := (zero_OperationRecord, [], zero_OperationPlan, Some e).
Definition join_prepared (p : workflow (result prepared prepared)) : workflow prepared :=
  r ←? p; Ret (match r with Ok o => o | Err o => o end).
Section prepare.
Variables (includePlan : bool).
(** The stages between the claim of an operation and its release. *)
Definition prepare_claimed (registry : list Engine) (request : Request) (record : OperationRecord) : workflow (result prepared prepared) :=
  let id := rec_ResourceID record in
  let operation := record_operation record in
  let without_plan record e : prepared := (record, [], zero_OperationPlan, Some e) in
  match resolveAdapter registry operation with
  | None => Ret (Err (without_plan record ErrUnsupported))
  | Some candidate =>
      features ←? perform (AdapterCapabilities candidate CallerContext);
      if negb (Supports features CapabilityPrecheck) then Ret (Err (without_plan record ErrUnsupported))
      else
        features ←? (if includePlan then perform (AdapterCapabilities candidate CallerContext) else Ret features);
        if includePlan && negb (Supports features CapabilityPlan) then Ret (Err (without_plan record ErrUnsupported))
        else if negb (sv_discovery service) then Ret (Err (without_plan record (newError "discovery validation is not configured")))
        else
          observation ←! (perform (CaptureObservation CallerContext operation) or_else (λ e, Ret (Err (without_plan record e))));
          let label := observationLabel FormatTime observation in
          if (rec_Observation record != "") && (rec_Observation record != label) then
            Ret (Err (without_plan record (newError "topology observation changed since the operation was created")))
          else
            record ←! (advanceDurable id StageDiscover
                         ((saying "topology observation validated") <| trans_Status := OperationPlanned |> <| trans_Observation := label |>)
                         or_else (λ e, Ret (Err (nothing_prepared e))));
            request ←! (perform (ResolveOperation CallerContext request (Some observation)) or_else
                          (λ e, Ret (Err (without_plan record e))));
            let request := with_token label request in
            checks ←! (perform (AdapterPrecheck candidate CallerContext request) or_else (λ e, Ret (Err (without_plan record e))));
            record ←! (advanceDurable id StagePrecheck
                         ((saying "adapter precheck completed") <| trans_Status := OperationPlanned |> <| trans_Precheck := Some checks |>)
                         or_else (λ e, Ret (Err (nothing_prepared e))));
            _ ←! (audit operation StagePrecheck "read-only adapter precheck completed" or_else
                    (λ e, Ret (Err (without_plan record e))));
            if negb includePlan then Ret (Ok (record, checks, zero_OperationPlan, None))
            else
              plan ←! (perform (AdapterBuildPlan candidate CallerContext request) or_else
                         (λ e, Ret (Err (record, checks, zero_OperationPlan, Some e))));
              written ←? putDurablePlan record plan;
              let '(record, err) := (written : OperationRecord * option error) in
              match err with
              | Some e => Ret (Err (zero_OperationRecord, checks, zero_OperationPlan, Some e))
              | None =>
                  _ ←! (audit operation StagePlan "read-only immutable operation plan persisted" or_else
                          (λ e, Ret (Err (record, checks, zero_OperationPlan, Some e))));
                  Ret (Ok (record, checks, rec_Plan record, None))
              end
  end.
Definition prepare (request : Request) : workflow prepared :=
  match sv_registry service with
  | Some registry =>
      if negb (sv_operations service && sv_resolver service) then
        Ret (nothing_prepared (newError "durable operation preparation is not configured"))
      else
        created ←? create_record request;
        match created with
        | Err (_, e) => Ret (nothing_prepared (default ErrUnsupported e))
        | Ok (record, _) =>
            if durableTerminalStatus (rec_Status record) then
              Ret (record, [], rec_Plan record, Some (newError "terminal operation cannot be prepared"))
            else
              claimed ←? perform (ClaimOperation (rec_ResourceID record));
              if negb (claimed : bool) then Ret (record, [], rec_Plan record, Some ErrOperationInProgress)
              else
                o ←? join_prepared (prepare_claimed registry (record_request record request) record);
                _ ←? perform (ReleaseOperation (rec_ResourceID record));
                Ret o
        end
  | None => Ret (nothing_prepared (newError "durable operation preparation is not configured"))
  end.
End prepare.

(** A verification and the error it is returned with. *)
Definition verified : Type := Verification * option error.
(** [Verify]: a success answers its own evidence; an indeterminate outcome is settled by a fresh probe. *)
Definition settle_verification (record : OperationRecord) (verification : Verification) : workflow verified :=
  let operation := rec_Operation record in
  let message := if Successful verification then "manual operation verification passed" else "manual operation verification failed" in
  let failed e : verified := (verification, Some e) in
  if rec_Status record != OperationIndeterminate then
    audited ←? audit operation StageVerify message;
    Ret (match audited with Ok _ => (verification, None) | Err e => failed e end)
  else
    let status := if Successful verification then OperationSucceeded else OperationIndeterminate in
    let failureClass := if Successful verification then "" else rec_FailureClass record in
    let execution := marked status message ((rec_Execution record) <| exec_OperationID := rec_ResourceID record |>) in
    let transition :=
      (saying message) <| trans_Stage := StageReport |> <| trans_Status := status |> <| trans_Execution := Some execution |>
        <| trans_Verification := Some verification |> <| trans_FailureClass := failureClass |> in
    if sv_atomicFinalizer service then
      first ←? auditEvent operation StageVerify message;
      closing ←? auditEvent operation StageReport "manual verification report generated";
      recorded ←? terminalReport operation execution;
      finalized ←? perform (StoreFinalize (rec_ResourceID record) (rec_MetadataRevision record) transition [first; closing] [recorded]);
      Ret (match finalized with Ok _ => (verification, None) | Err e => failed e end)
    else
      audited ←? audit operation StageVerify message;
      match audited with
      | Err e => Ret (failed e)
      | Ok _ =>
          reported ←? report operation execution true;
          match reported with
          | Err e => Ret (failed e)
          | Ok _ =>
              written ←? perform (StoreTransition (rec_ResourceID record) (rec_MetadataRevision record) transition);
              Ret (match written with Ok _ => (verification, None) | Err e => failed e end)
          end
      end.
Definition verify_claimed (candidate : Engine) (request : Request) (record : OperationRecord) : workflow verified :=
  let request := (record_request record request) <| rq_Plan := Some (rec_Plan record) |> in
  resolved ←? perform (ResolveOperation CallerContext request None);
  match resolved with
  | Err e => Ret (zero_Verification, Some e)
  | Ok request =>
      answer ←? verifyOperation candidate CallerContext request;
      let '(verification, err) := (answer : Verification * option error) in
      match err with
      | Some e => Ret (verification, Some e)
      | None => settle_verification record verification
      end
  end.
Definition Verify (request : Request) : workflow verified :=
  match sv_registry service with
  | Some registry =>
      if negb (sv_operations service && sv_resolver service) then
        Ret (zero_Verification, Some (newError "durable operation verification is not configured"))
      else
        found ←? perform (StoreReadKey (rq_IdempotencyKey request));
        match found with
        | None => Ret (zero_Verification, Some (newError "operation does not exist"))
        | Some record =>
            if rec_Status record == OperationSucceeded then
              let passed := verified_record record in
              Ret ((rec_Verification record) <| ver_Passed := passed |>,
                   if passed then None
                   else Some (newError "persisted verification is incomplete or inconsistent; operation requires review"))
            else match resolveAdapter registry (rec_Operation record) with
            | None => Ret (zero_Verification, Some ErrUnsupported)
            | Some candidate =>
                features ←? perform (AdapterCapabilities candidate CallerContext);
                if negb (Supports features CapabilityVerify) then Ret (zero_Verification, Some ErrUnsupported)
                else
                  claimed ←? perform (ClaimOperation (rec_ResourceID record));
                  if negb (claimed : bool) then Ret (zero_Verification, Some ErrOperationInProgress)
                  else
                    o ←? verify_claimed candidate request record;
                    _ ←? perform (ReleaseOperation (rec_ResourceID record));
                    Ret o
            end
        end
  | None => Ret (zero_Verification, Some (newError "durable operation verification is not configured"))
  end.
End service.
