(* ===== verification/WorkflowLegacy.v ===== *)
(** * internal/workflow: executing without a durable record

    [workflow.go]'s [executeLegacy], for a service with neither an operation
    store nor a resolver, and [executeMetadata], which brings the record of an
    instance in line with what was discovered.  Both keep only the journal.

    A phase answers [Err o] where the Go function returns [o] early; the lock
    is released after the phases that hold it. *)
From S2P Require Import Prelude GoStd Model Endpoint Lease Locks Repository Operations Interfaces Candidates Program MySQLAdapter.
From S2P Require Import Disaster WorkflowBase Workflow.
#[local] Open Scope Z_scope.

Definition engine_text (engine : Engine) : string :=
  match engine with
  | EngineMySQL => "mysql" | EnginePostgreSQL => "postgresql" | EngineOracle => "oracle" | EngineSQLServer => "sqlserver"
  | EngineOther raw => raw
  end.

Section service.
Variables (FormatTime : Time → string) (service : Service).

(** ** The journal decides the outcome *)

Definition bare_execution (operation : Operation) (status : OperationStatus) (message : string) : Execution :=
  marked status message (zero_Execution <| exec_OperationID := opn_ResourceID operation |>).
Definition recordOutcome (operation : Operation) (execution : Execution) (stage : WorkflowStage) (message : string)
    (cause : option error) : workflow outcome :=
  audited ←? audit service operation stage message;
  match audited with
  | Err e => Ret (journalFailure execution e)
  | Ok _ =>
      reported ←? report service operation execution false;
      Ret (match reported with Ok _ => (execution, cause) | Err e => journalFailure execution e end)
  end.
Definition unsupported (operation : Operation) (message : string) : workflow outcome :=
  fresh ←? perform NewResourceID;
  createdAt ←? perform ReadClock;
  updatedAt ←? perform ReadClock;
  let execution := (bare_execution operation OperationUnsupported message)
    <| exec_ResourceID := fresh |> <| exec_MetadataRevision := 1 |> <| exec_CreatedAt := createdAt |> <| exec_UpdatedAt := updatedAt |> in
  audited ←? audit service operation StagePrecheck message;
  match audited with
  | Err e => Ret (journalFailure execution e)
  | Ok _ => recordOutcome operation execution StageReport "unsupported operation reported" (Some ErrUnsupported)
  end.

Section phases.
Variables (operation : Operation).
(** [return service.recordOutcome(...)]. *)
Definition ending {A} (stage : WorkflowStage) (status : OperationStatus) (message auditMessage : string) (cause : option error)
  : workflow (result outcome A) :=
  returns (recordOutcome operation (bare_execution operation status message) stage auditMessage cause).
Definition ending_error {A} (stage : WorkflowStage) (status : OperationStatus) (prefix : string) (e : error) : workflow (result outcome A) :=
  ending stage status (err_Text e) (prefix +:+ err_Text e) (Some e).
Definition audited (stage : WorkflowStage) (message : string) : workflow (result outcome unit) :=
  audit service operation stage message or_else
    (λ e, Ret (Err (journalFailure (zero_Execution <| exec_OperationID := opn_ResourceID operation |>) e))).
(** After the commit, the first error of the journal is kept. *)
Definition audit_after (journalErr : option error) (stage : WorkflowStage) (message : string) : workflow (option error) :=
  recorded ←? audit service operation stage message; Ret (firstJournalError journalErr (failure recorded)).
Definition report_after (journalErr : option error) (execution : Execution) : workflow (option error) :=
  recorded ←? report service operation execution true; Ret (firstJournalError journalErr (failure recorded)).

(** ** [executeLegacy] *)

Section legacy.
Variables (candidate : Engine) (authorization : executionAuthorization) (request : Request).
Fixpoint legacy_capabilities (features : Capabilities) (required : list Capability) : workflow (result outcome unit) :=
  match required with
  | [] => proceed
  | capability :: required =>
      if Supports features capability then legacy_capabilities features required
      else returns (unsupported operation ("operation " +:+ capability_name capability +:+ " is unsupported by this adapter"))
  end.
(** What was committed is verified; an error of the journal leaves the outcome indeterminate. *)
Definition legacy_verified (execution : Execution) (journalErr : option error) : workflow outcome :=
  answer ←? verifyOperation candidate LeaseContext request;
  let '(verification, err) := (answer : Verification * option error) in
  lease ←? lockLeaseFailure;
  match (lease : option error) with
  | Some leaseErr =>
      let execution := marked OperationIndeterminate
        "operation lock lease was lost during verification; committed state requires review" execution in
      let cause := match err with
                   | Some e => joinErrors leaseErr e
                   | None => if Successful verification then leaseErr
                             else joinErrors leaseErr (newError "post-commit verification did not pass")
                   end in
      journalErr ←? audit_after journalErr StageVerify (exec_Message execution);
      journalErr ←? report_after journalErr execution;
      Ret (execution, Some (match journalErr with Some e => journalPersistenceError (joinErrors cause e) | None => cause end))
  | None =>
      if bool_decide (is_Some err) || negb (Successful verification) then
        let verificationErr := default (newError "verification failed") err in
        let execution := marked OperationIndeterminate (err_Text verificationErr) execution in
        journalErr ←? audit_after journalErr StageVerify (exec_Message execution);
        let execution := if bool_decide (is_Some journalErr) then markIndeterminate execution else execution in
        journalErr ←? report_after journalErr execution;
        Ret (match journalErr with
             | Some e => journalIndeterminate execution (joinErrors verificationErr e)
             | None => (execution, Some verificationErr)
             end)
      else
        journalErr ←? audit_after journalErr StageVerify "verification passed";
        let execution := marked OperationSucceeded
          (if exec_Message execution == "" then "operation completed and verified" else exec_Message execution) execution in
        journalErr ←? audit_after journalErr StageAudit "operation audit recorded";
        journalErr ←? audit_after journalErr StageReport "operation report generated";
        let execution := if bool_decide (is_Some journalErr) then markIndeterminate execution else execution in
        journalErr ←? report_after journalErr execution;
        Ret (match journalErr with Some e => journalIndeterminate execution e | None => (execution, None) end)
  end.
Definition legacy_adapter : workflow outcome :=
  answer ←? perform (AdapterExecute candidate LeaseContext request);
  let '(execution, err) := (answer : Execution * option error) in
  lease ←? lockLeaseFailure;
  let '(execution, err) :=
    match (lease : option error) with
    | Some leaseErr =>
        (marked OperationIndeterminate ("operation lock lease was lost during execution: " +:+ err_Text leaseErr) execution,
         joinMaybe err (Some leaseErr))
    | None => (execution, err)
    end in
  match normalizeAdapterExecutionError execution err with
  | Some e =>
      let execution := if exec_Status execution == no_status then execution <| exec_Status := OperationFailed |> else execution in
      recordOutcome operation (execution <| exec_OperationID := opn_ResourceID operation |>) StageExecute (err_Text e) (Some e)
  | None =>
      journalErr ←? audit_after None StageExecute "adapter execution completed";
      legacy_verified (execution <| exec_OperationID := opn_ResourceID operation |>) journalErr
  end.
(** The record the approval service is shown. *)
Definition legacy_record (label : string) (plan : OperationPlan) : OperationRecord :=
  zero_OperationRecord <| rec_ResourceID := opn_ResourceID operation |> <| rec_Operation := operation |>
    <| rec_TargetID := rq_TargetID request |> <| rec_Stage := StageLock |> <| rec_Status := OperationRunning |>
    <| rec_Observation := label |> <| rec_Plan := plan |>.
Definition legacy_locked (observation : ObservationToken) (label : string) (plan : OperationPlan) : workflow (result outcome outcome) :=
  _ ←! audited StageLock "operation lock acquired";
  _ ←! (perform (RevalidateObservation LeaseContext operation observation) or_else
          ending_error StageLock OperationBlocked "topology observation changed under operation lock: ");
  _ ←! audited StageLock ("topology observation " +:+ label +:+ " revalidated under operation lock");
  message ←! (if ea_automatic authorization then
                Ret (Ok ("automatic recovery authorized for incident " +:+ ea_incidentID authorization))
              else
                consumed ←! (perform (ConsumeApproval LeaseContext (legacy_record label plan) (ea_approvalToken authorization)) or_else
                               ending_error StageApprove OperationBlocked "approval blocked execution: ");
                Ret (Ok ("one-time approval grant " +:+ (consumed : ResourceID * OperationRecord).1 +:+ " consumed")));
  _ ←! audited StageApprove message;
  lease ←? lockLeaseFailure;
  match (lease : option error) with
  | Some leaseErr => ending_error StageLock OperationBlocked "operation lock lease was lost before execution: " leaseErr
  | None => o ←? legacy_adapter; Ret (Ok o)
  end.
End legacy.
Definition legacy_stages (candidate : Engine) (authorization : executionAuthorization) (request : Request)
  : workflow (result outcome outcome) :=
  features ←? perform (AdapterCapabilities candidate CallerContext);
  _ ←! legacy_capabilities features [CapabilityPrecheck; CapabilityPlan; CapabilityExecute; CapabilityVerify];
  _ ←! (if sv_discovery service then proceed
        else let message := "discovery validation is not configured" in
             ending StageDiscover OperationBlocked message message (Some (newError message)));
  observation ←! (perform (CaptureObservation CallerContext operation) or_else
                    ending_error StageDiscover OperationBlocked "discovery observation blocked execution: ");
  let label := observationLabel FormatTime observation in
  _ ←! audited StageDiscover ("topology observation " +:+ label +:+ " validated");
  let request := with_token label request in
  checks ←! (perform (AdapterPrecheck candidate CallerContext request) or_else ending_error StagePrecheck OperationFailed "");
  _ ←! audited StagePrecheck "adapter precheck completed";
  _ ←! (if hasBlockingCheck checks then
          ending StagePrecheck OperationBlocked "precheck contains blocking checks" "adapter precheck blocked execution" None
        else proceed);
  plan ←! (perform (AdapterBuildPlan candidate CallerContext request) or_else ending_error StagePlan OperationFailed "");
  _ ←! audited StagePlan "adapter operation plan created";
  _ ←! (if sv_safety service && sv_locks service && (ea_automatic authorization || sv_approval service) then proceed
        else giving_up (newError "workflow gates are not configured"));
  _ ←! (perform (EvaluateSafety CallerContext operation) or_else
          ending_error StageSafetyGuard OperationBlocked "safety guard blocked execution: ");
  _ ←! audited StageSafetyGuard "safety guard passed";
  _ ←! (perform (AcquireLock CallerContext operation) or_else
          ending_error StageLock OperationBlocked "operation lock blocked execution: ");
  o ←? legacy_locked candidate authorization request observation label plan;
  _ ←? perform ReleaseLock;
  Ret o.
End phases.
(** An operation without an identifier is given one. *)
Definition identified (operation : Operation) : workflow Operation :=
  if opn_ResourceID operation == "" then
    fresh ←? perform NewResourceID; Ret (operation <| opn_ResourceID := fresh |>)
  else Ret operation.
Definition executeLegacy (request : Request) (authorization : executionAuthorization) : workflow outcome :=
  match sv_registry service with
  | None => Ret (zero_Execution, Some (newError "adapter registry is not configured"))
  | Some registry =>
      operation ←? identified (rq_Operation request);
      let operation := (operation : Operation) <| opn_Status := OperationRunning |> in
      match resolveAdapter registry operation with
      | None => unsupported operation "no adapter is registered for the requested engine"
      | Some candidate => join_outcome (legacy_stages operation candidate authorization request)
      end
  end.

(** ** [executeMetadata] *)

Record metadataExecutionAuthorization : Type := mkMetadataAuthorization { ma_approvalToken : string; ma_platformActor : string }.
Definition platformAuthorized (authorization : metadataExecutionAuthorization) : bool :=
  TrimSpace (ma_platformActor authorization) != "".

Section metadata.
Variables (operation : Operation) (candidate : Engine) (request : MetadataRequest) (authorization : metadataExecutionAuthorization).
(** The record's commit is final, unless the lease was lost meanwhile or its durability is in doubt. *)
Definition mark_commit (uncertain : bool) (commitErr journalErr : option error) (execution : Execution) : Execution :=
  let execution := if uncertain then markLockLeaseIndeterminate execution
                   else if bool_decide (is_Some commitErr) then markDurabilityIndeterminate execution else execution in
  if bool_decide (is_Some journalErr) then markIndeterminate execution else execution.
Definition metadata_committed (uncertain : bool) (commitErr : option error) : workflow outcome :=
  journalErr ←? audit_after operation None StageExecute
    (if uncertain then "metadata reconciliation commit returned after the operation lock lease was lost"
     else "metadata reconciliation committed");
  match InstanceKey (inst_Engine (mr_Instance request)) (inst_EngineIdentity (mr_Instance request)) with
  | None =>
      let e := newError ("missing native " +:+ engine_text (inst_Engine (mr_Instance request)) +:+ " instance identity") in
      journalErr ←? audit_after operation journalErr StageVerify (err_Text e);
      let execution := mark_commit uncertain commitErr journalErr (bare_execution operation OperationFailed (err_Text e)) in
      journalErr ←? report_after operation journalErr execution;
      Ret (match journalErr with
           | Some e => journalIndeterminate execution e
           | None => (execution, Some (default e commitErr))
           end)
  | Some _ =>
      journalErr ←? audit_after operation journalErr StageVerify "engine identity verified after metadata reconciliation";
      journalErr ←? audit_after operation journalErr StageAudit "metadata reconciliation audit recorded";
      journalErr ←? audit_after operation journalErr StageReport "metadata reconciliation report generated";
      let execution := mark_commit uncertain commitErr journalErr
        (bare_execution operation OperationSucceeded "metadata reconciliation completed and verified") in
      journalErr ←? report_after operation journalErr execution;
      Ret (match journalErr with Some e => journalIndeterminate execution e | None => (execution, commitErr) end)
  end.
Definition metadata_commit : workflow outcome :=
  committed ←? perform CommitMetadata;
  lease ←? lockLeaseFailure;
  let uncertain := bool_decide (is_Some (lease : option error)) in
  let commitErr := if uncertain then joinMaybe committed lease else (committed : option error) in
  match commitErr with
  | Some e =>
      if negb (isCommittedWarning e) && negb uncertain then
        recordOutcome operation (bare_execution operation OperationFailed (err_Text e)) StageExecute (err_Text e) (Some e)
      else metadata_committed uncertain commitErr
  | None => metadata_committed uncertain commitErr
  end.
Definition metadata_locked : workflow (result outcome outcome) :=
  _ ←! audited operation StageLock "operation lock acquired";
  message ←! (if platformAuthorized authorization then Ret (Ok "platform role authorized metadata reconciliation")
              else if negb (sv_administrative service) then
                giving_up (newError "administrative approval validation is not configured")
              else
                _ ←! (perform (ValidateApproval LeaseContext operation (ma_approvalToken authorization)) or_else
                        ending_error operation StageApprove OperationBlocked "approval blocked metadata reconciliation: ");
                Ret (Ok "approval validated"));
  _ ←! audited operation StageApprove message;
  lease ←? lockLeaseFailure;
  match (lease : option error) with
  | Some leaseErr =>
      ending_error operation StageLock OperationBlocked "operation lock lease was lost before metadata commit: " leaseErr
  | None => o ←? metadata_commit; Ret (Ok o)
  end.
Definition metadata_stages : workflow (result outcome outcome) :=
  checks ←! (perform (MetadataPrecheck candidate CallerContext request) or_else ending_error operation StagePrecheck OperationFailed "");
  _ ←! audited operation StagePrecheck "metadata precheck completed";
  _ ←! (if hasBlockingCheck checks then
          ending operation StagePrecheck OperationBlocked "metadata precheck contains blocking checks"
            "metadata precheck blocked reconciliation" None
        else proceed);
  _ ←! (perform (ReconcileMetadata candidate CallerContext request) or_else ending_error operation StagePlan OperationFailed "");
  _ ←! audited operation StagePlan "metadata reconciliation plan created";
  _ ←! (if sv_safety service && sv_locks service && (platformAuthorized authorization || sv_approval service) then proceed
        else giving_up (newError "workflow gates are not configured"));
  _ ←! (perform (EvaluateSafety CallerContext operation) or_else
          ending_error operation StageSafetyGuard OperationBlocked "safety guard blocked metadata reconciliation: ");
  _ ←! audited operation StageSafetyGuard "safety guard passed";
  _ ←! (perform (AcquireLock CallerContext operation) or_else
          ending_error operation StageLock OperationBlocked "operation lock blocked metadata reconciliation: ");
  o ←? metadata_locked;
  _ ←? perform ReleaseLock;
  Ret o.
End metadata.
(** [commit] says whether the caller passes a commit. *)
Definition executeMetadata (operation : Operation) (request : MetadataRequest) (authorization : metadataExecutionAuthorization)
    (commit : bool) : workflow outcome :=
  match sv_registry service with
  | Some registry =>
      if negb commit then Ret (zero_Execution, Some (newError "metadata workflow is not configured"))
      else
        operation ←? identified operation;
        let operation := (operation : Operation) <| opn_Engine := inst_Engine (mr_Instance request) |>
          <| opn_ClusterID := mr_ClusterID request |> <| opn_Kind := OperationMetadataReconciliation |> in
        let message := "metadata reconciliation is unsupported by this adapter" in
        match registry_Get registry (opn_Engine operation) with
        | None => unsupported operation message
        | Some candidate =>
            features ←? perform (AdapterCapabilities candidate CallerContext);
            if negb (Supports features CapabilityMetadataReconcile) then unsupported operation message
            else join_outcome (metadata_stages operation candidate request authorization)
        end
  | None => Ret (zero_Execution, Some (newError "metadata workflow is not configured"))
  end.
Definition ExecuteMetadata (operation : Operation) (request : MetadataRequest) (approvalToken : string) (commit : bool) : workflow outcome :=
  executeMetadata operation request (mkMetadataAuthorization approvalToken "") commit.
Definition ExecuteMetadataAuthorized (operation : Operation) (request : MetadataRequest) (actor : string) (commit : bool)
  : workflow outcome :=
  let actor := TrimSpace actor in
  if actor == "" then Ret (zero_Execution, Some (newError "platform metadata actor is required"))
  else executeMetadata (operation <| opn_RequestedBy := actor |>) request (mkMetadataAuthorization "" actor) commit.
End service.
