(* ===== verification/WorkflowRecovery.v ===== *)
(** * internal/workflow: recovering operations

    [progress.go]: the commit of an adapter's step, retried over conflicts;
    [automatic_resume.go]: the continuation of a failover whose promotion was
    not verified; [abandoned.go]: closing operations that have no executor;
    and [workflow.go]'s entry points. *)
From S2P Require Import Prelude GoStd Model Endpoint Lease Locks Repository Operations Interfaces Candidates Program MySQLAdapter WorkflowBase Workflow WorkflowLegacy.
#[local] Open Scope Z_scope.

(** ** The progress of an operation *)

Definition operationProgressCommitAttempts : nat := 4.
Definition operationProgressRetryDelay : Duration := 15 * Millisecond.

(** [completedStepAttempt]: the highest attempt of a step before its first success, and whether there is one. *)
Fixpoint completedStepAttempt (maximum : uint64) (attempts : list StepAttempt) (step : string) : uint64 * bool :=
  match attempts with
  | [] => (maximum, false)
  | attempt :: attempts =>
      if att_Step attempt != step then completedStepAttempt maximum attempts step
      else if att_Status attempt == OperationSucceeded then (att_Attempt attempt, true)
      else completedStepAttempt (if maximum <? att_Attempt attempt then att_Attempt attempt else maximum) attempts step
  end.
(** [repositoryProgress.StepResult]. *)
Definition StepResult (operationID : ResourceID) (ctx : WorkflowContext) (step : string) : workflow (result error (option string)) :=
  done ←? perform (ContextError ctx);
  match done with
  | Some e => fail e
  | None =>
      found ←? perform (StoreRead operationID);
      Ret (match found with
           | None => Err (newError "operation progress record does not exist")
           | Some record =>
               Ok ((λ f, att_Message (snd f)) <$>
                     list_find (λ a, att_Step a = step ∧ att_Status a = OperationSucceeded) (rec_Attempts record))
           end)
  end.
(** [repositoryProgress.CompleteStep]: an attempt reads the record, returns when the step is committed already, and writes it at
    the revision it has read; after an error it reads again before it waits for the next attempt. *)
Section complete_step.
Variables (operationID : ResourceID) (ctx : WorkflowContext) (step message : string).
Definition step_attempt (maximum : uint64) (now : Time) : StepAttempt :=
  mkStepAttempt step (u64 (maximum + 1)) OperationSucceeded now now message "".
Definition terminal_error : error := newError "terminal operation cannot accept step progress".
(** [commitAttempts] attempts, of which the next is number [number]. *)
Fixpoint complete_attempts (commitAttempts : nat) (number : Z) (lastErr : option error) : workflow (result error unit) :=
  match commitAttempts with
  | O => fail (default terminal_error lastErr)
  | S commitAttempts =>
      done ←? perform (ContextError ctx);
      match done with
      | Some e => fail e
      | None =>
          found ←? perform (StoreRead operationID);
          match found with
          | None => fail (newError "operation progress record does not exist")
          | Some record =>
              let '(maximum, completed) := completedStepAttempt 0 (rec_Attempts record) step in
              if completed then proceed
              else if durableTerminalStatus (rec_Status record) then fail (default terminal_error lastErr)
              else
                now ←? perform ReadClock;
                written ←? perform (StoreTransition (rec_ResourceID record) (rec_MetadataRevision record)
                  (zero_OperationTransition <| trans_Stage := StageExecute |> <| trans_Status := OperationRunning |>
                     <| trans_Attempt := Some (step_attempt maximum now) |> <| trans_Message := message |>));
                match written with
                | Ok _ => proceed
                | Err e =>
                    current ←? perform (StoreRead operationID);
                    let completed := match current with
                                     | Some current => (completedStepAttempt 0 (rec_Attempts current) step).2 | None => false end in
                    let ended := match current with Some current => durableTerminalStatus (rec_Status current) | None => false end in
                    if completed then proceed
                    else if ended then fail e
                    else match commitAttempts with
                    | O => fail e
                    | S _ =>
                        waited ←? perform (WaitRetry ctx (number * operationProgressRetryDelay));
                        if negb (waited : bool) then
                          done ←? perform (ContextError ctx); fail (default e done)
                        else complete_attempts commitAttempts (number + 1) (Some e)
                    end
                end
          end
      end
  end.
End complete_step.
Definition CompleteStep (operationID : ResourceID) (ctx : WorkflowContext) (step message : string) : workflow (result error unit) :=
  let step := TrimSpace step in
  let message := TrimSpace message in
  if step == "" then fail (newError "operation step is required")
  else complete_attempts operationID ctx step message operationProgressCommitAttempts 1 None.

(** ** Continuing an unverified failover *)

(** [newAutomaticResumeProgress]: the results of the steps that succeeded. *)
Definition newAutomaticResumeProgress (attempts : list StepAttempt) : gmap string string :=
  foldl (λ results attempt, if att_Status attempt == OperationSucceeded
                            then <[att_Step attempt := att_Message attempt]> results else results) ∅ attempts.
(** [automaticResumeProgress]'s methods: its context is not done. *)
Definition resume_CompleteStep (step message : string) (results : gmap string string) : gmap string string * result error unit :=
  let step := TrimSpace step in
  if step == "" then (results, Err (newError "operation step is required"))
  else (if bool_decide (is_Some (results !! step)) then results else <[step := TrimSpace message]> results, Ok tt).
Definition resume_StepResult (step : string) (results : gmap string string) : option string := results !! TrimSpace step.

Definition automaticResumeEligible (record : OperationRecord) (request : Request) : bool :=
  let operation := rec_Operation record in
  let plan := rec_Plan record in
  (rec_Status record == OperationIndeterminate) && (rec_FailureClass record == "promoted_unverified") &&
  (opn_Kind operation == OperationFailover) && (opn_RequestedBy operation == AutomaticRecoveryActor) &&
  (opn_ClusterID operation == opn_ClusterID (rq_Operation request)) && (opn_Engine operation == opn_Engine (rq_Operation request)) &&
  (rec_TargetID record == rq_TargetID request) && (rec_IdempotencyKey record == rq_IdempotencyKey request) &&
  ValidResourceID (rec_ResourceID record) && ValidResourceID (plan_SourceID plan) && ValidResourceID (plan_TargetID plan) &&
  (plan_OperationID plan == rec_ResourceID record) && (plan_ClusterID plan == opn_ClusterID operation) &&
  (plan_TargetID plan == rec_TargetID record) && (TrimSpace (plan_Digest plan) != "").
Definition automaticResumeSourceFailed (resolved : option MySQLOperation) : bool :=
  match resolved with
  | None => false
  | Some resolved =>
      let primary := mo_Primary resolved in
      ValidResourceID (inst_ResourceID primary) &&
      ((health_State (inst_Health primary) == HealthUnhealthy) || (health_State (inst_Health primary) == HealthUnknown)) &&
      negb (existsb (λ probe, (probe_InstanceID probe == inst_ResourceID primary) && (health_State (probe_Health probe) == HealthHealthy))
              (topo_Probes (mo_Snapshot resolved)))
  end.

Section service.
Variables (FormatTime : Time → string) (service : Service).

Definition finalizeAutomaticResume (record : OperationRecord) (execution : Execution) (verification : Verification) (success : bool)
    (cause : option error) : workflow outcome :=
  if negb (sv_atomicFinalizer service) then
    Ret (markDurabilityIndeterminate execution,
         Some (journalPersistenceError (newError "atomic operation finalizer is required for automatic continuation")))
  else
    let status := if success then OperationSucceeded else OperationIndeterminate in
    let stage := if success then StageReport else rec_Stage record in
    let failureClass := if success then "" else "promoted_unverified" in
    let message := if success then "automatic failover continuation completed and verified"
                   else verificationOutcomeMessage verification cause in
    let operation := rec_Operation record in
    let execution := marked status message (execution <| exec_OperationID := rec_ResourceID record |>) in
    execution ←? (if exec_ResourceID execution == "" then newDurableExecution (rec_ResourceID record) status message else Ret execution);
    let verification := verification <| ver_OperationID := rec_ResourceID record |> in
    executed ←? auditEvent operation StageExecute "automatic failover continuation executed with the immutable operation plan";
    checked ←? auditEvent operation StageVerify message;
    audited ←? auditEvent operation StageAudit "automatic failover continuation audit recorded";
    closing ←? auditEvent operation StageReport "automatic failover continuation report generated";
    recorded ←? terminalReport operation execution;
    finalized ←? perform (StoreFinalize (rec_ResourceID record) (rec_MetadataRevision record)
      (zero_OperationTransition <| trans_Stage := stage |> <| trans_Status := status |> <| trans_Execution := Some execution |>
         <| trans_Verification := Some verification |> <| trans_FailureClass := failureClass |> <| trans_Message := message |>)
      [executed; checked; audited; closing] [recorded]);
    Ret (match finalized with
         | Ok updated => terminalRecordResult updated
         | Err e => (markDurabilityIndeterminate execution,
                     Some (journalPersistenceError (wrapError "atomically persist automatic continuation: " e)))
         end).

(** The request of a continuation: the plan and its observation are the recorded ones. *)
Definition resume_request (record : OperationRecord) (request : Request) : Request :=
  request <| rq_Resolved ::= fmap (λ r, r <| mo_ObservationToken := plan_ObservationToken (rec_Plan record) |>
                                        <| mo_resolved ::= λ o, o <| ro_PlanDigest := plan_Digest (rec_Plan record) |> |>) |>.
Section resume.
Variables (record : OperationRecord) (candidate : Engine) (incidentID : string).
Let operation := rec_Operation record.
Definition resume_fail {A} (prefix : string) (e : error) : workflow (result outcome A) := giving_up (wrapError prefix e).
Definition require_source_failed (request : Request) (message : string) : workflow (result outcome unit) :=
  if automaticResumeSourceFailed (rq_Resolved request) then proceed else giving_up (newError message).
(** The adapter continues, and what it did is verified. *)
Definition resume_adapter (request : Request) : workflow outcome :=
  answer ←? perform (AdapterExecute candidate LeaseContext request);
  let '(execution, executeErr) := (answer : Execution * option error) in
  let execution := execution <| exec_OperationID := rec_ResourceID record |> in
  lease ←? lockLeaseFailure;
  let executeErr := normalizeAdapterExecutionError execution (joinMaybe executeErr lease) in
  if bool_decide (operationFailureClass <$> executeErr = Some "pre_commit") then Ret (execution, executeErr)
  else
    answer ←? detachedVerification candidate request;
    let '(verification, verifyErr) := (answer : Verification * option error) in
    lease ←? lockLeaseFailure;
    let verifyErr := joinMaybe verifyErr lease in
    let success := bool_decide (verifyErr = None) && Successful verification in
    let cause := joinMaybe executeErr verifyErr in
    let cause := if negb (Successful verification) && bool_decide (cause = None)
                 then Some (newError "post-commit verification found failed checks") else cause in
    finalizeAutomaticResume record execution verification success cause.
Definition resume_locked (observation : ObservationToken) (request : Request) : workflow (result outcome outcome) :=
  _ ←! (audit service operation StageLock "automatic failover continuation operation lock acquired" or_else giving_up);
  _ ←! (perform (RevalidateObservation LeaseContext operation observation) or_else
          resume_fail "automatic continuation topology changed: ");
  request ←! (perform (ResolveOperation LeaseContext request (Some observation)) or_else
                resume_fail "re-resolve continuation resources: ");
  _ ←! require_source_failed request "automatic continuation blocked because the original primary failure is no longer current";
  let request := (resume_request record request) <| rq_Progress := Some (automaticResumeProgress (newAutomaticResumeProgress (rec_Attempts record))) |> in
  _ ←! (audit service operation StageApprove ("automatic recovery continuation authorized for incident " +:+ incidentID) or_else giving_up);
  lease ←? lockLeaseFailure;
  match lease with
  | Some leaseErr => giving_up leaseErr
  | None => o ←? resume_adapter request; Ret (Ok o)
  end.
Definition resume_claimed (request : Request) : workflow (result outcome outcome) :=
  let request := (record_request record request) <| rq_Plan := Some (rec_Plan record) |> in
  observation ←! (perform (CaptureObservation CallerContext operation) or_else resume_fail "capture continuation topology: ");
  request ←! (perform (ResolveOperation CallerContext request (Some observation)) or_else resume_fail "resolve continuation resources: ");
  _ ←! require_source_failed request "automatic continuation blocked because the original primary is not currently proven failed";
  let request := resume_request record request in
  _ ←! (perform (EvaluateSafety CallerContext operation) or_else resume_fail "automatic continuation safety guard: ");
  _ ←! (audit service operation StageSafetyGuard "automatic failover continuation safety guard passed" or_else giving_up);
  _ ←! (perform (AcquireLock CallerContext operation) or_else resume_fail "automatic continuation operation lock: ");
  o ←? resume_locked observation request;
  _ ←? perform ReleaseLock;
  Ret o.
End resume.
Definition resumeIndeterminateAutomatic (record : OperationRecord) (request : Request) (incidentID : string) : workflow outcome :=
  match sv_registry service with
  | Some registry =>
      if negb (sv_discovery service && sv_safety service && sv_locks service && sv_resolver service) then
        Ret (zero_Execution, Some (newError "automatic continuation gates are not configured"))
      else if negb (sv_atomicFinalizer service) then
        Ret (zero_Execution, Some (newError "automatic continuation requires an atomic operation finalizer"))
      else
        claimed ←? perform (ClaimOperation (rec_ResourceID record));
        if negb (claimed : bool) then
          Ret (marked OperationRunning (err_Text ErrOperationInProgress) (zero_Execution <| exec_OperationID := rec_ResourceID record |>),
               Some ErrOperationInProgress)
        else
          o ←? (match resolveAdapter registry (rec_Operation record) with
                | None => Ret (zero_Execution, Some ErrUnsupported)
                | Some candidate =>
                    execute ←? perform (AdapterCapabilities candidate CallerContext);
                    verify ←? (if Supports execute CapabilityExecute then perform (AdapterCapabilities candidate CallerContext) else Ret execute);
                    if negb (Supports execute CapabilityExecute && Supports verify CapabilityVerify) then
                      Ret (zero_Execution, Some ErrUnsupported)
                    else join_outcome (resume_claimed record candidate incidentID request)
                end);
          _ ←? perform (ReleaseOperation (rec_ResourceID record));
          Ret o
  | None => Ret (zero_Execution, Some (newError "automatic continuation gates are not configured"))
  end.

(** ** Entry points *)

Definition execute (request : Request) (authorization : executionAuthorization) : workflow outcome :=
  if sv_operations service || sv_resolver service then
    if sv_operations service && sv_resolver service then executeDurable FormatTime service request authorization
    else Ret (zero_Execution, Some (newError "durable workflow requires operation store and resolver"))
  else executeLegacy FormatTime service request authorization.
Definition Execute (request : Request) (approvalToken : string) : workflow outcome :=
  execute request (mkAuthorization approvalToken false "").
Definition ExecuteAutomatic (request : Request) (incidentID : string) : workflow outcome :=
  let incidentID := TrimSpace incidentID in
  if opn_Kind (rq_Operation request) != OperationFailover then
    Ret (zero_Execution, Some (newError "automatic authorization is restricted to failover"))
  else if incidentID == "" then
    Ret (zero_Execution, Some (newError "automatic recovery incident identity is required"))
  else
    let request := request <| rq_Operation ::= λ o, o <| opn_RequestedBy := AutomaticRecoveryActor |> |> in
    found ←? (if sv_operations service then perform (StoreReadKey (rq_IdempotencyKey request)) else Ret None);
    match found with
    | Some record =>
        if automaticResumeEligible record request then resumeIndeterminateAutomatic record request incidentID
        else execute request (mkAuthorization "" true incidentID)
    | None => execute request (mkAuthorization "" true incidentID)
    end.

(** ** Abandoned operations *)

Section abandoned.
Variables (now staleBefore : Time) (staleAfter : Duration).
(** A running record that nobody has written for [staleAfter]. *)
Definition stale_record (record : OperationRecord) : bool :=
  (rec_Status record == OperationRunning) && negb (IsZero (rec_UpdatedAt record)) && negb (After (rec_UpdatedAt record) now) &&
  (staleAfter <=? Sub now (rec_UpdatedAt record)).
Definition finish_abandoned (record : OperationRecord) : workflow (result error (OperationRecord * bool)) :=
  match abandonedOperationOutcome record with
  | None => fail (newError ("operation " +:+ rec_ResourceID record +:+ " has an unrecognized running stage"))
  | Some (status, failureClass, message, _) =>
      execution ←? newDurableExecution (rec_ResourceID record) status message;
      let execution := execution <| exec_StartedAt := if IsZero (exec_StartedAt (rec_Execution record)) then rec_UpdatedAt record
                                                      else exec_StartedAt (rec_Execution record) |> in
      let stage := if status == OperationSucceeded then StageReport else rec_Stage record in
      event ←? auditEvent (rec_Operation record) stage message;
      closing ←? auditEvent (rec_Operation record) StageReport "abandoned operation recovery report generated";
      recorded ←? terminalReport (rec_Operation record) execution;
      perform (StoreFinalizeAbandoned (rec_ResourceID record) (rec_MetadataRevision record) now staleBefore
        (zero_OperationTransition <| trans_Stage := stage |> <| trans_Status := status |> <| trans_Execution := Some execution |>
           <| trans_FailureClass := failureClass |> <| trans_Message := message |>) [event; closing] [recorded])
  end.
(** The loop over the listed records; it ends early when the context is done. *)
Fixpoint reconcile_records (records : list OperationRecord) (reconciled : list OperationRecord) (failures : list error)
  : workflow (list OperationRecord * list error) :=
  match records with
  | [] => Ret (reconciled, failures)
  | record :: records =>
      done ←? perform (ContextError CallerContext);
      match done with
      | Some e => Ret (reconciled, failures ++ [e])
      | None =>
          if negb (stale_record record) then reconcile_records records reconciled failures
          else match abandonedOperationOutcome record with
          | None =>
              reconcile_records records reconciled
                (failures ++ [newError ("operation " +:+ rec_ResourceID record +:+ " has an unrecognized running stage")])
          | Some _ =>
              claimed ←? perform (ClaimOperation (rec_ResourceID record));
              if negb (claimed : bool) then reconcile_records records reconciled failures
              else
                finalized ←? finish_abandoned record;
                _ ←? perform (ReleaseOperation (rec_ResourceID record));
                match finalized with
                | Err e => reconcile_records records reconciled
                             (failures ++ [wrapError ("reconcile abandoned operation " +:+ rec_ResourceID record +:+ ": ") e])
                | Ok (updated, true) => reconcile_records records (reconciled ++ [updated]) failures
                | Ok (_, false) => reconcile_records records reconciled failures
                end
          end
      end
  end.
End abandoned.
Definition ReconcileAbandonedOperations (staleAfter : Duration) : workflow (result error (list OperationRecord * list error)) :=
  if negb (sv_operations service) then fail (newError "operation store is not configured")
  else if staleAfter <=? 0 then fail (newError "abandoned operation threshold must be positive")
  else if negb (sv_atomicFinalizer service && sv_abandonedFinalizer service) then
    fail (newError "atomic abandoned operation finalization is required")
  else
    now ←? perform ReadClock;
    records ←? perform (StoreList "");
    r ←? reconcile_records now (Add now (- staleAfter)) staleAfter records [] [];
    Ret (Ok r).
End service.
