(* ===== verification/WorkflowGates.v ===== *)
(** * internal/workflow: what precedes a mutation

    Whatever the store, the adapter, the journal and the other services
    answer: an adapter executes, and a metadata commit runs, only after every
    gate of the workflow was passed, in order, under the operation lock; and
    at most once.  The phases that come before make only [quiet] calls. *)
From S2P Require Import Prelude GoStd Model Endpoint Lease Locks Repository Operations Interfaces Candidates Program MySQLAdapter.
From S2P Require Import Disaster WorkflowBase Workflow WorkflowLegacy WorkflowRecovery.
#[local] Open Scope Z_scope.

(** ** Calls that mutate nothing *)

Definition mutates (c : workflow_action) : Prop :=
  match c with AdapterExecute _ _ _ | CommitMetadata => True | _ => False end.
Definition quiet (c : workflow_action) : Prop :=
  match c with AdapterExecute _ _ _ | CommitMetadata | ReleaseLock => False | _ => True end.
(** Nothing was executed, and no lock was given back. *)
Definition undisturbed (t : list event) : Prop := Forall (λ e, quiet (projT1 e)) t.
Definition harmless_call (c : workflow_action) : Prop := ¬ mutates c.
Lemma quiet_mutates c : quiet c → ¬ mutates c.
Proof. intros H1 H2. destruct c; done. Qed.
Lemma quiet_runs {A} (p : workflow A) t a : all_calls quiet p → runs p t a → undisturbed t.
Proof. intros Hp Hr. apply Forall_forall. by apply (all_calls_runs _ _ _ _ Hp Hr). Qed.
Lemma undisturbed_app t u : undisturbed (t ++ u) ↔ undisturbed t ∧ undisturbed u.
Proof. apply Forall_app. Qed.

Ltac wcalls := unfold returns, giving_up, fail, proceed; calls.
#[export] Hint Extern 2 (all_calls _ (perform _)) => exact (all_calls_call _ _ I) : calls.

Section quiet.
Variables (FormatTime : Time → string) (service : Service).
Lemma quiet_audit operation stage message : all_calls quiet (audit service operation stage message).
Proof. unfold audit, auditEvent. wcalls. Qed.
Lemma quiet_auditEvent operation stage message : all_calls quiet (auditEvent operation stage message).
Proof. unfold auditEvent. wcalls. Qed.
Lemma quiet_terminalReport operation execution : all_calls quiet (terminalReport operation execution).
Proof. unfold terminalReport. wcalls. Qed.
Lemma quiet_newDurableExecution id status message : all_calls quiet (newDurableExecution id status message).
Proof. unfold newDurableExecution. wcalls. Qed.
Lemma quiet_lockLeaseFailure : all_calls quiet lockLeaseFailure.
Proof. unfold lockLeaseFailure. wcalls. Qed.
Lemma quiet_durableRecord id : all_calls quiet (durableRecord id).
Proof. unfold durableRecord. wcalls. Qed.
#[local] Hint Resolve quiet_audit quiet_auditEvent quiet_terminalReport quiet_newDurableExecution quiet_lockLeaseFailure
  quiet_durableRecord : calls.
Lemma quiet_report operation execution committed : all_calls quiet (report service operation execution committed).
Proof. unfold report. wcalls. Qed.
Lemma quiet_advanceDurable id stage transition : all_calls quiet (advanceDurable id stage transition).
Proof. unfold advanceDurable. wcalls. Qed.
Lemma quiet_putDurablePlan record plan : all_calls quiet (putDurablePlan record plan).
Proof. unfold putDurablePlan. wcalls. Qed.
#[local] Hint Resolve quiet_report quiet_advanceDurable quiet_putDurablePlan : calls.
Lemma quiet_finish_atomic id operation committed record stage execution failureClass cause audits :
  all_calls quiet (finish_atomic id operation committed record stage execution failureClass cause audits).
Proof. unfold finish_atomic. wcalls. Qed.
Lemma quiet_finish_journal id operation committed stage execution failureClass cause :
  all_calls quiet (finish_journal service id operation committed stage execution failureClass cause).
Proof. unfold finish_journal. wcalls. Qed.
#[local] Hint Resolve quiet_finish_atomic quiet_finish_journal : calls.
Lemma quiet_finishDurable id operation committed stage execution failureClass cause :
  all_calls quiet (finishDurable service id operation committed stage execution failureClass cause).
Proof. unfold finishDurable. wcalls. Qed.
#[local] Hint Resolve quiet_finishDurable : calls.
Lemma quiet_finishDurableWithAudits id operation stage execution failureClass cause committed audits :
  all_calls quiet (finishDurableWithAudits service id operation stage execution failureClass cause committed audits).
Proof. unfold finishDurableWithAudits. wcalls. Qed.
Lemma quiet_finishDurableJournalFailure id operation stage e committed :
  all_calls quiet (finishDurableJournalFailure service id operation stage e committed).
Proof. unfold finishDurableJournalFailure. wcalls. Qed.
#[local] Hint Resolve quiet_finishDurableWithAudits quiet_finishDurableJournalFailure : calls.
Lemma quiet_finalizeRunning id operation : all_calls quiet (finalizeRunningOperationOnExit service id operation).
Proof. unfold finalizeRunningOperationOnExit. wcalls. Qed.
End quiet.
#[export] Hint Resolve quiet_audit quiet_auditEvent quiet_terminalReport quiet_newDurableExecution quiet_lockLeaseFailure
  quiet_durableRecord quiet_report quiet_advanceDurable quiet_putDurablePlan quiet_finish_atomic quiet_finish_journal quiet_finishDurable
  quiet_finishDurableWithAudits quiet_finishDurableJournalFailure quiet_finalizeRunning : calls.

(** ** The phases of an execution *)

Lemma failing_returns {A} (p : workflow outcome) : failing (returns p : workflow (result outcome A)).
Proof. apply failing_bind. intros o. apply failing_ret. Qed.
Lemma failing_giving_up {A} e : failing (giving_up e : workflow (result outcome A)).
Proof. apply failing_ret. Qed.
Ltac called H :=
  match type of H with runs (perform ?c) ?t ?x => let E := fresh in pose proof (runs_called c t x H) as E; clear H; subst t end.

Ltac peel H := apply runs_ebind_ok in H as (? & ? & ? & -> & ? & H).
Ltac here := apply (in_order_one _ _ _ (list_elem_of_here _ _)).

(** The events that the gates leave. *)
Definition claimed (id : ResourceID) (e : event) : Prop := e = existT (ClaimOperation id) true.
Definition captured (operation : Operation) (observation : ObservationToken) (e : event) : Prop :=
  e = existT (CaptureObservation CallerContext operation) (Ok observation).
Definition prechecked (e : event) : Prop :=
  ∃ candidate request checks, e = existT (AdapterPrecheck candidate CallerContext request) (Ok checks) ∧ hasBlockingCheck checks = false.
Definition metadata_prechecked (e : event) : Prop :=
  ∃ candidate request checks, e = existT (MetadataPrecheck candidate CallerContext request) (Ok checks) ∧ hasBlockingCheck checks = false.
Definition safe (operation : Operation) (e : event) : Prop := e = existT (EvaluateSafety CallerContext operation) (Ok tt).
Definition locked (operation : Operation) (e : event) : Prop := e = existT (AcquireLock CallerContext operation) (Ok tt).
Definition revalidated (operation : Operation) (observation : ObservationToken) (e : event) : Prop :=
  e = existT (RevalidateObservation LeaseContext operation observation) (Ok tt).
Definition approved (token : string) (e : event) : Prop :=
  ∃ record grant, e = existT (ConsumeApproval LeaseContext record token) (Ok grant).
Definition validated (operation : Operation) (token : string) (e : event) : Prop :=
  e = existT (ValidateApproval LeaseContext operation token) (Ok tt).
Definition source_failed (e : event) : Prop :=
  ∃ request observation resolved, e = existT (ResolveOperation LeaseContext request (Some observation)) (Ok resolved) ∧
    automaticResumeSourceFailed (rq_Resolved resolved) = true.
(** The lease of the lock was asked about, and is not lost. *)
Definition lease_held (e : event) : Prop :=
  ∃ cause, e = existT LeaseCause cause ∧ ∀ e, cause = Some e → err_FailureClass e ≠ Some "lock_lease_lost".

Lemma runs_lease t : runs lockLeaseFailure t None → in_order [lease_held] t.
Proof.
  intros (t1 & t2 & cause & -> & H1 & H2)%runs_bind. called H1. apply in_order_before, (in_order_one _ _ _ (list_elem_of_here _ _)).
  exists cause. split; [done|]. intros e ->. apply runs_inv in H2 as [_ H2]. by case_bool_decide.
Qed.

(** ** Gates in order *)

(** Nothing was executed yet, the lock is held, and these gates were passed in this order. *)
Definition ready (gates : list (event → Prop)) (t : list event) : Prop := undisturbed t ∧ in_order gates t.
Lemma ready_app gates gates' t u : undisturbed t → in_order gates t → ready gates' u → ready (gates ++ gates') (t ++ u).
Proof. intros Ht Hg [Hu Hg']. split; [by apply undisturbed_app|by apply in_order_app]. Qed.
Lemma never_mutates {A} R (p : workflow A) : all_calls quiet p → only_after mutates R p.
Proof. apply only_after_never, quiet_mutates. Qed.
(** A phase that passes gates, before the rest. *)
Lemma after_phase {E A B} gates gates' (p : workflow (result E A)) (f : A → workflow (result E B)) :
  all_calls quiet p → (∀ t a, runs p t (Ok a) → in_order gates t) → (∀ a, only_after mutates (ready gates') (f a)) →
  only_after mutates (ready (gates ++ gates')) (ebind p f).
Proof.
  intros Hp Hg Hf. apply only_after_ebind; [by apply never_mutates|]. intros t a Hr t' b pre e post Hr' Ht He.
  apply ready_app; [by eapply quiet_runs|by eapply Hg|by eapply Hf].
Qed.
Lemma after_quiet {E A B} gates (p : workflow (result E A)) (f : A → workflow (result E B)) :
  all_calls quiet p → (∀ a, only_after mutates (ready gates) (f a)) → only_after mutates (ready gates) (ebind p f).
Proof. intros Hp Hf. by apply (after_phase [] gates). Qed.
Lemma after_bind {A B} gates (p : workflow A) (f : A → workflow B) :
  all_calls quiet p → (∀ a, only_after mutates (ready gates) (f a)) → only_after mutates (ready gates) (pbind p f).
Proof.
  intros Hp Hf. apply only_after_bind; [by apply never_mutates|]. intros t a Hr t' b pre e post Hr' Ht He.
  apply (ready_app []); [by eapply quiet_runs|done|by eapply Hf].
Qed.
(** The gates of what a phase finds. *)
Definition ready_some {X} (gates : X → list (event → Prop)) (t : list event) : Prop := ∃ x, ready (gates x) t.
Lemma after_quiet_some {X E A B} (gates : X → list (event → Prop)) (p : workflow (result E A)) (f : A → workflow (result E B)) :
  all_calls quiet p → (∀ a, only_after mutates (ready_some gates) (f a)) → only_after mutates (ready_some gates) (ebind p f).
Proof.
  intros Hp Hf. apply only_after_ebind; [by apply never_mutates|]. intros t a Hr t' b pre e post Hr' Ht He.
  destruct (Hf a _ _ _ _ _ Hr' Ht He) as [x Hx]. exists x. by apply (ready_app []); [eapply quiet_runs| |].
Qed.
Lemma after_bind_some {X A B} (gates : X → list (event → Prop)) (p : workflow A) (f : A → workflow B) :
  all_calls quiet p → (∀ a, only_after mutates (ready_some gates) (f a)) → only_after mutates (ready_some gates) (pbind p f).
Proof.
  intros Hp Hf. apply only_after_bind; [by apply never_mutates|]. intros t a Hr t' b pre e post Hr' Ht He.
  destruct (Hf a _ _ _ _ _ Hr' Ht He) as [x Hx]. exists x. by apply (ready_app []); [eapply quiet_runs| |].
Qed.
Lemma after_phase_some {X E A B} (found : A → X) gates gates' (p : workflow (result E A)) (f : A → workflow (result E B)) :
  all_calls quiet p → (∀ t a, runs p t (Ok a) → in_order (gates (found a)) t) →
  (∀ a, only_after mutates (ready (gates' (found a))) (f a)) →
  only_after mutates (ready_some (λ x, gates x ++ gates' x)) (ebind p f).
Proof.
  intros Hp Hg Hf. apply only_after_ebind; [by apply never_mutates|]. intros t a Hr t' b pre e post Hr' Ht He. exists (found a).
  apply ready_app; [by eapply quiet_runs|by eapply Hg|by eapply Hf].
Qed.
Lemma only_after_mono {A} (R R' : list event → Prop) (p : workflow A) :
  (∀ t, R t → R' t) → only_after mutates R p → only_after mutates R' p.
Proof. intros HR Hp t a pre e post Hr Ht He. by eapply HR, Hp. Qed.
Lemma after_returned_some {X A B} (gates : X → list (event → Prop)) (p : workflow A) (f : A → workflow B) :
  only_after mutates (ready_some gates) p → (∀ a, all_calls harmless_call (f a)) → only_after mutates (ready_some gates) (pbind p f).
Proof.
  intros Hp Hf. apply only_after_bind; [exact Hp|]. intros t a _.
  eapply (only_after_never (Sg:=workflow_signature) mutates harmless_call); [done|apply Hf].
Qed.
Lemma after_found {A} gates gates' t (p : workflow A) : undisturbed t → in_order gates t → only_after mutates (ready gates') p →
  only_after mutates (λ pre, ready (gates ++ gates') (t ++ pre)) p.
Proof. intros Ht Hg. apply only_after_mono. intros u Hu. by apply ready_app. Qed.
Lemma after_failing {E A B} (R : list event → Prop) (p : workflow (result E A)) (f : A → workflow (result E B)) :
  all_calls quiet p → failing p → only_after mutates R (ebind p f).
Proof. intros Hp Hf. apply only_after_ebind; [by apply never_mutates|]. intros t a Hr. by apply failing_ok in Hr. Qed.
(** The mutation itself, and what follows it. *)
Lemma mutation_first {A} c (f : workflow_answer c → workflow A) :
  (∀ x, all_calls quiet (f x)) → only_after mutates (ready []) (pbind (perform c) f).
Proof.
  intros Hf. apply (only_after_bind (Sg:=workflow_signature)).
  - refine (only_after_call (Sg:=workflow_signature) _ _ c _). intros _. split; [constructor|done].
  - intros t x _. by apply never_mutates.
Qed.
(** What only follows mutates nothing. *)
Lemma after_returned {A B} gates (p : workflow A) (f : A → workflow B) :
  only_after mutates (ready gates) p → (∀ a, all_calls harmless_call (f a)) → only_after mutates (ready gates) (pbind p f).
Proof.
  intros Hp Hf. apply only_after_bind; [exact Hp|]. intros t a _.
  eapply (only_after_never (Sg:=workflow_signature) mutates harmless_call); [done|apply Hf].
Qed.

Section phases.
Variables (FormatTime : Time → string) (service : Service) (id : ResourceID) (operation : Operation) (candidate : Engine)
  (authorization : executionAuthorization).
Lemma failing_finish_error {A} stage status failureClass e :
  failing (finish_error service id operation stage status failureClass e : workflow (result outcome A)).
Proof. apply failing_returns. Qed.
Lemma failing_finish_message {A} stage status failureClass message :
  failing (finish_message service id operation stage status failureClass message : workflow (result outcome A)).
Proof. apply failing_returns. Qed.
#[local] Hint Resolve failing_finish_error failing_finish_message failing_returns failing_giving_up : core.

(** *** Calls *)

Lemma quiet_finish_error {A} stage status failureClass e :
  all_calls quiet (finish_error service id operation stage status failureClass e : workflow (result outcome A)).
Proof. unfold finish_error, finish_new. wcalls. Qed.
Lemma quiet_finish_message {A} stage status failureClass message :
  all_calls quiet (finish_message service id operation stage status failureClass message : workflow (result outcome A)).
Proof. unfold finish_message, finish_new. wcalls. Qed.
Lemma quiet_advance stage transition : all_calls quiet (advance id stage transition).
Proof. unfold advance. wcalls. Qed.
Lemma quiet_journaled stage message : all_calls quiet (journaled service id operation stage message).
Proof. unfold journaled. wcalls. Qed.
#[local] Hint Resolve quiet_finish_error quiet_finish_message quiet_advance quiet_journaled : calls.
Lemma quiet_require_capabilities features required : all_calls quiet (require_capabilities service id operation features required).
Proof. induction required; cbn [require_capabilities]; [wcalls|]. case_match; [done|]. unfold finish_new. wcalls. Qed.
Lemma quiet_observe_topology record : all_calls quiet (observe_topology FormatTime service id operation record).
Proof. unfold observe_topology. wcalls. Qed.
Lemma quiet_resolve_observed ctx stage failureClass observation request :
  all_calls quiet (resolve_observed FormatTime service id operation ctx stage failureClass observation request).
Proof. unfold resolve_observed. wcalls. Qed.
#[local] Hint Resolve quiet_require_capabilities quiet_observe_topology quiet_resolve_observed : calls.
Lemma quiet_precheck_operation request : all_calls quiet (precheck_operation service id operation candidate request).
Proof. unfold precheck_operation. wcalls. Qed.
Lemma quiet_plan_operation label request record : all_calls quiet (plan_operation service id operation candidate label request record).
Proof. unfold plan_operation. wcalls. Qed.
Lemma quiet_guard_operation : all_calls quiet (guard_operation service id operation).
Proof. unfold guard_operation. wcalls. Qed.
Lemma quiet_revalidate_locked observation request :
  all_calls quiet (revalidate_locked FormatTime service id operation observation request).
Proof. unfold revalidate_locked. wcalls. Qed.
Lemma quiet_approve_operation record : all_calls quiet (approve_operation service id operation authorization record).
Proof. unfold approve_operation. wcalls. Qed.
Lemma quiet_verifyOperation ctx request : all_calls quiet (verifyOperation candidate ctx request).
Proof. unfold verifyOperation. wcalls. Qed.
#[local] Hint Resolve quiet_verifyOperation : calls.
Lemma quiet_detachedVerification request : all_calls quiet (detachedVerification candidate request).
Proof. unfold detachedVerification. wcalls. Qed.
#[local] Hint Resolve quiet_detachedVerification : calls.
Lemma quiet_finish_failed request execution e : all_calls quiet (finish_failed service id operation candidate request execution e).
Proof. unfold finish_failed. wcalls. Qed.
Lemma quiet_finish_completed request execution : all_calls quiet (finish_completed service id operation candidate request execution).
Proof. unfold finish_completed. wcalls. Qed.
Lemma quiet_create_record request : all_calls quiet (create_record request).
Proof. unfold create_record. wcalls. Qed.
#[local] Hint Resolve quiet_precheck_operation quiet_plan_operation quiet_guard_operation quiet_revalidate_locked quiet_approve_operation
  quiet_finish_failed quiet_finish_completed quiet_create_record : calls.

(** *** Gates *)

Lemma gate_captured record t observation record' :
  runs (observe_topology FormatTime service id operation record) t (Ok (observation, record')) →
  in_order [captured operation observation] t.
Proof.
  unfold observe_topology. intros (t1 & t2 & o & -> & H1 & H2)%runs_ebind_ok. apply runs_or_else_ok in H1; [|auto]. called H1.
  apply in_order_before. here. repeat peel H2. apply runs_inv in H2 as [_ [= -> ->]]. done.
Qed.
Lemma gate_prechecked request t record :
  runs (precheck_operation service id operation candidate request) t (Ok record) → in_order [prechecked] t.
Proof.
  unfold precheck_operation. intros (t1 & t2 & checks & -> & H1 & H2)%runs_ebind_ok. apply runs_or_else_ok in H1; [|auto]. called H1.
  apply in_order_before. here. do 2 peel H2. exists candidate, request, checks. split; [done|].
  destruct (hasBlockingCheck checks); [by apply failing_ok in H2|done].
Qed.
Lemma gate_safe t record : runs (guard_operation service id operation) t (Ok record) → in_order [safe operation] t.
Proof.
  unfold guard_operation. intros (t1 & t2 & [] & -> & H1 & H2)%runs_ebind_ok. apply runs_or_else_ok in H1; [|auto]. called H1.
  apply in_order_before. by here.
Qed.
Lemma gate_revalidated observation request t a :
  runs (revalidate_locked FormatTime service id operation observation request) t (Ok a) → in_order [revalidated operation observation] t.
Proof.
  unfold revalidate_locked. intros H. do 2 peel H. apply runs_ebind_ok in H as (t1 & t2 & [] & -> & Hr & _).
  apply runs_or_else_ok in Hr; [|auto]. called Hr. do 2 apply in_order_after. apply in_order_before. by here.
Qed.
Definition approval_gate : list (event → Prop) :=
  if ea_automatic authorization then [] else [approved (ea_approvalToken authorization)].
Lemma gate_approved record t record' :
  runs (approve_operation service id operation authorization record) t (Ok record') → in_order approval_gate t.
Proof.
  unfold approve_operation, approval_gate. destruct (ea_automatic authorization); [done|].
  intros (t1 & t2 & a & -> & H1 & H2)%runs_ebind_ok. apply in_order_before. clear H2.
  apply runs_ebind_ok in H1 as (t3 & t4 & consumed & -> & H3 & _). apply runs_or_else_ok in H3; [|auto]. called H3.
  apply in_order_before. here. by exists record, consumed.
Qed.
Definition locked_gates (observation : ObservationToken) : list (event → Prop) :=
  [revalidated operation observation] ++ approval_gate ++ [lease_held].
Definition stage_gates (observation : ObservationToken) : list (event → Prop) :=
  [captured operation observation; prechecked; safe operation; locked operation] ++ locked_gates observation.

Lemma gates_run_adapter request : only_after mutates (ready []) (run_adapter service id operation candidate request).
Proof.
  apply mutation_first. intros [execution executeErr]. apply all_calls_bind; [apply quiet_lockLeaseFailure|]. intros lease.
  destruct lease; case_match; auto with calls.
Qed.
Lemma gates_execute_locked observation request : only_after mutates (ready (locked_gates observation))
  (execute_locked FormatTime service id operation candidate authorization observation request).
Proof.
  unfold execute_locked, locked_gates. apply after_phase; [auto with calls|intros t a; apply gate_revalidated|].
  intros [request' record]. apply after_phase; [auto with calls|intros t a; apply gate_approved|]. intros record'. cbv zeta.
  apply only_after_bind; [apply never_mutates; auto with calls|]. intros t [lease|] Hr; [apply never_mutates; auto with calls|].
  intros t' b pre e post Hr' Ht He. rewrite <- (app_nil_r [lease_held]).
  apply ready_app; [eapply quiet_runs, Hr; apply quiet_lockLeaseFailure|by apply runs_lease|].
  revert Hr' Ht He. generalize (rec_ResourceID record'). intros _. revert t' b pre e post.
  change (only_after mutates (ready []) (ebind (advance id StageExecute (saying "adapter execution started"))
    (λ _, pbind (run_adapter service id operation candidate (execution_request record' request')) (λ o, Ret (Ok o : result outcome outcome))))).
  apply after_quiet; [auto with calls|]. intros _. apply after_returned; [apply gates_run_adapter|done].
Qed.

Lemma gates_execute_stages request record : only_after mutates (ready_some stage_gates)
  (execute_stages FormatTime service id operation candidate authorization request record).
Proof.
  unfold execute_stages. apply after_bind_some; [wcalls|]. intros features. apply after_quiet_some; [auto with calls|]. intros _.
  apply after_quiet_some; [case_match; [wcalls|auto with calls]|]. intros _. apply after_quiet_some; [case_match; wcalls|]. intros _.
  apply (after_phase_some fst (λ o, [captured operation o])
           (λ o, [prechecked; safe operation; locked operation] ++ locked_gates o)); [auto with calls| |].
  { intros t [o record']. apply gate_captured. }
  intros [observation record']. cbn [fst]. apply after_quiet; [auto with calls|]. intros request'.
  apply (after_phase [prechecked]); [auto with calls|intros t a; apply gate_prechecked|]. intros record1.
  apply after_quiet; [auto with calls|]. intros record2.
  apply (after_phase [safe operation]); [auto with calls|intros t a; apply gate_safe|]. intros record3.
  apply (after_phase [locked operation]); [wcalls| |].
  { intros t [] Hr%runs_or_else_ok; [|auto]. called Hr. by here. }
  intros _. apply after_returned; [apply gates_execute_locked|]. intros o. split; [by intros []|done].
Qed.
End phases.
#[export] Hint Resolve quiet_finish_error quiet_finish_message quiet_verifyOperation quiet_detachedVerification quiet_create_record
  quiet_finish_failed quiet_finish_completed quiet_advance quiet_journaled quiet_require_capabilities quiet_observe_topology quiet_resolve_observed
  quiet_precheck_operation quiet_plan_operation quiet_guard_operation quiet_revalidate_locked quiet_approve_operation : calls.

(** ** Executors *)

Section executors.
Variables (FormatTime : Time → string) (service : Service).
Definition durable_gates (authorization : executionAuthorization) (x : Operation * ObservationToken) : list (event → Prop) :=
  claimed (opn_ResourceID x.1) :: stage_gates x.1 authorization x.2.
Lemma gates_join {X} (gates : X → list (event → Prop)) p : only_after mutates (ready_some gates) p →
  only_after mutates (ready_some gates) (join_outcome p).
Proof. intros Hp. apply after_returned_some; [exact Hp|done]. Qed.
Lemma gates_execute_claimed registry request record authorization :
  only_after mutates (ready_some (stage_gates (record_operation record) authorization))
    (execute_claimed FormatTime service registry request record authorization).
Proof.
  unfold execute_claimed. cbv zeta. destruct (resolveAdapter _ _) as [candidate|].
  - apply gates_join, gates_execute_stages.
  - apply never_mutates. unfold join_outcome, finish_new. wcalls.
Qed.
Lemma gates_executeDurable request authorization : only_after mutates (ready_some (durable_gates authorization))
  (executeDurable FormatTime service request authorization).
Proof.
  unfold executeDurable. destruct (sv_registry service) as [registry|]; [|apply only_after_ret]. apply gates_join.
  apply after_quiet_some; [auto with calls|]. intros [record reused]. cbv zeta. case_match; [apply only_after_ret|].
  apply only_after_bind; [apply never_mutates; wcalls|]. intros t claim Hr. called Hr. destruct claim; cbn [negb].
  2: { apply (never_mutates _ (pbind (audit service _ _ _) _)). wcalls. }
  apply only_after_bind.
  - intros t a pre e post Hr Ht He. destruct (gates_execute_claimed _ _ _ _ _ _ _ _ _ Hr Ht He) as [observation [Hu Hg]].
    exists (record_operation record, observation). split; [by constructor|]. exists [], (existT (ClaimOperation (rec_ResourceID record)) true), pre.
    split_and!; [done|done|exact Hg].
  - intros t a _. eapply (only_after_never (Sg:=workflow_signature) mutates harmless_call); [done|].
    apply all_calls_bind; [eapply all_calls_mono; [|apply quiet_finalizeRunning]; apply quiet_mutates|]. intros _. split; [by intros []|done].
Qed.

(** *** Without a durable record *)

Section legacy.
Variables (operation : Operation) (candidate : Engine) (authorization : executionAuthorization).
Lemma quiet_recordOutcome execution stage message cause : all_calls quiet (recordOutcome service operation execution stage message cause).
Proof. unfold recordOutcome. wcalls. Qed.
#[local] Hint Resolve quiet_recordOutcome : calls.
Lemma quiet_unsupported message : all_calls quiet (unsupported service operation message).
Proof. unfold unsupported. wcalls. Qed.
Lemma quiet_ending {A} stage status message auditMessage cause :
  all_calls quiet (ending service operation stage status message auditMessage cause : workflow (result outcome A)).
Proof. unfold ending. wcalls. Qed.
Lemma quiet_ending_error {A} stage status prefix e :
  all_calls quiet (ending_error service operation stage status prefix e : workflow (result outcome A)).
Proof. apply quiet_ending. Qed.
Lemma failing_ending {A} stage status message auditMessage cause :
  failing (ending service operation stage status message auditMessage cause : workflow (result outcome A)).
Proof. apply failing_returns. Qed.
Lemma failing_ending_error {A} stage status prefix e :
  failing (ending_error service operation stage status prefix e : workflow (result outcome A)).
Proof. apply failing_returns. Qed.
Lemma quiet_audited stage message : all_calls quiet (audited service operation stage message).
Proof. unfold audited. wcalls. Qed.
Lemma quiet_audit_after journalErr stage message : all_calls quiet (audit_after service operation journalErr stage message).
Proof. unfold audit_after. wcalls. Qed.
Lemma quiet_report_after journalErr execution : all_calls quiet (report_after service operation journalErr execution).
Proof. unfold report_after. wcalls. Qed.
#[local] Hint Resolve quiet_unsupported quiet_ending quiet_ending_error quiet_audited quiet_audit_after quiet_report_after : calls.
#[local] Hint Resolve failing_ending failing_ending_error failing_giving_up : core.
Lemma quiet_legacy_capabilities features required : all_calls quiet (legacy_capabilities service operation features required).
Proof. induction required; cbn [legacy_capabilities]; [wcalls|]. case_match; [done|]. wcalls. Qed.
Lemma quiet_legacy_verified request execution journalErr :
  all_calls quiet (legacy_verified service operation candidate request execution journalErr).
Proof. unfold legacy_verified. wcalls. Qed.
#[local] Hint Resolve quiet_legacy_capabilities quiet_legacy_verified : calls.

Lemma gates_legacy_adapter request : only_after mutates (ready []) (legacy_adapter service operation candidate request).
Proof.
  apply mutation_first. intros [execution err]. apply all_calls_bind; [apply quiet_lockLeaseFailure|]. intros lease.
  destruct lease; case_match; wcalls.
Qed.
Lemma gates_lease {A} (f : option error → workflow A) :
  (∀ e, all_calls quiet (f (Some e))) → only_after mutates (ready []) (f None) →
  only_after mutates (ready [lease_held]) (pbind lockLeaseFailure f).
Proof.
  intros Hs Hn. apply only_after_bind; [apply never_mutates, quiet_lockLeaseFailure|]. intros t [lease|] Hr; [by apply never_mutates|].
  intros t' b pre e post Hr' Ht He. rewrite <- (app_nil_r [lease_held]).
  apply ready_app; [eapply quiet_runs, Hr; apply quiet_lockLeaseFailure|by apply runs_lease|by eapply Hn].
Qed.
Lemma gates_legacy_locked request observation label plan : only_after mutates (ready (locked_gates operation authorization observation))
  (legacy_locked service operation candidate authorization request observation label plan).
Proof.
  unfold legacy_locked, locked_gates. apply after_quiet; [auto with calls|]. intros _.
  apply after_phase; [wcalls| |].
  { intros t [] Hr%runs_or_else_ok; [|auto]. called Hr. by here. }
  intros _. apply after_quiet; [auto with calls|]. intros _. apply after_phase; [wcalls| |].
  { intros t message. unfold approval_gate. destruct (ea_automatic authorization); [done|].
    intros (t1 & t2 & consumed & -> & Hr & _)%runs_ebind_ok. apply runs_or_else_ok in Hr; [|auto]. called Hr.
    apply in_order_before. here. by eexists _, consumed. }
  intros message. apply after_quiet; [auto with calls|]. intros _. apply gates_lease; [auto with calls|].
  apply after_returned; [apply gates_legacy_adapter|done].
Qed.
Lemma gates_legacy_stages request : only_after mutates (ready_some (stage_gates operation authorization))
  (legacy_stages FormatTime service operation candidate authorization request).
Proof.
  unfold legacy_stages. apply after_bind_some; [wcalls|]. intros features. apply after_quiet_some; [auto with calls|]. intros _.
  apply after_quiet_some; [wcalls|]. intros _. cbv zeta.
  apply (after_phase_some id (λ o, [captured operation o])
           (λ o, [prechecked; safe operation; locked operation] ++ locked_gates operation authorization o)); [wcalls| |].
  { intros t o Hr%runs_or_else_ok; [|auto]. called Hr. by here. }
  intros observation. apply after_quiet; [auto with calls|]. intros _.
  apply only_after_ebind; [apply never_mutates; wcalls|]. intros t checks Hr%runs_or_else_ok; [|auto]. called Hr.
  apply only_after_ebind; [apply never_mutates; auto with calls|]. intros t [] Hr.
  destruct (hasBlockingCheck checks) eqn:Hc.
  { apply after_failing; [auto with calls|apply failing_ending]. }
  set (asked := existT _ _). apply (only_after_mono (λ pre, ready
    ([prechecked] ++ [safe operation; locked operation] ++ locked_gates operation authorization observation) (([asked] ++ t) ++ pre))).
  { intros u. by rewrite <- app_assoc. }
  apply after_found.
  { apply undisturbed_app. split; [by constructor|eapply quiet_runs, Hr; auto with calls]. }
  { apply in_order_before. here. by eexists _, _, checks. }
  apply after_quiet; [done|]. intros _. apply after_quiet; [wcalls|]. intros plan. apply after_quiet; [auto with calls|]. intros _.
  apply after_quiet; [case_match; wcalls|]. intros _.
  apply (after_phase [safe operation]); [wcalls| |].
  { intros u [] Hu%runs_or_else_ok; [|auto]. called Hu. by here. }
  intros _. apply after_quiet; [auto with calls|]. intros _.
  apply (after_phase [locked operation]); [wcalls| |].
  { intros u [] Hu%runs_or_else_ok; [|auto]. called Hu. by here. }
  intros _. apply after_returned; [apply gates_legacy_locked|]. intros o. split; [by intros []|done].
Qed.

(** *** Metadata *)

Section metadata.
Variables (request : MetadataRequest) (metadata : metadataExecutionAuthorization).
Definition validation_gate : list (event → Prop) :=
  if platformAuthorized metadata then [] else [validated operation (ma_approvalToken metadata)].
Definition metadata_gates : list (event → Prop) :=
  [metadata_prechecked; safe operation; locked operation] ++ validation_gate ++ [lease_held].
Lemma quiet_metadata_committed uncertain commitErr : all_calls quiet (metadata_committed service operation request uncertain commitErr).
Proof. unfold metadata_committed. wcalls. Qed.
Lemma gates_metadata_commit : only_after mutates (ready []) (metadata_commit service operation request).
Proof.
  apply mutation_first. intros committed. apply all_calls_bind; [apply quiet_lockLeaseFailure|]. intros lease. cbv zeta.
  repeat case_match; first [apply quiet_metadata_committed|auto with calls].
Qed.
Lemma gates_metadata_locked : only_after mutates (ready (validation_gate ++ [lease_held])) (metadata_locked service operation request metadata).
Proof.
  unfold metadata_locked, validation_gate. apply after_quiet; [auto with calls|]. intros _. apply after_phase; [wcalls| |].
  { intros t message. destruct (platformAuthorized metadata); [done|]. case_match; [by intros Hr%failing_ok|].
    intros (t1 & t2 & [] & -> & Hr & _)%runs_ebind_ok. apply runs_or_else_ok in Hr; [|auto]. called Hr.
    apply in_order_before. by here. }
  intros message. apply after_quiet; [auto with calls|]. intros _. apply gates_lease; [auto with calls|].
  apply after_returned; [apply gates_metadata_commit|done].
Qed.
Lemma gates_metadata_stages : only_after mutates (ready metadata_gates) (metadata_stages service operation candidate request metadata).
Proof.
  unfold metadata_stages, metadata_gates.
  apply only_after_ebind; [apply never_mutates; wcalls|]. intros t checks Hr%runs_or_else_ok; [|auto]. called Hr.
  apply only_after_ebind; [apply never_mutates; auto with calls|]. intros t [] Hr.
  destruct (hasBlockingCheck checks) eqn:Hc.
  { apply after_failing; [auto with calls|apply failing_ending]. }
  set (asked := existT _ _). apply (only_after_mono (λ pre, ready
    ([metadata_prechecked] ++ [safe operation; locked operation] ++ validation_gate ++ [lease_held]) (([asked] ++ t) ++ pre))).
  { intros u. by rewrite <- app_assoc. }
  apply after_found.
  { apply undisturbed_app. split; [by constructor|eapply quiet_runs, Hr; auto with calls]. }
  { apply in_order_before. here. by eexists _, _, checks. }
  apply after_quiet; [done|]. intros _. apply after_quiet; [wcalls|]. intros _. apply after_quiet; [auto with calls|]. intros _.
  apply after_quiet; [case_match; wcalls|]. intros _.
  apply (after_phase [safe operation]); [wcalls| |].
  { intros u [] Hu%runs_or_else_ok; [|auto]. clear Hr asked. called Hu. by here. }
  intros _. apply after_quiet; [auto with calls|]. intros _.
  apply (after_phase [locked operation]); [wcalls| |].
  { intros u [] Hu%runs_or_else_ok; [|auto]. clear Hr asked. called Hu. by here. }
  intros _. apply after_returned; [apply gates_metadata_locked|]. intros o. split; [by intros []|done].
Qed.
End metadata.
End legacy.
#[local] Hint Resolve quiet_unsupported : calls.

Lemma gates_executeLegacy request authorization : only_after mutates (ready_some (λ x, stage_gates x.1 authorization x.2))
  (executeLegacy FormatTime service request authorization).
Proof.
  unfold executeLegacy. destruct (sv_registry service) as [registry|]; [|apply only_after_ret].
  apply after_bind_some; [unfold identified; wcalls|]. intros operation. cbv zeta. destruct (resolveAdapter _ _) as [candidate|].
  - apply gates_join. eapply only_after_mono; [|apply gates_legacy_stages]. intros t [o Ho]. by eexists (_, o).
  - apply never_mutates. auto with calls.
Qed.
Lemma gates_executeMetadata operation request metadata commit : only_after mutates (ready_some (λ o, metadata_gates o metadata))
  (executeMetadata service operation request metadata commit).
Proof.
  unfold executeMetadata. destruct (sv_registry service) as [registry|]; [|apply only_after_ret].
  case_match; [apply only_after_ret|]. apply after_bind_some; [unfold identified; wcalls|]. intros operation'. cbv zeta.
  destruct (registry_Get _ _) as [candidate|]; [|apply never_mutates; auto with calls].
  apply after_bind_some; [wcalls|]. intros features. case_match; [apply never_mutates; auto with calls|].
  apply gates_join. eapply only_after_mono; [|apply gates_metadata_stages]. intros t Ht. by eexists.
Qed.

(** *** Continuing an unverified failover *)

Section resume.
Variables (record : OperationRecord) (candidate : Engine) (incidentID : string).
Let operation := rec_Operation record.
Definition resume_locked_gates (observation : ObservationToken) : list (event → Prop) :=
  [revalidated operation observation; source_failed; lease_held].
Definition resume_gates (observation : ObservationToken) : list (event → Prop) :=
  [captured operation observation; safe operation; locked operation] ++ resume_locked_gates observation.
Lemma failing_resume_fail {A} prefix e : failing (resume_fail prefix e : workflow (result outcome A)).
Proof. apply failing_ret. Qed.
#[local] Hint Resolve failing_resume_fail failing_giving_up : core.
Lemma quiet_finalizeAutomaticResume execution verification success cause :
  all_calls quiet (finalizeAutomaticResume service record execution verification success cause).
Proof. unfold finalizeAutomaticResume. wcalls. Qed.
#[local] Hint Resolve quiet_finalizeAutomaticResume : calls.
Lemma gates_resume_adapter request : only_after mutates (ready []) (resume_adapter service record candidate request).
Proof. apply mutation_first. intros [execution err]. cbv zeta. unfold resume_fail. wcalls. Qed.
Lemma gates_resume_locked observation request : only_after mutates (ready (resume_locked_gates observation))
  (resume_locked service record candidate incidentID observation request).
Proof.
  unfold resume_locked, resume_locked_gates. apply after_quiet; [wcalls|]. intros _.
  apply (after_phase [revalidated operation observation]); [unfold resume_fail; wcalls| |].
  { intros t [] Hr%runs_or_else_ok; [|auto]. called Hr. by here. }
  intros _. apply only_after_ebind; [apply never_mutates; unfold resume_fail; wcalls|].
  intros t resolved Hr%runs_or_else_ok; [|auto]. called Hr. unfold require_source_failed.
  destruct (automaticResumeSourceFailed (rq_Resolved resolved)) eqn:Hf; [|apply after_failing; [done|apply failing_ret]].
  apply (after_found [source_failed] [lease_held]); [by constructor|here; by eexists _, _, resolved|].
  apply after_quiet; [done|]. intros _. cbv zeta. apply after_quiet; [wcalls|]. intros _. apply gates_lease; [wcalls|].
  apply after_returned; [apply gates_resume_adapter|done].
Qed.
Lemma gates_resume_claimed request : only_after mutates (ready_some resume_gates)
  (resume_claimed service record candidate incidentID request).
Proof.
  unfold resume_claimed. cbv zeta.
  apply (after_phase_some id (λ o, [captured operation o]) (λ o, [safe operation; locked operation] ++ resume_locked_gates o));
    [unfold resume_fail; wcalls| |].
  { intros t o Hr%runs_or_else_ok; [|auto]. called Hr. by here. }
  intros observation. apply after_quiet; [unfold resume_fail; wcalls|]. intros resolved.
  apply after_quiet; [unfold require_source_failed; wcalls|]. intros _.
  apply (after_phase [safe operation]); [unfold resume_fail; wcalls| |].
  { intros t [] Hr%runs_or_else_ok; [|auto]. called Hr. by here. }
  intros _. apply after_quiet; [wcalls|]. intros _. apply (after_phase [locked operation]); [unfold resume_fail; wcalls| |].
  { intros t [] Hr%runs_or_else_ok; [|auto]. called Hr. by here. }
  intros _. apply after_returned; [apply gates_resume_locked|]. intros o. split; [by intros []|done].
Qed.
End resume.
Definition continuation_gates (record : OperationRecord) (observation : ObservationToken) : list (event → Prop) :=
  claimed (rec_ResourceID record) :: resume_gates record observation.
Lemma gates_resume record request incidentID : only_after mutates (ready_some (continuation_gates record))
  (resumeIndeterminateAutomatic service record request incidentID).
Proof.
  unfold resumeIndeterminateAutomatic. destruct (sv_registry service) as [registry|]; [|apply only_after_ret].
  case_match; [apply only_after_ret|]. case_match; [apply only_after_ret|].
  apply only_after_bind; [apply never_mutates; wcalls|]. intros t claim Hr. called Hr. destruct claim; [|apply only_after_ret].
  cbn [negb]. apply only_after_bind.
  2: { intros t a _. apply never_mutates. wcalls. }
  apply (only_after_mono (ready_some (resume_gates record))).
  { intros t [o [Hu Hg]]. exists o. split; [by constructor|].
    exists [], (existT (ClaimOperation (rec_ResourceID record)) true), t. by split_and!. }
  destruct (resolveAdapter _ _) as [candidate|]; [|apply only_after_ret].
  apply after_bind_some; [wcalls|]. intros features. apply after_bind_some; [wcalls|]. intros features'.
  case_match; [apply only_after_ret|]. apply gates_join, gates_resume_claimed.
Qed.
End executors.
