(* ===== verification/WorkflowSystem.v ===== *)
(** * internal/workflow: the service beside the rest of the control plane

    The store the workflow writes is the one of [Operations]; other executors,
    the operators and the rest of the control plane change it between the calls
    of a workflow and while its adapter runs.  A store call that succeeds did
    what [Operations] says; one that fails with a durability warning did it
    too; of any other failure nothing is assumed. *)
From S2P Require Import Prelude GoStd Model Endpoint Lease Locks Repository Operations Interfaces Candidates Program MySQLAdapter.
From S2P Require Import Approval WorkflowBase Workflow.
#[local] Open Scope Z_scope.

(** ** What an accepted write stores *)

Definition accepted {A} (res : result store_error A) : Prop := is_ok res = true ∨ res = Err ErrPostCommitDurability.
Lemma result_bind_err {E A B} (r : result E A) (f : A → result E B) e :
  r ≫= f = Err e ↔ r = Err e ∨ ∃ a, r = Ok a ∧ f a = Err e.
Proof.
  destruct r as [a|e']; cbn.
  - split; [by eauto|]. intros [H|(b & H & ?)]; [done|]. by injection H as ->.
  - split; [intros [= ->]; by left|]. intros [[= ->]|(b & H & _)]; done.
Qed.
Lemma reject_err {E} b (e e' : E) : reject b e = Err e' → e' = e.
Proof. destruct b; cbn; congruence. Qed.
Lemma require_err {E} b (e e' : E) : require b e = Err e' → e' = e.
Proof. destruct b; cbn; congruence. Qed.

Section writes.
Variable Text : string → string.
(** The errors of a transition that is refused. *)
Definition refusal (e : store_error) : Prop := e = ErrConflict ∨ e = ErrValidation.
Ltac refuse := repeat match goal with
  | H : Ok _ = Err _ |- _ => discriminate H
  | H : reject _ _ = Err _ |- _ => apply reject_err in H as ->
  | H : require _ _ = Err _ |- _ => apply require_err in H as ->
  | H : _ ≫= _ = Err _ |- _ => apply result_bind_err in H as [H|(? & ? & H)]
  | H : context [if ?b then _ else _] |- _ => destruct b
  | H : context [match ?x with Some _ => _ | None => _ end] |- _ => destruct x
  end; try (by left); try (by right).
Lemma apply_refusal o t now e : applyOperationTransition Text o t now = Err e → refusal e.
Proof.
  unfold applyOperationTransition, apply_stage, apply_status, apply_observation, apply_attempt, validateAttempt, apply_verification, refusal.
  intros H. refuse.
Qed.
(** What a transition sets. *)
Record op_applied (t : OperationTransition) (o o' : OperationRecord) : Prop := mk_applied {
  app_evolves : op_evolves o o';
  app_stage : trans_Stage t ≠ no_stage → rec_Stage o' = trans_Stage t;
  app_status : trans_Status t ≠ no_status → rec_Status o' = trans_Status t;
  app_observation : trans_Observation t ≠ "" → rec_Observation o' = trans_Observation t;
  app_plan : rec_Plan o' = rec_Plan o;
  app_attempts : rec_Attempts o' = rec_Attempts o ++ match trans_Attempt t with
                                                   | Some attempt => [attempt <| att_Message ::= Text |>] | None => [] end;
  app_verification : ∀ v, trans_Verification t = Some v →
    Successful (rec_Verification o') = Successful v ∧ ver_OperationID (rec_Verification o') = rec_ResourceID o'
}.
Ltac fields H := case_match; repeat bsimpl_step; injection H as <-; split_and!; reflexivity.
Lemma apply_applied t o now o' : applyOperationTransition Text o t now = Ok o' → op_applied t o o'.
Proof.
  intros H. destruct (apply_evolves Text _ _ _ _ H) as (He & Hs & _). unfold applyOperationTransition in H.
  apply result_bind_ok in H as (u & _ & H). apply result_bind_ok in H as (o1 & H1 & H).
  apply result_bind_ok in H as (o2 & H2 & H). apply result_bind_ok in H as (o3 & H3 & H).
  apply result_bind_ok in H as (o4 & H4 & H). apply result_bind_ok in H as (o5 & H5 & H).
  apply result_bind_ok in H as (u' & _ & H). injection H as <-.
  assert (trans_Stage t ≠ no_stage → rec_Stage o1 = trans_Stage t) as Hst.
  { intros Hn. unfold apply_stage in H1. rewrite bool_decide_false in H1 by done. cbn [negb] in H1. repeat bsimpl_step. by injection H1 as <-. }
  assert (rec_Plan o1 = rec_Plan o ∧ rec_Attempts o1 = rec_Attempts o) as [Hp1 Ha1] by (clear -H1; unfold apply_stage in H1; fields H1).
  assert (rec_Stage o2 = rec_Stage o1 ∧ rec_Plan o2 = rec_Plan o1 ∧ rec_Attempts o2 = rec_Attempts o1) as (Hs2 & Hp2 & Ha2)
    by (clear -H2; unfold apply_status in H2; fields H2).
  assert (trans_Observation t ≠ "" → rec_Observation o3 = trans_Observation t) as Ho3.
  { intros Hn. unfold apply_observation in H3. rewrite bool_decide_false in H3 by done. cbn [negb] in H3. repeat bsimpl_step. by injection H3 as <-. }
  assert (rec_Stage o3 = rec_Stage o2 ∧ rec_Plan o3 = rec_Plan o2 ∧ rec_Attempts o3 = rec_Attempts o2) as (Hs3 & Hp3 & Ha3)
    by (clear -H3; unfold apply_observation in H3; fields H3).
  assert (rec_Stage o4 = rec_Stage o3 ∧ rec_Plan o4 = rec_Plan o3 ∧ rec_Observation o4 = rec_Observation o3 ∧
    rec_Attempts o4 = rec_Attempts o3 ++ match trans_Attempt t with Some a => [a <| att_Message ::= Text |>] | None => [] end)
    as (Hs4 & Hp4 & Ho4 & Ha4).
  { unfold apply_attempt, apply_precheck in H4. destruct (trans_Attempt t), (trans_Precheck t); repeat bsimpl_step;
      injection H4 as <-; rewrite ?app_nil_r; split_and!; reflexivity. }
  assert (rec_Stage o5 = rec_Stage o4 ∧ rec_Plan o5 = rec_Plan o4 ∧ rec_Observation o5 = rec_Observation o4 ∧ rec_Attempts o5 = rec_Attempts o4)
    as (Hs5 & Hp5 & Ho5 & Ha5)
    by (unfold apply_verification, apply_execution in H5; destruct (trans_Verification t), (trans_Execution t); repeat bsimpl_step;
        injection H5 as <-; split_and!; reflexivity).
  split; cbn.
  - exact He.
  - rewrite Hs5, Hs4, Hs3, Hs2. exact Hst.
  - intros Hn. cbn in Hs. rewrite Hs, bool_decide_false by done. done.
  - rewrite Ho5, Ho4. exact Ho3.
  - by rewrite Hp5, Hp4, Hp3, Hp2, Hp1.
  - by rewrite Ha5, Ha4, Ha3, Ha2, Ha1.
  - intros v Hv. clear -H5 Hv. unfold apply_verification in H5. rewrite Hv in H5.
    apply result_bind_ok in H5 as (? & _ & H5). injection H5 as <-. cbn. split; [|done].
    unfold Successful. cbn. rewrite length_map. f_equal. induction (ver_Checks v) as [|c l IH]; [done|]. cbn. by rewrite IH.
Qed.

(** The record [id] was [o], and is [o'] unless it is forgotten. *)
Record wrote (id : ResourceID) (r r' : Repository) (o o' : OperationRecord) : Prop := mk_wrote {
  wr_before : OperationByID id r = Some o;
  wr_after : ∀ x, OperationByID id r' = Some x → x = o'
}.
Lemma commit_stored {A} (a : A) id o new value r r' res :
  Operations.answer a (commit value r) = (r', res) → OperationByID id r = Some o →
  sn_Operations value = <[id := new]> (sn_Operations (repo_snapshot r)) → accepted res →
  wrote id r r' o new ∧ ∀ x, res = Ok x → x = a.
Proof.
  unfold Operations.answer. destruct (commit value r) as [r1 res1] eqn:Hc. intros [= <- <-] Ho Hv Ha. unfold commit in Hc.
  assert (repo_snapshot r1 = compactSnapshotHistory value) as Hs.
  { destruct (repo_commits r) as [|[] cs]; injection Hc as <- <-; try done. by destruct Ha. }
  split; [split; [exact Ho|]|by destruct res1; intros x [= ->]].
  intros x Hx. unfold OperationByID in Hx. rewrite Hs in Hx. apply compacted_operation in Hx. rewrite Hv, lookup_insert_eq in Hx. by injection Hx.
Qed.
Lemma refused_not_accepted {A} e : refusal e → ¬ accepted (Err e : result store_error A).
Proof. intros Hr Ha. destruct Hr as [-> | ->], Ha; done. Qed.
Lemma transition_stored id rev t r r' res : TransitionOperation Text id rev t r = (r', res) → accepted res →
  ∃ o o', wrote id r r' o o' ∧ op_applied t o o' ∧ rec_MetadataRevision o = rev ∧ ∀ x, res = Ok x → x = o'.
Proof.
  unfold TransitionOperation. destruct (sn_Operations (repo_snapshot r) !! id) as [o|] eqn:Ho; [|intros [= <- <-] Ha; by destruct Ha].
  destruct (bool_decide_reflect (rec_MetadataRevision o = rev)) as [Hrev|]; cbn [negb]; [|intros [= <- <-] Ha; by destruct Ha].
  destruct (_ && _); [intros [= <- <-] Ha; by destruct Ha|].
  destruct (applyOperationTransition Text o t (repo_now r)) as [o'|e] eqn:Hap.
  2: { intros [= <- <-] Ha. apply apply_refusal in Hap. by destruct (refused_not_accepted _ Hap Ha). }
  intros Hc Ha. exists o, o'. destruct (commit_stored _ _ _ o' _ _ _ _ Hc Ho eq_refl Ha) as [Hw Hres].
  split_and!; [exact Hw|by eapply apply_applied|exact Hrev|exact Hres].
Qed.
Lemma plan_stored fresh id rev plan r r' res : PutOperationPlan fresh id rev plan r = (r', res) → accepted res →
  ∃ o o', wrote id r r' o o' ∧ rtc op_evolves o o' ∧ plan_Digest (rec_Plan o') ≠ "" ∧ ∀ x, res = Ok x → x = o'.
Proof.
  unfold PutOperationPlan. destruct (sn_Operations (repo_snapshot r) !! id) as [o|] eqn:Ho; [|intros [= <- <-] Ha; by destruct Ha].
  case_match; [intros [= <- <-] Ha; by destruct Ha|]. destruct (terminalOperationStatus _) eqn:Ht; [intros [= <- <-] Ha; by destruct Ha|].
  destruct (validateOperationPlan o plan) as [u|e] eqn:Hv.
  2: { intros [= <- <-] Ha. assert (refusal e) as Hr by (clear -Hv; unfold validateOperationPlan, refusal in *; refuse). by destruct (refused_not_accepted _ Hr Ha). }
  destruct (bool_decide_reflect (plan_Digest (rec_Plan o) = "")) as [Hd|Hd]; cbn [negb].
  - intros Hc Ha. exists o. eexists. destruct (commit_stored _ _ _ _ _ _ _ _ Hc Ho eq_refl Ha) as [Hw Hres].
    split_and!; [exact Hw|apply rtc_once, plan_evolves; [done..|intros He; by rewrite He in Ht]| |exact Hres].
    cbn. unfold validateOperationPlan in Hv. repeat bsimpl_step. intros He.
    match goal with H : TrimSpace (plan_Digest plan) ≠ "" |- _ => apply H; by rewrite He end.
  - case_match; [intros [= <- <-] Ha; by destruct Ha|]. intros [= <- <-] _. exists o, o.
    split_and!; [by split; [|unfold OperationByID; congruence]|apply rtc_refl|exact Hd|congruence].
Qed.
Lemma finalize_stored id rev t audits reports r r' res : FinalizeOperation Text id rev t audits reports r = (r', res) →
  is_ok res = true → ∃ o o', wrote id r r' o o' ∧ op_applied t o o' ∧ ∀ x, res = Ok x → x = o'.
Proof.
  unfold FinalizeOperation, finalizeOperationLocked.
  destruct (sn_Operations (repo_snapshot r) !! id) as [o|] eqn:Ho; [|by intros [= <- <-]].
  case_match; [by intros [= <- <-]|].
  match goal with |- context [match ?x with Ok _ => _ | Err _ => _ end] => destruct x as [[[o' au] re]|] eqn:Hx end; [|by intros [= <- <-]].
  apply result_bind_ok in Hx as (o1 & Hap & Hx). repeat bsimpl_step. injection Hx as -> _ _.
  intros Hc Ha. exists o, o'. destruct (commit_stored _ _ _ o' _ _ _ _ Hc Ho eq_refl (or_introl Ha)) as [Hw Hres].
  split_and!; [exact Hw|by eapply apply_applied|exact Hres].
Qed.
End writes.

(** ** The control plane *)

(** The repository, and the identifiers [NewResourceID] has produced for records. *)
Record World : Type := mkWorld { w_repo : Repository; w_issued : gset ResourceID }.
Definition written (w : World) (ids : gset ResourceID) (r : Repository) : World :=
  mkWorld r (w_issued w ∪ ids ∪ dom (sn_Operations (repo_snapshot r)) ∪ dom (sn_ApprovalGrants (repo_snapshot r))).
(** The records are consistent, and no identifier is produced twice. *)
Definition sound (w : World) : Prop :=
  store_operations_ok (repo_snapshot (w_repo w)) ∧ dom (sn_Operations (repo_snapshot (w_repo w))) ⊆ w_issued w.
Definition record_at (id : ResourceID) (w : World) : option OperationRecord := OperationByID id (w_repo w).

Section world.
Variable Text : string → string.
(** A step of anyone else. *)
Definition other_step (w w' : World) : Prop := ∃ ids r, operation_step Text (w_issued w) (w_repo w) r ∧ w' = written w ids r.
(** A store call, with the identifiers it was given. *)
Definition store_call {A} (ids : gset ResourceID) (run : Repository → Repository * result store_error A) (w : World) (x : result error A) (w' : World) : Prop :=
  match x with
  | Ok a => ∃ r, run (w_repo w) = (r, Ok a) ∧ w' = written w ids r
  | Err e => if err_Committed e then ∃ r, run (w_repo w) = (r, Err ErrPostCommitDurability) ∧ w' = written w ids r
             else rtc other_step w w'
  end.
#[local] Arguments store_call : simpl never.
Lemma sound_written w ids r : sound w → operation_step Text (w_issued w) (w_repo w) r → sound (written w ids r).
Proof.
  intros [Hok Hd] Hs. split; [by eapply effect_ok, step_effect|]. cbn. set_solver.
Qed.
Lemma sound_step w w' : sound w → other_step w w' → sound w'.
Proof. intros Hw (ids & r & Hr & ->). by apply sound_written. Qed.
Lemma sound_steps w w' : sound w → rtc other_step w w' → sound w'.
Proof. intros Hw Hs. induction Hs; eauto using sound_step. Qed.
Lemma issued_steps w w' : rtc other_step w w' → w_issued w ⊆ w_issued w'.
Proof. induction 1 as [|w1 w2 w3 (ids & r & _ & ->) _ IH]; [done|]. cbn in IH. clear -IH. set_solver. Qed.
Lemma written_step w ids r : operation_step Text (w_issued w) (w_repo w) r → rtc other_step w (written w ids r).
Proof. intros Hs. apply rtc_once. by exists ids, r. Qed.
Lemma store_call_steps {A} ids run (w : World) (x : result error A) w' :
  (∀ r res, run (w_repo w) = (r, res) → operation_step Text (w_issued w) (w_repo w) r) →
  store_call ids run w x w' → rtc other_step w w'.
Proof.
  intros Hrun. unfold store_call. destruct x as [a|e].
  - intros (r & Hr & ->). by eapply written_step, Hrun.
  - destruct (err_Committed e); [|done]. intros (r & Hr & ->). by eapply written_step, Hrun.
Qed.
(** A success, or a failure that says that the store committed. *)
Definition taken {A} (x : result error A) : bool := match x with Ok _ => true | Err e => err_Committed e end.
Lemma store_call_taken {A} ids run (w : World) (x : result error A) w' : store_call ids run w x w' → taken x = true →
  ∃ r res, run (w_repo w) = (r, res) ∧ w' = written w ids r ∧ accepted res ∧ ∀ a, x = Ok a → res = Ok a.
Proof.
  unfold store_call, taken. destruct x as [a|e].
  - intros (r & Hr & ->) _. exists r, (Ok a). split_and!; [done..|by left|]. by intros b [= ->].
  - intros H He. rewrite He in H. destruct H as (r & Hr & ->). exists r, (Err ErrPostCommitDurability). split_and!; [done..|by right|done].
Qed.
Lemma fresh_gone w fresh : sound w → fresh ∉ w_issued w → sn_Operations (repo_snapshot (w_repo w)) !! fresh = None.
Proof. intros [_ Hd] Hf. apply not_elem_of_dom. set_solver. Qed.
(** ** One record *)

(** The record [id] is [o], a later version of it, or is forgotten. *)
Definition follows (id : ResourceID) (o : OperationRecord) (w : World) : Prop :=
  sound w ∧ id ∈ w_issued w ∧ ∀ x, record_at id w = Some x → rtc op_evolves o x.
Lemma follows_step id o w w' : follows id o w → other_step w w' → follows id o w'.
Proof.
  intros (Hw & Hid & Hf) Hs. split; [by eapply sound_step|]. destruct Hs as (ids & r & Hs & ->). split; [cbn; set_solver|].
  intros x Hx. destruct Hw as [Hok Hd]. destruct (record_at id w) as [y|] eqn:Hy.
  - destruct (step_record _ _ _ _ _ _ Hok Hid Hs Hy) as [Hn|(y' & Hy' & He)]; [unfold record_at, OperationByID in Hx; cbn in Hx; congruence|].
    assert (y' = x) as -> by (unfold record_at, OperationByID in Hx; cbn in Hx; congruence). etrans; [by apply Hf|exact He].
  - pose proof (step_gone _ _ _ _ _ Hok Hid Hs Hy) as Hn. unfold record_at, OperationByID in Hx. cbn in Hx. congruence.
Qed.
Lemma follows_steps id o w w' : follows id o w → rtc other_step w w' → follows id o w'.
Proof. intros Hf Hs. induction Hs; eauto using follows_step. Qed.
Lemma follows_read id o w x : follows id o w → record_at id w = Some x → rtc op_evolves o x ∧ rec_ResourceID x = id ∧ follows id x w.
Proof.
  intros (Hw & Hid & Hf) Hx. split_and!; [by apply Hf| |].
  - destruct Hw as [[Hok _] _]. by apply (ok_ids _ _ Hok id).
  - split; [exact Hw|]. split; [exact Hid|]. intros y Hy. assert (y = x) as -> by congruence. apply rtc_refl.
Qed.
Lemma follows_at id o w : sound w → id ∈ w_issued w → record_at id w = Some o → follows id o w.
Proof. intros Hw Hid Ho. split; [exact Hw|]. split; [exact Hid|]. intros y Hy. assert (y = o) as -> by congruence. apply rtc_refl. Qed.
(** After a write of the record. *)
Lemma follows_written id o w ids r o1 o2 : follows id o w → operation_step Text (w_issued w) (w_repo w) r → wrote id (w_repo w) r o1 o2 →
  rtc op_evolves o o1 ∧ rec_ResourceID o1 = id ∧ follows id o2 (written w ids r).
Proof.
  intros Hf Hs [H1 H2]. destruct (follows_read _ _ _ _ Hf H1) as (He & Hr & _). split_and!; [done|done|].
  destruct Hf as (Hw & Hid & _). split; [by apply sound_written|]. split; [cbn; set_solver|].
  intros x Hx. rewrite (H2 x Hx). apply rtc_refl.
Qed.

(** ** Calls *)

Section calls.
Variable SHA256Hex : string → string.
(** What a call may answer, and what the control plane is then. *)
Definition answers (c : workflow_action) : World → workflow_answer c → World → Prop :=
  match c return World → workflow_answer c → World → Prop with
  | StoreCreate record => λ w x w',
      ∃ fresh, fresh ∉ w_issued w ∧
      match x with
      | Created created reused => store_call {[fresh]} (CreateOperation fresh record) w (Ok (created, reused)) w'
      | CreateWarned created e => store_call {[fresh]} (CreateOperation fresh record) w (Err e) w' ∧ (err_Committed e = true → rec_ResourceID created = fresh)
      | CreateFailed e => rtc other_step w w'
      end
  | StorePutPlan id revision plan => λ w x w', ∃ fresh, store_call ∅ (PutOperationPlan fresh id revision plan) w x w'
  | StoreTransition id revision transition => λ w x w', store_call ∅ (TransitionOperation Text id revision transition) w x w'
  | StoreRead id => λ w x w', x = OperationByID id (w_repo w) ∧ w' = w
  | StoreReadKey key => λ w x w', x = OperationByIdempotencyKey key (w_repo w) ∧ w' = w
  | StoreList clusterID => λ w x w', x ≡ₚ OperationsOf clusterID (w_repo w) ∧ w' = w
  | StoreFinalize id revision transition audits reports => λ w x w', ∃ ids ids',
      store_call ∅ (FinalizeOperation Text id revision transition (zip ids audits) (zip ids' reports)) w x w' ∧
      length ids = length audits ∧ length ids' = length reports
  | StoreFinalizeAbandoned id revision observedAt staleBefore transition audits reports => λ w x w', ∃ ids ids',
      store_call ∅ (FinalizeAbandonedOperation Text id revision observedAt staleBefore transition (zip ids audits) (zip ids' reports)) w x w' ∧
      length ids = length audits ∧ length ids' = length reports
  | ConsumeApproval _ record token => λ w x w',
      match x with
      | Ok (grantID, approved) => ∃ loadedAt consumedAt grant hash w1 r,
          loadToken SHA256Hex false loadedAt token (w_repo w) = Ok (grant, hash) ∧ rtc other_step w w1 ∧
          consume_loaded Text grant hash consumedAt record (w_repo w1) = (r, Ok (grantID, approved)) ∧ w' = written w1 ∅ r
      | Err _ => rtc other_step w w'
      end
  | _ => λ w _ w', rtc other_step w w'
  end.

(** A call changes the control plane by steps of the store. *)
Lemma answers_steps c w x w' : sound w → answers c w x w' → rtc other_step w w'.
Proof.
  intros Hw. destruct c; cbn; try done.
  - intros (fresh & Hf & Hx). destruct x as [created reused|created e|e]; [|destruct Hx as [Hx _]|done];
      (eapply store_call_steps; [|exact Hx]); intros r res Hr; eapply step_create; eauto using fresh_gone.
  - intros (fresh & Hx). eapply store_call_steps; [|exact Hx]. intros r res Hr. by eapply step_plan.
  - intros Hx. eapply store_call_steps; [|exact Hx]. intros r res Hr. by eapply step_transition.
  - by intros [_ ->].
  - by intros [_ ->].
  - by intros [_ ->].
  - intros (ids & ids' & Hx & _). eapply store_call_steps; [|exact Hx]. intros r res Hr. by eapply step_finalize.
  - intros (ids & ids' & Hx & _). eapply store_call_steps; [|exact Hx]. intros r res Hr. by eapply step_abandoned.
  - destruct x as [[grantID approved]|e]; [|done]. intros (t0 & t1 & grant & hash & w1 & r & _ & Hs & Hc & ->).
    etrans; [exact Hs|]. apply written_step. unfold consume_loaded in Hc. destruct (grant_for grant record); [|done].
    destruct (ConsumeApprovalGrant Text _ _) as [r1 res] eqn:Hcon. injection Hc as -> _. by eapply step_consume.
Qed.
Lemma sruns_steps {A} (p : workflow A) w t w' a : sound w → sruns other_step answers p w t w' a → rtc other_step w w'.
Proof.
  intros Hw Hr. induction Hr as [a s s' Hs|c k s s1 x s2 t s' a Hs Hx Hr IH]; [done|].
  assert (sound s1) as H1 by by eapply sound_steps. assert (rtc other_step s1 s2) as H12 by by eapply answers_steps.
  etrans; [exact Hs|]. etrans; [exact H12|]. apply IH. by eapply sound_steps.
Qed.
Lemma follows_runs {A} (p : workflow A) id o w t w' a : follows id o w → sruns other_step answers p w t w' a → follows id o w'.
Proof. intros Hf Hr. eapply follows_steps; [exact Hf|]. eapply sruns_steps; [apply Hf|exact Hr]. Qed.
End calls.
End world.
