(* ===== verification/SimulatedWorkflow.v ===== *)
(** * A simulated control plane

    A concrete environment for the workflow's programs: the store of
    [Operations], an adapter that executes as [sw_execution] says, and gates
    that are open.  The witnesses of the theorems on the
    workflow run the programs against it. *)
From S2P Require Import Prelude GoStd Model Endpoint Lease Locks Repository Operations Interfaces Candidates Program MySQLAdapter.
From S2P Require Import SimulatedMySQL Approval ApprovalSafety WorkflowBase Workflow WorkflowSystem.
#[local] Open Scope Z_scope.

Definition sw_time (t : Time) : string := "now".
Definition sw_service : Service := mkService (Some [EngineMySQL]) true true true true true true true true true true.
Definition sw_label : ObservationToken := mkObservationToken w_cluster w_now "observed" zero_TopologySnapshot.
Definition sw_features : list (Capability * CapabilityState) :=
  (λ c, (c, mkCapabilityState true false "")) <$>
    [CapabilityPrecheck; CapabilityPlan; CapabilityExecute; CapabilityVerify; CapabilityMetadataReconcile].
Definition sw_plan : OperationPlan := wo_plan <| plan_ObservationToken := observationLabel sw_time sw_label |>.
Definition sw_verification : Verification :=
  zero_Verification <| ver_Passed := true |> <| ver_Checks := [mkCheck "writable" CheckPass ""] |>.
(** What differs between the simulations. *)
Record Scenario : Type := mkScenario { sw_execution : Execution * option error }.
Definition sw_success : Scenario := mkScenario (zero_Execution <| exec_Status := OperationSucceeded |>, None).
Definition sw_failure : Scenario :=
  mkScenario (zero_Execution <| exec_Status := OperationFailed |>, Some (mkError "promotion failed" (Some "post_commit") false)).

(** ** Store calls *)

Definition sw_store {A} (ids : gset ResourceID) (run : Repository → Repository * result store_error A) (w : World) : World * result error A :=
  match run (w_repo w) with
  | (r, Ok a) => (written w ids r, Ok a)
  | (r, Err ErrPostCommitDurability) => (written w ids r, Err (mkError "durability" None true))
  | (_, Err _) => (w, Err (newError "refused"))
  end.
Lemma sw_store_call Text {A} ids (run : Repository → Repository * result store_error A) w :
  store_call Text ids run w (sw_store ids run w).2 (sw_store ids run w).1.
Proof.
  unfold sw_store, store_call. destruct (run (w_repo w)) as [r [a|[]]] eqn:Hr; cbn; try apply rtc_refl; by exists r.
Qed.
Definition sw_fresh (w : World) : ResourceID := if decide (wo_id ∈ w_issued w) then fresh (w_issued w) else wo_id.
Lemma sw_fresh_new w : sw_fresh w ∉ w_issued w.
Proof. unfold sw_fresh. destruct (decide (wo_id ∈ w_issued w)); [apply is_fresh|done]. Qed.
Definition sw_create (record : OperationRecord) (w : World) : World * create_answer :=
  match CreateOperation (sw_fresh w) record (w_repo w) with
  | (r, Ok (created, reused)) => (written w {[sw_fresh w]} r, Created created reused)
  | (_, Err _) => (w, CreateFailed (newError "refused"))
  end.
Definition sw_consume (record : OperationRecord) (token : string) (w : World) : World * result error (ResourceID * OperationRecord) :=
  match loadToken wo_text false w_now token (w_repo w) with
  | Ok (grant, hash) =>
      match consume_loaded wo_text grant hash w_now record (w_repo w) with
      | (r, Ok a) => (written w ∅ r, Ok a)
      | (_, Err _) => (w, Err (newError "not approved"))
      end
  | Err _ => (w, Err (newError "not approved"))
  end.

(** ** The handler *)

Section handler.
Variable scenario : Scenario.
Definition sw_handle (c : workflow_action) (w : World) : World * workflow_answer c :=
  match c return World * workflow_answer c with
  | ReadClock => (w, w_now)
  | NewResourceID => (w, "")
  | StoreCreate record => sw_create record w
  | StorePutPlan id revision plan => sw_store ∅ (PutOperationPlan wo_plan_id id revision plan) w
  | StoreTransition id revision transition => sw_store ∅ (TransitionOperation wo_text id revision transition) w
  | StoreRead id => (w, OperationByID id (w_repo w))
  | StoreReadKey key => (w, OperationByIdempotencyKey key (w_repo w))
  | StoreList clusterID => (w, OperationsOf clusterID (w_repo w))
  | StoreFinalize id revision transition audits reports =>
      sw_store ∅ (FinalizeOperation wo_text id revision transition (zip ((λ _, wo_grant_id) <$> audits) audits) (zip ((λ _, wo_grant_id) <$> reports) reports)) w
  | StoreFinalizeAbandoned id revision observedAt staleBefore transition audits reports =>
      sw_store ∅ (FinalizeAbandonedOperation wo_text id revision observedAt staleBefore transition (zip ((λ _, wo_grant_id) <$> audits) audits)
                    (zip ((λ _, wo_grant_id) <$> reports) reports)) w
  | RecordAudit _ => (w, Ok tt)
  | RecordReport _ => (w, Ok tt)
  | CaptureObservation _ _ => (w, Ok sw_label)
  | RevalidateObservation _ _ _ => (w, Ok tt)
  | ResolveOperation _ request _ => (w, Ok request)
  | AdapterCapabilities _ _ => (w, sw_features)
  | AdapterPrecheck _ _ _ => (w, Ok [])
  | AdapterBuildPlan _ _ _ => (w, Ok sw_plan)
  | AdapterExecute _ _ _ => (w, sw_execution scenario)
  | AdapterVerify _ _ _ => (w, (sw_verification, None))
  | EvaluateSafety _ _ => (w, Ok tt)
  | AcquireLock _ _ => (w, Ok tt)
  | ReleaseLock => (w, tt)
  | LeaseCause => (w, None)
  | ConsumeApproval _ record token => sw_consume record token w
  | ValidateApproval _ _ _ => (w, Ok tt)
  | MetadataPrecheck _ _ _ => (w, Ok [])
  | ReconcileMetadata _ _ _ => (w, Ok tt)
  | CommitMetadata => (w, None)
  | ClaimOperation _ => (w, true)
  | ReleaseOperation _ => (w, tt)
  | ContextError _ => (w, None)
  | WaitRetry _ _ => (w, true)
  end.
Lemma sw_handle_answers c w : answers wo_text wo_text c w (sw_handle c w).2 (sw_handle c w).1.
Proof.
  destruct c; cbn; try apply rtc_refl; try (by split); try (by apply sw_store_call).
  - exists (sw_fresh w). split; [apply sw_fresh_new|]. unfold sw_create.
    destruct (CreateOperation _ _ _) as [r [[created reused]|e]] eqn:Hc; cbn; [by exists r|apply rtc_refl].
  - exists wo_plan_id. apply sw_store_call.
  - eexists _, _. split; [apply sw_store_call|]. by rewrite !length_fmap.
  - eexists _, _. split; [apply sw_store_call|]. by rewrite !length_fmap.
  - unfold sw_consume. destruct (loadToken _ _ _ _ _) as [[grant hash]|e] eqn:Hl; cbn; [|apply rtc_refl].
    destruct (consume_loaded _ _ _ _ _ _) as [r [[g approved]|e]] eqn:Hc; cbn; [|apply rtc_refl].
    exists w_now, w_now, grant, hash, w, r. split_and!; [exact Hl|apply rtc_refl|exact Hc|done].
Qed.
Definition sw_run {A} (p : workflow A) (w : World) : list (World * event) * World * A := strace sw_handle p w.
Lemma sw_runs {A} (p : workflow A) w :
  sruns (other_step wo_text) (answers wo_text wo_text) p w (sw_run p w).1.1 (sw_run p w).1.2 (sw_run p w).2.
Proof. apply strace_sruns. intros c w'. apply sw_handle_answers. Qed.
End handler.

(** ** A first request *)

Definition sw_start : World := mkWorld wo_r0 ∅.
Lemma sw_start_sound : sound sw_start.
Proof. split; [exact empty_ok|done]. Qed.
Definition sw_request : Request :=
  mkRequest (rec_Operation wo_request) w_owner "" zero_time "failover-1" ∅ sim_credentials sim_credentials None None None.

(** ** An approved request *)

Definition sw_prepared : list (World * event) * World * prepared := sw_run sw_success (prepare sw_time sw_service true sw_request) sw_start.
Definition sw_secret : string := "0123456789abcdef0123456789abcdef".
Definition sw_issued : Repository * result approval_error (ApprovalGrant * string) :=
  Issue wo_text false wo_grant_id (Some sw_secret) w_now (mkIssue sw_prepared.2.1.1.1 "operator" 0) (w_repo sw_prepared.1.2).
Definition sw_token : string := match sw_issued.2 with Ok (_, token) => token | Err _ => "" end.
Definition sw_approved : World := written sw_prepared.1.2 ∅ sw_issued.1.
Lemma sw_prepared_sound : sound sw_prepared.1.2.
Proof. eapply sound_steps; [exact sw_start_sound|]. eapply sruns_steps; [exact sw_start_sound|apply sw_runs]. Qed.
Lemma sw_approved_sound : sound sw_approved.
Proof.
  apply (sound_written wo_text); [exact sw_prepared_sound|]. apply (issue_step wo_text).
  assert (bool_decide (wo_grant_id ∉ w_issued sw_prepared.1.2) = true) as Hf by (vm_compute; reflexivity).
  exact (bool_decide_eq_true_1 _ Hf).
Qed.
