(* ===== verification/WorkflowSafety.v ===== *)
(** * internal/workflow: what the durable record says

    An operation is driven beside the rest of the control plane.  Each phase
    hands on a record that is the stored one, or an earlier version of it; what
    later phases, later readers and the recovery of abandoned operations see is
    never behind it. *)
From S2P Require Import Prelude GoStd Model Endpoint Lease Locks Repository Operations Interfaces Candidates Program MySQLAdapter.
From S2P Require Import Approval WorkflowBase Workflow WorkflowLegacy WorkflowRecovery WorkflowGates WorkflowSystem.
#[local] Open Scope Z_scope.

(** ** Records over time *)

Lemma stage_order stage : durableStageOrder stage = workflowStageOrder stage.
Proof. by destruct stage. Qed.
Lemma later_stage_order record stage : durableStageOrder stage ≤ durableStageOrder (later_stage record stage).
Proof. unfold later_stage. case_match; bsimpl; lia. Qed.
Lemma order_stage stage : 0 < durableStageOrder stage → stage ≠ no_stage.
Proof. by intros H ->. Qed.
(** A planned operation never goes back to an earlier stage. *)
Lemma stage_monotone o o' : rtc op_evolves o o' → plan_Digest (rec_Plan o) ≠ "" →
  durableStageOrder (rec_Stage o) ≤ durableStageOrder (rec_Stage o').
Proof.
  induction 1 as [o|o1 o2 o3 He _ IH]; intros Hp; [done|]. rewrite !stage_order in *.
  destruct (ev_stage _ _ He) as [Hs|[? _]]; [|done]. etrans; [exact Hs|]. apply IH. by rewrite (ev_plan _ _ He).
Qed.
Lemma plan_kept o o' : rtc op_evolves o o' → plan_Digest (rec_Plan o) ≠ "" → rec_Plan o' = rec_Plan o.
Proof. intros He. apply (evolves_facts _ _ He). Qed.
Lemma observation_kept o o' : rtc op_evolves o o' → rec_Observation o ≠ "" → rec_Observation o' = rec_Observation o.
Proof. intros He. apply (evolves_facts _ _ He). Qed.
Lemma intent_kept o o' : rtc op_evolves o o' → op_intent o' = op_intent o.
Proof. intros He. apply (evolves_facts _ _ He). Qed.

Section system.
Variables (Text SHA256Hex : string → string) (FormatTime : Time → string) (service : Service).
Notation steps := (rtc (other_step Text)).
Notation runs := (sruns (other_step Text) (answers Text SHA256Hex)).

Ltac called H :=
  match type of H with sruns _ _ (perform ?c) ?w ?t ?w' ?x =>
    let E := fresh in pose proof (sruns_called _ _ c w t w' x H) as E; clear H; destruct E as (? & ? & -> & ? & H & ?); cbn in H end.

(** ** Reading and writing the record *)

Lemma read_spec id o w t w' r : follows id o w → runs (durableRecord id) w t w' r →
  follows id o w' ∧ ∀ x, r = Ok x → rtc op_evolves o x ∧ rec_ResourceID x = id ∧ follows id x w'.
Proof.
  intros Hf (t1 & t2 & w1 & found & -> & H1 & H2)%sruns_bind. called H1. destruct H1 as [-> ->].
  assert (follows id o x) as Hx by by eapply follows_steps. apply sruns_inv in H2 as (_ & -> & Hs).
  assert (steps x w') as Hxw by by etrans. split; [by eapply follows_steps|]. intros y. case_match; [|done]. intros [= ->].
  destruct (follows_read _ _ _ _ Hx H1) as (? & ? & ?). split_and!; [done|done|by eapply follows_steps].
Qed.
Lemma transition_spec id o revision transition w x w' : follows id o w →
  answers Text SHA256Hex (StoreTransition id revision transition) w x w' → taken x = true →
  ∃ o1 o', rtc op_evolves o o1 ∧ op_applied Text transition o1 o' ∧ rec_ResourceID o1 = id ∧ follows id o' w' ∧ ∀ r, x = Ok r → r = o'.
Proof.
  intros Hf Hx Ht. destruct (store_call_taken _ _ _ _ _ _ Hx Ht) as (r & res & Hr & -> & Ha & Hres).
  destruct (transition_stored _ _ _ _ _ _ _ Hr Ha) as (o1 & o' & Hw & Hap & _ & Ho').
  destruct (follows_written Text id o w ∅ r o1 o' Hf (step_transition _ _ _ _ _ _ _ _ Hr) Hw) as (He & Hid & Hf').
  exists o1, o'. split_and!; [done..|]. intros y Hy. by apply Ho', Hres.
Qed.
(** The record moves on to a version that says what the transition says. *)
Lemma advance_spec id o stage transition w t w' r : 0 < durableStageOrder stage → follows id o w →
  runs (advanceDurable id stage transition) w t w' (Ok r) →
  rtc op_evolves o r ∧ follows id r w' ∧ rec_ResourceID r = id ∧
  (trans_Observation transition ≠ "" → rec_Observation r = trans_Observation transition) ∧
  (plan_Digest (rec_Plan o) ≠ "" → durableStageOrder stage ≤ durableStageOrder (rec_Stage r)).
Proof.
  intros Hst Hf (t1 & t2 & w1 & record & -> & H1 & H2)%sruns_ebind_ok.
  destruct (read_spec _ _ _ _ _ _ Hf H1) as [_ Hread]. destruct (Hread _ eq_refl) as (He1 & Hid1 & Hf1). clear H1 Hread. cbv zeta in H2.
  rewrite Hid1 in H2. set (tr := transition <| trans_Stage := _ |> <| trans_Status := _ |>) in H2.
  apply sruns_bind in H2 as (t3 & t4 & w2 & x & -> & H2 & H3). called H2.
  assert (taken x = true) as Ht.
  { destruct x as [y|e]; [done|]. cbn. destruct (isCommittedWarning e) eqn:Hc; [done|]. by apply sruns_inv in H3 as (_ & [=] & _). }
  destruct (transition_spec _ _ _ _ _ _ _ (follows_steps Text _ _ _ _ Hf1 H) H2 Ht) as (o1 & o' & He2 & Hap & Hid & Hf' & Ho').
  apply (follows_steps Text _ _ _ _ Hf') in H0 as Hf2.
  assert (rec_ResourceID o' = id) as Hid'.
  { pose proof (ev_intent _ _ (app_evolves _ _ _ _ Hap)) as Hi. injection Hi. congruence. }
  assert (rtc op_evolves o' r ∧ follows id r w' ∧ rec_ResourceID r = id) as (He3 & Hf3 & Hid3).
  { destruct x as [y|e].
    - rewrite (Ho' y eq_refl) in H3. apply sruns_inv in H3 as (_ & [= ->] & Hs). split_and!; [apply rtc_refl|by eapply follows_steps|done].
    - unfold isCommittedWarning in H3. cbn in Ht. rewrite Ht in H3. destruct (read_spec _ _ _ _ _ _ Hf2 H3) as [_ Hread].
      destruct (Hread _ eq_refl) as (? & ? & ?). done. }
  assert (rtc op_evolves o o1) as He1' by by etrans.
  split_and!; [|done|done| |].
  - etrans; [exact He1'|]. by eapply rtc_l; [apply Hap|].
  - intros Hn. rewrite (observation_kept _ _ He3); rewrite (app_observation _ _ _ _ Hap Hn); done.
  - intros Hp. etrans; [|apply (stage_monotone _ _ He3); rewrite (app_plan _ _ _ _ Hap), (plan_kept _ _ He1' Hp); exact Hp].
    rewrite (app_stage _ _ _ _ Hap); [apply later_stage_order|]. apply order_stage.
    eapply Z.lt_le_trans; [exact Hst|]. apply later_stage_order.
Qed.

(** ** Phases *)

(** A phase hands on a later version of the record. *)
Definition moves (id : ResourceID) (o r : OperationRecord) (w : World) : Prop :=
  rtc op_evolves o r ∧ follows id r w ∧ rec_ResourceID r = id.
Lemma moves_steps id o r w w' : moves id o r w → steps w w' → moves id o r w'.
Proof. intros (? & ? & ?) Hs. split_and!; [done|by eapply follows_steps|done]. Qed.
Lemma moves_runs {A} (p : workflow A) id o r w t w' a : moves id o r w → runs p w t w' a → moves id o r w'.
Proof. intros (? & ? & ?) Hr. split_and!; [done|by eapply follows_runs|done]. Qed.
Lemma moves_refl id o w : follows id o w → rec_ResourceID o = id → moves id o o w.
Proof. intros. split_and!; [apply rtc_refl|done|done]. Qed.
Lemma moves_trans id o1 o2 o3 w w' : moves id o1 o2 w → moves id o2 o3 w' → moves id o1 o3 w'.
Proof. intros (? & _ & _) (? & ? & ?). split_and!; [by etrans|done|done]. Qed.
Lemma moves_follows id o r w : moves id o r w → follows id r w.
Proof. by intros (_ & ? & _). Qed.

Lemma never {A} G u s (p : workflow A) : all_calls quiet p →
  guarded (other_step Text) (answers Text SHA256Hex) mutates G u s p.
Proof. apply (guarded_never (Sg:=workflow_signature) (other_step Text) (answers Text SHA256Hex) mutates quiet). exact quiet_mutates. Qed.

Section phases.
Variables (id : ResourceID) (operation : Operation) (candidate : Engine) (authorization : executionAuthorization).
Ltac peel H w Hr := apply sruns_ebind_ok in H as (? & ? & w & ? & -> & Hr & H).

Lemma advance_moves o stage transition w t w' r : 0 < durableStageOrder stage → follows id o w →
  runs (advance id stage transition) w t w' (Ok r) →
  moves id o r w' ∧ (trans_Observation transition ≠ "" → rec_Observation r = trans_Observation transition) ∧
  (plan_Digest (rec_Plan o) ≠ "" → durableStageOrder stage ≤ durableStageOrder (rec_Stage r)).
Proof.
  intros Hst Hf Hr. apply sruns_or_else_ok in Hr as (w1 & Hr & Hs); [|intros e; apply failing_giving_up].
  destruct (advance_spec _ _ _ _ _ _ _ _ Hst Hf Hr) as (? & ? & ? & ? & ?). split_and!; [|done|done].
  eapply moves_steps; [|exact Hs]. by split_and!.
Qed.
Lemma observation_label observation : observationLabel FormatTime observation ≠ "".
Proof. unfold observationLabel. destruct (ot_ClusterID observation); done. Qed.
Lemma observe_moves o record w t w' observation r : follows id o w →
  runs (observe_topology FormatTime service id operation record) w t w' (Ok (observation, r)) →
  moves id o r w' ∧ rec_Observation r = observationLabel FormatTime observation.
Proof.
  intros Hf H. unfold observe_topology in H. peel H w1 H1. cbv zeta in H. peel H w2 H2. peel H w3 H3. peel H w4 H4.
  apply sruns_inv in H as (_ & [= -> ->] & Hs).
  assert (follows id o w2) as Hf2 by (eapply follows_runs, H2; by eapply follows_runs).
  destruct (advance_moves _ StageDiscover _ _ _ _ _ eq_refl Hf2 H3) as (Hm & Ho & _).
  split; [eapply moves_steps; [by eapply moves_runs|exact Hs]|]. apply Ho, observation_label.
Qed.
Lemma precheck_moves o request w t w' r : follows id o w →
  runs (precheck_operation service id operation candidate request) w t w' (Ok r) → moves id o r w'.
Proof.
  intros Hf H. unfold precheck_operation in H. peel H w1 H1. peel H w2 H2. peel H w3 H3.
  assert (follows id o w1) as Hf1 by by eapply follows_runs.
  destruct (advance_moves _ StagePrecheck _ _ _ _ _ eq_refl Hf1 H2) as (Hm & _).
  eapply moves_runs in Hm; [|exact H3]. destruct (hasBlockingCheck _).
  - apply sruns_runs in H. by apply failing_ok in H; [|apply failing_finish_message].
  - apply sruns_inv in H as (_ & [= ->] & Hs). by eapply moves_steps.
Qed.
Lemma guard_moves o w t w' r : follows id o w →
  runs (guard_operation service id operation) w t w' (Ok r) → moves id o r w'.
Proof.
  intros Hf H. unfold guard_operation in H. peel H w1 H1. peel H w2 H2. peel H w3 H3. apply sruns_inv in H as (_ & [= ->] & Hs).
  assert (follows id o w1) as Hf1 by by eapply follows_runs.
  destruct (advance_moves _ StageSafetyGuard _ _ _ _ _ eq_refl Hf1 H2) as (Hm & _).
  eapply moves_steps; [by eapply moves_runs|exact Hs].
Qed.
Lemma revalidate_moves o observation request w t w' request' r : follows id o w →
  runs (revalidate_locked FormatTime service id operation observation request) w t w' (Ok (request', r)) → moves id o r w'.
Proof.
  intros Hf H. unfold revalidate_locked in H. peel H w1 H1. peel H w2 H2. peel H w3 H3. peel H w4 H4.
  apply sruns_inv in H as (_ & [= _ ->] & Hs).
  destruct (advance_moves _ StageLock _ _ _ _ _ eq_refl Hf H1) as (Hm & _).
  eapply moves_steps; [|exact Hs]. eapply moves_runs, H4. eapply moves_runs, H3. by eapply moves_runs.
Qed.
(** The plan that is written, or was. *)
Lemma put_plan_moves o plan w t w' r : follows id o w → rec_ResourceID o = id → runs (putDurablePlan o plan) w t w' (r, None) →
  moves id o r w' ∧ plan_Digest (rec_Plan r) ≠ "".
Proof.
  intros Hf Hid H. unfold putDurablePlan in H. destruct (bool_decide_reflect (plan_Digest (rec_Plan o) = "")) as [Hd|Hd]; cbn [negb] in H.
  2: { apply sruns_inv in H as (_ & [= -> _] & Hs). split; [|done]. eapply moves_steps; [by apply moves_refl|exact Hs]. }
  rewrite Hid in H. apply sruns_bind in H as (t1 & t2 & w1 & x & -> & H1 & H2). called H1. destruct H1 as (fresh & H1).
  assert (taken x = true) as Ht.
  { destruct x as [y|e]; [done|]. cbn. destruct (isCommittedWarning e) eqn:Hc; [done|]. by apply sruns_inv in H2 as (_ & [=] & _). }
  destruct (store_call_taken _ _ _ _ _ _ H1 Ht) as (r0 & res & Hr & -> & Ha & Hres).
  destruct (plan_stored _ _ _ _ _ _ _ Hr Ha) as (o1 & o' & Hw & He & Hne & Ho').
  destruct (follows_written Text id o _ ∅ r0 o1 o' (follows_steps Text _ _ _ _ Hf H) (step_plan _ _ _ _ _ _ _ _ _ Hr) Hw) as (He0 & Hid1 & Hf').
  apply (follows_steps Text _ _ _ _ Hf') in H0 as Hf2.
  assert (rec_ResourceID o' = id) as Hid' by (pose proof (intent_kept _ _ He) as Hi; injection Hi; congruence).
  assert (moves id o o' w1) as Hm by (split_and!; [by etrans|done|done]).
  destruct x as [y|e].
  - rewrite (Ho' y (Hres y eq_refl)) in H2. apply sruns_inv in H2 as (_ & [= ->] & Hs). split; [by eapply moves_steps|exact Hne].
  - unfold isCommittedWarning in H2. cbn in Ht. rewrite Ht in H2. apply sruns_bind in H2 as (t3 & t4 & w2 & read & -> & H2 & H3).
    destruct (read_spec _ _ _ _ _ _ Hf2 H2) as [_ Hread]. destruct read as [y|e']; apply sruns_inv in H3 as (_ & [= ->] & Hs).
    destruct (Hread y eq_refl) as (He2 & Hid2 & Hf3). split.
    + eapply moves_steps; [|exact Hs]. split_and!; [|done|done]. destruct Hm as (Hm & _). by etrans.
    + by rewrite (plan_kept _ _ He2).
Qed.
Lemma plan_moves o label request w t w' r : follows id o w → rec_ResourceID o = id →
  runs (plan_operation service id operation candidate label request o) w t w' (Ok r) →
  moves id o r w' ∧ plan_Digest (rec_Plan r) ≠ "".
Proof.
  intros Hf Hid H. unfold plan_operation in H. apply sruns_ebind_ok in H as (t1 & t2 & w1 & [planned message] & -> & H1 & H). peel H w2 H2.
  apply sruns_inv in H as (_ & [= ->] & Hs). cbn [fst].
  enough (moves id o planned w1 ∧ plan_Digest (rec_Plan planned) ≠ "") as [Hm Hne].
  { split; [|exact Hne]. eapply moves_steps; [by eapply moves_runs|exact Hs]. }
  destruct (bool_decide_reflect (plan_Digest (rec_Plan o) = "")) as [Hd|Hd].
  - peel H1 w3 H3. apply sruns_bind in H1 as (t3 & t4 & w4 & [record [e|]] & -> & H4 & H5).
    { apply sruns_runs in H5. by apply failing_ok in H5; [|apply failing_returns]. }
    apply sruns_inv in H5 as (_ & [= -> _] & Hs5). assert (follows id o w3) as Hf3 by by eapply follows_runs.
    destruct (put_plan_moves _ _ _ _ _ _ Hf3 Hid H4) as [Hm Hne]. split; [by eapply moves_steps|exact Hne].
  - destruct (bool_decide_reflect (plan_ObservationToken (rec_Plan o) = label)); cbn [negb] in H1.
    + apply sruns_inv in H1 as (_ & [= -> _] & Hs1). split; [|done]. eapply moves_steps; [by apply moves_refl|exact Hs1].
    + apply sruns_runs in H1. by apply failing_ok in H1; [|apply failing_finish_message].
Qed.
(** Consuming the grant writes the approval. *)
Lemma consume_moves o ctx token grantID r w w' : follows id o w → rec_ResourceID o = id →
  answers Text SHA256Hex (ConsumeApproval ctx o token) w (Ok (grantID, r)) w' → moves id o r w'.
Proof.
  intros Hf Hid (t0 & t1 & grant & hash & w1 & r0 & _ & Hs & Hc & ->). unfold consume_loaded in Hc.
  destruct (grant_for grant o); [|done]. destruct (ConsumeApprovalGrant Text _ _) as [r1 res] eqn:Hcon. injection Hc as -> Hres.
  assert (∃ g, res = Ok (g, r)) as [g ->].
  { destruct res as [[g approved']|e]; [injection Hres as _ ->; by eexists|]. exfalso. clear -Hres. by repeat case_match. }
  clear Hres. pose proof (follows_steps Text _ _ _ _ Hf Hs) as Hf1.
  destruct (consume_spec _ _ _ _ _ _ Hcon) as (g0 & o1 & _ & Ho1 & _ & _ & _ & _ & _ & _ & He & _ & Hsn).
  change (OperationByID (rec_ResourceID o) (w_repo w1) = Some o1) in Ho1. rewrite Hid in Ho1.
  assert (rec_ResourceID r = id) as Hidr.
  { destruct (follows_read _ _ _ _ Hf1 Ho1) as (_ & Hi & _). pose proof (ev_intent _ _ He) as Hi'. injection Hi'. congruence. }
  assert (wrote id (w_repo w1) r0 o1 r) as Hw.
  { split; [exact Ho1|]. intros y Hy. unfold OperationByID in Hy. rewrite Hsn in Hy. apply compacted_operation in Hy. cbn in Hy.
    rewrite Hidr, lookup_insert_eq in Hy. by injection Hy. }
  destruct (follows_written Text id o w1 ∅ r0 o1 r Hf1 (step_consume _ _ _ _ _ _ Hcon) Hw) as (He0 & _ & Hf').
  split_and!; [|exact Hf'|exact Hidr]. etrans; [exact He0|by apply rtc_once].
Qed.
Definition consumed_in (t : list (World * event)) (token : string) (r : OperationRecord) : Prop :=
  ∃ w record grantID, (w, existT (ConsumeApproval LeaseContext record token) (Ok (grantID, r))) ∈ t.
Lemma approve_moves o w t w' r : follows id o w → rec_ResourceID o = id →
  runs (approve_operation service id operation authorization o) w t w' (Ok r) →
  moves id o r w' ∧ (ea_automatic authorization = false → consumed_in t (ea_approvalToken authorization) r).
Proof.
  intros Hf Hid H. unfold approve_operation in H. apply sruns_ebind_ok in H as (t1 & t2 & w1 & [r1 message] & -> & H1 & H).
  peel H w2 H2. apply sruns_inv in H as (_ & [= ->] & Hs). cbn [fst] in *.
  enough (moves id o r1 w1 ∧ (ea_automatic authorization = false → consumed_in t1 (ea_approvalToken authorization) r1)) as [Hm Hc].
  { split; [eapply moves_steps; [by eapply moves_runs|exact Hs]|]. intros Ha. destruct (Hc Ha) as (s & record & g & Hin).
    exists s, record, g. set_solver. }
  destruct (ea_automatic authorization).
  - cbv zeta in H1. peel H1 w3 H3. apply sruns_inv in H1 as (_ & [= -> _] & Hs1).
    destruct (advance_moves _ StageApprove _ _ _ _ _ eq_refl Hf H3) as (Hm & _). split; [by eapply moves_steps|done].
  - apply sruns_ebind_ok in H1 as (t3 & t4 & w3 & [g r2] & -> & H3 & H1). apply sruns_inv in H1 as (-> & [= -> _] & Hs1).
    apply sruns_or_else_ok in H3 as (w4 & H3 & Hs3); [|intros e; apply failing_finish_error].
    pose proof (sruns_called (Sg:=workflow_signature) _ _ (ConsumeApproval LeaseContext o (ea_approvalToken authorization)) _ _ _ _ H3)
      as (w5 & w6 & -> & Hs4 & Hcon & Hs5). clear H3.
    split; [|intros _; exists w5, o, g; set_solver].
    eapply moves_steps; [eapply moves_steps; [eapply moves_steps; [eapply consume_moves; [by eapply follows_steps|done|exact Hcon]|exact Hs5]|exact Hs3]|exact Hs1].
Qed.

(** *** What is durable when the adapter starts *)

(** The adapter is handed the plan of [record], which is the stored record or an earlier version of it. *)
Record started (past : list (World * event)) (s : World) (request : Request) (record : OperationRecord) : Prop := mk_started {
  st_plan : rq_Plan request = Some (rec_Plan record);
  st_progress : rq_Progress request = Some (repositoryProgress id);
  st_planned : plan_Digest (rec_Plan record) ≠ "";
  st_follows : follows id record s;
  st_stage : durableStageOrder StageExecute ≤ durableStageOrder (rec_Stage record);
  st_observed : ∃ w observation, (w, existT (CaptureObservation CallerContext operation) (Ok observation)) ∈ past ∧
    rec_Observation record = observationLabel FormatTime observation;
  st_approved : ea_automatic authorization = false → ∃ approved, consumed_in past (ea_approvalToken authorization) approved ∧
    rec_ResourceID approved = id ∧ rec_Plan approved = rec_Plan record
}.
Definition starts (past : list (World * event)) (s : World) (e : event) : Prop :=
  ∃ request x record, e = existT (AdapterExecute candidate LeaseContext request) x ∧ started past s request record.
Notation guarded := (guarded (other_step Text) (answers Text SHA256Hex) mutates starts).
Lemma guarded_quiet {E A B} u s (p : workflow (result E A)) (f : A → workflow (result E B)) :
  all_calls quiet p → (∀ t s1 a, runs p s t s1 (Ok a) → guarded (u ++ t) s1 (f a)) → guarded u s (ebind p f).
Proof. intros Hp. apply guarded_ebind. by apply never. Qed.
Lemma guarded_first {A B} u s (p : workflow A) (f : A → workflow B) :
  all_calls quiet p → (∀ t s1 a, runs p s t s1 a → guarded (u ++ t) s1 (f a)) → guarded u s (pbind p f).
Proof. intros Hp. apply guarded_bind. by apply never. Qed.
Lemma guarded_returned {A B} u s (p : workflow A) (f : A → workflow B) :
  guarded u s p → (∀ a, all_calls harmless_call (f a)) → guarded u s (pbind p f).
Proof.
  intros Hp Hf. apply guarded_bind; [exact Hp|]. intros t s1 a _.
  eapply (guarded_never (Sg:=workflow_signature) (other_step Text) (answers Text SHA256Hex) mutates harmless_call); [done|apply Hf].
Qed.

(** A record that is planned, from an observation of the past. *)
Record planned (past : list (World * event)) (s : World) (o : OperationRecord) : Prop := mk_planned {
  pl_follows : follows id o s;
  pl_id : rec_ResourceID o = id;
  pl_digest : plan_Digest (rec_Plan o) ≠ "";
  pl_observed : ∃ w observation, (w, existT (CaptureObservation CallerContext operation) (Ok observation)) ∈ past ∧
    rec_Observation o = observationLabel FormatTime observation
}.
Lemma planned_moves past past' s s' o r : planned past s o → moves id o r s' → planned (past ++ past') s' r.
Proof.
  intros [Hf Hid Hd (w & observation & Hin & Ho)] (He & Hf' & Hid'). split; [done|done|by rewrite (plan_kept _ _ He)|].
  exists w, observation. split; [set_solver|]. rewrite (observation_kept _ _ He), Ho; [done|rewrite Ho; apply observation_label].
Qed.
Lemma planned_runs {A} (p : workflow A) past s t s' a o : planned past s o → runs p s t s' a → planned (past ++ t) s' o.
Proof.
  intros Hp Hr. eapply planned_moves; [exact Hp|]. eapply moves_runs; [|exact Hr].
  apply moves_refl; [apply (pl_follows _ _ _ Hp)|apply (pl_id _ _ _ Hp)].
Qed.
Lemma guarded_run_adapter u s request : (∀ s1, steps s s1 → ∃ record, started u s1 request record) →
  guarded u s (run_adapter service id operation candidate request).
Proof.
  intros H. apply guarded_bind.
  - apply (guarded_call (Sg:=workflow_signature)). intros s1 x Hs _. destruct (H s1 Hs) as [record Hr]. by exists request, x, record.
  - intros t s1 [execution err] _. apply never. apply all_calls_bind; [apply quiet_lockLeaseFailure|]. intros lease.
    destruct lease; case_match; auto with calls.
Qed.
Lemma guarded_execute_locked u s observation request o : planned u s o →
  guarded u s (execute_locked FormatTime service id operation candidate authorization observation request).
Proof.
  intros Hp. unfold execute_locked. apply guarded_quiet; [apply quiet_revalidate_locked|]. intros t s1 [request' r1] H1.
  apply (planned_moves _ t _ s1 _ r1) in Hp; [|by eapply revalidate_moves; [apply Hp|exact H1]]. clear H1.
  apply guarded_quiet; [apply quiet_approve_operation|]. intros t2 s2 r2 H2.
  destruct (approve_moves _ _ _ _ _ (pl_follows _ _ _ Hp) (pl_id _ _ _ Hp) H2) as [Hm Hc].
  apply (planned_moves _ t2 _ s2 _ r2) in Hp; [|exact Hm]. clear Hm H2. cbv zeta.
  apply guarded_first; [apply quiet_lockLeaseFailure|]. intros t3 s3 [lease|] H3; [apply never, quiet_finish_error|].
  apply (planned_runs _ _ _ _ _ _ _ Hp) in H3 as Hp3. clear H3.
  apply guarded_quiet; [apply quiet_advance|]. intros t4 s4 r4 H4.
  destruct (advance_moves _ StageExecute _ _ _ _ _ eq_refl (pl_follows _ _ _ Hp3) H4) as (Hm & _ & Hst).
  specialize (Hst (pl_digest _ _ _ Hp3)). pose proof (planned_moves _ t4 _ _ _ _ Hp3 Hm) as Hp4.
  apply guarded_returned; [|done]. apply guarded_run_adapter. intros s5 Hs. exists r4. destruct Hm as (He & _ & _).
  pose proof (plan_kept _ _ He (pl_digest _ _ _ Hp3)) as Hplan. split.
  - cbn. by rewrite Hplan.
  - cbn. by rewrite (pl_id _ _ _ Hp).
  - exact (pl_digest _ _ _ Hp4).
  - exact (follows_steps Text _ _ _ _ (pl_follows _ _ _ Hp4) Hs).
  - exact Hst.
  - exact (pl_observed _ _ _ Hp4).
  - intros Ha. exists r2. destruct (Hc Ha) as (w & record & g & Hin).
    split_and!; [exists w, record, g; set_solver|exact (pl_id _ _ _ Hp)|by rewrite Hplan].
Qed.
Lemma guarded_execute_stages u s request o : moves id o o s →
  guarded u s (execute_stages FormatTime service id operation candidate authorization request o).
Proof.
  intros Hm. unfold execute_stages. apply guarded_first; [wcalls|]. intros t1 s1 features H1. eapply moves_runs in H1; [|exact Hm].
  apply guarded_quiet; [auto with calls|]. intros t2 s2 [] H2. eapply moves_runs in H2; [|exact H1].
  apply guarded_quiet; [case_match; [wcalls|auto with calls]|]. intros t3 s3 [] H3. eapply moves_runs in H3; [|exact H2].
  apply guarded_quiet; [case_match; wcalls|]. intros t4 s4 [] H4. eapply moves_runs in H4; [|exact H3].
  clear s Hm H1 H2 H3. apply guarded_quiet; [auto with calls|]. intros t5 s5 [observation r1] H5.
  assert (∃ w, (w, existT (CaptureObservation CallerContext operation) (Ok observation)) ∈ t5) as [w Hin].
  { apply sruns_runs, gate_captured in H5 as (before & e & after & Ht & -> & _).
    assert (existT (CaptureObservation CallerContext operation) (Ok observation) ∈ t5.*2) as Hin by (rewrite Ht; set_solver).
    apply list_elem_of_fmap in Hin as ([w e] & He & Hin). cbn in He. subst e. by exists w. }
  destruct (observe_moves _ _ _ _ _ _ _ (moves_follows _ _ _ _ H4) H5) as [Hm1 Ho]. clear H4 H5.
  apply guarded_quiet; [auto with calls|]. intros t6 s6 request' H6. eapply moves_runs in Hm1; [|exact H6]. clear H6.
  apply guarded_quiet; [auto with calls|]. intros t7 s7 r2 H7.
  pose proof (precheck_moves _ _ _ _ _ _ (moves_follows _ _ _ _ Hm1) H7) as Hm2. clear H7.
  apply guarded_quiet; [auto with calls|]. intros t8 s8 r3 H8.
  destruct (plan_moves _ _ _ _ _ _ _ (moves_follows _ _ _ _ Hm2) (proj2 (proj2 Hm2)) H8) as [Hm3 Hd]. clear H8.
  assert (planned ((((((((u ++ t1) ++ t2) ++ t3) ++ t4) ++ t5) ++ t6) ++ t7) ++ t8) s8 r3) as Hp.
  { destruct Hm2 as (He2 & _ & _), Hm3 as (He3 & Hf3 & Hid3). split; [done..|]. exists w, observation. split; [set_solver|].
    rewrite (observation_kept r1 r3), Ho; [done|by etrans|rewrite Ho; apply observation_label]. }
  apply guarded_quiet; [auto with calls|]. intros t9 s9 r4 H9.
  pose proof (planned_runs _ _ _ t9 s9 _ _ Hp H9) as Hp1. apply guarded_quiet; [wcalls|]. intros t10 s10 [] H10.
  pose proof (planned_runs _ _ _ t10 s10 _ _ Hp1 H10) as Hp2.
  apply guarded_returned; [by eapply guarded_execute_locked|]. intros x. split; [by intros []|done].
Qed.
End phases.

(** ** Creation *)

Lemma follows_created w w' request record reused : sound w →
  answers Text SHA256Hex (StoreCreate request) w (Created record reused) w' → follows (rec_ResourceID record) record w'.
Proof.
  intros Hw (fresh & Hfresh & r & Hc & ->).
  pose proof (step_create Text _ _ _ fresh _ _ Hfresh (fresh_gone Text _ _ Hw Hfresh) Hc) as Hs.
  pose proof (sound_written Text w {[fresh]} r Hw Hs) as Hw'. destruct reused.
  - assert (r = w_repo w ∧ ∃ id, record_at id w = Some record) as [-> [id Hid]].
    { unfold CreateOperation in Hc. destruct (validateOperationRequest _); [|done].
      destruct (sn_OperationKeys _ !! _) as [known|]; [|case_bool_decide; [done|unfold Operations.answer in Hc; by destruct (commit _ _) as [? []]]].
      destruct (sn_Operations _ !! known) eqn:Hk; [|done]. destruct (negb _); [done|]. injection Hc as <- <-. eauto. }
    destruct Hw as [[Hok _] Hd]. destruct (ok_ids _ _ Hok id record Hid) as [-> _]. apply follows_at; [exact Hw'| |exact Hid].
    cbn. do 3 apply elem_of_union_l. apply Hd, elem_of_dom. by exists record.
  - destruct (create_spec _ _ _ _ _ Hc) as [Hrec Hr]. assert (rec_ResourceID record = fresh) as -> by by rewrite Hrec.
    split; [exact Hw'|]. split; [cbn; clear; set_solver|]. intros x Hx'. rewrite (Hr x Hx'). apply rtc_refl.
Qed.
Lemma created_moves request w t w' record reused : sound w → runs (create_record request) w t w' (Ok (record, reused)) →
  moves (rec_ResourceID record) record record w'.
Proof.
  intros Hw (t1 & t2 & w1 & created & -> & H1 & H2)%sruns_bind. unfold create_record in H1.
  pose proof (sruns_called (Sg:=workflow_signature) _ _ _ _ _ _ _ H1) as (w2 & w3 & -> & Hs2 & Hc & Hs3). clear H1.
  pose proof (sound_steps Text _ _ Hw Hs2) as Hw2. destruct created as [record' reused'|record' e|e]; [| |by apply sruns_inv in H2 as (_ & [=] & _)].
  - apply sruns_inv in H2 as (_ & [= <- <-] & Hs). apply moves_refl; [|done].
    eapply follows_steps; [by eapply follows_created|]. by etrans.
  - destruct (isCommittedWarning e) eqn:He; cbn [negb] in H2; [|by apply sruns_inv in H2 as (_ & [=] & _)].
    apply sruns_bind in H2 as (t3 & t4 & w4 & read & -> & H2 & H3). pose proof (sruns_called (Sg:=workflow_signature) _ _ _ _ _ _ _ H2) as (w5 & w6 & -> & Hs4 & Hread & Hs5).
    clear H2. destruct Hread as [Hread ->]. cbn in read.
    destruct read as [persisted|]; apply sruns_inv in H3 as (_ & [= -> ->] & Hs).
    assert (sound w3) as Hw3 by (eapply sound_steps; [exact Hw2|by eapply answers_steps]).
    assert (steps w3 w5) as Hs30 by by etrans.
    destruct Hc as (fresh & Hfresh & Hx & Hid). rewrite (Hid He) in Hread. unfold isCommittedWarning in He. unfold store_call in Hx. rewrite He in Hx.
    destruct Hx as (r & Hr & ->). pose proof (sound_steps Text _ _ Hw3 Hs30) as Hw0.
    assert (rec_ResourceID persisted = fresh) as -> by (destruct Hw0 as [[Hok _] _]; by apply (ok_ids _ _ Hok fresh)).
    assert (fresh ∈ w_issued w5) as Hi by (apply (issued_steps Text _ _ Hs30); cbn; clear; set_solver).
    apply moves_refl; [|destruct Hw0 as [[Hok _] _]; by apply (ok_ids _ _ Hok fresh)].
    eapply follows_steps; [by apply follows_at|]. by etrans.
Qed.

(** ** An execution from its creation *)

Definition starts_some (authorization : executionAuthorization) (past : list (World * event)) (s : World) (e : event) : Prop :=
  ∃ id operation candidate, opn_ResourceID operation = id ∧ starts id operation candidate authorization past s e.
Lemma guarded_executeDurable request authorization w : sound w →
  guarded (other_step Text) (answers Text SHA256Hex) mutates (starts_some authorization) [] w
    (executeDurable FormatTime service request authorization).
Proof.
  intros Hw. unfold executeDurable. destruct (sv_registry service) as [registry|]; [|apply guarded_ret].
  apply guarded_bind; [|intros t s1 a _; apply guarded_ret]. apply guarded_ebind.
  { apply never, quiet_create_record. }
  intros t1 s1 [record reused] H1. apply (created_moves _ _ _ _ _ _ Hw) in H1. cbv zeta. case_match; [apply guarded_ret|].
  apply guarded_bind; [apply never; wcalls|].
  intros t2 s2 claim H2. apply (moves_runs _ _ _ _ _ _ _ _ H1) in H2. destruct claim; cbn [negb].
  2: { apply never. wcalls. }
  apply guarded_bind.
  - apply (guarded_mono _ _ _ (λ u s e, ∃ candidate, starts (rec_ResourceID record) (record_operation record) candidate authorization u s e)).
    { intros u s e [candidate Hs]. by exists (rec_ResourceID record), (record_operation record), candidate. }
    unfold execute_claimed. cbv zeta. destruct (resolveAdapter _ _) as [candidate|].
    2: { apply never. unfold join_outcome, finish_new. wcalls. }
    apply guarded_bind; [|intros t s3 a _; apply guarded_ret].
    eapply guarded_mono; [|by apply guarded_execute_stages]. intros u s e Hs. by exists candidate.
  - intros t s3 a _. eapply (guarded_never (Sg:=workflow_signature) _ _ mutates harmless_call); [done|].
    apply all_calls_bind; [eapply all_calls_mono; [|apply quiet_finalizeRunning]; apply quiet_mutates|]. intros _. split; [by intros []|done].
Qed.
(** A started execution is never taken for one that changed nothing. *)
Lemma started_outcome id operation authorization past s request record later op : started id operation authorization past s request record →
  steps s later → record_at id later = Some op →
  rec_Plan op = rec_Plan record ∧ rec_Observation op = rec_Observation record ∧
  ∃ status failureClass message, abandonedOperationOutcome op = Some (status, failureClass, message, true) ∧
    (status = OperationSucceeded → op_verified op).
Proof.
  intros Hst Hs Hop. destruct (follows_steps Text _ _ _ _ (st_follows _ _ _ _ _ _ _ Hst) Hs) as (_ & _ & Hf). pose proof (Hf op Hop) as He.
  pose proof (st_planned _ _ _ _ _ _ _ Hst) as Hp. destruct (st_observed _ _ _ _ _ _ _ Hst) as (w0 & observation & _ & Ho).
  split; [by apply plan_kept|]. split; [apply observation_kept; [exact He|rewrite Ho; apply observation_label]|].
  pose proof (stage_monotone _ _ He Hp) as Hstage. pose proof (st_stage _ _ _ _ _ _ _ Hst) as Hrec. unfold abandonedOperationOutcome.
  destruct (durableStageOrder (rec_Stage op) =? 0) eqn:H0; [exfalso; apply Z.eqb_eq in H0; change (durableStageOrder StageExecute) with 7 in Hrec; lia|].
  destruct (durableStageOrder (rec_Stage op) <? durableStageOrder StageExecute) eqn:H1; [exfalso; apply Z.ltb_lt in H1; lia|].
  destruct (verified_record op) eqn:Hv; [|case_match; eexists _, _, _; by split].
  eexists _, _, _. split; [done|]. intros _. unfold verified_record in Hv. by repeat bsimpl_step.
Qed.
End system.
