(* ===== verification/WorkflowEntry.v ===== *)
(** * internal/workflow: the guarantees of the entry points

    What an operator's execution, an automatic failover and a metadata
    reconciliation establish before they mutate anything, whatever the store,
    the adapter and the other services answer. *)
From S2P Require Import Prelude GoStd Model Endpoint Lease Locks Repository Operations Interfaces Candidates Program MySQLAdapter.
From S2P Require Import SimulatedMySQL Disaster Approval ApprovalSafety WorkflowBase Workflow WorkflowLegacy WorkflowRecovery WorkflowGates.
From S2P Require Import WorkflowSystem SimulatedWorkflow WorkflowSafety.
#[local] Open Scope Z_scope.

(** The gates of an execution that starts afresh. *)
Definition claim_gate (service : Service) (operation : Operation) : list (event → Prop) :=
  if sv_operations service then [claimed (opn_ResourceID operation)] else [].
Lemma gates_execute FormatTime service request authorization :
  only_after mutates (ready_some (λ x, claim_gate service x.1 ++ stage_gates x.1 authorization x.2))
    (WorkflowRecovery.execute FormatTime service request authorization).
Proof.
  unfold WorkflowRecovery.execute, claim_gate. destruct (sv_operations service), (sv_resolver service); cbn [orb andb];
    first [apply gates_executeDurable|apply gates_executeLegacy|apply only_after_ret].
Qed.

(** C4: Beside any other executors, operators and recoveries of the same
    store, an adapter is executed under the operation lock with the immutable
    plan that the durable record holds; the plan is the one whose approval was
    consumed, unless the recovery is automatic, and it is bound to the
    observation captured by this execution.  From then on the record keeps
    that plan and that observation for as long as it exists, and recovering
    it as abandoned always treats the operation as one that may have changed
    a database; it is closed as a success only with its own successful
    verification. *)
Theorem execution_recorded Text SHA256Hex FormatTime service request authorization w t w' o pre s candidate ctx req x post :
  sound w →
  sruns (other_step Text) (answers Text SHA256Hex) (executeDurable FormatTime service request authorization) w t w' o →
  t = pre ++ (s, existT (AdapterExecute candidate ctx req) x) :: post →
  ∃ id plan observation,
    ctx = LeaseContext ∧ rq_Plan req = Some plan ∧ plan_Digest plan ≠ "" ∧ rq_Progress req = Some (repositoryProgress id) ∧
    (∃ w0 operation, opn_ResourceID operation = id ∧
      (w0, existT (CaptureObservation CallerContext operation) (Ok observation)) ∈ pre) ∧
    (ea_automatic authorization = false → ∃ approved,
      consumed_in pre (ea_approvalToken authorization) approved ∧ rec_ResourceID approved = id ∧ rec_Plan approved = plan) ∧
    ∀ later op, rtc (other_step Text) s later → record_at id later = Some op →
      rec_Plan op = plan ∧ rec_Observation op = observationLabel FormatTime observation ∧
      ∃ status failureClass message, abandonedOperationOutcome op = Some (status, failureClass, message, true) ∧
        (status = OperationSucceeded → op_verified op).
Proof.
  intros Hw Hr Ht.
  destruct (guarded_executeDurable _ _ _ service request authorization w Hw _ _ _ _ _ _ _ Hr Ht I)
    as (id & operation & candidate' & Hid & request' & x' & record & He & Hst).
  assert (ctx = LeaseContext ∧ req = request') as [-> ->] by (by simplify_eq).
  destruct (st_observed _ _ _ _ _ _ _ _ Hst) as (w0 & observation & Hin & Ho).
  exists id, (rec_Plan record), observation. split_and!; [done|apply Hst|apply Hst|apply Hst|by exists w0, operation|apply Hst|].
  intros later op Hl Hop. destruct (started_outcome _ _ _ _ _ _ _ _ _ _ _ Hst Hl Hop) as (? & Hobs & ?). by rewrite Hobs, Ho.
Qed.

(** C2: An adapter executes an operator's request, and mutates its databases,
    only after every gate, in this order and before any other mutation of the
    same run: the operation is claimed by this executor (when records are
    durable), its topology is observed, the adapter's precheck has no blocking
    check, the safety guard passes, the operation lock is acquired, the
    observation is revalidated under the lock, the approval token is consumed,
    and the lease of the lock is not lost.  No lock is released before, and
    the adapter executes at most once. *)
Theorem adapter_gated FormatTime service request token t o pre e post :
  runs (WorkflowRecovery.Execute FormatTime service request token) t o → t = pre ++ e :: post → mutates (projT1 e) →
  ∃ operation observation, undisturbed pre ∧
    in_order ((if sv_operations service then [claimed (opn_ResourceID operation)] else []) ++
      [captured operation observation; prechecked; safe operation; locked operation; revalidated operation observation;
       approved token; lease_held]) pre.
Proof.
  intros Hr Ht He. destruct (gates_execute _ _ _ _ _ _ _ _ _ Hr Ht He) as [[operation observation] [Hu Hg]].
  by exists operation, observation.
Qed.

Definition fresh_or_continued (service : Service) (request request' : Request) (pre : list event) : Prop :=
  (∃ operation observation, in_order ((if sv_operations service then [claimed (opn_ResourceID operation)] else []) ++
    [captured operation observation; prechecked; safe operation; locked operation; revalidated operation observation; lease_held]) pre) ∨
  (∃ record observation, (existT (StoreReadKey (rq_IdempotencyKey request)) (Some record) : event) ∈ pre ∧
    automaticResumeEligible record request' = true ∧
    in_order [claimed (rec_ResourceID record); captured (rec_Operation record) observation; safe (rec_Operation record);
      locked (rec_Operation record); revalidated (rec_Operation record) observation; source_failed; lease_held] pre).
(** What an automatic recovery does once it has looked its key up. *)
Definition continue_or_start FormatTime service request incidentID (found : option OperationRecord) : workflow outcome :=
  match found with
  | Some record =>
      if automaticResumeEligible record request then resumeIndeterminateAutomatic service record request incidentID
      else WorkflowRecovery.execute FormatTime service request (mkAuthorization "" true incidentID)
  | None => WorkflowRecovery.execute FormatTime service request (mkAuthorization "" true incidentID)
  end.
Lemma gates_fresh FormatTime service request request' incidentID u : undisturbed u →
  only_after mutates (λ pre, undisturbed (u ++ pre) ∧ fresh_or_continued service request request' (u ++ pre))
    (WorkflowRecovery.execute FormatTime service request' (mkAuthorization "" true incidentID)).
Proof.
  intros Hu. eapply only_after_mono; [|apply gates_execute]. intros t [[operation observation] [Ht Hg]].
  split; [by apply undisturbed_app|]. left. exists operation, observation. by apply in_order_after.
Qed.
Lemma gates_found FormatTime service request request' incidentID u found :
  rq_IdempotencyKey request' = rq_IdempotencyKey request →
  runs (if sv_operations service then perform (StoreReadKey (rq_IdempotencyKey request')) else Ret None : workflow (option OperationRecord)) u found →
  only_after mutates (λ pre, undisturbed (u ++ pre) ∧ fresh_or_continued service request request' (u ++ pre))
    (continue_or_start FormatTime service request' incidentID found).
Proof.
  intros Hk Hf. assert (undisturbed u) as Hu by (eapply quiet_runs, Hf; case_match; wcalls).
  destruct found as [record|]; [|by apply gates_fresh]. cbn. destruct (automaticResumeEligible record request') eqn:He; [|by apply gates_fresh].
  eapply only_after_mono; [|apply gates_resume]. intros t [observation [Ht Hg]]. split; [by apply undisturbed_app|]. right.
  exists record, observation. split_and!; [|done|by apply in_order_after]. apply elem_of_app. left. rewrite <- Hk.
  destruct (sv_operations service); [|by apply runs_inv in Hf as [_ ?]]. called Hf. by left.
Qed.

(** C9: An automatic recovery mutates only as a failover of a named incident,
    and without an approval: either it starts afresh and passed the gates of
    an execution in order (claim, observation, precheck, safety guard, lock,
    revalidation, lease), or it continues the indeterminate failover recorded
    under the same idempotency key, and then it passed the claim, the
    observation, the safety guard and the lock, and revalidated the observation
    and saw the former source down under the lock, with the lease not lost. *)
Theorem automatic_gated FormatTime service request incidentID t o pre e post :
  runs (WorkflowRecovery.ExecuteAutomatic FormatTime service request incidentID) t o → t = pre ++ e :: post → mutates (projT1 e) →
  opn_Kind (rq_Operation request) = OperationFailover ∧ TrimSpace incidentID ≠ "" ∧ undisturbed pre ∧
  ((∃ operation observation, in_order ((if sv_operations service then [claimed (opn_ResourceID operation)] else []) ++
      [captured operation observation; prechecked; safe operation; locked operation; revalidated operation observation; lease_held]) pre) ∨
   (∃ record observation, (existT (StoreReadKey (rq_IdempotencyKey request)) (Some record) : event) ∈ pre ∧
      automaticResumeEligible record
        (request <| rq_Operation ::= λ o, o <| opn_RequestedBy := AutomaticRecoveryActor |> |>) = true ∧
      in_order [claimed (rec_ResourceID record); captured (rec_Operation record) observation; safe (rec_Operation record);
        locked (rec_Operation record); revalidated (rec_Operation record) observation; source_failed; lease_held] pre)).
Proof.
  unfold WorkflowRecovery.ExecuteAutomatic. set (request' := request <| rq_Operation ::= _ |>). intros Hr Ht He.
  case_match eqn:Hk; [apply runs_inv in Hr as [-> _]; by destruct pre|]. case_match eqn:Hi; [apply runs_inv in Hr as [-> _]; by destruct pre|].
  repeat bsimpl_step. split; [done|]. split; [done|].
  assert (only_after mutates (λ pre, undisturbed pre ∧ fresh_or_continued service request request' pre)
    (found ←? (if sv_operations service then perform (StoreReadKey (rq_IdempotencyKey request')) else Ret None);
     continue_or_start FormatTime service request' (TrimSpace incidentID) found)) as Hg.
  { apply only_after_bind; [apply never_mutates; case_match; wcalls|]. intros u found Hf. by eapply gates_found. }
  exact (Hg _ _ _ _ _ Hr Ht He).
Qed.

(** C17: A metadata reconciliation changes the record of an instance only after
    every gate: its metadata precheck has no blocking check, the safety guard
    passes, the operation lock is acquired, the approval token is validated
    under the lock (unless an authenticated platform user asked for it), and
    the lease of the lock is not lost; the commit runs at most once, before the
    lock is released. *)
Theorem metadata_gated service operation request metadata commit t o pre e post :
  runs (executeMetadata service operation request metadata commit) t o → t = pre ++ e :: post → mutates (projT1 e) →
  commit = true ∧ ∃ operation', undisturbed pre ∧
    in_order ([metadata_prechecked; safe operation'; locked operation'] ++
      (if platformAuthorized metadata then [] else [validated operation' (ma_approvalToken metadata)]) ++ [lease_held]) pre.
Proof.
  intros Hr Ht He. split.
  - destruct commit; [done|]. unfold executeMetadata in Hr. destruct (sv_registry service); apply runs_inv in Hr as [-> _]; by destruct pre.
  - by destruct (gates_executeMetadata _ _ _ _ _ _ _ _ _ _ Hr Ht He) as [operation' H]; exists operation'.
Qed.

(** ** Simulated runs *)

Fixpoint split_at {A} (f : A → bool) (l : list A) : option (list A * A * list A) :=
  match l with
  | [] => None
  | a :: l => if f a then Some ([], a, l) else '(pre, b, post) ← split_at f l; Some (a :: pre, b, post)
  end.
Lemma split_at_app {A} (f : A → bool) l pre a post : split_at f l = Some (pre, a, post) → l = pre ++ a :: post ∧ f a = true.
Proof.
  revert pre. induction l as [|b l IH]; intros pre; [done|]. cbn. destruct (f b) eqn:Hb; [by intros [= <- <- <-]|].
  destruct (split_at f l) as [[[pre' c] post']|]; [|done]. intros [= <- <- <-]. by destruct (IH _ eq_refl) as [-> ?].
Qed.
Definition mutating (e : event) : bool := match projT1 e with AdapterExecute _ _ _ | CommitMetadata => true | _ => false end.
Lemma mutating_mutates e : mutating e = true → mutates (projT1 e).
Proof. destruct e as [[] x]; try done; by cbn. Qed.
Definition executing (e : World * event) : bool := match projT1 e.2 with AdapterExecute _ _ _ => true | _ => false end.
(** The run of a program, cut at its first mutation. *)
Definition sw_cut {A} (p : workflow A) (w : World) : option (list event * event * list event) :=
  split_at mutating (sw_run sw_success p w).1.1.*2.
Lemma sw_cut_runs {A} (p : workflow A) w pre e post : sw_cut p w = Some (pre, e, post) →
  runs p (pre ++ e :: post) (sw_run sw_success p w).2 ∧ mutates (projT1 e).
Proof.
  intros [Ht He]%split_at_app. split; [|by apply mutating_mutates]. rewrite <- Ht. eapply sruns_runs, sw_runs.
Qed.
Lemma is_cut {A} (x : option A) : (if x then true else false) = true → ∃ a, x = Some a.
Proof. destruct x; [by eexists|done]. Qed.
Lemma adapter_gated_witness : ∃ pre e post, sw_cut (WorkflowRecovery.Execute sw_time sw_service sw_request sw_token) sw_approved = Some (pre, e, post) ∧
  ∃ operation observation, undisturbed pre ∧
    in_order [claimed (opn_ResourceID operation); captured operation observation; prechecked; safe operation; locked operation;
      revalidated operation observation; approved sw_token; lease_held] pre.
Proof.
  destruct (is_cut (sw_cut (WorkflowRecovery.Execute sw_time sw_service sw_request sw_token) sw_approved)) as [[[pre e] post] Hcut];
    [vm_compute; reflexivity|].
  exists pre, e, post. split; [exact Hcut|]. destruct (sw_cut_runs _ _ _ _ _ Hcut) as [Hr He].
  exact (adapter_gated _ _ _ _ _ _ _ _ _ Hr eq_refl He).
Defined.
Lemma automatic_gated_witness : ∃ pre e post, sw_cut (WorkflowRecovery.ExecuteAutomatic sw_time sw_service sw_request " incident ") sw_start = Some (pre, e, post) ∧
  undisturbed pre ∧ fresh_or_continued sw_service sw_request
    (sw_request <| rq_Operation ::= λ o, o <| opn_RequestedBy := AutomaticRecoveryActor |> |>) pre.
Proof.
  destruct (is_cut (sw_cut (WorkflowRecovery.ExecuteAutomatic sw_time sw_service sw_request " incident ") sw_start)) as [[[pre e] post] Hcut];
    [vm_compute; reflexivity|].
  exists pre, e, post. split; [exact Hcut|]. destruct (sw_cut_runs _ _ _ _ _ Hcut) as [Hr He].
  exact (proj2 (proj2 (automatic_gated _ _ _ _ _ _ _ _ _ Hr eq_refl He))).
Defined.
Definition sw_metadata : MetadataRequest := mkMetadataRequest w_cluster (zero_DatabaseInstance <| inst_Engine := EngineMySQL |>).
Lemma metadata_gated_witness : ∃ pre e post,
  sw_cut (ExecuteMetadata sw_service (rec_Operation wo_request) sw_metadata "token" true) sw_start = Some (pre, e, post) ∧
  ∃ operation, undisturbed pre ∧ in_order [metadata_prechecked; safe operation; locked operation; validated operation "token"; lease_held] pre.
Proof.
  destruct (is_cut (sw_cut (ExecuteMetadata sw_service (rec_Operation wo_request) sw_metadata "token" true) sw_start)) as [[[pre e] post] Hcut];
    [vm_compute; reflexivity|].
  exists pre, e, post. split; [exact Hcut|]. destruct (sw_cut_runs _ _ _ _ _ Hcut) as [Hr He].
  exact (proj2 (metadata_gated _ _ _ _ _ _ _ _ _ _ Hr eq_refl He)).
Defined.
(** An approved execution, later found running. *)
Definition sw_durable : list (World * event) * World * outcome :=
  sw_run sw_success (executeDurable sw_time sw_service sw_request (mkAuthorization sw_token false "")) sw_approved.
Lemma sw_durable_runs : sruns (other_step wo_text) (answers wo_text wo_text)
  (executeDurable sw_time sw_service sw_request (mkAuthorization sw_token false "")) sw_approved sw_durable.1.1 sw_durable.1.2 sw_durable.2.
Proof. exact (sw_runs sw_success (executeDurable sw_time sw_service sw_request (mkAuthorization sw_token false "")) sw_approved). Qed.
Lemma executing_call e : executing e = true → ∃ candidate ctx request x, e.2 = existT (AdapterExecute candidate ctx request) x.
Proof. destruct e as [s [[] x]]; try done. intros _. by eexists _, _, _, x. Qed.
Lemma execution_recorded_witness : ∃ pre s candidate ctx request x post op,
  sw_durable.1.1 = pre ++ (s, existT (AdapterExecute candidate ctx request) x) :: post ∧
  record_at wo_id sw_durable.1.2 = Some op ∧ rec_Status op = OperationSucceeded ∧
  ∃ id plan observation, rq_Plan request = Some plan ∧ rq_Progress request = Some (repositoryProgress id) ∧
    ∀ later op, rtc (other_step wo_text) s later → record_at id later = Some op →
      rec_Plan op = plan ∧ rec_Observation op = observationLabel sw_time observation.
Proof.
  destruct (is_cut (split_at executing sw_durable.1.1)) as [[[pre [s e]] post] Hcut]; [vm_compute; reflexivity|].
  apply split_at_app in Hcut as [Ht He]. apply executing_call in He as (candidate & ctx & request & x & He). cbn in He. subst e.
  assert (option_map rec_Status (record_at wo_id sw_durable.1.2) = Some OperationSucceeded) as Hs by (vm_compute; reflexivity).
  destruct (record_at wo_id sw_durable.1.2) as [op|] eqn:Hop; [|discriminate Hs]. injection Hs as Hs.
  exists pre, s, candidate, ctx, request, x, post, op. split; [exact Ht|]. split; [reflexivity|]. split; [exact Hs|].
  destruct (execution_recorded wo_text wo_text sw_time sw_service sw_request (mkAuthorization sw_token false "") sw_approved
    sw_durable.1.1 sw_durable.1.2 sw_durable.2 pre s candidate ctx request x post sw_approved_sound sw_durable_runs Ht) as (id & plan & observation & _ & Hp & _ & Hg & _ & _ & Hl).
  exists id, plan, observation. split; [exact Hp|]. split; [exact Hg|]. intros later o H1 H2. destruct (Hl later o H1 H2) as (? & ? & _). by split.
Defined.
