(* ===== verification/AutomaticRecovery.v ===== *)
(** * internal/recovery: the controller that starts failovers

    [controller.go]: in every round the controller looks at each cluster of
    its engine, decides from the stored topology, the operations so far and the
    failure windows whether the primary has failed for good, selects a target
    and hands a failover to the workflow under an idempotency key that names
    the cluster, the failed primary, the incident and the attempt.

    What it reads (the state, the failure evidence, the selector, the
    authority, the clock) and the executor it calls are the actions of
    [recovery_signature].  The rounds run concurrently: the set of clusters in
    flight and the gate that bounds the recoveries are the state of [Pool]. *)
From S2P Require Import Prelude GoStd Model Endpoint Lease Locks Repository Operations Interfaces Candidates Program MySQLAdapter MySQLText.
From S2P Require Import WorkflowBase.
From stdpp Require Import pretty.
#[local] Open Scope Z_scope.

Definition maximumParallelRecoveries : nat := 4.
Definition maximumTopologyAge : Duration := 15 * Second.
Definition defaultAutomaticFailoverOperationTimeout : Duration := 5 * Minute.

(** ** The failed primary *)

Definition failed_health (health : Health) : bool :=
  (health_State health == HealthUnhealthy) || (health_State health == HealthUnknown).
Definition snapshotContains (snapshot : TopologySnapshot) (instanceID : ResourceID) : bool :=
  existsb (λ instance, inst_ResourceID instance == instanceID) (topo_Instances snapshot).
(** The first probe that reports the database unavailable decides. *)
Definition hasCurrentDatabaseFailure (snapshot : TopologySnapshot) (instanceID : ResourceID) : bool :=
  match list_find (λ probe, probe_InstanceID probe = instanceID ∧ probe_Outcome probe = ProbeOutcomeDatabaseUnavailable) (topo_Probes snapshot) with
  | Some (_, probe) =>
      negb (IsZero (health_ObservedAt (probe_Health probe))) && Equal (health_ObservedAt (probe_Health probe)) (topo_ObservedAt snapshot)
  | None => false
  end.
(** The loops of [failedPrimary]; an error is its early return. *)
Definition primary_step (primaryID : ResourceID) (instance : DatabaseInstance) : result unit ResourceID :=
  if inst_Role instance != RolePrimary then Ok primaryID
  else
    _ ← reject ((primaryID != "") || negb (failed_health (inst_Health instance))) tt;
    Ok (inst_ResourceID instance).
Definition owner_step (snapshot : TopologySnapshot) (primaryID : ResourceID) (endpoint : HAEndpoint) : result unit ResourceID :=
  if (ha_ClusterID endpoint != topo_ClusterID snapshot) || (ha_DesiredRole endpoint != RolePrimary) ||
     negb (ValidResourceID (ha_OwnerID endpoint)) then Ok primaryID
  else
    _ ← reject ((primaryID != "") && (primaryID != ha_OwnerID endpoint)) tt;
    Ok (ha_OwnerID endpoint).
Definition failedPrimary (snapshot : TopologySnapshot) (haEndpoints : list HAEndpoint) : ResourceID * bool :=
  match for_each primary_step "" (topo_Instances snapshot) with
  | Err _ => ("", false)
  | Ok primaryID =>
      if ValidResourceID primaryID then (primaryID, true)
      else match for_each (owner_step snapshot) primaryID haEndpoints with
      | Err _ => ("", false)
      | Ok primaryID =>
          if negb (ValidResourceID primaryID) then ("", false)
          else match list_find (λ instance, inst_ResourceID instance = primaryID) (topo_Instances snapshot) with
          | None => ("", false)
          | Some (_, instance) =>
              if negb (failed_health (inst_Health instance)) then ("", false)
              else (primaryID, hasCurrentDatabaseFailure snapshot primaryID)
          end
      end
  end.

(** ** Idempotency keys *)

(** [Time.UnixNano]. *)
Definition unix_epoch : Time := 62135596800 * Second.
Definition UnixNano (t : Time) : Z := i64 (t - unix_epoch).
Definition TrimSuffix (s suffix : string) : string := String.rev (TrimPrefix (String.rev s) (String.rev suffix)).
Definition automaticFailoverSourcePrefix (clusterID sourceID : ResourceID) : string :=
  "automatic-failover:" +:+ clusterID +:+ ":" +:+ sourceID +:+ ":".
Definition automaticFailoverPrefix (clusterID sourceID : ResourceID) (incident : Time) : string :=
  automaticFailoverSourcePrefix clusterID sourceID +:+ pretty (UnixNano incident) +:+ ":".

(** ** The next attempt *)

Definition latestPrimaryAssignment (operations : list OperationRecord) (sourceID : ResourceID) (incident : Time) : Time :=
  foldl (λ latest operation,
    if (rec_TargetID operation != sourceID) || (rec_Status operation != OperationSucceeded) || IsZero (rec_UpdatedAt operation) ||
       After (rec_UpdatedAt operation) incident then latest
    else if (opn_Kind (rec_Operation operation) != OperationFailover) && (opn_Kind (rec_Operation operation) != OperationSwitchover) then latest
    else if After (rec_UpdatedAt operation) latest then rec_UpdatedAt operation else latest) zero_time operations.

Section attempt.
Variables (sourcePrefix incidentPrefix : string) (tenureStartedAt now : Time) (retryDelay : Duration).
(** An operation of the controller for this source, since it became the primary. *)
Definition concerns (operation : OperationRecord) : bool :=
  HasPrefix (rec_IdempotencyKey operation) sourcePrefix && (opn_Kind (rec_Operation operation) == OperationFailover) &&
  (opn_RequestedBy (rec_Operation operation) == AutomaticRecoveryActor) &&
  negb (negb (IsZero tenureStartedAt) && negb (IsZero (rec_UpdatedAt operation)) && negb (After (rec_UpdatedAt operation) tenureStartedAt)).
Definition attempt_after (next : Z) (operation : OperationRecord) : Z :=
  if HasPrefix (rec_IdempotencyKey operation) incidentPrefix then
    match Atoi (TrimPrefix (rec_IdempotencyKey operation) incidentPrefix) with
    | Some attempt => if next <=? attempt then i64 (attempt + 1) else next
    | None => next
    end
  else next.
(** A topology that changed under the operation is retried sooner. *)
Definition operation_retry_delay (operation : OperationRecord) : Duration :=
  if (rec_FailureClass operation == "pre_commit") && Contains (ToLower (rec_Message operation)) "topology observation changed" &&
     (2 * Second <? retryDelay) then 2 * Second else retryDelay.
(** The body of the loop; an error is the return that refuses an attempt. *)
Definition attempt_step (next : Z) (operation : OperationRecord) : result Z Z :=
  if negb (concerns operation) then Ok next
  else
    let next := attempt_after next operation in
    match rec_Status operation with
    | OperationBlocked | OperationFailed | OperationUnsupported =>
        _ ← reject (IsZero (rec_UpdatedAt operation) || After (rec_UpdatedAt operation) now ||
                    (Sub now (rec_UpdatedAt operation) <? operation_retry_delay operation)) next;
        Ok next
    | _ => Err next
    end.
End attempt.
Definition nextAutomaticAttempt (operations : list OperationRecord) (sourceID : ResourceID) (sourcePrefix incidentPrefix : string)
    (incident now : Time) (retryDelay : Duration) : Z * bool :=
  match for_each (attempt_step sourcePrefix incidentPrefix (latestPrimaryAssignment operations sourceID incident) now retryDelay) 1 operations with
  | Ok next => (next, true)
  | Err next => (next, false)
  end.

(** ** Continuing a promotion that was not verified *)

Section continuation.
Variables (operations : list OperationRecord) (cluster : DatabaseCluster) (snapshot : TopologySnapshot).
Definition source_failed_now (sourceID : ResourceID) : bool :=
  existsb (λ instance, (inst_ResourceID instance == sourceID) && failed_health (inst_Health instance)) (topo_Instances snapshot).
Definition continuable (operation : OperationRecord) : bool :=
  let sourceID := plan_SourceID (rec_Plan operation) in
  (rec_Status operation == OperationIndeterminate) && (rec_FailureClass operation == "promoted_unverified") &&
  (opn_Kind (rec_Operation operation) == OperationFailover) && (opn_RequestedBy (rec_Operation operation) == AutomaticRecoveryActor) &&
  (opn_ClusterID (rec_Operation operation) == cluster_ResourceID cluster) && (opn_Engine (rec_Operation operation) == cluster_Engine cluster) &&
  HasPrefix (rec_IdempotencyKey operation) (automaticFailoverSourcePrefix (cluster_ResourceID cluster) sourceID) &&
  ValidResourceID (rec_ResourceID operation) && ValidResourceID sourceID && (plan_TargetID (rec_Plan operation) == rec_TargetID operation) &&
  source_failed_now sourceID && ValidResourceID (rec_TargetID operation) && (rec_TargetID operation != sourceID) &&
  snapshotContains snapshot (rec_TargetID operation).
(** A later failover or switchover of the cluster has succeeded. *)
Definition superseded (operation : OperationRecord) : bool :=
  existsb (λ candidate, (rec_Status candidate == OperationSucceeded) && After (rec_UpdatedAt candidate) (rec_UpdatedAt operation) &&
    ((opn_Kind (rec_Operation candidate) == OperationFailover) || (opn_Kind (rec_Operation candidate) == OperationSwitchover))) operations.
(** The incident of a key: what precedes the number of the attempt. *)
Definition key_incident (key : string) : option string :=
  match cut_last ":" key with
  | Some (incident, attempt) =>
      if incident == "" then None else match Atoi attempt with Some _ => Some incident | None => None end
  | None => None
  end.
Definition continuation_step (selected : OperationRecord * string) (operation : OperationRecord) : OperationRecord * string :=
  if negb (continuable operation) || superseded operation then selected
  else match key_incident (rec_IdempotencyKey operation) with
  | None => selected
  | Some incidentID =>
      if (rec_ResourceID selected.1 == "") || After (rec_UpdatedAt operation) (rec_UpdatedAt selected.1) then (operation, incidentID) else selected
  end.
Definition promotedUnverifiedContinuation : OperationRecord * string * bool :=
  let selected := foldl continuation_step (zero_OperationRecord, "") operations in
  (selected, rec_ResourceID selected.1 != "").
End continuation.

(** ** The environment *)

Inductive recovery_action : Type :=
| Suppressed                                                    (* [controller.suppressed] *)
| RecoveryContextError                                          (* [ctx.Err()] *)
| RequireMutationAuthority
| RecoveryClock
| ReadClusters
| ReadTopology (clusterID : ResourceID)
| ReadOperations (clusterID : ResourceID)
| ReadHAEndpoints (clusterID : ResourceID)
| ReadIncident (clusterID : ResourceID) (now : Time)
| SelectCandidate (cluster : DatabaseCluster) (snapshot : TopologySnapshot) (sourceID : ResourceID)
| ReadOperationTimeout                                          (* [controller.operationTimeoutProvider] *)
| StartAutomatic (timeout : Duration) (request : WorkflowBase.Request) (incidentID : string).
Definition recovery_answer (c : recovery_action) : Type :=
  match c with
  | Suppressed => bool
  | RecoveryContextError => option error
  | RequireMutationAuthority => option error
  | RecoveryClock => Time
  | ReadClusters => list DatabaseCluster
  | ReadTopology _ => option TopologySnapshot
  | ReadOperations _ => list OperationRecord
  | ReadHAEndpoints _ => list HAEndpoint
  | ReadIncident _ _ => option Time
  | SelectCandidate _ _ _ => result error ResourceID
  | ReadOperationTimeout => Duration
  | StartAutomatic _ _ _ => Execution * option error
  end.
#[export] Instance recovery_signature : Signature := {| action := recovery_action; answer := recovery_answer |}.
Abbreviation recovery := (prog (Sg:=recovery_signature)) (only parsing).
Definition ask (c : recovery_action) : recovery (recovery_answer c) := call (Sg:=recovery_signature) c.

(** ** One cluster *)

(** [Controller]: its engine and delays, and which of its parts are configured. *)
Record Controller : Type := mkController {
  ct_engine : Engine; ct_retryDelay : Duration; ct_operationTimeout : Duration; ct_timeoutProvider : bool; ct_suppression : bool;
  ct_configured : bool
}.
Definition configured (controller : Controller) : bool :=
  ((ct_engine controller == EngineMySQL) || (ct_engine controller == EnginePostgreSQL)) && ct_configured controller.

Section controller.
Variable controller : Controller.
Definition automaticOperationTimeout : recovery Duration :=
  provided ←? (if ct_timeoutProvider controller then ask ReadOperationTimeout else Ret 0);
  Ret (if 0 <? provided then provided
       else if ct_operationTimeout controller <=? 0 then defaultAutomaticFailoverOperationTimeout else ct_operationTimeout controller).
Definition recovery_operation (cluster : DatabaseCluster) : Operation :=
  zero_Operation <| opn_ClusterID := cluster_ResourceID cluster |> <| opn_Engine := cluster_Engine cluster |>
    <| opn_Kind := OperationFailover |> <| opn_RequestedBy := AutomaticRecoveryActor |>.
Definition no_credentials : Credentials := mkCredentials "" "" "".
Definition resume_failover (cluster : DatabaseCluster) (previous : OperationRecord) : WorkflowBase.Request :=
  mkRequest (recovery_operation cluster) (rec_TargetID previous) "" zero_time (rec_IdempotencyKey previous)
    {[ "trigger" := "resume_promoted_unverified" ]} no_credentials no_credentials None None None.
Definition new_failover (cluster : DatabaseCluster) (primaryID targetID : ResourceID) (incident : Time) (attempt : Z) : WorkflowBase.Request :=
  mkRequest (recovery_operation cluster) targetID primaryID incident
    (automaticFailoverPrefix (cluster_ResourceID cluster) primaryID incident +:+ pretty attempt)
    {[ "trigger" := "stable_primary_failure" ]} no_credentials no_credentials None None None.
(** The executor runs under a timeout; [None] is success. *)
Definition start (request : WorkflowBase.Request) (incidentID prefix : string) : recovery (option error) :=
  timeout ←? automaticOperationTimeout;
  done ←? ask (StartAutomatic timeout request incidentID);
  Ret (wrapError prefix <$> (done : Execution * option error).2).
Definition usable_topology (now : Time) (found : option TopologySnapshot) : option TopologySnapshot :=
  match found with
  | Some snapshot =>
      if IsZero (topo_ObservedAt snapshot) || After (topo_ObservedAt snapshot) now || (maximumTopologyAge <? Sub now (topo_ObservedAt snapshot))
      then None else Some snapshot
  | None => None
  end.
(** A failover to a selected target, unless an earlier attempt stands in its way. *)
Definition attempt_failover (cluster : DatabaseCluster) (now : Time) (operations : list OperationRecord) (incident : Time)
    (snapshot : TopologySnapshot) (primaryID targetID : ResourceID) : recovery (option error) :=
  if negb (ValidResourceID targetID) || (targetID == primaryID) || negb (snapshotContains snapshot targetID) then Ret None
  else
    let prefix := automaticFailoverPrefix (cluster_ResourceID cluster) primaryID incident in
    match nextAutomaticAttempt operations primaryID (automaticFailoverSourcePrefix (cluster_ResourceID cluster) primaryID) prefix incident now
            (ct_retryDelay controller) with
    | (_, false) => Ret None
    | (attempt, true) =>
        start (new_failover cluster primaryID targetID incident attempt) (TrimSuffix prefix ":")
          ("execute automatic failover for " +:+ cluster_ResourceID cluster +:+ ": ")
    end.
Definition recover_primary (cluster : DatabaseCluster) (now : Time) (snapshot : TopologySnapshot) (operations : list OperationRecord)
  : recovery (option error) :=
  incident ←? ask (ReadIncident (cluster_ResourceID cluster) now);
  match incident with
  | None => Ret None
  | Some incident =>
      endpoints ←? ask (ReadHAEndpoints (cluster_ResourceID cluster));
      let '(primaryID, safe) := failedPrimary snapshot endpoints in
      if negb safe then Ret None
      else
        selected ←? ask (SelectCandidate cluster snapshot primaryID);
        match selected with
        | Err e => Ret (Some (wrapError ("select automatic failover candidate for " +:+ cluster_ResourceID cluster +:+ ": ") e))
        | Ok targetID => attempt_failover cluster now operations incident snapshot primaryID targetID
        end
  end.
Definition recoverCluster (cluster : DatabaseCluster) : recovery (option error) :=
  now ←? ask RecoveryClock;
  if cluster_RecoveryFreeze cluster then Ret None
  else
    found ←? ask (ReadTopology (cluster_ResourceID cluster));
    match usable_topology now found with
    | None => Ret None
    | Some snapshot =>
        operations ←? ask (ReadOperations (cluster_ResourceID cluster));
        match promotedUnverifiedContinuation operations cluster snapshot with
        | (previous, incidentID, true) =>
            start (resume_failover cluster previous) incidentID ("resume automatic failover for " +:+ cluster_ResourceID cluster +:+ ": ")
        | (_, _, false) => recover_primary cluster now snapshot operations
        end
    end.

(** ** A round *)

(** The clusters of a round; an error is its early return. *)
Definition recoverable (cluster : DatabaseCluster) : bool :=
  (cluster_Engine cluster == ct_engine controller) && ValidResourceID (cluster_ResourceID cluster).
Definition round_clusters : recovery (result (option error) (list DatabaseCluster)) :=
  if negb (configured controller) then Ret (Err (Some (newError "automatic recovery controller is not configured")))
  else
    suppressed ←? (if ct_suppression controller then ask Suppressed else Ret false);
    if (suppressed : bool) then Ret (Err None)
    else
      done ←? ask RecoveryContextError;
      match (done : option error) with
      | Some e => Ret (Err (Some e))
      | None =>
          unauthorized ←? ask RequireMutationAuthority;
          if bool_decide (is_Some (unauthorized : option error)) then Ret (Err None)
          else clusters ←? ask ReadClusters; Ret (Ok (filter recoverable clusters))
      end.
Fixpoint any_stable (now : Time) (clusters : list DatabaseCluster) : recovery bool :=
  match clusters with
  | [] => Ret false
  | cluster :: clusters =>
      if negb (recoverable cluster) then any_stable now clusters
      else
        incident ←? ask (ReadIncident (cluster_ResourceID cluster) now);
        if bool_decide (is_Some (incident : option Time)) then Ret true else any_stable now clusters
  end.
Definition hasStableIncident : recovery bool :=
  now ←? ask RecoveryClock; clusters ←? ask ReadClusters; any_stable now clusters.
End controller.

(** ** The goroutines *)

(** A goroutine waits for the gate, recovers its cluster, and leaves. *)
Inductive worker_phase : Type := Waiting | Recovering | Leaving.
#[export] Instance worker_phase_eq_dec : EqDecision worker_phase.
Proof. solve_decision. Defined.
Record Pool : Type := mkPool { pl_inFlight : gset ResourceID; pl_gate : nat; pl_workers : list (ResourceID * worker_phase) }.
Definition new_pool : Pool := mkPool ∅ 0 [].
Definition beginRecovery (clusterID : ResourceID) (inFlight : gset ResourceID) : gset ResourceID * bool :=
  if bool_decide (clusterID ∈ inFlight) then (inFlight, false) else ({[ clusterID ]} ∪ inFlight, true).
Definition finishRecovery (clusterID : ResourceID) (inFlight : gset ResourceID) : gset ResourceID := inFlight ∖ {[ clusterID ]}.
(** What the rounds in progress may do next. *)
Inductive pool_step (p : Pool) : Pool → Prop :=
| pool_begin clusterID inFlight : beginRecovery clusterID (pl_inFlight p) = (inFlight, true) →
    pool_step p (mkPool inFlight (pl_gate p) (pl_workers p ++ [(clusterID, Waiting)]))
| pool_enter i clusterID : pl_workers p !! i = Some (clusterID, Waiting) → (pl_gate p < maximumParallelRecoveries)%nat →
    pool_step p (mkPool (pl_inFlight p) (S (pl_gate p)) (<[i := (clusterID, Recovering)]> (pl_workers p)))
| pool_canceled i clusterID : pl_workers p !! i = Some (clusterID, Waiting) →
    pool_step p (mkPool (pl_inFlight p) (pl_gate p) (<[i := (clusterID, Leaving)]> (pl_workers p)))
| pool_recovered i clusterID : pl_workers p !! i = Some (clusterID, Recovering) →
    pool_step p (mkPool (pl_inFlight p) (pred (pl_gate p)) (<[i := (clusterID, Leaving)]> (pl_workers p)))
| pool_finish i clusterID : pl_workers p !! i = Some (clusterID, Leaving) →
    pool_step p (mkPool (finishRecovery clusterID (pl_inFlight p)) (pl_gate p) (delete i (pl_workers p))).
