(* ===== verification/RecoverySafety.v ===== *)
(** * internal/recovery: what starts a failover

    The failover of a cluster is started only for a primary that the stored
    topology shows failed, once per attempt, and never beside an earlier
    operation whose outcome is open; the rounds of the controller recover a
    cluster in one goroutine at a time, and at most four clusters at once. *)
From S2P Require Import Prelude GoStd Model Endpoint Lease Locks Repository Operations Interfaces Candidates Program MySQLAdapter MySQLText.
From S2P Require Import WorkflowBase AutomaticRecovery.
From stdpp Require Import pretty.
#[local] Open Scope Z_scope.

(** ** The failed primary *)

Lemma primary_loop l p : for_each primary_step "" l = Ok p →
  (∀ i, i ∈ l → inst_Role i = RolePrimary → failed_health (inst_Health i) = true ∧ (inst_ResourceID i = p ∨ inst_ResourceID i = "")) ∧
  (p ≠ "" → ∃ i, i ∈ l ∧ inst_Role i = RolePrimary ∧ inst_ResourceID i = p).
Proof.
  intros H. pattern l, p. eapply for_each_inv; [exact H|split; [by intros i ?%elem_of_nil|done]|]. clear H.
  intros pre a post p1 p2 _ [Hall Hsome] Hs. unfold primary_step in Hs. case_bool_decide as Hr; cbn [negb] in Hs.
  - apply reject_bind in Hs as [Hg [= <-]]. repeat bsimpl_step. split.
    + intros i [Hi|Hi%list_elem_of_singleton]%elem_of_app Hp; [|subst i; by auto]. destruct (Hall i Hi Hp) as [? [Hid|Hid]]; (split; [done|right; congruence]).
    + intros _. exists a. split; [|done]. apply elem_of_app. right. by left.
  - injection Hs as <-. split.
    + intros i [Hi|Hi%list_elem_of_singleton]%elem_of_app Hp; [by apply Hall|by subst i].
    + intros Hp. destruct (Hsome Hp) as (i & Hi & ?). exists i. split; [|done]. apply elem_of_app. by left.
Qed.
Definition owns_role (snapshot : TopologySnapshot) (endpoint : HAEndpoint) : Prop :=
  ha_ClusterID endpoint = topo_ClusterID snapshot ∧ ha_DesiredRole endpoint = RolePrimary ∧ ValidResourceID (ha_OwnerID endpoint) = true.
Lemma owner_loop snapshot l p0 p : for_each (owner_step snapshot) p0 l = Ok p → ValidResourceID p0 = false → ValidResourceID p = true →
  p0 = "" ∧ (∀ e, e ∈ l → owns_role snapshot e → ha_OwnerID e = p) ∧ ∃ e, e ∈ l ∧ owns_role snapshot e.
Proof.
  intros H H0 Hv. assert ((∀ e, e ∈ l → owns_role snapshot e → ha_OwnerID e = p ∧ p0 = "") ∧
    (p = p0 ∨ ∃ e, e ∈ l ∧ owns_role snapshot e ∧ ha_OwnerID e = p)) as [Hall Hsome].
  - clear Hv. pattern l, p. eapply for_each_inv; [exact H|split; [by intros e ?%elem_of_nil|by left]|]. clear H.
    intros pre a post p1 p2 _ [Hall Hsome] Hs. unfold owner_step in Hs. destruct (_ || _) eqn:Hg in Hs.
    + injection Hs as <-. assert (¬ owns_role snapshot a) as Hn.
      { intros (Hc & Hr & Ho). rewrite Hc, Hr, Ho in Hg. by rewrite !bool_decide_true in Hg. }
      split; [|destruct Hsome as [?|(e & ? & ?)]; [by left|right; exists e; split; [apply elem_of_app; by left|done]]].
      intros e [He|He%list_elem_of_singleton]%elem_of_app Ho; [by apply Hall|by subst e].
    + apply reject_bind in Hs as [Hk [= <-]].
      assert (p1 = "" ∨ p1 = ha_OwnerID a) as Hp by (apply andb_false_iff in Hk as [Hk|Hk]; bsimpl; auto). clear Hk.
      repeat bsimpl_step. assert (owns_role snapshot a) as Ha by by split_and!.
      assert (p0 = "") as Hp0.
      { destruct Hsome as [->|(e & He & Ho & _)]; [|by apply (Hall e)]. destruct Hp as [?| ->]; [done|].
        destruct Ha as (_ & _ & Hv). congruence. }
      split; [|right; exists a; split; [apply elem_of_app; right; by left|done]].
      intros e [He|He%list_elem_of_singleton]%elem_of_app Ho; [|subst e; by split]. split; [|done].
      destruct (Hall e He Ho) as [<- _]. destruct Hp as [Hn|Hn]; [|done]. destruct Ho as (_ & _ & Hv). by rewrite Hn in Hv.
  - destruct Hsome as [->|(e & He & Ho & _)]; [congruence|]. destruct (Hall e He Ho) as [_ ?].
    split; [done|]. split; [intros e' He' Ho'; by apply Hall|by exists e].
Qed.
(** The topology shows that [p] was the primary, and failed. *)
Record failed_source (snapshot : TopologySnapshot) (endpoints : list HAEndpoint) (p : ResourceID) : Prop := mk_failed_source {
  fs_valid : ValidResourceID p = true;
  fs_failed : ∃ i, i ∈ topo_Instances snapshot ∧ inst_ResourceID i = p ∧ failed_health (inst_Health i) = true;
  fs_only : ∀ i, i ∈ topo_Instances snapshot → inst_Role i = RolePrimary →
    failed_health (inst_Health i) = true ∧ (inst_ResourceID i = p ∨ inst_ResourceID i = "");
  fs_evidence : (∃ i, i ∈ topo_Instances snapshot ∧ inst_Role i = RolePrimary ∧ inst_ResourceID i = p) ∨
    (∀ e, e ∈ endpoints → owns_role snapshot e → ha_OwnerID e = p) ∧ (∃ e, e ∈ endpoints ∧ owns_role snapshot e) ∧
    hasCurrentDatabaseFailure snapshot p = true
}.
Lemma failedPrimary_sound snapshot endpoints p : failedPrimary snapshot endpoints = (p, true) → failed_source snapshot endpoints p.
Proof.
  unfold failedPrimary. destruct (for_each primary_step _ _) as [p0|] eqn:H0; [|done]. apply primary_loop in H0 as [Hall Hsome].
  destruct (ValidResourceID p0) eqn:Hv0.
  - intros [= <-]. destruct Hsome as (i & Hi & Hr & Hid); [by intros ->|]. split; [done| |done|left; by exists i].
    exists i. split_and!; [done..|]. by apply Hall.
  - destruct (for_each (owner_step snapshot) _ _) as [p1|] eqn:H1; [|done]. destruct (ValidResourceID p1) eqn:Hv1; [cbn [negb]|done].
    destruct (owner_loop _ _ _ _ H1 Hv0 Hv1) as (-> & Ho & He). destruct (list_find _ _) as [[k i]|] eqn:Hf; [|done].
    apply list_find_Some in Hf as (Hi & Hid & _). apply list_elem_of_lookup_2 in Hi.
    destruct (failed_health (inst_Health i)) eqn:Hh; [cbn [negb]|done]. intros [= <- Hd]. split; [done|by exists i| |by right].
    intros j Hj Hr. destruct (Hall j Hj Hr) as [? [?|?]]; split; auto.
Qed.

(** ** Attempts *)

Lemma cut_prefix_self p r : cut_prefix p (p +:+ r) = Some r.
Proof. pose proof (cut_prefix_app p r "") as H. by rewrite !append_empty_r in H. Qed.
(** An operation that has ended without effect, and long enough ago. *)
Record settled_attempt (now : Time) (retryDelay : Duration) (operation : OperationRecord) : Prop := mk_settled {
  sa_status : rec_Status operation ∈ [OperationBlocked; OperationFailed; OperationUnsupported];
  sa_delay : rec_UpdatedAt operation ≤ now ∧ operation_retry_delay retryDelay operation ≤ Sub now (rec_UpdatedAt operation)
}.
Section attempts.
Variables (sourcePrefix incidentPrefix : string) (tenure now : Time) (retryDelay : Duration).
(** The attempts of earlier keys are 63-bit numbers. *)
Definition attempt_bound (operation : OperationRecord) : Prop :=
  ∀ a, Atoi (TrimPrefix (rec_IdempotencyKey operation) incidentPrefix) = Some a → a < 2 ^ 63 - 1.
Lemma attempt_after_bound next operation : 1 ≤ next < 2 ^ 63 → attempt_bound operation →
  next ≤ attempt_after incidentPrefix next operation < 2 ^ 63 ∧
  ∀ a, HasPrefix (rec_IdempotencyKey operation) incidentPrefix = true →
    Atoi (TrimPrefix (rec_IdempotencyKey operation) incidentPrefix) = Some a → a < attempt_after incidentPrefix next operation.
Proof.
  intros Hn Hb. unfold attempt_after. destruct (HasPrefix _ _) eqn:Hp; [|by split; [lia|intros]]. destruct (Atoi _) as [a|] eqn:Ha; [|by split; [lia|intros]].
  specialize (Hb a Ha). destruct (Z.leb_spec next a) as [Hle|Hlt].
  - assert (i64 (a + 1) = a + 1) as ->.
    { unfold i64. change ((max_uint64 + 1) / 2) with (2 ^ 63). change (max_uint64 + 1) with (2 * 2 ^ 63). rewrite Z.mod_small; lia. }
    split; [lia|]. intros b _ [= <-]. lia.
  - split; [lia|]. intros b _ [= <-]. lia.
Qed.
Lemma attempts_loop operations n : (∀ o, o ∈ operations → attempt_bound o) →
  for_each (attempt_step sourcePrefix incidentPrefix tenure now retryDelay) 1 operations = Ok n →
  1 ≤ n < 2 ^ 63 ∧ ∀ o, o ∈ operations → concerns sourcePrefix tenure o = true →
    settled_attempt now retryDelay o ∧ rec_IdempotencyKey o ≠ incidentPrefix +:+ pretty n.
Proof.
  intros Hb H. enough (1 ≤ n < 2 ^ 63 ∧ ∀ o, o ∈ operations → concerns sourcePrefix tenure o = true → settled_attempt now retryDelay o ∧
    ∀ a, HasPrefix (rec_IdempotencyKey o) incidentPrefix = true → Atoi (TrimPrefix (rec_IdempotencyKey o) incidentPrefix) = Some a → a < n) as [Hn Hall].
  { split; [done|]. intros o Ho Hc. destruct (Hall o Ho Hc) as [Hs Ha]. split; [done|]. intros He.
    unfold HasPrefix, TrimPrefix in Ha. rewrite He, cut_prefix_self in Ha. cbn [default] in Ha. unfold id in Ha.
    assert (n < n); [|lia]. apply Ha; [apply bool_decide_eq_true_2; by eexists|apply Atoi_pretty; lia]. }
  pattern operations, n. eapply for_each_inv; [exact H|split; [done|by intros o ?%elem_of_nil]|]. clear H.
  intros pre o post n1 n2 Hops [Hn Hall] Hs. unfold attempt_step in Hs.
  destruct (concerns sourcePrefix tenure o) eqn:Hc; cbn [negb] in Hs.
  2: { injection Hs as <-. split; [done|]. intros o' [Ho|Ho%list_elem_of_singleton]%elem_of_app Hc'; [by apply Hall|congruence]. }
  assert (attempt_bound o) as Hbo by (apply Hb; rewrite Hops; apply elem_of_app; right; by left).
  destruct (attempt_after_bound n1 o Hn Hbo) as [Hle Ha].
  assert (n2 = attempt_after incidentPrefix n1 o ∧ settled_attempt now retryDelay o) as [-> Hset].
  { destruct (rec_Status o) eqn:Hst; try done; apply reject_bind in Hs as [Hg [= <-]]; (split; [done|]); repeat bsimpl_step;
      (split; [rewrite Hst; first [by left|right; by left|do 2 right; by left]|]); unfold After in *; repeat bsimpl_step; lia. }
  split; [lia|]. intros o' [Ho|Ho%list_elem_of_singleton]%elem_of_app Hc'; [|subst o'; by split].
  destruct (Hall o' Ho Hc') as [? Hold]. split; [done|]. intros a H1 H2. specialize (Hold a H1 H2). lia.
Qed.
End attempts.

(** ** Keys and incidents *)

Lemma contains_none b s : contains_byte b s = false → cut_last b s = None.
Proof. induction s as [|c s IH]; [done|]. cbn. intros [Hc Hs]%orb_false_iff. by rewrite (IH Hs), Hc. Qed.
Lemma cut_last_at b s s' : contains_byte b s' = false → cut_last b (s +:+ String b s') = Some (s, s').
Proof.
  intros Hs. induction s as [|c s IH].
  - change ("" +:+ String b s') with (String b s'). cbn. by rewrite (contains_none _ _ Hs), Ascii.eqb_refl.
  - rewrite append_cons. cbn [cut_last]. by rewrite IH.
Qed.
Lemma TrimSuffix_at s suffix : TrimSuffix (s +:+ suffix) suffix = s.
Proof.
  unfold TrimSuffix, TrimPrefix. rewrite GoStd.rev_append, cut_prefix_self. cbn [default]. unfold id. apply GoStd.rev_involutive.
Qed.
(** The incident and the attempt of a key can be read back. *)
Lemma key_incident_at clusterID sourceID incident attempt : 0 ≤ attempt < 2 ^ 63 →
  key_incident (automaticFailoverPrefix clusterID sourceID incident +:+ pretty attempt) =
    Some (TrimSuffix (automaticFailoverPrefix clusterID sourceID incident) ":").
Proof.
  intros Ha. unfold automaticFailoverPrefix. set (p := automaticFailoverSourcePrefix clusterID sourceID +:+ pretty (UnixNano incident)).
  assert (p ≠ "") as Hp by done.
  replace (automaticFailoverSourcePrefix clusterID sourceID +:+ pretty (UnixNano incident) +:+ ":") with (p +:+ ":") by apply append_assoc.
  rewrite TrimSuffix_at, append_assoc. unfold key_incident. change (":" +:+ pretty attempt) with (String ":" (pretty attempt)).
  rewrite cut_last_at by by apply pretty_free. rewrite bool_decide_false by done. by rewrite Atoi_pretty.
Qed.

(** ** The trace of a recovery *)

Notation events := (list (@event recovery_signature)).
Notation rruns := (runs (Sg:=recovery_signature)).
Definition starting (c : recovery_action) : Prop := match c with StartAutomatic _ _ _ => True | _ => False end.
Definition unstarted (t : events) : Prop := Forall (λ e, ¬ starting (projT1 e)) t.
(** A failover is started at most once, and last. *)
Definition at_most_one (J : events → WorkflowBase.Request → string → Prop) (t : events) : Prop :=
  unstarted t ∨ ∃ t0 timeout request incidentID x, t = t0 ++ [existT (StartAutomatic timeout request incidentID) x] ∧
    unstarted t0 ∧ 0 < timeout ∧ J t0 request incidentID.
Lemma at_most_one_after (J J' : events → WorkflowBase.Request → string → Prop) u t : unstarted u → at_most_one J t →
  (∀ t0 request incidentID, J t0 request incidentID → J' (u ++ t0) request incidentID) → at_most_one J' (u ++ t).
Proof.
  intros Hu [Ht|(t0 & timeout & request & incidentID & x & -> & Ht & H0 & HJ)] HJJ.
  - left. by apply Forall_app.
  - right. exists (u ++ t0), timeout, request, incidentID, x. rewrite app_assoc. split_and!; [done|by apply Forall_app|done|by apply HJJ].
Qed.
Lemma ask_bind {A} c (f : recovery_answer c → recovery A) t o : rruns (x ←? ask c; f x) t o →
  ∃ x t', t = existT c x :: t' ∧ rruns (f x) t' o.
Proof. intros (t1 & t2 & x & -> & H1 & H2)%runs_bind. apply (runs_called (Sg:=recovery_signature)) in H1 as ->. by exists x, t2. Qed.
Lemma timeout_positive controller t timeout : rruns (automaticOperationTimeout controller) t timeout → unstarted t ∧ 0 < timeout.
Proof.
  unfold automaticOperationTimeout. intros (t1 & t2 & provided & -> & H1 & H2)%runs_bind. apply runs_inv in H2 as [-> ->]. rewrite app_nil_r. split.
  - destruct (ct_timeoutProvider controller).
    + apply (runs_called (Sg:=recovery_signature) ReadOperationTimeout) in H1 as ->. constructor; [by intros []|constructor].
    + apply runs_inv in H1 as [-> _]. constructor.
  - destruct (Z.ltb_spec 0 provided); [done|]. destruct (Z.leb_spec (ct_operationTimeout controller) 0); [|lia]. reflexivity.
Qed.
Lemma start_once controller request incidentID prefix t o : rruns (start controller request incidentID prefix) t o →
  at_most_one (λ _ r i, r = request ∧ i = incidentID) t.
Proof.
  unfold start. intros (t1 & t2 & timeout & -> & H1 & H2)%runs_bind. apply timeout_positive in H1 as [Hu Hp].
  apply ask_bind in H2 as (x & t' & -> & H2). apply runs_inv in H2 as [-> _]. right.
  by exists t1, timeout, request, incidentID, x.
Qed.

(** ** What justifies a failover *)

Section justified.
Variables (controller : Controller) (cluster : DatabaseCluster).
Let clusterID := cluster_ResourceID cluster.
Record continued (operations : list OperationRecord) (snapshot : TopologySnapshot) (request : WorkflowBase.Request) (incidentID : string) : Prop := mk_continued {
  cn_previous : ∃ previous, previous ∈ operations ∧ request = resume_failover cluster previous ∧ continuable cluster snapshot previous = true ∧
    superseded operations previous = false ∧ key_incident (rec_IdempotencyKey previous) = Some incidentID
}.
Record attempted (t : events) (now : Time) (operations : list OperationRecord) (snapshot : TopologySnapshot) (request : WorkflowBase.Request)
    (incidentID : string) : Prop := mk_attempted {
  at_new : ∃ incident endpoints primary target attempt,
    existT (ReadIncident clusterID now) (Some incident) ∈ t ∧ existT (ReadHAEndpoints clusterID) endpoints ∈ t ∧
    existT (SelectCandidate cluster snapshot primary) (Ok target) ∈ t ∧
    failed_source snapshot endpoints primary ∧ target ≠ primary ∧ snapshotContains snapshot target = true ∧
    request = new_failover cluster primary target incident attempt ∧
    ((∀ o, o ∈ operations → attempt_bound (automaticFailoverPrefix clusterID primary incident) o) →
     key_incident (rq_IdempotencyKey request) = Some incidentID ∧
     ∀ o, o ∈ operations → concerns (automaticFailoverSourcePrefix clusterID primary) (latestPrimaryAssignment operations primary incident) o = true →
       settled_attempt now (ct_retryDelay controller) o ∧ rec_IdempotencyKey o ≠ rq_IdempotencyKey request)
}.
End justified.
Lemma unstarted_ret {A} (o o' : A) t J : rruns (Ret o) t o' → at_most_one J t.
Proof. intros [-> _]%runs_inv. left. constructor. Qed.
Lemma at_most_one_cons c x t (J J' : events → WorkflowBase.Request → string → Prop) : ¬ starting c → at_most_one J t →
  (∀ t0 request incidentID, J t0 request incidentID → J' (existT c x :: t0) request incidentID) → at_most_one J' (existT c x :: t).
Proof. intros Hc Ht HJ. apply (at_most_one_after J _ [existT c x]); [by repeat constructor|exact Ht|exact HJ]. Qed.
Lemma at_most_one_mono (J J' : events → WorkflowBase.Request → string → Prop) t : at_most_one J t →
  (∀ t0 request incidentID, J t0 request incidentID → J' t0 request incidentID) → at_most_one J' t.
Proof. intros Ht HJ. by apply (at_most_one_after J J' [] t); [constructor| |]. Qed.

Section runs.
Variables (controller : Controller) (cluster : DatabaseCluster).
Let clusterID := cluster_ResourceID cluster.
(** The part of [attempted] that an attempt establishes. *)
Lemma attempt_once now operations incident snapshot primary target t o :
  rruns (attempt_failover controller cluster now operations incident snapshot primary target) t o →
  at_most_one (λ _ request incidentID, target ≠ primary ∧ snapshotContains snapshot target = true ∧ ∃ attempt,
    request = new_failover cluster primary target incident attempt ∧
    ((∀ o, o ∈ operations → attempt_bound (automaticFailoverPrefix clusterID primary incident) o) →
     key_incident (rq_IdempotencyKey request) = Some incidentID ∧
     ∀ o, o ∈ operations → concerns (automaticFailoverSourcePrefix clusterID primary) (latestPrimaryAssignment operations primary incident) o = true →
       settled_attempt now (ct_retryDelay controller) o ∧ rec_IdempotencyKey o ≠ rq_IdempotencyKey request)) t.
Proof.
  unfold attempt_failover. destruct (_ || _) eqn:Hg; [apply unstarted_ret|]. cbv zeta. repeat bsimpl_step.
  unfold nextAutomaticAttempt. destruct (for_each _ _ _) as [n|n] eqn:Hl; [|apply unstarted_ret].
  intros Hr%start_once. eapply at_most_one_mono; [exact Hr|]. intros t0 request incidentID [-> ->]. split_and!; [done..|].
  exists n. split; [done|]. intros Hb. destruct (attempts_loop _ _ _ _ _ _ _ Hb Hl) as [Hn Ha]. split; [|exact Ha].
  apply key_incident_at. lia.
Qed.
Lemma recover_primary_once now snapshot operations t o :
  rruns (recover_primary controller cluster now snapshot operations) t o →
  at_most_one (λ t0 request incidentID, attempted controller cluster t0 now operations snapshot request incidentID) t.
Proof.
  unfold recover_primary. intros (incident & t1 & -> & Hr)%ask_bind. destruct incident as [incident|].
  2: { eapply at_most_one_cons; [by intros []|by eapply unstarted_ret|]. intros t0 request incidentID H. exact H. }
  apply ask_bind in Hr as (endpoints & t2 & -> & Hr). destruct (failedPrimary snapshot endpoints) as [primary safe] eqn:Hp.
  destruct safe; cbn [negb] in Hr.
  2: { do 2 (eapply at_most_one_cons; [by intros []| |intros t0 request incidentID H; exact H]). by eapply unstarted_ret. }
  apply ask_bind in Hr as (selected & t3 & -> & Hr). apply failedPrimary_sound in Hp. destruct selected as [target|e].
  2: { do 3 (eapply at_most_one_cons; [by intros []| |intros t0 request incidentID H; exact H]). by eapply unstarted_ret. }
  apply attempt_once in Hr. do 3 (eapply at_most_one_cons; [by intros []| |intros t0 request incidentID H; exact H]).
  eapply at_most_one_mono; [exact Hr|]. intros t0 request incidentID (Hne & Hc & attempt & Hreq & Ha). split.
  exists incident, endpoints, primary, target, attempt. split_and!; [by left|right; by left|do 2 right; by left|done..].
Qed.
End runs.
Lemma usable_fresh now found snapshot : usable_topology now found = Some snapshot →
  found = Some snapshot ∧ IsZero (topo_ObservedAt snapshot) = false ∧ 0 ≤ now - topo_ObservedAt snapshot ≤ maximumTopologyAge.
Proof.
  unfold usable_topology. destruct found as [s|]; [|done]. destruct (_ || _) eqn:Hg; [done|]. intros [= <-]. split; [done|].
  apply orb_false_iff in Hg as [[H1 H2]%orb_false_iff H3]. split; [done|]. apply Z.ltb_ge in H3. unfold After in H2. apply Z.ltb_ge in H2.
  apply Sub_le_iff in H3; [lia|]. by split.
Qed.
Lemma continuation_sound operations cluster snapshot previous incidentID :
  promotedUnverifiedContinuation operations cluster snapshot = (previous, incidentID, true) →
  previous ∈ operations ∧ continuable cluster snapshot previous = true ∧ superseded operations previous = false ∧
  key_incident (rec_IdempotencyKey previous) = Some incidentID.
Proof.
  unfold promotedUnverifiedContinuation. intros [= Hf Hid]. set (good := λ x : OperationRecord * string, rec_ResourceID x.1 ≠ "" →
    x.1 ∈ operations ∧ continuable cluster snapshot x.1 = true ∧ superseded operations x.1 = false ∧ key_incident (rec_IdempotencyKey x.1) = Some x.2).
  assert (∀ l acc, (∀ o, o ∈ l → o ∈ operations) → good acc → good (foldl (continuation_step operations cluster snapshot) acc l)) as Hloop.
  { induction l as [|o l IH]; intros acc Hl Hacc; [done|]. cbn [foldl]. apply IH; [intros o' Ho'; apply Hl; by right|]. unfold continuation_step.
    destruct (continuable cluster snapshot o) eqn:Hc; cbn [negb orb]; [|done]. destruct (superseded operations o) eqn:Hs; [done|].
    destruct (key_incident _) as [incident|] eqn:Hk; [|done]. destruct (_ || _); [|done]. intros _. split_and!; [apply Hl; by left|done..]. }
  pose proof (Hloop operations (zero_OperationRecord, "") (λ o H, H) ltac:(intros H; by destruct H)) as H. rewrite Hf in H. apply H.
  rewrite Hf in Hid. cbn. by bsimpl.
Qed.

Lemma attempted_after controller cluster u t now operations snapshot request incidentID :
  attempted controller cluster t now operations snapshot request incidentID → attempted controller cluster (u ++ t) now operations snapshot request incidentID.
Proof.
  intros [(incident & endpoints & primary & target & attempt & H1 & H2 & H3 & H)]. split. exists incident, endpoints, primary, target, attempt.
  split_and!; [apply elem_of_app; by right..|apply H|apply H|apply H|apply H|apply H].
Qed.
Lemma recovery_started controller cluster now snapshot operations t o :
  rruns (match promotedUnverifiedContinuation operations cluster snapshot with
         | (previous, incidentID, true) =>
             start controller (resume_failover cluster previous) incidentID ("resume automatic failover for " +:+ cluster_ResourceID cluster +:+ ": ")
         | (_, _, false) => recover_primary controller cluster now snapshot operations
         end) t o →
  at_most_one (λ t0 request incidentID, continued cluster operations snapshot request incidentID ∨
    attempted controller cluster t0 now operations snapshot request incidentID) t.
Proof.
  destruct (promotedUnverifiedContinuation operations cluster snapshot) as [[previous incidentID] [|]] eqn:Hp; intros Hr.
  - apply continuation_sound in Hp as (Hin & Hc & Hs & Hk). eapply at_most_one_mono; [by eapply start_once|].
    intros t0 request incidentID' [-> ->]. left. split. by exists previous.
  - eapply at_most_one_mono; [by eapply recover_primary_once|]. intros t0 request incidentID' H. by right.
Qed.

(** C10: The controller starts a failover at most once per recovery of a cluster,
    as its last act, with a positive timeout, for a cluster that is not frozen
    and on a stored topology not older than fifteen seconds.  Either it
    continues an automatic failover of that cluster that is recorded as promoted
    but unverified, whose source is still failed and that no later success
    supersedes, under the same key and incident; or the failure windows report
    an incident, the topology shows the source failed and no other primary
    alive, and the target is one the selector chose from that topology.  A new
    attempt has a key of its own from which its incident can be read back, and
    every earlier automatic failover from that source, since it became the
    primary, was blocked, failed or unsupported at least a retry delay ago. *)
Theorem automatic_failover_justified controller cluster t o : rruns (recoverCluster controller cluster) t o →
  at_most_one (λ t0 request incidentID, cluster_RecoveryFreeze cluster = false ∧ ∃ now snapshot operations,
    existT RecoveryClock now ∈ t0 ∧ existT (ReadTopology (cluster_ResourceID cluster)) (Some snapshot) ∈ t0 ∧
    existT (ReadOperations (cluster_ResourceID cluster)) operations ∈ t0 ∧ 0 ≤ now - topo_ObservedAt snapshot ≤ 15 * Second ∧
    (continued cluster operations snapshot request incidentID ∨
     attempted controller cluster t0 now operations snapshot request incidentID)) t.
Proof.
  assert (∀ t : events, unstarted t → ∀ J, at_most_one J t) as Hnone by (intros u Hu J; by left).
  unfold recoverCluster. intros (now & t1 & -> & Hr)%ask_bind. destruct (cluster_RecoveryFreeze cluster) eqn:Hfr.
  { apply runs_inv in Hr as [-> _]. apply Hnone. repeat constructor; by intros []. }
  apply ask_bind in Hr as (found & t2 & -> & Hr). destruct (usable_topology now found) as [snapshot|] eqn:Hu.
  2: { apply runs_inv in Hr as [-> _]. apply Hnone. repeat constructor; by intros []. }
  apply usable_fresh in Hu as (-> & _ & Hage). apply ask_bind in Hr as (operations & t3 & -> & Hr). apply recovery_started in Hr.
  refine (at_most_one_after _ _ [existT RecoveryClock now; existT (ReadTopology _) (Some snapshot); existT (ReadOperations _) operations] _ _ Hr _);
    [repeat constructor; by intros []|].
  intros t0 request incidentID HJ. split; [done|]. exists now, snapshot, operations.
  split_and!; [by left|right; by left|do 2 right; by left|apply Hage|apply Hage|].
  destruct HJ as [?|HJ]; [by left|right]. by apply attempted_after.
Qed.

(** ** The rounds *)

Definition recovering (p : Pool) : nat := length (filter (λ w, w.2 = Recovering) (pl_workers p)).
Record pool_ok (p : Pool) : Prop := mk_pool_ok {
  po_nodup : NoDup (pl_workers p).*1;
  po_flight : pl_inFlight p = list_to_set (pl_workers p).*1;
  po_gate : pl_gate p = recovering p;
  po_bound : (pl_gate p ≤ maximumParallelRecoveries)%nat
}.
Definition recovering_one (w : ResourceID * worker_phase) : nat := match w.2 with Recovering => 1 | _ => 0 end.
Lemma recovering_app l w l' : length (filter (λ w, w.2 = Recovering) (l ++ w :: l')) =
  (recovering_one w + length (filter (λ w, w.2 = Recovering) (l ++ l')))%nat.
Proof.
  rewrite !filter_app, !length_app, filter_cons. unfold recovering_one. case_decide as Hw; [rewrite Hw; cbn; lia|by destruct (w.2)].
Qed.
(** A worker changes its phase. *)
Lemma phase_ok inFlight gate gate' l id phase phase' l' : pool_ok (mkPool inFlight gate (l ++ (id, phase) :: l')) →
  (gate' + recovering_one (id, phase) = gate + recovering_one (id, phase'))%nat → (gate' ≤ maximumParallelRecoveries)%nat →
  pool_ok (mkPool inFlight gate' (l ++ (id, phase') :: l')).
Proof.
  intros [Hn Hf Hg Hb] Hgate Hbound. unfold recovering in Hg. cbn in *. rewrite recovering_app in Hg. rewrite fmap_app in *. split; cbn.
  - by rewrite fmap_app.
  - by rewrite fmap_app.
  - unfold recovering. cbn. rewrite recovering_app. lia.
  - exact Hbound.
Qed.
Ltac phases := unfold recovering_one, maximumParallelRecoveries in *; cbn in *; lia.
Lemma pool_step_ok p p' : pool_ok p → pool_step p p' → pool_ok p'.
Proof.
  intros Hok [id inFlight Hbegin|i id Hi Hg|i id Hi|i id Hi|i id Hi];
    try (apply list_elem_of_split_length in Hi as (l & l' & Hw & ->); destruct p as [inFlight gate workers]; cbn in *; subst workers).
  - destruct Hok as [Hn Hf Hgate Hb]. unfold beginRecovery in Hbegin. case_bool_decide as Hin; [done|]. injection Hbegin as <-.
    rewrite Hf, elem_of_list_to_set in Hin. split; cbn.
    + rewrite fmap_app, NoDup_app. split_and!; [done| |apply NoDup_singleton]. intros x Hx ->%list_elem_of_singleton. done.
    + rewrite fmap_app, list_to_set_app_L, Hf. cbn. set_solver.
    + unfold recovering. cbn. rewrite recovering_app, app_nil_r. exact Hgate.
    + exact Hb.
  - rewrite insert_app_r_alt, Nat.sub_diag by done. cbn. eapply phase_ok; [exact Hok| |]; phases.
  - rewrite insert_app_r_alt, Nat.sub_diag by done. cbn. eapply phase_ok; [exact Hok|phases|apply Hok].
  - rewrite insert_app_r_alt, Nat.sub_diag by done. cbn. pose proof (po_gate _ Hok) as Hg. unfold recovering in Hg. cbn in Hg.
    rewrite recovering_app in Hg. pose proof (po_bound _ Hok) as Hb. cbn in *. eapply phase_ok; [exact Hok| |]; phases.
  - rewrite delete_middle. destruct Hok as [Hn Hf Hgate Hb]. unfold recovering in Hgate. cbn in *. rewrite recovering_app in Hgate.
    rewrite fmap_app in *. cbn in *. apply NoDup_app in Hn as (Hn1 & Hd & [Hid Hn2]%NoDup_cons). split; cbn; rewrite ?fmap_app.
    + apply NoDup_app. split_and!; [done| |done]. intros x Hx Hx'. apply (Hd x Hx). by right.
    + unfold finishRecovery. rewrite Hf, !list_to_set_app_L. cbn. assert (id ∉ l.*1) as Hl by (intros H; apply (Hd id H); by left).
      clear -Hid Hl. set_solver.
    + exact Hgate.
    + exact Hb.
Qed.

(** C35: However many rounds of the controller overlap, every cluster is
    recovered by one goroutine at a time, exactly the clusters in flight have
    one, and at most four recoveries run at once; a goroutine that waits can
    enter as soon as fewer are running. *)
Theorem recoveries_bounded p : rtc pool_step new_pool p →
  NoDup (pl_workers p).*1 ∧ (∀ id, id ∈ pl_inFlight p ↔ id ∈ (pl_workers p).*1) ∧ pl_gate p = recovering p ∧ (recovering p ≤ 4)%nat ∧
  (∀ i id, pl_workers p !! i = Some (id, Waiting) → (recovering p < 4)%nat → ∃ p', pool_step p p' ∧ pl_workers p' !! i = Some (id, Recovering)).
Proof.
  intros Hr. assert (pool_ok p) as [Hn Hf Hg Hb].
  { pattern p. eapply rtc_ind_r; [|intros p1 p2 _ Hs Hok; exact (pool_step_ok _ _ Hok Hs)|exact Hr]. split; [apply NoDup_nil_2|reflexivity|reflexivity|cbn; lia]. }
  split_and!; [done|intros id; by rewrite Hf, elem_of_list_to_set|done|by rewrite <- Hg|]. intros i id Hi Hlt.
  eexists. split; [apply (pool_enter p i id Hi); by rewrite Hg|]. cbn. apply list_lookup_insert_eq. by apply lookup_lt_Some in Hi.
Qed.

(** ** A failed primary *)

Definition wr_controller : Controller := mkController EngineMySQL (30 * Second) 0 false true true.
Definition wr_cluster : DatabaseCluster := zero_DatabaseCluster <| cluster_ResourceID := w_cluster |> <| cluster_Engine := EngineMySQL |>.
Definition wr_instance (id : ResourceID) (role : InstanceRole) (state : HealthState) : DatabaseInstance :=
  zero_DatabaseInstance <| inst_ResourceID := id |> <| inst_Role := role |> <| inst_Health := zero_Health <| health_State := state |> |>.
Definition wr_snapshot : TopologySnapshot :=
  zero_TopologySnapshot <| topo_ClusterID := w_cluster |> <| topo_ObservedAt := w_now |>
    <| topo_Instances := [wr_instance w_owner RolePrimary HealthUnhealthy; wr_instance w_fresh RoleReplica HealthHealthy] |>.
Definition wr_handle (c : recovery_action) (w : unit) : unit * recovery_answer c :=
  match c with
  | Suppressed => (w, false)
  | RecoveryContextError | RequireMutationAuthority => (w, None)
  | RecoveryClock => (w, w_now + Second)
  | ReadClusters => (w, [wr_cluster])
  | ReadTopology _ => (w, Some wr_snapshot)
  | ReadOperations _ => (w, [])
  | ReadHAEndpoints _ => (w, [])
  | ReadIncident _ _ => (w, Some (w_now - Minute))
  | SelectCandidate _ _ _ => (w, Ok w_fresh)
  | ReadOperationTimeout => (w, 0)
  | StartAutomatic _ _ _ => (w, (zero_Execution, None))
  end.
Definition wr_run : events * option error := trace (Sg:=recovery_signature) wr_handle (recoverCluster wr_controller wr_cluster) tt.
Definition starting_event (e : @event recovery_signature) : bool := match projT1 e with StartAutomatic _ _ _ => true | _ => false end.
Lemma automatic_failover_justified_witness : ¬ unstarted wr_run.1 ∧ at_most_one (λ t0 _ _, ∃ snapshot, existT (ReadTopology w_cluster) (Some snapshot) ∈ t0) wr_run.1.
Proof.
  split.
  - intros H. assert (existsb starting_event wr_run.1 = true) as He by (vm_compute; reflexivity). apply existsb_exists in He as (e & Hin & He).
    unfold unstarted in H. rewrite Forall_forall in H. apply (H e); [by apply list_elem_of_In|]. destruct e as [[] x]; first [exact I|discriminate He].
  - eapply at_most_one_mono; [exact (automatic_failover_justified wr_controller wr_cluster wr_run.1 wr_run.2 (trace_runs wr_handle _ tt))|].
    intros t0 request incidentID (_ & now & snapshot & operations & _ & H & _). by exists snapshot.
Defined.
Lemma recoveries_bounded_witness : ∃ p, rtc pool_step new_pool p ∧ NoDup (pl_workers p).*1 ∧ recovering p = 1%nat.
Proof.
  set (p := mkPool {[ w_cluster ]} 1 [(w_cluster, Recovering)]). assert (rtc pool_step new_pool p) as Hr.
  { apply (rtc_l _ _ (mkPool {[ w_cluster ]} 0 [(w_cluster, Waiting)])); [exact (pool_begin new_pool w_cluster {[ w_cluster ]} eq_refl)|]. apply rtc_once.
    exact (pool_enter (mkPool {[ w_cluster ]} 0 [(w_cluster, Waiting)]) 0 w_cluster eq_refl ltac:(apply Nat.ltb_lt; reflexivity)). }
  exists p. split; [exact Hr|]. split; [exact (proj1 (recoveries_bounded p Hr))|reflexivity].
Defined.
