(* ===== verification/Observation.v ===== *)
(** * internal/workflow: the safety guards and the topology observation

    [gates.go]: the guards a workflow evaluates before it locks a cluster, and
    the observation it captures and revalidates.  An observation is the digest
    of what the topology says once everything that changes by itself (positions,
    lags, latencies, the number of a reconnection attempt) is left out and the
    lists are sorted.  JSON followed by SHA-256 is a parameter, [Digest].

    [sort.Slice] is a sort by a total preorder; where keys tie the order of the
    result is not specified, and the merge sort of the model is one of them. *)
From S2P Require Import Prelude GoStd Model Endpoint Lease Locks Repository Operations Interfaces Candidates Program MySQLAdapter WorkflowBase.
#[local] Open Scope Z_scope.

(** ** Guards *)

(** A guard's answer, [None] when it passes; [authority] is what [RequireMutationAuthority] answers. *)
Definition AuthoritySafetyGuard_Evaluate (authority : option (option error)) (operation : Operation) : option error :=
  match authority with
  | None => Some (newError "mutation authority safety guard is not configured")
  | Some answer =>
      if negb (ValidResourceID (opn_ResourceID operation)) || negb (ValidResourceID (opn_ClusterID operation)) then
        Some (newError "operation and cluster UUIDs are required by the safety guard")
      else wrapError "leader-backed controller majority is required: " <$> answer
  end.
Definition MaintenanceSafetyGuard_Evaluate (gate : option (option error)) (operation : Operation) : option error :=
  match gate with
  | None => Some (newError "software update maintenance guard is not configured")
  | Some answer => wrapError "software update maintenance gate blocked execution: " <$> answer
  end.
(** The guards in order; the first error ends the loop. *)
Fixpoint evaluate_guards (guards : list (option (Operation → option error))) (operation : Operation) : option error :=
  match guards with
  | [] => None
  | None :: _ => Some (newError "nil safety guard is configured")
  | Some guard :: guards => match guard operation with Some e => Some e | None => evaluate_guards guards operation end
  end.
Definition CompositeSafetyGuard_Evaluate (guards : list (option (Operation → option error))) (operation : Operation) : option error :=
  match guards with [] => Some (newError "no safety guards are configured") | _ => evaluate_guards guards operation end.

(** ** What is observed *)

Record topologyObservationHealth : Type := mkObservedHealth { oh_State : HealthState; oh_Replication : string }.
Record topologyObservationInstance : Type := mkObservedInstance {
  oi_ResourceID : ResourceID; oi_ClusterID : ResourceID; oi_NodeID : ResourceID; oi_Engine : Engine; oi_EngineIdentity : EngineIdentity;
  oi_DisplayName : string; oi_Hostname : string; oi_IPAddress : string; oi_Port : Z; oi_Aliases : list string; oi_Role : InstanceRole;
  oi_Health : topologyObservationHealth; oi_SourceIdentity : EngineIdentity; oi_IOThread : ThreadState; oi_SQLThread : ThreadState;
  oi_LastError : string; oi_Maintenance : bool; oi_PromotionEligible : bool; oi_EngineMetadata : gmap string string
}.
Record topologyObservationLink : Type := mkObservedLink {
  ol_ResourceID : ResourceID; ol_SourceID : ResourceID; ol_TargetID : ResourceID; ol_Healthy : bool
}.
Record topologyObservationProbe : Type := mkObservedProbe {
  op_EndpointID : ResourceID; op_InstanceID : ResourceID; op_Health : topologyObservationHealth
}.
Record topologyObservationAnomaly : Type := mkObservedAnomaly {
  oa_ClusterID : ResourceID; oa_Engine : Engine; oa_Kind : string; oa_Severity : string; oa_Message : string
}.
Record topologyObservation : Type := mkTopologyObservation {
  to_ClusterID : ResourceID; to_Instances : list topologyObservationInstance; to_Links : list topologyObservationLink;
  to_Probes : list topologyObservationProbe; to_Health : topologyObservationHealth; to_Anomalies : list topologyObservationAnomaly
}.

(** *** [(?i)(\bthis was attempt )\d+(/\d+\b)], replaced by [${1}*${2}] *)

Definition is_word (c : ascii) : bool := is_digit c || is_lower c || is_upper c || (c == "_"%char).
(** A pattern in lower case against the text, ignoring case (U+017F folds to s); what was matched, and the rest. *)
Fixpoint match_fold (pattern text : string) : option (string * string) :=
  match pattern, text with
  | EmptyString, _ => Some (EmptyString, text)
  | String p pattern, String c text' =>
      match (if p == "s"%char then cut_prefix (bytes [197; 191]%N) text else None) with
      | Some _ =>
          match text' with
          | String d text'' => '(m, rest) ← match_fold pattern text''; Some (String c (String d m), rest)
          | EmptyString => None
          end
      | None => if lower_byte c == p then '(m, rest) ← match_fold pattern text'; Some (String c m, rest) else None
      end
  | _, EmptyString => None
  end.
Fixpoint take_digits (s : string) : string * string :=
  match s with
  | String c s' => if is_digit c then let '(d, rest) := take_digits s' in (String c d, rest) else (EmptyString, s)
  | EmptyString => (EmptyString, EmptyString)
  end.
Definition at_word (s : string) : bool := match s with String c _ => is_word c | EmptyString => false end.
(** The two groups and what follows, at a position that a word may start. *)
Definition match_attempt (s : string) : option (string * string * string) :=
  '(m, rest) ← match_fold "this was attempt " s;
  let '(d, rest) := take_digits rest in
  if d == "" then None
  else match rest with
  | String c rest =>
      if c != "/"%char then None
      else let '(d, rest) := take_digits rest in
           if (d == "") || at_word rest then None else Some (m, String "/" d, rest)
  | EmptyString => None
  end.
(** Leftmost matches, none overlapping; [fuel] is the length of the text. *)
Fixpoint replace_attempts (fuel : nat) (after_word : bool) (s : string) : string :=
  match fuel, s with
  | O, _ | _, EmptyString => s
  | S fuel, String c s' =>
      match (if after_word then None else match_attempt s) with
      | Some (m, d, rest) => m +:+ "*" +:+ d +:+ replace_attempts fuel true rest
      | None => String c (replace_attempts fuel (is_word c) s')
      end
  end.
Definition stableReplicationError (value : string) : string := replace_attempts (String.length value) false value.

(** *** The rest of the observation *)

Definition stableHealth (value : Health) : topologyObservationHealth := mkObservedHealth (health_State value) (health_Replication value).
Definition volatile_metadata : list string :=
  ["gtid_executed"; "current_lsn"; "receive_lsn"; "replay_lsn"; "receiver_latest_end_lsn"; "transport_lag_seconds"; "apply_lag_seconds"].
Definition stableEngineMetadata (values : gmap string string) : gmap string string :=
  filter (λ kv, kv.1 ∉ volatile_metadata) values.
Definition stablePromotionEligible (instance : DatabaseInstance) : bool :=
  if inst_Engine instance == EngineOracle then
    (inst_Role instance == RoleStandby) && (health_State (inst_Health instance) == HealthHealthy)
  else inst_PromotionEligible instance.
Definition observed_instance (instance : DatabaseInstance) : topologyObservationInstance :=
  mkObservedInstance (inst_ResourceID instance) (inst_ClusterID instance) (inst_NodeID instance) (inst_Engine instance)
    (inst_EngineIdentity instance) (inst_DisplayName instance) (inst_Hostname instance) (inst_IPAddress instance) (inst_Port instance)
    (merge_sort id_le (inst_Aliases instance)) (inst_Role instance) (stableHealth (inst_Health instance))
    (repl_SourceIdentity (inst_Replication instance)) (repl_IOThread (inst_Replication instance)) (repl_SQLThread (inst_Replication instance))
    (stableReplicationError (repl_LastError (inst_Replication instance))) (inst_Maintenance instance) (stablePromotionEligible instance)
    (stableEngineMetadata (inst_EngineMetadata instance)).
Definition observed_link (link : ReplicationLink) : topologyObservationLink :=
  mkObservedLink (link_ResourceID link) (link_SourceInstanceID link) (link_TargetInstanceID link) (link_Healthy link).
Definition observed_probe (probe : ProbeStatus) : topologyObservationProbe :=
  mkObservedProbe (probe_EndpointID probe) (probe_InstanceID probe) (stableHealth (probe_Health probe)).
Definition observed_anomaly (anomaly : MetadataAnomaly) : topologyObservationAnomaly :=
  mkObservedAnomaly (anomaly_ClusterID anomaly) (anomaly_Engine anomaly) (anomaly_Kind anomaly) (anomaly_Severity anomaly)
    (anomaly_Message anomaly).

(** *** Orders of several keys *)

Fixpoint ids_leb (a b : list string) : bool :=
  match a, b with
  | [], _ => true
  | _, [] => false
  | x :: a, y :: b => if x == y then ids_leb a b else String.leb x y
  end.
Definition keyed_le {A} (key : A → list string) (a b : A) : Prop := ids_leb (key a) (key b) = true.
#[export] Instance keyed_le_dec {A} (key : A → list string) : RelDecision (keyed_le key).
Proof. intros a b. unfold keyed_le. apply _. Defined.
Definition instance_key (i : topologyObservationInstance) : list string := [oi_ResourceID i].
Definition link_key (l : topologyObservationLink) : list string := [ol_SourceID l; ol_TargetID l; ol_ResourceID l].
Definition probe_key (p : topologyObservationProbe) : list string := [op_EndpointID p; op_InstanceID p].
Definition anomaly_key (a : topologyObservationAnomaly) : list string := [oa_Kind a; oa_Severity a; oa_Message a].
Definition topology_observation (snapshot : TopologySnapshot) : topologyObservation :=
  mkTopologyObservation (topo_ClusterID snapshot)
    (merge_sort (keyed_le instance_key) (observed_instance <$> topo_Instances snapshot))
    (merge_sort (keyed_le link_key) (observed_link <$> topo_Links snapshot))
    (merge_sort (keyed_le probe_key) (observed_probe <$> topo_Probes snapshot))
    (stableHealth (topo_Health snapshot))
    (merge_sort (keyed_le anomaly_key) (observed_anomaly <$> topo_Anomalies snapshot)).

Section digest.
Variables (Marshal : topologyObservation → result error string) (SHA256Hex : string → string).
Definition topologyDigest (snapshot : TopologySnapshot) : result error string :=
  match Marshal (topology_observation snapshot) with
  | Ok encoded => Ok ("sha256:" +:+ SHA256Hex encoded)
  | Err e => Err (wrapError "encode topology observation: " e)
  end.

(** ** Capturing and revalidating *)

(** [reader] is [gate.Reader] at the moment of the call; [ctx] is [ctx.Err()]. *)
Definition TopologyReader : Type := ResourceID → option TopologySnapshot.
Definition CaptureObservation (ctx : option error) (reader : option TopologyReader) (operation : Operation) : result error ObservationToken :=
  match ctx with
  | Some e => Err e
  | None =>
      match reader with
      | None => Err (newError "topology reader is not configured")
      | Some TopologySnapshot =>
          _ ← reject (opn_ClusterID operation == "") (newError "cluster ID is required for discovery validation");
          match TopologySnapshot (opn_ClusterID operation) with
          | None => Err (newError "a current topology observation is required")
          | Some snapshot =>
              _ ← reject (IsZero (topo_ObservedAt snapshot)) (newError "a current topology observation is required");
              _ ← reject ((topo_ClusterID snapshot != "") && (topo_ClusterID snapshot != opn_ClusterID operation))
                    (newError "topology observation belongs to another cluster");
              digest ← topologyDigest snapshot;
              Ok (mkObservationToken (opn_ClusterID operation) (topo_ObservedAt snapshot) digest snapshot)
          end
      end
  end.
Definition RevalidateObservation (ctx : option error) (reader : option TopologyReader) (operation : Operation) (token : ObservationToken)
  : result error unit :=
  _ ← reject ((ot_ClusterID token != opn_ClusterID operation) || IsZero (ot_ObservedAt token))
        (newError "topology observation token does not match the operation");
  current ← CaptureObservation ctx reader operation;
  reject ((ot_ClusterID current != ot_ClusterID token) ||
          ((ot_Digest token != "") && (ot_Digest current != ot_Digest token)) ||
          ((ot_Digest token == "") && negb (Equal (ot_ObservedAt current) (ot_ObservedAt token))))
    (newError "topology observation changed").
End digest.

(** ** Sorting *)

Lemma ids_leb_cons x y a b : ids_leb (x :: a) (y :: b) = true ↔ (x = y ∧ ids_leb a b = true) ∨ (x ≠ y ∧ id_le x y).
Proof. cbn. case_bool_decide; unfold id_le; naive_solver. Qed.
#[export] Instance keyed_le_trans {A} (key : A → list string) : Transitive (keyed_le key).
Proof.
  intros x y z. unfold keyed_le. generalize (key x), (key y), (key z). clear. intros a.
  induction a as [|x a IH]; intros [|y b] [|z c]; try done. rewrite !ids_leb_cons.
  intros [[-> H1]|[H1 H1']] [[-> H2]|[H2 H2']]; [left; split; [done|by eapply IH]|by right|by right|].
  destruct (decide (x = z)) as [->|]; [by destruct H1; apply (anti_symm id_le)|right; split; [done|by etrans]].
Qed.
#[export] Instance keyed_le_total {A} (key : A → list string) : Total (keyed_le key).
Proof.
  intros x y. unfold keyed_le. generalize (key x), (key y). clear. intros a.
  induction a as [|x a IH]; intros [|y b]; [by left..|by right|]. rewrite !ids_leb_cons.
  destruct (decide (x = y)) as [->|Hn]; [destruct (IH b); tauto|]. destruct (id_le_total x y); [left|right]; right; (split; [|done]); congruence.
Qed.
Lemma keyed_le_antisym {A} (key : A → list string) x y : length (key x) = length (key y) → keyed_le key x y → keyed_le key y x → key x = key y.
Proof.
  unfold keyed_le. generalize (key x), (key y). clear. intros a. induction a as [|x a IH]; intros [|y b]; try done. cbn [length].
  intros [= Hl]. rewrite !ids_leb_cons. intros [[-> H1]|[H1 H1']] [[H2 H3]|[H2 H2']]; try congruence; [f_equal; by apply IH|].
  destruct H1. by apply (anti_symm id_le).
Qed.
(** Elements with keys of their own are sorted in one way. *)
Lemma keyed_sort_unique {A} (key : A → list string) n l l' : (∀ x, length (key x) = n) → NoDup (key <$> l) → l ≡ₚ l' →
  merge_sort (keyed_le key) l = merge_sort (keyed_le key) l'.
Proof.
  intros Hlen Hn Hp. apply (Sorted_unique_strong (keyed_le key)); [|apply Sorted_merge_sort; apply _..|by rewrite !merge_sort_Permutation].
  intros x y Hx Hy Hxy Hyx. rewrite merge_sort_Permutation in Hx. rewrite merge_sort_Permutation, <- Hp in Hy.
  assert (key x = key y) as Hk by (apply keyed_le_antisym; [by rewrite !Hlen|done..]).
  apply list_elem_of_lookup in Hx as [i Hi]. apply list_elem_of_lookup in Hy as [j Hj].
  assert (i = j) as ->; [|congruence]. eapply NoDup_lookup; [exact Hn|..]; rewrite list_lookup_fmap.
  - by rewrite Hi.
  - rewrite Hj. cbn. by rewrite Hk.
Qed.

(** ** Properties *)

(** What two observations of an instance, a link, a probe or an anomaly have in common when they say the same. *)
Definition same_health (h h' : Health) : Prop := health_State h = health_State h' ∧ health_Replication h = health_Replication h'.
Record same_instance (i j : DatabaseInstance) : Prop := mk_same_instance {
  si_id : inst_ResourceID i = inst_ResourceID j ∧ inst_ClusterID i = inst_ClusterID j ∧ inst_NodeID i = inst_NodeID j;
  si_engine : inst_Engine i = inst_Engine j ∧ inst_EngineIdentity i = inst_EngineIdentity j;
  si_name : inst_DisplayName i = inst_DisplayName j ∧ inst_Hostname i = inst_Hostname j;
  si_address : inst_IPAddress i = inst_IPAddress j ∧ inst_Port i = inst_Port j ∧ inst_Aliases i ≡ₚ inst_Aliases j;
  si_role : inst_Role i = inst_Role j;
  si_health : same_health (inst_Health i) (inst_Health j);
  si_source : repl_SourceIdentity (inst_Replication i) = repl_SourceIdentity (inst_Replication j);
  si_threads : repl_IOThread (inst_Replication i) = repl_IOThread (inst_Replication j) ∧
    repl_SQLThread (inst_Replication i) = repl_SQLThread (inst_Replication j);
  si_error : stableReplicationError (repl_LastError (inst_Replication i)) = stableReplicationError (repl_LastError (inst_Replication j));
  si_maintenance : inst_Maintenance i = inst_Maintenance j;
  si_eligible : inst_Engine i ≠ EngineOracle → inst_PromotionEligible i = inst_PromotionEligible j;
  si_metadata : ∀ name, name ∉ volatile_metadata → inst_EngineMetadata i !! name = inst_EngineMetadata j !! name
}.
Definition same_link (l l' : ReplicationLink) : Prop :=
  link_ResourceID l = link_ResourceID l' ∧ link_SourceInstanceID l = link_SourceInstanceID l' ∧
  link_TargetInstanceID l = link_TargetInstanceID l' ∧ link_Healthy l = link_Healthy l'.
Definition same_probe (p p' : ProbeStatus) : Prop :=
  probe_EndpointID p = probe_EndpointID p' ∧ probe_InstanceID p = probe_InstanceID p' ∧ same_health (probe_Health p) (probe_Health p').
Definition same_anomaly (a a' : MetadataAnomaly) : Prop :=
  anomaly_ClusterID a = anomaly_ClusterID a' ∧ anomaly_Engine a = anomaly_Engine a' ∧ anomaly_Kind a = anomaly_Kind a' ∧
  anomaly_Severity a = anomaly_Severity a' ∧ anomaly_Message a = anomaly_Message a'.
(** In some order. *)
Definition same_list {A} (same : A → A → Prop) (l l' : list A) : Prop := ∃ l'', l' ≡ₚ l'' ∧ Forall2 same l l''.
(** Two topologies that say the same, up to order and to what changes by itself. *)
Record same_view (s s' : TopologySnapshot) : Prop := mk_same_view {
  sv_cluster : topo_ClusterID s = topo_ClusterID s';
  sv_health : same_health (topo_Health s) (topo_Health s');
  sv_instances : same_list same_instance (topo_Instances s) (topo_Instances s');
  sv_links : same_list same_link (topo_Links s) (topo_Links s');
  sv_probes : same_list same_probe (topo_Probes s) (topo_Probes s');
  sv_anomalies : same_list same_anomaly (topo_Anomalies s) (topo_Anomalies s')
}.
Lemma same_list_fmap {A B} (f : A → B) (same : A → A → Prop) l l' : (∀ x y, f x = f y ↔ same x y) →
  f <$> l ≡ₚ f <$> l' ↔ same_list same l l'.
Proof.
  intros Hf. split.
  - intros (l'' & Hl & Hp)%Permutation.Permutation_map_inv. exists l''. split; [done|]. clear Hp l'.
    revert l'' Hl. induction l as [|x l IH]; intros [|y l'']; try done. intros [= Hx Hl]. constructor; [by apply Hf|by apply IH].
  - intros (l'' & -> & Hs). induction Hs as [|x y l l'' Hx _ IH]; [done|]. cbn. apply Hf in Hx. rewrite Hx. by constructor.
Qed.
Lemma health_iff h h' : stableHealth h = stableHealth h' ↔ same_health h h'.
Proof. unfold stableHealth, same_health. split; [by intros [=]|by intros [-> ->]]. Qed.
Lemma link_iff l l' : observed_link l = observed_link l' ↔ same_link l l'.
Proof. unfold observed_link, same_link. split; [by intros [=]|by intros (-> & -> & -> & ->)]. Qed.
Lemma probe_iff p p' : observed_probe p = observed_probe p' ↔ same_probe p p'.
Proof.
  unfold observed_probe, same_probe. rewrite <- health_iff. split; [|by intros (-> & -> & ->)].
  intros H. split_and!; [by apply (f_equal op_EndpointID) in H|by apply (f_equal op_InstanceID) in H|by apply (f_equal op_Health) in H].
Qed.
Lemma anomaly_iff a a' : observed_anomaly a = observed_anomaly a' ↔ same_anomaly a a'.
Proof. unfold observed_anomaly, same_anomaly. split; [by intros [=]|by intros (-> & -> & -> & -> & ->)]. Qed.
Lemma aliases_iff (l l' : list string) : merge_sort id_le l = merge_sort id_le l' ↔ l ≡ₚ l'.
Proof.
  split; [intros H; by rewrite <- (merge_sort_Permutation id_le l), H, merge_sort_Permutation|].
  intros Hp. apply (Sorted_unique id_le); [apply Sorted_merge_sort; apply _..|by rewrite !merge_sort_Permutation].
Qed.
Lemma metadata_iff m m' : stableEngineMetadata m = stableEngineMetadata m' ↔ ∀ name, name ∉ volatile_metadata → m !! name = m' !! name.
Proof.
  unfold stableEngineMetadata. split.
  - intros H name Hn. apply (f_equal (lookup name)) in H. rewrite !map_lookup_filter in H.
    destruct (m !! name), (m' !! name); cbn in H; repeat case_guard; naive_solver.
  - intros H. apply map_eq. intros name. rewrite !map_lookup_filter. destruct (decide (name ∈ volatile_metadata)) as [Hn|Hn]; [|by rewrite H].
    destruct (m !! name), (m' !! name); cbn; repeat case_guard; done.
Qed.
Lemma observed_eligible_iff i j : inst_Engine i = inst_Engine j → inst_Role i = inst_Role j → same_health (inst_Health i) (inst_Health j) →
  stablePromotionEligible i = stablePromotionEligible j ↔ (inst_Engine i ≠ EngineOracle → inst_PromotionEligible i = inst_PromotionEligible j).
Proof. intros He Hr [Hh _]. unfold stablePromotionEligible. rewrite <- He, <- Hr, <- Hh. case_bool_decide; [by split; intros|tauto]. Qed.
Lemma instance_iff i j : observed_instance i = observed_instance j ↔ same_instance i j.
Proof.
  split.
  - intros Ho. injection Ho as H1 H2 H3 H4 H5 H6 H7 H8 H9 H10 H11 H12 H13 H14 H15 H16 H17 H18 H19 H20.
    split; try done; [split_and!; [done..|by apply aliases_iff]| |by apply metadata_iff]. by apply observed_eligible_iff.
  - intros [(H1 & H2 & H3) (H4 & H5) (H6 & H7) (H8 & H9 & H10%aliases_iff) H11 H12 H13 (H14 & H15) H16 H17 H18 H19%metadata_iff].
    apply observed_eligible_iff in H18; [|done..]. apply health_iff in H12. unfold observed_instance.
    rewrite H1, H2, H3, H4, H5, H6, H7, H8, H9, H10, H11, H12, H13, H14, H15, H16, H17, H18, H19. reflexivity.
Qed.
(** No two instances, links, probes or anomalies of a topology have the same key. *)
Record distinct_keys (s : TopologySnapshot) : Prop := mk_distinct_keys {
  dk_instances : NoDup (instance_key ∘ observed_instance <$> topo_Instances s);
  dk_links : NoDup (link_key ∘ observed_link <$> topo_Links s);
  dk_probes : NoDup (probe_key ∘ observed_probe <$> topo_Probes s);
  dk_anomalies : NoDup (anomaly_key ∘ observed_anomaly <$> topo_Anomalies s)
}.
Lemma sorted_permutation {A} (key : A → list string) l l' : merge_sort (keyed_le key) l = merge_sort (keyed_le key) l' → l ≡ₚ l'.
Proof. intros H. by rewrite <- (merge_sort_Permutation (keyed_le key) l), H, merge_sort_Permutation. Qed.
Lemma observation_iff s s' : distinct_keys s → topology_observation s = topology_observation s' ↔ same_view s s'.
Proof.
  intros Hd. unfold topology_observation. split.
  - intros H. pose proof (f_equal to_ClusterID H) as H1. pose proof (f_equal to_Instances H) as H2. pose proof (f_equal to_Links H) as H3.
    pose proof (f_equal to_Probes H) as H4. pose proof (f_equal to_Health H) as H5. pose proof (f_equal to_Anomalies H) as H6. cbn [
      to_ClusterID to_Instances to_Links to_Probes to_Health to_Anomalies] in *.
    split; [done|by apply health_iff|eapply same_list_fmap; [|by eapply sorted_permutation]..];
      [apply instance_iff|apply link_iff|apply probe_iff|apply anomaly_iff].
  - intros [H1 H2%health_iff H3%(same_list_fmap _ _ _ _ instance_iff) H4%(same_list_fmap _ _ _ _ link_iff)
      H5%(same_list_fmap _ _ _ _ probe_iff) H6%(same_list_fmap _ _ _ _ anomaly_iff)].
    destruct Hd as [D1 D2 D3 D4]. rewrite list_fmap_compose in D1. rewrite list_fmap_compose in D2. rewrite list_fmap_compose in D3. rewrite list_fmap_compose in D4. f_equal.
    + done.
    + by eapply (keyed_sort_unique _ 1).
    + by eapply (keyed_sort_unique _ 3).
    + by eapply (keyed_sort_unique _ 2).
    + done.
    + by eapply (keyed_sort_unique _ 3).
Qed.
Section digests.
Variables (Marshal : topologyObservation → result error string) (SHA256Hex : string → string).
Lemma capture_ok ctx reader operation token : CaptureObservation Marshal SHA256Hex ctx reader operation = Ok token →
  ctx = None ∧ ∃ read, reader = Some read ∧ read (opn_ClusterID operation) = Some (ot_Snapshot token) ∧ opn_ClusterID operation ≠ "" ∧
    IsZero (topo_ObservedAt (ot_Snapshot token)) = false ∧
    ((topo_ClusterID (ot_Snapshot token) != "") && (topo_ClusterID (ot_Snapshot token) != opn_ClusterID operation)) = false ∧
    ot_ClusterID token = opn_ClusterID operation ∧ ot_ObservedAt token = topo_ObservedAt (ot_Snapshot token) ∧
    topologyDigest Marshal SHA256Hex (ot_Snapshot token) = Ok (ot_Digest token).
Proof.
  unfold CaptureObservation. destruct ctx as [e|]; [done|]. destruct reader as [read|]; [|done]. intros [Hc H]%reject_bind.
  destruct (read (opn_ClusterID operation)) as [s|] eqn:Hs; [|done]. apply reject_bind in H as [Hz H]. apply reject_bind in H as [Hk H].
  apply result_bind_ok in H as (digest & Hd & [= <-]). split; [done|]. exists read. apply bool_decide_eq_false in Hc. by split_and!.
Qed.
Lemma digest_text s digest : topologyDigest Marshal SHA256Hex s = Ok digest → digest ≠ "".
Proof. unfold topologyDigest. destruct (Marshal _); [|done]. by intros [= <-]. Qed.
End digests.

(** C15: Revalidation is exact.  Once an observation of a cluster has been
    captured, revalidating it against the topology that is stored later
    succeeds if and only if that topology says the same about the cluster: the
    same instances, with their roles, health, replication sources and threads,
    the same links, probes and anomalies, in whatever order, whatever happened
    to positions and latencies.  It is assumed that the two
    observations are not a collision of SHA-256. *)
Theorem revalidation_exact Marshal SHA256Hex read read' operation token later digest :
  CaptureObservation Marshal SHA256Hex None (Some read) operation = Ok token → distinct_keys (ot_Snapshot token) →
  read' (opn_ClusterID operation) = Some later → IsZero (topo_ObservedAt later) = false → topologyDigest Marshal SHA256Hex later = Ok digest →
  (digest = ot_Digest token → topology_observation later = topology_observation (ot_Snapshot token)) →
  RevalidateObservation Marshal SHA256Hex None (Some read') operation token = Ok tt ↔ same_view (ot_Snapshot token) later.
Proof.
  intros Hcap Hd Hread Hz Hdigest Hcollision. apply capture_ok in Hcap as (_ & read0 & [= <-] & Hs & Hc & Hz0 & Hk & Hid & Hat & Htd).
  rewrite <- observation_iff by exact Hd. unfold RevalidateObservation. rewrite Hid, Hat, Hz0, (bool_decide_true (opn_ClusterID operation = opn_ClusterID operation)) by done. cbn [negb orb reject mbind result_bind].
  unfold CaptureObservation. rewrite Hread, Hz. rewrite (bool_decide_false (opn_ClusterID operation = "")) by done. cbn [reject mbind result_bind].
  pose proof (digest_text _ _ _ _ Htd) as Hne. split.
  - intros (current & Hcur & H)%result_bind_ok. apply reject_bind in Hcur as [_ Hcur]. rewrite Hdigest in Hcur. injection Hcur as <-.
    apply reject_ok in H. cbn [ot_Digest ot_ClusterID ot_ObservedAt] in H.
    rewrite (bool_decide_false (ot_Digest token = "")) in H by done. cbn [negb andb] in H.
    apply orb_false_iff in H as [[_ H]%orb_false_iff _]. symmetry. apply Hcollision. by apply negb_false_iff, bool_decide_eq_true in H.
  - intros Hobs. assert (topo_ClusterID later = topo_ClusterID (ot_Snapshot token)) as -> by by injection Hobs.
    rewrite Hk. cbn [reject mbind result_bind]. rewrite Hdigest. cbn [mbind result_bind].
    assert (digest = ot_Digest token) as -> by (unfold topologyDigest in *; rewrite Hobs in Htd; congruence).
    cbn [ot_Digest ot_ClusterID ot_ObservedAt]. rewrite (bool_decide_true (opn_ClusterID operation = opn_ClusterID operation)) by done.
    rewrite (bool_decide_true (ot_Digest token = ot_Digest token)), (bool_decide_false (ot_Digest token = "")) by done. done.
Qed.

(** A composition passes exactly when it has guards, all of them configured, and all of them pass. *)
Lemma CompositeSafetyGuard_passes guards operation : CompositeSafetyGuard_Evaluate guards operation = None ↔
  guards ≠ [] ∧ ∀ guard, guard ∈ guards → ∃ evaluate, guard = Some evaluate ∧ evaluate operation = None.
Proof.
  assert (evaluate_guards guards operation = None ↔ ∀ guard, guard ∈ guards → ∃ evaluate, guard = Some evaluate ∧ evaluate operation = None) as He.
  { induction guards as [|[evaluate|] guards IH]; cbn.
    - split; [|done]. by intros _ guard ?%elem_of_nil.
    - destruct (evaluate operation) as [e|] eqn:Hev.
      + split; [done|]. intros H. destruct (H (Some evaluate) ltac:(by left)) as (f & [= <-] & Hf). congruence.
      + rewrite IH. split; [|by intros H guard Hg; apply H; right]. intros H guard [->|Hg]%elem_of_cons; [by exists evaluate|by apply H].
    - split; [done|]. intros H. by destruct (H None ltac:(by left)) as (f & ? & _). }
  unfold CompositeSafetyGuard_Evaluate. destruct guards as [|guard guards]; [by split; [|intros []]|]. rewrite He. split; [by intros H|tauto].
Qed.

(** ** An observation *)

Definition wg_instance (id : ResourceID) (role : InstanceRole) (gtid : string) : DatabaseInstance :=
  zero_DatabaseInstance <| inst_ResourceID := id |> <| inst_Role := role |>
    <| inst_EngineMetadata := {[ "gtid_executed" := gtid; "read_only" := "false" ]} |>.
Definition wg_before : TopologySnapshot :=
  zero_TopologySnapshot <| topo_ClusterID := w_cluster |> <| topo_ObservedAt := w_now |>
    <| topo_Instances := [wg_instance w_owner RolePrimary "a:1-5"; wg_instance w_fresh RoleReplica "a:1-4"] |>.
Definition wg_after : TopologySnapshot :=
  zero_TopologySnapshot <| topo_ClusterID := w_cluster |> <| topo_ObservedAt := w_now + Second |>
    <| topo_Instances := [wg_instance w_fresh RoleReplica "a:1-9"; wg_instance w_owner RolePrimary "a:1-9"] |>.
Definition wg_operation : Operation := zero_Operation <| opn_ClusterID := w_cluster |>.
Definition wg_digest (o : topologyObservation) : result error string := Ok (String.concat "," (oi_ResourceID <$> to_Instances o)).
Definition wg_text (s : string) : string := s.
Definition wg_token : ObservationToken :=
  match CaptureObservation wg_digest wg_text None (Some (λ _, Some wg_before)) wg_operation with
  | Ok token => token | Err _ => mkObservationToken "" 0 "" wg_before end.
Lemma revalidation_exact_witness :
  RevalidateObservation wg_digest wg_text None (Some (λ _, Some wg_after)) wg_operation wg_token = Ok tt ∧ same_view wg_before wg_after.
Proof.
  assert (RevalidateObservation wg_digest wg_text None (Some (λ _, Some wg_after)) wg_operation wg_token = Ok tt) as Hr by (vm_compute; reflexivity).
  split; [exact Hr|]. revert Hr. apply (revalidation_exact wg_digest wg_text (λ _, Some wg_before) (λ _, Some wg_after) wg_operation wg_token wg_after
    (ot_Digest wg_token)).
  - vm_compute. reflexivity.
  - split; [|apply NoDup_nil_2..]. apply (bool_decide_unpack _). vm_compute. exact I.
  - reflexivity.
  - reflexivity.
  - vm_compute. reflexivity.
  - intros _. vm_compute. reflexivity.
Defined.
Example reconnect_1 : stableReplicationError "error; This was attempt 12/86400, with a delay" = "error; This was attempt */86400, with a delay".
Proof. reflexivity. Qed.
Example reconnect_2 : stableReplicationError "athis was attempt 12/3 this was attempt 4/5x" = "athis was attempt 12/3 this was attempt 4/5x".
Proof. reflexivity. Qed.
