(* ===== verification/MemoryLocks.v ===== *)
(** * internal/workflow: the process-local operation locks

    [gates.go]: [MemoryLocks] is one fair lock per cluster.  Its state is the
    set of active keys and the queue of waiters of each, both under one mutex;
    a waiter is a channel that the release path closes to hand the lock over.
    [CompositeLocks] takes the local lock first and the quorum's second.

    The goroutines that ask for a lock are numbered; what the scheduler may do
    next is [lock_step]: an [acquire] runs up to its [select], a waiter wakes
    because its channel is closed or because its context is done, a holder
    releases. *)
From S2P Require Import Prelude GoStd Model Program WorkflowBase.
#[local] Open Scope Z_scope.

(** ** The state *)

Abbreviation goroutine := nat (only parsing).
(** Where a goroutine is: in the [select] of [acquire], or between [acquire] and [release]. *)
Inductive client : Type := InSelect (key : string) | Holding (key : string).
#[export] Instance client_eq_dec : EqDecision client.
Proof. solve_decision. Defined.
Record MemoryLocks : Type := mkMemoryLocks {
  ml_active : gset string; ml_waiters : gmap string (list goroutine);
  ml_ready : gset goroutine;                          (* the closed channels *)
  ml_clients : gmap goroutine client
}.
#[export] Instance eta_MemoryLocks : Settable MemoryLocks := λ l,
  mkMemoryLocks (ml_active l) (ml_waiters l) (ml_ready l) (ml_clients l).
Definition NewMemoryLocks : MemoryLocks := mkMemoryLocks ∅ ∅ ∅ ∅.
Definition queue_of (l : MemoryLocks) (key : string) : list goroutine := default [] (ml_waiters l !! key).
(** A queue that is empty is deleted. *)
Definition set_queue (key : string) (queue : list goroutine) (l : MemoryLocks) : MemoryLocks :=
  match queue with [] => l <| ml_waiters ::= delete key |> | _ => l <| ml_waiters ::= <[key := queue]> |> end.

(** ** The operations *)

(** [operation.ClusterID], or the operation itself. *)
Definition lock_key (operation : Operation) : string :=
  if opn_ClusterID operation == "" then opn_ResourceID operation else opn_ClusterID operation.
(** [acquire] up to its [select]; an error is an early return. *)
Definition acquire (id : goroutine) (ctx : option error) (key : string) (l : MemoryLocks) : result error MemoryLocks :=
  if key == "" then Err (newError "operation lock resource is required")
  else match ctx with
  | Some e => Err e
  | None =>
      if bool_decide (key ∉ ml_active l) && bool_decide (queue_of l key = []) then
        Ok (l <| ml_active ::= λ active, {[ key ]} ∪ active |> <| ml_clients ::= <[id := Holding key]> |>)
      else
        Ok (l <| ml_waiters ::= <[key := queue_of l key ++ [id]]> |> <| ml_clients ::= <[id := InSelect key]> |>)
  end.
(** The lock is handed to the oldest waiter, or is free. *)
Definition releaseMemoryLease (key : string) (l : MemoryLocks) : MemoryLocks :=
  match queue_of l key with
  | [] => l <| ml_active ::= λ active, active ∖ {[ key ]} |> <| ml_waiters ::= delete key |>
  | next :: queue => set_queue key queue l <| ml_ready ::= λ ready, {[ next ]} ∪ ready |>
  end.
(** The goroutine returns. *)
Definition forget (id : goroutine) (l : MemoryLocks) : MemoryLocks := l <| ml_clients ::= delete id |>.
(** The two cases of the [select]; [ctx] is [ctx.Err()] after the first. *)
Definition woken (id : goroutine) (key : string) (ctx : option error) (l : MemoryLocks) : MemoryLocks :=
  match ctx with
  | Some _ => releaseMemoryLease key (forget id l)
  | None => l <| ml_clients ::= <[id := Holding key]> |>
  end.
Definition canceled (id : goroutine) (key : string) (l : MemoryLocks) : MemoryLocks :=
  let l := forget id l in
  if bool_decide (id ∈ queue_of l key) then set_queue key (filter (λ x, x ≠ id) (queue_of l key)) l
  else releaseMemoryLease key l.
Definition release (id : goroutine) (key : string) (l : MemoryLocks) : MemoryLocks :=
  releaseMemoryLease key (forget id l).

(** ** The scheduler *)

(** A goroutine that starts has a number, and a channel, of its own. *)
Definition unknown (id : goroutine) (l : MemoryLocks) : Prop := ml_clients l !! id = None ∧ id ∉ ml_ready l.
Inductive lock_step (l : MemoryLocks) : MemoryLocks → Prop :=
| step_acquire id key l' : unknown id l → acquire id None key l = Ok l' → lock_step l l'
| step_woken id key ctx : ml_clients l !! id = Some (InSelect key) → id ∈ ml_ready l → lock_step l (woken id key ctx l)
| step_canceled id key : ml_clients l !! id = Some (InSelect key) → lock_step l (canceled id key l)
| step_release id key : ml_clients l !! id = Some (Holding key) → lock_step l (release id key l).

(** ** Composition *)

Inductive composite_action : Type := AcquireLocal | AcquireQuorum | ReleaseQuorum | ReleaseLocal.
Definition composite_answer (c : composite_action) : Type :=
  match c with AcquireLocal | AcquireQuorum => option error | ReleaseQuorum | ReleaseLocal => unit end.
#[export] Instance composite_signature : Signature := {| action := composite_action; answer := composite_answer |}.
Abbreviation composite := (prog (Sg:=composite_signature)) (only parsing).
Definition take (c : composite_action) : composite (composite_answer c) := call (Sg:=composite_signature) c.
(** [None] is success. *)
Definition acquireComposite : composite (option error) :=
  local ←? take AcquireLocal;
  match (local : option error) with
  | Some e => Ret (Some e)
  | None =>
      quorum ←? take AcquireQuorum;
      match (quorum : option error) with
      | Some e => _ ←? take ReleaseLocal; Ret (Some e)
      | None => Ret None
      end
  end.
(** The release function: [done] is the state of its [sync.Once]. *)
Definition release_composite (done : bool) : composite bool :=
  if done then Ret true else _ ←? take ReleaseQuorum; _ ←? take ReleaseLocal; Ret true.

(** ** The invariant *)

Lemma queue_set key q l key' : queue_of (set_queue key q l) key' = if decide (key' = key) then q else queue_of l key'.
Proof.
  unfold queue_of, set_queue. destruct q as [|id q]; cbn; case_decide as Hk; subst.
  - by rewrite lookup_delete_eq.
  - by rewrite lookup_delete_ne.
  - by rewrite lookup_insert_eq.
  - by rewrite lookup_insert_ne.
Qed.
Lemma set_queue_clients key q l : ml_clients (set_queue key q l) = ml_clients l.
Proof. by destruct q. Qed.
Lemma set_queue_ready key q l : ml_ready (set_queue key q l) = ml_ready l.
Proof. by destruct q. Qed.
Lemma set_queue_active key q l : ml_active (set_queue key q l) = ml_active l.
Proof. by destruct q. Qed.
#[local] Arguments set_queue : simpl never.
(** The lock of [key] is [id]'s: it holds it, or it has been handed over. *)
Definition owner (l : MemoryLocks) (id : goroutine) (key : string) : Prop :=
  ml_clients l !! id = Some (Holding key) ∨ ml_clients l !! id = Some (InSelect key) ∧ id ∈ ml_ready l.
(** [orphan] is the key whose owner is about to be replaced. *)
Record locks_ok (orphan : option string) (l : MemoryLocks) : Prop := mk_locks_ok {
  lo_active : ∀ key, key ∈ ml_active l ↔ (∃ id, owner l id key) ∨ orphan = Some key;
  lo_one : ∀ key i j, owner l i key → owner l j key → i = j;
  lo_orphan : ∀ key id, orphan = Some key → ¬ owner l id key;
  lo_queued : ∀ key id, id ∈ queue_of l key ↔ ml_clients l !! id = Some (InSelect key) ∧ id ∉ ml_ready l;
  lo_nodup : ∀ key, NoDup (queue_of l key);
  lo_busy : ∀ key, queue_of l key ≠ [] → key ∈ ml_active l
}.
Lemma new_locks_ok : locks_ok None NewMemoryLocks.
Proof.
  split; cbn; try done.
  - intros key. split; [by intros ?%elem_of_empty|]. intros [(id & [H|[H _]])|H]; [|done..|done]; cbn in H; by rewrite lookup_empty in H.
  - intros key i j [H|[H _]]; cbn in H; by rewrite lookup_empty in H.
  - intros key id. unfold queue_of. cbn. rewrite !lookup_empty. split; [by intros ?%elem_of_nil|by intros []].
  - intros key. unfold queue_of. cbn. rewrite lookup_empty. apply NoDup_nil_2.
Qed.
Lemma owner_released l id key : locks_ok None l → owner l id key → locks_ok (Some key) (forget id l).
Proof.
  intros [Ha H1 _ Hq Hn Hb] Ho.
  assert (∀ i k, owner (forget id l) i k ↔ i ≠ id ∧ owner l i k) as Hown.
  { intros i k. unfold owner. cbn. destruct (decide (i = id)) as [->|Hi]; [rewrite lookup_delete_eq; naive_solver|].
    rewrite lookup_delete_ne by done. tauto. }
  split; cbn [ml_active set_field].
  - intros k. rewrite Ha. split.
    + intros [(i & Hi)|?]; [|done]. destruct (decide (i = id)) as [->|Hne]; [|left; exists i; by apply Hown].
      right. destruct Hi as [Hi|[Hi _]], Ho as [Ho|[Ho _]]; congruence.
    + intros [(i & [_ Hi]%Hown)|[= ->]]; [by left; exists i|by left; exists id].
  - intros k i j [_ Hi]%Hown [_ Hj]%Hown. by eapply H1.
  - intros k i [= ->] [Hne Hi]%Hown. apply Hne. by eapply H1.
  - intros k i. change (queue_of _ k) with (queue_of l k). rewrite Hq. cbn. destruct (decide (i = id)) as [->|Hi].
    + rewrite lookup_delete_eq. split; [|by intros []]. intros [Hi Hr]. destruct Ho as [Ho|[_ Ho]]; [congruence|done].
    + by rewrite lookup_delete_ne.
  - exact Hn.
  - exact Hb.
Qed.
Lemma released_ok key l : locks_ok (Some key) l → locks_ok None (releaseMemoryLease key l).
Proof.
  intros [Ha H1 Ho Hq Hn Hb]. unfold releaseMemoryLease. destruct (queue_of l key) as [|next queue] eqn:Hkey.
  - split; cbn; try done.
    + intros k. rewrite elem_of_difference, elem_of_singleton, Ha. split; [intros [[?|[= ->]] Hk]; [by left|done]|].
      intros [(i & Hi)|?]; [|done]. split; [left; by exists i|]. intros ->. by eapply Ho.
    + intros k i. unfold queue_of. cbn. destruct (decide (k = key)) as [->|Hk]; [rewrite lookup_delete_eq|rewrite lookup_delete_ne by done; apply Hq].
      rewrite <- (Hq key i), Hkey. done.
    + intros k. unfold queue_of. cbn. destruct (decide (k = key)) as [->|Hk]; [rewrite lookup_delete_eq; apply NoDup_nil_2|].
      rewrite lookup_delete_ne by done. apply Hn.
    + intros k. unfold queue_of. cbn. destruct (decide (k = key)) as [->|Hk]; [by rewrite lookup_delete_eq|]. rewrite lookup_delete_ne by done.
      intros H. apply elem_of_difference. split; [by apply Hb|]. by intros ?%elem_of_singleton.
  - assert (ml_clients l !! next = Some (InSelect key) ∧ next ∉ ml_ready l) as [Hc Hr] by (apply Hq; rewrite Hkey; by left).
    pose proof (Hn key) as Hnd. rewrite Hkey in Hnd. apply NoDup_cons in Hnd as [Hnext Hnd].
    assert (∀ i k, owner (set_queue key queue l <| ml_ready ::= λ ready, {[ next ]} ∪ ready |>) i k ↔ owner l i k ∨ i = next ∧ k = key) as Hown.
    { intros i k. unfold owner. rewrite set_queue_clients, set_queue_ready. cbn. rewrite elem_of_union, elem_of_singleton. split; [|naive_solver]. intros [?|[Hi [->|?]]]; [auto| |auto]. right. split; congruence. }
    split.
    + intros k. rewrite set_queue_active. cbn. rewrite Ha. split; [intros [(i & Hi)|[= ->]]; left; [exists i|exists next]; apply Hown; auto|].
      intros [(i & [Hi|[-> ->]]%Hown)|?]; [left; by exists i|by right|done].
    + intros k i j [Hi|[Hi Hk]]%Hown [Hj|[Hj Hk']]%Hown; subst; [by eapply H1|by destruct (Ho key i eq_refl)|by destruct (Ho key j eq_refl)|done].
    + done.
    + intros k i. rewrite queue_set, set_queue_clients, set_queue_ready. cbn. rewrite not_elem_of_union, not_elem_of_singleton.
      change (queue_of _ k) with (queue_of l k).
      case_decide as Hk; [subst k|]; [|rewrite Hq; split; [|tauto]; intros [Hi ?]; split_and!; [done| |done]; intros ->; congruence].
      pose proof (Hq key i) as Hi. rewrite Hkey, elem_of_cons in Hi. split; [|tauto].
      intros Hin. assert (i ≠ next) by (by intros ->). tauto.
    + intros k. rewrite queue_set. case_decide; [done|apply Hn].
    + intros k. rewrite queue_set, set_queue_active. case_decide; [|apply Hb]. subst k. intros _. apply Hb. by rewrite Hkey.
Qed.
(** The steps. *)
Lemma taken_ok id key l : locks_ok None l → unknown id l → key ∉ ml_active l → queue_of l key = [] →
  locks_ok None (l <| ml_active ::= λ active, {[ key ]} ∪ active |> <| ml_clients ::= <[id := Holding key]> |>).
Proof.
  intros [Ha H1 _ Hq Hn Hb] [Hu Hr] Hk Hempty. set (l' := l <| ml_active ::= _ |> <| ml_clients ::= _ |>).
  assert (∀ i k, owner l' i k ↔ owner l i k ∨ i = id ∧ k = key) as Hown.
  { intros i k. unfold owner. cbn. destruct (decide (i = id)) as [->|Hi]; [rewrite lookup_insert_eq, Hu; naive_solver|].
    rewrite lookup_insert_ne by done. naive_solver. }
  assert (∀ i, ¬ owner l i key) as Hfree by (intros i Hi; apply Hk, Ha; left; by exists i).
  split.
  - intros k. cbn. rewrite elem_of_union, elem_of_singleton, Ha. split.
    + intros [->|[(i & Hi)|?]]; [left; exists id; apply Hown; auto|left; exists i; apply Hown; auto|done].
    + intros [(i & [Hi|[_ ->]]%Hown)|?]; [right; left; by exists i|by left|done].
  - intros k i j [Hi|[Hi Hk1]]%Hown [Hj|[Hj Hk2]]%Hown; subst; [by eapply H1|by destruct (Hfree i)|by destruct (Hfree j)|done].
  - done.
  - intros k i. change (queue_of l' k) with (queue_of l k). rewrite Hq. cbn.
    destruct (decide (i = id)) as [->|Hi]; [rewrite lookup_insert_eq, Hu; naive_solver|by rewrite lookup_insert_ne].
  - exact Hn.
  - intros k H. cbn. apply elem_of_union. right. by apply Hb.
Qed.
Lemma enqueued_ok id key l : locks_ok None l → unknown id l → key ∈ ml_active l →
  locks_ok None (l <| ml_waiters ::= <[key := queue_of l key ++ [id]]> |> <| ml_clients ::= <[id := InSelect key]> |>).
Proof.
  intros [Ha H1 _ Hq Hn Hb] [Hu Hr] Hk. set (l' := l <| ml_waiters ::= _ |> <| ml_clients ::= _ |>).
  assert (∀ i k, owner l' i k ↔ owner l i k) as Hown.
  { intros i k. unfold owner. cbn. destruct (decide (i = id)) as [->|Hi]; [rewrite lookup_insert_eq, Hu; naive_solver|].
    by rewrite lookup_insert_ne. }
  assert (∀ k, queue_of l' k = if decide (k = key) then queue_of l key ++ [id] else queue_of l k) as Hqueue.
  { intros k. unfold queue_of. cbn. case_decide; subst; [by rewrite lookup_insert_eq|by rewrite lookup_insert_ne]. }
  assert (∀ k, id ∉ queue_of l k) as Hid by (intros k [Hi _]%Hq; congruence).
  split.
  - intros k. change (ml_active l') with (ml_active l). rewrite Ha. by setoid_rewrite Hown.
  - intros k i j Hi%Hown Hj%Hown. by eapply H1.
  - done.
  - intros k i. rewrite Hqueue. cbn. destruct (decide (i = id)) as [->|Hi].
    + rewrite lookup_insert_eq. case_decide as Hkk; [subst; rewrite elem_of_app, list_elem_of_singleton; naive_solver|].
      split; [by intros ?%Hid|]. intros [[= <-] _]. done.
    + rewrite lookup_insert_ne by done. case_decide as Hkk; [subst|by rewrite Hq]. rewrite elem_of_app, list_elem_of_singleton, Hq. naive_solver.
  - intros k. rewrite Hqueue. case_decide; [|apply Hn]. apply NoDup_app. split_and!; [apply Hn| |apply NoDup_singleton].
    intros i Hi ->%list_elem_of_singleton. by apply (Hid key).
  - intros k. rewrite Hqueue. case_decide; [by subst|apply Hb].
Qed.
Lemma acquired_ok id key l l' : locks_ok None l → unknown id l → acquire id None key l = Ok l' → locks_ok None l'.
Proof.
  intros Hl Hu. unfold acquire. destruct (key == ""); [done|]. destruct (_ && _) eqn:Hfree; intros [= <-].
  - apply andb_true_iff in Hfree as [H1%bool_decide_eq_true H2%bool_decide_eq_true]. by apply taken_ok.
  - apply enqueued_ok; [done..|]. destruct (decide (key ∈ ml_active l)) as [|Hk]; [done|]. rewrite bool_decide_true in Hfree by done.
    apply bool_decide_eq_false in Hfree. by apply (lo_busy _ _ Hl).
Qed.
Lemma woken_ok id key l : locks_ok None l → ml_clients l !! id = Some (InSelect key) → id ∈ ml_ready l →
  locks_ok None (l <| ml_clients ::= <[id := Holding key]> |>).
Proof.
  intros [Ha H1 _ Hq Hn Hb] Hc Hr. set (l' := l <| ml_clients ::= _ |>).
  assert (∀ i k, owner l' i k ↔ owner l i k) as Hown.
  { intros i k. unfold owner. cbn. destruct (decide (i = id)) as [->|Hi]; [rewrite lookup_insert_eq, Hc; naive_solver|by rewrite lookup_insert_ne]. }
  split; [|by intros k i j Hi%Hown Hj%Hown; eapply H1|done| |exact Hn|exact Hb].
  - intros k. change (ml_active l') with (ml_active l). rewrite Ha. by setoid_rewrite Hown.
  - intros k i. change (queue_of l' k) with (queue_of l k). rewrite Hq. cbn.
    destruct (decide (i = id)) as [->|Hi]; [rewrite lookup_insert_eq; naive_solver|by rewrite lookup_insert_ne].
Qed.
Lemma dequeued_ok id key l : locks_ok None l → id ∈ queue_of l key →
  locks_ok None (set_queue key (filter (λ x, x ≠ id) (queue_of l key)) (forget id l)).
Proof.
  intros [Ha H1 _ Hq Hn Hb] Hin. pose proof Hin as [Hc Hr]%Hq. set (l' := set_queue _ _ _).
  assert (∀ i k, owner l' i k ↔ owner l i k) as Hown.
  { intros i k. unfold owner, l'. rewrite set_queue_clients, set_queue_ready. cbn.
    destruct (decide (i = id)) as [->|Hi]; [rewrite lookup_delete_eq, Hc; naive_solver|by rewrite lookup_delete_ne]. }
  assert (∀ k, queue_of l' k = if decide (k = key) then filter (λ x, x ≠ id) (queue_of l key) else queue_of l k) as Hqueue.
  { intros k. unfold l'. rewrite queue_set. by case_decide. }
  split; [|by intros k i j Hi%Hown Hj%Hown; eapply H1|done|..].
  - intros k. unfold l' at 1. rewrite set_queue_active. change (ml_active _) with (ml_active l). rewrite Ha. by setoid_rewrite Hown.
  - intros k i. rewrite Hqueue. unfold l'. rewrite set_queue_clients, set_queue_ready. cbn. destruct (decide (i = id)) as [->|Hi].
    + rewrite lookup_delete_eq. case_decide as Hk; [rewrite list_elem_of_filter; naive_solver|]. rewrite Hq, Hc. naive_solver.
    + rewrite lookup_delete_ne by done. case_decide as Hk; [subst; rewrite list_elem_of_filter, Hq|rewrite Hq]; naive_solver.
  - intros k. rewrite Hqueue. case_decide; [apply NoDup_filter|]; apply Hn.
  - intros k. rewrite Hqueue. unfold l'. rewrite set_queue_active. change (ml_active _) with (ml_active l). case_decide; [|apply Hb].
    subst. intros _. apply Hb. intros He. rewrite He in Hin. by apply elem_of_nil in Hin.
Qed.
Lemma lock_step_ok l l' : locks_ok None l → lock_step l l' → locks_ok None l'.
Proof.
  intros Hl [id key l1 Hu Ha|id key ctx Hc Hr|id key Hc|id key Hc].
  - by eapply acquired_ok.
  - unfold woken. destruct ctx as [e|]; [|by apply woken_ok]. apply released_ok, owner_released; [done|by right].
  - unfold canceled. case_bool_decide as Hin; [exact (dequeued_ok id key l Hl Hin)|]. apply released_ok, owner_released; [done|]. right.
    split; [done|]. destruct (decide (id ∈ ml_ready l)) as [|Hr]; [done|]. destruct Hin. change (queue_of _ key) with (queue_of l key).
    by apply (lo_queued _ _ Hl).
  - apply released_ok, owner_released; [done|by left].
Qed.
Lemma steps_locks_ok l : rtc lock_step NewMemoryLocks l → locks_ok None l.
Proof.
  intros Hr. pattern l. eapply rtc_ind_r; [exact new_locks_ok| |exact Hr]. intros l1 l2 _ Hs Hok. by eapply lock_step_ok.
Qed.
(** A closed channel is that of the head of a queue. *)
Lemma released_head key l id : id ∈ ml_ready (releaseMemoryLease key l) → id ∉ ml_ready l → ∃ queue, queue_of l key = id :: queue.
Proof.
  unfold releaseMemoryLease. destruct (queue_of l key) as [|next queue]; [done|]. rewrite set_queue_ready. cbn.
  intros [Hi%elem_of_singleton|?]%elem_of_union ?; [|done]. subst. by exists queue.
Qed.
Lemma released_queue key l k : ∃ new, queue_of l k = new ++ queue_of (releaseMemoryLease key l) k.
Proof.
  unfold releaseMemoryLease. destruct (queue_of l key) as [|next queue] eqn:Hk.
  - unfold queue_of in *. cbn. destruct (decide (k = key)) as [->|]; [rewrite lookup_delete_eq, Hk|rewrite lookup_delete_ne by done]; by exists [].
  - rewrite queue_set. change (queue_of (l <| ml_ready ::= _ |>) k) with (queue_of l k). case_decide; [subst; by exists [next]|by exists []].
Qed.
(** A queue only loses waiters, or gains one at its end. *)
Definition queue_moves (queue queue' : list goroutine) : Prop := queue' `sublist_of` queue ∨ ∃ id, queue' = queue ++ [id].
Lemma step_queue l l' key : lock_step l l' → queue_moves (queue_of l key) (queue_of l' key).
Proof.
  assert (∀ l k, queue_moves (queue_of l key) (queue_of (releaseMemoryLease k l) key)) as Hrel.
  { intros l0 k. left. destruct (released_queue k l0 key) as [new ->]. by apply sublist_inserts_l. }
  intros [id k l1 Hu Ha|id k ctx Hc Hr|id k Hc|id k Hc].
  - unfold acquire in Ha. destruct (k == ""); [done|]. destruct (_ && _); injection Ha as <-; [by left|].
    unfold queue_of at 2. cbn. destruct (decide (key = k)) as [->|]; [rewrite lookup_insert_eq; right; by exists id|].
    rewrite lookup_insert_ne by done. by left.
  - unfold woken. destruct ctx; [exact (Hrel (forget id l) k)|by left].
  - unfold canceled. case_bool_decide; [|exact (Hrel (forget id l) k)]. rewrite queue_set.
    case_decide; [subst; left; apply sublist_filter|by left].
  - exact (Hrel (forget id l) k).
Qed.
Lemma step_ready l l' id : lock_step l l' → id ∈ ml_ready l' → id ∉ ml_ready l → ∃ key queue, queue_of l key = id :: queue.
Proof.
  intros [i k l1 Hu Ha|i k ctx Hc Hr|i k Hc|i k Hc] Hin Hout.
  - unfold acquire in Ha. destruct (k == ""); [done|]. destruct (_ && _); by injection Ha as <-.
  - unfold woken in Hin. destruct ctx; [|done]. exists k. exact (released_head k (forget i l) id Hin Hout).
  - unfold canceled in Hin. case_bool_decide; [by rewrite set_queue_ready in Hin|]. exists k. exact (released_head k (forget i l) id Hin Hout).
  - exists k. exact (released_head k (forget i l) id Hin Hout).
Qed.

(** ** Properties *)

(** C28: The local operation locks are exclusive, fair and never lost, whatever
    the order in which goroutines ask, give up, wake and release: at most one
    goroutine owns the lock of a cluster; a lock is marked active exactly
    while a goroutine holds it or has been handed it, so a waiter can only be
    waiting for such a goroutine, and a free lock has no waiters; the queue
    loses waiters or gains one at its end, never reordering them; and the lock
    is only ever handed to the oldest waiter. *)
Theorem memory_locks_fair l : rtc lock_step NewMemoryLocks l →
  (∀ key i j, owner l i key → owner l j key → i = j) ∧
  (∀ key, key ∈ ml_active l ↔ ∃ id, owner l id key) ∧
  (∀ key id, ml_clients l !! id = Some (InSelect key) → id ∈ ml_ready l ∨ id ∈ queue_of l key ∧ ∃ other, owner l other key ∧ other ≠ id) ∧
  ∀ l', lock_step l l' →
    (∀ key, queue_moves (queue_of l key) (queue_of l' key)) ∧
    ∀ id, id ∈ ml_ready l' → id ∉ ml_ready l → ∃ key queue, queue_of l key = id :: queue ∧ ml_clients l !! id = Some (InSelect key).
Proof.
  intros Hr. pose proof (steps_locks_ok _ Hr) as [Ha H1 _ Hq Hn Hb]. split_and!.
  - exact H1.
  - intros key. rewrite Ha. split; [intros [?|?]; done|by left].
  - intros key id Hc. destruct (decide (id ∈ ml_ready l)) as [|Hid]; [by left|right]. assert (id ∈ queue_of l key) as Hin by by apply Hq.
    split; [done|]. destruct (proj1 (Ha key)) as [[other Ho]|?]; [apply Hb; intros He; rewrite He in Hin; by apply elem_of_nil in Hin| |done].
    exists other. split; [done|]. intros ->. destruct Ho as [Ho|[_ Ho]]; [congruence|done].
  - intros l' Hs. split; [intros key; by apply step_queue|]. intros id Hin Hout. destruct (step_ready _ _ _ Hs Hin Hout) as (key & queue & Hk).
    exists key, queue. split; [done|]. apply Hq. rewrite Hk. by left.
Qed.
Lemma memory_locks_fair_witness : ∃ l, rtc lock_step NewMemoryLocks l ∧ queue_of l "c" = [2%nat] ∧ owner l 1%nat "c" ∧
  ∀ i j, owner l i "c" → owner l j "c" → i = j.
Proof.
  set (l1 := mkMemoryLocks {[ "c" ]} ∅ ∅ {[ 0%nat := Holding "c" ]}).
  assert (lock_step NewMemoryLocks l1) as H1 by (by apply (step_acquire _ 0%nat "c"); [split|]).
  set (l2 := match acquire 1%nat None "c" l1 with Ok l => l | Err _ => l1 end). set (l3 := match acquire 2%nat None "c" l2 with Ok l => l | Err _ => l2 end).
  assert (lock_step l1 l2) as H2 by (by apply (step_acquire _ 1%nat "c"); [split|]).
  assert (lock_step l2 l3) as H3 by (by apply (step_acquire _ 2%nat "c"); [split|]).
  assert (lock_step l3 (release 0%nat "c" l3)) as H4 by by apply step_release.
  assert (rtc lock_step NewMemoryLocks (release 0%nat "c" l3)) as Hr by (eapply rtc_l; [exact H1|]; eapply rtc_l; [exact H2|]; eapply rtc_l; [exact H3|]; by apply rtc_once).
  exists (release 0%nat "c" l3). split; [exact Hr|]. split; [reflexivity|]. split; [right; split; [reflexivity|apply elem_of_union; left; by apply elem_of_singleton]|].
  intros i j. exact (proj1 (memory_locks_fair _ Hr) "c" i j).
Defined.

(** The two locks of a composition: an error leaves neither held. *)
Lemma acquireComposite_balanced t o : runs (Sg:=composite_signature) acquireComposite t o →
  match o with
  | None => t = [existT AcquireLocal None; existT AcquireQuorum None]
  | Some e => t = [existT AcquireLocal (Some e)] ∨ t = [existT AcquireLocal None; existT AcquireQuorum (Some e); existT ReleaseLocal tt]
  end.
Proof.
  intros (local & t1 & -> & Hr)%runs_inv. destruct local as [e|]; [apply runs_inv in Hr as [-> ->]; by left|].
  apply runs_inv in Hr as (quorum & t2 & -> & Hr). destruct quorum as [e|]; [|by apply runs_inv in Hr as [-> ->]].
  apply runs_inv in Hr as ([] & t3 & -> & Hr). apply runs_inv in Hr as [-> ->]. by right.
Qed.
