(* ===== verification/Resolver.v ===== *)
(** * internal/workflow: resolving an operation against the inventory

    [resolver.go]: a request names a cluster and a target by identifier; the
    resolver looks them up in the stored topology (or in the one a workflow
    captured), decides which instance is the source and attaches the
    credentials.  What the reader and the credential provider answer are
    arguments. *)
From S2P Require Import Prelude GoStd Model Endpoint Lease Locks Repository Operations Interfaces Candidates Program MySQLAdapter WorkflowBase.
#[local] Open Scope Z_scope.

(** ** Parameters and probes *)

Definition endpointParameterNames : list string :=
  ["host"; "hostname"; "ip"; "ip_address"; "port"; "primary_host"; "primary_hostname"; "primary_ip"; "primary_port"; "source_host";
   "source_hostname"; "source_ip"; "source_port"; "target_host"; "target_hostname"; "target_ip"; "target_port"].
Definition rejectsEndpointParameters (parameters : gmap string string) : bool :=
  existsb (λ kv, bool_decide (ToLower (TrimSpace kv.1) ∈ endpointParameterNames)) (map_to_list parameters).
Definition operationRequiresReplicationCredentials (engine : Engine) : bool :=
  match engine with EngineOracle | EngineSQLServer => false | _ => true end.
Definition failing_state (health : Health) : bool := (health_State health == HealthUnknown) || (health_State health == HealthUnhealthy).
(** The probes of an instance: there is one, and all are as they should be. *)
Definition probes_of (snapshot : TopologySnapshot) (instanceID : ResourceID) : list ProbeStatus :=
  filter (λ probe, probe_InstanceID probe = instanceID) (topo_Probes snapshot).
Definition all_probes (good : ProbeStatus → bool) (snapshot : TopologySnapshot) (instanceID : ResourceID) : bool :=
  forallb good (probes_of snapshot instanceID) && negb (bool_decide (probes_of snapshot instanceID = [])).
Definition resolverCurrentSuccessfulProbe (snapshot : TopologySnapshot) : ResourceID → bool :=
  all_probes (λ probe, Equal (probe_DiscoveryObservedAt probe) (topo_ObservedAt snapshot) && (health_State (probe_Health probe) == HealthHealthy))
    snapshot.
Definition resolverCurrentFailedProbe (snapshot : TopologySnapshot) : ResourceID → bool :=
  all_probes (λ probe, IsZero (probe_DiscoveryObservedAt probe) && Equal (health_ObservedAt (probe_Health probe)) (topo_ObservedAt snapshot) &&
                       failing_state (probe_Health probe)) snapshot.
Definition resolverCurrentDatabaseFailureProbe (snapshot : TopologySnapshot) : ResourceID → bool :=
  all_probes (λ probe, (probe_Outcome probe == ProbeOutcomeDatabaseUnavailable) && IsZero (probe_DiscoveryObservedAt probe) &&
                       Equal (health_ObservedAt (probe_Health probe)) (topo_ObservedAt snapshot) && failing_state (probe_Health probe)) snapshot.
Definition metadata_false (instance : DatabaseInstance) (name : string) : bool :=
  EqualFold (TrimSpace (default "" (inst_EngineMetadata instance !! name))) "false".
Definition resolverPrimaryProvenWritable (instance : DatabaseInstance) : bool :=
  match inst_Engine instance with
  | EngineMySQL => metadata_false instance "read_only" && metadata_false instance "super_read_only"
  | EnginePostgreSQL => metadata_false instance "in_recovery" && metadata_false instance "transaction_read_only"
  | _ => false
  end.

(** ** The primary of a rejoin *)

Definition rejoin_step (snapshot : TopologySnapshot) (target primary instance : DatabaseInstance) : result unit DatabaseInstance :=
  if inst_Role instance != RolePrimary then Ok primary
  else if inst_ResourceID instance == inst_ResourceID target then
    _ ← require (resolverCurrentFailedProbe snapshot (inst_ResourceID instance)) tt; Ok primary
  else
    _ ← reject ((health_State (inst_Health instance) != HealthHealthy) || negb (resolverPrimaryProvenWritable instance) ||
                negb (resolverCurrentSuccessfulProbe snapshot (inst_ResourceID instance)) || (inst_ResourceID primary != "")) tt;
    Ok instance.
Definition resolveFormerPrimaryRejoinPrimary (snapshot : TopologySnapshot) (target : DatabaseInstance) : option DatabaseInstance :=
  match for_each (rejoin_step snapshot target) zero_DatabaseInstance (topo_Instances snapshot) with
  | Ok primary => if ValidResourceID (inst_ResourceID primary) then Some primary else None
  | Err _ => None
  end.

(** ** Resolving *)

Section resolver.
(** [resolver.Reader] and [resolver.Credentials], which may be nil. *)
Variables (configured : bool) (Cluster : ResourceID → option DatabaseCluster) (ReadSnapshot : ResourceID → option TopologySnapshot)
  (Credentials : DatabaseCluster → result error OperationCredentials).
(** What the loop over the instances has found. *)
Record Found : Type := mkFound { fd_primary : DatabaseInstance; fd_target : DatabaseInstance; fd_explicit : DatabaseInstance; fd_count : Z }.
Definition instance_step (request : Request) (cluster : DatabaseCluster) (found : Found) (instance : DatabaseInstance) : result error Found :=
  _ ← reject ((inst_ClusterID instance != cluster_ResourceID cluster) || (inst_Engine instance != cluster_Engine cluster) ||
              negb (ValidResourceID (inst_ResourceID instance)))
        (newError "topology contains an instance outside the selected cluster inventory");
  let '(primary, count) :=
    match rq_Plan request with
    | Some plan => (if inst_ResourceID instance == plan_SourceID plan then instance else fd_primary found, fd_count found)
    | None => if inst_Role instance == RolePrimary then (instance, fd_count found + 1) else (fd_primary found, fd_count found)
    end in
  Ok (mkFound primary (if inst_ResourceID instance == rq_TargetID request then instance else fd_target found)
        (if inst_ResourceID instance == rq_SourceID request then instance else fd_explicit found) count).
Definition plan_resources (request : Request) : result error unit :=
  match rq_Plan request with
  | None => Ok tt
  | Some plan =>
      _ ← reject (negb (ValidResourceID (plan_SourceID plan)) || negb (ValidResourceID (plan_TargetID plan)) ||
                  (plan_TargetID plan != rq_TargetID request)) (newError "operation plan resources are invalid for verification");
      reject ((plan_SourceID plan == plan_TargetID plan) && (opn_Kind (rq_Operation request) != OperationPowerShutdown))
        (newError "operation plan source and target must differ")
  end.
(** An automatic failover names its source, which must be failed. *)
Definition explicit_source (request : Request) (snapshot : TopologySnapshot) (source : DatabaseInstance) : result error DatabaseInstance :=
  _ ← reject (negb (ValidResourceID (rq_SourceID request)) || (inst_ResourceID source == ""))
        (newError "automatic failover source is not in the selected cluster inventory");
  _ ← require (failing_state (inst_Health source)) (newError "automatic failover source is not failed");
  _ ← require (resolverCurrentDatabaseFailureProbe snapshot (inst_ResourceID source))
        (newError "automatic failover source has no current database-failure evidence");
  _ ← reject (existsb (λ instance, (inst_Role instance == RolePrimary) && (inst_ResourceID instance != inst_ResourceID source))
                (topo_Instances snapshot))
        (newError "automatic failover is blocked because another primary is already observed");
  Ok source.
Definition resolve_primary (request : Request) (snapshot : TopologySnapshot) (found : Found) : result error DatabaseInstance :=
  if bool_decide (is_Some (rq_Plan request)) then
    _ ← reject (inst_ResourceID (fd_primary found) == "") (newError "operation plan source is not in the selected cluster inventory");
    Ok (fd_primary found)
  else if (opn_Kind (rq_Operation request) == OperationFailover) && (rq_SourceID request != "") then
    explicit_source request snapshot (fd_explicit found)
  else if opn_Kind (rq_Operation request) == OperationFormerPrimaryRejoin then
    match resolveFormerPrimaryRejoinPrimary snapshot (fd_target found) with
    | Some primary => Ok primary
    | None => Err (newError "exactly one current primary is required")
    end
  else
    _ ← require (fd_count found =? 1) (newError "exactly one current primary is required");
    Ok (fd_primary found).
Definition resolve_snapshot (captured : option TopologySnapshot) (cluster : DatabaseCluster) : result error TopologySnapshot :=
  match (match captured with Some snapshot => Some snapshot | None => ReadSnapshot (cluster_ResourceID cluster) end) with
  | None => Err (newError "a current topology observation is required")
  | Some snapshot =>
      _ ← reject (IsZero (topo_ObservedAt snapshot)) (newError "a current topology observation is required");
      _ ← reject (topo_ClusterID snapshot != cluster_ResourceID cluster) (newError "topology observation belongs to another cluster");
      Ok snapshot
  end.
Definition resolve_cluster (ctx : option error) (request : Request) : result error DatabaseCluster :=
  match ctx with
  | Some e => Err e
  | None =>
      _ ← require configured (newError "operation resolver is not configured");
      _ ← require (ValidResourceID (opn_ClusterID (rq_Operation request))) (newError "operation cluster ID is invalid");
      _ ← require (ValidResourceID (rq_TargetID request)) (newError "operation target ID is invalid");
      _ ← reject (rejectsEndpointParameters (rq_Parameters request))
            (newError "endpoint parameters are not accepted; select inventory resources by UUID");
      _ ← reject ((rq_SourceID request != "") && ((opn_Kind (rq_Operation request) != OperationFailover) ||
                                                 (opn_RequestedBy (rq_Operation request) != AutomaticRecoveryActor)))
            (newError "explicit operation source is reserved for automatic failover");
      match Cluster (opn_ClusterID (rq_Operation request)) with
      | None => Err (newError "selected cluster does not exist")
      | Some cluster =>
          _ ← reject (cluster_Engine cluster != opn_Engine (rq_Operation request))
                (newError "operation engine does not match the selected cluster");
          Ok cluster
      end
  end.
Definition resolve_credentials (cluster : DatabaseCluster) : result error OperationCredentials :=
  match Credentials cluster with
  | Err e => Err (wrapError "resolve operation credentials: " e)
  | Ok credentials =>
      _ ← reject (TrimSpace (cr_Username (oc_Administrative credentials)) == "") (newError "resolved operation credentials have no username");
      _ ← reject (operationRequiresReplicationCredentials (cluster_Engine cluster) &&
                  (TrimSpace (cr_Username (oc_Replication credentials)) == "")) (newError "resolved replication credentials have no username");
      Ok credentials
  end.
Definition resolved_request (request : Request) (cluster : DatabaseCluster) (snapshot : TopologySnapshot) (primary target : DatabaseInstance)
    (credentials : OperationCredentials) : Request :=
  request <| rq_Credentials := oc_Administrative credentials |> <| rq_ReplicationCredentials := oc_Replication credentials |>
    <| rq_Resolved := Some (mkMySQLOperation
         (mkResolved (opn_ResourceID (rq_Operation request)) (rq_AutomaticFailureIncidentAt request) cluster snapshot primary target
            (match rq_Plan request with Some plan => plan_Digest plan | None => "" end) "")
         "" (oc_Administrative credentials) (oc_Replication credentials)) |>.
Definition resolve (ctx : option error) (request : Request) (captured : option TopologySnapshot) : result error Request :=
  cluster ← resolve_cluster ctx request;
  snapshot ← resolve_snapshot captured cluster;
  _ ← plan_resources request;
  found ← for_each (instance_step request cluster) (mkFound zero_DatabaseInstance zero_DatabaseInstance zero_DatabaseInstance 0)
            (topo_Instances snapshot);
  primary ← resolve_primary request snapshot found;
  let target := fd_target found in
  _ ← reject (inst_ResourceID target == "") (newError "target is not in the selected cluster inventory");
  _ ← reject (negb (bool_decide (is_Some (rq_Plan request))) && (inst_ResourceID target == inst_ResourceID primary) &&
              (opn_Kind (rq_Operation request) != OperationPowerShutdown)) (newError "target must differ from the current primary");
  credentials ← resolve_credentials cluster;
  Ok (resolved_request request cluster snapshot primary target credentials).
Definition Resolve (ctx : option error) (request : Request) : result error Request := resolve ctx request None.
Definition ResolveCaptured (ctx : option error) (request : Request) (snapshot : TopologySnapshot) : result error Request :=
  resolve ctx request (Some snapshot).
(** The snapshot a workflow captured is used, when there is one. *)
Definition resolveCapturedOperation (ctx : option error) (request : Request) (observation : ObservationToken) : result error Request :=
  if topo_ClusterID (ot_Snapshot observation) != "" then ResolveCaptured ctx request (ot_Snapshot observation) else Resolve ctx request.
End resolver.

(** ** What is resolved *)

Lemma found_loop request cluster l found :
  for_each (instance_step request cluster) (mkFound zero_DatabaseInstance zero_DatabaseInstance zero_DatabaseInstance 0) l = Ok found →
  (∀ i, i ∈ l → inst_ClusterID i = cluster_ResourceID cluster ∧ inst_Engine i = cluster_Engine cluster ∧ ValidResourceID (inst_ResourceID i) = true) ∧
  (inst_ResourceID (fd_target found) ≠ "" → fd_target found ∈ l ∧ inst_ResourceID (fd_target found) = rq_TargetID request) ∧
  (inst_ResourceID (fd_explicit found) ≠ "" → fd_explicit found ∈ l ∧ inst_ResourceID (fd_explicit found) = rq_SourceID request) ∧
  match rq_Plan request with
  | Some plan => inst_ResourceID (fd_primary found) ≠ "" → fd_primary found ∈ l ∧ inst_ResourceID (fd_primary found) = plan_SourceID plan
  | None => fd_count found = Z.of_nat (length (filter (λ i, inst_Role i = RolePrimary) l)) ∧
      (filter (λ i, inst_Role i = RolePrimary) l ≠ [] → fd_primary found ∈ filter (λ i, inst_Role i = RolePrimary) l)
  end.
Proof.
  intros H. pattern l, found. eapply for_each_inv; [exact H|clear H..].
  { split; [by intros i ?%elem_of_nil|]. split; [done|]. split; [done|]. destruct (rq_Plan request); [done|by split]. }
  intros pre a post found1 found2 _ (Hall & Ht & He & Hp) Hs. apply reject_bind in Hs as [Hg Hs].
  assert (∀ (i : DatabaseInstance), i ∈ pre ++ [a] ↔ i ∈ pre ∨ i = a) as Hin by (intros i; by rewrite elem_of_app, list_elem_of_singleton).
  split; [intros i [Hi|Hi]%Hin; [by apply Hall|subst i; repeat bsimpl_step; done]|]. clear Hg Hall.
  destruct (rq_Plan request) as [plan|]; [|destruct (bool_decide_reflect (inst_Role a = RolePrimary)) as [Hr|Hr]]; injection Hs as <-; cbn;
    (split; [case_bool_decide as Hid; [intros _; split; [apply Hin; by right|done]|intros Hn; destruct (Ht Hn); split; [apply Hin; by left|done]]|]);
    (split; [case_bool_decide as Hid; [intros _; split; [apply Hin; by right|done]|intros Hn; destruct (He Hn); split; [apply Hin; by left|done]]|]).
  - case_bool_decide as Hid; [intros _; split; [apply Hin; by right|done]|intros Hn; destruct (Hp Hn); split; [apply Hin; by left|done]].
  - rewrite filter_app, filter_cons_True, filter_nil, length_app by done. destruct Hp as [-> _]. split; [cbn; lia|].
    intros _. apply elem_of_app. right. by left.
  - rewrite filter_app, filter_cons_False, filter_nil, app_nil_r by done. exact Hp.
Qed.
(** The source of a rejoin is the one healthy primary that is proven writable; the target may still look like a primary that fails. *)
Record rejoin_source (snapshot : TopologySnapshot) (target primary : DatabaseInstance) : Prop := mk_rejoin_source {
  rj_primary : primary ∈ topo_Instances snapshot ∧ inst_Role primary = RolePrimary ∧ inst_ResourceID primary ≠ inst_ResourceID target;
  rj_healthy : health_State (inst_Health primary) = HealthHealthy;
  rj_writable : resolverPrimaryProvenWritable primary = true;
  rj_current : resolverCurrentSuccessfulProbe snapshot (inst_ResourceID primary) = true;
  rj_only : ∀ i, i ∈ topo_Instances snapshot → inst_Role i = RolePrimary → i ≠ primary →
    inst_ResourceID i = inst_ResourceID target ∧ resolverCurrentFailedProbe snapshot (inst_ResourceID i) = true
}.
Lemma rejoin_steps snapshot target l p : (∀ i, i ∈ l → i ∈ topo_Instances snapshot ∧ inst_ResourceID i ≠ "") →
  for_each (rejoin_step snapshot target) zero_DatabaseInstance l = Ok p →
  (∀ i, i ∈ l → inst_Role i = RolePrimary → i = p ∨ inst_ResourceID i = inst_ResourceID target ∧ resolverCurrentFailedProbe snapshot (inst_ResourceID i) = true) ∧
  (inst_ResourceID p ≠ "" → p ∈ topo_Instances snapshot ∧ inst_Role p = RolePrimary ∧ inst_ResourceID p ≠ inst_ResourceID target ∧
    health_State (inst_Health p) = HealthHealthy ∧ resolverPrimaryProvenWritable p = true ∧ resolverCurrentSuccessfulProbe snapshot (inst_ResourceID p) = true).
Proof.
  intros Hl Hrun. revert Hl. pattern l, p. eapply for_each_inv; [exact Hrun|intros _; split; [by intros i ?%elem_of_nil|done]|]. clear Hrun.
  intros pre a post p1 p2 _ IH Hs Hl. destruct IH as [Hall Hp]; [intros i Hi; apply Hl, elem_of_app; by left|].
  destruct (Hl a) as [Ha _]; [apply elem_of_app; right; by left|].
  assert (∀ i, i ∈ pre → inst_ResourceID i ≠ "") as Hne by (intros i Hi; apply Hl, elem_of_app; by left). clear Hl.
  unfold rejoin_step in Hs. destruct (bool_decide_reflect (inst_Role a = RolePrimary)) as [Hr|Hr]; cbn [negb] in Hs.
  2: { injection Hs as <-. split; [|done]. intros i [Hi|Hi%list_elem_of_singleton]%elem_of_app Hri; [by apply Hall|by subst]. }
  destruct (bool_decide_reflect (inst_ResourceID a = inst_ResourceID target)) as [Ht|Ht].
  - apply require_bind in Hs as [Hf [= <-]]. split; [|done]. intros i [Hi|Hi%list_elem_of_singleton]%elem_of_app Hri; [by apply Hall|subst; by right].
  - apply reject_bind in Hs as [Hg [= <-]]. repeat bsimpl_step. split; [|done].
    intros i [Hi|Hi%list_elem_of_singleton]%elem_of_app Hri; [|by left]. right.
    destruct (Hall i Hi Hri) as [->|?]; [|done]. by destruct (Hne p1 Hi).
Qed.
Lemma rejoin_loop snapshot target primary : (∀ i, i ∈ topo_Instances snapshot → ValidResourceID (inst_ResourceID i) = true) →
  resolveFormerPrimaryRejoinPrimary snapshot target = Some primary → rejoin_source snapshot target primary.
Proof.
  intros Hvalid. unfold resolveFormerPrimaryRejoinPrimary. destruct (for_each _ _ _) as [p|] eqn:H; [|done].
  destruct (ValidResourceID (inst_ResourceID p)) eqn:Hv; [|done]. intros [= <-]. apply rejoin_steps in H as [Hall Hp].
  - destruct Hp as (?&?&?&?&?&?); [by intros He; rewrite He in Hv|]. split; [done..|]. intros i Hi Hr Hn. by destruct (Hall i Hi Hr).
  - intros i Hi. split; [done|]. intros He. apply Hvalid in Hi. by rewrite He in Hi.
Qed.

(** What entitles an instance to be the source. *)
Definition entitled (request : Request) (snapshot : TopologySnapshot) (target primary : DatabaseInstance) : Prop :=
  match rq_Plan request with
  | Some plan => inst_ResourceID primary = plan_SourceID plan ∧ plan_TargetID plan = rq_TargetID request
  | None =>
      if decide (opn_Kind (rq_Operation request) = OperationFailover ∧ rq_SourceID request ≠ "") then
        opn_RequestedBy (rq_Operation request) = AutomaticRecoveryActor ∧ inst_ResourceID primary = rq_SourceID request ∧
        failing_state (inst_Health primary) = true ∧ resolverCurrentDatabaseFailureProbe snapshot (inst_ResourceID primary) = true ∧
        ∀ i, i ∈ topo_Instances snapshot → inst_Role i = RolePrimary → inst_ResourceID i = rq_SourceID request
      else if decide (opn_Kind (rq_Operation request) = OperationFormerPrimaryRejoin) then rejoin_source snapshot target primary
      else filter (λ i, inst_Role i = RolePrimary) (topo_Instances snapshot) = [primary]
  end.
Lemma one_primary {A} (P : A → Prop) `{!∀ x, Decision (P x)} l x : Z.of_nat (length (filter P l)) = 1 → (filter P l ≠ [] → x ∈ filter P l) → filter P l = [x].
Proof. destruct (filter P l) as [|y [|z k]]; [done| |cbn; lia]. intros _ Hin. specialize (Hin ltac:(done)) as ->%list_elem_of_singleton. done. Qed.
Lemma primary_entitled request cluster snapshot found primary :
  for_each (instance_step request cluster) (mkFound zero_DatabaseInstance zero_DatabaseInstance zero_DatabaseInstance 0) (topo_Instances snapshot) = Ok found →
  (rq_SourceID request ≠ "" → opn_Kind (rq_Operation request) = OperationFailover ∧ opn_RequestedBy (rq_Operation request) = AutomaticRecoveryActor) →
  (∀ plan, rq_Plan request = Some plan → plan_TargetID plan = rq_TargetID request) →
  resolve_primary request snapshot found = Ok primary →
  primary ∈ topo_Instances snapshot ∧ entitled request snapshot (fd_target found) primary.
Proof.
  intros Hf Hsrc Hplan Hr. apply found_loop in Hf as (Hall & _ & He & Hp). unfold resolve_primary in Hr. unfold entitled.
  destruct (rq_Plan request) as [plan|] eqn:Hpl.
  { rewrite bool_decide_true in Hr by by eexists. apply reject_bind in Hr as [Hn [= <-]]. apply bool_decide_eq_false in Hn. destruct (Hp Hn) as [? ?].
    split_and!; [done|done|by apply Hplan]. }
  rewrite bool_decide_false in Hr by by intros [? ?].
  destruct (bool_decide_reflect (opn_Kind (rq_Operation request) = OperationFailover)) as [Hk|Hk], (bool_decide_reflect (rq_SourceID request = "")) as [Hs|Hs];
    cbn [negb andb] in Hr.
  2: { rewrite decide_True by done. unfold explicit_source in Hr. repeat bsimpl_step. injection Hr as <-. destruct He as [Hin Hid]; [done|].
       split; [done|]. split_and!; [by apply Hsrc|done|done|done|]. intros i Hi Hri. rewrite <- Hid.
       match goal with H : existsb _ _ = false |- _ => rename H into Hx end. destruct (decide (inst_ResourceID i = inst_ResourceID (fd_explicit found))) as [|Hne]; [done|].
       exfalso. eapply (not_true_iff_false _). { exact Hx. } apply existsb_exists. exists i. split; [by apply list_elem_of_In|]. rewrite Hri. by rewrite bool_decide_true, bool_decide_false. }
  all: rewrite decide_False by tauto; destruct (bool_decide_reflect (opn_Kind (rq_Operation request) = OperationFormerPrimaryRejoin)) as [Hj|Hj].
  all: try (rewrite decide_True by done; destruct (resolveFormerPrimaryRejoinPrimary _ _) as [q|] eqn:Hq; [|done]; injection Hr as <-;
    apply rejoin_loop in Hq; [|intros i Hi; by apply Hall]; split; [apply Hq|exact Hq]).
  all: rewrite decide_False by done; apply require_bind in Hr as [Hc [= <-]]; apply Z.eqb_eq in Hc; destruct Hp as [Hcount Hin];
    rewrite Hc in Hcount; pose proof (one_primary _ _ _ (eq_sym Hcount) Hin) as H1; split; [|exact H1];
    assert (fd_primary found ∈ filter (λ i, inst_Role i = RolePrimary) (topo_Instances snapshot)) as Hm by (rewrite H1; by left);
    by apply list_elem_of_filter in Hm as [_ ?].
Qed.

Lemma cluster_resolved configured Cluster ctx request cluster : resolve_cluster configured Cluster ctx request = Ok cluster →
  Cluster (opn_ClusterID (rq_Operation request)) = Some cluster ∧ cluster_Engine cluster = opn_Engine (rq_Operation request) ∧
  rejectsEndpointParameters (rq_Parameters request) = false ∧
  (rq_SourceID request ≠ "" → opn_Kind (rq_Operation request) = OperationFailover ∧ opn_RequestedBy (rq_Operation request) = AutomaticRecoveryActor).
Proof.
  unfold resolve_cluster. destruct ctx as [e|]; [done|]. intros H. do 4 (apply result_bind_ok in H as ([] & ? & H)).
  apply reject_bind in H as [Hsrc H]. destruct (Cluster _) as [c|] eqn:Hc; [|done]. apply reject_bind in H as [He [= <-]].
  apply reject_ok in H3. split_and!; [done|by bsimpl|done|..]; intros Hn; rewrite bool_decide_false in Hsrc by done; cbn [negb andb] in Hsrc;
    apply orb_false_iff in Hsrc as [Ha Hb]; apply negb_false_iff, bool_decide_eq_true in Ha; by apply negb_false_iff, bool_decide_eq_true in Hb.
Qed.
Lemma snapshot_resolved ReadSnapshot captured cluster snapshot : resolve_snapshot ReadSnapshot captured cluster = Ok snapshot →
  (captured = Some snapshot ∨ captured = None ∧ ReadSnapshot (cluster_ResourceID cluster) = Some snapshot) ∧
  topo_ClusterID snapshot = cluster_ResourceID cluster ∧ IsZero (topo_ObservedAt snapshot) = false.
Proof.
  unfold resolve_snapshot. intros H. destruct captured as [s|]; [|destruct (ReadSnapshot _) as [s|] eqn:Hs; [|done]];
    apply reject_bind in H as [Hz H]; apply reject_bind in H as [Hc [= <-]]; (split; [|split; [by bsimpl|done]]); auto.
Qed.
Lemma plan_resolved request : plan_resources request = Ok tt → ∀ plan, rq_Plan request = Some plan →
  plan_TargetID plan = rq_TargetID request ∧ (plan_SourceID plan ≠ plan_TargetID plan ∨ opn_Kind (rq_Operation request) = OperationPowerShutdown).
Proof.
  unfold plan_resources. intros H plan Hp. rewrite Hp in H. apply reject_bind in H as [H1 H2%reject_ok]. apply orb_false_iff in H1 as [_ H1].
  split; [by apply negb_false_iff, bool_decide_eq_true in H1|]. apply andb_false_iff in H2 as [H2|H2]; [left|right]; by bsimpl.
Qed.
Lemma credentials_resolved Credentials cluster credentials : resolve_credentials Credentials cluster = Ok credentials →
  TrimSpace (cr_Username (oc_Administrative credentials)) ≠ "".
Proof.
  unfold resolve_credentials. destruct (Credentials cluster) as [c|]; [|done]. intros [H1 H2]%reject_bind. apply reject_bind in H2 as [_ [= <-]]. by bsimpl.
Qed.

(** C16: What the resolver answers is grounded in the inventory.  A request that
    resolves named its cluster and target by identifier and no endpoint; its
    cluster exists, has the engine of the operation, and is the cluster of the
    observed topology, all of whose instances belong to it; the target and the
    source are instances of that topology, different unless a whole cluster is
    shut down; and the source is entitled to be one: the plan's when there is a
    plan; the named one of an automatic failover, failed with current evidence
    and with no other primary; the healthy, proven-writable primary of a
    rejoin; otherwise the only primary.  The credentials have user names, and
    nothing else of the request changes. *)
Theorem resolve_sound configured Cluster ReadSnapshot Credentials ctx request captured request' :
  resolve configured Cluster ReadSnapshot Credentials ctx request captured = Ok request' →
  ∃ cluster snapshot primary target credentials,
    request' = resolved_request request cluster snapshot primary target credentials ∧
    Cluster (opn_ClusterID (rq_Operation request)) = Some cluster ∧ cluster_Engine cluster = opn_Engine (rq_Operation request) ∧
    (captured = Some snapshot ∨ captured = None ∧ ReadSnapshot (cluster_ResourceID cluster) = Some snapshot) ∧
    topo_ClusterID snapshot = cluster_ResourceID cluster ∧ IsZero (topo_ObservedAt snapshot) = false ∧
    (∀ i, i ∈ topo_Instances snapshot →
      inst_ClusterID i = cluster_ResourceID cluster ∧ inst_Engine i = cluster_Engine cluster ∧ ValidResourceID (inst_ResourceID i) = true) ∧
    target ∈ topo_Instances snapshot ∧ inst_ResourceID target = rq_TargetID request ∧ primary ∈ topo_Instances snapshot ∧
    (inst_ResourceID target ≠ inst_ResourceID primary ∨ opn_Kind (rq_Operation request) = OperationPowerShutdown) ∧
    entitled request snapshot target primary ∧
    rejectsEndpointParameters (rq_Parameters request) = false ∧ TrimSpace (cr_Username (oc_Administrative credentials)) ≠ "".
Proof.
  unfold resolve. intros H. apply result_bind_ok in H as (cluster & Hcl & H). apply result_bind_ok in H as (snapshot & Hsn & H).
  apply result_bind_ok in H as ([] & Hplan & H). apply result_bind_ok in H as (found & Hf & H). apply result_bind_ok in H as (primary & Hp & H).
  cbv zeta in H. apply reject_bind in H as [Ht H]. apply reject_bind in H as [Hd H]. apply result_bind_ok in H as (credentials & Hcr & [= <-]).
  apply bool_decide_eq_false in Ht. apply cluster_resolved in Hcl as (Hc & He & Hparam & Hsrc). apply snapshot_resolved in Hsn as (Hcap & Htc & Hz).
  pose proof (plan_resolved _ Hplan) as Hpl. pose proof (found_loop _ _ _ _ Hf) as (Hall & Htarget & _). destruct (Htarget Ht) as [Hin Hid].
  destruct (primary_entitled _ _ _ _ _ Hf Hsrc (λ plan H, proj1 (Hpl plan H)) Hp) as [Hpin Hent].
  exists cluster, snapshot, primary, (fd_target found), credentials. split_and!; [done..| |done|done|by eapply credentials_resolved].
  unfold entitled in Hent. destruct (rq_Plan request) as [plan|].
  - destruct Hent as [-> Hpt]. rewrite Hid, <- Hpt. destruct (Hpl plan eq_refl) as [_ [Hn|Hn]]; [left; congruence|by right].
  - rewrite bool_decide_false in Hd by by intros [? ?]. cbn [negb andb] in Hd. apply andb_false_iff in Hd as [Hd|Hd]; [left|right]; by bsimpl.
Qed.

Definition wv_cluster : DatabaseCluster := zero_DatabaseCluster <| cluster_ResourceID := w_cluster |> <| cluster_Engine := EngineMySQL |>.
Definition wv_instance (id : ResourceID) (role : InstanceRole) : DatabaseInstance :=
  zero_DatabaseInstance <| inst_ResourceID := id |> <| inst_ClusterID := w_cluster |> <| inst_Engine := EngineMySQL |> <| inst_Role := role |>.
Definition wv_snapshot : TopologySnapshot :=
  zero_TopologySnapshot <| topo_ClusterID := w_cluster |> <| topo_ObservedAt := w_now |>
    <| topo_Instances := [wv_instance w_fresh RolePrimary; wv_instance w_owner RoleReplica] |>.
Definition wv_user : Credentials := mkCredentials "admin" "secret" "".
Definition wv_request : Request :=
  mkRequest ((rec_Operation wo_request) <| opn_Kind := OperationSwitchover |>) w_owner "" zero_time "switchover-1" ∅ wv_user wv_user None None None.
Definition wv_resolved : result error Request :=
  resolve true (λ _, Some wv_cluster) (λ _, Some wv_snapshot) (λ _, Ok (mkOperationCredentials wv_user wv_user)) None wv_request None.
Definition wv_answer : Request := match wv_resolved with Ok request => request | Err _ => wv_request end.
Lemma resolve_sound_witness : wv_resolved = Ok wv_answer ∧ ∃ snapshot primary target,
  mo_Primary <$> rq_Resolved wv_answer = Some primary ∧ mo_Target <$> rq_Resolved wv_answer = Some target ∧
  filter (λ i, inst_Role i = RolePrimary) (topo_Instances snapshot) = [primary] ∧ target ∈ topo_Instances snapshot ∧
  inst_ResourceID target = w_owner.
Proof.
  assert (wv_resolved = Ok wv_answer) as H by (vm_compute; reflexivity). split; [exact H|].
  destruct (resolve_sound _ _ _ _ _ _ _ _ H) as (cluster & snapshot & primary & target & credentials & Hr & _ & _ & _ & _ & _ & _ & Ht & Hid & _ & _ & He & _).
  exists snapshot, primary, target. rewrite Hr. split; [reflexivity|]. split; [reflexivity|]. split; [exact He|]. split; [exact Ht|exact Hid].
Defined.
