(* ===== verification/SnapshotEquality.v ===== *)
(** * Comparing snapshots

    [reflect.DeepEqual] on two snapshots is equality of the records, which is
    decided field by field. *)
From S2P Require Import Prelude GoStd Model Endpoint Lease Locks Repository.

#[export] Instance Health_eq_dec : EqDecision Health.
Proof. solve_decision. Defined.
#[export] Instance ReplicationStatus_eq_dec : EqDecision ReplicationStatus.
Proof. solve_decision. Defined.
#[export] Instance RecoveryState_eq_dec : EqDecision RecoveryState.
Proof. solve_decision. Defined.
#[export] Instance DatabaseCluster_eq_dec : EqDecision DatabaseCluster.
Proof. solve_decision. Defined.
#[export] Instance DatabaseInstance_eq_dec : EqDecision DatabaseInstance.
Proof. solve_decision. Defined.
#[export] Instance Endpoint_eq_dec : EqDecision Endpoint.
Proof. solve_decision. Defined.
#[export] Instance ReplicationLink_eq_dec : EqDecision ReplicationLink.
Proof. solve_decision. Defined.
#[export] Instance HAEndpoint_eq_dec : EqDecision HAEndpoint.
Proof. solve_decision. Defined.
#[export] Instance ProbeStatus_eq_dec : EqDecision ProbeStatus.
Proof. solve_decision. Defined.
#[export] Instance MetadataAnomaly_eq_dec : EqDecision MetadataAnomaly.
Proof. solve_decision. Defined.
#[export] Instance TopologySnapshot_eq_dec : EqDecision TopologySnapshot.
Proof. solve_decision. Defined.
#[export] Instance Check_eq_dec : EqDecision Check.
Proof. solve_decision. Defined.
#[export] Instance Operation_eq_dec : EqDecision Operation.
Proof. solve_decision. Defined.
#[export] Instance PlanStep_eq_dec : EqDecision PlanStep.
Proof. solve_decision. Defined.
#[export] Instance OperationPlan_eq_dec : EqDecision OperationPlan.
Proof. solve_decision. Defined.
#[export] Instance Execution_eq_dec : EqDecision Execution.
Proof. solve_decision. Defined.
#[export] Instance Verification_eq_dec : EqDecision Verification.
Proof. solve_decision. Defined.
#[export] Instance StepAttempt_eq_dec : EqDecision StepAttempt.
Proof. solve_decision. Defined.
#[export] Instance OperationReview_eq_dec : EqDecision OperationReview.
Proof. solve_decision. Defined.
#[export] Instance OperationRecord_eq_dec : EqDecision OperationRecord.
Proof. solve_decision. Defined.
#[export] Instance AuditEvent_eq_dec : EqDecision AuditEvent.
Proof. solve_decision. Defined.
#[export] Instance Report_eq_dec : EqDecision Report.
Proof. solve_decision. Defined.
#[export] Instance ApprovalGrant_eq_dec : EqDecision ApprovalGrant.
Proof. solve_decision. Defined.
#[export] Instance RecoveryTimeline_eq_dec : EqDecision RecoveryTimeline.
Proof. solve_decision. Defined.
#[export] Instance RecoveryEvidence_eq_dec : EqDecision RecoveryEvidence.
Proof. solve_decision. Defined.
#[export] Instance RecoveryProof_eq_dec : EqDecision RecoveryProof.
Proof. solve_decision. Defined.
#[export] Instance RecoveryEvent_eq_dec : EqDecision RecoveryEvent.
Proof. solve_decision. Defined.
#[export] Instance RecoveryTask_eq_dec : EqDecision RecoveryTask.
Proof. solve_decision. Defined.
#[export] Instance PowerInstanceRef_eq_dec : EqDecision PowerInstanceRef.
Proof. solve_decision. Defined.
#[export] Instance PowerVIPRef_eq_dec : EqDecision PowerVIPRef.
Proof. solve_decision. Defined.
#[export] Instance PowerSnapshot_eq_dec : EqDecision PowerSnapshot.
Proof. solve_decision. Defined.
#[export] Instance PowerOperation_eq_dec : EqDecision PowerOperation.
Proof. solve_decision. Defined.
#[export] Instance LeaseRecord_eq_dec : EqDecision LeaseRecord.
Proof. solve_decision. Defined.
#[export] Instance OperationLockRecord_eq_dec : EqDecision OperationLockRecord.
Proof. solve_decision. Defined.
#[export] Instance ConfigurationTask_eq_dec : EqDecision ConfigurationTask.
Proof. solve_decision. Defined.
#[export] Instance SoftwareUpdateGate_eq_dec : EqDecision SoftwareUpdateGate.
Proof. solve_decision. Defined.
#[export] Instance snapshot_eq_dec : EqDecision snapshot.
Proof. solve_decision. Defined.
