(* ===== verification/SnapshotState.v ===== *)
(** * internal/store: the replicated form of the metadata snapshot

    [replication.go]: what controllers send each other through Raft is the
    JSON of a normalized snapshot, in front of which the revision, the digest
    of the snapshot and the digest of the snapshot it was computed from have
    been spliced into the text.  Decoding finds the snapshot's own text again
    and checks it against the digest.

    [Marshal], [Unmarshal] and [Sum256Hex] are [encoding/json] on the snapshot
    and on the envelope, and SHA-256 in hexadecimal; what is used of them is
    stated as hypotheses of the round trip.  [snapshot] has the modelled fields
    of the Go struct, so [normalizeSnapshot] has the checks of those fields; a
    nil map is an empty one. *)
From S2P Require Import Prelude GoStd Model Endpoint Lease Locks Repository Operations Selection MySQLAdapter MySQLText.
From stdpp Require Import pretty.
#[local] Open Scope Z_scope.

(** ** Errors *)

Inductive replication_error : Type :=
| ErrInvalidSnapshot         (* the contents are refused *)
| ErrTooLarge                (* a validation error: the size *)
| ErrReplicaConflict         (* a conflict error *)
| ErrNotPersisted            (* the file was not published *)
| ErrPersistedWarning.       (* published, durability unconfirmed: [Committed()] is true *)
#[export] Instance replication_error_eq_dec : EqDecision replication_error.
Proof. solve_decision. Defined.

(** ** Normalization *)

(** [validatePersistedOperationReview]. *)
Definition validatePersistedOperationReview (operation : OperationRecord) : bool :=
  match rec_Review operation with
  | None => true
  | Some review =>
      ((rec_Status operation == OperationIndeterminate) || (rec_Status operation == OperationSucceeded)) &&
      negb (IsZero (review_ReviewedAt review)) && (review_Disposition review == OperationReviewAcknowledgedIndeterminate) &&
      is_ok (normalizeOperationReviewInput (review_ReviewedBy review) (review_Note review))
  end.
Definition validSoftwareUpdateIdentifier (value : string) : bool :=
  let value := TrimSpace value in
  negb (value == "") && Nat.leb (String.length value) 128 &&
  string_forall (λ c, is_lower c || is_upper c || is_digit c || (c == "."%char) || (c == "_"%char) || (c == "-"%char)) value.
Definition validateSoftwareUpdateGate (gate : SoftwareUpdateGate) : bool :=
  validSoftwareUpdateIdentifier (gate_PatchID gate) && validSoftwareUpdateIdentifier (gate_ExecutionID gate) &&
  negb (IsZero (gate_AcquiredAt gate)) && negb (IsZero (gate_UpdatedAt gate)) && negb (Before (gate_UpdatedAt gate) (gate_AcquiredAt gate)).

Definition valid_task (e : ResourceID * RecoveryTask) : bool :=
  (e.1 == task_ResourceID e.2) && ValidResourceID e.1 && ValidResourceID (task_ClusterID e.2) && RecoveryStage_Valid (task_Stage e.2).
Definition valid_grant (e : ResourceID * ApprovalGrant) : bool := (grant_ResourceID e.2 == e.1) && is_ok (validateApprovalGrant e.2).
(** A watermark is at least the time of the observation that is stored. *)
Definition raise_watermark (topology : option TopologySnapshot) (watermark : option Time) : option Time :=
  match topology with
  | Some topology => if After (topo_ObservedAt topology) (default zero_time watermark) then Some (topo_ObservedAt topology) else watermark
  | None => watermark
  end.
Definition raise_watermarks : gmap ResourceID TopologySnapshot → gmap ResourceID Time → gmap ResourceID Time := merge raise_watermark.
(** A cluster has a generation. *)
Definition first_generation (cluster : option DatabaseCluster) (generation : option uint64) : option uint64 :=
  match cluster with Some _ => if default 0 generation =? 0 then Some 1 else generation | None => generation end.
Definition first_generations : gmap ResourceID DatabaseCluster → gmap ResourceID uint64 → gmap ResourceID uint64 := merge first_generation.
(** The identifiers an old record lacks. *)
Definition identified (resourceID : ResourceID) (operation : OperationRecord) : OperationRecord :=
  let operation := if rec_ResourceID operation == "" then operation <| rec_ResourceID := resourceID |> else operation in
  if opn_ResourceID (rec_Operation operation) == ""
  then operation <| rec_Operation := (rec_Operation operation) <| opn_ResourceID := rec_ResourceID operation |> |> else operation.
Definition normalize_operation (resourceID : ResourceID) (operation : OperationRecord) : result replication_error OperationRecord :=
  let operation := identified resourceID operation in
  let key := TrimSpace (rec_IdempotencyKey operation) in
  _ ← reject ((rec_ResourceID operation != resourceID) || negb (ValidResourceID resourceID) || (key == "")) ErrInvalidSnapshot;
  _ ← require (validatePersistedOperationReview operation) ErrInvalidSnapshot;
  Ok (operation <| rec_IdempotencyKey := key |>).
Definition operation_step (s : gmap ResourceID OperationRecord * gmap string ResourceID) (e : ResourceID * OperationRecord)
    : result replication_error (gmap ResourceID OperationRecord * gmap string ResourceID) :=
  let '(operations, keys) := s in
  operation ← normalize_operation e.1 e.2;
  _ ← require (match keys !! rec_IdempotencyKey operation with Some existing => existing == e.1 | None => true end) ErrInvalidSnapshot;
  Ok (<[e.1 := operation]> operations, <[rec_IdempotencyKey operation := e.1]> keys).
(** An old report without a status is indeterminate. *)
Definition report_step (reports : list Report) (report : Report) : result replication_error (list Report) :=
  if report_Status report == OperationStatusOther "" then Ok (reports ++ [report <| report_Status := OperationIndeterminate |>])
  else _ ← require (terminalOperationStatus (report_Status report)) ErrInvalidSnapshot; Ok (reports ++ [report]).
Definition active_task (e : string * ConfigurationTask) : Prop := ctask_Active e.2 = true.
#[export] Instance active_task_dec e : Decision (active_task e).
Proof. unfold active_task. apply _. Defined.

Definition normalizeSnapshot (value : snapshot) : result replication_error snapshot :=
  _ ← require (forallb valid_task (map_to_list (sn_RecoveryTasks value))) ErrInvalidSnapshot;
  _ ← require (forallb valid_grant (map_to_list (sn_ApprovalGrants value))) ErrInvalidSnapshot;
  _ ← require (match sn_SoftwareUpdateGate value with Some gate => validateSoftwareUpdateGate gate | None => true end) ErrInvalidSnapshot;
  '(operations, keys) ← for_each operation_step (sn_Operations value, sn_OperationKeys value) (map_to_list (sn_Operations value));
  reports ← for_each report_step [] (sn_Reports value);
  _ ← reject (1 <? Z.of_nat (size (filter active_task (sn_ConfigurationTasks value)))) ErrInvalidSnapshot;
  _ ← require (forallb (λ e, e.1 == ctask_TaskID e.2) (map_to_list (sn_ConfigurationTasks value))) ErrInvalidSnapshot;
  Ok (value <| sn_ObservationWatermarks ::= raise_watermarks (sn_TopologySnapshots value) |>
            <| sn_InventoryGenerations ::= first_generations (sn_Clusters value) |>
            <| sn_Operations := operations |> <| sn_OperationKeys := keys |> <| sn_Reports := reports |>).

(** ** Encoding *)

Definition maximumSnapshotBytes : Z := 64 * 1048576.
Definition maximumEncodedSnapshotBytes : Z := 16 * 1048576.
Definition len (s : string) : Z := Z.of_nat (String.length s).
Definition snapshotStateRevisionField : string := "clusterguard_state_revision".
Definition snapshotStateDigestField : string := "clusterguard_state_digest".
Definition snapshotBaseDigestField : string := "clusterguard_base_digest".
(** A double quote. *)
Definition dq : string := String (ascii_of_nat 34) EmptyString.
Definition quoted (s : string) : string := dq +:+ s +:+ dq.
Definition validSnapshotDigest (value : string) : bool := (len value =? 64) && string_forall is_hex value.
(** [encoding/json]: what the envelope holds. *)
Record snapshotStateEnvelope : Type := mkEnvelope {
  env_snapshot : snapshot; env_StateRevision : option uint64; env_StateDigest : string; env_BaseDigest : string
}.
Record snapshotRevisionMetadata : Type := mkRevisionMetadata {
  sm_StateRevision : option uint64; sm_StateDigest : string; sm_BaseDigest : string; sm_ContentsDigest : string
}.
Definition revision_prefix (stateRevision : uint64) (stateDigest : string) : string :=
  "{" +:+ quoted snapshotStateRevisionField +:+ ":" +:+ pretty stateRevision +:+ "," +:+
  quoted snapshotStateDigestField +:+ ":" +:+ quoted stateDigest +:+ ",".
Definition base_field (baseDigest : string) : string :=
  if baseDigest == "" then "" else quoted snapshotBaseDigestField +:+ ":" +:+ quoted baseDigest +:+ ",".
(** The first and the last byte. *)
Definition object_text (contents : string) : bool :=
  (2 <=? len contents) && HasPrefix contents "{" && HasPrefix (String.rev contents) "}".

(** *** The text of the snapshot *)

(** [bytes.Index]: the text before the first occurrence, and from it on. *)
Fixpoint cut_index (sub s : string) : option (string * string) :=
  if HasPrefix s sub then Some (EmptyString, s)
  else match s with
  | EmptyString => None
  | String c s => '(before, rest) ← cut_index sub s; Some (String c before, rest)
  end.
Definition json_space (c : ascii) : bool :=
  (c == " "%char) || (c == ascii_of_nat 9) || (c == ascii_of_nat 13) || (c == ascii_of_nat 10).
Fixpoint drop_json_spaces (s : string) : string :=
  match s with String c s' => if json_space c then drop_json_spaces s' else s | EmptyString => EmptyString end.
Definition payload_marker : string := quoted "clusters" +:+ ":".
Definition snapshotPayload (contents : string) : result replication_error string :=
  match cut_index payload_marker contents with
  | None => Err ErrInvalidSnapshot
  | Some (before, rest) =>
      match drop_json_spaces (String.rev before) with
      | String c _ => if (c == "{"%char) || (c == ","%char) then Ok ("{" +:+ rest) else Err ErrInvalidSnapshot
      | EmptyString => Err ErrInvalidSnapshot
      end
  end.

Section codec.
Variables (Marshal : snapshot → result replication_error string) (Unmarshal : string → result replication_error snapshotStateEnvelope)
  (Sum256Hex : string → string).

Definition normalizedSnapshotContents (value : snapshot) : result replication_error (snapshot * string) :=
  normalized ← normalizeSnapshot value; contents ← Marshal normalized; Ok (normalized, contents).
Definition canonicalSnapshotContents (value : snapshot) : result replication_error string :=
  '(_, contents) ← normalizedSnapshotContents value; Ok contents.
Definition snapshotDigest (value : snapshot) : result replication_error string :=
  contents ← canonicalSnapshotContents value; Ok (Sum256Hex contents).
Definition encodeSnapshotRevisionState (value : snapshot) (stateRevision : uint64) (baseDigest : string)
    : result replication_error (string * string * snapshot) :=
  '(normalized, contents) ← normalizedSnapshotContents value;
  _ ← reject (maximumEncodedSnapshotBytes <? len contents) ErrTooLarge;
  _ ← require (object_text contents) ErrInvalidSnapshot;
  let stateDigest := Sum256Hex contents in
  _ ← reject ((baseDigest != "") && negb (validSnapshotDigest baseDigest)) ErrInvalidSnapshot;
  let prefix := revision_prefix stateRevision stateDigest +:+ base_field baseDigest in
  _ ← reject (maximumEncodedSnapshotBytes <? len prefix + len contents - 1) ErrTooLarge;
  Ok (prefix +:+ drop_string 1 contents, stateDigest, normalized).
Definition encodeSnapshotRevision (value : snapshot) (stateRevision : uint64) (baseDigest : string) : result replication_error string :=
  '(contents, _, _) ← encodeSnapshotRevisionState value stateRevision baseDigest; Ok contents.
Definition encodeConsensusSnapshot (value base : snapshot) (stateRevision : uint64) : result replication_error string :=
  _ ← reject (stateRevision =? 0) ErrInvalidSnapshot;
  baseDigest ← snapshotDigest base;
  encodeSnapshotRevision value stateRevision baseDigest.

(** ** Decoding *)

Definition digestSnapshotPayload (contents : string) : result replication_error string :=
  payload ← snapshotPayload contents; Ok (Sum256Hex payload).
Definition decodeSnapshotState (contents : string) : result replication_error (snapshot * snapshotRevisionMetadata) :=
  _ ← reject ((len contents =? 0) || (maximumSnapshotBytes <? len contents)) ErrTooLarge;
  _ ← snapshotPayload contents;
  envelope ← Unmarshal contents;
  let revision := env_StateRevision envelope in
  let stateDigest := ToLower (TrimSpace (env_StateDigest envelope)) in
  let baseDigest := ToLower (TrimSpace (env_BaseDigest envelope)) in
  _ ← reject ((stateDigest != "") && (negb (validSnapshotDigest stateDigest) || bool_decide (revision = None))) ErrInvalidSnapshot;
  _ ← reject ((baseDigest != "") && (negb (validSnapshotDigest baseDigest) || (stateDigest == "") || bool_decide (revision = None) ||
              (default 0 revision =? 0))) ErrInvalidSnapshot;
  decoded ← normalizeSnapshot (env_snapshot envelope);
  contentsDigest ←
    (if stateDigest != "" then
       actualDigest ← digestSnapshotPayload contents;
       _ ← reject (actualDigest != stateDigest) ErrInvalidSnapshot; Ok actualDigest
     else snapshotDigest decoded);
  Ok (decoded, mkRevisionMetadata revision stateDigest baseDigest contentsDigest).
Definition decodeSnapshotContents (contents : string) : result replication_error snapshot :=
  '(decoded, _) ← decodeSnapshotState contents; Ok decoded.
End codec.

(** ** Normalizing twice *)

Lemma merge_idem {A B} (f : option A → option B → option B) (m : gmap ResourceID A) (m' : gmap ResourceID B) :
  f None None = None → (∀ x y, f x (f x y) = f x y) → merge f m (merge f m m') = merge f m m'.
Proof.
  intros Hn Hf. assert (∀ x y, diag_None f x y = f x y) as Hd by by intros [] []. apply map_eq. intros id. by rewrite !lookup_merge, !Hd, Hf.
Qed.
Lemma raise_watermarks_idem topologies watermarks :
  raise_watermarks topologies (raise_watermarks topologies watermarks) = raise_watermarks topologies watermarks.
Proof.
  apply merge_idem; [done|]. intros [t|] w; [|done]. cbn. destruct (After (topo_ObservedAt t) (default zero_time w)) eqn:Hw; cbn.
  - unfold After. by rewrite Z.ltb_irrefl.
  - by rewrite Hw.
Qed.
Lemma first_generations_idem clusters generations :
  first_generations clusters (first_generations clusters generations) = first_generations clusters generations.
Proof. apply merge_idem; [done|]. intros [c|] g; [|done]. cbn. destruct (default 0 g =? 0) eqn:Hg; cbn; [done|by rewrite Hg]. Qed.
Lemma reports_normal l : Forall (λ report, terminalOperationStatus (report_Status report) = true) l →
  ∀ acc, for_each report_step acc l = Ok (acc ++ l).
Proof.
  induction 1 as [|report l Hr _ IH]; intros acc; cbn; [by rewrite app_nil_r|]. unfold report_step at 1.
  rewrite bool_decide_false by by intros Hn; rewrite Hn in Hr. rewrite Hr. cbn. by rewrite IH, <- app_assoc.
Qed.
Lemma reports_terminal l acc r : Forall (λ report, terminalOperationStatus (report_Status report) = true) acc →
  for_each report_step acc l = Ok r → Forall (λ report, terminalOperationStatus (report_Status report) = true) r.
Proof.
  revert acc. induction l as [|report l IH]; intros acc Ha; cbn; [by intros [= <-]|]. unfold report_step at 1.
  case_bool_decide as Hs; [|destruct (terminalOperationStatus (report_Status report)) eqn:Ht; [|done]]; cbn; intros H; eapply IH, H;
    apply Forall_app; split; try done; by repeat constructor.
Qed.
Lemma identified_fixed id operation : rec_ResourceID operation ≠ "" → opn_ResourceID (rec_Operation operation) ≠ "" →
  identified id operation = operation.
Proof. intros H1 H2. unfold identified. rewrite (bool_decide_false _ H1). cbv zeta. rewrite (bool_decide_false _ H2). reflexivity. Qed.
Lemma identified_named id operation : id ≠ "" →
  rec_ResourceID (identified id operation) ≠ "" ∧ opn_ResourceID (rec_Operation (identified id operation)) ≠ "".
Proof.
  intros Hid. unfold identified. set (op1 := if rec_ResourceID operation == "" then _ else _).
  assert (rec_ResourceID op1 ≠ "") as H1 by (unfold op1; case_bool_decide as Ho; [exact Hid|exact Ho]).
  case_bool_decide as Ho; [exact (conj H1 H1)|exact (conj H1 Ho)].
Qed.
Lemma normal_operation id operation operation' : normalize_operation id operation = Ok operation' →
  normalize_operation id operation' = Ok operation'.
Proof.
  unfold normalize_operation at 1. intros [H1 [H2 H3]%require_bind]%reject_bind. injection H3 as <-.
  assert (id ≠ "") as Hid by (intros ->; by rewrite orb_true_r in H1). destruct (identified_named id operation Hid) as [Hn1 Hn2].
  set (op := identified id operation) in *. unfold normalize_operation. rewrite identified_fixed; [|exact Hn1|exact Hn2].
  change (TrimSpace (rec_IdempotencyKey (op <| rec_IdempotencyKey := TrimSpace (rec_IdempotencyKey op) |>)))
    with (TrimSpace (TrimSpace (rec_IdempotencyKey op))). rewrite TrimSpace_idemp.
  apply reject_bind. split; [exact H1|]. apply require_bind. split; [exact H2|reflexivity].
Qed.

(** The loop over the operations: each is normalized in place, and its key names it. *)
Lemma operation_loop l m keys operations keys' : NoDup l.*1 → (∀ id op, (id, op) ∈ l → m !! id = Some op) →
  for_each operation_step (m, keys) l = Ok (operations, keys') →
  (∀ id, id ∉ l.*1 → operations !! id = m !! id) ∧ (∀ k id, keys !! k = Some id → keys' !! k = Some id) ∧
  ∀ id op, (id, op) ∈ l → ∃ op', normalize_operation id op = Ok op' ∧ operations !! id = Some op' ∧ keys' !! rec_IdempotencyKey op' = Some id.
Proof.
  revert m keys. induction l as [|[id op] l IH]; intros m keys; cbn -[normalize_operation].
  { intros _ _ [= <- <-]. split_and!; [done|done|by intros id op ?%elem_of_nil]. }
  intros [Hid Hnd]%NoDup_cons Hm. unfold operation_step at 1. cbn -[normalize_operation].
  destruct (normalize_operation id op) as [op'|] eqn:Hop; [|done]. cbn -[normalize_operation].
  destruct (require _ _) eqn:Hk; [|done]. apply require_ok in Hk. cbn -[normalize_operation]. intros Hl.
  apply IH in Hl as (H1 & H2 & H3); [|exact Hnd|]; cycle 1.
  { intros id' op1 Hin. rewrite lookup_insert_ne; [apply Hm; by right|]. intros ->. apply Hid. apply list_elem_of_fmap. by exists (id', op1). }
  split_and!.
  - intros id' [Hne Hin]%not_elem_of_cons. rewrite H1 by done. by rewrite lookup_insert_ne.
  - intros k id' Hk'. apply H2. destruct (decide (k = rec_IdempotencyKey op')) as [->|Hne]; [|by rewrite lookup_insert_ne].
    rewrite lookup_insert_eq. rewrite Hk' in Hk. by apply bool_decide_eq_true in Hk as ->.
  - intros id' op1 [[= -> ->]|Hin]%elem_of_cons; [|by apply H3]. exists op'. split_and!; [done| |].
    + rewrite H1 by done. by rewrite lookup_insert_eq.
    + apply H2. by rewrite lookup_insert_eq.
Qed.
Lemma operation_loop_fixed l m keys :
  (∀ id op, (id, op) ∈ l → normalize_operation id op = Ok op ∧ m !! id = Some op ∧ keys !! rec_IdempotencyKey op = Some id) →
  for_each operation_step (m, keys) l = Ok (m, keys).
Proof.
  induction l as [|[id op] l IH]; intros Hl; [done|]. cbn -[normalize_operation]. destruct (Hl id op) as (Ho & Hm & Hk); [by left|].
  unfold operation_step at 1. cbn -[normalize_operation]. rewrite Ho. cbn -[normalize_operation]. rewrite Hk, bool_decide_true by done. cbn -[normalize_operation].
  rewrite (insert_id m id op Hm), (insert_id keys _ id Hk). apply IH. intros id' op' Hin. apply Hl. by right.
Qed.
Lemma set_normal_same s f g operations keys reports :
  f (sn_ObservationWatermarks s) = sn_ObservationWatermarks s → g (sn_InventoryGenerations s) = sn_InventoryGenerations s →
  sn_Operations s = operations → sn_OperationKeys s = keys → sn_Reports s = reports →
  s <| sn_ObservationWatermarks ::= f |> <| sn_InventoryGenerations ::= g |> <| sn_Operations := operations |>
    <| sn_OperationKeys := keys |> <| sn_Reports := reports |> = s.
Proof.
  intros Hf Hg <- <- <-. destruct s. cbn in Hf, Hg. transitivity (mkSnapshot sn_Clusters sn_Instances sn_Endpoints sn_HAEndpoints sn_ApprovalGrants
    sn_CoordinationLeases sn_OperationLocks sn_SoftwareUpdateGate sn_ReplicationLinks sn_TopologySnapshots (f sn_ObservationWatermarks)
    (g sn_InventoryGenerations) sn_Operations sn_OperationKeys sn_PowerOperations sn_RecoveryTasks sn_Audits sn_Reports sn_ConfigurationTasks);
    [reflexivity|by rewrite Hf, Hg].
Qed.
Lemma normalizeSnapshot_idem value normalized : normalizeSnapshot value = Ok normalized → normalizeSnapshot normalized = Ok normalized.
Proof.
  unfold normalizeSnapshot at 1. intros [H1 H]%require_bind. apply require_bind in H as [H2 H]. apply require_bind in H as [H3 H].
  apply result_bind_ok in H as ([operations keys] & Hops & H). apply result_bind_ok in H as (reports & Hreports & H).
  apply reject_bind in H as [H4 H]. apply require_bind in H as [H5 H]. injection H as <-. set (n := value <| sn_ObservationWatermarks ::= _ |> <| sn_InventoryGenerations ::= _ |>
    <| sn_Operations := _ |> <| sn_OperationKeys := _ |> <| sn_Reports := _ |>).
  apply operation_loop in Hops as (Hout & _ & Hin); [|apply NoDup_fst_map_to_list|by intros id op ?%elem_of_map_to_list].
  assert (for_each operation_step (operations, keys) (map_to_list operations) = Ok (operations, keys)) as Hops.
  { apply operation_loop_fixed. intros id op Hop%elem_of_map_to_list. destruct (sn_Operations value !! id) as [op0|] eqn:H0.
    - apply elem_of_map_to_list in H0. destruct (Hin id op0 H0) as (op' & Hn & Ho & Hk). assert (op = op') as -> by congruence.
      split_and!; [by eapply normal_operation|done|done].
    - rewrite Hout in Hop; [congruence|]. intros ([id' op'] & -> & Hp%elem_of_map_to_list)%list_elem_of_fmap. cbn in H0. congruence. }
  apply reports_terminal in Hreports; [|constructor].
  unfold normalizeSnapshot. apply require_bind. split; [exact H1|]. apply require_bind. split; [exact H2|]. apply require_bind. split; [exact H3|].
  apply result_bind_ok. exists (operations, keys). split; [exact Hops|]. apply result_bind_ok. exists reports. split; [by apply reports_normal|].
  apply reject_bind. split; [exact H4|]. apply require_bind. split; [exact H5|]. f_equal.
  apply set_normal_same; [apply raise_watermarks_idem|apply first_generations_idem|reflexivity..].
Qed.

(** ** The text of an encoded snapshot *)

Definition lower_digest (value : string) : Prop := len value = 64 ∧ string_forall (λ c, is_digit c || in_range "a" "f" c) value = true.
Lemma lower_digest_valid value : lower_digest value → validSnapshotDigest value = true ∧ ToLower (TrimSpace value) = value ∧ value ≠ "".
Proof.
  intros [Hl Hf]. split_and!.
  - unfold validSnapshotDigest. rewrite Hl. apply (string_forall_impl _ is_hex value) in Hf; [by rewrite Hf|].
    intros c. unfold is_hex. intros H. by rewrite H.
  - rewrite graphic_trimmed; [|eapply string_forall_impl, Hf; intros c; by destruct c as [[] [] [] [] [] [] [] []]].
    clear Hl. revert Hf. induction value as [|c value IH]; [done|]. cbn [string_forall ToLower]. intros [Hc Hv]%andb_true_iff.
    rewrite (IH Hv). f_equal. revert Hc. by destruct c as [[] [] [] [] [] [] [] []].
  - by intros ->.
Qed.

(** The marker does not start within [p], whatever follows. *)
Definition skips (p s : string) : Prop :=
  cut_index payload_marker (p +:+ s) = ('(before, rest) ← cut_index payload_marker s; Some (p +:+ before, rest)).
Lemma skips_cons c p s : cut_prefix payload_marker (String c (p +:+ s)) = None → skips p s → skips (String c p) s.
Proof.
  unfold skips. intros Hc Hp. rewrite append_cons. cbn [cut_index]. unfold HasPrefix. rewrite Hc, Hp. cbn.
  destruct (cut_index payload_marker s) as [[b r]|]; [|done]. cbn. by rewrite append_cons.
Qed.
Lemma skips_empty s : skips "" s.
Proof. unfold skips. change ("" +:+ s) with s. by destruct (cut_index payload_marker s) as [[b r]|]. Qed.
Lemma skips_app p q s : skips p (q +:+ s) → skips q s → skips (p +:+ q) s.
Proof.
  unfold skips. rewrite append_assoc. intros -> ->. destruct (cut_index payload_marker s) as [[b r]|]; [|done]. cbn. by rewrite append_assoc.
Qed.
Lemma marker_start c t : c ≠ ascii_of_nat 34 → cut_prefix payload_marker (String c t) = None.
Proof. intros Hc. change (cut_prefix payload_marker (String c t)) with (if Ascii.eqb (ascii_of_nat 34) c then cut_prefix (drop_string 1 payload_marker) t else None). destruct (Ascii.eqb_spec (ascii_of_nat 34) c); congruence. Qed.
Lemma skips_plain p s : contains_byte (ascii_of_nat 34) p = false → skips p s.
Proof.
  induction p as [|c p IH]; cbn; [intros _; apply skips_empty|]. intros [Hc Hp]%orb_false_iff. apply skips_cons; [|by apply IH].
  apply marker_start. by apply Ascii.eqb_neq.
Qed.
Lemma digest_start value t : lower_digest value → cut_prefix payload_marker (dq +:+ value +:+ t) = None.
Proof.
  intros [Hl Hf]. destruct value as [|c1 [|c2 value]]; [done|done|]. cbn [string_forall] in Hf. apply andb_true_iff in Hf as [_ [H2 _]%andb_true_iff].
  rewrite !append_cons. change (cut_prefix payload_marker (dq +:+ String c1 (String c2 (value +:+ t))))
    with (if Ascii.eqb "c" c1 then if Ascii.eqb "l" c2 then cut_prefix (drop_string 3 payload_marker) (value +:+ t) else None else None).
  destruct (Ascii.eqb "c" c1); [|done]. destruct (Ascii.eqb_spec "l" c2) as [<-|]; [by vm_compute in H2|done].
Qed.
Lemma digest_unquoted value : lower_digest value → contains_byte (ascii_of_nat 34) value = false.
Proof.
  intros [_ Hf]. revert Hf. induction value as [|c t IH]; [done|].
  cbn [string_forall contains_byte]. intros [Hc Ht]%andb_true_iff. rewrite (IH Ht), orb_false_r. revert Hc. by destruct c as [[] [] [] [] [] [] [] []].
Qed.
Lemma skips_digest value s : lower_digest value → skips (quoted value +:+ ",") s.
Proof.
  intros Hd. unfold quoted. rewrite !append_assoc. apply skips_app; [apply skips_cons; [|apply skips_empty]|].
  - rewrite !append_assoc. exact (digest_start value (dq +:+ "," +:+ s) Hd).
  - apply skips_app; [by apply skips_plain, digest_unquoted|]. apply skips_cons; [reflexivity|]. apply skips_plain. reflexivity.
Qed.
Lemma skips_field f t : f ∈ [snapshotStateRevisionField; snapshotStateDigestField; snapshotBaseDigestField] → skips (quoted f) (":" +:+ t).
Proof.
  assert (∀ f, contains_byte (ascii_of_nat 34) f = false → cut_prefix payload_marker (dq +:+ f +:+ dq +:+ ":" +:+ t) = None → skips (quoted f) (":" +:+ t)) as H.
  { clear f. intros f Hf Hs. unfold quoted. apply skips_app; [apply skips_cons; [|apply skips_empty]|].
    - rewrite !append_assoc. exact Hs.
    - apply skips_app; [by apply skips_plain|]. apply skips_cons; [reflexivity|apply skips_empty]. }
  intros Hf. repeat (apply elem_of_cons in Hf as [->|Hf]; [apply H; reflexivity|]). by apply elem_of_nil in Hf.
Qed.
Lemma skips_prefix stateRevision stateDigest baseDigest s : lower_digest stateDigest → (baseDigest = "" ∨ lower_digest baseDigest) →
  skips (revision_prefix stateRevision stateDigest +:+ base_field baseDigest) s.
Proof.
  intros Hd Hb. apply skips_app.
  - unfold revision_prefix. apply skips_app; [by apply skips_plain|]. apply skips_app; [rewrite !append_assoc; apply skips_field; set_solver|].
    apply skips_app; [by apply skips_plain|]. apply skips_app; [apply skips_plain, pretty_free; [reflexivity|discriminate]|].
    apply skips_app; [by apply skips_plain|]. apply skips_app; [rewrite !append_assoc; apply skips_field; set_solver|]. apply skips_app; [by apply skips_plain|].
    by apply skips_digest.
  - unfold base_field. case_bool_decide as Hn; [apply skips_empty|]. destruct Hb as [?|Hb]; [done|].
    apply skips_app; [rewrite !append_assoc; apply skips_field; set_solver|]. apply skips_app; [by apply skips_plain|]. by apply skips_digest.
Qed.
Lemma payload_found stateRevision stateDigest baseDigest more : lower_digest stateDigest → (baseDigest = "" ∨ lower_digest baseDigest) →
  snapshotPayload ((revision_prefix stateRevision stateDigest +:+ base_field baseDigest) +:+ payload_marker +:+ more) =
  Ok ("{" +:+ payload_marker +:+ more).
Proof.
  intros Hd Hb. unfold snapshotPayload. rewrite (skips_prefix stateRevision stateDigest baseDigest _ Hd Hb).
  assert (cut_index payload_marker (payload_marker +:+ more) = Some ("", payload_marker +:+ more)) as -> by reflexivity.
  cbn [mbind option_bind]. rewrite append_empty_r.
  assert (∃ p, revision_prefix stateRevision stateDigest +:+ base_field baseDigest = p +:+ ",") as [p ->].
  { unfold base_field. case_bool_decide.
    - eexists. rewrite append_empty_r. unfold revision_prefix. rewrite <- !append_assoc. reflexivity.
    - eexists. unfold revision_prefix. rewrite <- !append_assoc. reflexivity. }
  rewrite GoStd.rev_append. reflexivity.
Qed.

(** ** The round trip *)

(** What is used of [encoding/json] and SHA-256.  A snapshot is [Representable]
    when JSON represents it exactly (its texts are valid UTF-8, its times have
    four-digit years, ...).  The fields of a struct are written in order, so the
    text of a snapshot starts with its clusters. *)
Record codec_laws (Marshal : snapshot → result replication_error string) (Unmarshal : string → result replication_error snapshotStateEnvelope)
    (Sum256Hex : string → string) (Representable : snapshot → Prop) : Prop := mk_codec_laws {
  cl_object : ∀ s c, Marshal s = Ok c → ∃ more, c = "{" +:+ payload_marker +:+ more;
  cl_envelope : ∀ s c stateRevision stateDigest baseDigest, Representable s → Marshal s = Ok c → 0 ≤ stateRevision ≤ max_uint64 →
    lower_digest stateDigest → (baseDigest = "" ∨ lower_digest baseDigest) →
    Unmarshal ((revision_prefix stateRevision stateDigest +:+ base_field baseDigest) +:+ drop_string 1 c) =
      Ok (mkEnvelope s (Some stateRevision) stateDigest baseDigest);
  cl_digest : ∀ t, lower_digest (Sum256Hex t)
}.

Section codec_facts.
Context {Marshal : snapshot → result replication_error string} {Unmarshal : string → result replication_error snapshotStateEnvelope}
  {Sum256Hex : string → string} {Representable : snapshot → Prop} (Hlaws : codec_laws Marshal Unmarshal Sum256Hex Representable).
Lemma encode_ok value stateRevision baseDigest text digest normalized :
  encodeSnapshotRevisionState Marshal Sum256Hex value stateRevision baseDigest = Ok (text, digest, normalized) ↔
  ∃ contents, normalizeSnapshot value = Ok normalized ∧ Marshal normalized = Ok contents ∧ digest = Sum256Hex contents ∧
    text = (revision_prefix stateRevision digest +:+ base_field baseDigest) +:+ drop_string 1 contents ∧
    len contents ≤ maximumEncodedSnapshotBytes ∧ len text ≤ maximumEncodedSnapshotBytes ∧ object_text contents = true ∧
    ((baseDigest != "") && negb (validSnapshotDigest baseDigest)) = false.
Proof.
  assert (∀ contents (prefix : string), object_text contents = true → len (prefix +:+ drop_string 1 contents) = len prefix + len contents - 1) as Hlen.
  { intros contents prefix Ho. unfold object_text in Ho. destruct contents as [|c contents]; [done|]. unfold len. rewrite length_append. cbn [drop_string String.length].
    rewrite (Nat2Z.inj_succ (String.length contents)), Nat2Z.inj_add. replace (drop_string 0 contents) with contents by by destruct contents. lia. }
  unfold encodeSnapshotRevisionState, normalizedSnapshotContents. split.
  - intros ([n c] & (n' & Hn & (c' & Hm & [= <- <-])%result_bind_ok)%result_bind_ok & H)%result_bind_ok. apply reject_bind in H as [H1 H].
    apply require_bind in H as [H2 H]. apply reject_bind in H as [H3 H]. apply reject_bind in H as [H4 H]. rewrite <- Hlen in H4 by exact H2. injection H as <- <- <-.
    exists c'. apply Z.ltb_ge in H1, H4. split_and!; try reflexivity; assumption.
  - intros (c & Hn & Hm & -> & -> & H1 & H4 & H2 & H3). rewrite Hlen in H4 by exact H2. rewrite Hn. cbn [mbind result_bind]. rewrite Hm. cbn [mbind result_bind].
    apply reject_bind. split; [by apply Z.ltb_ge|]. apply require_bind. split; [exact H2|]. apply reject_bind. split; [exact H3|].
    apply reject_bind. split; [by apply Z.ltb_ge|reflexivity].
Qed.
Lemma decode_encoded value stateRevision baseDigest text digest normalized :
  Representable normalized → 0 ≤ stateRevision ≤ max_uint64 → (baseDigest = "" ∨ lower_digest baseDigest ∧ stateRevision ≠ 0) →
  encodeSnapshotRevisionState Marshal Sum256Hex value stateRevision baseDigest = Ok (text, digest, normalized) →
  decodeSnapshotState Marshal Unmarshal Sum256Hex text =
    Ok (normalized, mkRevisionMetadata (Some stateRevision) digest baseDigest digest).
Proof.
  intros Hr Hrev Hbase (contents & Hn & Hm & -> & -> & Hlen & Hlt & Ho & _)%encode_ok. destruct Hlaws as [Hobj Henv Hdig].
  assert (baseDigest = "" ∨ lower_digest baseDigest) as Hb by tauto. pose proof (Henv _ _ _ _ _ Hr Hm Hrev (Hdig contents) Hb) as Hun.
  destruct (Hobj _ _ Hm) as [more Hc]. pose proof (payload_found stateRevision (Sum256Hex contents) baseDigest more (Hdig contents) Hb) as Hp.
  assert (drop_string 1 contents = payload_marker +:+ more) as Hdrop by by rewrite Hc. rewrite Hdrop in *. rewrite <- Hc in Hp.
  destruct (lower_digest_valid _ (Hdig contents)) as (Hv & Hlow & Hne).
  unfold decodeSnapshotState. set (text := (revision_prefix _ _ +:+ _) +:+ _) in *.
  assert (len text ≠ 0) as Hz.
  { unfold text, len. rewrite length_append. change (String.length (revision_prefix stateRevision (Sum256Hex contents) +:+ base_field baseDigest))
      with (S (String.length (drop_string 1 (revision_prefix stateRevision (Sum256Hex contents) +:+ base_field baseDigest)))). lia. }
  apply reject_bind. split; [apply orb_false_iff; split; [by apply Z.eqb_neq|apply Z.ltb_ge; unfold maximumEncodedSnapshotBytes, maximumSnapshotBytes in *; lia]|].
  rewrite Hp, Hun. cbn [mbind result_bind env_StateRevision env_StateDigest env_BaseDigest env_snapshot default].
  assert (ToLower (TrimSpace baseDigest) = baseDigest) as Hbl by (destruct Hbase as [->|[Hbd _]]; [reflexivity|by apply lower_digest_valid]).
  rewrite Hlow, Hbl. apply reject_bind. split; [by rewrite Hv, andb_false_r|].
  apply reject_bind. split.
  { destruct Hbase as [->|[Hbd Hnz]]; [reflexivity|]. rewrite (proj1 (lower_digest_valid _ Hbd)), (bool_decide_false _ Hne).
    cbn. rewrite (proj2 (Z.eqb_neq stateRevision 0) Hnz), andb_false_r. reflexivity. }
  rewrite (normalizeSnapshot_idem _ _ Hn). cbn [mbind result_bind]. rewrite (bool_decide_false _ Hne). cbn [negb].
  unfold digestSnapshotPayload. rewrite Hp. cbn [mbind result_bind]. rewrite bool_decide_true by reflexivity. reflexivity.
Qed.
End codec_facts.

(** C11: What one controller encodes, every controller decodes.  The text of a
    normalized snapshot with its revision, its digest and the digest of its
    base decodes to exactly that snapshot, revision and digests; encoding what
    was decoded gives the same text again; and no text that claims a digest is
    accepted unless the snapshot's own text in it has this digest. *)
Theorem replicated_state_roundtrip Marshal Unmarshal Sum256Hex Representable value stateRevision baseDigest text digest normalized :
  codec_laws Marshal Unmarshal Sum256Hex Representable → Representable normalized → 0 ≤ stateRevision ≤ max_uint64 →
  (baseDigest = "" ∨ lower_digest baseDigest ∧ stateRevision ≠ 0) →
  encodeSnapshotRevisionState Marshal Sum256Hex value stateRevision baseDigest = Ok (text, digest, normalized) →
  decodeSnapshotState Marshal Unmarshal Sum256Hex text = Ok (normalized, mkRevisionMetadata (Some stateRevision) digest baseDigest digest) ∧
  encodeSnapshotRevisionState Marshal Sum256Hex normalized stateRevision baseDigest = Ok (text, digest, normalized) ∧
  ∀ text' decoded metadata, decodeSnapshotState Marshal Unmarshal Sum256Hex text' = Ok (decoded, metadata) → sm_StateDigest metadata ≠ "" →
    ∃ payload, snapshotPayload text' = Ok payload ∧ Sum256Hex payload = sm_StateDigest metadata.
Proof.
  intros Hlaws Hr Hrev Hbase He. split; [by eapply (decode_encoded Hlaws)|]. split.
  - apply encode_ok in He as (contents & Hn & Hrest). apply encode_ok. exists contents. split; [by eapply normalizeSnapshot_idem|exact Hrest].
  - intros text' decoded metadata. unfold decodeSnapshotState. intros [_ (payload & Hp & (envelope & _ & [_ H]%reject_bind)%result_bind_ok)%result_bind_ok]%reject_bind.
    apply reject_bind in H as [_ (n & _ & (contentsDigest & Hd & [= <- <-])%result_bind_ok)%result_bind_ok]. cbn [sm_StateDigest]. intros Hne.
    rewrite (bool_decide_false _ Hne) in Hd. cbn [negb] in Hd. unfold digestSnapshotPayload in Hd. rewrite Hp in Hd. cbn [mbind result_bind] in Hd.
    apply reject_bind in Hd as [Hd _]. exists payload. split; [exact Hp|]. by apply negb_false_iff, bool_decide_eq_true in Hd.
Qed.

(** ** A small codec *)

(** The snapshots that hold one number, as JSON would write them. *)
Definition sc_snapshot (k : Z) : snapshot := emptySnapshot <| sn_InventoryGenerations := {["c" := k]} |>.
Definition sc_Representable (s : snapshot) : Prop := ∃ k, 0 ≤ k ≤ max_uint64 ∧ s = sc_snapshot k.
Definition sc_Marshal (s : snapshot) : result replication_error string :=
  Ok ("{" +:+ payload_marker +:+ pretty (default 0 (sn_InventoryGenerations s !! "c")) +:+ "}").
Fixpoint keep_digits (s : string) : string :=
  match s with String c s => if is_digit c then String c (keep_digits s) else keep_digits s | EmptyString => EmptyString end.
Definition sc_zeros : string := "0000000000000000000000000000000000000000000000000000000000000000".
Definition sc_Sum256Hex (t : string) : string := take_string 64 (keep_digits t +:+ sc_zeros).
Definition sc_number (s : string) : Z := default 0 (ParseUint s 10 64).
Definition sc_digest (field s : string) : string := take_string 64 (TrimPrefix s (quoted field +:+ ":" +:+ dq)).
Definition sc_Unmarshal (text : string) : result replication_error snapshotStateEnvelope :=
  match Split "," text with
  | revision :: digest :: rest =>
      let '(base, payload) := match rest with [base; payload] => (sc_digest snapshotBaseDigestField base, payload) | _ => ("", String.concat "" rest) end in
      Ok (mkEnvelope (sc_snapshot (sc_number (hd "" (Split "}" (TrimPrefix payload payload_marker)))))
        (Some (sc_number (TrimPrefix revision ("{" +:+ quoted snapshotStateRevisionField +:+ ":"))))
        (sc_digest snapshotStateDigestField digest) base)
  | _ => Err ErrInvalidSnapshot
  end.
Lemma contains_cons b c s : contains_byte b (String c s) = Ascii.eqb c b || contains_byte b s.
Proof. reflexivity. Qed.
Lemma Split_plain sep a : contains_byte sep a = false → Split sep a = [a].
Proof. induction a as [|c a IH]; [done|]. rewrite contains_cons, Split_cons. intros [Hc Ha]%orb_false_iff. by rewrite Hc, IH. Qed.
Lemma Split_app sep a b : contains_byte sep a = false → Split sep (a +:+ String sep b) = a :: Split sep b.
Proof.
  induction a as [|c a IH].
  - intros _. change ("" +:+ String sep b) with (String sep b). by rewrite Split_cons, Ascii.eqb_refl.
  - rewrite contains_cons, append_cons, Split_cons. intros [Hc Ha]%orb_false_iff. by rewrite Hc, IH.
Qed.
Lemma contains_app b s t : contains_byte b (s +:+ t) = contains_byte b s || contains_byte b t.
Proof. induction s as [|c s IH]; [done|]. rewrite append_cons. cbn. by rewrite IH, orb_assoc. Qed.
Lemma take_string_app s t : take_string (String.length s) (s +:+ t) = s.
Proof. induction s as [|c s IH]; [by destruct t|]. rewrite append_cons. cbn. by rewrite IH. Qed.
Lemma sc_digest_field field value : lower_digest value → sc_digest field (quoted field +:+ ":" +:+ quoted value) = value.
Proof.
  intros [Hl _]. unfold sc_digest, quoted, TrimPrefix.
  replace ((dq +:+ field +:+ dq) +:+ ":" +:+ dq +:+ value +:+ dq) with (((dq +:+ field +:+ dq) +:+ ":" +:+ dq) +:+ value +:+ dq) by by rewrite !append_assoc.
  rewrite cut_prefix_app. cbn [default]. unfold id. replace 64%nat with (String.length value) by (unfold len in Hl; lia). apply take_string_app.
Qed.
Lemma ParseUint_pretty n : 0 ≤ n ≤ max_uint64 → ParseUint (pretty n) 10 64 = Some n.
Proof.
  intros Hn. destruct n as [|p|p]; [reflexivity| |lia].
  change (pretty (Z.pos p)) with (pretty_N_go (N.pos p) ""). pose proof (parse_digits_go (N.pos p) "") as Hp. cbn [parse_digits] in Hp.
  destruct (digits_start (N.pos p) "" ltac:(lia)) as (y & t & Ht). rewrite Ht in *. unfold ParseUint.
  rewrite Hp. cbn [mbind option_bind]. destruct (Z.ltb_spec (Z.of_N (N.pos p)) (2 ^ 64)); [done|unfold max_uint64 in Hn; lia].
Qed.
Lemma digits_kept s : string_forall is_digit (keep_digits s) = true.
Proof. induction s as [|c s IH]; [done|]. cbn. destruct (is_digit c) eqn:Hc; [cbn [string_forall]; by rewrite Hc|done]. Qed.
Lemma take_forall f n s : string_forall f s = true → string_forall f (take_string n s) = true.
Proof. revert s. induction n as [|n IH]; intros [|c s]; try done. cbn [take_string string_forall]. intros [Hc Hs]%andb_true_iff. by rewrite Hc, IH. Qed.
Lemma take_length n s : (n ≤ String.length s)%nat → String.length (take_string n s) = n.
Proof. revert s. induction n as [|n IH]; intros [|c s]; cbn; try lia. intros H. rewrite IH by lia. lia. Qed.
Lemma sc_digest_lower t : lower_digest (sc_Sum256Hex t).
Proof.
  unfold sc_Sum256Hex. split.
  - unfold len. rewrite take_length; [done|]. rewrite length_append. change (String.length sc_zeros) with 64%nat. lia.
  - apply take_forall. rewrite string_forall_app. apply andb_true_iff. split; [|reflexivity].
    eapply string_forall_impl, digits_kept. intros c Hc. by rewrite Hc.
Qed.
Lemma digest_free b value : is_hex b = false → lower_digest value → contains_byte b value = false.
Proof.
  intros Hb [_ Hf]. revert Hf. induction value as [|c t IH]; [done|]. cbn [string_forall contains_byte]. intros [Hc Ht]%andb_true_iff.
  rewrite (IH Ht), orb_false_r. apply Ascii.eqb_neq. intros ->. unfold is_hex in Hb. apply orb_true_iff in Hc as [Hc|Hc]; rewrite Hc in Hb; [done|]. by rewrite orb_true_r in Hb.
Qed.
Lemma field_free field value : contains_byte "," (quoted field) = false → lower_digest value → contains_byte "," (quoted field +:+ ":" +:+ quoted value) = false.
Proof. intros Hf Hv. unfold quoted at 2. rewrite !contains_app, Hf, (digest_free "," value); [reflexivity|reflexivity|done]. Qed.
Lemma sc_laws : codec_laws sc_Marshal sc_Unmarshal sc_Sum256Hex sc_Representable.
Proof.
  split; [intros s c [= <-]; by eexists| |exact sc_digest_lower].
  intros s c stateRevision stateDigest baseDigest (k & Hk & ->) Hm Hrev Hd Hb. injection Hm as <-.
  set (P := payload_marker +:+ pretty k +:+ "}").
  transitivity (sc_Unmarshal (("{" +:+ quoted snapshotStateRevisionField +:+ ":" +:+ pretty stateRevision) +:+
    String "," ((quoted snapshotStateDigestField +:+ ":" +:+ quoted stateDigest) +:+ String "," (base_field baseDigest +:+ P)))).
  { f_equal. unfold revision_prefix. rewrite !append_assoc. reflexivity. }
  assert (contains_byte "," P = false) as HP.
  { unfold P. rewrite !contains_app, pretty_free; [reflexivity|reflexivity|discriminate]. }
  assert (sc_number (hd "" (Split "}" (TrimPrefix P payload_marker))) = k) as Hnum.
  { unfold P, TrimPrefix. rewrite cut_prefix_app. cbn [default]. unfold id. change "}" with (String "}" "").
    rewrite Split_app by (apply pretty_free; [reflexivity|discriminate]). cbn [hd]. unfold sc_number. by rewrite ParseUint_pretty. }
  unfold sc_Unmarshal. rewrite Split_app by (rewrite !contains_app, pretty_free; [reflexivity|reflexivity|discriminate]).
  rewrite Split_app by (apply field_free; [reflexivity|done]). rewrite sc_digest_field by done.
  replace (sc_number (TrimPrefix _ _)) with stateRevision; cycle 1.
  { unfold TrimPrefix. replace ("{" +:+ quoted snapshotStateRevisionField +:+ ":" +:+ pretty stateRevision)
      with (("{" +:+ quoted snapshotStateRevisionField +:+ ":") +:+ pretty stateRevision +:+ "") by by rewrite append_empty_r, !append_assoc.
    rewrite cut_prefix_app, append_empty_r. cbn [default]. unfold id, sc_number. by rewrite ParseUint_pretty. }
  destruct (decide (baseDigest = "")) as [->|Hne].
  - change (base_field "" +:+ P) with P. rewrite (Split_plain "," P HP). change (String.concat "" [P]) with P. by rewrite Hnum.
  - destruct Hb as [?|Hb]; [done|]. unfold base_field. rewrite (bool_decide_false _ Hne). rewrite !append_assoc.
    replace (quoted snapshotBaseDigestField +:+ ":" +:+ quoted baseDigest +:+ "," +:+ P)
      with ((quoted snapshotBaseDigestField +:+ ":" +:+ quoted baseDigest) +:+ String "," P) by by rewrite !append_assoc.
    rewrite Split_app by (apply field_free; [reflexivity|done]). rewrite (Split_plain "," P HP), sc_digest_field by done. by rewrite Hnum.
Qed.
Definition sc_encoded : result replication_error (string * string * snapshot) :=
  encodeSnapshotRevisionState sc_Marshal sc_Sum256Hex (sc_snapshot 7) 3 sc_zeros.
Definition sc_text : string := match sc_encoded with Ok (text, _, _) => text | Err _ => "" end.
Lemma replicated_state_roundtrip_witness : ∃ digest,
  decodeSnapshotState sc_Marshal sc_Unmarshal sc_Sum256Hex sc_text = Ok (sc_snapshot 7, mkRevisionMetadata (Some 3) digest sc_zeros digest) ∧
  encodeSnapshotRevisionState sc_Marshal sc_Sum256Hex (sc_snapshot 7) 3 sc_zeros = Ok (sc_text, digest, sc_snapshot 7).
Proof.
  exists (sc_Sum256Hex "7"). assert (sc_encoded = Ok (sc_text, sc_Sum256Hex "7", sc_snapshot 7)) as He by (vm_compute; reflexivity).
  destruct (replicated_state_roundtrip sc_Marshal sc_Unmarshal sc_Sum256Hex sc_Representable (sc_snapshot 7) 3 sc_zeros sc_text (sc_Sum256Hex "7") (sc_snapshot 7))
    as (H1 & H2 & _).
  - exact sc_laws.
  - exists 7. split; [unfold max_uint64; lia|reflexivity].
  - unfold max_uint64; lia.
  - right. split; [split; reflexivity|discriminate].
  - exact He.
  - exact (conj H1 H2).
Defined.
