(* ===== verification/Replication.v ===== *)
(** * Replication of the metadata snapshot

    [src/internal/store/replication.go], [persistSnapshotRevisionLocked] of
    [repository.go], and the state machine of [src/internal/consensus/raft.go]:
    every controller applies the entries of the Raft log, each of which is a
    complete encoded snapshot, and keeps the result in its file.

    The Raft library itself is the log: all controllers apply the same entries
    in the same order, each at its own pace, and again from an earlier entry
    after a restart.  [compress/flate] and the codec of [SnapshotState] are
    arguments. *)
From S2P Require Import Prelude GoStd Model Endpoint Lease Locks Repository Operations SnapshotEquality SnapshotState.
#[local] Open Scope Z_scope.

(** ** The state machine of a controller *)

(** [error.Committed()]. *)
Definition stateWasCommitted (err : option replication_error) : bool := err == Some ErrPersistedWarning.
(** [consensus.StateMachine] with its optional methods.  Applying also depends
    on what becomes of the file. *)
Class StateMachine (M : Type) : Type := {
  ValidateReplicatedState : string → M → option replication_error;
  ApplyReplicatedState : commit_outcome → string → M → M * option replication_error;
  RestoreReplicatedState : option (commit_outcome → string → M → M * option replication_error);
  ApplyValidatesReplicatedState : bool
}.
Definition validatesReplicatedStateDuringApply {M} `{StateMachine M} : bool := ApplyValidatesReplicatedState.
Record replicatedFSM (M : Type) : Type := mkFSM { fsm_machine : M; fsm_state : string }.
Arguments mkFSM {M} _ _.
Arguments fsm_machine {M} _.
Arguments fsm_state {M} _.

(** *** The entries of the log *)

Definition maximumReplicatedStateBytes : Z := maximumSnapshotBytes.
Definition replicatedLogCompressedMagic : string := bytes [67; 71; 72; 65; 82; 65; 70; 84; 1]%N.
Section log.
(** [flate.NewWriter] and its methods; [flate.NewReader] read to its end or up to the limit. *)
Variables (Deflate : string → result replication_error string) (Inflate : Z → string → result replication_error string).
Definition encodeReplicatedLog (state : string) (compression : bool) : result replication_error string :=
  _ ← reject ((len state =? 0) || (maximumReplicatedStateBytes <? len state)) ErrInvalidSnapshot;
  if negb compression then Ok state
  else
    compressed ← Deflate state;
    let encoded := replicatedLogCompressedMagic +:+ compressed in
    Ok (if len state <=? len encoded then state else encoded).
Definition decodeCompressedReplicatedLog (contents : string) : result replication_error string :=
  state ← Inflate (maximumReplicatedStateBytes + 1) (drop_string (String.length replicatedLogCompressedMagic) contents);
  _ ← reject ((len state =? 0) || (maximumReplicatedStateBytes <? len state)) ErrInvalidSnapshot;
  Ok state.
Definition decodeReplicatedLog (contents : string) : result replication_error string :=
  _ ← reject ((len contents =? 0) || (maximumReplicatedStateBytes <? len contents)) ErrInvalidSnapshot;
  if HasPrefix contents replicatedLogCompressedMagic then
    _ ← reject (len contents =? len replicatedLogCompressedMagic) ErrInvalidSnapshot;
    decodeCompressedReplicatedLog contents
  else Ok contents.

(** *** Applying, saving and restoring *)

Context {M : Type} `{StateMachine M}.
Definition fsm_Apply (outcome : commit_outcome) (data : string) (fsm : replicatedFSM M) : replicatedFSM M * option replication_error :=
  match decodeReplicatedLog data with
  | Err e => (fsm, Some e)
  | Ok state =>
      match (if validatesReplicatedStateDuringApply then None else ValidateReplicatedState state (fsm_machine fsm)) with
      | Some e => (fsm, Some e)
      | None =>
          let '(machine, applyErr) := ApplyReplicatedState outcome state (fsm_machine fsm) in
          if bool_decide (is_Some applyErr) && negb (stateWasCommitted applyErr) then (mkFSM machine (fsm_state fsm), applyErr)
          else (mkFSM machine state, applyErr)
      end
  end.
Definition fsm_Snapshot (fsm : replicatedFSM M) : string := fsm_state fsm.
(** The contents of a Raft snapshot, of which at most one byte too many is read. *)
Definition fsm_Restore (outcome : commit_outcome) (contents : result replication_error string) (fsm : replicatedFSM M)
    : replicatedFSM M * option replication_error :=
  match contents with
  | Err e => (fsm, Some e)
  | Ok state =>
      if maximumReplicatedStateBytes <? len state then (fsm, Some ErrInvalidSnapshot)
      else if len state =? 0 then (fsm, None)
      else match (if validatesReplicatedStateDuringApply then None else ValidateReplicatedState state (fsm_machine fsm)) with
      | Some e => (fsm, Some e)
      | None =>
          let apply := match RestoreReplicatedState with Some restore => restore | None => ApplyReplicatedState end in
          let '(machine, applyErr) := apply outcome state (fsm_machine fsm) in
          if bool_decide (is_Some applyErr) && negb (stateWasCommitted applyErr) then (mkFSM machine (fsm_state fsm), applyErr)
          else (mkFSM machine state, applyErr)
      end
  end.
End log.

(** ** The repository as a state machine *)

(** The fields of [store.Repository] that replication reads and writes. *)
Record Replica : Type := mkReplica { rp_snapshot : snapshot; rp_stateRevision : uint64; rp_stateDigest : string }.

Section repository.
Variables (Marshal : snapshot → result replication_error string) (Unmarshal : string → result replication_error snapshotStateEnvelope)
  (Sum256Hex : string → string).
(** The rename is the commit boundary: what happens before it leaves the state as it was. *)
Definition persistSnapshotRevisionLocked (value : snapshot) (stateRevision : uint64) (outcome : commit_outcome) (r : Replica)
    : Replica * option replication_error :=
  match encodeSnapshotRevisionState Marshal Sum256Hex value stateRevision "" with
  | Err e => (r, Some e)
  | Ok (_, stateDigest, normalized) =>
      let published := mkReplica normalized stateRevision stateDigest in
      match outcome with
      | CommitApplied => (published, None)
      | CommitAppliedWarning => (published, Some ErrPersistedWarning)
      | CommitRejected => (r, Some ErrNotPersisted)
      end
  end.
Definition currentDigest (r : Replica) : result replication_error string :=
  if rp_stateDigest r == "" then snapshotDigest Marshal Sum256Hex (rp_snapshot r) else Ok (rp_stateDigest r).
(** Nothing changes; it is an error unless nothing would have changed. *)
Definition already_applied (decoded : snapshot) (r : Replica) : Replica * option replication_error :=
  (r, if decoded == rp_snapshot r then None else Some ErrReplicaConflict).
Definition applyReplicatedState (authoritative : bool) (outcome : commit_outcome) (contents : string) (r : Replica)
    : Replica * option replication_error :=
  match decodeSnapshotState Marshal Unmarshal Sum256Hex contents with
  | Err e => (r, Some e)
  | Ok (decoded, metadata) =>
      let decoded := if maximumEncodedSnapshotBytes <? len contents then compactSnapshotHistory decoded else decoded in
      match currentDigest r with
      | Err e => (r, Some e)
      | Ok current =>
          if negb authoritative && (sm_StateDigest metadata != "") && (sm_StateDigest metadata == current) then already_applied decoded r
          else match authoritative, sm_StateRevision metadata with
          | false, Some revision =>
              if revision <? rp_stateRevision r then (r, Some ErrReplicaConflict)
              else if revision =? rp_stateRevision r then already_applied decoded r
              else persistSnapshotRevisionLocked decoded revision outcome r
          | _, revision =>
              if negb authoritative && (sm_BaseDigest metadata != "") && (sm_BaseDigest metadata != current) then (r, Some ErrReplicaConflict)
              else persistSnapshotRevisionLocked decoded (default (u64 (rp_stateRevision r + 1)) revision) outcome r
          end
      end
  end.
#[export] Instance repository_machine : StateMachine Replica := {|
  ValidateReplicatedState contents _ :=
    match decodeSnapshotContents Marshal Unmarshal Sum256Hex contents with Ok _ => None | Err e => Some e end;
  ApplyReplicatedState := applyReplicatedState false;
  RestoreReplicatedState := Some (applyReplicatedState true);
  ApplyValidatesReplicatedState := true
|}.
(** What [commitSnapshotLocked] proposes; [cas] is [SnapshotCASActive()]. *)
Definition proposal (cas : bool) (value : snapshot) (r : Replica) : result replication_error (string * string * snapshot) :=
  _ ← require cas ErrReplicaConflict;
  baseDigest ← currentDigest r;
  encodeSnapshotRevisionState Marshal Sum256Hex (compactSnapshotHistory value) (u64 (rp_stateRevision r + 1)) baseDigest.
End repository.

(** ** Controllers and their log *)

(** An entry; what it proposes and the snapshot this was computed from are known to the theorems only. *)
Record LogEntry : Type := mkLogEntry { le_data : string; le_value : snapshot; le_base : snapshot }.
Record Controller : Type := mkController { co_fsm : replicatedFSM Replica; co_applied : nat }.
Record System : Type := mkSystem { sy_log : list LogEntry; sy_controllers : gmap nat Controller }.
Definition co_replica (c : Controller) : Replica := fsm_machine (co_fsm c).

Section system.
Variables (Marshal : snapshot → result replication_error string) (Unmarshal : string → result replication_error snapshotStateEnvelope)
  (Sum256Hex : string → string) (Representable : snapshot → Prop) (Deflate : string → result replication_error string)
  (Inflate : Z → string → result replication_error string).
(** What may become of the file when an entry is applied. *)
Variable may : commit_outcome → Prop.
Abbreviation apply_entry := (fsm_Apply Inflate (H:=repository_machine Marshal Unmarshal Sum256Hex)) (only parsing).

Inductive system_step : System → System → Prop :=
(** A controller proposes the next snapshot; whether it is, or still is, the leader does not matter. *)
| step_propose log controllers id c value text digest normalized compression data :
    controllers !! id = Some c → rp_stateRevision (co_replica c) < max_uint64 → Representable normalized →
    proposal Marshal Sum256Hex true value (co_replica c) = Ok (text, digest, normalized) →
    encodeReplicatedLog Deflate text compression = Ok data →
    system_step (mkSystem log controllers) (mkSystem (log ++ [mkLogEntry data normalized (rp_snapshot (co_replica c))]) controllers)
(** A controller applies its next entry. *)
| step_apply log controllers id c entry outcome :
    controllers !! id = Some c → log !! co_applied c = Some entry → may outcome →
    system_step (mkSystem log controllers)
      (mkSystem log (<[id := mkController (apply_entry outcome (le_data entry) (co_fsm c)).1 (S (co_applied c))]> controllers))
(** A controller restarts with the file it has and applies the log again from some entry on. *)
| step_restart log controllers id c first :
    controllers !! id = Some c → (first ≤ co_applied c)%nat →
    system_step (mkSystem log controllers) (mkSystem log (<[id := mkController (mkFSM (co_replica c) "") first]> controllers)).

(** What a controller without failures has after these entries. *)
Definition replay (log : list LogEntry) (r : Replica) : Replica :=
  foldl (λ r entry, fsm_machine (apply_entry CommitApplied (le_data entry) (mkFSM r "")).1) r log.
Definition start (r : Replica) (n : nat) : System :=
  mkSystem [] (list_to_map ((λ id, (id, mkController (mkFSM r "") 0)) <$> seq 0 n)).
End system.
