(* ===== verification/ReplicationSafety.v ===== *)
(** * Controllers that apply the same log

    The theorems on [Replication]: as long as no controller fails to publish
    its file, all controllers go through the same snapshots, one per revision,
    and each accepted snapshot was computed from the one it replaces; and what
    happens when a file cannot be published once. *)
From S2P Require Import Prelude GoStd Model Endpoint Lease Locks Repository Operations SnapshotEquality SnapshotState Replication.
#[local] Open Scope Z_scope.

(** What is used of [compress/flate]: reading gives back what was written, and the stream is not empty. *)
Record flate_laws (Deflate : string → result replication_error string) (Inflate : Z → string → result replication_error string) : Prop := mk_flate_laws {
  fl_inverse : ∀ s c n, Deflate s = Ok c → len s ≤ n → Inflate n c = Ok s;
  fl_nonempty : ∀ s c, Deflate s = Ok c → c ≠ ""
}.
Lemma len_append a b : len (a +:+ b) = len a + len b.
Proof. unfold len. rewrite length_append. lia. Qed.
Lemma drop_string_app a b : drop_string (String.length a) (a +:+ b) = b.
Proof. induction a as [|c a IH]; [by destruct b|]. rewrite append_cons. exact IH. Qed.
Lemma log_roundtrip Deflate Inflate state compression data : flate_laws Deflate Inflate → HasPrefix state replicatedLogCompressedMagic = false →
  encodeReplicatedLog Deflate state compression = Ok data → decodeReplicatedLog Inflate data = Ok state.
Proof.
  intros [Hinv Hne] Hp. unfold encodeReplicatedLog. intros [Hs H]%reject_bind.
  assert (decodeReplicatedLog Inflate state = Ok state) as Hraw.
  { unfold decodeReplicatedLog. apply reject_bind. split; [exact Hs|]. by rewrite Hp. }
  destruct compression; cbn [negb] in H; [|by injection H as <-]. apply result_bind_ok in H as (c & Hc & H). cbv zeta in H.
  destruct (Z.leb_spec (len state) (len (replicatedLogCompressedMagic +:+ c))) as [|Hlt]; injection H as <-; [exact Hraw|].
  apply orb_false_iff in Hs as [Hs1 Hs2]. apply Z.eqb_neq in Hs1. apply Z.ltb_ge in Hs2.
  assert (0 < len c) as Hpos by (pose proof (Hne _ _ Hc); unfold len; destruct c; [done|cbn; lia]).
  rewrite len_append in Hlt. change (len replicatedLogCompressedMagic) with 9 in Hlt.
  unfold decodeReplicatedLog. apply reject_bind. split.
  { apply orb_false_iff. rewrite len_append. change (len replicatedLogCompressedMagic) with 9. split; [apply Z.eqb_neq; lia|apply Z.ltb_ge; lia]. }
  unfold HasPrefix. pose proof (cut_prefix_app replicatedLogCompressedMagic c "") as Hcut. rewrite !append_empty_r in Hcut. rewrite Hcut.
  rewrite bool_decide_true by by eexists. apply reject_bind. split.
  { rewrite len_append. change (len replicatedLogCompressedMagic) with 9. apply Z.eqb_neq. lia. }
  unfold decodeCompressedReplicatedLog. rewrite drop_string_app, (Hinv _ _ _ Hc) by lia. cbn [mbind result_bind].
  apply reject_bind. split; [|done]. apply orb_false_iff. split; [by apply Z.eqb_neq|by apply Z.ltb_ge].
Qed.

Lemma len_nonneg s : 0 ≤ len s.
Proof. unfold len. lia. Qed.
Lemma base_field_empty : len (base_field "") = 0.
Proof. reflexivity. Qed.
Lemma brace_raw t : HasPrefix ("{" +:+ t) replicatedLogCompressedMagic = false.
Proof. reflexivity. Qed.

(** ** What an entry does *)

Definition effect (revision : uint64) (digest : string) (value : snapshot) (r : Replica) : Replica :=
  if digest == rp_stateDigest r then r else if revision <=? rp_stateRevision r then r else mkReplica value revision digest.
Definition published (outcome : commit_outcome) : Prop := outcome ≠ CommitRejected.

Section system.
Context {Marshal : snapshot → result replication_error string} {Unmarshal : string → result replication_error snapshotStateEnvelope}
  {Sum256Hex : string → string} {Representable : snapshot → Prop} {Deflate : string → result replication_error string}
  {Inflate : Z → string → result replication_error string}.
Context (Hcodec : codec_laws Marshal Unmarshal Sum256Hex Representable) (Hflate : flate_laws Deflate Inflate).
Abbreviation apply_entry := (fsm_Apply Inflate (H:=repository_machine Marshal Unmarshal Sum256Hex)) (only parsing).
Abbreviation replay := (replay Marshal Unmarshal Sum256Hex Inflate) (only parsing).

Record entry_ok (revision : uint64) (digest : string) (e : LogEntry) : Prop := mk_entry_ok {
  eo_decoded : ∃ text base, decodeReplicatedLog Inflate (le_data e) = Ok text ∧ len text ≤ maximumEncodedSnapshotBytes ∧
    decodeSnapshotState Marshal Unmarshal Sum256Hex text = Ok (le_value e, mkRevisionMetadata (Some revision) digest base digest);
  eo_encoded : ∃ text, encodeSnapshotRevisionState Marshal Sum256Hex (le_value e) revision "" = Ok (text, digest, le_value e);
  eo_digest : lower_digest digest
}.
Lemma apply_entry_ok revision digest e outcome fsm : entry_ok revision digest e → published outcome → lower_digest (rp_stateDigest (fsm_machine fsm)) →
  fsm_machine (apply_entry outcome (le_data e) fsm).1 = effect revision digest (le_value e) (fsm_machine fsm) ∧
  ((apply_entry outcome (le_data e) fsm).2 = None → rp_snapshot (effect revision digest (le_value e) (fsm_machine fsm)) = le_value e).
Proof.
  intros [(text & base & Hlog & Hlen & Hdec) (text' & Henc) Hdig] Hout Hr. destruct fsm as [r state]. cbn [fsm_machine] in *.
  destruct (lower_digest_valid _ Hr) as (_ & _ & Hne). destruct (lower_digest_valid _ Hdig) as (_ & _ & Hne').
  unfold fsm_Apply. rewrite Hlog. cbn [validatesReplicatedStateDuringApply ApplyValidatesReplicatedState repository_machine fsm_machine ApplyReplicatedState].
  assert (applyReplicatedState Marshal Unmarshal Sum256Hex false outcome text r =
    if digest == rp_stateDigest r then already_applied (le_value e) r
    else if revision <? rp_stateRevision r then (r, Some ErrReplicaConflict)
    else if revision =? rp_stateRevision r then already_applied (le_value e) r
    else (mkReplica (le_value e) revision digest, match outcome with CommitAppliedWarning => Some ErrPersistedWarning | _ => None end)) as ->.
  { unfold applyReplicatedState. rewrite Hdec. cbn [sm_StateDigest sm_StateRevision]. rewrite (proj2 (Z.ltb_ge _ _) Hlen).
    unfold currentDigest. rewrite (bool_decide_false _ Hne), (bool_decide_false _ Hne'). cbn [negb andb].
    destruct (digest == rp_stateDigest r); [done|]. destruct (_ <? _); [done|]. destruct (_ =? _); [done|].
    unfold persistSnapshotRevisionLocked. rewrite Henc. by destruct outcome. }
  unfold effect, already_applied. destruct (Z.leb_spec revision (rp_stateRevision r)) as [Hle|Hlt].
  - case_bool_decide as Hd; [|destruct (Z.ltb_spec revision (rp_stateRevision r)); [done|rewrite (proj2 (Z.eqb_eq _ _)) by lia]];
      (destruct (bool_decide_reflect (le_value e = rp_snapshot r)) as [Heq|]; [|done]); by split.
  - case_bool_decide as Hd; [destruct (bool_decide_reflect (le_value e = rp_snapshot r)) as [Heq|]; [|done]; by split|].
    rewrite (proj2 (Z.ltb_ge _ _)), (proj2 (Z.eqb_neq _ _)) by lia. by destruct outcome.
Qed.
(** The digest of the base takes room in the text. *)
Lemma encode_without_base value revision base text digest normalized :
  encodeSnapshotRevisionState Marshal Sum256Hex value revision base = Ok (text, digest, normalized) →
  ∃ text', encodeSnapshotRevisionState Marshal Sum256Hex normalized revision "" = Ok (text', digest, normalized).
Proof.
  intros (contents & Hn & Hm & Hd & Ht & Hlc & Hlt & Ho & _)%encode_ok. eexists. apply encode_ok. exists contents.
  split_and!; [by eapply normalizeSnapshot_idem|exact Hm|exact Hd|reflexivity|exact Hlc| |exact Ho|reflexivity].
  rewrite Ht in Hlt. rewrite !len_append in Hlt. rewrite !len_append. pose proof (len_nonneg (base_field base)) as Hb.
  rewrite base_field_empty. revert Hlt Hb. generalize (len (drop_string 1 contents)), (len (base_field base)), (len (revision_prefix revision digest)).
  clear. intros a b c Hlt Hb. lia.
Qed.
Lemma encoded_raw value revision base text digest normalized :
  encodeSnapshotRevisionState Marshal Sum256Hex value revision base = Ok (text, digest, normalized) →
  HasPrefix text replicatedLogCompressedMagic = false ∧ len text ≤ maximumEncodedSnapshotBytes ∧ lower_digest digest.
Proof.
  intros (contents & Hn & Hm & Hd & Ht & Hlc & Hlt & Ho & _)%encode_ok. split_and!; [|exact Hlt|rewrite Hd; apply (cl_digest _ _ _ _ Hcodec)].
  rewrite Ht. unfold revision_prefix. rewrite !append_assoc. apply brace_raw.
Qed.
Lemma proposal_encodes value r text digest normalized : lower_digest (rp_stateDigest r) → 0 ≤ rp_stateRevision r < max_uint64 →
  proposal Marshal Sum256Hex true value r = Ok (text, digest, normalized) →
  encodeSnapshotRevisionState Marshal Sum256Hex (compactSnapshotHistory value) (rp_stateRevision r + 1) (rp_stateDigest r) = Ok (text, digest, normalized).
Proof.
  intros Hr Hrev Hp. unfold proposal in Hp. apply require_bind in Hp as [_ Hp]. apply result_bind_ok in Hp as (base & Hb & Hp).
  destruct (lower_digest_valid _ Hr) as (_ & _ & Hne). unfold currentDigest in Hb. rewrite (bool_decide_false _ Hne) in Hb. injection Hb as <-.
  assert (u64 (rp_stateRevision r + 1) = rp_stateRevision r + 1) as Hu by (apply Z.mod_small; unfold max_uint64 in *; lia). by rewrite Hu in Hp.
Qed.
Lemma proposed_ok value r text digest normalized compression data : lower_digest (rp_stateDigest r) →
  0 ≤ rp_stateRevision r < max_uint64 → Representable normalized →
  proposal Marshal Sum256Hex true value r = Ok (text, digest, normalized) → encodeReplicatedLog Deflate text compression = Ok data →
  entry_ok (rp_stateRevision r + 1) digest (mkLogEntry data normalized (rp_snapshot r)).
Proof.
  intros Hr Hrev Hrep Hp%proposal_encodes Hlog; [|exact Hr|exact Hrev]. destruct (encoded_raw _ _ _ _ _ _ Hp) as (Hraw & Hlt & Hld).
  split; cbn [le_data le_value]; [|by eapply encode_without_base|exact Hld]. exists text, (rp_stateDigest r). split_and!; [|exact Hlt|].
  - by eapply log_roundtrip, Hlog.
  - eapply (decode_encoded Hcodec); [exact Hrep|unfold max_uint64 in *; lia|right; split; [exact Hr|lia]|exact Hp].
Qed.

(** ** The log and the snapshots it produces *)

Context (r0 : Replica) (Hr0 : lower_digest (rp_stateDigest r0)) (Hrev0 : 0 ≤ rp_stateRevision r0).
(** The replica after [k] entries. *)
Definition after (log : list LogEntry) (k : nat) : Replica := replay (take k log) r0.
(** Every entry was computed from the replica after some earlier number of entries. *)
Definition log_ok (log : list LogEntry) : Prop := ∀ k e, log !! k = Some e → ∃ j revision digest, (j ≤ k)%nat ∧
  entry_ok revision digest e ∧ revision = rp_stateRevision (after log j) + 1 ∧ le_base e = rp_snapshot (after log j).

Lemma after_app log e k : (k ≤ length log)%nat → after (log ++ [e]) k = after log k.
Proof. intros Hk. unfold after. by rewrite take_app_le. Qed.
Lemma after_step log k e : log !! k = Some e →
  after log (S k) = fsm_machine (apply_entry CommitApplied (le_data e) (mkFSM (after log k) "")).1.
Proof. intros He. unfold after, Replication.replay. rewrite (take_S_r _ _ _ He), foldl_app. done. Qed.
Lemma after_ok log k : log_ok log → lower_digest (rp_stateDigest (after log k)) ∧ 0 ≤ rp_stateRevision (after log k).
Proof.
  intros Hlog. induction k as [|k [IHd IHr]]; [done|]. destruct (log !! k) as [e|] eqn:He.
  - destruct (Hlog k e He) as (j & revision & digest & _ & Hok & Hrev & _). rewrite (after_step _ _ _ He).
    rewrite (proj1 (apply_entry_ok revision digest e CommitApplied (mkFSM (after log k) "") Hok ltac:(done) IHd)). cbn [fsm_machine].
    unfold effect. case_bool_decide; [done|]. destruct (Z.leb_spec revision (rp_stateRevision (after log k))); [done|].
    split; [exact (eo_digest _ _ _ Hok)|cbn; lia].
  - unfold after in *. apply lookup_ge_None in He. rewrite take_ge in IHd, IHr by lia. by rewrite take_ge by lia.
Qed.
Lemma after_effect log k e revision digest : log_ok log → log !! k = Some e → entry_ok revision digest e →
  after log (S k) = effect revision digest (le_value e) (after log k).
Proof.
  intros Hlog He Hok. rewrite (after_step _ _ _ He).
  by rewrite (proj1 (apply_entry_ok revision digest e CommitApplied (mkFSM (after log k) "") Hok ltac:(done) (proj1 (after_ok log k Hlog)))).
Qed.
Lemma after_mono log j k : log_ok log → (j ≤ k)%nat → rp_stateRevision (after log j) ≤ rp_stateRevision (after log k) ∧
  (rp_stateRevision (after log j) = rp_stateRevision (after log k) → after log j = after log k).
Proof.
  intros Hlog. induction 1 as [|k Hjk [IH1 IH2]]; [done|]. destruct (log !! k) as [e|] eqn:He.
  - destruct (Hlog k e He) as (i & revision & digest & _ & Hok & _). rewrite (after_effect _ _ _ _ _ Hlog He Hok). unfold effect.
    case_bool_decide; [done|]. destruct (Z.leb_spec revision (rp_stateRevision (after log k))); [done|]. cbn. split; lia.
  - unfold after in *. apply lookup_ge_None in He. rewrite (take_ge log k) in IH1, IH2 by lia. by rewrite (take_ge log (S k)) by lia.
Qed.
(** An entry is refused, or follows the replica it was computed from. *)
Lemma entry_follows log k e j revision digest : log_ok log → log !! k = Some e → (j ≤ k)%nat → entry_ok revision digest e →
  revision = rp_stateRevision (after log j) + 1 → after log (S k) = after log k ∨
    after log j = after log k ∧ after log (S k) = mkReplica (le_value e) (rp_stateRevision (after log k) + 1) digest.
Proof.
  intros Hlog He Hj Hok Hrev. rewrite (after_effect _ _ _ _ _ Hlog He Hok). unfold effect. case_bool_decide; [by left|].
  destruct (Z.leb_spec revision (rp_stateRevision (after log k))) as [|Hlt]; [by left|]. right.
  destruct (after_mono log j k Hlog Hj) as [H1 H2]. assert (rp_stateRevision (after log j) = rp_stateRevision (after log k)) as Heq by lia.
  split; [by apply H2|]. f_equal. lia.
Qed.
(** Applying an old entry again changes nothing. *)
Lemma applied_again log k h e revision digest : log_ok log → log !! k = Some e → (k < h)%nat → entry_ok revision digest e →
  effect revision digest (le_value e) (after log h) = after log h.
Proof.
  intros Hlog He Hk Hok. unfold effect. case_bool_decide as Hd; [done|]. destruct (Z.leb_spec revision (rp_stateRevision (after log h))) as [|Hlt]; [done|].
  exfalso. destruct (Hlog k e He) as (j & revision' & digest' & Hj & Hok' & Hrev & _).
  assert (revision' = revision ∧ digest' = digest) as [-> ->].
  { destruct (eo_decoded _ _ _ Hok) as (t & b & H1 & _ & H2), (eo_decoded _ _ _ Hok') as (t' & b' & H1' & _ & H2'). rewrite H1 in H1'. injection H1' as <-.
    rewrite H2 in H2'. by injection H2' as -> -> _. }
  destruct (after_mono log j k Hlog Hj) as [Hm1 _]. destruct (after_mono log k (S k) Hlog ltac:(lia)) as [Hm2 _].
  destruct (after_mono log (S k) h Hlog ltac:(lia)) as [Hm3 _]. destruct (after_mono log k h Hlog ltac:(lia)) as [_ Heq].
  destruct (entry_follows _ _ _ _ _ _ Hlog He Hj Hok Hrev) as [Hs|[_ Hs]]; [|rewrite Hs in Hm3; cbn in Hm3; lia].
  rewrite (after_effect _ _ _ _ _ Hlog He Hok) in Hs. assert (after log k = after log h) as Heq' by (apply Heq; lia). rewrite <- Heq' in Hd, Hlt.
  unfold effect in Hs. rewrite (bool_decide_false _ Hd) in Hs. destruct (Z.leb_spec revision (rp_stateRevision (after log k))); [lia|].
  rewrite <- Hs in Hd. by apply Hd.
Qed.

(** ** The reachable systems *)

Definition system_ok (s : System) : Prop := log_ok (sy_log s) ∧ ∀ i c, sy_controllers s !! i = Some c →
  ∃ h, (co_applied c ≤ h ≤ length (sy_log s))%nat ∧ co_replica c = after (sy_log s) h.
Lemma start_ok n : system_ok (start r0 n).
Proof.
  split; [by intros k e ?|]. intros i c Hc. exists 0%nat. apply elem_of_list_to_map_2 in Hc. apply list_elem_of_fmap in Hc as (j & [= -> ->] & _). done.
Qed.
Lemma step_ok s s' : system_step Marshal Unmarshal Sum256Hex Representable Deflate Inflate published s s' → system_ok s → system_ok s'.
Proof.
  intros Hs [Hlog Hcs]. destruct Hs as [log controllers id c value text digest normalized compression data Hc Hrev Hrep Hp Hdata|
    log controllers id c e outcome Hc He Hout|log controllers id c first Hc Hfirst]; cbn [sy_log sy_controllers] in *.
  - destruct (Hcs id c Hc) as (h & [Hh1 Hh2] & Hrc). destruct (after_ok log h Hlog) as [Hd Hr]. rewrite <- Hrc in Hd, Hr. split.
    + intros k e He. apply lookup_snoc_Some in He as [[Hk He]|[-> <-]].
      * destruct (Hlog k e He) as (j & revision & dg & Hj & Hok & Hv & Hb). exists j, revision, dg. cbn [sy_log]. rewrite after_app by lia. done.
      * exists h, (rp_stateRevision (co_replica c) + 1), digest. cbn [sy_log le_base]. rewrite after_app by lia.
        rewrite <- Hrc. split_and!; [lia|by eapply proposed_ok|done|done].
    + intros i c' Hc'. destruct (Hcs i c' Hc') as (h' & Hh' & Hr'). exists h'. cbn [sy_log]. rewrite length_app, after_app by lia. split; [cbn; lia|done].
  - destruct (Hcs id c Hc) as (h & [Hh1 Hh2] & Hrc). destruct (Hlog _ _ He) as (j & revision & digest & Hj & Hok & Hv & Hb). destruct (after_ok log h Hlog) as [Hd _].
    split; [exact Hlog|]. cbn [sy_log]. intros i c' Hc'. cbn [sy_controllers] in Hc'. destruct (decide (i = id)) as [->|Hi]; [|rewrite lookup_insert_ne in Hc' by done; by apply (Hcs i)].
    rewrite lookup_insert_eq in Hc'. injection Hc' as <-. cbn [co_applied]. unfold co_replica at 1. cbn [co_fsm].
    rewrite (proj1 (apply_entry_ok _ _ _ outcome (co_fsm c) Hok Hout ltac:(unfold co_replica in Hrc; by rewrite Hrc))).
    change (fsm_machine (co_fsm c)) with (co_replica c). rewrite Hrc. apply lookup_lt_Some in He as Hlt.
    destruct (decide (h = co_applied c)) as [->|Hne].
    + exists (S (co_applied c)). split; [lia|]. symmetry. by apply after_effect.
    + exists h. split; [lia|]. eapply applied_again; [exact Hlog|exact He|lia|exact Hok].
  - destruct (Hcs id c Hc) as (h & Hh & Hrc). split; [exact Hlog|]. cbn [sy_log]. intros i c' Hc'. cbn [sy_controllers] in Hc'.
    destruct (decide (i = id)) as [->|Hi]; [|rewrite lookup_insert_ne in Hc' by done; by apply (Hcs i)].
    rewrite lookup_insert_eq in Hc'. injection Hc' as <-. exists h. split; [cbn; lia|exact Hrc].
Qed.
Lemma reachable_ok n s : rtc (system_step Marshal Unmarshal Sum256Hex Representable Deflate Inflate published) (start r0 n) s → system_ok s.
Proof. intros Hs. pose proof (start_ok n) as H0. induction Hs as [|s1 s2 s3 Hs _ IH]; [done|]. eapply IH, step_ok; [exact Hs|exact H0]. Qed.
End system.

(** ** Properties *)

(** C5: Replication linearizes the updates.  From any first snapshot, however
    controllers propose (leaders or not, on current or outdated snapshots),
    apply entries and restart, and as long as each of them publishes its file:
    every controller has what the first [h] entries of the log produce, for
    some [h] at or beyond the entry it applies next; two controllers with the
    same revision have the same snapshot; every entry of the log either changes
    nothing or replaces exactly the snapshot it was computed from, with the next
    revision, so no accepted update is lost; and an entry whose application
    reports no error has left its own snapshot. *)
Theorem replicated_updates_linear Marshal Unmarshal Sum256Hex Representable Deflate Inflate r0 n s :
  codec_laws Marshal Unmarshal Sum256Hex Representable → flate_laws Deflate Inflate →
  lower_digest (rp_stateDigest r0) → 0 ≤ rp_stateRevision r0 →
  rtc (system_step Marshal Unmarshal Sum256Hex Representable Deflate Inflate published) (start r0 n) s →
  let after k := replay Marshal Unmarshal Sum256Hex Inflate (take k (sy_log s)) r0 in
  (∀ i c, sy_controllers s !! i = Some c → ∃ h, (co_applied c ≤ h ≤ length (sy_log s))%nat ∧ co_replica c = after h) ∧
  (∀ i j c d, sy_controllers s !! i = Some c → sy_controllers s !! j = Some d →
    rp_stateRevision (co_replica c) = rp_stateRevision (co_replica d) → co_replica c = co_replica d) ∧
  ∀ k e, sy_log s !! k = Some e →
    (after (S k) = after k ∨
     rp_snapshot (after k) = le_base e ∧ rp_snapshot (after (S k)) = le_value e ∧ rp_stateRevision (after (S k)) = rp_stateRevision (after k) + 1) ∧
    ((fsm_Apply Inflate (H:=repository_machine Marshal Unmarshal Sum256Hex) CommitApplied (le_data e) (mkFSM (after k) "")).2 = None →
     rp_snapshot (after (S k)) = le_value e).
Proof.
  intros Hcodec Hflate Hr0 Hrev0 Hs. destruct (reachable_ok Hcodec Hflate r0 Hr0 Hrev0 n s Hs) as [Hlog Hcs]. cbv zeta.
  change (replay Marshal Unmarshal Sum256Hex Inflate (take ?k (sy_log s)) r0) with (after (Marshal:=Marshal) (Unmarshal:=Unmarshal) (Sum256Hex:=Sum256Hex) (Inflate:=Inflate) r0 (sy_log s) k).
  split; [exact Hcs|]. split.
  - intros i j c d Hc Hd. destruct (Hcs i c Hc) as (h & _ & ->), (Hcs j d Hd) as (h' & _ & ->). intros Heq.
    destruct (Nat.le_ge_cases h h') as [Hh|Hh]; [by apply (after_mono r0 Hr0 Hrev0 _ h h' Hlog Hh)|symmetry; by apply (after_mono r0 Hr0 Hrev0 _ h' h Hlog Hh)].
  - intros k e He. destruct (Hlog k e He) as (j & revision & digest & Hj & Hok & Hv & Hb). split.
    + destruct (entry_follows r0 Hr0 Hrev0 _ _ _ _ _ _ Hlog He Hj Hok Hv) as [Hs'|[Hjk Hs']]; [by left|right]. rewrite Hs', Hb, Hjk. done.
    + rewrite (after_effect r0 Hr0 Hrev0 _ _ _ _ _ Hlog He Hok).
      exact (proj2 (apply_entry_ok _ _ _ CommitApplied (mkFSM (after r0 (sy_log s) k) "") Hok ltac:(done) (proj1 (after_ok r0 Hr0 Hrev0 _ k Hlog)))).
Qed.

(** ** Runs *)

Definition sc_Deflate (s : string) : result replication_error string := Ok (String "x" s).
Definition sc_Inflate (limit : Z) (s : string) : result replication_error string := Ok (drop_string 1 s).
Lemma sc_flate : flate_laws sc_Deflate sc_Inflate.
Proof. split; [intros s c n [= <-] _; by destruct s|by intros s c [= <-]]. Qed.
Definition sc_replica : Replica := mkReplica (sc_snapshot 1) 1 (sc_Sum256Hex "1").
Inductive sc_move : Type := ScPropose (id : nat) (k : Z) | ScApply (id : nat) (outcome : commit_outcome).
Definition sc_proposed (c : Controller) (k : Z) : option LogEntry :=
  match proposal sc_Marshal sc_Sum256Hex true (sc_snapshot k) (co_replica c) with
  | Ok (text, _, normalized) =>
      match encodeReplicatedLog sc_Deflate text false with
      | Ok data =>
          if decide (normalized = sc_snapshot k ∧ 0 ≤ k ≤ max_uint64 ∧ rp_stateRevision (co_replica c) < max_uint64)
          then Some (mkLogEntry data normalized (rp_snapshot (co_replica c))) else None
      | Err _ => None
      end
  | Err _ => None
  end.
Definition sc_step (s : System) (m : sc_move) : option System :=
  match m with
  | ScPropose id k =>
      c ← sy_controllers s !! id; entry ← sc_proposed c k; Some (mkSystem (sy_log s ++ [entry]) (sy_controllers s))
  | ScApply id outcome =>
      c ← sy_controllers s !! id; entry ← sy_log s !! co_applied c;
      Some (mkSystem (sy_log s) (<[id := mkController
        (fsm_Apply sc_Inflate (H:=repository_machine sc_Marshal sc_Unmarshal sc_Sum256Hex) outcome (le_data entry) (co_fsm c)).1 (S (co_applied c))]> (sy_controllers s)))
  end.
Fixpoint sc_run (ms : list sc_move) (s : System) : option System :=
  match ms with [] => Some s | m :: ms => s ← sc_step s m; sc_run ms s end.
Lemma sc_run_steps (may : commit_outcome → Prop) ms s s' : (∀ id outcome, ScApply id outcome ∈ ms → may outcome) → sc_run ms s = Some s' →
  rtc (system_step sc_Marshal sc_Unmarshal sc_Sum256Hex sc_Representable sc_Deflate sc_Inflate may) s s'.
Proof.
  revert s. induction ms as [|m ms IH]; intros s Hmay; [by intros [= <-]|]. cbn [sc_run]. intros (s1 & Hs & Hr)%bind_Some.
  eapply rtc_l; [|apply IH, Hr; intros id outcome Hin; apply (Hmay id); by right]. destruct s as [log controllers], m as [id k|id outcome].
  - apply bind_Some in Hs as (c & Hc & (entry & He & [= <-])%bind_Some). unfold sc_proposed in He.
    destruct (proposal _ _ _ _ _) as [[[text digest] normalized]|] eqn:Hp; [|done]. destruct (encodeReplicatedLog _ _ _) as [data|] eqn:Hd; [|done].
    destruct (decide _) as [(Hn & Hk & Hv)|]; [|done]. injection He as <-. eapply step_propose; [exact Hc|exact Hv| |exact Hp|exact Hd]. by exists k.
  - apply bind_Some in Hs as (c & Hc & (entry & He & [= <-])%bind_Some). apply step_apply; [exact Hc|exact He|]. apply (Hmay id). by left.
Qed.
Definition sc_end (ms : list sc_move) : System := default (start sc_replica 3) (sc_run ms (start sc_replica 3)).
(** An update, one from an outdated snapshot, and the replicas. *)
Definition sc_moves : list sc_move :=
  [ScPropose 0 2; ScPropose 1 3; ScApply 0 CommitApplied; ScApply 1 CommitAppliedWarning; ScApply 1 CommitApplied; ScApply 0 CommitApplied].
Lemma replicated_updates_linear_witness :
  (∃ c, sy_controllers (sc_end sc_moves) !! 0%nat = Some c ∧ co_applied c = 2%nat ∧ rp_snapshot (co_replica c) = sc_snapshot 2) ∧
  ∀ i j c d, sy_controllers (sc_end sc_moves) !! i = Some c → sy_controllers (sc_end sc_moves) !! j = Some d →
    rp_stateRevision (co_replica c) = rp_stateRevision (co_replica d) → co_replica c = co_replica d.
Proof.
  split; [eexists; split; [vm_compute; reflexivity|split; vm_compute; reflexivity]|].
  apply (replicated_updates_linear sc_Marshal sc_Unmarshal sc_Sum256Hex sc_Representable sc_Deflate sc_Inflate sc_replica 3 (sc_end sc_moves) sc_laws sc_flate).
  - apply sc_digest_lower.
  - discriminate.
  - apply (sc_run_steps published sc_moves); [|vm_compute; reflexivity]. intros id outcome Hin.
    repeat (apply elem_of_cons in Hin as [Hin|Hin]; [first [discriminate Hin|injection Hin as _ ->; discriminate]|]). by apply elem_of_nil in Hin.
Defined.

(** When a controller cannot publish its file once, the next update it proposes
    has the same revision as the one it missed.  It applies this update and
    reports no error, while the others have refused it: the controllers end
    with different snapshots at one revision. *)
Definition sc_fork : list sc_move :=
  [ScPropose 0 2; ScApply 0 CommitRejected; ScApply 1 CommitApplied; ScApply 2 CommitApplied;
   ScPropose 0 3; ScApply 0 CommitApplied; ScApply 1 CommitApplied; ScApply 2 CommitApplied].
Theorem rejected_file_forks : ∃ s c0 c1 c2 e, rtc (system_step sc_Marshal sc_Unmarshal sc_Sum256Hex sc_Representable sc_Deflate sc_Inflate (λ _, True)) (start sc_replica 3) s ∧
  sy_controllers s !! 0%nat = Some c0 ∧ sy_controllers s !! 1%nat = Some c1 ∧ sy_controllers s !! 2%nat = Some c2 ∧ sy_log s !! 1%nat = Some e ∧
  co_applied c0 = 2%nat ∧ co_applied c1 = 2%nat ∧ co_applied c2 = 2%nat ∧
  rp_stateRevision (co_replica c0) = 2 ∧ rp_stateRevision (co_replica c1) = 2 ∧ rp_snapshot (co_replica c0) = le_value e ∧
  co_replica c1 = co_replica c2 ∧ rp_snapshot (co_replica c1) ≠ le_value e ∧
  (fsm_Apply sc_Inflate (H:=repository_machine sc_Marshal sc_Unmarshal sc_Sum256Hex) CommitApplied (le_data e) (mkFSM sc_replica "")).2 = None.
Proof.
  exists (sc_end sc_fork). do 4 eexists. split; [apply (sc_run_steps _ sc_fork); [done|vm_compute; reflexivity]|].
  split; [vm_compute; reflexivity|]. split; [vm_compute; reflexivity|]. split; [vm_compute; reflexivity|]. split; [vm_compute; reflexivity|].
  split_and!; try (vm_compute; reflexivity).
  intros H. apply (f_equal sn_InventoryGenerations), (f_equal (lookup "c")) in H. vm_compute in H. discriminate H.
Qed.
