(* ===== verification/Consensus.v ===== *)
(** * internal/consensus: a controller's part in Raft

    [raft.go]: the checks of the configuration, the confirmation of leadership,
    the barrier before a commit, the commit, and the changes of the voter set.
    The Raft library is the environment: what a future answers, and what the
    node's state, term and configuration are when they are read, may be
    anything; a future that answers an error may still complete later.

    [SplitHostPort] and [ParseURL] are [net.SplitHostPort] and [url.Parse];
    [loopback] is [net.ParseIP(host).IsLoopback()]. *)
From S2P Require Import Prelude GoStd Model Program SnapshotEquality SnapshotState Replication.
#[local] Open Scope Z_scope.

(** ** Errors *)

Inductive consensus_error : Type :=
| ErrNotLeader | ErrNoQuorum | ErrCommitIndeterminate
| ErrInvalidConfiguration | ErrInvalidMember | ErrMembershipCount | ErrMemberConflict | ErrSelfRemoval
| ErrStateRejected (e : replication_error)
| ErrContextDone | ErrFuture
| ErrRolledBack (cause : consensus_error) (failures : nat).   (* [errors.Join] with the failed removals *)

(** ** Configuration *)

Record Peer : Type := mkPeer { peer_ResourceID : ResourceID; peer_Address : string; peer_APIAddress : string }.
(** [ControllerMember] has the same fields. *)
Record ControllerMember : Type := mkMember { mem_ResourceID : ResourceID; mem_Address : string; mem_APIAddress : string }.
#[export] Instance ControllerMember_eq_dec : EqDecision ControllerMember.
Proof. solve_decision. Defined.
Record Config : Type := mkConfig {
  cfg_LocalID : ResourceID; cfg_BindAddress : string; cfg_AdvertiseAddress : string; cfg_DataDirectory : string; cfg_Peers : list Peer;
  cfg_AllowInsecureTransport : bool; cfg_TLSCertFile : string; cfg_TLSKeyFile : string; cfg_TLSCAFile : string
}.
Record URL : Type := mkURL { url_Scheme : string; url_Hostname : string; url_Port : string }.

(** [strings.Trim] and [strings.TrimRight] of one-byte characters. *)
Fixpoint trim_left_of (cut : list ascii) (s : string) : string :=
  match s with String c s' => if bool_decide (c ∈ cut) then trim_left_of cut s' else s | EmptyString => EmptyString end.
Definition TrimRight (cut : list ascii) (s : string) : string := String.rev (trim_left_of cut (String.rev s)).
Definition Trim (cut : list ascii) (s : string) : string := TrimRight cut (trim_left_of cut s).
Definition ContainsAny (s : string) (chars : list ascii) : bool := negb (string_forall (λ c, bool_decide (c ∉ chars)) s).

Section addresses.
Variables (SplitHostPort : string → option (string * string)) (ParseURL : string → option URL) (loopback : string → bool).
Definition valid_address (address : string) : bool := bool_decide (is_Some (SplitHostPort (TrimSpace address))).
Definition raftAddressIsLoopback (address : string) : bool :=
  match SplitHostPort (TrimSpace address) with
  | None => false
  | Some (host, _) =>
      let host := TrimSpace (Trim ["["%char; "]"%char] host) in
      EqualFold host "localhost" || loopback host
  end.
Definition raftUsesExternalNetwork (configuration : Config) : bool :=
  existsb (λ address, negb (raftAddressIsLoopback address)) [cfg_BindAddress configuration; cfg_AdvertiseAddress configuration] ||
  existsb (λ peer, negb (raftAddressIsLoopback (peer_Address peer))) (cfg_Peers configuration).
(** The peers so far: identifiers, addresses, whether the local controller is among them. *)
Definition peer_step (localID : ResourceID) (s : gset ResourceID * gset string * bool) (peer : Peer) : result consensus_error (gset ResourceID * gset string * bool) :=
  let '(ids, addresses, localFound) := s in
  let address := TrimSpace (peer_Address peer) in
  _ ← require (ValidResourceID (peer_ResourceID peer)) ErrInvalidConfiguration;
  _ ← require (bool_decide (is_Some (SplitHostPort address))) ErrInvalidConfiguration;
  _ ← reject (bool_decide (peer_ResourceID peer ∈ ids)) ErrInvalidConfiguration;
  _ ← reject (bool_decide (address ∈ addresses)) ErrInvalidConfiguration;
  Ok ({[peer_ResourceID peer]} ∪ ids, {[address]} ∪ addresses, localFound || (peer_ResourceID peer == localID)).
(** [filepath.IsAbs] on Unix. *)
Definition IsAbs (path : string) : bool := HasPrefix path "/".
Definition validateConfig (configuration : Config) : result consensus_error unit :=
  _ ← require (ValidResourceID (cfg_LocalID configuration) && (TrimSpace (cfg_DataDirectory configuration) != "")) ErrInvalidConfiguration;
  let n := Z.of_nat (length (cfg_Peers configuration)) in
  _ ← reject ((n <? 3) || (n `mod` 2 =? 0)) ErrInvalidConfiguration;
  '(_, _, localFound) ← for_each (peer_step (cfg_LocalID configuration)) (∅, ∅, false) (cfg_Peers configuration);
  _ ← require (localFound : bool) ErrInvalidConfiguration;
  _ ← require (valid_address (cfg_BindAddress configuration) && valid_address (cfg_AdvertiseAddress configuration)) ErrInvalidConfiguration;
  let tlsPaths := TrimSpace <$> [cfg_TLSCertFile configuration; cfg_TLSKeyFile configuration; cfg_TLSCAFile configuration] in
  let configured := filter (λ path, path ≠ "") tlsPaths in
  _ ← require (forallb IsAbs configured) ErrInvalidConfiguration;
  _ ← reject (negb (Nat.eqb (length configured) 0) && negb (Nat.eqb (length configured) (length tlsPaths))) ErrInvalidConfiguration;
  reject (Nat.eqb (length configured) 0 && raftUsesExternalNetwork configuration && negb (cfg_AllowInsecureTransport configuration))
    ErrInvalidConfiguration.
Definition http_scheme (parsed : URL) : bool := (url_Scheme parsed == "http") || (url_Scheme parsed == "https").
Definition validateControllerMember (member : ControllerMember) : result consensus_error unit :=
  _ ← require (ValidResourceID (mem_ResourceID member)) ErrInvalidMember;
  _ ← require (valid_address (mem_Address member)) ErrInvalidMember;
  let address := TrimSpace (mem_APIAddress member) in
  _ ← reject (ContainsAny address [ascii_of_nat 13; ascii_of_nat 10]) ErrInvalidMember;
  require ((address == "") || match ParseURL address with Some parsed => http_scheme parsed && (url_Hostname parsed != "") | None => false end)
    ErrInvalidMember.

(** ** The environment *)

(** A server of the live configuration. *)
Record Server : Type := mkServer { srv_ID : ResourceID; srv_Address : string; srv_Voter : bool }.
(** What a future answers within the context. *)
Inductive future_error : Type := FutureNotLeader | FutureFailed | FutureContext.
Inductive raft_action : Type :=
| ContextErr | StateIsLeader | CurrentTerm | VerifyLeader | Barrier
| ApplyLog (command : string)
| GetConfiguration
| AddVoter (id : ResourceID) (address : string)
| RemoveServer (id : ResourceID).
Definition raft_answer (c : raft_action) : Type :=
  match c with
  | ContextErr => bool                                   (* the context is done *)
  | StateIsLeader => bool
  | CurrentTerm => uint64
  | VerifyLeader | Barrier | AddVoter _ _ | RemoveServer _ => option future_error
  | ApplyLog _ => result future_error (option replication_error)   (* the response of the state machine *)
  | GetConfiguration => result future_error (list Server)
  end.
#[export] Instance raft_signature : Signature := {| action := raft_action; answer := raft_answer |}.
Abbreviation raft := (prog (Sg:=raft_signature)) (only parsing).
Definition ask (c : raft_action) : raft (raft_answer c) := call (Sg:=raft_signature) c.

(** The fields of [Node] that change. *)
Record Node : Type := mkNode {
  nd_localID : ResourceID; nd_leaderAPIs : gmap ResourceID string; nd_leaderAPIScheme : string; nd_leaderAPIPort : string;
  nd_synchronizedCommitTerm : uint64
}.
#[export] Instance eta_Node : Settable Node := λ n,
  mkNode (nd_localID n) (nd_leaderAPIs n) (nd_leaderAPIScheme n) (nd_leaderAPIPort n) (nd_synchronizedCommitTerm n).

(** ** Authority and commits *)

Definition RequireMutationAuthority : raft (option consensus_error) :=
  done ←? ask ContextErr;
  if (done : bool) then Ret (Some ErrContextDone) else
  leader ←? ask StateIsLeader;
  if negb (leader : bool) then Ret (Some ErrNotLeader) else
  verified ←? ask VerifyLeader;
  Ret (match (verified : option future_error) with Some _ => Some ErrNoQuorum | None => None end).
(** [Synchronize] is [force], [SynchronizeForCommit] is not. *)
Definition synchronize (force : bool) (node : Node) : raft (Node * option consensus_error) :=
  leader ←? ask StateIsLeader;
  if negb (leader : bool) then Ret (node, Some ErrNotLeader) else
  term ←? ask CurrentTerm;
  if negb force && negb ((term : Z) =? 0) && (nd_synchronizedCommitTerm node =? term) then Ret (node, None) else
  authority ←? RequireMutationAuthority;
  match (authority : option consensus_error) with
  | Some e => Ret (node, Some e)
  | None =>
      term ←? ask CurrentTerm;
      barrier ←? ask Barrier;
      match (barrier : option future_error) with
      | Some FutureNotLeader => Ret (node, Some ErrNotLeader)
      | Some _ => Ret (node, Some ErrCommitIndeterminate)
      | None =>
          leader ←? ask StateIsLeader;
          if negb (leader : bool) then Ret (node, Some ErrNotLeader) else
          now ←? ask CurrentTerm;
          if negb ((now : Z) =? (term : Z)) then Ret (node, Some ErrNotLeader)
          else Ret (node <| nd_synchronizedCommitTerm := (term : Z) |>, None)
      end
  end.
(** [validate] is the state machine's [ValidateReplicatedState]. *)
Definition Commit (Deflate : string → result replication_error string) (validate : string → option replication_error) (compression : bool)
    (state : string) : raft (option consensus_error) :=
  if (len state =? 0) || (maximumReplicatedStateBytes <? len state) then Ret (Some (ErrStateRejected ErrInvalidSnapshot))
  else match validate state with
  | Some e => Ret (Some (ErrStateRejected e))
  | None =>
      match encodeReplicatedLog Deflate state compression with
      | Err e => Ret (Some (ErrStateRejected e))
      | Ok command =>
          authority ←? RequireMutationAuthority;
          match (authority : option consensus_error) with
          | Some e => Ret (Some e)
          | None =>
              applied ←? ask (ApplyLog command);
              Ret (match (applied : result future_error (option replication_error)) with
                   | Err FutureNotLeader => Some ErrNotLeader
                   | Err _ => Some ErrCommitIndeterminate
                   | Ok (Some e) => Some (ErrStateRejected e)
                   | Ok None => None
                   end)
          end
      end
  end.

(** ** Membership *)

Definition rememberControllerAPI (controllerID : ResourceID) (address : string) (node : Node) : Node :=
  if negb (ValidResourceID controllerID) then node
  else
    let address := TrimRight ["/"%char] (TrimSpace address) in
    if address == "" then node
    else
      let node := node <| nd_leaderAPIs ::= <[controllerID := address]> |> in
      if nd_leaderAPIScheme node != "" then node
      else match ParseURL address with
      | Some parsed =>
          if http_scheme parsed && (url_Hostname parsed != "")
          then node <| nd_leaderAPIScheme := url_Scheme parsed |> <| nd_leaderAPIPort := url_Port parsed |> else node
      | None => node
      end.
Definition member_le (a b : ControllerMember) : Prop := id_le (mem_ResourceID a) (mem_ResourceID b).
#[export] Instance member_le_dec : RelDecision member_le.
Proof. intros a b. unfold member_le. apply _. Defined.
Definition members_of (node : Node) (servers : list Server) : list ControllerMember :=
  merge_sort member_le ((λ server, mkMember (srv_ID server) (srv_Address server) (TrimSpace (default "" (nd_leaderAPIs node !! srv_ID server))))
    <$> filter (λ server, srv_Voter server = true) servers).
Definition ControllerMembers (node : Node) : raft (result consensus_error (list ControllerMember)) :=
  configuration ←? ask GetConfiguration;
  Ret (match (configuration : result future_error (list Server)) with Ok servers => Ok (members_of node servers) | Err _ => Err ErrFuture end).
(** [controllerMembershipIndex]; of two members with one key the later is kept. *)
Definition controllerMembershipIndex (members : list ControllerMember) : gmap ResourceID ControllerMember * gmap string ResourceID :=
  foldl (λ '(byID, byAddress) member, (<[mem_ResourceID member := member]> byID, <[mem_Address member := mem_ResourceID member]> byAddress))
    (∅, ∅) members.

(** *** Adding voters *)

(** The identifiers and addresses of the request so far, the members to add, and the node. *)
Record Expansion : Type := mkExpansion { xp_ids : gset ResourceID; xp_addresses : gset string; xp_additions : list ControllerMember; xp_node : Node }.
Definition expansion_step (byID : gmap ResourceID ControllerMember) (byAddress : gmap string ResourceID) (x : Expansion) (member : ControllerMember)
    : result (consensus_error * Node) Expansion :=
  let fail e := (e, xp_node x) in
  let member := mkMember (mem_ResourceID member) (TrimSpace (mem_Address member)) (TrimRight ["/"%char] (TrimSpace (mem_APIAddress member))) in
  let id := mem_ResourceID member in
  match validateControllerMember member with
  | Err e => Err (fail e)
  | Ok _ =>
      _ ← reject (bool_decide (id ∈ xp_ids x)) (fail ErrMemberConflict);
      _ ← reject (bool_decide (mem_Address member ∈ xp_addresses x)) (fail ErrMemberConflict);
      let ids := {[id]} ∪ xp_ids x in
      let addresses := {[mem_Address member]} ∪ xp_addresses x in
      match byID !! id with
      | Some existing =>
          _ ← reject (mem_Address existing != mem_Address member) (fail ErrMemberConflict);
          Ok (mkExpansion ids addresses (xp_additions x) (rememberControllerAPI id (mem_APIAddress member) (xp_node x)))
      | None =>
          _ ← reject (match byAddress !! mem_Address member with Some existingID => existingID != id | None => false end) (fail ErrMemberConflict);
          Ok (mkExpansion ids addresses (xp_additions x ++ [member]) (xp_node x))
      end
  end.
(** The added voters are removed, the last one first; the number of removals that failed. *)
Fixpoint remove_added (added : list ResourceID) : raft nat :=
  match added with
  | [] => Ret 0%nat
  | id :: added =>
      removed ←? ask (RemoveServer id);
      failures ←? remove_added added;
      Ret (match (removed : option future_error) with Some _ => S failures | None => failures end)
  end.
Definition rollbackAddedControllerVoters (added : list ResourceID) : raft nat := remove_added (rev added).
Definition rolled_back (node : Node) (added : list ResourceID) (cause : consensus_error) : raft (Node * option consensus_error) :=
  failures ←? rollbackAddedControllerVoters added; Ret (node, Some (ErrRolledBack cause failures)).
(** The loop over the additions, and what follows it. *)
Fixpoint add_voters (additions : list ControllerMember) (added : list ResourceID) (node : Node)
    (finish : list ResourceID → Node → raft (Node * option consensus_error)) : raft (Node * option consensus_error) :=
  match additions with
  | [] => finish added node
  | member :: additions =>
      answer ←? ask (AddVoter (mem_ResourceID member) (mem_Address member));
      match (answer : option future_error) with
      | Some _ => rolled_back node added ErrFuture
      | None => add_voters additions (added ++ [mem_ResourceID member])
                  (rememberControllerAPI (mem_ResourceID member) (mem_APIAddress member) node) finish
      end
  end.
Definition verify_expansion (finalCount : Z) (added : list ResourceID) (node : Node) : raft (Node * option consensus_error) :=
  authority ←? RequireMutationAuthority;
  match (authority : option consensus_error) with
  | Some e => rolled_back node added e
  | None =>
      updated ←? ControllerMembers node;
      match (updated : result consensus_error (list ControllerMember)) with
      | Err e => rolled_back node added e
      | Ok updated =>
          if negb (Z.of_nat (length updated) =? finalCount) then rolled_back node added ErrMembershipCount else Ret (node, None)
      end
  end.
(** A number of voters that a change may lead to. *)
Definition odd_voters (count : Z) : bool := negb ((count <? 3) || (Z.rem count 2 =? 0)).
Definition AddControllerVoters (requested : list ControllerMember) (node : Node) : raft (Node * option consensus_error) :=
  match requested with
  | [] => Ret (node, None)
  | _ =>
      authority ←? RequireMutationAuthority;
      match (authority : option consensus_error) with
      | Some e => Ret (node, Some e)
      | None =>
          current ←? ControllerMembers node;
          match (current : result consensus_error (list ControllerMember)) with
          | Err e => Ret (node, Some e)
          | Ok current =>
              let '(byID, byAddress) := controllerMembershipIndex current in
              match for_each (expansion_step byID byAddress) (mkExpansion ∅ ∅ [] node) requested with
              | Err (e, node) => Ret (node, Some e)
              | Ok x =>
                  let finalCount := Z.of_nat (length current) + Z.of_nat (length (xp_additions x)) in
                  if negb (odd_voters finalCount) then Ret (xp_node x, Some ErrMembershipCount)
                  else add_voters (xp_additions x) [] (xp_node x) (verify_expansion finalCount)
              end
          end
      end
  end.

(** *** Removing voters *)

Definition retirement_step (localID : ResourceID) (byID : gmap ResourceID ControllerMember) (s : gset ResourceID * list ResourceID) (resourceID : ResourceID)
    : result consensus_error (gset ResourceID * list ResourceID) :=
  let '(seen, unique) := s in
  _ ← require (ValidResourceID resourceID) ErrInvalidMember;
  _ ← reject (bool_decide (resourceID ∈ seen)) ErrMemberConflict;
  let seen := {[resourceID]} ∪ seen in
  match byID !! resourceID with
  | None => Ok (seen, unique)
  | Some _ => _ ← reject (resourceID == localID) ErrSelfRemoval; Ok (seen, unique ++ [resourceID])
  end.
Fixpoint remove_voters (unique : list ResourceID) (node : Node) : raft (Node * option consensus_error) :=
  match unique with
  | [] => authority ←? RequireMutationAuthority; Ret (node, authority)
  | resourceID :: unique =>
      answer ←? ask (RemoveServer resourceID);
      match (answer : option future_error) with
      | Some _ => Ret (node, Some ErrFuture)
      | None => remove_voters unique (node <| nd_leaderAPIs ::= delete resourceID |>)
      end
  end.
Definition RemoveControllerVoters (resourceIDs : list ResourceID) (node : Node) : raft (Node * option consensus_error) :=
  match resourceIDs with
  | [] => Ret (node, None)
  | _ =>
      authority ←? RequireMutationAuthority;
      match (authority : option consensus_error) with
      | Some e => Ret (node, Some e)
      | None =>
          current ←? ControllerMembers node;
          match (current : result consensus_error (list ControllerMember)) with
          | Err e => Ret (node, Some e)
          | Ok current =>
              let '(byID, _) := controllerMembershipIndex current in
              match for_each (retirement_step (nd_localID node) byID) (∅, []) resourceIDs with
              | Err e => Ret (node, Some e)
              | Ok (_, unique) =>
                  if negb (odd_voters (Z.of_nat (length current) - Z.of_nat (length unique))) then Ret (node, Some ErrMembershipCount)
                  else remove_voters unique node
              end
          end
      end
  end.
End addresses.
