(* ===== verification/ConsensusSafety.v ===== *)
(** * What the consensus module does to the voter set

    Theorems on [Consensus]: the traces of an expansion and of a retirement of
    controllers, for every answer of the Raft library; and what a successful
    synchronization and commit have seen. *)
From S2P Require Import Prelude GoStd Model Lease Program SnapshotEquality SnapshotState Replication Consensus.
#[local] Open Scope Z_scope.

(** ** The changes of a trace *)

Abbreviation raft := (prog (Sg:=raft_signature)) (only parsing).
Abbreviation revent := (event (Sg:=raft_signature)) (only parsing).
Inductive change : Type := Added (id : ResourceID) (address : string) | NotAdded (id : ResourceID) (address : string) | Removal (id : ResourceID).
Definition change_of (e : revent) : option change :=
  match e with
  | existT (AddVoter id address) None => Some (Added id address)
  | existT (AddVoter id address) (Some _) => Some (NotAdded id address)
  | existT (RemoveServer id) _ => Some (Removal id)
  | _ => None
  end.
Definition changes : list revent → list change := omap change_of.
Lemma changes_app t t' : changes (t ++ t') = changes t ++ changes t'.
Proof. apply omap_app. Qed.
Definition quiet (c : raft_action) : Prop := match c with AddVoter _ _ | RemoveServer _ => False | _ => True end.
Lemma changes_quiet {A} (p : raft A) t a : all_calls (Sg:=raft_signature) quiet p → runs (Sg:=raft_signature) p t a → changes t = [].
Proof.
  intros Hp Hr. pose proof (all_calls_runs (Sg:=raft_signature) quiet p t a Hp Hr) as H. clear Hr Hp. induction t as [|[c x] t IH]; [done|].
  assert (changes t = []) as Ht by (apply IH; intros e He; apply H; by right). assert (quiet c) as Hc by (apply (H (existT c x)); by left).
  cbn [changes omap list_omap]. fold (changes t). rewrite Ht. by destruct c.
Qed.
Lemma quiet_authority : all_calls (Sg:=raft_signature) quiet RequireMutationAuthority.
Proof. unfold RequireMutationAuthority, ask. calls. Qed.
Lemma quiet_members node : all_calls (Sg:=raft_signature) quiet (ControllerMembers node).
Proof. unfold ControllerMembers, ask. calls. Qed.
Definition adds (members : list ControllerMember) : list change := (λ m, Added (mem_ResourceID m) (mem_Address m)) <$> members.

Lemma removed_changes added t n : runs (Sg:=raft_signature) (remove_added added) t n → changes t = Removal <$> added.
Proof.
  revert t n. induction added as [|id added IH]; intros t n; cbn; [by intros [-> _]%runs_inv|].
  intros (x & t1 & -> & (t2 & t3 & m & -> & H2 & [-> _]%runs_inv)%runs_bind)%runs_inv. cbn [changes omap list_omap change_of]. fold (changes (t2 ++ [])).
  by rewrite app_nil_r, (IH _ _ H2).
Qed.
Lemma rolled_back_changes node added cause t r : runs (Sg:=raft_signature) (rolled_back node added cause) t r →
  changes t = Removal <$> rev added ∧ r.2 ≠ None.
Proof. intros (t1 & t2 & n & -> & H1%removed_changes & [-> ->]%runs_inv)%runs_bind. by rewrite app_nil_r. Qed.
Section adding.
Variable ParseURL : string → option URL.
Lemma add_voters_changes additions added node finish t r : runs (Sg:=raft_signature) (add_voters ParseURL additions added node finish) t r →
  (r.2 ≠ None ∧ ∃ done m rest, additions = done ++ m :: rest ∧
    changes t = adds done ++ [NotAdded (mem_ResourceID m) (mem_Address m)] ++ (Removal <$> rev (added ++ (mem_ResourceID <$> done)))) ∨
  ∃ t1 t2 node', t = t1 ++ t2 ∧ changes t1 = adds additions ∧ runs (Sg:=raft_signature) (finish (added ++ (mem_ResourceID <$> additions)) node') t2 r.
Proof.
  revert added node t. induction additions as [|m additions IH]; intros added node t; cbn [add_voters].
  { intros Hr. right. exists [], t, node. by rewrite app_nil_r. }
  intros (x & t1 & -> & Hr)%runs_inv. destruct x as [e|].
  - apply rolled_back_changes in Hr as [Hr Hn]. left. split; [exact Hn|]. exists [], m, additions. split; [done|].
    cbn [changes omap list_omap change_of fmap list_fmap adds app]. fold (changes t1). by rewrite Hr, app_nil_r.
  - apply IH in Hr as [(Hn & done & m' & rest & -> & Hc)|(t2 & t3 & node' & -> & Hc & Hf)]; [left|right].
    + split; [exact Hn|]. exists (m :: done), m', rest. split; [done|]. cbn [changes omap list_omap change_of]. fold (changes t1).
      rewrite Hc, <- app_assoc. done.
    + exists (existT (AddVoter (mem_ResourceID m) (mem_Address m)) None :: t2), t3, node'. rewrite <- app_assoc in Hf. split_and!; [done| |done].
      cbn [changes omap list_omap change_of]. fold (changes t2). by rewrite Hc.
Qed.
(** Whoever counts the voters at the end. *)
Definition voters (servers : list Server) : Z := Z.of_nat (length (filter (λ server, srv_Voter server = true) servers)).
Lemma members_count node servers : Z.of_nat (length (members_of node servers)) = voters servers.
Proof. unfold members_of, voters. by rewrite (Permutation_length (merge_sort_Permutation member_le _)), length_fmap. Qed.
Lemma members_run node t r : runs (Sg:=raft_signature) (ControllerMembers node) t r →
  (∃ e, r = Err e) ∨ ∃ servers, t = [existT GetConfiguration (Ok servers)] ∧ r = Ok (members_of node servers).
Proof.
  intros (x & t1 & -> & [-> ->]%runs_inv)%runs_inv. destruct x as [servers|e]; [right|left]; by eexists.
Qed.
Lemma authority_run t : runs (Sg:=raft_signature) RequireMutationAuthority t None →
  t = [existT ContextErr false; existT StateIsLeader true; existT VerifyLeader None].
Proof.
  intros (x & t1 & -> & Hr)%runs_inv. destruct x; [by apply runs_inv in Hr as [_ [=]]|]. apply runs_inv in Hr as (x & t2 & -> & Hr).
  destruct x; [|by apply runs_inv in Hr as [_ [=]]]. apply runs_inv in Hr as (x & t3 & -> & Hr). apply runs_inv in Hr as [-> Hx]. by destruct x.
Qed.
Lemma verified_changes finalCount added node t r : runs (Sg:=raft_signature) (verify_expansion finalCount added node) t r →
  match r.2 with
  | None => ∃ servers, t = [existT ContextErr false; existT StateIsLeader true; existT VerifyLeader None; existT GetConfiguration (Ok servers)] ∧
      voters servers = finalCount
  | Some _ => changes t = Removal <$> rev added
  end.
Proof.
  intros (t1 & t2 & authority & -> & H1 & Hr)%runs_bind. pose proof (changes_quiet _ _ _ quiet_authority H1) as Hq1. rewrite changes_app, Hq1. cbn [app].
  destruct authority as [e|]; [apply rolled_back_changes in Hr as [-> Hn]; by destruct (r.2)|].
  apply runs_bind in Hr as (t3 & t4 & updated & -> & H3 & Hr). pose proof (changes_quiet _ _ _ (quiet_members _) H3) as Hq3. rewrite changes_app, Hq3. cbn [app].
  apply authority_run in H1 as ->. apply members_run in H3 as [[e ->]|(servers & -> & ->)]; [apply rolled_back_changes in Hr as [-> Hn]; by destruct (r.2)|].
  rewrite members_count in Hr. destruct (Z.eqb_spec (voters servers) finalCount) as [Hc|]; cbn [negb] in Hr.
  - apply runs_inv in Hr as [-> ->]. cbn. by exists servers.
  - apply rolled_back_changes in Hr as [-> Hn]. by destruct (r.2).
Qed.
End adding.

(** ** What is added *)

Lemma elem_of_fmap_snoc {A B} (f : A → B) l a x : x ∈ f <$> (l ++ [a]) ↔ x ∈ f <$> l ∨ x = f a.
Proof. rewrite fmap_app, elem_of_app. change (f <$> [a]) with [f a]. by rewrite list_elem_of_singleton. Qed.
Lemma index_spec members byID byAddress : controllerMembershipIndex members = (byID, byAddress) →
  (∀ id, byID !! id = None ↔ id ∉ mem_ResourceID <$> members) ∧ (∀ a, byAddress !! a = None ↔ a ∉ mem_Address <$> members) ∧
  ∀ a id, byAddress !! a = Some id → id ∈ mem_ResourceID <$> members.
Proof.
  revert byID byAddress. induction members as [|m members IH] using rev_ind; intros byID byAddress.
  { intros [= <- <-]. split_and!; [intros id|intros a|intros a id]; rewrite lookup_empty; [split; [by intros _ ?%elem_of_nil|done]..|done]. }
  unfold controllerMembershipIndex. rewrite foldl_snoc. fold (controllerMembershipIndex members).
  destruct (controllerMembershipIndex members) as [byID' byAddress'] eqn:Hm. intros [= <- <-]. destruct (IH _ _ eq_refl) as (H1 & H2 & H3).
  split_and!.
  - intros id. rewrite elem_of_fmap_snoc. specialize (H1 id). destruct (decide (id = mem_ResourceID m)) as [->|Hi].
    + rewrite lookup_insert_eq. split; [done|]. intros Hn. destruct Hn. by right.
    + rewrite lookup_insert_ne by done. tauto.
  - intros a. rewrite elem_of_fmap_snoc. specialize (H2 a). destruct (decide (a = mem_Address m)) as [->|Hi].
    + rewrite lookup_insert_eq. split; [done|]. intros Hn. destruct Hn. by right.
    + rewrite lookup_insert_ne by done. tauto.
  - intros a id. rewrite elem_of_fmap_snoc. destruct (decide (a = mem_Address m)) as [->|Hi].
    + rewrite lookup_insert_eq. intros [= <-]. by right.
    + rewrite lookup_insert_ne by done. intros H. left. by eapply H3.
Qed.
Lemma index_member members id m : (controllerMembershipIndex members).1 !! id = Some m → m ∈ members ∧ mem_ResourceID m = id.
Proof.
  induction members as [|m' members IH] using rev_ind; [intros Hn; cbn in Hn; by rewrite lookup_empty in Hn|].
  unfold controllerMembershipIndex. rewrite foldl_snoc. fold (controllerMembershipIndex members). destruct (controllerMembershipIndex members) as [byID byAddress].
  cbn [fst] in *. destruct (decide (id = mem_ResourceID m')) as [->|Hi].
  - rewrite lookup_insert_eq. intros [= <-]. split; [apply elem_of_app; right; by apply list_elem_of_singleton|done].
  - rewrite lookup_insert_ne by done. intros [Hm Hid]%IH. split; [apply elem_of_app; by left|done].
Qed.
(** A requested member as it is compared and stored. *)
Definition trimmed (member : ControllerMember) : ControllerMember :=
  mkMember (mem_ResourceID member) (TrimSpace (mem_Address member)) (TrimRight ["/"%char] (TrimSpace (mem_APIAddress member))).
Section expansion.
Variables (SplitHostPort : string → option (string * string)) (ParseURL : string → option URL).
Record expansion_ok (byID : gmap ResourceID ControllerMember) (byAddress : gmap string ResourceID) (pre : list ControllerMember) (x : Expansion) : Prop := mk_expansion_ok {
  xo_ids : ∀ id, id ∈ xp_ids x ↔ id ∈ mem_ResourceID <$> pre;
  xo_addresses : ∀ a, a ∈ xp_addresses x ↔ a ∈ mem_Address <$> (trimmed <$> pre);
  xo_distinct : NoDup (mem_ResourceID <$> xp_additions x) ∧ NoDup (mem_Address <$> xp_additions x);
  xo_known : ∀ m, m ∈ xp_additions x → ∃ m', m' ∈ pre ∧ m = trimmed m';
  xo_new : ∀ m, m ∈ xp_additions x → validateControllerMember SplitHostPort ParseURL m = Ok tt ∧ byID !! mem_ResourceID m = None ∧
    (byAddress !! mem_Address m = None ∨ byAddress !! mem_Address m = Some (mem_ResourceID m));
  xo_all : ∀ m, m ∈ pre → trimmed m ∈ xp_additions x ∨ ∃ existing, byID !! mem_ResourceID m = Some existing ∧ mem_Address existing = mem_Address (trimmed m)
}.
Lemma expansion_loop byID byAddress requested node x :
  for_each (expansion_step SplitHostPort ParseURL byID byAddress) (mkExpansion ∅ ∅ [] node) requested = Ok x → expansion_ok byID byAddress requested x.
Proof.
  intros H. pattern requested, x. eapply for_each_inv; [exact H|clear H..].
  { split; cbn; try by intros ? ?%elem_of_nil. - set_solver. - set_solver. - split; apply NoDup_nil_2. }
  intros pre m post x1 x2 _ [Hi Ha [Hd1 Hd2] Hk Hn Hall] Hs. unfold expansion_step in Hs. fold (trimmed m) in Hs. cbv zeta in Hs.
  destruct (validateControllerMember _ _ _) as [[]|] eqn:Hv; [|done]. apply reject_bind in Hs as [H1%bool_decide_eq_false Hs].
  apply reject_bind in Hs as [H2%bool_decide_eq_false Hs]. change (mem_ResourceID (trimmed m)) with (mem_ResourceID m) in *.
  assert (∀ id, id ∈ {[mem_ResourceID m]} ∪ xp_ids x1 ↔ id ∈ mem_ResourceID <$> (pre ++ [m])) as Hi'.
  { intros id. rewrite elem_of_fmap_snoc, elem_of_union, elem_of_singleton, Hi. tauto. }
  assert (∀ a, a ∈ {[mem_Address (trimmed m)]} ∪ xp_addresses x1 ↔ a ∈ mem_Address <$> (trimmed <$> (pre ++ [m]))) as Ha'.
  { intros a. rewrite fmap_app. change (trimmed <$> [m]) with [trimmed m]. rewrite elem_of_fmap_snoc, elem_of_union, elem_of_singleton, Ha. tauto. }
  destruct (byID !! mem_ResourceID m) as [existing|] eqn:Hb.
  - apply reject_bind in Hs as [He [= <-]]. apply negb_false_iff, bool_decide_eq_true in He. split; cbn; [exact Hi'|exact Ha'|done| |exact Hn|].
    + intros m' (m0 & H0 & ->)%Hk. exists m0. split; [apply elem_of_app; by left|done].
    + intros m' [Hm|Hm%list_elem_of_singleton]%elem_of_app; [by apply Hall|]. subst. right. by exists existing.
  - apply reject_bind in Hs as [He [= <-]]. split; cbn; [exact Hi'|exact Ha'| | | |].
    + rewrite !fmap_app. split; apply NoDup_app; split_and!; try done; try apply NoDup_singleton.
      * intros id (m0 & -> & H0)%list_elem_of_fmap Hin%list_elem_of_singleton. apply H1, Hi. change (mem_ResourceID m) with (mem_ResourceID (trimmed m)).
        rewrite <- Hin. destruct (Hk _ H0) as (m1 & Hm1 & ->). apply list_elem_of_fmap. by exists m1.
      * intros a (m0 & -> & H0)%list_elem_of_fmap Hin%list_elem_of_singleton. apply H2, Ha. rewrite <- Hin. destruct (Hk _ H0) as (m1 & Hm1 & ->).
        apply list_elem_of_fmap. exists (trimmed m1). split; [done|]. apply list_elem_of_fmap. by exists m1.
    + intros m' [(m0 & H0 & ->)%Hk|He'%list_elem_of_singleton]%elem_of_app; [exists m0|exists m]; (split; [apply elem_of_app|done]); [by left|right; by apply list_elem_of_singleton].
    + intros m' [Hm|He'%list_elem_of_singleton]%elem_of_app; [by apply Hn|]. subst m'. split; [exact Hv|]. split; [exact Hb|].
      destruct (byAddress !! _) as [id|]; [right|by left]. by apply negb_false_iff, bool_decide_eq_true in He as ->.
    + intros m' [Hm|Hm%list_elem_of_singleton]%elem_of_app; [destruct (Hall _ Hm); [left; apply elem_of_app; by left|by right]|].
      subst. left. apply elem_of_app. right. by apply list_elem_of_singleton.
Qed.
(** The members of a configuration are its voters. *)
Lemma members_elem node servers m : m ∈ members_of node servers ↔ ∃ server, server ∈ servers ∧ srv_Voter server = true ∧
  m = mkMember (srv_ID server) (srv_Address server) (TrimSpace (default "" (nd_leaderAPIs node !! srv_ID server))).
Proof. unfold members_of. rewrite merge_sort_Permutation, list_elem_of_fmap. setoid_rewrite list_elem_of_filter. naive_solver. Qed.
Lemma additions_new node servers requested byID byAddress x : controllerMembershipIndex (members_of node servers) = (byID, byAddress) →
  expansion_ok byID byAddress requested x → ∀ m server, m ∈ xp_additions x → server ∈ servers → srv_Voter server = true →
  mem_ResourceID m ≠ srv_ID server ∧ mem_Address m ≠ srv_Address server.
Proof.
  intros Hidx Hx m server Hm Hin Hv. destruct (index_spec _ _ _ Hidx) as (H1 & H2 & H3). destruct (xo_new _ _ _ _ Hx m Hm) as (_ & Hid & Haddr).
  assert (∃ m', m' ∈ members_of node servers ∧ mem_ResourceID m' = srv_ID server ∧ mem_Address m' = srv_Address server) as (m' & Hm' & Hi & Ha).
  { eexists. split; [apply members_elem; exists server; split_and!; [exact Hin|exact Hv|reflexivity]|done]. }
  apply H1 in Hid. split.
  - intros He. apply Hid. rewrite He, <- Hi. apply list_elem_of_fmap. by exists m'.
  - intros He. destruct Haddr as [Haddr|Haddr]; [|by apply Hid, (H3 (mem_Address m))].
    apply H2 in Haddr. apply Haddr. rewrite He, <- Ha. apply list_elem_of_fmap. by exists m'.
Qed.
End expansion.

(** The calls of a confirmation of leadership that succeeds, and of a reading of the voters. *)
Definition confirmed (servers : list Server) : list revent :=
  [existT ContextErr false; existT StateIsLeader true; existT VerifyLeader None; existT GetConfiguration (Ok servers)].
(** What may be added to a configuration on a request. *)
Record additions_ok (SplitHostPort : string → option (string * string)) (ParseURL : string → option URL) (requested : list ControllerMember)
    (servers : list Server) (additions : list ControllerMember) : Prop := mk_additions_ok {
  ao_distinct : NoDup (mem_ResourceID <$> additions) ∧ NoDup (mem_Address <$> additions);
  ao_requested : ∀ m, m ∈ additions → validateControllerMember SplitHostPort ParseURL m = Ok tt ∧ ∃ m', m' ∈ requested ∧ m = trimmed m';
  ao_new : ∀ m server, m ∈ additions → server ∈ servers → srv_Voter server = true →
    mem_ResourceID m ≠ srv_ID server ∧ mem_Address m ≠ srv_Address server;
  ao_complete : ∀ m, m ∈ requested → trimmed m ∈ additions ∨
    ∃ server, server ∈ servers ∧ srv_Voter server = true ∧ srv_ID server = mem_ResourceID m ∧ srv_Address server = mem_Address (trimmed m);
  ao_odd : odd_voters (voters servers + Z.of_nat (length additions)) = true
}.
Lemma additions_planned SplitHostPort ParseURL node servers requested byID byAddress x :
  controllerMembershipIndex (members_of node servers) = (byID, byAddress) → expansion_ok SplitHostPort ParseURL byID byAddress requested x →
  odd_voters (voters servers + Z.of_nat (length (xp_additions x))) = true → additions_ok SplitHostPort ParseURL requested servers (xp_additions x).
Proof.
  intros Hidx Hx Hodd. split; [exact (xo_distinct _ _ _ _ _ _ Hx)| |by eapply additions_new| |exact Hodd].
  - intros m Hm. split; [apply (xo_new _ _ _ _ _ _ Hx m Hm)|apply (xo_known _ _ _ _ _ _ Hx m Hm)].
  - intros m Hm. destruct (xo_all _ _ _ _ _ _ Hx m Hm) as [|(existing & He & Ha)]; [by left|right].
    pose proof (index_member (members_of node servers) (mem_ResourceID m) existing) as Hi. rewrite Hidx in Hi. destruct (Hi He) as [Hin Hid].
    apply members_elem in Hin as (server & Hs & Hv & ->). by exists server.
Qed.


(** A retirement removes voters only, never the local controller, and leads to an odd number of at least three. *)
Lemma retirement_loop localID byID ids s : for_each (retirement_step localID byID) (∅, []) ids = Ok s →
  (∀ id, id ∈ s.1 ↔ id ∈ ids) ∧ NoDup s.2 ∧ ∀ id, id ∈ s.2 ↔ id ∈ ids ∧ is_Some (byID !! id).
Proof.
  intros H.
  pattern ids, s. eapply for_each_inv; [exact H|clear H..].
  { cbn. split_and!; [intros id|apply NoDup_nil_2|intros id]; split; [by intros ?%elem_of_empty|by intros ?%elem_of_nil|by intros ?%elem_of_nil|by intros [?%elem_of_nil _]]. }
  intros pre id post [seen1 unique1] [seen2 unique2] _ (Hs & Hnd & Hu) Hstep. cbn [fst snd] in *. unfold retirement_step in Hstep.
  apply require_bind in Hstep as [Hv Hstep]. apply reject_bind in Hstep as [Hn%bool_decide_eq_false Hstep]. rewrite Hs in Hn.
  assert (∀ i, i ∈ {[id]} ∪ seen1 ↔ i ∈ pre ++ [id]) as Hs' by (intros i; rewrite elem_of_union, elem_of_singleton, Hs, elem_of_app, list_elem_of_singleton; tauto).
  destruct (byID !! id) as [m|] eqn:Hb.
  - apply reject_bind in Hstep as [_ [= <- <-]]. split; [exact Hs'|]. split.
    + apply NoDup_app. split_and!; [done| |apply NoDup_singleton]. intros i Hi Hi'%list_elem_of_singleton. subst. by apply Hn, Hu.
    + intros i. rewrite !elem_of_app, !list_elem_of_singleton, Hu. split; [intros [[? ?]|Hi]; [auto|subst; split; [by right|by eexists]]|]. intros [[?|?] ?]; auto.
  - injection Hstep as <- <-. split; [exact Hs'|]. split; [done|]. intros i. rewrite elem_of_app, list_elem_of_singleton, Hu. split; [intros [? ?]; auto|].
    intros [[?|Hi] Hsome]; [auto|]. subst. rewrite Hb in Hsome. by destruct Hsome.
Qed.
Lemma retirement_local localID byID ids seen unique : for_each (retirement_step localID byID) (∅, []) ids = Ok (seen, unique) → localID ∉ unique.
Proof.
  intros H. change unique with (seen, unique).2. pattern ids, (seen, unique). eapply for_each_inv; [exact H|by intros ?%elem_of_nil|].
  intros pre id post [seen1 unique1] [seen2 unique2] _ Hl Hstep. cbn [snd] in *. unfold retirement_step in Hstep.
  apply require_bind in Hstep as [_ Hstep]. apply reject_bind in Hstep as [_ Hstep]. destruct (byID !! id) as [m|]; [|by injection Hstep as <- <-].
  apply reject_bind in Hstep as [Hne%bool_decide_eq_false [= <- <-]]. by intros [?|?%list_elem_of_singleton]%elem_of_app.
Qed.
Lemma remove_voters_changes unique node t r : runs (Sg:=raft_signature) (remove_voters unique node) t r →
  ∃ done rest, unique = done ++ rest ∧ changes t = Removal <$> done ∧ (rest = [] ∨ r.2 ≠ None).
Proof.
  revert node t. induction unique as [|id unique IH]; intros node t; cbn [remove_voters].
  - intros (t1 & t2 & authority & -> & H1 & [-> ->]%runs_inv)%runs_bind. exists [], []. rewrite changes_app, (changes_quiet _ _ _ quiet_authority H1). auto.
  - intros (x & t1 & -> & Hr)%runs_inv. destruct x as [e|].
    + apply runs_inv in Hr as [-> ->]. exists [id], unique. split_and!; [done|done|by right].
    + apply IH in Hr as (done & rest & -> & Hc & Hn). exists (id :: done), rest. split_and!; [done| |done].
      cbn [changes omap list_omap change_of]. fold (changes t1). by rewrite Hc.
Qed.
Lemma controller_retirement ids node t node' err : runs (Sg:=raft_signature) (RemoveControllerVoters ids node) t (node', err) →
  (changes t = [] ∧ (ids = [] ∨ err ≠ None)) ∨
  ∃ servers removed rest t', t = confirmed servers ++ t' ∧ changes t = Removal <$> removed ∧ NoDup (removed ++ rest) ∧
    nd_localID node ∉ removed ++ rest ∧ odd_voters (voters servers - Z.of_nat (length (removed ++ rest))) = true ∧
    (∀ id, id ∈ removed ++ rest → id ∈ ids ∧ ∃ server, server ∈ servers ∧ srv_Voter server = true ∧ srv_ID server = id) ∧
    (rest = [] ∨ err ≠ None).
Proof.
  unfold RemoveControllerVoters. destruct ids as [|first ids']; [intros [-> [= -> ->]]%runs_inv; left; by split; [|left]|].
  set (ids := first :: ids') in *. intros (t1 & t2 & authority & -> & H1 & Hr)%runs_bind. pose proof (changes_quiet _ _ _ quiet_authority H1) as Hq1.
  destruct authority as [e|]; [apply runs_inv in Hr as [-> [= -> ->]]; left; rewrite app_nil_r; split; [done|by right]|].
  apply runs_bind in Hr as (t3 & t4 & current & -> & H3 & Hr). pose proof (changes_quiet _ _ _ (quiet_members _) H3) as Hq3.
  apply members_run in H3 as [[e ->]|(servers & -> & ->)].
  { apply runs_inv in Hr as [-> [= -> ->]]. left. rewrite app_nil_r, changes_app, Hq1, Hq3. split; [done|by right]. }
  apply authority_run in H1 as ->. destruct (controllerMembershipIndex (members_of node servers)) as [byID byAddress] eqn:Hidx.
  destruct (for_each _ _ ids) as [[seen unique]|e] eqn:Hx; [|apply runs_inv in Hr as [-> [= -> ->]]; left; split; [done|by right]].
  rewrite members_count in Hr. destruct (odd_voters _) eqn:Hodd; cbn [negb] in Hr; [|apply runs_inv in Hr as [-> [= -> ->]]; left; split; [done|by right]].
  right. pose proof (retirement_local _ _ _ _ _ Hx) as Hlocal. apply retirement_loop in Hx as (_ & Hnd & Hu). cbn [snd] in Hnd, Hu.
  apply remove_voters_changes in Hr as (removed & rest & -> & Hc & Hn). exists servers, removed, rest, t4. split_and!; [done|exact Hc|done|done|done| |done].
  intros id (Hid & [m Hm])%Hu. split; [done|]. pose proof (index_member (members_of node servers) id m) as Hi. rewrite Hidx in Hi. destruct (Hi Hm) as [Hin <-].
  apply members_elem in Hin as (server & Hs & Hv & ->). by exists server.
Qed.

(** ** Runs *)

Definition rc_split (address : string) : option (string * string) := cut_last ":" address.
(** The servers, and the additions that may still succeed. *)
Definition rc_handle (c : raft_action) (w : list Server * nat) : (list Server * nat) * raft_answer c :=
  match c return (list Server * nat) * raft_answer c with
  | ContextErr => (w, false)
  | StateIsLeader => (w, true)
  | CurrentTerm => (w, 1)
  | VerifyLeader => (w, None)
  | Barrier => (w, None)
  | ApplyLog _ => (w, Ok None)
  | GetConfiguration => (w, Ok w.1)
  | AddVoter id address =>
      match w.2 with O => (w, Some FutureContext) | S n => ((w.1 ++ [mkServer id address true], n), None) end
  | RemoveServer id => ((filter (λ server, srv_ID server ≠ id) w.1, w.2), None)
  end.
Definition rc_node : Node := mkNode w_cluster ∅ "" "" 0.
Definition rc_servers : list Server := [mkServer w_cluster "10.0.0.1:7000" true].
Definition rc_requested : list ControllerMember := [mkMember w_owner " 10.0.0.2:7000" ""; mkMember w_fresh "10.0.0.3:7000" ""].
Definition rc_run (budget : nat) : list revent * (Node * option consensus_error) :=
  trace (Sg:=raft_signature) rc_handle (AddControllerVoters rc_split (λ _, None) rc_requested rc_node) (rc_servers, budget).
(** An addition whose wait was cut short, and which Raft may still complete, is not removed with the others. *)
Theorem unfinished_addition_remains : (rc_run 1).2.2 = Some (ErrRolledBack ErrFuture 0) ∧
  existT (AddVoter w_fresh "10.0.0.3:7000") (Some FutureContext) ∈ (rc_run 1).1 ∧
  changes (rc_run 1).1 = [Added w_owner "10.0.0.2:7000"; NotAdded w_fresh "10.0.0.3:7000"; Removal w_owner].
Proof. split; [vm_compute; reflexivity|]. split; [|vm_compute; reflexivity]. vm_compute. do 5 right. left. Qed.
